(* ===== verification/_CoqProject ===== *)
-Q . S2P
Prelude.v
Triples.v
Json.v
JsonParse.v
JsonRoundTrip.v
Binary64.v
Cost.v
Packet.v
RunnerJournal.v
Runner.v
RunnerFacts.v
NativeBroker.v
NativeBrokerFacts.v
Oracle.v
Sqlite.v
Mechanism.v
MechanismFacts.v
Rehearsal.v
Control.v
D1Port.v
D1Journal.v
D1JournalFacts.v
D1Adapter.v
D1AdapterFacts.v
D1Protocol.v
D1Campaign.v
D1Target.v
D1Rehearsal.v
ExactCount.v
ExactCountFacts.v
Secrets.v
FixedOrigin.v
FixedOriginFacts.v
Evidence.v
Documents.v
Delta.v
DeltaFacts.v
OfflineJournal.v
Restoration.v
RestorationFacts.v
Composition.v
CompositionJournal.v
CompositionFacts.v
CompositionOutcome.v
CompositionRuns.v
CompositionExample.v
Lifecycle.v
LifecycleFacts.v
NativeBinding.v
NativeSender.v
NativeSenderFacts.v
NativeAllocation.v
NativeLiveness.v
NativeExample.v
NativeCustody.v
NativeCustodyFacts.v
NativeCredential.v
NativeCustodyExample.v
SnapshotCodec.v
SnapshotFacts.v
SnapshotCapture.v
SnapshotCollect.v
Preservation.v
PreservationFacts.v
PreservationCapture.v
PreservationExample.v
