(* ===== verification/Prelude.v ===== *)
(** * The PMB-1 maintenance campaign: a verification library

    The repository's Python core is a family of finite, fail-closed operator tools
    around one event: a maintenance window in which a D1 database is closed, its state
    captured and compared, and reopened. Every tool follows one discipline: an action
    is reserved durably before it is dispatched, a failure or a lost acknowledgment
    leaves it spent, and nothing is ever replayed. This library models those tools as
    written and proves that discipline, the exactness of their codecs and validators,
    and what their results mean.

    ** Parts, and the code they model (paths under src/)

    - Prelude: Python exceptions as [exn], fallible pure code as [res], stateful code as
      [M S] (a function of the state that keeps its effects when it fails), their
      notations, texts, digits, decimals and the shared list lemmas and tactics. Triples:
      pre- and postconditions of such code, with one for its errors.
    - Json, JsonParse, JsonRoundTrip: [json.dumps] in canonical form, [json.loads] with
      its hooks, and their round trip. The parser's fuel, twice the length of the text
      and one, is enough: [loads_dumps].
    - probes/pmb1-finite-runner/runner.py: Cost ([Cost], limits), Packet
      ([validate_packet]), RunnerJournal ([Journal] as the class [JournalPort], with
      [SQLiteJournal] its instance), Runner ([Runner._check], [Runner.run], its ports as
      operations of an arbitrary world), RunnerFacts.
    - probes/pmb1-finite-runner/native_journal.py: NativeBroker, NativeBrokerFacts
      ([SQLiteNativeBroker]: leases, leaves, subtrees, any number of instances).
    - probes/pmb1-full-state-oracle/full_state_oracle.py: Oracle ([read_reference],
      [check]).
    - probes/typed-real-encoding/typed_real.py and probes/pmb1-real-profile/
      canonical_real.py: Binary64 (modules [TypedReal] and [CanonicalReal]); a float is
      its 64-bit pattern, rounding is decided on exact integers.
    - probes/pmb1-finite-runner/mechanism.py: Sqlite (the meaning of the statements it
      sends), Mechanism (programs, packet, adapter, oracle), MechanismFacts, Rehearsal
      (all of it composed with Runner and run for each of the twelve cases).
    - probes/pmb1-d1/control.py and its SQL files: Control.
    - probes/pmb1-d1-adapter/adapter.py: D1Port (data, validation, the class
      [D1Journal]), D1Adapter ([Adapter]), D1AdapterFacts, D1Protocol.
    - probes/pmb1-native-d1-binding/journal.py: D1Journal, D1JournalFacts.
    - The last two composed: D1Campaign (any number of adapter instances over one
      journal, proved against the class [D1JournalLaws] which the SQLite journal
      satisfies), D1Target (over an honest control table), D1Rehearsal (a run).
    - probes/pmb1-native-d1-binding/exact_receipt_successor.py and
      positional_receipt_successor.py: ExactCount, ExactCountFacts.
    - scripts/secret_lifecycle_model.py and scripts/secret_ownership_model.py: Secrets
      (modules [Lifecycle] and [Ownership]).
    - scripts/fixed_origin_lifecycle.py: FixedOrigin ([Lifecycle] over an arbitrary
      operations object, clock and journal), FixedOriginFacts (the abstract protocol,
      and an honest provider).
    - Evidence: what the evidence validators share ([_json], [_closed], the text of a
      value, [==] of documents), of scripts/fixed_origin_preservation.py and of the
      native binding.
    - scripts/temporary_composition_delta.py: Delta (the whole validator), DeltaFacts;
      Documents holds the lemmas on documents with distinct keys and their texts.
    - scripts/synthetic_restoration_packet.py: OfflineJournal (a SQLite connection with
      implicit transactions and commits that may fail), Restoration (packet,
      classification, [Journal], [rehearse]), RestorationFacts (every history of it).
    - scripts/temporary_composition_lifecycle.py: Composition (plan, [LifecycleJournal]
      with its owner marker, [SyntheticCompositionProvider] with its faults,
      [rehearse_composition]); CompositionJournal (no replay), CompositionFacts (what a
      receipt accounts for), CompositionOutcome (what confirmed means), CompositionRuns
      (a run without faults completes), CompositionExample; Lifecycle and
      LifecycleFacts (the earlier rehearsal of one receiver, [rehearse], on the same
      journal).
    - probes/pmb1-native-d1-binding/binding.py: NativeBinding (packet activation, guard,
      the durable read query, and [_rows] of scripts/private_d1_snapshot_reader.py).
    - probes/pmb1-native-d1-binding/native_sender.py: NativeSender (admission,
      allocation, requests), NativeSenderFacts (no replay), NativeAllocation (what is
      planned and what is sent), NativeLiveness (a read is answered), NativeExample.
    - probes/pmb1-native-d1-binding/native_custody.py: NativeCustody (the credential, the
      controller - D1Adapter over the sender - and the custodian), NativeCustodyFacts,
      NativeCredential, NativeCustodyExample (one close through all of it).
    - scripts/private_d1_snapshot_codec.py: SnapshotCodec (planner, queries, decoder,
      assembly, collection), SnapshotFacts (what it sends and plans), SnapshotCapture
      (what an answer of SQLite decodes to, and that the assembled content is accepted
      by Oracle's [check]), SnapshotCollect (the two composed over a whole collection).
    - scripts/fixed_origin_preservation.py, with the pins of
      scripts/fixed_origin_restore.py: Preservation (capture of a connection, comparison
      of three snapshots with their gates and receipts), PreservationFacts,
      PreservationCapture, PreservationExample.

    ** What the theorems show

    - No replay: [run_no_replay], [broker_no_replay], [journal_no_replay],
      [d1_journal_dispatches], [campaign_dispatches], [lifecycle_protocol],
      [sender_no_replay], [custody_once], [credential_one_use],
      [composition_no_replay]: over every history of
      instances, crashes and lost acknowledgments an action is dispatched at most once.
    - Results mean what they say: [adapter_refines] (an abstract protocol of effects),
      [target_sound], [campaign_target], [confirmed_earned], [reconcile_observes],
      [run_complete_sound], [run_spends_on_failure], [run_program_order],
      [rehearsal_outcomes], [cleanup_restores], [capture_verified],
      [custody_receipt_genuine], [preservation_sound], [capture_shows],
      [composition_accounts], [composition_confirmed], [lifecycle_confirmed].
    - Only what was planned and admitted is sent: [sender_sends_planned],
      [allocation_sound]; and what is planned is answered, or completes:
      [read_answered], [composition_completes].
    - Durable state stays well formed: [d1_journal_sound], [broker_state],
      [journal_terminal_sticky], [closed_fence], [lifecycle_cleanup], [lifecycle_cas],
      [restoration_in_order];
      a borrowed connection is given back with its transaction state, factories and
      limit as they were: [capture_restores].
    - Codecs and validators are exact: [check_exact], [reference_accepted],
      [canonical_real_exact], [typed_real_correct], [rounds_to_nearest],
      [fromhex_float_hex], [loads_dumps], [request_exact], [exact_count_decides],
      [transition_exact], [confirm_readback_sound], [make_packet_valid], [plan_sound],
      [quoting_exact], [delta_sound].
    - Budgets: [collect_queries], [validate_packet_budget], [validate_packet_identities],
      [validate_packet_program], [read_reference_bounded], [d1_exact_budget],
      [invoke_gated].

    ** How the model reads

    - Python's [int] is [Z]; a finite clock value is an integer too, and a NaN, an
      infinity or a value of another type is [Unusable] or an [Err] of the port. The
      type tests of the source ([type(x) is int]) hold by construction where the model's
      type is exact and are written out where a value of any type may arrive ([pyval],
      [json], [reply]).
    - Strings are lists of code points U+0000 to U+00FF; UTF-8 beyond that range is an
      [External] error of the model, kept apart from the source's refusals.
    - [hashlib.sha256] and the bytes of files are parameters; a theorem that needs a
      pinned file to be the reviewed one says so as a named hypothesis.
    - A SQLite file is a value of its tables. A transaction either fails before anything
      is durable, commits, or commits and loses its acknowledgment; which one is an
      arbitrary function of the call number ([fate]).
    - Ports (clock, source check, writer, observer, custodian) are arbitrary operations
      of an arbitrary world that may also raise; hypotheses on them are named records
      ([Honest], [PortsKeep], [exact_endpoint], [calm_ports]) with concrete instances.
    - Only effects that matter are in a trace, in the order of the code.

    ** Not modelled

    Object identity ([is], [id()]), class checks that only guard against Python
    subclassing, thread locks (a call is one step), module loading, test-only hooks,
    file permissions and durability of the file system. Of the modelled files: the
    branches of the snapshot codec for an explicit profile (a second pinned document
    format), and of binding.py the confirmations file, the complete reader and the
    synthetic port, which only read files and answer from memory. Of the repository:
    the Worker and the clients (TypeScript, Lua), HTTP transport and provider APIs,
    build and documentation scripts, fixtures and live experiments, whose behaviour is
    that of processes, files and hosted services rather than of the code; the manifest
    lists each group with its reason. *)
From Stdlib Require Export Ascii String.
From Stdlib Require Export ZArith Lia.
From Stdlib Require Import DecimalString DecimalN DecimalPos DecimalZ DecimalFacts.
From stdpp Require Export base gmap strings list fin_maps.

#[global] Open Scope Z_scope.

(** ** Python exceptions and results *)

(** [Refusal] is the [Refusal]/[Refused] (a [ValueError]) every component
    declares, with its label; [ReservedAlready] is runner.py's private subclass
    [_CampaignAlreadyReserved]; [External] is every other exception. *)
Inductive exn :=
| Refusal (label : string)
| ReservedAlready (label : string)
| External (label : string).

Inductive res (A : Type) : Type :=
| Ok (a : A)
| Err (e : exn).
Arguments Ok {A} a.
Arguments Err {A} e.

#[export] Instance exn_eq_dec : EqDecision exn.
Proof. solve_decision. Defined.

Definition rbind {A B} (m : res A) (f : A → res B) : res B :=
  match m with Ok a => f a | Err e => Err e end.

(** A Python statement sequence over a state [S] that may raise. *)
Definition M (S A : Type) : Type := S → res A * S.

Definition ret {S A} (a : A) : M S A := λ s, (Ok a, s).
Definition raise {S A} (e : exn) : M S A := λ s, (Err e, s).
Definition bind {S A B} (m : M S A) (f : A → M S B) : M S B := λ s,
  match m s with
  | (Ok a, s') => f a s'
  | (Err e, s') => (Err e, s')
  end.
Definition get {S} : M S S := λ s, (Ok s, s).
Definition gets {S A} (f : S → A) : M S A := λ s, (Ok (f s), s).
Definition put {S} (s : S) : M S unit := λ _, (Ok tt, s).
Definition modify {S} (f : S → S) : M S unit := λ s, (Ok tt, f s).
Definition lift {S A} (r : res A) : M S A := λ s, (r, s).
(** [try m h]: Python's [try: m except Exception as exc: h(exc)]. *)
Definition try {S A} (m : M S A) (h : exn → M S A) : M S A := λ s,
  match m s with
  | (Ok a, s') => (Ok a, s')
  | (Err e, s') => h e s'
  end.
Definition when {S} (b : bool) (m : M S unit) : M S unit := if b then m else ret tt.

Declare Scope py_scope.
Delimit Scope py_scope with py.
Notation "'let*' x := m 'in' k" := (bind m (λ x, k))
  (at level 10, x name, m at level 100, k at level 200) : py_scope.
Notation "'let*' ' p := m 'in' k" := (bind m (λ x, match x with p => k end))
  (at level 10, p pattern, m at level 100, k at level 200) : py_scope.
Notation "m ;* k" := (bind m (λ _, k))
  (at level 199, k at level 200, right associativity) : py_scope.
Notation "'let?' x := m 'in' k" := (rbind m (λ x, k))
  (at level 10, x name, m at level 100, k at level 200) : py_scope.
Notation "'let?' ' p := m 'in' k" := (rbind m (λ x, match x with p => k end))
  (at level 10, p pattern, m at level 100, k at level 200) : py_scope.
Notation "m ;? k" := (rbind m (λ _, k))
  (at level 199, k at level 200, right associativity) : py_scope.
#[global] Open Scope py_scope.

(** [if bad: raise Refusal(label)] *)
Definition refuse_if (bad : bool) (label : string) : res unit :=
  if bad then Err (Refusal label) else Ok tt.
(** [require(ok, label)] *)
Definition require (ok : bool) (label : string) : res unit :=
  if ok then Ok tt else Err (Refusal label).

(** A [for] loop that folds a fallible step over a list. *)
Fixpoint foldR {A B} (f : A → B → res A) (a : A) (l : list B) : res A :=
  match l with
  | [] => Ok a
  | x :: l' => let? a' := f a x in foldR f a' l'
  end.
(** A [for] loop for its raises only. *)
Fixpoint forR {A} (f : A → res unit) (l : list A) : res unit :=
  match l with
  | [] => Ok tt
  | x :: l' => f x ;? forR f l'
  end.
Fixpoint mapR {A B} (f : A → res B) (l : list A) : res (list B) :=
  match l with
  | [] => Ok []
  | x :: l' => let? y := f x in let? ys := mapR f l' in Ok (y :: ys)
  end.

(** ** Python strings

    A [str] is a [string] of code points U+0000 to U+00FF, one [ascii] each; a
    [bytes] is a [string] of its bytes. *)
Definition slen (s : string) : Z := Z.of_nat (String.length s).
Definition code (c : ascii) : Z := Z.of_N (Ascii.N_of_ascii c).
Definition chr (n : Z) : ascii := Ascii.ascii_of_N (Z.to_N n).
Fixpoint str_forall (p : ascii → bool) (s : string) : bool :=
  match s with
  | EmptyString => true
  | String c s' => p c && str_forall p s'
  end.
Definition is_digit (c : ascii) : bool := (48 <=? code c) && (code c <=? 57).
Definition is_hex (c : ascii) : bool := is_digit c || ((97 <=? code c) && (code c <=? 102)).
Definition is_ascii (c : ascii) : bool := code c <? 128.
Definition isascii (s : string) : bool := str_forall is_ascii s.
Definition isdecimal (s : string) : bool :=
  negb (bool_decide (s = EmptyString)) && str_forall is_digit s.
(** A lowercase hexadecimal SHA-2-256 digest text. *)
Definition is_digest (s : string) : bool := (slen s =? 64) && str_forall is_hex s.
Definition head_is (c : ascii) (s : string) : bool :=
  match s with String d _ => bool_decide (c = d) | EmptyString => false end.
Definition startswith (p s : string) : bool := String.prefix p s.
Definition str_in (x : string) (l : list string) : bool := bool_decide (x ∈ l).
Definition mem_char (c : ascii) (s : string) : bool := negb (str_forall (λ d, negb (bool_decide (c = d))) s).

(** [int(s)] of a text of decimal digits and [str(z)]. *)
Definition int_of_str (s : string) : Z :=
  match NilEmpty.uint_of_string s with Some d => Z.of_uint d | None => 0 end.
Definition str_of_int (z : Z) : string := NilZero.string_of_int (Z.to_int z).

(** [s.strip()]: Python's white space among these code points. *)
Definition py_space (c : ascii) : bool :=
  let n := code c in
  ((9 <=? n) && (n <=? 13)) || ((28 <=? n) && (n <=? 32)) || (n =? 133) || (n =? 160).
Fixpoint lstrip (s : string) : string :=
  match s with String c s' => if py_space c then lstrip s' else s | EmptyString => EmptyString end.
Fixpoint rstrip (s : string) : string :=
  match s with
  | EmptyString => EmptyString
  | String c s' => let r := rstrip s' in if py_space c && bool_decide (r = EmptyString) then EmptyString else String c r
  end.
Definition strip (s : string) : string := rstrip (lstrip s).

(** [s.split(sep)] for a separator of one character. *)
Fixpoint split_on (sep : ascii) (s : string) : list string :=
  match s with
  | EmptyString => [EmptyString]
  | String c s' =>
      if bool_decide (c = sep) then EmptyString :: split_on sep s'
      else match split_on sep s' with
           | w :: ws => String c w :: ws
           | [] => [String c EmptyString]
           end
  end.

Definition newline : string := String (chr 10) EmptyString.

(** ** Lemmas on results and statement sequences *)

Create HintDb py discriminated.

Lemma rbind_ok {A B} (m : res A) (f : A → res B) b :
  rbind m f = Ok b ↔ ∃ a, m = Ok a ∧ f a = Ok b.
Proof. destruct m; simpl; split; [eauto|by intros (? & [= ->] & ?)|done|by intros (? & ? & ?)]. Qed.

Lemma bind_inv {S A B} (m : M S A) (f : A → M S B) s r :
  bind m f s = r →
  (∃ a s1, m s = (Ok a, s1) ∧ f a s1 = r) ∨ (∃ e s1, m s = (Err e, s1) ∧ r = (Err e, s1)).
Proof. unfold bind. destruct (m s) as [[a|e] s1]; intros <-; [left|right]; eauto. Qed.

Lemma bind_ok {S A B} (m : M S A) (f : A → M S B) s b s' :
  bind m f s = (Ok b, s') ↔ ∃ a s1, m s = (Ok a, s1) ∧ f a s1 = (Ok b, s').
Proof.
  unfold bind. destruct (m s) as [[a|e] s1].
  - split; [eauto|]. by intros (? & ? & [= -> ->] & ?).
  - split; [done|]. by intros (? & ? & ? & ?).
Qed.

Lemma refuse_if_ok b l : refuse_if b l = Ok tt ↔ b = false.
Proof. by destruct b. Qed.

Lemma require_ok b l : require b l = Ok tt ↔ b = true.
Proof. by destruct b. Qed.

Lemma refuse_if_inv b l e : refuse_if b l = Err e → b = true ∧ e = Refusal l.
Proof. destruct b; simpl; [by intros [= <-]|done]. Qed.

(** *** Postconditions of statement sequences *)

Definition post {S A} (m : M S A) (s : S) (Q : res A → S → Prop) : Prop := Q (m s).1 (m s).2.

Lemma post_bind {S A B} (m : M S A) (f : A → M S B) s Q :
  post m s (λ r s1, match r with Ok x => post (f x) s1 Q | Err e => Q (Err e) s1 end) → post (bind m f) s Q.
Proof. unfold post, bind. destruct (m s) as [[x|e] s1]; done. Qed.
Lemma post_try {S A} (m : M S A) (f : exn → M S A) s Q :
  post m s (λ r s1, match r with Ok x => Q (Ok x) s1 | Err e => post (f e) s1 Q end) → post (try m f) s Q.
Proof. unfold post, try. destruct (m s) as [[x|e] s1]; done. Qed.
Lemma post_eq {S A} (m : M S A) s Q : (∀ r s', m s = (r, s') → Q r s') → post m s Q.
Proof. unfold post. destruct (m s) as [r s'] eqn:E. simpl. auto. Qed.
Lemma post_weaken {S A} (m : M S A) s (P Q : res A → S → Prop) :
  post m s P → (∀ r s', P r s' → Q r s') → post m s Q.
Proof. unfold post. auto. Qed.

(** Turns [m = Ok r] hypotheses of a statement sequence into their steps. *)
Ltac inv_check :=
  repeat match goal with
  | H : rbind _ _ = Ok _ |- _ =>
      let a := fresh "a" in let Ha := fresh "Ha" in let Hb := fresh "Hb" in
      apply rbind_ok in H as (a & Ha & Hb); try match type of a with unit => destruct a end
  | H : refuse_if _ _ = Ok _ |- _ => apply refuse_if_ok in H
  | H : require _ _ = Ok _ |- _ => apply require_ok in H
  | H : Ok _ = Ok _ |- _ => injection H as H; subst
  | H : Err _ = Ok _ |- _ => discriminate H
  end.

(** Reflects every boolean test in the context. *)
Ltac inv_bool :=
  repeat match goal with
  | H : _ || _ = false |- _ => apply orb_false_iff in H as [? ?]
  | H : _ && _ = true |- _ => apply andb_true_iff in H as [? ?]
  | H : negb _ = false |- _ => apply negb_false_iff in H
  | H : negb _ = true |- _ => apply negb_true_iff in H
  | H : (_ <? _) = false |- _ => apply Z.ltb_ge in H
  | H : (_ <? _) = true |- _ => apply Z.ltb_lt in H
  | H : (_ <=? _) = true |- _ => apply Z.leb_le in H
  | H : (_ <=? _) = false |- _ => apply Z.leb_gt in H
  | H : (_ =? _) = true |- _ => apply Z.eqb_eq in H
  | H : (_ =? _) = false |- _ => apply Z.eqb_neq in H
  | H : bool_decide _ = true |- _ => apply bool_decide_eq_true in H
  | H : bool_decide _ = false |- _ => apply bool_decide_eq_false in H
  end.

Lemma foldR_app {A B} (f : A → B → res A) a l1 l2 :
  foldR f a (l1 ++ l2) = let? a' := foldR f a l1 in foldR f a' l2.
Proof. revert a. induction l1 as [|x l1 IH]; intros a; simpl; [done|]. destruct (f a x); simpl; auto. Qed.

(** The loop invariant rule: a step that keeps [P] on the consumed prefix. *)
Lemma foldR_ind {A B} (f : A → B → res A) (P : list B → A → Prop) l :
  ∀ pre a a', P pre a →
  (∀ pre x b b', P pre b → x ∈ l → f b x = Ok b' → P (pre ++ [x]) b') →
  foldR f a l = Ok a' → P (pre ++ l) a'.
Proof.
  induction l as [|x l IH]; intros pre a a' H0 Hs; simpl.
  - intros [= <-]. by rewrite app_nil_r.
  - rewrite rbind_ok. intros (b & Hb & Hl).
    replace (pre ++ x :: l) with ((pre ++ [x]) ++ l) by by rewrite <- app_assoc.
    eapply IH; [| |exact Hl].
    + eapply Hs; [exact H0|set_solver|exact Hb].
    + intros. eapply Hs; [done|set_solver|done].
Qed.

Lemma forR_ok {A} (f : A → res unit) l : forR f l = Ok tt ↔ ∀ x, x ∈ l → f x = Ok tt.
Proof.
  induction l as [|x l IH]; simpl.
  - split; [set_solver|done].
  - rewrite rbind_ok. setoid_rewrite elem_of_cons. split.
    + intros ([] & Hx & Hl) y [->|Hy]; [done|]. by apply IH.
    + intros H. exists tt. split; [apply H; by left|]. apply IH. auto.
Qed.

Lemma mapR_length {A B} (f : A → res B) l l' : mapR f l = Ok l' → length l' = length l.
Proof.
  revert l'. induction l as [|x l IH]; intros l'; simpl; [by intros [= <-]|].
  rewrite rbind_ok. intros (y & _ & H). apply rbind_ok in H as (ys & Hys & [= <-]).
  simpl. by rewrite (IH _ Hys).
Qed.

Lemma mapR_forall2 {A B} (f : A → res B) l l' :
  mapR f l = Ok l' ↔ Forall2 (λ x y, f x = Ok y) l l'.
Proof.
  revert l'. induction l as [|x l IH]; intros l'; simpl.
  - split; [by intros [= <-]|]. by inversion 1.
  - rewrite rbind_ok. setoid_rewrite rbind_ok. setoid_rewrite IH. split.
    + intros (y & Hy & ys & Hys & [= <-]). by constructor.
    + intros H. inversion H; subst. eauto 10.
Qed.

(** ** Lemmas on lists *)

Lemma filter_none {A} (P : A → Prop) `{!∀ x, Decision (P x)} (l : list A) :
  (∀ x, x ∈ l → ¬ P x) → filter P l = [].
Proof.
  intros Hl. induction l as [|x l IH]; [done|].
  rewrite filter_cons_False by (apply Hl; set_solver). apply IH. set_solver.
Qed.

Lemma filter_all {A} (P : A → Prop) `{!∀ x, Decision (P x)} (l : list A) :
  (∀ x, x ∈ l → P x) → filter P l = l.
Proof.
  intros Hl. induction l as [|x l IH]; [done|].
  rewrite filter_cons_True by (apply Hl; set_solver). f_equal. apply IH. set_solver.
Qed.

Lemma existsb_decide_false {A} (P : A → Prop) `{!∀ x, Decision (P x)} (l : list A) :
  existsb (λ x, bool_decide (P x)) l = false ↔ ∀ x, x ∈ l → ¬ P x.
Proof.
  rewrite <- not_true_iff_false, existsb_exists. split.
  - intros Hl x Hx HP. apply Hl. exists x. by rewrite <- list_elem_of_In, bool_decide_eq_true.
  - intros Hl (x & Hx & HP). apply list_elem_of_In in Hx. apply bool_decide_eq_true in HP. by apply (Hl x).
Qed.

Lemma filter_ext_in {A} (P Q : A → Prop) `{!∀ x, Decision (P x)} `{!∀ x, Decision (Q x)} (l : list A) :
  (∀ x, x ∈ l → P x ↔ Q x) → filter P l = filter Q l.
Proof.
  induction l as [|x l IH]; intros Hl; [done|]. rewrite !filter_cons.
  rewrite IH by set_solver. assert (P x ↔ Q x) by set_solver.
  destruct (decide (P x)), (decide (Q x)); naive_solver.
Qed.

Lemma NoDup_rev_inv {A} (l : list A) : NoDup (rev l) → NoDup l.
Proof.
  rewrite !NoDup_ListNoDup. intros Hl. apply List.NoDup_rev in Hl. by rewrite rev_involutive in Hl.
Qed.

Lemma Forall_filter_sub {A} (R P : A → Prop) `{!∀ x, Decision (P x)} (l : list A) :
  Forall R l → Forall R (filter P l).
Proof. rewrite !Forall_forall. intros Hl x Hx. apply list_elem_of_filter in Hx as [_ ?]. auto. Qed.

(** ** Lemmas on strings and decimal text *)

Lemma str_forall_app p s t : str_forall p (s +:+ t) = str_forall p s && str_forall p t.
Proof. induction s as [|c s IH]; simpl; [done|]. by rewrite IH, andb_assoc. Qed.

Lemma str_forall_impl p q s : (∀ c, p c = true → q c = true) → str_forall p s = true → str_forall q s = true.
Proof.
  intros H. induction s as [|c s IH]; simpl; [done|].
  rewrite !andb_true_iff. intros [? ?]. split; auto.
Qed.

Lemma slen_nonneg s : 0 <= slen s.
Proof. unfold slen. lia. Qed.

Lemma slen_app s t : slen (s +:+ t) = slen s + slen t.
Proof.
  unfold slen. rewrite <- Nat2Z.inj_add. f_equal.
  induction s as [|c s IH]; [done|]. change (S (String.length (s +:+ t)) = S (String.length s + String.length t)%nat).
  by rewrite IH.
Qed.

Lemma str_app_assoc s t u : (s +:+ t) +:+ u = s +:+ (t +:+ u).
Proof. induction s as [|c s IH]; [done|exact (f_equal (String c) IH)]. Qed.

Lemma str_app_nil_r s : s +:+ EmptyString = s.
Proof. induction s as [|c s IH]; [done|exact (f_equal (String c) IH)]. Qed.

Lemma code_chr n : 0 <= n < 256 → code (chr n) = n.
Proof. intros H. unfold code, chr. rewrite Ascii.N_ascii_embedding by lia. lia. Qed.

Lemma code_range c : 0 <= code c < 256.
Proof. unfold code. pose proof (Ascii.N_ascii_bounded c). lia. Qed.

Lemma code_inj c d : code c = code d → c = d.
Proof.
  unfold code. intros H. rewrite <- (Ascii.ascii_N_embedding c), <- (Ascii.ascii_N_embedding d).
  f_equal. lia.
Qed.

(** A text of digits is one [Decimal.uint], and printing it gives it back. *)
Lemma digit_cases c : is_digit c = true →
  c ∈ ["0"; "1"; "2"; "3"; "4"; "5"; "6"; "7"; "8"; "9"]%char.
Proof.
  unfold is_digit. rewrite andb_true_iff, !Z.leb_le. intros [H1 H2].
  assert (∃ n, 0 <= n < 10 ∧ code c = 48 + n) as (n & Hn & Hc) by (exists (code c - 48); lia).
  assert (n = 0 ∨ n = 1 ∨ n = 2 ∨ n = 3 ∨ n = 4 ∨ n = 5 ∨ n = 6 ∨ n = 7 ∨ n = 8 ∨ n = 9)
    as Hcase by lia.
  rewrite !elem_of_cons.
  repeat (destruct Hcase as [->|Hcase]; [do 10 (try (left; apply code_inj; exact Hc); right)|]).
  subst n. do 9 right. left. apply code_inj. exact Hc.
Qed.

Lemma digits_uint s : str_forall is_digit s = true → ∃ d, NilEmpty.uint_of_string s = Some d.
Proof.
  induction s as [|c s IH]; simpl; [eauto|]. rewrite andb_true_iff. intros [Hc Hs].
  destruct (IH Hs) as [d Hd]. apply digit_cases in Hc. rewrite Hd.
  rewrite !elem_of_cons, elem_of_nil in Hc.
  destruct Hc as [->|[->|[->|[->|[->|[->|[->|[->|[->|[->|[]]]]]]]]]]]; simpl; eauto.
Qed.

Lemma uint_digits s d : NilEmpty.uint_of_string s = Some d → str_forall is_digit s = true.
Proof.
  revert d. induction s as [|c s IH]; intros d; simpl; [done|].
  destruct (NilEmpty.uint_of_string s) as [d'|] eqn:E; simpl.
  - intros H. rewrite (IH d') by done. rewrite andb_true_r.
    destruct c as [[] [] [] [] [] [] [] []]; simpl in H; done || reflexivity.
  - destruct c as [[] [] [] [] [] [] [] []]; simpl; done.
Qed.

Lemma int_of_str_nonneg s : 0 <= int_of_str s.
Proof.
  unfold int_of_str. destruct (NilEmpty.uint_of_string s) as [d|]; [|lia].
  unfold Z.of_uint. lia.
Qed.

Lemma string_of_uint_nonempty d : d ≠ Decimal.Nil →
  NilZero.string_of_uint d = NilEmpty.string_of_uint d.
Proof. by destruct d. Qed.

(** [str(int(s)) == s] for a decimal text without a leading zero. *)
Lemma str_of_int_of_str s :
  isdecimal s = true → head_is "0" s = false → str_of_int (int_of_str s) = s.
Proof.
  unfold isdecimal. rewrite andb_true_iff, negb_true_iff, bool_decide_eq_false.
  intros [Hne Hd] Hh. destruct (digits_uint s Hd) as [d Hs].
  unfold int_of_str, str_of_int. rewrite Hs.
  assert (Z.to_int (Z.of_uint d) = Decimal.Pos (Decimal.unorm d)) as ->.
  { exact (DecimalZ.to_of (Decimal.Pos d)). }
  pose proof (NilEmpty.sus _ _ Hs) as Hprint. simpl.
  assert (Decimal.unorm d = d ∧ d ≠ Decimal.Nil) as [-> Hnil].
  { destruct d; simpl in Hprint; subst; try done. }
  rewrite string_of_uint_nonempty; done.
Qed.

(** [int(str(z)) == z] for a nonnegative [z]. *)
Lemma int_of_str_of_int z : 0 <= z → int_of_str (str_of_int z) = z.
Proof.
  intros Hz. unfold str_of_int, int_of_str. pose proof (DecimalZ.of_to z) as Hof.
  destruct (Z.to_int z) as [d|d] eqn:E.
  - simpl. assert (d ≠ Decimal.Nil) as Hnil.
    { intros ->. destruct z as [|p|p]; simpl in E; simplify_eq.
      all: apply (DecimalPos.Unsigned.to_uint_nonnil p); congruence. }
    rewrite string_of_uint_nonempty, NilEmpty.usu by done. exact Hof.
  - destruct z as [|p|p]; simpl in E; [done|done|lia].
Qed.

Lemma str_of_int_inj z1 z2 : 0 <= z1 → 0 <= z2 → str_of_int z1 = str_of_int z2 → z1 = z2.
Proof. intros H1 H2 H. by rewrite <- (int_of_str_of_int z1), <- (int_of_str_of_int z2), H. Qed.

(** [str(z)] of a positive [z] is itself a canonical decimal text. *)
Lemma str_of_int_decimal z :
  0 < z → isdecimal (str_of_int z) = true ∧ head_is "0" (str_of_int z) = false.
Proof.
  intros Hz. unfold str_of_int. destruct z as [|p|p]; [lia| |lia].
  change (Z.to_int (Z.pos p)) with (Decimal.Pos (Pos.to_uint p)).
  unfold NilZero.string_of_int.
  pose proof (DecimalPos.Unsigned.to_uint_nonnil p) as Hnil.
  pose proof (DecimalPos.Unsigned.to_of (Pos.to_uint p)) as Hnorm.
  rewrite DecimalPos.Unsigned.of_to in Hnorm.
  change (Pos.to_uint p = Decimal.unorm (Pos.to_uint p)) in Hnorm.
  rewrite string_of_uint_nonempty by done.
  pose proof (NilEmpty.usu (Pos.to_uint p)) as Hs. apply uint_digits in Hs as Hd.
  unfold isdecimal. rewrite Hd, andb_true_r.
  destruct (Pos.to_uint p) eqn:E; simpl; try done.
  exfalso. unfold Decimal.unorm in Hnorm.
  destruct (Decimal.nzhead (Decimal.D0 u)) eqn:En; try done.
  - by apply (DecimalPos.Unsigned.to_uint_nonzero p); rewrite E.
  - by destruct (nzhead_nonzero (Decimal.D0 u) u0).
Qed.

(** ** Code point order of strings *)

Definition text_le (s t : string) : Prop := String.leb s t = true.
#[export] Instance text_le_dec s t : Decision (text_le s t).
Proof. unfold text_le. apply _. Defined.

Lemma text_le_cons a s b t :
  text_le (String a s) (String b t) ↔ (code a < code b) ∨ (a = b ∧ text_le s t).
Proof.
  unfold text_le, String.leb. simpl. unfold Ascii.compare, code.
  destruct (N.compare_spec (N_of_ascii a) (N_of_ascii b)) as [H|H|H].
  - apply (f_equal Ascii.ascii_of_N) in H. rewrite !Ascii.ascii_N_embedding in H. subst b.
    split; [by right|]. intros [?|[_ ?]]; [lia|done].
  - split; [intros _; left; lia|done].
  - split; [done|]. intros [?|[-> _]]; lia.
Qed.

#[export] Instance text_le_trans : Transitive text_le.
Proof.
  intros s. induction s as [|a s IH]; intros t u H1 H2.
  - by destruct u.
  - destruct t as [|b t]; [done|]. destruct u as [|c u]; [done|].
    rewrite text_le_cons in *. destruct H1 as [H1|[-> H1]], H2 as [H2|[-> H2]]; [left; lia|by left|by left|].
    right. split; [done|]. by eapply IH.
Qed.
#[export] Instance text_le_antisym : AntiSymm (=) text_le.
Proof. intros s t. apply String.leb_antisym. Qed.
#[export] Instance text_le_total : Total text_le.
Proof. intros s t. apply String.leb_total. Qed.

(** ** Size of decimal text *)

Lemma of_uint_acc_value d acc :
  Z.pos (Pos.of_uint_acc d acc) = Z.pos acc * 10 ^ Z.of_nat (Decimal.nb_digits d) + Z.of_uint d.
Proof.
  assert (∀ n, 10 ^ Z.of_nat (S n) = 10 * 10 ^ Z.of_nat n) as Hp
    by (intros n; rewrite Nat2Z.inj_succ, Z.pow_succ_r by lia; done).
  revert acc. induction d as [|d IH|d IH|d IH|d IH|d IH|d IH|d IH|d IH|d IH|d IH]; intros acc;
    cbn [Pos.of_uint_acc Decimal.nb_digits]; rewrite ?Hp;
    [unfold Z.of_uint; simpl; lia|..];
    rewrite IH; unfold Z.of_uint in *; cbn [Pos.of_uint]; rewrite ?(IH 1%positive);
    try (cbn [Z.of_N]; rewrite IH); lia.
Qed.

Lemma of_uint_cons (f : Decimal.uint → Decimal.uint) (n : positive) d :
  (∀ x, Pos.of_uint (f x) = N.pos (Pos.of_uint_acc x n)) →
  Z.of_uint (f d) = Z.pos n * 10 ^ Z.of_nat (Decimal.nb_digits d) + Z.of_uint d.
Proof. intros H. unfold Z.of_uint at 1. rewrite H. cbn [Z.of_N]. apply of_uint_acc_value. Qed.

Lemma of_uint_lower d : Z.of_uint d < 10 ^ Z.of_nat (Decimal.nb_digits d).
Proof.
  assert (∀ n, 10 ^ Z.of_nat (S n) = 10 * 10 ^ Z.of_nat n) as Hp
    by (intros n; rewrite Nat2Z.inj_succ, Z.pow_succ_r by lia; done).
  assert (∀ n, 0 < 10 ^ Z.of_nat n) as Hpos by (intros; apply Z.pow_pos_nonneg; lia).
  induction d as [|d IH|d IH|d IH|d IH|d IH|d IH|d IH|d IH|d IH|d IH]; cbn [Decimal.nb_digits]; rewrite ?Hp;
    specialize (Hpos (Decimal.nb_digits d)) || idtac; try done;
    first [change (Z.of_uint (Decimal.D0 d)) with (Z.of_uint d); lia
          | rewrite (of_uint_cons Decimal.D1 1) by done; lia | rewrite (of_uint_cons Decimal.D2 2) by done; lia
          | rewrite (of_uint_cons Decimal.D3 3) by done; lia | rewrite (of_uint_cons Decimal.D4 4) by done; lia
          | rewrite (of_uint_cons Decimal.D5 5) by done; lia | rewrite (of_uint_cons Decimal.D6 6) by done; lia
          | rewrite (of_uint_cons Decimal.D7 7) by done; lia | rewrite (of_uint_cons Decimal.D8 8) by done; lia
          | rewrite (of_uint_cons Decimal.D9 9) by done; lia].
Qed.

Lemma uint_text_length d : String.length (NilEmpty.string_of_uint d) = Decimal.nb_digits d.
Proof. induction d; simpl; congruence. Qed.

Lemma pow10_S n : 10 ^ Z.of_nat (S n) = 10 * 10 ^ Z.of_nat n.
Proof. by rewrite Nat2Z.inj_succ, Z.pow_succ_r by lia. Qed.

(** A decimal text without a leading zero has one digit per power of ten. *)
Lemma decimal_lower s : isdecimal s = true → head_is "0" s = false → 10 ^ (slen s - 1) <= int_of_str s.
Proof.
  unfold isdecimal, slen, int_of_str. rewrite andb_true_iff. intros [_ Hd] Hh.
  destruct (digits_uint s Hd) as [d Hs]. rewrite Hs.
  pose proof (NilEmpty.sus _ _ Hs) as Hp. rewrite <- Hp in *. rewrite uint_text_length.
  assert (∀ x, 0 <= Z.of_uint x) as H0 by (intros x; unfold Z.of_uint; lia).
  assert (∀ x, Z.of_nat (S (Decimal.nb_digits x)) - 1 = Z.of_nat (Decimal.nb_digits x)) as E by lia.
  destruct d as [|d|d|d|d|d|d|d|d|d|d]; cbn [Decimal.nb_digits]; rewrite ?E;
    [done|cbn in Hh; done|..]; specialize (H0 d);
    assert (0 < 10 ^ Z.of_nat (Decimal.nb_digits d)) by (apply Z.pow_pos_nonneg; lia);
    first [ rewrite (of_uint_cons Decimal.D1 1) by done; lia | rewrite (of_uint_cons Decimal.D2 2) by done; lia
          | rewrite (of_uint_cons Decimal.D3 3) by done; lia | rewrite (of_uint_cons Decimal.D4 4) by done; lia
          | rewrite (of_uint_cons Decimal.D5 5) by done; lia | rewrite (of_uint_cons Decimal.D6 6) by done; lia
          | rewrite (of_uint_cons Decimal.D7 7) by done; lia | rewrite (of_uint_cons Decimal.D8 8) by done; lia
          | rewrite (of_uint_cons Decimal.D9 9) by done; lia].
Qed.
