(* ===== verification/Triples.v ===== *)
(** Triples over a state monad with errors: from a state of the precondition a program
    returns in the postcondition or raises in the exceptional one. *)
From S2P Require Import Prelude.

(** From a state of [P], [m] returns in [Q] or raises in [E]. *)
Definition triple {S A} (P : S → Prop) (m : M S A) (Q : A → S → Prop) (E : S → Prop) : Prop :=
  ∀ s, P s → match m s with (Ok x, s') => Q x s' | (Err _, s') => E s' end.

Section Triples.
Context {S : Type}.
Implicit Types (P E : S → Prop).
Lemma triple_bind {A B} P (m : M S A) (f : A → M S B) Q R E : triple P m Q E → (∀ x, triple (Q x) (f x) R E) → triple P (bind m f) R E.
Proof. intros Hm Hf s Hs. specialize (Hm s Hs). unfold bind. destruct (m s) as [[x|e] s']; [by apply Hf|done]. Qed.
Lemma triple_ret {A} P (x : A) Q E : (∀ s, P s → Q x s) → triple P (ret x) Q E.
Proof. intros H s Hs. by apply H. Qed.
Lemma triple_gets {A} P (f : S → A) Q E : (∀ s, P s → Q (f s) s) → triple P (gets f) Q E.
Proof. intros H s Hs. by apply H. Qed.
Lemma triple_get P Q E : (∀ s, P s → Q s s) → triple P Prelude.get Q E.
Proof. intros H s Hs. by apply H. Qed.
Lemma triple_modify P f Q E : (∀ s, P s → Q tt (f s)) → triple P (modify f) Q E.
Proof. intros H s Hs. by apply H. Qed.
Lemma triple_lift {A} P (r : res A) Q E : (∀ s x, P s → r = Ok x → Q x s) → (∀ s, P s → E s) → triple P (lift r) Q E.
Proof. intros H1 H2 s Hs. cbn. destruct r; [by apply H1|by apply H2]. Qed.
Lemma triple_try {A} P (m : M S A) h Q E E' : triple P m Q E → (∀ e, triple E (h e) Q E') → triple P (try m h) Q E'.
Proof. intros Hm Hh s Hs. specialize (Hm s Hs). unfold try. destruct (m s) as [[x|e] s']; [done|by apply Hh]. Qed.
Lemma triple_if {A} P (b : bool) (m n : M S A) Q E :
  triple (λ s, P s ∧ b = true) m Q E → triple (λ s, P s ∧ b = false) n Q E → triple P (if b then m else n) Q E.
Proof. intros Hm Hn s Hs. destruct b; [by apply Hm|by apply Hn]. Qed.
Lemma triple_weaken {A} P (m : M S A) Q E (P' : S → Prop) (Q' : A → S → Prop) (E' : S → Prop) :
  triple P m Q E → (∀ s, P' s → P s) → (∀ x s, Q x s → Q' x s) → (∀ s, E s → E' s) → triple P' m Q' E'.
Proof. intros H HP HQ HE s Hs. specialize (H s (HP s Hs)). destruct (m s) as [[x|e] s']; auto. Qed.
End Triples.
Lemma triple_pre {S A} (P P' : S → Prop) (m : M S A) Q E : (∀ s, P' s → P s) → triple P m Q E → triple P' m Q E.
Proof. intros HP H s Hs. by apply H, HP. Qed.
Lemma triple_exists {S A X} (P : X → S → Prop) (m : M S A) Q E : (∀ x, triple (P x) m Q E) → triple (λ s, ∃ x, P x s) m Q E.
Proof. intros H s [x Hs]. by apply (H x). Qed.
Lemma triple_pure {S A} (φ : Prop) (P : S → Prop) (m : M S A) Q E : (φ → triple P m Q E) → triple (λ s, φ ∧ P s) m Q E.
Proof. intros H s [Hφ Hs]. by apply H. Qed.
Lemma triple_pure_r {S A} (φ : Prop) (P : S → Prop) (m : M S A) Q E : (φ → triple P m Q E) → triple (λ s, P s ∧ φ) m Q E.
Proof. intros H s [Hs Hφ]. by apply H. Qed.
