(* ===== verification/Json.v ===== *)
(** JSON documents and the canonical text every component hashes, stores or
    measures: [json.dumps(v, sort_keys=True, separators=(",", ":"))] with the
    default [ensure_ascii=True]. *)
From S2P Require Import Prelude.

(** Documents. The encoders modelled here print [None], booleans, integers,
    strings, lists and string-keyed objects; [JFloat] is a number read back with
    a fraction or an exponent (or a non-finite constant), kept as its literal. *)
Inductive json :=
| JNull
| JBool (b : bool)
| JInt (z : Z)
| JFloat (literal : string)
| JStr (s : string)
| JArr (l : list json)
| JObj (kvs : list (string * json)).

Definition hex_digit (n : Z) : ascii := if n <? 10 then chr (48 + n) else chr (87 + n).
Definition hex_byte (c : ascii) : string :=
  String (hex_digit (code c / 16)) (String (hex_digit (code c mod 16)) EmptyString).

(** py_encode_basestring_ascii on one code point. *)
Definition escape_char (c : ascii) : string :=
  let n := code c in
  if n =? 34 then "\" +:+ String (chr 34) EmptyString
  else if n =? 92 then "\\"
  else if n =? 10 then "\n"
  else if n =? 13 then "\r"
  else if n =? 9 then "\t"
  else if n =? 12 then "\f"
  else if n =? 8 then "\b"
  else if (32 <=? n) && (n <=? 126) then String c EmptyString
  else "\u00" +:+ hex_byte c.

Fixpoint escape (s : string) : string :=
  match s with
  | EmptyString => EmptyString
  | String c s' => escape_char c +:+ escape s'
  end.

Definition dquote : string := String (chr 34) EmptyString.
Definition quoted (s : string) : string := dquote +:+ escape s +:+ dquote.

Fixpoint joined (sep : string) (l : list string) : string :=
  match l with
  | [] => EmptyString
  | [x] => x
  | x :: l' => x +:+ sep +:+ joined sep l'
  end.

(** [sorted(d.items())]: keys of one object are distinct. *)
Fixpoint insert_key {A} (x : string * A) (l : list (string * A)) : list (string * A) :=
  match l with
  | [] => [x]
  | y :: l' => if String.leb (fst x) (fst y) then x :: y :: l' else y :: insert_key x l'
  end.
Definition sort_keys {A} (l : list (string * A)) : list (string * A) := foldr insert_key [] l.

Fixpoint dumps (j : json) : string :=
  match j with
  | JNull => "null"
  | JBool true => "true"
  | JBool false => "false"
  | JInt z => str_of_int z
  | JFloat t => t
  | JStr s => quoted s
  | JArr l => "[" +:+ joined "," (map dumps l) +:+ "]"
  | JObj kvs =>
      "{" +:+ joined "," (map (λ kt, quoted (fst kt) +:+ ":" +:+ snd kt)
        (sort_keys (map (λ kv, (fst kv, dumps (snd kv))) kvs))) +:+ "}"
  end.

Definition JOpt {A} (f : A → json) (o : option A) : json :=
  match o with Some a => f a | None => JNull end.

(** The length of the canonical text, without building it. *)
Definition json_len (j : json) : Z := slen (dumps j).

Lemma slen_joined sep l :
  slen (joined sep l) = foldr (λ x n, slen x + n) 0 l + slen sep * Z.of_nat (pred (length l)).
Proof.
  induction l as [|x l IH]; [unfold slen; simpl; lia|]. destruct l as [|y l].
  - simpl. lia.
  - change (joined sep (x :: y :: l)) with (x +:+ sep +:+ joined sep (y :: l)).
    rewrite !slen_app, IH. simpl foldr. simpl pred. simpl length. lia.
Qed.

(** A text whose characters all print as themselves is as long as its source. *)
Definition plain (c : ascii) : bool :=
  (32 <=? code c) && (code c <=? 126) && negb (code c =? 34) && negb (code c =? 92).

Lemma escape_plain s : str_forall plain s = true → escape s = s.
Proof.
  induction s as [|c s IH]; simpl; [done|]. rewrite andb_true_iff. intros [Hc Hs].
  rewrite (IH Hs). unfold plain in Hc. rewrite !andb_true_iff, !negb_true_iff in Hc.
  destruct Hc as [[[H1 H2] H3] H4]. unfold escape_char. rewrite H3, H4, H1, H2.
  rewrite Z.leb_le in H1.
  do 5 (rewrite (proj2 (Z.eqb_neq _ _)) by lia). reflexivity.
Qed.

Lemma is_hex_plain c : is_hex c = true → plain c = true.
Proof.
  unfold is_hex, is_digit, plain. rewrite orb_true_iff, !andb_true_iff, !negb_true_iff,
    !Z.eqb_neq, !Z.leb_le. lia.
Qed.

Lemma slen_quoted_digest s : is_digest s = true → slen (quoted s) = 66.
Proof.
  unfold is_digest. rewrite andb_true_iff, Z.eqb_eq. intros [Hl Hh].
  unfold quoted. rewrite !slen_app, escape_plain, Hl; [reflexivity|].
  revert Hh. apply str_forall_impl, is_hex_plain.
Qed.

(** The length of an object does not depend on the order of its keys. *)
Definition text_sum (l : list string) : Z := foldr (λ x n, slen x + n) 0 l.

Lemma text_sum_perm l l' : l ≡ₚ l' → text_sum l = text_sum l'.
Proof. induction 1; simpl in *; lia. Qed.

Lemma insert_key_perm {A} (x : string * A) l : insert_key x l ≡ₚ x :: l.
Proof. induction l as [|y l IH]; simpl; [done|]. destruct (String.leb _ _); [done|]. rewrite IH. constructor. Qed.
Lemma sort_keys_perm {A} (l : list (string * A)) : sort_keys l ≡ₚ l.
Proof. induction l as [|x l IH]; simpl; [done|]. by rewrite insert_key_perm, IH. Qed.

Lemma json_len_nonneg j : 0 <= json_len j.
Proof. apply slen_nonneg. Qed.
Lemma json_len_obj kvs :
  json_len (JObj kvs) = 2 + foldr (λ kv n, slen (quoted kv.1) + 1 + json_len kv.2 + n) 0 kvs
                        + Z.of_nat (pred (length kvs)).
Proof.
  unfold json_len at 1. cbn [dumps]. rewrite !slen_app, slen_joined. fold text_sum.
  set (g := λ kv : string * json, (kv.1, dumps kv.2)).
  rewrite length_map, (Permutation_length (sort_keys_perm (map g kvs))), length_map.
  rewrite (text_sum_perm _ (map (λ kt, quoted kt.1 +:+ ":" +:+ kt.2) (map g kvs))) by (apply Permutation_map, sort_keys_perm).
  change (slen "{") with 1. change (slen "}") with 1. change (slen ",") with 1.
  assert (text_sum (map (λ kt, quoted kt.1 +:+ ":" +:+ kt.2) (map g kvs))
    = foldr (λ kv n, slen (quoted kv.1) + 1 + json_len kv.2 + n) 0 kvs) as ->; [|lia].
  clear. induction kvs as [|kv kvs IH]; [done|]. cbn [map text_sum foldr]. fold (text_sum (map (λ kt, quoted kt.1 +:+ ":" +:+ kt.2) (map g kvs))).
  rewrite IH, !slen_app. change (slen ":") with 1. unfold json_len, g. cbn [fst snd]. lia.
Qed.

Lemma json_len_arr l : json_len (JArr l) = 2 + foldr (λ j n, json_len j + n) 0 l + Z.of_nat (pred (length l)).
Proof.
  unfold json_len at 1. cbn [dumps]. rewrite !slen_app, slen_joined, length_map.
  change (slen "[") with 1. change (slen "]") with 1. change (slen ",") with 1.
  assert (foldr (λ x n, slen x + n) 0 (map dumps l) = foldr (λ j n, json_len j + n) 0 l) as ->; [|lia].
  induction l as [|j l IH]; [done|]. cbn [map foldr]. by rewrite IH.
Qed.

Lemma json_len_digest s : is_digest s = true → json_len (JStr s) = 66.
Proof. apply slen_quoted_digest. Qed.
