(* ===== verification/JsonParse.v ===== *)
(** [json.loads] on the documents the components read back, dictionaries as
    association lists, and the Python values the ports hand over. *)
From S2P Require Import Prelude Json.

(** ** Documents read back *)

Definition hex_value (c : ascii) : option Z :=
  let n := code c in
  if (48 <=? n) && (n <=? 57) then Some (n - 48)
  else if (97 <=? n) && (n <=? 102) then Some (n - 87)
  else if (65 <=? n) && (n <=? 70) then Some (n - 55)
  else None.

Definition is_space (c : ascii) : bool :=
  let n := code c in (n =? 32) || (n =? 9) || (n =? 10) || (n =? 13).

Fixpoint skip_space (s : string) : string :=
  match s with
  | String c s' => if is_space c then skip_space s' else s
  | EmptyString => EmptyString
  end.

(** The characters of a string literal up to its closing quote; code points
    above U+00FF have no [string] here. *)
Fixpoint parse_chars (s : string) : option (string * string) :=
  match s with
  | EmptyString => None
  | String c s1 =>
      if code c =? 34 then Some (EmptyString, s1)
      else if code c =? 92 then
        match s1 with
        | String e s2 =>
            let keep n s' := option_map (λ r, (String (chr n) r.1, r.2)) (parse_chars s') in
            let n := code e in
            if (n =? 34) || (n =? 92) || (n =? 47) then keep n s2
            else if n =? 110 then keep 10 s2
            else if n =? 114 then keep 13 s2
            else if n =? 116 then keep 9 s2
            else if n =? 102 then keep 12 s2
            else if n =? 98 then keep 8 s2
            else if n =? 117 then
              match s2 with
              | String h1 (String h2 (String h3 (String h4 s3))) =>
                  match hex_value h1, hex_value h2, hex_value h3, hex_value h4 with
                  | Some 0, Some 0, Some a, Some b => keep (16 * a + b) s3
                  | _, _, _, _ => None
                  end
              | _ => None
              end
            else None
        | EmptyString => None
        end
      else if code c <? 32 then None
      else option_map (λ r, (String c r.1, r.2)) (parse_chars s1)
  end.

Fixpoint take_digits (s : string) : string * string :=
  match s with
  | String c s' => if is_digit c then let r := take_digits s' in (String c r.1, r.2) else (EmptyString, s)
  | EmptyString => (EmptyString, EmptyString)
  end.

Definition syntax_error {A} : res A := Err (External "JSONDecodeError").

(** The JSON number grammar, longest match: an optional sign, an integer part
    without a leading zero, an optional fraction, an optional exponent. *)
Definition parse_fraction (s : string) : string * string :=
  match s with
  | String c s' =>
      let ds := take_digits s' in
      if (code c =? 46) && negb (bool_decide (ds.1 = EmptyString)) then (String c ds.1, ds.2)
      else (EmptyString, s)
  | EmptyString => (EmptyString, s)
  end.
Definition parse_exponent (s : string) : string * string :=
  match s with
  | String c s' =>
      let signed := head_is "+" s' || head_is "-" s' in
      let sg := if signed then String.substring 0 1 s' else EmptyString in
      let ds := take_digits (if signed then String.substring 1 (String.length s') s' else s') in
      if ((code c =? 101) || (code c =? 69)) && negb (bool_decide (ds.1 = EmptyString))
      then (String c (sg +:+ ds.1), ds.2) else (EmptyString, s)
  | EmptyString => (EmptyString, s)
  end.
Definition parse_number (s : string) : res (json * string) :=
  let neg := head_is "-" s in
  let body := if neg then String.substring 1 (String.length s) s else s in
  let all := take_digits body in
  let ds := if head_is "0" body then (String.substring 0 1 body, String.substring 1 (String.length body) body)
            else all in
  if bool_decide (ds.1 = EmptyString) then syntax_error else
  let fr := parse_fraction ds.2 in
  let ex := parse_exponent fr.2 in
  let sg := if neg then "-" else EmptyString in
  if bool_decide (fr.1 = EmptyString) && bool_decide (ex.1 = EmptyString)
  then Ok (JInt (if neg then - int_of_str ds.1 else int_of_str ds.1), ds.2)
  else Ok (JFloat (sg +:+ ds.1 +:+ fr.1 +:+ ex.1), ex.2).

Definition after_prefix (lit s : string) : string := String.substring (String.length lit) (String.length s) s.

(** [d[k] = v]: a repeated key keeps its position and takes the last value. *)
Fixpoint dict_set {A} (k : string) (v : A) (l : list (string * A)) : list (string * A) :=
  match l with
  | [] => [(k, v)]
  | (k', v') :: l' => if bool_decide (k = k') then (k, v) :: l' else (k', v') :: dict_set k v l'
  end.
Fixpoint dict_get {A} (k : string) (l : list (string * A)) : option A :=
  match l with
  | [] => None
  | (k', v) :: l' => if bool_decide (k = k') then Some v else dict_get k l'
  end.
Definition dict_of {A} (l : list (string * A)) : list (string * A) :=
  foldl (λ d kv, dict_set kv.1 kv.2 d) [] l.

(** The hooks of [json.loads]: [object_pairs_hook] and [parse_constant]. *)
Record Hooks := mkHooks {
  h_object : list (string * json) → res json;
  h_constant : string → res json;
}.
Definition default_hooks : Hooks := mkHooks (λ kvs, Ok (JObj (dict_of kvs))) (λ t, Ok (JFloat t)).

Definition literal (lit : string) (j : json) (s : string) : res (json * string) :=
  if String.prefix lit s then Ok (j, after_prefix lit s) else syntax_error.
Definition constant (h : Hooks) (lit s : string) : res (json * string) :=
  if String.prefix lit s then let? j := h_constant h lit in Ok (j, after_prefix lit s) else syntax_error.

(** One value, with fuel for the nesting and the element count. *)
Fixpoint parse (h : Hooks) (fuel : nat) (s0 : string) : res (json * string) :=
  match fuel with
  | O => syntax_error
  | S fuel =>
      let s := skip_space s0 in
      match s with
      | EmptyString => syntax_error
      | String c s1 =>
          let n := code c in
          if n =? 34 then match parse_chars s1 with Some r => Ok (JStr r.1, r.2) | None => syntax_error end
          else if n =? 110 then literal "null" JNull s
          else if n =? 116 then literal "true" (JBool true) s
          else if n =? 102 then literal "false" (JBool false) s
          else if n =? 78 then constant h "NaN" s
          else if n =? 73 then constant h "Infinity" s
          else if String.prefix "-I" s then constant h "-Infinity" s
          else if n =? 91 then
            let s2 := skip_space s1 in
            if head_is "]" s2 then Ok (JArr [], after_prefix "]" s2)
            else let? r := parse_items h fuel s1 in Ok (JArr r.1, r.2)
          else if n =? 123 then
            let s2 := skip_space s1 in
            if head_is "}" s2 then let? o := h_object h [] in Ok (o, after_prefix "}" s2)
            else let? r := parse_members h fuel s1 in
                 let? o := h_object h r.1 in Ok (o, r.2)
          else parse_number s
      end
  end
with parse_items (h : Hooks) (fuel : nat) (s : string) : res (list json * string) :=
  match fuel with
  | O => syntax_error
  | S fuel =>
      let? jr := parse h fuel s in
      match skip_space jr.2 with
      | String c r' =>
          if code c =? 44 then let? t := parse_items h fuel r' in Ok (jr.1 :: t.1, t.2)
          else if code c =? 93 then Ok ([jr.1], r') else syntax_error
      | EmptyString => syntax_error
      end
  end
with parse_members (h : Hooks) (fuel : nat) (s : string) : res (list (string * json) * string) :=
  match fuel with
  | O => syntax_error
  | S fuel =>
      match skip_space s with
      | String q s1 =>
          match (if code q =? 34 then parse_chars s1 else None) with
          | None => syntax_error
          | Some kr =>
              match skip_space kr.2 with
              | String c r1 =>
                  if negb (code c =? 58) then syntax_error else
                  let? jr := parse h fuel r1 in
                  match skip_space jr.2 with
                  | String d r3 =>
                      if code d =? 44 then
                        let? t := parse_members h fuel r3 in Ok ((kr.1, jr.1) :: t.1, t.2)
                      else if code d =? 125 then Ok ([(kr.1, jr.1)], r3) else syntax_error
                  | EmptyString => syntax_error
                  end
              | EmptyString => syntax_error
              end
          end
      | EmptyString => syntax_error
      end
  end.

(** [json.loads]; every call of the parser consumes a character or opens a
    value, so twice the length of the text bounds its fuel. *)
Definition loads_with (h : Hooks) (s : string) : res json :=
  let? r := parse h (S (2 * String.length s)) s in
  if bool_decide (skip_space r.2 = EmptyString) then Ok r.1 else syntax_error.
Definition loads : string → res json := loads_with default_hooks.

(** [bytes.decode("utf-8", errors="strict")] of the encodings of U+0000 to
    U+00FF. Text above has no [string] here: a sequence led by a byte from 0xC4 to
    0xF4 ends in [External]. *)
Fixpoint utf8_decode (s : string) : res string :=
  match s with
  | EmptyString => Ok EmptyString
  | String c s1 =>
      let n := code c in
      if n <? 128 then let? r := utf8_decode s1 in Ok (String c r)
      else match s1 with
           | String d s2 =>
               let m := code d in
               if (194 <=? n) && (n <=? 244) && (128 <=? m) && (m <? 192) then
                 if n <=? 195 then let? r := utf8_decode s2 in Ok (String (chr ((n - 192) * 64 + (m - 128))) r)
                 else Err (External "text above U+00FF")
               else Err (External "UnicodeDecodeError")
           | EmptyString => Err (External "UnicodeDecodeError")
           end
  end.
(** [str.encode("utf-8")] *)
Fixpoint utf8_encode (s : string) : string :=
  match s with
  | EmptyString => EmptyString
  | String c s' =>
      if code c <? 128 then String c (utf8_encode s')
      else String (chr (192 + code c / 64)) (String (chr (128 + code c mod 64)) (utf8_encode s'))
  end.

(** Dictionaries are equal whatever the order of their keys: equality of
    documents is equality of their canonical texts. *)
Definition json_eqb (a b : json) : bool := bool_decide (dumps a = dumps b).

(** ** Values of unknown type *)

(** What a port or a parsed document may hand over; [PFloat] is a binary64 bit
    pattern, [POther] any other object. *)
Inductive pyval :=
| PNone
| PBool (b : bool)
| PInt (z : Z)
| PFloat (bits : Z)
| PStr (s : string)
| PBytes (s : string)
| POther.

#[export] Instance pyval_eq_dec : EqDecision pyval.
Proof. solve_decision. Defined.

Definition py_of_json (j : json) : pyval :=
  match j with
  | JNull => PNone
  | JBool b => PBool b
  | JInt z => PInt z
  | JFloat _ => POther
  | JStr s => PStr s
  | JArr _ | JObj _ => POther
  end.

(** ** Lemmas on dictionaries *)

Lemma dict_get_set {A} k k' (a : A) l :
  dict_get k (dict_set k' a l) = if bool_decide (k = k') then Some a else dict_get k l.
Proof.
  induction l as [|[k0 a0] l IH]; simpl.
  - by case_bool_decide.
  - destruct (decide (k' = k0)) as [->|Hne].
    + rewrite (bool_decide_eq_true_2 (k0 = k0)) by done. simpl. by case_bool_decide.
    + rewrite (bool_decide_eq_false_2 (k' = k0)) by done. simpl. rewrite IH.
      destruct (decide (k = k0)) as [->|]; [|by rewrite (bool_decide_eq_false_2 (k = k0)) by done].
      by rewrite (bool_decide_eq_true_2 (k0 = k0)), (bool_decide_eq_false_2 (k0 = k')) by done.
Qed.

Lemma dict_get_set_other {T} k k' (v : T) l : k ≠ k' → dict_get k (dict_set k' v l) = dict_get k l.
Proof. intros Hk. by rewrite dict_get_set, bool_decide_false. Qed.
Lemma dict_get_set_same {T} k (v : T) l : dict_get k (dict_set k v l) = Some v.
Proof. by rewrite dict_get_set, bool_decide_true. Qed.
Lemma dict_get_in {T} k (v : T) l : dict_get k l = Some v → (k, v) ∈ l.
Proof.
  induction l as [|[x y] l IH]; simpl; [done|]. destruct (bool_decide_reflect (k = x)) as [<-|]; [intros [= <-]; left|].
  intros Hk. right. auto.
Qed.

Example loads_example :
  loads (dumps (JObj [("b", JArr [JInt (-7); JNull; JBool true]); ("a", JStr (String (chr 34) "x\y")); ("c", JObj []); ("d", JArr [])]))
  = Ok (JObj [("a", JStr (String (chr 34) "x\y")); ("b", JArr [JInt (-7); JNull; JBool true]); ("c", JObj []); ("d", JArr [])]).
Proof. vm_compute. reflexivity. Qed.
