(* ===== verification/JsonRoundTrip.v ===== *)
(** Reading back what was written: [loads] inverts [dumps] on every document the
    encoders print, up to the order of keys, and the parser's fuel is enough. *)
From stdpp Require Import sorting.
From S2P Require Import Prelude Json JsonParse.

(** ** The documents the encoders print *)

(** Structural induction through lists and objects. *)
Lemma json_induction (P : json → Prop) :
  P JNull → (∀ b, P (JBool b)) → (∀ z, P (JInt z)) → (∀ t, P (JFloat t)) → (∀ s, P (JStr s)) →
  (∀ l, Forall P l → P (JArr l)) → (∀ kvs, Forall (λ kv, P kv.2) kvs → P (JObj kvs)) →
  ∀ j, P j.
Proof.
  intros Hn Hb Hz Hf Hs Ha Ho. fix IH 1.
  intros [|b|z|t|s|l|kvs]; [exact Hn|apply Hb|apply Hz|apply Hf|apply Hs|apply Ha|apply Ho].
  - induction l as [|x l IHl]; constructor; [apply IH|exact IHl].
  - induction kvs as [|[k x] l IHl]; constructor; [apply IH|exact IHl].
Qed.

(** No literal number, and the keys of each object are distinct. *)
Fixpoint regular (j : json) : Prop :=
  match j with
  | JFloat _ => False
  | JArr l => foldr (λ x P, regular x ∧ P) True l
  | JObj kvs => NoDup (map fst kvs) ∧ foldr (λ kv P, regular kv.2 ∧ P) True kvs
  | _ => True
  end.

(** The document with its keys sorted: Python's equality of dicts ignores order. *)
Fixpoint canon (j : json) : json :=
  match j with
  | JArr l => JArr (map canon l)
  | JObj kvs => JObj (sort_keys (map (λ kv, (kv.1, canon kv.2)) kvs))
  | _ => j
  end.

Lemma foldr_and_forall {A} (P : A → Prop) l : foldr (λ x Q, P x ∧ Q) True l ↔ Forall P l.
Proof. induction l as [|x l IH]; simpl; [done|]. by rewrite IH, Forall_cons. Qed.

(** ** Texts *)

(** What may follow a value. *)
Definition stops (s : string) : bool :=
  match s with
  | String c _ => (code c =? 44) || (code c =? 93) || (code c =? 125) || is_space c
  | EmptyString => true
  end.

Lemma parse_chars_escape_char c t :
  parse_chars (escape_char c +:+ t) = option_map (λ r, (String c r.1, r.2)) (parse_chars t).
Proof. destruct c as [[] [] [] [] [] [] [] []]; reflexivity. Qed.

Lemma parse_chars_escape s t : parse_chars (escape s +:+ dquote +:+ t) = Some (s, t).
Proof.
  induction s as [|c s IH]; [reflexivity|]. cbn [escape].
  rewrite str_app_assoc, parse_chars_escape_char, IH. reflexivity.
Qed.

Lemma take_digits_app s t :
  str_forall is_digit s = true → (match t with String c _ => is_digit c | EmptyString => false end) = false →
  take_digits (s +:+ t) = (s, t).
Proof.
  induction s as [|c s IH]; simpl.
  - intros _ Ht. destruct t as [|c t]; [done|]. simpl. by rewrite Ht.
  - intros [Hc Hs]%andb_true_iff Ht. rewrite Hc. change (s +:+ t) with (s +:+ t) in *.
    rewrite (IH Hs Ht). done.
Qed.

Lemma stops_digit t : stops t = true → (match t with String c _ => is_digit c | EmptyString => false end) = false.
Proof.
  destruct t as [|c t]; [done|]. simpl. unfold is_digit, is_space. rewrite !orb_true_iff, !Z.eqb_eq.
  intros H. apply andb_false_iff. rewrite !Z.leb_gt. lia.
Qed.

Lemma stops_number t : stops t = true → parse_fraction t = (EmptyString, t) ∧ parse_exponent t = (EmptyString, t).
Proof.
  destruct t as [|c t]; [done|]. intros H. simpl in H. unfold is_space in H. rewrite !orb_true_iff, !Z.eqb_eq in H.
  unfold parse_fraction, parse_exponent.
  assert (code c =? 46 = false) as -> by lia. assert (code c =? 101 = false) as -> by lia.
  assert (code c =? 69 = false) as -> by lia. done.
Qed.

Lemma substring_drop s : ∀ n, (String.length s ≤ n)%nat → String.substring 0 n s = s.
Proof.
  induction s as [|c s IH]; intros n Hn; [by destruct n|]. destruct n as [|n]; simpl in Hn; [lia|].
  simpl. f_equal. apply IH. lia.
Qed.

Lemma after_prefix_app s t : after_prefix s (s +:+ t) = t.
Proof.
  unfold after_prefix. assert (∀ u n, String.substring (String.length s) n (s +:+ u) = String.substring 0 n u) as H.
  { intros u n. induction s as [|c s IH]; [done|]. simpl. exact IH. }
  rewrite H. apply substring_drop. pose proof (slen_app s t). unfold slen in *. lia.
Qed.

Lemma prefix_app s t : String.prefix s (s +:+ t) = true.
Proof. induction s as [|c s IH]; [by destruct t|]. simpl. destruct (Ascii.ascii_dec c c); [exact IH|done]. Qed.

(** ** Numbers *)

Lemma digits_parse s t :
  isdecimal s = true → (head_is "0" s = true → s = "0") → stops t = true →
  parse_number (s +:+ t) = Ok (JInt (int_of_str s), t).
Proof.
  intros Hd H0 Ht. unfold isdecimal in Hd. apply andb_true_iff in Hd as [Hne Hd].
  destruct s as [|c s]; [done|]. simpl in Hd. apply andb_true_iff in Hd as [Hc Hs].
  assert (head_is "-" (String c s +:+ t) = false) as Hm.
  { simpl. apply bool_decide_eq_false. intros <-. done. }
  unfold parse_number. rewrite Hm. destruct (stops_number t Ht) as [Hf He].
  assert (take_digits (String c s +:+ t) = (String c s, t)) as Htd
    by (apply take_digits_app; [simpl; by rewrite Hc, Hs|by apply stops_digit]).
  assert ((if head_is "0" (String c s +:+ t)
     then (String.substring 0 1 (String c s +:+ t), String.substring 1 (String.length (String c s +:+ t)) (String c s +:+ t))
     else take_digits (String c s +:+ t)) = (String c s, t)) as Hds.
  { destruct (head_is "0" (String c s +:+ t)) eqn:E; [|exact Htd].
    specialize (H0 E). injection H0 as -> ->. f_equal; [by destruct t|apply (after_prefix_app "0" t)]. }
  rewrite Htd in Hds |- *. rewrite Hds. cbn [fst snd]. rewrite Hf. cbn [fst snd]. rewrite He. done.
Qed.

Lemma int_text z : ∃ s, isdecimal s = true ∧ (head_is "0" s = true → s = "0") ∧ int_of_str s = Z.abs z
  ∧ str_of_int z = (if z <? 0 then "-" +:+ s else s).
Proof.
  destruct (Z.eq_dec z 0) as [->|Hz]; [by exists "0"|]. exists (str_of_int (Z.abs z)).
  destruct (str_of_int_decimal (Z.abs z)) as [Hd Hh]; [lia|]. rewrite int_of_str_of_int by lia.
  split_and!; [done|by rewrite Hh|done|]. destruct z as [|p|p]; done.
Qed.

Lemma parse_number_int z t : stops t = true → parse_number (str_of_int z +:+ t) = Ok (JInt z, t).
Proof.
  intros Ht. destruct (int_text z) as (s & Hd & H0 & Hi & ->). destruct (Z.ltb_spec z 0) as [Hz|Hz].
  - pose proof (digits_parse s t Hd H0 Ht) as Hp. unfold parse_number in *.
    change (head_is "-" (("-" +:+ s) +:+ t)) with true. cbn match.
    assert (String.substring 1 (String.length (("-" +:+ s) +:+ t)) (("-" +:+ s) +:+ t) = s +:+ t) as ->
      by apply (after_prefix_app "-" (s +:+ t)).
    assert (head_is "-" (s +:+ t) = false) as Hm.
    { destruct s as [|c s]; [done|]. simpl. apply bool_decide_eq_false. intros <-. done. }
    rewrite Hm in Hp.
    destruct (bool_decide _); [done|]. destruct (bool_decide _ && _); [|done].
    injection Hp as Hp1 Hp2. rewrite Hp1, Hp2, Hi. do 3 f_equal. lia.
  - rewrite digits_parse, Hi by done. do 3 f_equal. lia.
Qed.

(** ** First characters *)

Lemma prefix_cons a s b t :
  String.prefix (String a s) (String b t) = if Ascii.ascii_dec a b then String.prefix s t else false.
Proof. reflexivity. Qed.

Definition starts (c : ascii) : bool := negb (is_space c) && negb (code c =? 93).

Lemma digit_range c : is_digit c = true → 48 <= code c <= 57.
Proof. unfold is_digit. rewrite andb_true_iff, !Z.leb_le. done. Qed.

Lemma int_head z : ∃ c s, str_of_int z = String c s ∧ (is_digit c = true ∨ c = "-"%char ∧ head_is "I" s = false).
Proof.
  destruct (int_text z) as (s & Hd & _ & _ & ->). unfold isdecimal in Hd. apply andb_true_iff in Hd as [Hne Hd].
  destruct s as [|c s]; [done|]. simpl in Hd. apply andb_true_iff in Hd as [Hc _].
  destruct (z <? 0); [|by exists c, s; auto]. exists "-"%char, (String c s). split; [done|]. right. split; [done|].
  simpl. apply bool_decide_eq_false. intros <-. done.
Qed.

Lemma space_false c : 33 <= code c → is_space c = false.
Proof. unfold is_space. intros H. repeat (rewrite (proj2 (Z.eqb_neq _ _)) by lia). done. Qed.

Lemma int_starts c s : is_digit c = true ∨ c = "-"%char ∧ head_is "I" s = false → is_space c = false ∧ code c <= 57.
Proof.
  intros [Hc| [-> _]]; [|done]. pose proof (digit_range c Hc). split; [apply space_false; lia|lia].
Qed.

Lemma dumps_head j : regular j → ∃ c s, dumps j = String c s ∧ starts c = true.
Proof.
  intros Hr. unfold starts. destruct j as [|[]|z|t|s|l|kvs]; try (do 2 eexists; split; [reflexivity|reflexivity]); [|done].
  destruct (int_head z) as (c & s & E & Hc). exists c, s. split; [exact E|].
  destruct (int_starts c s Hc) as [-> Hb]. rewrite (proj2 (Z.eqb_neq _ _)) by lia. done.
Qed.

Lemma dumps_skip j t : regular j → skip_space (dumps j +:+ t) = dumps j +:+ t.
Proof.
  intros Hr. destruct (dumps_head j Hr) as (c & s & -> & Hc). unfold starts in Hc.
  apply andb_true_iff in Hc as [Hc _]. apply negb_true_iff in Hc. simpl. by rewrite Hc.
Qed.

Lemma dumps_positive j : regular j → 1 <= slen (dumps j).
Proof. intros Hr. destruct (dumps_head j Hr) as (c & s & -> & _). unfold slen. simpl. lia. Qed.

(** ** Parsing one value back *)

Section Parse.
Context (h : Hooks).

Definition reads_as (j j' : json) : Prop := ∀ fuel t,
  2 * slen (dumps j) <= Z.of_nat fuel → stops t = true → parse h fuel (dumps j +:+ t) = Ok (j', t).

Lemma parse_int z : reads_as (JInt z) (JInt z).
Proof.
  intros fuel t Hf Ht. assert (1 <= slen (dumps (JInt z))) by (by apply dumps_positive).
  destruct fuel as [|fuel]; [lia|]. pose proof (parse_number_int z t Ht) as Hp. cbn [dumps].
  destruct (int_head z) as (c & s & E & Hc). rewrite E in *. destruct (int_starts c s Hc) as [Hsp Hb].
  cbn [parse]. change (String c s +:+ t) with (String c (s +:+ t)) in *. cbn [skip_space]. rewrite Hsp.
  assert (code c =? 34 = false) as ->.
  { destruct Hc as [Hc| [-> _]]; [pose proof (digit_range c Hc); lia|done]. }
  do 5 (rewrite (proj2 (Z.eqb_neq (code c) _)) by lia).
  assert (String.prefix "-I" (String c (s +:+ t)) = false) as ->.
  { rewrite prefix_cons. destruct (Ascii.ascii_dec "-" c) as [<-|]; [|done].
    destruct Hc as [Hc| [_ Hs]]; [discriminate Hc|]. destruct (s +:+ t) as [|d u] eqn:Eu; [done|].
    rewrite prefix_cons. destruct (Ascii.ascii_dec "I" d) as [<-|]; [|done].
    destruct s as [|d s]; [change (t = String "I" u) in Eu; by rewrite Eu in Ht|]. injection Eu as -> _.
    unfold head_is in Hs. by rewrite bool_decide_true in Hs. }
  do 2 (rewrite (proj2 (Z.eqb_neq (code c) _)) by lia). exact Hp.
Qed.

Lemma parse_str s : reads_as (JStr s) (JStr s).
Proof.
  intros fuel t Hf Ht. assert (1 <= slen (dumps (JStr s))) by (by apply dumps_positive).
  destruct fuel as [|fuel]; [lia|]. cbn [dumps]. unfold quoted. rewrite !str_app_assoc.
  change (dquote +:+ escape s +:+ dquote +:+ t) with (String (chr 34) (escape s +:+ dquote +:+ t)).
  cbn [parse]. change (skip_space (String (chr 34) (escape s +:+ dquote +:+ t)))
    with (String (chr 34) (escape s +:+ dquote +:+ t)).
  change (code (chr 34) =? 34) with true. cbn iota. by rewrite parse_chars_escape.
Qed.

Lemma parse_literal lit j fuel t :
  lit ∈ ["null"; "true"; "false"] →
  j = (if bool_decide (lit = "null") then JNull else JBool (bool_decide (lit = "true"))) →
  (0 < fuel)%nat → parse h fuel (lit +:+ t) = Ok (j, t).
Proof.
  intros Hl -> Hf. destruct fuel as [|fuel]; [lia|].
  assert (∀ j, literal lit j (lit +:+ t) = Ok (j, t)) as Hlit
    by (intros j; unfold literal; by rewrite prefix_app, after_prefix_app).
  rewrite !elem_of_cons, elem_of_nil in Hl. destruct Hl as [->|[->|[->|[]]]]; apply Hlit.
Qed.

(** ** Parsing lists and objects back *)

Definition item_text (kv : string * json) : string := quoted kv.1 +:+ ":" +:+ dumps kv.2.

Lemma joined_cons sep x y l : joined sep (x :: y :: l) = x +:+ sep +:+ joined sep (y :: l).
Proof. reflexivity. Qed.

Lemma parse_items_back l t : ∀ fuel,
  l ≠ [] → Forall (λ j, regular j ∧ reads_as j (canon j)) l → stops t = true →
  2 * slen (joined "," (map dumps l)) < Z.of_nat fuel →
  parse_items h fuel (joined "," (map dumps l) +:+ "]" +:+ t) = Ok (map canon l, t).
Proof.
  induction l as [|x l IH]; intros fuel Hne Hl Ht Hf; [done|].
  apply Forall_cons in Hl as [[Hr Hx] Hl]. destruct fuel as [|fuel]; [pose proof (slen_nonneg (joined "," (map dumps (x :: l)))); lia|].
  cbn [parse_items]. destruct l as [|y l].
  - cbn [map joined] in *. rewrite Hx by (done || lia). reflexivity.
  - cbn [map] in *. rewrite joined_cons, !slen_app in *. change (slen ",") with 1 in Hf.
    rewrite !str_app_assoc. pose proof (slen_nonneg (joined "," (dumps y :: map dumps l))).
    pose proof (dumps_positive x Hr).
    rewrite Hx by (done || lia). cbn [rbind fst snd].
    change (skip_space ("," +:+ joined "," (dumps y :: map dumps l) +:+ "]" +:+ t))
      with ("," +:+ joined "," (dumps y :: map dumps l) +:+ "]" +:+ t).
    change (code ",") with 44. cbn [Z.eqb Pos.eqb].
    change ("," +:+ joined "," (dumps y :: map dumps l) +:+ "]" +:+ t)
      with (String "," (joined "," (dumps y :: map dumps l) +:+ "]" +:+ t)). cbn iota beta.
    change (code "," =? 44) with true. cbn iota.
    rewrite IH by (done || lia). reflexivity.
Qed.

Lemma quoted_cons k u : quoted k +:+ u = String (chr 34) (escape k +:+ dquote +:+ u).
Proof. unfold quoted. by rewrite !str_app_assoc. Qed.

Lemma parse_members_back l t : ∀ fuel,
  l ≠ [] → Forall (λ kv, regular kv.2 ∧ reads_as kv.2 (canon kv.2)) l → stops t = true →
  2 * slen (joined "," (map item_text l)) < Z.of_nat fuel →
  parse_members h fuel (joined "," (map item_text l) +:+ "}" +:+ t) = Ok (map (λ kv, (kv.1, canon kv.2)) l, t).
Proof.
  induction l as [|[k x] l IH]; intros fuel Hne Hl Ht Hf; [done|].
  apply Forall_cons in Hl as [[Hr Hx] Hl]. cbn [fst snd] in *.
  destruct fuel as [|fuel]; [pose proof (slen_nonneg (joined "," (map item_text ((k, x) :: l)))); lia|].
  pose proof (dumps_positive x Hr). pose proof (slen_nonneg (quoted k)).
  assert (∀ u, 2 * slen (dumps x) <= Z.of_nat fuel → stops u = true → skip_space u = u →
    parse_members h (S fuel) (item_text (k, x) +:+ u)
    = match u with
      | String d r3 => if code d =? 44 then let? t := parse_members h fuel r3 in Ok ((k, canon x) :: t.1, t.2)
                       else if code d =? 125 then Ok ([(k, canon x)], r3) else syntax_error
      | EmptyString => syntax_error
      end) as Hstep.
  { intros u Hfu Hu Hs. unfold item_text. cbn [fst snd]. rewrite !str_app_assoc, quoted_cons. cbn [parse_members].
    change (skip_space (String (chr 34) (escape k +:+ dquote +:+ ":" +:+ dumps x +:+ u)))
      with (String (chr 34) (escape k +:+ dquote +:+ ":" +:+ dumps x +:+ u)).
    cbn iota beta. change (code (chr 34) =? 34) with true. cbn iota beta. rewrite parse_chars_escape.
    cbn iota beta. cbn [fst snd].
    change (skip_space (":" +:+ dumps x +:+ u)) with (String ":" (dumps x +:+ u)).
    cbn iota beta. change (code ":" =? 58) with true. cbn [negb]. cbn iota beta. rewrite Hx by done. cbn [rbind fst snd].
    by rewrite Hs. }
  destruct l as [|y l].
  - cbn [map joined] in *. unfold item_text in Hf. cbn [fst snd] in Hf. rewrite !slen_app in Hf.
    change (slen ":") with 1 in Hf. rewrite Hstep by (done || lia). reflexivity.
  - cbn [map] in *. rewrite joined_cons, !slen_app in *. change (slen ",") with 1 in Hf.
    rewrite !str_app_assoc. pose proof (slen_nonneg (joined "," (item_text y :: map item_text l))).
    assert (slen (item_text (k, x)) = slen (quoted k) + 1 + slen (dumps x)) as Hi
      by (unfold item_text; cbn [fst snd]; rewrite !slen_app; change (slen ":") with 1; lia).
    rewrite Hstep by (done || lia).
    change ("," +:+ joined "," (item_text y :: map item_text l) +:+ "}" +:+ t)
      with (String "," (joined "," (item_text y :: map item_text l) +:+ "}" +:+ t)). cbn iota beta.
    change (code "," =? 44) with true. cbn iota. rewrite IH by (done || lia). reflexivity.
Qed.
End Parse.

(** ** Sorted objects *)

Lemma insert_key_map {A B} (f : A → B) x l :
  insert_key (x.1, f x.2) (map (λ kv, (kv.1, f kv.2)) l) = map (λ kv, (kv.1, f kv.2)) (insert_key x l).
Proof. induction l as [|y l IH]; simpl; [done|]. destruct (String.leb x.1 y.1); simpl; [done|]. by rewrite IH. Qed.

Lemma sort_keys_map {A B} (f : A → B) l :
  sort_keys (map (λ kv, (kv.1, f kv.2)) l) = map (λ kv, (kv.1, f kv.2)) (sort_keys l).
Proof. induction l as [|x l IH]; simpl; [done|]. by rewrite IH, insert_key_map. Qed.

Lemma dict_set_new {A} k (v : A) l : k ∉ map fst l → dict_set k v l = l ++ [(k, v)].
Proof.
  induction l as [|[k' v'] l IH]; simpl; [done|]. intros [Hk Hl]%not_elem_of_cons.
  rewrite bool_decide_false by done. by rewrite IH.
Qed.

(** Building a dict from distinct keys keeps the pairs as they come. *)
Lemma dict_of_nodup {A} (l : list (string * A)) : NoDup (map fst l) → dict_of l = l.
Proof.
  unfold dict_of. assert (∀ acc, NoDup (map fst (acc ++ l)) → foldl (λ d kv, dict_set kv.1 kv.2 d) acc l = acc ++ l) as H.
  { induction l as [|[k v] l IH]; intros acc Hn; simpl; [by rewrite app_nil_r|].
    assert (acc ++ (k, v) :: l = (acc ++ [(k, v)]) ++ l) as E by by rewrite <- app_assoc.
    rewrite dict_set_new, E; [apply IH; by rewrite <- E|].
    rewrite map_app, NoDup_app in Hn. intros Hin. destruct Hn as (_ & Hn & _).
    apply (Hn k Hin). simpl. by left. }
  apply (H []).
Qed.

Lemma dumps_obj_text kvs :
  dumps (JObj kvs) = "{" +:+ joined "," (map item_text (sort_keys kvs)) +:+ "}".
Proof. cbn [dumps]. rewrite sort_keys_map, map_map. reflexivity. Qed.

(** ** The round trip *)

Lemma parse_array h fuel s :
  parse h (S fuel) ("[" +:+ s)
  = if head_is "]" (skip_space s) then Ok (JArr [], after_prefix "]" (skip_space s))
    else let? r := parse_items h fuel s in Ok (JArr r.1, r.2).
Proof. reflexivity. Qed.

Lemma parse_object h fuel s :
  parse h (S fuel) ("{" +:+ s)
  = if head_is "}" (skip_space s) then let? o := h_object h [] in Ok (o, after_prefix "}" (skip_space s))
    else let? r := parse_members h fuel s in let? o := h_object h r.1 in Ok (o, r.2).
Proof. reflexivity. Qed.

Lemma joined_head l t x : regular x →
  head_is "]" (skip_space (joined "," (map dumps (x :: l)) +:+ t)) = false.
Proof.
  intros Hr. assert (∃ u, joined "," (map dumps (x :: l)) +:+ t = dumps x +:+ u) as [u ->].
  { destruct l as [|y l]; [by exists t|]. cbn [map]. rewrite joined_cons, str_app_assoc. eauto. }
  rewrite (dumps_skip x u Hr). destruct (dumps_head x Hr) as (c & s & -> & Hc). unfold starts in Hc.
  apply andb_true_iff in Hc as [_ Hc]. apply negb_true_iff, Z.eqb_neq in Hc.
  simpl. apply bool_decide_eq_false. by intros <-.
Qed.

Lemma Forall_impl2 {A} (P Q R : A → Prop) l : (∀ x, P x → Q x → R x) → Forall P l → Forall Q l → Forall R l.
Proof. rewrite !Forall_forall. eauto. Qed.

(** Hooks that keep an object of distinct keys as it comes. *)
Definition faithful (h : Hooks) : Prop := ∀ kvs, NoDup (map fst kvs) → h_object h kvs = Ok (JObj kvs).

Lemma default_faithful : faithful default_hooks.
Proof. intros kvs Hn. cbn. by rewrite dict_of_nodup. Qed.

Lemma parse_dumps h j : faithful h → regular j → reads_as h j (canon j).
Proof.
  intros Hh. induction j as [|b|z|t|s|l IH|kvs IH] using json_induction; intros Hr.
  - intros fuel t Hf _. apply (parse_literal _ "null"); [set_solver|done|].
    pose proof (dumps_positive JNull I). lia.
  - intros fuel t Hf _. pose proof (dumps_positive (JBool b) I).
    destruct b; [apply (parse_literal _ "true")|apply (parse_literal _ "false")]; [set_solver|done|lia|set_solver|done|lia].
  - apply parse_int.
  - done.
  - apply parse_str.
  - simpl in Hr. rewrite foldr_and_forall in Hr. intros fuel t Hf Ht. cbn [dumps] in *.
    rewrite !slen_app in Hf. change (slen "[") with 1 in *. change (slen "]") with 1 in *.
    pose proof (slen_nonneg (joined "," (map dumps l))).
    destruct fuel as [|fuel]; [lia|]. rewrite !str_app_assoc, parse_array.
    destruct l as [|x l]; [exact (f_equal (λ u, Ok (JArr [], u)) (after_prefix_app "]" t))|].
    rewrite joined_head by (by apply Forall_inv in Hr).
    rewrite parse_items_back; [reflexivity|done| |done|lia].
    eapply Forall_impl2; [|exact Hr|exact IH]. auto.
  - simpl in Hr. rewrite (foldr_and_forall (λ kv, regular kv.2)) in Hr. destruct Hr as [Hn Hr].
    intros fuel t Hf Ht. rewrite dumps_obj_text in *. cbn [canon]. rewrite sort_keys_map.
    pose proof (sort_keys_perm kvs) as Hp. set (l := sort_keys kvs) in *. clearbody l.
    rewrite !slen_app in Hf. change (slen "{") with 1 in *. change (slen "}") with 1 in *.
    pose proof (slen_nonneg (joined "," (map item_text l))).
    destruct fuel as [|fuel]; [lia|]. rewrite !str_app_assoc, parse_object.
    rewrite <- Hp in IH, Hr, Hn.
    destruct l as [|[k x] l].
    { rewrite (Hh []) by constructor. exact (f_equal (λ u, Ok (JObj [], u)) (after_prefix_app "}" t)). }
    assert (head_is "}" (skip_space (joined "," (map item_text ((k, x) :: l)) +:+ "}" +:+ t)) = false) as ->.
    { assert (∃ u, joined "," (map item_text ((k, x) :: l)) +:+ "}" +:+ t = quoted k +:+ u) as [u ->].
      { destruct l as [|y l]; cbn [map joined]; unfold item_text at 1; cbn [fst snd]; rewrite !str_app_assoc; eauto. }
      by rewrite quoted_cons. }
    rewrite parse_members_back; [|done| |done|lia].
    + cbn [rbind fst snd]. rewrite Hh; [reflexivity|]. by rewrite map_map.
    + eapply Forall_impl2; [|exact Hr|exact IH]. auto.
Qed.

(** The text may end in spaces, as [canonical] texts end in a newline. *)
Lemma loads_with_back h j ws :
  faithful h → regular j → skip_space ws = EmptyString → stops ws = true → loads_with h (dumps j +:+ ws) = Ok (canon j).
Proof.
  intros Hh Hr Hws Hst. unfold loads_with. rewrite (parse_dumps h j Hh Hr); [|unfold slen|done].
  - cbn [rbind fst snd]. by rewrite bool_decide_true.
  - assert (String.length (dumps j) ≤ String.length (dumps j +:+ ws))%nat; [|lia].
    pose proof (slen_app (dumps j) ws). pose proof (slen_nonneg ws). unfold slen in *. lia.
Qed.

Lemma loads_back j : regular j → loads (dumps j) = Ok (canon j).
Proof.
  intros Hr. unfold loads. rewrite <- (str_app_nil_r (dumps j)).
  by apply loads_with_back; [apply default_faithful| | |].
Qed.

Definition key_sorted {A} (l : list (string * A)) : Prop := Sorted text_le (map fst l).

Lemma insert_key_sorted {A} (x : string * A) l : key_sorted l → key_sorted (insert_key x l).
Proof.
  unfold key_sorted. induction l as [|y l IH]; simpl; [repeat constructor|].
  intros [Hl Hy]%Sorted_inv. destruct (String.leb x.1 y.1) eqn:E; simpl; [by repeat constructor|].
  constructor; [auto|]. destruct (total text_le x.1 y.1) as [H|H]; [unfold text_le in H; congruence|].
  destruct l as [|z l]; simpl; [by constructor|].
  destruct (String.leb x.1 z.1); simpl; constructor; [done|by inversion Hy].
Qed.

Lemma sort_keys_sorted {A} (l : list (string * A)) : key_sorted (sort_keys l).
Proof. induction l as [|x l IH]; simpl; [constructor|by apply insert_key_sorted]. Qed.

Lemma sorted_sort_keys {A} (l : list (string * A)) : key_sorted l → sort_keys l = l.
Proof.
  unfold key_sorted. induction l as [|x l IH]; simpl; [done|]. intros [Hl Hx]%Sorted_inv.
  rewrite (IH Hl). destruct l as [|y l]; [done|]. simpl in *. apply HdRel_inv in Hx.
  unfold text_le in Hx. by rewrite Hx.
Qed.

Lemma dumps_canon j : dumps (canon j) = dumps j.
Proof.
  induction j as [|b|z|t|s|l IH|kvs IH] using json_induction; try done.
  - cbn [canon dumps]. rewrite map_map. do 3 f_equal. apply map_ext_Forall. done.
  - cbn [canon]. rewrite !dumps_obj_text, sorted_sort_keys, sort_keys_map, map_map by apply sort_keys_sorted.
    rewrite <- (sort_keys_perm kvs) in IH. do 3 f_equal.
    apply map_ext_Forall, (Forall_impl _ _ _ IH). intros [k v] Hv. unfold item_text. simpl in *. by rewrite Hv.
Qed.

(** reading back what the encoders wrote: for every document without a literal
    number whose objects have distinct keys, [loads] of its canonical text answers
    the document with its keys sorted - so the parser's fuel suffices on every
    journal text - and printing that document gives the same text again. *)
Theorem loads_dumps j : regular j → loads (dumps j) = Ok (canon j) ∧ dumps (canon j) = dumps j.
Proof. intros Hr. split; [by apply loads_back|apply dumps_canon]. Qed.

Lemma loads_dumps_witness :
  loads (dumps (JObj [("b", JArr [JInt (-7)]); ("a", JStr "x")])) = Ok (JObj [("a", JStr "x"); ("b", JArr [JInt (-7)])]).
Proof.
  refine (proj1 (loads_dumps (JObj [("b", JArr [JInt (-7)]); ("a", JStr "x")]) _)).
  simpl. split; [|done]. repeat constructor; set_solver.
Defined.
