(* ===== verification/Binary64.v ===== *)
(** Binary64 values as bit patterns, and the two REAL decoders:
    probes/typed-real-encoding/typed_real.py (decimal text checked against an
    exact rounding oracle) and probes/pmb1-real-profile/canonical_real.py (sixteen
    hexadecimal digits). A Python [float] is its 64-bit pattern. *)
From Stdlib Require Import QArith Qabs Lqa.
From S2P Require Import Prelude Json JsonParse.
Open Scope Z_scope.

(** ** Bit patterns *)

Definition MAX_FINITE : Z := 9218868437227405311.
Definition SIGN : Z := Z.shiftl 1 63.
Definition MAX_WIRE_BYTES : Z := 256.
Definition FRACTION_MASK : Z := Z.shiftl 1 52 - 1.

(** [math.isfinite] *)
Definition isfinite (bits : Z) : bool := negb (Z.land (Z.shiftr bits 52) 2047 =? 2047).

(** *** [float.hex] and [float.fromhex] on its outputs *)

Fixpoint hex_digits (n : nat) (v : Z) : string :=
  match n with
  | O => EmptyString
  | S m => String (hex_digit (v / 16 ^ Z.of_nat m mod 16)) (hex_digits m v)
  end.

Definition exponent_text (e : Z) : string := if e <? 0 then "-" +:+ str_of_int (- e) else "+" +:+ str_of_int e.

(** [float.hex] *)
Definition float_hex (bits : Z) : string :=
  let sign := if Z.testbit bits 63 then "-" else EmptyString in
  let exponent := Z.land (Z.shiftr bits 52) 2047 in
  let fraction := Z.land bits FRACTION_MASK in
  if exponent =? 0 then
    if fraction =? 0 then sign +:+ "0x0.0p+0"
    else sign +:+ "0x0." +:+ hex_digits 13 fraction +:+ "p-1022"
  else sign +:+ "0x1." +:+ hex_digits 13 fraction +:+ "p" +:+ exponent_text (exponent - 1023).

Fixpoint take_hex (n : nat) (s : string) : option (Z * string) :=
  match n with
  | O => Some (0, s)
  | S m =>
      match s with
      | String c s' =>
          match hex_value c, take_hex m s' with
          | Some d, Some (v, r) => Some (d * 16 ^ Z.of_nat m + v, r)
          | _, _ => None
          end
      | EmptyString => None
      end
  end.

Definition exponent_of (s : string) : option Z :=
  match s with
  | String p (String sg ds) =>
      if negb (code p =? 112) || negb (isdecimal ds) then None
      else if code sg =? 43 then Some (int_of_str ds)
      else if code sg =? 45 then Some (- int_of_str ds) else None
  | _ => None
  end.

Definition unsigned_of (s : string) : option Z :=
  if bool_decide (s = "0x0.0p+0") then Some 0 else
  match s with
  | String z (String x (String lead (String dot s4))) =>
      if negb ((code z =? 48) && (code x =? 120) && (code dot =? 46)) then None else
      match take_hex 13 s4 with
      | Some (fraction, rest) =>
          match exponent_of rest with
          | Some e => if (code lead =? 48) && (e =? -1022) then Some fraction
                      else if code lead =? 49 then Some (Z.shiftl (e + 1023) 52 + fraction)
                      else None
          | None => None
          end
      | None => None
      end
  | _ => None
  end.

(** [float.fromhex(s)] for a text [s] that [float.hex] prints; [None] otherwise. *)
Definition fromhex (s : string) : option Z :=
  let neg := head_is "-" s in
  match unsigned_of (if neg then String.substring 1 (String.length s) s else s) with
  | Some m => let b := if neg then SIGN + m else m in
              if bool_decide (float_hex b = s) then Some b else None
  | None => None
  end.

(** ** typed_real.py *)

(** A [require] of these modules raises their [Refused], a [Refusal] here. *)
Definition positive_rational (bits : Z) : res Q :=
  require ((0 <=? bits) && (bits <=? MAX_FINITE)) "invalid_oracle_bits" ;?
  let exponent := Z.shiftr bits 52 in
  let fraction := Z.land bits (Z.shiftl 1 52 - 1) in
  let significand := if exponent =? 0 then fraction else Z.shiftl 1 52 + fraction in
  let power := if exponent =? 0 then -1074 else exponent - 1075 in
  Ok (if 0 <=? power then inject_Z (Z.shiftl significand power)
      else Qmake significand (Z.to_pos (Z.shiftl 1 (- power)))).

Definition Qltb (a b : Q) : bool := negb (Qle_bool b a).

Definition rounds_to (decimal : Q) (bits : Z) : res bool :=
  require ((0 <=? bits) && (bits <? Z.shiftl 1 64)) "invalid_oracle_bits" ;?
  let magnitude := Z.land bits (SIGN - 1) in
  if negb ((0 <? magnitude) && (magnitude <=? MAX_FINITE)) || Qeq_bool decimal 0 then Ok false
  else if negb (Bool.eqb (Qltb decimal 0) (negb (Z.land bits SIGN =? 0))) then Ok false
  else
    let? value := positive_rational magnitude in
    let? previous := positive_rational (magnitude - 1) in
    let? following := (if magnitude =? MAX_FINITE then Ok (inject_Z (Z.shiftl 1 1024))
                       else positive_rational (magnitude + 1)) in
    let lower := ((previous + value) / 2)%Q in
    let upper := ((value + following) / 2)%Q in
    let exact := Qabs decimal in
    if negb (Z.land magnitude 1 =? 0) then Ok (Qltb lower exact && Qltb exact upper)
    else Ok (Qle_bool lower exact && Qle_bool exact upper).

(** [_unique] and [_nonfinite], the hooks of both modules. *)
Fixpoint unique_into (acc pairs : list (string * json)) : res (list (string * json)) :=
  match pairs with
  | [] => Ok acc
  | (k, v) :: pairs' =>
      require (bool_decide (dict_get k acc = None)) "duplicate_field" ;?
      unique_into (acc ++ [(k, v)]) pairs'
  end.
Definition strict_hooks : Hooks :=
  mkHooks (λ kvs, let? d := unique_into [] kvs in Ok (JObj d)) (λ _, Err (Refusal "nonfinite_json")).

(** [try: json.loads(raw.decode(...), ...) except UnicodeError, JSONDecodeError] *)
Definition load_strict (raw : string) : res json :=
  match (let? text := utf8_decode raw in loads_with strict_hooks text) with
  | Err (External "UnicodeDecodeError") | Err (External "JSONDecodeError") => Err (Refusal "invalid_json")
  | r => r
  end.

(** [type(cell) is dict and set(cell) == keys]: its dictionary. *)
Definition closed_fields (keys : list string) (cell : json) : res (list (string * json)) :=
  match cell with
  | JObj d =>
      require (forallb (λ k, bool_decide (is_Some (dict_get k d))) keys
               && forallb (λ kv, str_in kv.1 keys) d) "invalid_fields" ;?
      Ok d
  | _ => Err (Refusal "invalid_fields")
  end.
Definition field (k : string) (d : list (string * json)) : pyval :=
  match dict_get k d with Some j => py_of_json j | None => POther end.

(** The [DECIMAL] grammar, by its parts: sign, integer part, fraction, exponent. *)
Record Decimal := mkDecimal {
  d_negative : bool;
  d_integer : string;
  d_fraction : string;
  d_exponent : option string;
}.

Definition exponent_digits_ok (e : string) : bool :=
  match e with
  | String sg ds => (head_is "+" e || head_is "-" e) && isdecimal ds && (2 <=? slen ds) && (slen ds <=? 3)
  | EmptyString => false
  end.

(** [DECIMAL.fullmatch(spelling)] *)
Definition match_decimal (spelling : string) : option Decimal :=
  let neg := head_is "-" spelling in
  let body := if neg then String.substring 1 (String.length spelling) spelling else spelling in
  let ip := take_digits body in
  let integer_ok := bool_decide (ip.1 = "0") || (isdecimal ip.1 && negb (head_is "0" ip.1)) in
  match ip.2 with
  | String dot s1 =>
      let fp := take_digits s1 in
      if negb integer_ok || negb (code dot =? 46) || bool_decide (fp.1 = EmptyString) then None
      else match fp.2 with
           | EmptyString => Some (mkDecimal neg ip.1 fp.1 None)
           | String e s2 => if (code e =? 101) && exponent_digits_ok s2
                            then Some (mkDecimal neg ip.1 fp.1 (Some s2)) else None
           end
  | EmptyString => None
  end.

Definition signed_int (e : string) : Z :=
  match e with
  | String sg ds => if code sg =? 45 then - int_of_str ds else int_of_str ds
  | EmptyString => 0
  end.
Definition exponent_value (d : Decimal) : Z := match d_exponent d with Some e => signed_int e | None => 0 end.

(** [coefficient.removesuffix(".0").lstrip("-").replace(".", "").lstrip("0")] *)
Fixpoint lstrip0 (s : string) : string :=
  match s with String c s' => if code c =? 48 then lstrip0 s' else s | EmptyString => s end.
Definition significant (d : Decimal) : string :=
  lstrip0 (if bool_decide (d_fraction d = "0") then d_integer d else d_integer d +:+ d_fraction d).

(** [Fraction(spelling)] *)
Definition decimal_value (d : Decimal) : Q :=
  let coefficient := int_of_str (d_integer d +:+ d_fraction d) in
  let signed := if d_negative d then - coefficient else coefficient in
  let power := exponent_value d - slen (d_fraction d) in
  if 0 <=? power then inject_Z (signed * 10 ^ power) else Qmake signed (Z.to_pos (10 ^ (- power))).

Module TypedReal.
Section Decoder.
(** [float(text)] of a decimal text, as a bit pattern. *)
Context (py_float : string → Z).

Definition decode_cell (cell : list (string * json)) : res (list string) :=
  require (bool_decide (field "type" cell = PStr "real")) "not_real" ;?
  require (bool_decide (field "guard" cell = PInt 1)) "source_guard" ;?
  match field "decimal" cell with
  | PStr spelling =>
      require ((0 <? slen spelling) && (slen spelling <=? 64)) "decimal_bound" ;?
      match match_decimal spelling with
      | None => Err (Refusal "decimal_grammar")
      | Some d =>
          require ((0 <? slen (significant d)) && (slen (significant d) <=? 26)) "decimal_precision_or_zero" ;?
          require (Z.abs (exponent_value d) <=? 324) "decimal_exponent" ;?
          let bits := py_float spelling in
          require (isfinite bits && negb (Z.land bits (SIGN - 1) =? 0)) "nonfinite_or_zero" ;?
          (let? ok := rounds_to (decimal_value d) bits in require ok "decoder_rounding") ;?
          let canonical := float_hex bits in
          require (bool_decide (fromhex canonical = Some bits)) "canonical_roundtrip" ;?
          Ok ["real"; canonical]
      end
  | _ => Err (Refusal "decimal_bound")
  end.

Definition decode_wire (raw : string) : res (list string) :=
  require (slen raw <=? MAX_WIRE_BYTES) "wire_bound" ;?
  let? cell := load_strict raw in
  let? d := closed_fields ["type"; "decimal"; "guard"] cell in
  decode_cell d.
End Decoder.
End TypedReal.

(** ** canonical_real.py *)

Module CanonicalReal.

Definition PROFILE : string := "pmb1-real-binding-binary64-v1".

Definition is_row_char (c : ascii) : bool :=
  is_digit c || ((97 <=? code c) && (code c <=? 122)) || (code c =? 45).
(** [re.fullmatch(r"synthetic-[a-z0-9-]{1,64}", row_id)] *)
Definition row_id_ok (s : string) : bool :=
  let rest := after_prefix "synthetic-" s in
  String.prefix "synthetic-" s && str_forall is_row_char rest && (1 <=? slen rest) && (slen rest <=? 64).

Definition is_binary64 (s : string) : bool := (slen s =? 16) && str_forall is_hex s.
(** [int(bits, 16)] *)
Definition hex_int (s : string) : Z := match take_hex 16 s with Some (v, _) => v | None => 0 end.

Definition decode_cell (cell : list (string * json)) (expected_row_id : string) : res (list string) :=
  require (bool_decide (field "profile" cell = PStr PROFILE)) "profile" ;?
  require (bool_decide (field "row_id" cell = PStr expected_row_id)) "row_identity" ;?
  require (bool_decide (field "type" cell = PStr "real")) "not_real" ;?
  match field "binary64" cell with
  | PStr bits =>
      require (is_binary64 bits) "binary64_grammar" ;?
      let packed := hex_int bits in
      require (negb (Z.land (Z.shiftr packed 52) 2047 =? 2047)) "nonfinite_bits" ;?
      require (isfinite packed) "nonfinite_value" ;?
      let canonical := float_hex packed in
      require (bool_decide (fromhex canonical = Some packed)) "canonical_roundtrip" ;?
      Ok ["real"; canonical]
  | _ => Err (Refusal "binary64_grammar")
  end.

Definition decode_wire (raw : string) (expected_row_id : string) : res (list string) :=
  require ((0 <? slen raw) && (slen raw <=? MAX_WIRE_BYTES)) "wire_bound" ;?
  require (row_id_ok expected_row_id) "expected_identity" ;?
  let? cell := load_strict raw in
  let? d := closed_fields ["profile"; "row_id"; "type"; "binary64"] cell in
  decode_cell d expected_row_id.

End CanonicalReal.

Example hex_examples :
  map float_hex [0; 9223372036854775808; 4607182418800017408; 1; 9218868437227405311; 13826050856027422720]
  = ["0x0.0p+0"; "-0x0.0p+0"; "0x1.0000000000000p+0"; "0x0.0000000000001p-1022";
     "0x1.fffffffffffffp+1023"; "-0x1.0000000000000p-1"].
Proof. vm_compute. reflexivity. Qed.

Example rounds_examples :
  (rounds_to (1 # 10) 4591870180066957722, rounds_to (1 # 10) 4591870180066957721,
   rounds_to (-1 # 2) 13826050856027422720)
  = (Ok true, Ok false, Ok true).
Proof. vm_compute. reflexivity. Qed.

(** ** Lemmas: hexadecimal text *)

Lemma small_cases (P : Z → Prop) n :
  0 <= n < 16 → P 0 → P 1 → P 2 → P 3 → P 4 → P 5 → P 6 → P 7 → P 8 → P 9 → P 10 → P 11 → P 12
  → P 13 → P 14 → P 15 → P n.
Proof.
  intros Hn. intros.
  assert (n = 0 ∨ n = 1 ∨ n = 2 ∨ n = 3 ∨ n = 4 ∨ n = 5 ∨ n = 6 ∨ n = 7 ∨ n = 8 ∨ n = 9 ∨ n = 10
    ∨ n = 11 ∨ n = 12 ∨ n = 13 ∨ n = 14 ∨ n = 15) as Hcase by lia.
  repeat (destruct Hcase as [->|Hcase]; [done|]). by subst.
Qed.

Lemma hex_value_digit n : 0 <= n < 16 → hex_value (hex_digit n) = Some n.
Proof. intros Hn. by apply (small_cases (λ n, hex_value (hex_digit n) = Some n)). Qed.

Lemma take_hex_digits n v r : 0 <= v → take_hex n (hex_digits n v +:+ r) = Some (v mod 16 ^ Z.of_nat n, r).
Proof.
  intros Hv. induction n as [|n IH].
  - simpl. by rewrite Z.mod_1_r.
  - change (hex_digits (S n) v +:+ r) with (String (hex_digit (v / 16 ^ Z.of_nat n mod 16)) (hex_digits n v +:+ r)).
    simpl take_hex. rewrite IH, hex_value_digit by (apply Z.mod_pos_bound; lia).
    f_equal. f_equal. rewrite Nat2Z.inj_succ, Z.pow_succ_r, (Z.mul_comm 16) by lia.
    rewrite Z.rem_mul_r by lia. lia.
Qed.

Lemma slen_hex_digits n v : slen (hex_digits n v) = Z.of_nat n.
Proof. unfold slen. f_equal. induction n as [|n IH]; simpl; [done|]. by rewrite IH. Qed.

Lemma exponent_of_text e : exponent_of ("p" +:+ exponent_text e) = Some e.
Proof.
  unfold exponent_text. destruct (Z.ltb_spec e 0) as [Hn|Hp].
  - destruct (str_of_int_decimal (- e)) as [Hd _]; [lia|].
    change ("p" +:+ "-" +:+ str_of_int (- e)) with (String "p" (String "-" (str_of_int (- e)))).
    simpl. rewrite Hd. simpl. f_equal. rewrite int_of_str_of_int; lia.
  - change ("p" +:+ "+" +:+ str_of_int e) with (String "p" (String "+" (str_of_int e))). simpl.
    destruct (Z.eq_dec e 0) as [->|Hne]; [done|].
    destruct (str_of_int_decimal e) as [Hd _]; [lia|]. rewrite Hd. simpl.
    by rewrite int_of_str_of_int by lia.
Qed.

(** A bit pattern is its sign, exponent and fraction fields. *)
Definition fraction_of (b : Z) : Z := Z.land b FRACTION_MASK.
Definition exponent_field (b : Z) : Z := Z.land (Z.shiftr b 52) 2047.

Lemma fraction_of_mod b : fraction_of b = b mod 2 ^ 52.
Proof.
  unfold fraction_of. change FRACTION_MASK with (Z.ones 52). apply Z.land_ones. lia.
Qed.

Lemma exponent_field_div b : exponent_field b = (b / 2 ^ 52) mod 2 ^ 11.
Proof.
  unfold exponent_field. rewrite Z.shiftr_div_pow2 by lia. change 2047 with (Z.ones 11).
  apply Z.land_ones. lia.
Qed.

Lemma sign_bit b : 0 <= b < 2 ^ 64 → Z.testbit b 63 = (2 ^ 63 <=? b).
Proof.
  intros Hb. pose proof (Z.testbit_spec' b 63 ltac:(lia)) as Hs.
  assert (b / 2 ^ 63 = 0 ∨ b / 2 ^ 63 = 1) as Hq.
  { pose proof (Z.div_pos b (2 ^ 63)). pose proof (Z.div_lt_upper_bound b (2 ^ 63) 2). lia. }
  pose proof (Z.div_mod b (2 ^ 63)) as Hd. pose proof (Z.mod_pos_bound b (2 ^ 63)) as Hm.
  destruct Hq as [Hq|Hq]; rewrite Hq in Hs, Hd; destruct (Z.testbit b 63); simpl in Hs; try done;
    symmetry; [apply Z.leb_gt|apply Z.leb_le]; lia.
Qed.

(** The magnitude fields do not see the sign bit. *)
Lemma fields_of_magnitude b m :
  0 <= m < 2 ^ 63 → b = m ∨ b = SIGN + m →
  fraction_of b = m mod 2 ^ 52 ∧ exponent_field b = m / 2 ^ 52 ∧ Z.testbit b 63 = (2 ^ 63 <=? b).
Proof.
  intros Hm Hb. assert (SIGN = 2 ^ 11 * 2 ^ 52) as HS by done.
  rewrite sign_bit by (change SIGN with (2 ^ 63) in *; lia).
  rewrite fraction_of_mod, exponent_field_div. split_and!; [| |done].
  - destruct Hb as [-> | ->]; [done|]. rewrite HS, Z.add_comm, Z.mod_add by lia. done.
  - pose proof (Z.div_pos m (2 ^ 52)). pose proof (Z.div_lt_upper_bound m (2 ^ 52) (2 ^ 11)).
    destruct Hb as [-> | ->]; [by apply Z.mod_small; lia|].
    rewrite HS, Z.add_comm, Z.div_add, Z.add_mod, Z.mod_same, Z.add_0_r, Z.mod_mod by lia.
    apply Z.mod_small. lia.
Qed.

Definition sign_text (b : Z) : string := if Z.testbit b 63 then "-" else EmptyString.

(** The printed magnitude, as [unsigned_of] reads it. *)
Definition magnitude_text (m : Z) : string :=
  if m / 2 ^ 52 =? 0 then
    if m mod 2 ^ 52 =? 0 then "0x0.0p+0" else "0x0." +:+ hex_digits 13 (m mod 2 ^ 52) +:+ "p-1022"
  else "0x1." +:+ hex_digits 13 (m mod 2 ^ 52) +:+ "p" +:+ exponent_text (m / 2 ^ 52 - 1023).

Lemma float_hex_split b m :
  0 <= m < 2 ^ 63 → b = m ∨ b = SIGN + m → float_hex b = sign_text b +:+ magnitude_text m.
Proof.
  intros Hm Hb. destruct (fields_of_magnitude b m Hm Hb) as (Hf & He & _).
  unfold float_hex. fold (fraction_of b) (exponent_field b). rewrite Hf, He.
  unfold magnitude_text, sign_text. by repeat case_match.
Qed.

Lemma unsigned_of_text m : 0 <= m < 2 ^ 63 → unsigned_of (magnitude_text m) = Some m.
Proof.
  intros Hm. unfold magnitude_text. pose proof (Z.div_mod m (2 ^ 52) ltac:(lia)) as Hd.
  pose proof (Z.mod_pos_bound m (2 ^ 52) ltac:(lia)) as Hb.
  assert (m mod 2 ^ 52 mod 16 ^ Z.of_nat 13 = m mod 2 ^ 52) as Hmod by (change (16 ^ Z.of_nat 13) with (2 ^ 52); apply Z.mod_mod; lia).
  destruct (Z.eqb_spec (m / 2 ^ 52) 0) as [H0|Hne].
  - destruct (Z.eqb_spec (m mod 2 ^ 52) 0) as [H1|H1]; [change (Some 0 = Some m); f_equal; lia|].
    unfold unsigned_of. rewrite bool_decide_eq_false_2.
    + change ("0x0." +:+ hex_digits 13 (m mod 2 ^ 52) +:+ "p-1022") with
        (String "0" (String "x" (String "0" (String "." (hex_digits 13 (m mod 2 ^ 52) +:+ "p-1022"))))).
      cbv beta iota. rewrite take_hex_digits by lia. rewrite Hmod. simpl. f_equal. lia.
    + intros Heq. apply (f_equal slen) in Heq. rewrite !slen_app, slen_hex_digits in Heq. by vm_compute in Heq.
  - unfold unsigned_of. rewrite bool_decide_eq_false_2.
    + change ("0x1." +:+ hex_digits 13 (m mod 2 ^ 52) +:+ "p" +:+ exponent_text (m / 2 ^ 52 - 1023)) with
        (String "0" (String "x" (String "1" (String "." (hex_digits 13 (m mod 2 ^ 52) +:+ "p" +:+
          exponent_text (m / 2 ^ 52 - 1023)))))).
      cbv beta iota. rewrite take_hex_digits by lia. rewrite Hmod, exponent_of_text. simpl.
      f_equal. rewrite Z.shiftl_mul_pow2 by lia. lia.
    + intros Heq. apply (f_equal slen) in Heq. rewrite !slen_app, slen_hex_digits in Heq.
      pose proof (slen_nonneg (exponent_text (m / 2 ^ 52 - 1023))).
      change (slen "0x0.0p+0") with 8 in Heq. change (slen "0x1.") with 4 in Heq.
      change (slen "p") with 1 in Heq. lia.
Qed.

Lemma magnitude_text_head m : head_is "-" (magnitude_text m) = false.
Proof. unfold magnitude_text. by repeat case_match. Qed.

Lemma substring_tail c s : String.substring 1 (String.length (String c s)) (String c s) = s.
Proof.
  simpl. assert (∀ n t, (String.length t ≤ n)%nat → String.substring 0 n t = t) as Hs.
  { intros n t. revert n. induction t as [|d t IH]; intros n Hn; [by destruct n|].
    destruct n as [|n]; simpl in *; [lia|]. rewrite IH by lia. done. }
  apply Hs. lia.
Qed.

Lemma magnitude_split b : 0 <= b < 2 ^ 64 →
  ∃ m, 0 <= m < 2 ^ 63 ∧ b = (if Z.testbit b 63 then SIGN + m else m).
Proof.
  intros Hb. rewrite sign_bit by done. change SIGN with (2 ^ 63).
  destruct (Z.leb_spec (2 ^ 63) b); [exists (b - 2 ^ 63)|exists b]; lia.
Qed.

(** ** Properties: hexadecimal text *)

Lemma float_hex_inverse b : 0 <= b < 2 ^ 64 → fromhex (float_hex b) = Some b.
Proof.
  intros Hb. destruct (magnitude_split b Hb) as (m & Hm & Hsplit).
  assert (b = m ∨ b = SIGN + m) as Hor by (revert Hsplit; case (Z.testbit b 63); intros ->; [by right|by left]).
  rewrite (float_hex_split b m Hm) by done.
  unfold fromhex, sign_text. destruct (Z.testbit b 63) eqn:Hs.
  - change ("-" +:+ magnitude_text m) with (String "-" (magnitude_text m)).
    rewrite substring_tail. simpl head_is. cbv iota.
    rewrite unsigned_of_text by done. rewrite <- Hsplit, bool_decide_eq_true_2; [done|].
    rewrite (float_hex_split b m Hm) by done. unfold sign_text. by rewrite Hs.
  - change (EmptyString +:+ magnitude_text m) with (magnitude_text m).
    rewrite magnitude_text_head, unsigned_of_text by done. subst m. rewrite bool_decide_eq_true_2; [done|].
    rewrite (float_hex_split b b) by auto. unfold sign_text. by rewrite Hs.
Qed.

(** [float.fromhex(value.hex())] gives back every binary64 bit pattern, both
    zeros, subnormals and infinities' neighbours included: the canonical text
    loses no bit, so two values with one text are one value. *)
Theorem fromhex_float_hex b : 0 <= b < 2 ^ 64 → fromhex (float_hex b) = Some b.
Proof. apply float_hex_inverse. Qed.

Lemma fromhex_float_hex_witness : 0 <= 1 < 2 ^ 64 ∧ fromhex (float_hex 1) = Some 1.
Proof. split; [lia|]. apply (fromhex_float_hex 1). lia. Defined.

(** ** Rational values of finite magnitudes *)

Local Notation E1074 := (Z.to_pos (2 ^ 1074)).

(** The value of a finite magnitude, as a multiple of 2^-1074. *)
Definition scaled (m : Z) : Z :=
  let e := m / 2 ^ 52 in let f := m mod 2 ^ 52 in
  if e =? 0 then f else (2 ^ 52 + f) * 2 ^ (e - 1).
Definition magnitude_value (m : Z) : Q := Qmake (scaled m) E1074.
(** The value of a finite bit pattern. *)
Definition float_value (b : Z) : Q :=
  let v := magnitude_value (Z.land b (SIGN - 1)) in if Z.testbit b 63 then (- v)%Q else v.

(** One step of the pattern adds one unit in the last place. *)
Lemma scaled_step m : 0 <= m → scaled (m + 1) = scaled m + 2 ^ (Z.max (m / 2 ^ 52) 1 - 1).
Proof.
  intros Hm. pose proof (Z.div_mod m (2 ^ 52) ltac:(lia)) as Hd.
  pose proof (Z.mod_pos_bound m (2 ^ 52) ltac:(lia)) as Hf.
  pose proof (Z.div_pos m (2 ^ 52) ltac:(lia) ltac:(lia)) as He.
  set (e := m / 2 ^ 52) in *. set (f := m mod 2 ^ 52) in *.
  destruct (Z.eq_dec f (2 ^ 52 - 1)) as [Hlast|Hin].
  - assert ((m + 1) / 2 ^ 52 = e + 1) as He' by (symmetry; apply (Z.div_unique_pos _ _ _ 0); lia).
    assert ((m + 1) mod 2 ^ 52 = 0) as Hf' by (symmetry; apply (Z.mod_unique_pos _ _ (e + 1)); lia).
    unfold scaled. fold e f. rewrite He', Hf', Hlast.
    rewrite (proj2 (Z.eqb_neq (e + 1) 0)) by lia. destruct (Z.eqb_spec e 0) as [He0|Hne].
    + rewrite He0. done.
    + rewrite Z.max_l by lia. replace (e + 1 - 1) with (Z.succ (e - 1)) by lia.
      rewrite Z.pow_succ_r by lia. lia.
  - assert ((m + 1) / 2 ^ 52 = e) as He' by (symmetry; apply (Z.div_unique_pos _ _ _ (f + 1)); lia).
    assert ((m + 1) mod 2 ^ 52 = f + 1) as Hf' by (symmetry; apply (Z.mod_unique_pos _ _ e); lia).
    unfold scaled. fold e f. rewrite He', Hf'. destruct (Z.eqb_spec e 0) as [He0|Hne].
    + rewrite He0. done.
    + rewrite Z.max_l by lia. lia.
Qed.

Lemma scaled_lt m n : 0 <= m < n → scaled m < scaled n.
Proof.
  intros [Hm Hn]. replace n with (m + 1 + (n - m - 1)) by lia.
  assert (0 <= n - m - 1) as Hk by lia. revert Hk. generalize (n - m - 1). clear n Hn.
  apply natlike_ind; [|intros k Hk IH]; (rewrite ?Z.add_0_r; try replace (m + 1 + Z.succ k) with (m + 1 + k + 1) by lia);
    rewrite scaled_step by lia; match goal with |- context [2 ^ ?e] => pose proof (Z.pow_pos_nonneg 2 e) end; lia.
Qed.

Lemma scaled_nonneg m : 0 <= m → 0 <= scaled m.
Proof.
  intros Hm. destruct (Z.eq_dec m 0) as [->|]; [done|].
  pose proof (scaled_lt 0 m ltac:(lia)). change (scaled 0) with 0 in *. lia.
Qed.

Lemma magnitude_value_lt m n : 0 <= m < n → (magnitude_value m < magnitude_value n)%Q.
Proof. intros H. apply scaled_lt in H. unfold magnitude_value, Qlt. simpl Qnum. simpl Qden. nia. Qed.

Lemma magnitude_value_le m n : 0 <= m <= n → (magnitude_value m <= magnitude_value n)%Q.
Proof.
  intros H. destruct (Z.eq_dec m n) as [->|]; [apply Qle_refl|].
  apply Qlt_le_weak, magnitude_value_lt. lia.
Qed.

Lemma magnitude_value_nonneg m : 0 <= m → (0 <= magnitude_value m)%Q.
Proof. intros H. apply scaled_nonneg in H. unfold magnitude_value, Qle. simpl Qnum. simpl Qden. lia. Qed.

Lemma positive_rational_value m : 0 <= m <= MAX_FINITE →
  ∃ q, positive_rational m = Ok q ∧ (q == magnitude_value m)%Q.
Proof.
  intros Hm. unfold positive_rational.
  rewrite (proj2 (andb_true_iff _ _)) by (split; apply Z.leb_le; lia). unfold require, rbind.
  eexists. split; [done|]. rewrite Z.shiftr_div_pow2 by lia.
  change (Z.shiftl 1 52 - 1) with (Z.ones 52). rewrite Z.land_ones by lia.
  unfold magnitude_value, scaled. pose proof (Z.mod_pos_bound m (2 ^ 52) ltac:(lia)) as Hf.
  pose proof (Z.div_pos m (2 ^ 52) ltac:(lia) ltac:(lia)) as He.
  set (e := m / 2 ^ 52) in *. set (f := m mod 2 ^ 52) in *.
  destruct (Z.eqb_spec e 0) as [He0|Hne].
  - change (0 <=? -1074) with false. cbv iota. by rewrite (eq_refl : Z.shiftl 1 (- -1074) = 2 ^ 1074).
  - change (Z.shiftl 1 52) with (2 ^ 52). destruct (Z.leb_spec 0 (e - 1075)) as [Hp|Hn].
    + unfold Qeq, inject_Z. cbn [Qnum Qden]. rewrite (Z2Pos.id (2 ^ 1074)) by (apply Z.pow_pos_nonneg; lia).
      rewrite Z.shiftl_mul_pow2, <- Z.mul_assoc, <- Z.pow_add_r, Z.mul_1_r by lia.
      do 2 f_equal. lia.
    + unfold Qeq. cbn [Qnum Qden].
      rewrite Z.shiftl_mul_pow2, Z.mul_1_l, !Z2Pos.id by (try apply Z.pow_pos_nonneg; lia).
      rewrite <- Z.mul_assoc, <- Z.pow_add_r by lia. do 2 f_equal. lia.
Qed.

Lemma magnitude_value_top : (inject_Z (Z.shiftl 1 1024) == magnitude_value (MAX_FINITE + 1))%Q.
Proof. vm_compute. reflexivity. Qed.

Lemma Qltb_lt a b : Qltb a b = true ↔ (a < b)%Q.
Proof.
  unfold Qltb. rewrite negb_true_iff, <- not_true_iff_false, Qle_bool_iff. split; [apply Qnot_le_lt|apply Qlt_not_le].
Qed.

Lemma magnitude_range b : 0 <= Z.land b (SIGN - 1) < SIGN.
Proof. change (SIGN - 1) with (Z.ones 63). rewrite Z.land_ones by lia. change SIGN with (2 ^ 63). apply Z.mod_pos_bound. lia. Qed.

Lemma sign_land b : negb (Z.land b SIGN =? 0) = Z.testbit b 63.
Proof.
  change SIGN with (2 ^ 63). destruct (Z.testbit b 63) eqn:E.
  - apply negb_true_iff, Z.eqb_neq. intros Hz. apply (f_equal (λ z, Z.testbit z 63)) in Hz.
    by rewrite Z.land_spec, E, Z.pow2_bits_true, Z.bits_0 in Hz by lia.
  - apply negb_false_iff, Z.eqb_eq, Z.bits_inj'. intros n Hn. rewrite Z.land_spec, Z.bits_0.
    destruct (Z.eq_dec n 63) as [->|]; [by rewrite E|].
    by rewrite Z.pow2_bits_false, andb_false_r by lia.
Qed.

Lemma land_1_odd m : negb (Z.land m 1 =? 0) = Z.odd m.
Proof.
  change 1 with (Z.ones 1) at 1. rewrite Z.land_ones by lia. change (2 ^ 1) with 2.
  rewrite Zmod_odd. by destruct (Z.odd m).
Qed.

(** What an accepted pattern says: its sign, and its half-way bounds, which are
    strict when its last bit is odd. *)
Record half_open (d : Q) (b m : Z) : Prop := {
  ho_range : 0 < m <= MAX_FINITE;
  ho_sign : Z.testbit b 63 = true ↔ (d < 0)%Q;
  ho_nonzero : ¬ (d == 0)%Q;
  ho_lower : (magnitude_value (m - 1) + magnitude_value m <= 2 * Qabs d)%Q;
  ho_upper : (2 * Qabs d <= magnitude_value m + magnitude_value (m + 1))%Q;
  ho_odd : Z.odd m = true →
    (magnitude_value (m - 1) + magnitude_value m < 2 * Qabs d)%Q
    ∧ (2 * Qabs d < magnitude_value m + magnitude_value (m + 1))%Q;
}.

Lemma rounds_to_half_open d b : rounds_to d b = Ok true → half_open d b (Z.land b (SIGN - 1)).
Proof.
  unfold rounds_to. rewrite rbind_ok. intros ([] & _ & H). set (m := Z.land b (SIGN - 1)) in *.
  destruct (negb _ || Qeq_bool d 0) eqn:E1 in H; [done|]. apply orb_false_iff in E1 as [E1 E2].
  rewrite sign_land in H. destruct (Bool.eqb _ _) eqn:E3 in H; simpl in H; [|done].
  apply eqb_prop in E3. inv_bool. rewrite !rbind_ok in H.
  destruct H as (v & Hv & H). rewrite rbind_ok in H. destruct H as (p & Hp & H).
  rewrite rbind_ok in H. destruct H as (n & Hn & H).
  destruct (positive_rational_value m) as (v' & Hv' & Ev); [lia|].
  destruct (positive_rational_value (m - 1)) as (p' & Hp' & Ep); [lia|].
  rewrite Hv in Hv'. rewrite Hp in Hp'. simplify_eq.
  assert (n == magnitude_value (m + 1))%Q as En.
  { destruct (Z.eqb_spec m MAX_FINITE) as [->|Hne]; [injection Hn as <-; apply magnitude_value_top|].
    destruct (positive_rational_value (m + 1)) as (n' & Hn' & En); [lia|]. rewrite Hn in Hn'. injection Hn' as ->. exact En. }
  rewrite land_1_odd in H.
  assert (∀ a c, ((a + c) / 2 == (1 # 2) * (a + c))%Q) as Hhalf by (intros; field).
  split.
  - lia.
  - rewrite <- E3. apply Qltb_lt.
  - rewrite <- Qeq_bool_iff. by rewrite E2.
  - destruct (Z.odd m); injection H as H; apply andb_true_iff in H as [H _];
      rewrite ?Qltb_lt, ?Qle_bool_iff, Hhalf, Ev, Ep in H; lra.
  - destruct (Z.odd m); injection H as H; apply andb_true_iff in H as [_ H];
      rewrite ?Qltb_lt, ?Qle_bool_iff, Hhalf, Ev, En in H; lra.
  - intros Ho. rewrite Ho in H. injection H as H. apply andb_true_iff in H as [Hl Hu].
    rewrite Qltb_lt, Hhalf, Ev, Ep in Hl. rewrite Qltb_lt, Hhalf, Ev, En in Hu. lra.
Qed.

(** The value of a pattern, by its sign and magnitude. *)
Lemma float_value_eq b : float_value b =
  if Z.testbit b 63 then (- magnitude_value (Z.land b (SIGN - 1)))%Q else magnitude_value (Z.land b (SIGN - 1)).
Proof. done. Qed.

(** Comparing the distances of two magnitudes to an accepted decimal. *)
Lemma half_open_nearest d b m k :
  half_open d b m → 0 <= k →
  (Qabs (Qabs d - magnitude_value m) <= Qabs (Qabs d - magnitude_value k))%Q.
Proof.
  intros [[Hr _] _ _ Hl Hu _] Hk. set (x := Qabs d) in *.
  destruct (Z.lt_trichotomy k m) as [Hlt|[->|Hgt]]; [|apply Qle_refl|].
  - pose proof (magnitude_value_le k (m - 1)) as H1. pose proof (magnitude_value_lt (m - 1) m) as H2.
    specialize (H1 ltac:(lia)). specialize (H2 ltac:(lia)).
    apply (Qle_trans _ (x - magnitude_value k)); [|apply Qle_Qabs].
    apply Qabs_Qle_condition. lra.
  - pose proof (magnitude_value_le (m + 1) k) as H1. pose proof (magnitude_value_lt m (m + 1)) as H2.
    specialize (H1 ltac:(lia)). specialize (H2 ltac:(lia)).
    apply (Qle_trans _ (- (x - magnitude_value k))); [|rewrite <- Qabs_opp; apply Qle_Qabs].
    apply Qabs_Qle_condition. lra.
Qed.

(** A zero or a pattern of the other sign is no nearer. *)
Lemma half_open_toward_zero d b m k :
  half_open d b m → 0 <= k →
  (Qabs (Qabs d - magnitude_value m) <= Qabs d + magnitude_value k)%Q.
Proof.
  intros [Hr _ _ Hl Hu _] Hk. pose proof (magnitude_value_nonneg (m - 1) ltac:(lia)) as H1.
  pose proof (magnitude_value_nonneg k Hk) as H2. pose proof (magnitude_value_nonneg m ltac:(lia)) as H3.
  pose proof (Qabs_nonneg d) as H4. apply Qabs_Qle_condition. lra.
Qed.

Lemma Qabs_cases d : ((d < 0)%Q ∧ (Qabs d == - d)%Q) ∨ ((0 <= d)%Q ∧ (Qabs d == d)%Q).
Proof.
  destruct (Qlt_le_dec d 0) as [H|H]; [left|right]; split; [done| |done|].
  - apply Qabs_neg. lra.
  - by apply Qabs_pos.
Qed.

(** ** Properties: correct rounding *)

Lemma rounds_to_no_nearer d b c :
  rounds_to d b = Ok true →
  (Qabs (d - float_value b) <= Qabs (d - float_value c))%Q.
Proof.
  intros H%rounds_to_half_open. rewrite !float_value_eq. pose proof (magnitude_range c) as Hc.
  set (m := Z.land b _) in *. set (k := Z.land c _) in *.
  pose proof (half_open_nearest d b m k H ltac:(lia)) as H1.
  pose proof (half_open_toward_zero d b m k H ltac:(lia)) as H2. destruct H as [_ Hs _ _ _ _].
  pose proof (magnitude_value_nonneg k ltac:(lia)) as H3.
  destruct (Qabs_cases d) as [[Hd Ha]|[Hd Ha]].
  - rewrite (proj2 Hs Hd). rewrite Ha in H1, H2.
    assert (d - - magnitude_value m == - (- d - magnitude_value m))%Q as -> by ring.
    rewrite Qabs_opp. destruct (Z.testbit c 63).
    + assert (d - - magnitude_value k == - (- d - magnitude_value k))%Q as -> by ring.
      by rewrite (Qabs_opp (- d - magnitude_value k)).
    + rewrite (Qabs_neg (d - magnitude_value k)) by lra. lra.
  - assert (Z.testbit b 63 = false) as -> by (apply not_true_iff_false; rewrite Hs; lra).
    rewrite Ha in H1, H2. destruct (Z.testbit c 63); [|done].
    rewrite (Qabs_pos (d - - magnitude_value k)) by lra. lra.
Qed.

(** what the rounding oracle of the decimal profile accepts is a correctly
    rounded value: no binary64 pattern, of either sign, is strictly nearer to the
    exact decimal than the accepted one. *)
Theorem rounds_to_nearest d b c :
  rounds_to d b = Ok true →
  (Qabs (d - float_value b) <= Qabs (d - float_value c))%Q.
Proof. apply rounds_to_no_nearer. Qed.

Lemma rounds_to_nearest_witness :
  rounds_to (1 # 10) 4591870180066957722 = Ok true
  ∧ (Qabs ((1 # 10) - float_value 4591870180066957722) <= Qabs ((1 # 10) - float_value 4591870180066957721))%Q.
Proof. split; [vm_compute; reflexivity|]. apply rounds_to_nearest. vm_compute. reflexivity. Defined.

(** The oracle is decisive: it accepts at most one binary64 pattern for a
    decimal (ties go to the even one), so two accepted decodings of one decimal
    text are the same value. *)
Theorem rounds_to_unique d b c :
  0 <= b < 2 ^ 64 → 0 <= c < 2 ^ 64 → rounds_to d b = Ok true → rounds_to d c = Ok true → b = c.
Proof.
  intros Hb Hc Rb%rounds_to_half_open Rc%rounds_to_half_open.
  assert (Z.testbit b 63 = Z.testbit c 63) as Hsign.
  { apply eq_true_iff_eq. by rewrite (ho_sign _ _ _ Rb), (ho_sign _ _ _ Rc). }
  assert (∀ b' c' m k, half_open d b' m → half_open d c' k → ¬ m < k) as Hno.
  { intros b' c' m k [Hm _ _ _ Um Om] [Hk _ _ Lk _ Ok_] Hlt.
    destruct (Z.eq_dec k (m + 1)) as [->|Hne].
    - rewrite Z.add_simpl_r in Lk, Ok_. destruct (Z.odd m) eqn:E.
      + destruct (Om eq_refl). lra.
      + rewrite Z.odd_add, E in Ok_. destruct (Ok_ eq_refl). lra.
    - pose proof (magnitude_value_lt m (k - 1) ltac:(lia)). pose proof (magnitude_value_lt (m + 1) k ltac:(lia)). lra. }
  assert (Z.land b (SIGN - 1) = Z.land c (SIGN - 1)) as Hmag.
  { pose proof (Hno _ _ _ _ Rb Rc). pose proof (Hno _ _ _ _ Rc Rb). lia. }
  destruct (magnitude_split b Hb) as (m & Hm & Eb). destruct (magnitude_split c Hc) as (k & Hk & Ec).
  assert (∀ x n, 0 <= n < 2 ^ 63 → x = (if Z.testbit x 63 then SIGN + n else n) → Z.land x (SIGN - 1) = n) as Hland.
  { intros x n Hn Ex. change (SIGN - 1) with (Z.ones 63). rewrite Z.land_ones by lia. rewrite Ex.
    change SIGN with (1 * 2 ^ 63). destruct (Z.testbit x 63); [|by apply Z.mod_small].
    rewrite Z.add_comm, Z.mod_add by lia. by apply Z.mod_small. }
  rewrite (Hland b m Hm Eb), (Hland c k Hk Ec) in Hmag. rewrite Eb, Ec, Hsign, Hmag. done.
Qed.

Lemma rounds_to_unique_witness :
  0 <= 4591870180066957722 < 2 ^ 64 ∧ rounds_to (1 # 10) 4591870180066957722 = Ok true
  ∧ 4591870180066957722 = 4591870180066957722.
Proof.
  split; [lia|]. split; [vm_compute; reflexivity|].
  apply (rounds_to_unique (1 # 10)); first [lia|vm_compute; reflexivity].
Defined.

(** ** Properties: the two decoders *)

Lemma hex_digits_high n v a : hex_digits n (v + a * 16 ^ Z.of_nat n) = hex_digits n v.
Proof.
  revert a. induction n as [|n IH]; intros a; [done|]. cbn [hex_digits].
  rewrite Nat2Z.inj_succ, Z.pow_succ_r by lia.
  replace (v + a * (16 * 16 ^ Z.of_nat n)) with (v + (a * 16) * 16 ^ Z.of_nat n) by lia.
  rewrite IH, Z.div_add, Z.mod_add by lia. done.
Qed.

Lemma hex_value_inv c : is_hex c = true → ∃ d, hex_value c = Some d ∧ 0 <= d < 16 ∧ hex_digit d = c.
Proof.
  unfold is_hex, is_digit. intros H. exists (if code c <=? 57 then code c - 48 else code c - 87).
  unfold hex_value. destruct (Z.leb_spec (code c) 57).
  - destruct (Z.leb_spec 48 (code c)); [|exfalso; apply orb_true_iff in H as [H|H]; inv_bool; lia].
    simpl. split_and!; [done|lia|lia|]. unfold hex_digit. rewrite (proj2 (Z.ltb_lt _ _)) by lia.
    apply code_inj. rewrite code_chr; lia.
  - apply orb_true_iff in H as [H|H]; inv_bool; [lia|]. rewrite andb_false_r.
    rewrite (proj2 (Z.leb_le 97 (code c))), (proj2 (Z.leb_le (code c) 102)) by lia.
    simpl. split_and!; [done|lia|lia|]. unfold hex_digit. rewrite (proj2 (Z.ltb_ge _ _)) by lia.
    apply code_inj. rewrite code_chr; lia.
Qed.

Lemma hex_text s : str_forall is_hex s = true →
  ∃ v, 0 <= v < 16 ^ slen s ∧ s = hex_digits (String.length s) v.
Proof.
  induction s as [|c s IH]; simpl; [exists 0; done|]. rewrite andb_true_iff. intros [Hc Hs].
  destruct (IH Hs) as (v & Hv & Es). destruct (hex_value_inv c Hc) as (d & _ & Hd & Ec).
  exists (v + d * 16 ^ slen s). unfold slen in *. simpl String.length. rewrite Nat2Z.inj_succ, Z.pow_succ_r by lia.
  split; [nia|]. cbn [hex_digits]. rewrite hex_digits_high, Z.div_add, Z.div_small, Z.add_0_l, Z.mod_small by lia.
  by rewrite Ec, <- Es.
Qed.

Lemma hex_digit_hex d : 0 <= d < 16 → is_hex (hex_digit d) = true.
Proof. intros Hd. by apply (small_cases (λ d, is_hex (hex_digit d) = true)). Qed.

Lemma hex_digits_hex n v : 0 <= v → str_forall is_hex (hex_digits n v) = true.
Proof.
  intros Hv. induction n as [|n IH]; [done|]. cbn [hex_digits str_forall].
  rewrite IH, hex_digit_hex; [done|]. apply Z.mod_pos_bound. lia.
Qed.

Lemma binary64_text s : CanonicalReal.is_binary64 s = true ↔
  ∃ b, 0 <= b < 2 ^ 64 ∧ s = hex_digits 16 b.
Proof.
  unfold CanonicalReal.is_binary64. rewrite andb_true_iff, Z.eqb_eq. split.
  - intros [Hl Hs]. destruct (hex_text s Hs) as (v & Hv & Es). rewrite Hl in Hv.
    exists v. split; [exact Hv|]. unfold slen in Hl. rewrite Es at 1. f_equal. lia.
  - intros (b & Hb & ->). split; [apply (slen_hex_digits 16)|apply hex_digits_hex; lia].
Qed.

Lemma hex_int_digits b : 0 <= b < 2 ^ 64 → CanonicalReal.hex_int (hex_digits 16 b) = b.
Proof.
  intros Hb. unfold CanonicalReal.hex_int. rewrite <- (str_app_nil_r (hex_digits 16 b)), take_hex_digits by lia.
  by apply Z.mod_small.
Qed.


(** Only a string field reads as a string, only an integer as an integer. *)
Lemma field_inv k d v : field k d = v →
  match v with
  | PStr s => dict_get k d = Some (JStr s)
  | PInt z => dict_get k d = Some (JInt z)
  | _ => True
  end.
Proof. unfold field. intros <-. destruct (dict_get k d) as [[]|]; done. Qed.

Lemma closed_fields_ok keys j d : closed_fields keys j = Ok d → j = JObj d.
Proof. destruct j; try done. simpl. intros H. by inv_check. Qed.

(** C35: every value the decimal profile decodes is the correctly rounded one,
    whatever the interpreter's [float] conversion does: a decoded wire is a closed
    object with the real type, guard 1 and a decimal of the grammar; and the
    canonical text it yields denotes a finite pattern such that no binary64 value
    is nearer to that decimal. *)
Theorem typed_real_correct (py_float : string → Z) raw out :
  TypedReal.decode_wire py_float raw = Ok out →
  ∃ kvs spelling d b,
    load_strict raw = Ok (JObj kvs) ∧ dict_get "type" kvs = Some (JStr "real")
    ∧ dict_get "guard" kvs = Some (JInt 1) ∧ dict_get "decimal" kvs = Some (JStr spelling)
    ∧ match_decimal spelling = Some d
    ∧ out = ["real"; float_hex b] ∧ fromhex (float_hex b) = Some b ∧ isfinite b = true
    ∧ ∀ c, (Qabs (decimal_value d - float_value b) <= Qabs (decimal_value d - float_value c))%Q.
Proof.
  unfold TypedReal.decode_wire, TypedReal.decode_cell. intros H. inv_check.
  match goal with H : closed_fields _ _ = Ok _ |- _ => apply closed_fields_ok in H as -> end.
  inv_bool. repeat match goal with H : field _ _ = _ |- _ => apply field_inv in H; simpl in H end.
  destruct (field "decimal" a0) as [| | | |spelling| |] eqn:E3; try done. apply field_inv in E3. simpl in E3.
  inv_check. destruct (match_decimal spelling) as [d|] eqn:E4; [|done]. inv_check. inv_bool.
  exists a0, spelling, d, (py_float spelling). split_and!; try done.
  intros c. apply rounds_to_no_nearer. by subst.
Qed.

Lemma typed_real_correct_witness :
  let raw := dumps (JObj [("type", JStr "real"); ("decimal", JStr "0.1"); ("guard", JInt 1)]) in
  TypedReal.decode_wire (λ _, 4591870180066957722) raw = Ok ["real"; "0x1.999999999999ap-4"]
  ∧ ∃ kvs, load_strict raw = Ok (JObj kvs).
Proof.
  intros raw. assert (TypedReal.decode_wire (λ _, 4591870180066957722) raw = Ok ["real"; "0x1.999999999999ap-4"]) as H
    by (vm_compute; reflexivity).
  split; [exact H|]. destruct (typed_real_correct _ _ _ H) as (kvs & _ & _ & _ & Hl & _). by exists kvs.
Defined.

Example canonical_real_example :
  map (λ b, CanonicalReal.decode_wire (dumps (JObj [("profile", JStr CanonicalReal.PROFILE);
      ("row_id", JStr "synthetic-a"); ("type", JStr "real"); ("binary64", JStr b)])) "synthetic-a")
    ["8000000000000000"; "7ff0000000000000"; "3FF0000000000000"]
  = [Ok ["real"; "-0x0.0p+0"]; Err (Refusal "nonfinite_bits"); Err (Refusal "binary64_grammar")].
Proof. vm_compute. reflexivity. Qed.
