(* ===== verification/Cost.v ===== *)
(** The fifteen-counter [Cost] of probes/pmb1-finite-runner/runner.py, its
    algebra, and the run and campaign limits. *)
From S2P Require Import Prelude Json.

(** ** Data *)

Record Cost := mkCost {
  requests : Z;
  reader_queries : Z;
  receipt_reads : Z;
  metadata_reads : Z;
  authenticated_checks : Z;
  mutations : Z;
  creates : Z;
  deletes : Z;
  sql_statements : Z;
  effects : Z;
  outbound_bytes : Z;
  inbound_bytes : Z;
  artifact_bytes : Z;
  challenges : Z;
  captures : Z;
}.

#[export] Instance Cost_eq_dec : EqDecision Cost.
Proof. solve_decision. Defined.

(** [dataclasses.fields] order. *)
Definition cost_fields (c : Cost) : list (string * Z) :=
  [("requests", requests c); ("reader_queries", reader_queries c);
   ("receipt_reads", receipt_reads c); ("metadata_reads", metadata_reads c);
   ("authenticated_checks", authenticated_checks c); ("mutations", mutations c);
   ("creates", creates c); ("deletes", deletes c);
   ("sql_statements", sql_statements c); ("effects", effects c);
   ("outbound_bytes", outbound_bytes c); ("inbound_bytes", inbound_bytes c);
   ("artifact_bytes", artifact_bytes c); ("challenges", challenges c);
   ("captures", captures c)].

Definition cost_vec (c : Cost) : list Z := map snd (cost_fields c).

(** [dataclasses.asdict]. *)
Definition cost_json (c : Cost) : json :=
  JObj (map (λ kv, (fst kv, JInt (snd kv))) (cost_fields c)).

(** [Cost()]. *)
Definition zero_cost : Cost := mkCost 0 0 0 0 0 0 0 0 0 0 0 0 0 0 0.

(** A cost built field by field from two others. *)
Definition cost_map2 (f : Z → Z → Z) (a b : Cost) : Cost :=
  mkCost (f (requests a) (requests b)) (f (reader_queries a) (reader_queries b))
    (f (receipt_reads a) (receipt_reads b)) (f (metadata_reads a) (metadata_reads b))
    (f (authenticated_checks a) (authenticated_checks b)) (f (mutations a) (mutations b))
    (f (creates a) (creates b)) (f (deletes a) (deletes b))
    (f (sql_statements a) (sql_statements b)) (f (effects a) (effects b))
    (f (outbound_bytes a) (outbound_bytes b)) (f (inbound_bytes a) (inbound_bytes b))
    (f (artifact_bytes a) (artifact_bytes b)) (f (challenges a) (challenges b))
    (f (captures a) (captures b)).

(** ** Operations *)

Definition nonneg (c : Cost) : bool := forallb (λ v, 0 <=? v) (cost_vec c).

(** [Cost.validate] *)
Definition cost_validate (c : Cost) : res unit := refuse_if (negb (nonneg c)) "invalid_cost".

(** [Cost.plus] *)
Definition plus : Cost → Cost → Cost := cost_map2 Z.add.

Definition fieldwise_leb (a b : Cost) : bool :=
  forallb (λ xy, fst xy <=? snd xy) (combine (cost_vec a) (cost_vec b)).

(** [Cost.within] *)
Definition within (self limit : Cost) : res bool :=
  cost_validate self ;? cost_validate limit ;? Ok (fieldwise_leb self limit).

Definition RUN_LIMIT : Cost :=
  mkCost 160 96 20 4 4 32 2 2 256 2048 (4 * 1024 ^ 2) (16 * 1024 ^ 2) (8 * 1024 ^ 2) 12 3.

(** [dataclasses.replace(Cost(RUN_LIMIT * 12), creates=2, deletes=2)] *)
Definition times12 (c : Cost) : Cost := cost_map2 (λ x _, x * 12) c c.
Definition with_latches (c : Cost) (n d : Z) : Cost :=
  mkCost (requests c) (reader_queries c) (receipt_reads c) (metadata_reads c)
    (authenticated_checks c) (mutations c) n d (sql_statements c) (effects c)
    (outbound_bytes c) (inbound_bytes c) (artifact_bytes c) (challenges c) (captures c).
Definition CAMPAIGN_LIMIT : Cost := with_latches (times12 RUN_LIMIT) 2 2.

(** Seven request categories a request is counted under. *)
Definition categories (c : Cost) : Z :=
  reader_queries c + receipt_reads c + metadata_reads c + authenticated_checks c
  + mutations c + creates c + deletes c.

(** Fieldwise order and the sum of a list of costs. *)
Definition cost_le (a b : Cost) : Prop := Forall2 Z.le (cost_vec a) (cost_vec b).
Definition cost_sum (l : list Cost) : Cost := foldl plus zero_cost l.

(** ** Lemmas *)

Ltac cost_unfold := unfold cost_le, plus, cost_map2, cost_vec, cost_fields, zero_cost in *; simpl in *.

Ltac cost_split :=
  repeat match goal with
  | H : Forall2 _ (_ :: _) (_ :: _) |- _ => inversion H; clear H; subst
  | H : Forall2 _ [] [] |- _ => clear H
  end.

Lemma plus_comm a b : plus a b = plus b a.
Proof. destruct a, b. cost_unfold. f_equal; lia. Qed.

Lemma plus_assoc a b c : plus a (plus b c) = plus (plus a b) c.
Proof. destruct a, b, c. cost_unfold. f_equal; lia. Qed.

Lemma plus_zero_l a : plus zero_cost a = a.
Proof. by destruct a. Qed.

Lemma plus_zero_r a : plus a zero_cost = a.
Proof. by rewrite plus_comm, plus_zero_l. Qed.

#[export] Instance cost_le_po : PreOrder cost_le.
Proof.
  split.
  - intros a. unfold cost_le. induction (cost_vec a); constructor; [lia|done].
  - intros [] [] []. cost_unfold. intros. cost_split. repeat constructor; lia.
Qed.

#[export] Instance plus_mono : Proper (cost_le ==> cost_le ==> cost_le) plus.
Proof. intros [] [] ? [] [] ?. cost_unfold. cost_split. repeat constructor; lia. Qed.

Lemma nonneg_iff c : nonneg c = true ↔ cost_le zero_cost c.
Proof.
  destruct c. unfold nonneg. cost_unfold. rewrite !andb_true_iff, !Z.leb_le. split.
  - intros. repeat constructor; lia.
  - intros. cost_split. intuition.
Qed.

Lemma fieldwise_leb_iff a b : fieldwise_leb a b = true ↔ cost_le a b.
Proof.
  destruct a, b. unfold fieldwise_leb. cost_unfold. rewrite !andb_true_iff, !Z.leb_le. split.
  - intros. repeat constructor; lia.
  - intros. cost_split. intuition.
Qed.

Lemma cost_validate_ok c : cost_validate c = Ok tt ↔ cost_le zero_cost c.
Proof. unfold cost_validate. by rewrite refuse_if_ok, negb_false_iff, nonneg_iff. Qed.

Lemma within_true a b :
  within a b = Ok true ↔ cost_le zero_cost a ∧ cost_le zero_cost b ∧ cost_le a b.
Proof.
  unfold within. setoid_rewrite rbind_ok. setoid_rewrite rbind_ok. split.
  - intros ([] & H1 & [] & H2 & [= H3]). by rewrite <- !cost_validate_ok, <- fieldwise_leb_iff.
  - rewrite <- !cost_validate_ok, <- fieldwise_leb_iff. intros (H1 & H2 & H3).
    exists tt. split; [done|]. exists tt. split; [done|]. by rewrite H3.
Qed.

Lemma plus_nonneg a b : cost_le zero_cost a → cost_le zero_cost b → cost_le zero_cost (plus a b).
Proof. intros Ha Hb. rewrite <- (plus_zero_l zero_cost). by apply plus_mono. Qed.

Lemma plus_le_l a b : cost_le zero_cost b → cost_le a (plus a b).
Proof. intros Hb. rewrite <- (plus_zero_r a) at 1. by apply plus_mono. Qed.

Lemma cost_sum_acc a l : foldl plus a l = plus a (cost_sum l).
Proof.
  unfold cost_sum. revert a. induction l as [|x l IH]; intros a; simpl; [by rewrite plus_zero_r|].
  by rewrite (IH (plus a x)), (IH (plus zero_cost x)), plus_zero_l, plus_assoc.
Qed.

Lemma cost_sum_cons c l : cost_sum (c :: l) = plus c (cost_sum l).
Proof. unfold cost_sum at 1. simpl. by rewrite plus_zero_l, cost_sum_acc. Qed.

Lemma cost_sum_app l1 l2 : cost_sum (l1 ++ l2) = plus (cost_sum l1) (cost_sum l2).
Proof. unfold cost_sum at 1. by rewrite foldl_app, cost_sum_acc. Qed.

Lemma cost_sum_snoc l c : cost_sum (l ++ [c]) = plus (cost_sum l) c.
Proof. rewrite cost_sum_app, cost_sum_cons. by rewrite plus_zero_r. Qed.

Lemma cost_sum_mono l1 l2 : Forall2 cost_le l1 l2 → cost_le (cost_sum l1) (cost_sum l2).
Proof. induction 1; [done|]. rewrite !cost_sum_cons. by apply plus_mono. Qed.

Lemma cost_sum_nonneg l : Forall (cost_le zero_cost) l → cost_le zero_cost (cost_sum l).
Proof. induction 1; [done|]. rewrite cost_sum_cons. by apply plus_nonneg. Qed.

(** A prefix of nonnegative costs costs no more than the whole. *)
Lemma cost_sum_prefix l1 l2 :
  Forall (cost_le zero_cost) l2 → cost_le (cost_sum l1) (cost_sum (l1 ++ l2)).
Proof. intros H. rewrite cost_sum_app. by apply plus_le_l, cost_sum_nonneg. Qed.

Create HintDb cost discriminated.
#[export] Hint Resolve plus_nonneg plus_le_l cost_sum_nonneg cost_sum_mono cost_sum_prefix : cost.
#[export] Hint Rewrite plus_zero_l plus_zero_r cost_sum_cons cost_sum_app : cost.
