(* ===== verification/Packet.v ===== *)
(** The frozen campaign packet of probes/pmb1-finite-runner/runner.py and
    [validate_packet]: what a packet must satisfy before anything is latched. *)
From stdpp Require Import sorting.
From S2P Require Import Prelude Json Cost.

(** ** Data *)

Definition PROFILE : string := "pmb1-private-application-no-real-v1".
Definition OBJECT_PROFILE : string := "pmb1-private-object-kv-interface-v1".

Definition REQUIRED_STAGES : list string :=
  ["settle"; "close"; "closure_readback"; "baseline"; "challenge"; "challenge_readback";
   "temporary_install"; "preflight"; "admission_off"; "restore"; "restore_readback";
   "restored"; "cleanup"; "cleanup_readback"].

Definition CASE_OBLIGATIONS : list string :=
  ["happy_path"; "admitted_before_close"; "stale_callback_guarded_upsert_replace_cascade";
   "lost_close_ack"; "restart_stale_generation_malformed_control";
   "deadline_or_credential_expiry"; "restore_with_both_delayed_generations";
   "scheduled_session_audit_auth_failure_status"; "service_queue_hint_alarm_separate_store";
   "operator_schema_guard_bypass_bookkeeping"; "mutate_revert_broken_guard";
   "declared_interruption"].

Definition INTERRUPTIONS : list string :=
  ["timeout"; "partial_output"; "malformed"; "truncated"; "unsupported";
   "unknown_restore"; "unknown_cleanup"].

Definition MAX_INT64 : Z := 9223372036854775807.

Record Operation := mkOperation {
  op_name : string;
  op_stage : string;
  op_cost : Cost;
  op_channel : string;
  op_action : string;
  op_capture : option string;
  op_resource : option string;
}.

Record Case := mkCase {
  c_number : Z;
  c_operations : list Operation;
  c_interruption : option string;
}.

Record SourceContext := mkSourceContext {
  candidate : string;
  artifact : string;
  configuration : string;
  schema : string;
  guards : string;
  oracle : string;
  population : list string;
  generations : list string;
  table_count : Z;
  schema_objects : Z;
  program_pin : string;
}.

(** [starts], [deadline] and [baseline_freshness] are the integers the guard
    [type(v) in (int, float)] admits. *)
Record Packet := mkPacket {
  p_key : string;
  p_source_pin : string;
  p_profile : string;
  p_object_profile : string;
  p_cases : list Case;
  p_starts : Z;
  p_deadline : Z;
  p_baseline_freshness : Z;
  p_context : option SourceContext;
  p_selected_case : Z;
}.

Record Snapshot := mkSnapshot {
  s_canonical : string;
  s_source_pin : string;
  s_identity : string;
  s_complete : bool;
}.

Record Receipt := mkReceipt {
  r_status : string;
  r_actual_cost : Cost;
  r_evidence : string;
  r_snapshot : option Snapshot;
}.

#[export] Instance Operation_eq_dec : EqDecision Operation.
Proof. solve_decision. Defined.
#[export] Instance Case_eq_dec : EqDecision Case.
Proof. solve_decision. Defined.
#[export] Instance SourceContext_eq_dec : EqDecision SourceContext.
Proof. solve_decision. Defined.
#[export] Instance Packet_eq_dec : EqDecision Packet.
Proof. solve_decision. Defined.
#[export] Instance Snapshot_eq_dec : EqDecision Snapshot.
Proof. solve_decision. Defined.

(** *** [dataclasses.asdict] and [_json] *)

Definition operation_json (o : Operation) : json :=
  JObj [("name", JStr (op_name o)); ("stage", JStr (op_stage o)); ("cost", cost_json (op_cost o));
        ("channel", JStr (op_channel o)); ("action", JStr (op_action o));
        ("capture", JOpt JStr (op_capture o)); ("resource", JOpt JStr (op_resource o))].

Definition case_json (c : Case) : json :=
  JObj [("number", JInt (c_number c)); ("operations", JArr (map operation_json (c_operations c)));
        ("interruption", JOpt JStr (c_interruption c))].

Definition context_json (c : SourceContext) : json :=
  JObj [("candidate", JStr (candidate c)); ("artifact", JStr (artifact c));
        ("configuration", JStr (configuration c)); ("schema", JStr (schema c));
        ("guards", JStr (guards c)); ("oracle", JStr (oracle c));
        ("population", JArr (map JStr (population c)));
        ("generations", JArr (map JStr (generations c)));
        ("table_count", JInt (table_count c)); ("schema_objects", JInt (schema_objects c));
        ("program_pin", JStr (program_pin c))].

Definition packet_json (p : Packet) : json :=
  JObj [("key", JStr (p_key p)); ("source_pin", JStr (p_source_pin p));
        ("profile", JStr (p_profile p)); ("object_profile", JStr (p_object_profile p));
        ("cases", JArr (map case_json (p_cases p))); ("starts", JInt (p_starts p));
        ("deadline", JInt (p_deadline p)); ("baseline_freshness", JInt (p_baseline_freshness p));
        ("context", JOpt context_json (p_context p)); ("selected_case", JInt (p_selected_case p))].

(** ** Operations *)

(** [packet_digest], for the digest [sha256] of hashlib. *)
Definition packet_digest (sha256 : string → string) (p : Packet) : string :=
  sha256 (dumps (packet_json p)).

(** [tuple(dict.fromkeys(xs))]: first occurrences, in order. *)
Fixpoint fromkeys (seen : list string) (l : list string) : list string :=
  match l with
  | [] => []
  | x :: l' => if str_in x seen then fromkeys seen l' else x :: fromkeys (x :: seen) l'
  end.

(** [stages.index(x)] *)
Fixpoint index_of (x : string) (l : list string) : nat :=
  match l with
  | [] => 0
  | y :: l' => if bool_decide (x = y) then 0 else S (index_of x l')
  end.

Definition empty_str (s : string) : bool := bool_decide (s = EmptyString).

Definition packet_binding_bad (p : Packet) : bool :=
  empty_str (p_key p) || (128 <? slen (p_key p)) || negb (slen (p_source_pin p) =? 64)
  || negb (str_forall is_hex (p_source_pin p)) || negb (bool_decide (p_profile p = PROFILE))
  || negb (bool_decide (p_object_profile p = OBJECT_PROFILE)).

(** One element of [context.generations]. *)
Definition generation_bad (g : string) : bool :=
  negb (isascii g) || negb (isdecimal g) || startswith "0" g || (MAX_INT64 <? int_of_str g).

Definition population_bad (c : SourceContext) : bool :=
  existsb (λ d, negb (is_digest d))
    [candidate c; artifact c; configuration c; schema c; guards c; oracle c; program_pin c]
  || bool_decide (population c = []) || negb (bool_decide (NoDup (population c)))
  || negb (bool_decide (length (generations c) = length (population c)))
  || existsb generation_bad (generations c).

Definition allocation_bad (c : SourceContext) : bool :=
  negb ((1 <=? table_count c) && (table_count c <=? 8))
  || negb ((1 <=? schema_objects c) && (schema_objects c <=? 64)).

Definition window_bad (p : Packet) : bool :=
  negb ((0 <=? p_starts p) && (p_starts p <? p_deadline p))
  || (14400 <? p_deadline p - p_starts p)
  || negb ((0 <? p_baseline_freshness p) && (p_baseline_freshness p <=? 60)).

Definition terminal_stage (interruption : option string) : string :=
  match interruption with
  | Some i => if bool_decide (i = "unknown_restore") then "restore"
              else if bool_decide (i = "unknown_cleanup") then "cleanup" else "challenge"
  | None => "challenge"
  end.

(** The stage tuple a case must have. *)
Definition expected_stages (number : Z) (interruption : option string) : list string :=
  if number =? 12
  then take (index_of (terminal_stage interruption) REQUIRED_STAGES) REQUIRED_STAGES ++ ["interruption"]
  else REQUIRED_STAGES.

Definition case_stages (c : Case) : list string := fromkeys [] (map op_stage (c_operations c)).

(** [zip(ops, ops[1:])] has a pair whose stage goes back. *)
Fixpoint stage_reentry (stages : list string) (ops : list Operation) : bool :=
  match ops with
  | a :: ((b :: _) as rest) =>
      Nat.ltb (index_of (op_stage b) stages) (index_of (op_stage a) stages) || stage_reentry stages rest
  | _ => false
  end.

Definition obligation (number : Z) : string := nth (Z.to_nat (number - 1)) CASE_OBLIGATIONS EmptyString.

Definition meets_obligation (c : Case) (o : Operation) : bool :=
  bool_decide (op_stage o = "challenge") && bool_decide (op_action o = obligation (c_number c))
  && (challenges (op_cost o) =? 1).

Definition meets_interruption (c : Case) (o : Operation) : bool :=
  bool_decide (op_stage o = "interruption") && bool_decide (Some (op_action o) = c_interruption c)
  && (challenges (op_cost o) =? 1).

(** The checks of the [for case] loop body before its operation loop. *)
Definition check_case_shape (c : Case) : res unit :=
  refuse_if (bool_decide (c_operations c = [])
             || (bool_decide (is_Some (c_interruption c)) && negb (c_number c =? 12))) "case_operations" ;?
  refuse_if ((c_number c =? 12)
             && negb (match c_interruption c with Some i => str_in i INTERRUPTIONS | None => false end))
    "case12_reachable_interruption_required" ;?
  refuse_if (negb (bool_decide (case_stages c = expected_stages (c_number c) (c_interruption c))))
    "fixed_case_stage_order" ;?
  refuse_if (negb (c_number c =? 12) && negb (existsb (meets_obligation c) (c_operations c)))
    "exact_case_obligation_missing" ;?
  refuse_if ((c_number c =? 12) && negb (existsb (meets_interruption c) (c_operations c)))
    "exact_terminal_sequence_missing" ;?
  refuse_if (stage_reentry (case_stages c) (c_operations c)) "stage_reentry".

(** The loop variables: [names] and [resource_actions] span the cases; [run],
    [captures], [capture_queries] and [capture_wire] are reset for each case. *)
Record Tally := mkTally {
  t_names : list string;
  t_resources : list (string * string);
  t_run : Cost;
  t_captures : list string;
  t_queries : Z;
  t_wire : Z;
}.

Definition operation_bad (names : list string) (op : Operation) : bool :=
  let c := op_cost op in
  empty_str (op_name op) || str_in (op_name op) names || empty_str (op_action op)
  || empty_str (op_channel op) || (1 <? requests c) || (8 <? sql_statements c)
  || (65536 <? outbound_bytes c) || (262144 <? inbound_bytes c) || (1 <? captures c).

Definition is_capture_stage (s : string) : bool := str_in s ["baseline"; "preflight"; "restored"].

Definition reader_bad (op : Operation) : bool :=
  negb (reader_queries (op_cost op) =? 0)
  && (negb (is_capture_stage (op_stage op)) || (32768 <? outbound_bytes (op_cost op))).

Definition resource_action (op : Operation) : string :=
  if creates (op_cost op) =? 0 then "delete" else "create".

(** The [op.capture] branch: the captures, queries and wire bytes afterwards. *)
Definition check_capture (op : Operation) (caps : list string) (q w : Z) : res (list string * Z * Z) :=
  match op_capture op with
  | Some cap =>
      refuse_if (negb (bool_decide (cap = op_stage op)) || negb (captures (op_cost op) =? 1)
                 || negb (is_capture_stage cap) || negb ((1 <=? q) && (q <=? 32))
                 || (4 * 1024 ^ 2 <? w)) "capture_order_or_query_bound" ;?
      Ok (caps ++ [cap], 0, 0)
  | None => refuse_if (negb (captures (op_cost op) =? 0)) "undeclared_capture" ;? Ok (caps, q, w)
  end.

(** The create/delete latch. *)
Definition check_resource (op : Operation) (acts : list (string * string)) : res (list (string * string)) :=
  if (creates (op_cost op) =? 0) && (deletes (op_cost op) =? 0) then Ok acts
  else match op_resource op with
       | None => Err (Refusal "resource_latch")
       | Some r =>
           let pair := (r, resource_action op) in
           refuse_if (empty_str r || bool_decide (pair ∈ acts)) "resource_latch" ;? Ok (pair :: acts)
       end.

(** The body of [for op in case.operations]. *)
Definition check_operation (t : Tally) (op : Operation) : res Tally :=
  let c := op_cost op in
  cost_validate c ;?
  refuse_if (operation_bad (t_names t) op) "operation_bound_or_identity" ;?
  refuse_if (negb (categories c =? requests c)) "one_real_request_per_operation" ;?
  refuse_if (reader_bad op) "reader_request_bound" ;?
  let inside := is_capture_stage (op_stage op) in
  let q := if inside then t_queries t + reader_queries c else t_queries t in
  let w := if inside then t_wire t + inbound_bytes c else t_wire t in
  let? cqw := check_capture op (t_captures t) q w in
  let? acts := check_resource op (t_resources t) in
  Ok (mkTally (op_name op :: t_names t) acts (plus (t_run t) c) cqw.1.1 cqw.1.2 cqw.2).

Definition expected_captures (number : Z) : list string :=
  if number =? 12 then ["baseline"] else ["baseline"; "preflight"; "restored"].

(** [if not a.within(b): raise] *)
Definition require_within (a b : Cost) (label : string) : res unit :=
  let? ok := within a b in require ok label.

(** The state the [for case] loop threads: names, resource actions, campaign. *)
Record Sweep := mkSweep {
  w_names : list string;
  w_resources : list (string * string);
  w_campaign : Cost;
}.

Definition check_case (s : Sweep) (c : Case) : res Sweep :=
  check_case_shape c ;?
  let? t := foldR check_operation (mkTally (w_names s) (w_resources s) zero_cost [] 0 0) (c_operations c) in
  refuse_if (negb (bool_decide (t_captures t = expected_captures (c_number c))))
    "exact_captures_no_replacement" ;?
  require_within (t_run t) RUN_LIMIT "run_budget" ;?
  Ok (mkSweep (t_names t) (t_resources t) (plus (w_campaign s) (t_run t))).

Definition twelve : list Z := [1; 2; 3; 4; 5; 6; 7; 8; 9; 10; 11; 12].

Definition check_cases (p : Packet) : res unit :=
  refuse_if (negb (bool_decide (map c_number (p_cases p) = twelve))) "exact_twelve_case_inventory" ;?
  let? s := foldR check_case (mkSweep [] [] zero_cost) (p_cases p) in
  require_within (w_campaign s) CAMPAIGN_LIMIT "campaign_budget".

Definition validate_packet (p : Packet) : res unit :=
  refuse_if (packet_binding_bad p) "packet_binding" ;?
  match p_context p with
  | None => Err (Refusal "complete_source_population_context_required")
  | Some ctx =>
      refuse_if (negb ((1 <=? p_selected_case p) && (p_selected_case p <=? 12)))
        "source_rehearsal_case_selection" ;?
      refuse_if (population_bad ctx) "source_population_binding" ;?
      refuse_if (allocation_bad ctx) "selected_candidate_exceeds_accepted_miniature_allocation" ;?
      refuse_if (window_bad p) "packet_window" ;?
      refuse_if (1024 ^ 2 <? json_len (packet_json p)) "plan_byte_bound" ;?
      check_cases p
  end.

(** ** Specification vocabulary *)

(** The create/delete latches an operation takes, in the order of the code. *)
Definition latches_of (op : Operation) : list (string * string) :=
  if (creates (op_cost op) =? 0) && (deletes (op_cost op) =? 0) then []
  else match op_resource op with Some r => [(r, resource_action op)] | None => [] end.

Definition all_operations (p : Packet) : list Operation := concat (map c_operations (p_cases p)).
Definition case_cost (c : Case) : Cost := cost_sum (map op_cost (c_operations c)).

(** The operations of one stage, in program order. *)
Definition stage_block (ops : list Operation) (s : string) : list Operation :=
  filter (λ o, op_stage o = s) ops.

(** One declared operation is a single bounded request. *)
Definition op_bounded (op : Operation) : Prop :=
  cost_le zero_cost (op_cost op) ∧ categories (op_cost op) = requests (op_cost op)
  ∧ requests (op_cost op) <= 1 ∧ sql_statements (op_cost op) <= 8
  ∧ outbound_bytes (op_cost op) <= 65536 ∧ inbound_bytes (op_cost op) <= 262144
  ∧ (reader_queries (op_cost op) ≠ 0 → is_capture_stage (op_stage op) = true
                                       ∧ outbound_bytes (op_cost op) <= 32768)
  ∧ captures (op_cost op) = (if op_capture op then 1 else 0)
  ∧ (∀ cap, op_capture op = Some cap → cap = op_stage op).

(** ** Lemmas *)

Lemma require_within_ok a b l :
  require_within a b l = Ok tt → cost_le zero_cost a ∧ cost_le a b.
Proof.
  unfold require_within. rewrite rbind_ok. intros (ok & Hw & Hr). apply require_ok in Hr as ->.
  apply within_true in Hw. naive_solver.
Qed.

Lemma check_capture_ok op caps q w r :
  check_capture op caps q w = Ok r →
  r.1.1 = caps ++ option_list (op_capture op)
  ∧ captures (op_cost op) = (if op_capture op then 1 else 0)
  ∧ (∀ cap, op_capture op = Some cap → cap = op_stage op ∧ 1 <= q <= 32).
Proof.
  unfold check_capture. destruct (op_capture op) as [cap|]; intros H; inv_check; inv_bool; simpl.
  - split; [done|]. split; [done|]. intros c [= <-]. done.
  - rewrite app_nil_r. done.
Qed.

Lemma check_resource_ok op acts r :
  check_resource op acts = Ok r → r = rev (latches_of op) ++ acts ∧ (NoDup acts → NoDup r).
Proof.
  unfold check_resource, latches_of. destruct (_ && _); intros H; inv_check; [done|].
  destruct (op_resource op) as [x|]; inv_check; inv_bool. simpl.
  split; [done|]. intros. by constructor.
Qed.

Lemma check_operation_ok t op t' :
  check_operation t op = Ok t' →
  op_bounded op ∧ op_name op ∉ t_names t ∧ t_names t' = op_name op :: t_names t
  ∧ t_run t' = plus (t_run t) (op_cost op)
  ∧ t_captures t' = t_captures t ++ option_list (op_capture op)
  ∧ t_resources t' = rev (latches_of op) ++ t_resources t
  ∧ (NoDup (t_resources t) → NoDup (t_resources t')).
Proof.
  unfold check_operation. intros H. inv_check.
  apply cost_validate_ok in Ha. apply check_capture_ok in Ha3 as (Hc1 & Hc2 & Hc3).
  apply check_resource_ok in Ha4 as [Hr1 Hr2].
  unfold operation_bad, reader_bad, str_in in *. inv_bool. simpl.
  split_and!; try done. unfold op_bounded. split_and!; try done; try lia.
  - intros Hq. apply andb_false_iff in Ha2 as [Ha2|Ha2]; inv_bool; [lia|]. done.
  - intros cap Hcap. by apply Hc3 in Hcap as [-> _].
Qed.

(** What the operation loop has established after the operations [pre]. *)
Definition tally_inv (t0 : Tally) (pre : list Operation) (t : Tally) : Prop :=
  Forall op_bounded pre ∧ t_names t = rev (map op_name pre) ++ t_names t0
  ∧ (NoDup (t_names t0) → NoDup (t_names t))
  ∧ t_run t = plus (t_run t0) (cost_sum (map op_cost pre))
  ∧ t_captures t = t_captures t0 ++ omap op_capture pre
  ∧ t_resources t = rev (concat (map latches_of pre)) ++ t_resources t0
  ∧ (NoDup (t_resources t0) → NoDup (t_resources t)).

Lemma tally_loop t0 ops t :
  foldR check_operation t0 ops = Ok t → tally_inv t0 ops t.
Proof.
  intros H. change ops with ([] ++ ops). revert H. apply (foldR_ind _ (tally_inv t0)).
  - unfold tally_inv. simpl. rewrite app_nil_r, plus_zero_r. split_and!; done || constructor.
  - intros pre op b b' (I1 & I2 & I3 & I4 & I5 & I6 & I7) _ Hop.
    apply check_operation_ok in Hop as (O1 & O2 & O3 & O4 & O5 & O6 & O7).
    unfold tally_inv. split_and!.
    + apply Forall_app. by split; [|constructor].
    + by rewrite O3, I2, map_app, rev_app_distr.
    + intros Hn. rewrite O3. constructor; auto.
    + rewrite O4, I4, map_app. simpl. by rewrite cost_sum_snoc, plus_assoc.
    + rewrite O5, I5, omap_app, app_assoc. simpl. by destruct (op_capture op).
    + rewrite O6, I6, map_app, concat_app, rev_app_distr, app_assoc. simpl. by rewrite app_nil_r.
    + auto.
Qed.

Lemma check_case_ok s c s' :
  check_case s c = Ok s' →
  check_case_shape c = Ok tt ∧ Forall op_bounded (c_operations c)
  ∧ omap op_capture (c_operations c) = expected_captures (c_number c)
  ∧ cost_le (case_cost c) RUN_LIMIT
  ∧ w_names s' = rev (map op_name (c_operations c)) ++ w_names s
  ∧ (NoDup (w_names s) → NoDup (w_names s'))
  ∧ w_campaign s' = plus (w_campaign s) (case_cost c)
  ∧ w_resources s' = rev (concat (map latches_of (c_operations c))) ++ w_resources s
  ∧ (NoDup (w_resources s) → NoDup (w_resources s')).
Proof.
  unfold check_case. intros H. inv_check. inv_bool.
  apply tally_loop in Ha0 as (I1 & I2 & I3 & I4 & I5 & I6 & I7). simpl in *.
  rewrite plus_zero_l in I4. apply require_within_ok in Ha2 as [_ Hw]. subst.
  unfold case_cost. split_and!; try done; congruence.
Qed.

Definition sweep_inv (pre : list Case) (s : Sweep) : Prop :=
  Forall (λ c, check_case_shape c = Ok tt ∧ Forall op_bounded (c_operations c)
               ∧ omap op_capture (c_operations c) = expected_captures (c_number c)
               ∧ cost_le (case_cost c) RUN_LIMIT) pre
  ∧ w_names s = rev (map op_name (concat (map c_operations pre))) ∧ NoDup (w_names s)
  ∧ w_campaign s = cost_sum (map case_cost pre)
  ∧ w_resources s = rev (concat (map latches_of (concat (map c_operations pre))))
  ∧ NoDup (w_resources s).

Lemma sweep_loop cases s :
  foldR check_case (mkSweep [] [] zero_cost) cases = Ok s → sweep_inv cases s.
Proof.
  intros H. change cases with ([] ++ cases). revert H. apply (foldR_ind _ sweep_inv).
  - unfold sweep_inv. simpl. split_and!; done || constructor.
  - intros pre c b b' (I1 & I2 & I3 & I4 & I5 & I6) _ Hc.
    apply check_case_ok in Hc as (C1 & C2 & C3 & C4 & C5 & C6 & C7 & C8 & C9).
    unfold sweep_inv. rewrite !map_app, !concat_app, !map_app. simpl. rewrite app_nil_r.
    split_and!; auto.
    + apply Forall_app. split; [done|]. by constructor; [|constructor].
    + by rewrite C5, I2, rev_app_distr.
    + by rewrite C7, I4, cost_sum_snoc.
    + by rewrite C8, I5, concat_app, rev_app_distr.
Qed.

(** A validated packet passed the sweep over its twelve cases. *)
Lemma validate_sweep p :
  validate_packet p = Ok tt →
  map c_number (p_cases p) = twelve
  ∧ ∃ s, sweep_inv (p_cases p) s ∧ cost_le (w_campaign s) CAMPAIGN_LIMIT.
Proof.
  unfold validate_packet. intros H. inv_check. destruct (p_context p); inv_check.
  lazymatch goal with H : check_cases _ = _ |- _ => unfold check_cases in H end.
  inv_check. inv_bool. split; [done|].
  lazymatch goal with H : foldR _ _ _ = Ok ?s |- _ => exists s; split; [by apply sweep_loop|] end.
  lazymatch goal with H : require_within _ _ _ = _ |- _ => by apply require_within_ok in H as [_ ?] end.
Qed.

(** *** Stage blocks *)

Lemma index_of_lt x l : x ∈ l → (index_of x l < length l)%nat.
Proof.
  induction l as [|y l IH]; simpl; [by rewrite elem_of_nil|]. rewrite elem_of_cons.
  intros [->|H]; [rewrite bool_decide_eq_true_2 by done; lia|].
  case_bool_decide; [lia|]. apply IH in H. lia.
Qed.

Lemma index_of_lookup x l : x ∈ l → l !! index_of x l = Some x.
Proof.
  induction l as [|y l IH]; simpl; [by rewrite elem_of_nil|]. rewrite elem_of_cons.
  intros H. case_bool_decide; subst; simpl; [done|]. apply IH. naive_solver.
Qed.

Lemma index_of_nth l i x : NoDup l → l !! i = Some x → index_of x l = i.
Proof.
  intros Hn Hi. assert (x ∈ l) as Hx by (apply list_elem_of_lookup; eauto).
  eapply NoDup_lookup; [done|by apply index_of_lookup|done].
Qed.

Lemma fromkeys_spec seen l :
  NoDup (fromkeys seen l) ∧ ∀ x, x ∈ fromkeys seen l ↔ x ∈ l ∧ x ∉ seen.
Proof.
  revert seen. induction l as [|y l IH]; intros seen; simpl.
  - split; [constructor|]. set_solver.
  - unfold str_in. case_bool_decide as Hy.
    + destruct (IH seen) as [H1 H2]. split; [done|]. intros x. rewrite H2. set_solver.
    + destruct (IH (y :: seen)) as [H1 H2]. split.
      * constructor; [|done]. rewrite H2. set_solver.
      * intros x. rewrite elem_of_cons, H2. destruct (decide (x = y)); set_solver.
Qed.

(** A list sorted by a key is its blocks of equal key, in key order. *)
Lemma sorted_blocks {A} (k : A → nat) (l : list A) n :
  StronglySorted (λ a b, k a ≤ k b)%nat l → Forall (λ a, k a < n)%nat l →
  l = concat (map (λ i, filter (λ a, k a = i) l) (seq 0 n)).
Proof.
  revert l. induction n as [|n IH]; intros l Hs Hb.
  - destruct l; [done|]. inversion Hb; lia.
  - rewrite seq_S, map_app, concat_app. simpl. rewrite app_nil_r.
    assert (l = filter (λ a, k a < n)%nat l ++ filter (λ a, k a = n) l) as Hsplit.
    { clear IH. induction l as [|a l IHl]; [done|].
      inversion Hs as [|?? Hs' Ha]; inversion Hb as [|?? Hka Hb']; subst.
      rewrite !filter_cons. destruct (decide (k a < n)%nat) as [Hlt|Hge].
      - rewrite decide_False by lia. simpl. f_equal. by apply IHl.
      - rewrite decide_True by lia.
        assert (filter (λ a, k a < n)%nat l = []) as Hnil.
        { apply filter_none. intros b Hb0. eapply Forall_forall in Ha; [|done]. lia. }
        rewrite Hnil in *. simpl. f_equal. by apply IHl. }
    rewrite Hsplit at 1. f_equal.
    rewrite (IH (filter (λ a, k a < n)%nat l)).
    + f_equal. apply map_ext_in. intros i Hi. apply in_seq in Hi.
      rewrite list_filter_filter. apply list_filter_iff. intros a. simpl. lia.
    + clear -Hs. induction Hs as [|a l Hs IH Ha]; [constructor|].
      rewrite filter_cons. case_decide; [|done]. constructor; [done|]. by apply Forall_filter_sub.
    + apply Forall_forall. intros a Ha. by apply list_elem_of_filter in Ha as [? _].
Qed.

Lemma stage_reentry_sorted stages ops :
  stage_reentry stages ops = false →
  StronglySorted (λ a b, index_of (op_stage a) stages ≤ index_of (op_stage b) stages)%nat ops.
Proof.
  intros H. apply Sorted.Sorted_StronglySorted; [intros ?; lia|].
  induction ops as [|a [|b ops] IH]; [constructor|constructor; constructor|].
  simpl in H. apply orb_false_iff in H as [Hab Hr]. apply Nat.ltb_ge in Hab.
  constructor; [by apply IH|by constructor].
Qed.

(** The operations of a case are its stage blocks, one after the other. *)
Lemma stage_blocks ops :
  stage_reentry (fromkeys [] (map op_stage ops)) ops = false →
  ops = concat (map (stage_block ops) (fromkeys [] (map op_stage ops))).
Proof.
  set (stages := fromkeys [] (map op_stage ops)). intros Hr.
  destruct (fromkeys_spec [] (map op_stage ops)) as [Hnd Hin]. fold stages in Hnd, Hin.
  assert (∀ a, a ∈ ops → op_stage a ∈ stages) as Hall.
  { intros a Ha. apply Hin. split; [|set_solver]. apply list_elem_of_fmap. eauto. }
  rewrite (sorted_blocks (λ a, index_of (op_stage a) stages) ops (length stages)) at 1.
  - f_equal. apply list_eq_Forall2. apply Forall2_same_length_lookup. split.
    { by rewrite !length_map, length_seq. }
    intros i b1 b2. rewrite !list_lookup_fmap. destruct (stages !! i) as [s|] eqn:Es; [|done].
    rewrite lookup_seq_lt by (by eapply lookup_lt_Some). simpl. intros [= <-] [= <-].
    unfold stage_block. apply filter_ext_in. intros a Ha. split.
    + intros <-. apply Hall, index_of_lookup in Ha. congruence.
    + intros <-. by apply index_of_nth.
  - by apply stage_reentry_sorted.
  - apply Forall_forall. intros a Ha. by apply index_of_lt, Hall.
Qed.

Lemma check_case_shape_stages c :
  check_case_shape c = Ok tt →
  c_operations c = concat (map (stage_block (c_operations c))
                             (expected_stages (c_number c) (c_interruption c))).
Proof.
  unfold check_case_shape. intros H. inv_check. inv_bool.
  lazymatch goal with H : case_stages _ = _ |- _ => rewrite <- H end.
  by apply stage_blocks.
Qed.

Lemma sweep_cost cases :
  cost_sum (map op_cost (concat (map c_operations cases))) = cost_sum (map case_cost cases).
Proof.
  induction cases as [|c cases IH]; [done|]. simpl.
  by rewrite map_app, cost_sum_app, cost_sum_cons, IH.
Qed.

(** ** Properties *)

(** a validated packet keeps every budget: each operation is at most one
    request of exactly one category within the per-call bounds, the declared cost
    of every case is within [RUN_LIMIT] in all fifteen counters, and the cost of
    all twelve cases together is within [CAMPAIGN_LIMIT]. *)
Theorem validate_packet_budget p :
  validate_packet p = Ok tt →
  Forall op_bounded (all_operations p)
  ∧ Forall (λ c, cost_le (case_cost c) RUN_LIMIT) (p_cases p)
  ∧ cost_le (cost_sum (map op_cost (all_operations p))) CAMPAIGN_LIMIT.
Proof.
  intros H. apply validate_sweep in H as (_ & s & (I1 & _ & _ & I4 & _) & Hc).
  unfold all_operations. rewrite sweep_cost, <- I4. split_and!; [| |done].
  - rewrite Forall_concat, Forall_map. eapply Forall_impl; [exact I1|]. naive_solver.
  - eapply Forall_impl; [exact I1|]. naive_solver.
Qed.

(** in a validated packet no operation name is used twice across the twelve
    cases, and no resource is created twice or deleted twice. *)
Theorem validate_packet_identities p :
  validate_packet p = Ok tt →
  NoDup (map op_name (all_operations p))
  ∧ NoDup (concat (map latches_of (all_operations p))).
Proof.
  intros H. apply validate_sweep in H as (_ & s & (_ & I2 & I3 & _ & I5 & I6) & _).
  rewrite I2 in I3. rewrite I5 in I6. unfold all_operations.
  split; by apply NoDup_rev_inv.
Qed.

(** a validated packet holds cases 1 to 12 in order; the operations of each
    are exactly its stage blocks in the fixed stage order (no stage is skipped or
    re-entered), and its captures are exactly the fixed ones, in order. *)
Theorem validate_packet_program p :
  validate_packet p = Ok tt →
  map c_number (p_cases p) = twelve
  ∧ Forall (λ c, c_operations c = concat (map (stage_block (c_operations c))
                                    (expected_stages (c_number c) (c_interruption c)))
                 ∧ omap op_capture (c_operations c) = expected_captures (c_number c)) (p_cases p).
Proof.
  intros H. apply validate_sweep in H as (Hn & s & (I1 & _) & _). split; [done|].
  eapply Forall_impl; [exact I1|]. intros c (Hs & _ & Hc & _). split; [|done].
  by apply check_case_shape_stages.
Qed.
