(* ===== verification/RunnerJournal.v ===== *)
(** The durable campaign latch of probes/pmb1-finite-runner/runner.py: the
    [Journal] port the runner is written against, the promise it relies on, and
    [SQLiteJournal], the concrete file-backed journal. *)
From S2P Require Import Prelude Json Cost Packet.

(** ** The port *)

(** [class Journal(Protocol)], over a world [W]. *)
Class JournalPort (W : Type) := {
  j_latch : Packet → string → M W unit;
  j_reserve : Z → Operation → M W unit;
  j_finish : Z → Operation → Receipt → M W unit;
  j_terminal : string → string → M W unit;
}.

(** What the protocol's docstring promises of the latch: a reservation survives
    every later call, failed or not, and can never be acquired again. *)
Class LatchLaws (W : Type) `{JournalPort W} := {
  reserved : W → Prop;
  latch_reserves p d w w' : j_latch p d w = (Ok tt, w') → reserved w';
  latch_refuses p d w : reserved w → (j_latch p d w).1 ≠ Ok tt;
  latch_keeps p d w : reserved w → reserved (j_latch p d w).2;
  reserve_keeps n o w : reserved w → reserved (j_reserve n o w).2;
  finish_keeps n o r w : reserved w → reserved (j_finish n o r w).2;
  terminal_keeps s r w : reserved w → reserved (j_terminal s r w).2;
}.

(** ** [SQLiteJournal] *)

Module SQLiteJournal.

(** The [campaign] row; its [singleton=1] key makes the table an option. *)
Record CampaignRow := mkCampaignRow {
  cg_packet : string;
  cg_digest : string;
  cg_status : string;
  cg_reason : string;
}.

(** A row of [operations]; [name] is the primary key. *)
Record OpRow := mkOpRow {
  o_name : string;
  o_case : Z;
  o_operation : string;
  o_status : string;
  o_actual : option string;
  o_evidence_digest : option string;
  o_evidence : option string;
  o_snapshot : option string;
}.

Record Db := mkDb { campaign : option CampaignRow; operations : list OpRow }.

#[export] Instance CampaignRow_eq_dec : EqDecision CampaignRow.
Proof. solve_decision. Defined.
#[export] Instance OpRow_eq_dec : EqDecision OpRow.
Proof. solve_decision. Defined.

(** [__init__] on a fresh path: both tables empty. *)
Definition fresh : Db := mkDb None [].

(** The SQLite connection under a call: it works, raises before anything is
    durable (locked, full disk), or loses the acknowledgment of its commit. *)
Inductive io := Healthy | FailBefore | LostAck.

(** The journal's file and the fate of its successive connections. *)
Record State := mkState { db : Db; calls : nat }.

Section Ops.
Context (sha256 : string → string) (fate : nat → io).

(** [_db()]: one IMMEDIATE transaction, committed on a normal exit and rolled
    back on an exception. *)
Definition with_db {A} (m : M Db A) : M State A := λ s,
  let n := S (calls s) in
  match fate (calls s) with
  | FailBefore => (Err (External "OperationalError"), mkState (db s) n)
  | Healthy =>
      match m (db s) with
      | (Ok a, d) => (Ok a, mkState d n)
      | (Err e, _) => (Err e, mkState (db s) n)
      end
  | LostAck =>
      match m (db s) with
      | (Ok a, d) => (Err (External "OperationalError"), mkState d n)
      | (Err e, _) => (Err e, mkState (db s) n)
      end
  end.

Definition latch_tx (p : Packet) (digest : string) : M Db unit := λ d,
    match campaign d with
    | Some _ => (Err (ReservedAlready "campaign_already_reserved_no_replay"), d)
    | None => (Ok tt, mkDb (Some (mkCampaignRow (dumps (packet_json p)) digest "running" ""))
                           (operations d))
    end.
Definition latch (p : Packet) (digest : string) : M State unit := with_db (latch_tx p digest).

Definition reserve_tx (case : Z) (op : Operation) : M Db unit := λ d,
    let state := cg_status <$> campaign d in
    let unknown := existsb (λ r, bool_decide (o_status r = "dispatching")) (operations d) in
    if negb (bool_decide (state = Some "running")) || unknown
    then (Err (Refusal "journal_terminal_or_unknown"), d)
    else if existsb (λ r, bool_decide (o_name r = op_name op)) (operations d)
    then (Err (External "IntegrityError"), d)
    else (Ok tt, mkDb (campaign d)
           (operations d ++ [mkOpRow (op_name op) case (dumps (operation_json op)) "dispatching"
                               None None None None])).
Definition reserve (case : Z) (op : Operation) : M State unit := with_db (reserve_tx case op).

(** The [WHERE] clause of [finish]. *)
Definition finish_matches (case : Z) (op : Operation) (r : OpRow) : bool :=
  bool_decide (o_name r = op_name op) && bool_decide (o_case r = case)
  && bool_decide (o_operation r = dumps (operation_json op))
  && bool_decide (o_status r = "dispatching").

Definition settled (receipt : Receipt) (r : OpRow) : OpRow :=
  mkOpRow (o_name r) (o_case r) (o_operation r) (r_status receipt)
    (Some (dumps (cost_json (r_actual_cost receipt)))) (Some (sha256 (r_evidence receipt)))
    (Some (r_evidence receipt)) (s_canonical <$> r_snapshot receipt).

Definition finish_tx (case : Z) (op : Operation) (receipt : Receipt) : M Db unit := λ d,
    let updated := length (filter (λ r, finish_matches case op r = true) (operations d)) in
    if negb (bool_decide (updated = 1%nat)) then (Err (Refusal "journal_finish_not_exact"), d)
    else (Ok tt, mkDb (campaign d)
           (map (λ r, if finish_matches case op r then settled receipt r else r) (operations d))).
Definition finish (case : Z) (op : Operation) (receipt : Receipt) : M State unit :=
  with_db (finish_tx case op receipt).

(** The [WHERE] clause of [terminal]. *)
Definition terminal_from (status old : string) : bool :=
  if bool_decide (status = "unknown")
  then str_in old ["running"; "mechanism_complete"; "closed_refusal"]
  else bool_decide (old = "running").

Definition terminal_tx (status reason : string) : M Db unit := λ d,
    match campaign d with
    | Some c =>
        if terminal_from status (cg_status c)
        then (Ok tt, mkDb (Some (mkCampaignRow (cg_packet c) (cg_digest c) status reason)) (operations d))
        else (Err (Refusal "journal_terminal_not_exact"), d)
    | None => (Err (Refusal "journal_terminal_not_exact"), d)
    end.
Definition terminal (status reason : string) : M State unit := with_db (terminal_tx status reason).

(** One call of the journal by anybody: any process, any case, any receipt. *)
Inductive call :=
| CLatch (p : Packet) (digest : string)
| CReserve (case : Z) (op : Operation)
| CFinish (case : Z) (op : Operation) (receipt : Receipt)
| CTerminal (status reason : string).

Definition call_tx (c : call) : M Db unit :=
  match c with
  | CLatch p d => latch_tx p d
  | CReserve n o => reserve_tx n o
  | CFinish n o r => finish_tx n o r
  | CTerminal s r => terminal_tx s r
  end.
Definition run_call (c : call) : M State unit := with_db (call_tx c).

(** The state after a history of calls, and the calls that answered [Ok]. *)
Fixpoint after (l : list call) (s : State) : State :=
  match l with [] => s | c :: l' => after l' (run_call c s).2 end.

Fixpoint acknowledged (l : list call) (s : State) : list call :=
  match l with
  | [] => []
  | c :: l' =>
      match run_call c s with
      | (Ok _, s') => c :: acknowledged l' s'
      | (Err _, s') => acknowledged l' s'
      end
  end.

End Ops.

(** ** Invariants *)

Definition is_dispatching (r : OpRow) : Prop := o_status r = "dispatching".
#[export] Instance is_dispatching_dec r : Decision (is_dispatching r).
Proof. unfold is_dispatching. apply _. Defined.

(** Keys are unique and at most one dispatch is outstanding. *)
Record wf (d : Db) : Prop := {
  wf_names : NoDup (map o_name (operations d));
  wf_outstanding : (length (filter is_dispatching (operations d)) ≤ 1)%nat;
}.

Definition status_of (d : Db) : option string := cg_status <$> campaign d.

(** The names a history's acknowledged reservations took. *)
Definition reserved_name (c : call) : option string :=
  match c with CReserve _ o => Some (op_name o) | _ => None end.
Definition is_latch (c : call) : bool := match c with CLatch _ _ => true | _ => false end.
(** The statuses [Runner.run] passes to [terminal]. *)
Definition terminal_ok (c : call) : Prop :=
  match c with
  | CTerminal st _ => st ∈ ["mechanism_complete"; "closed_refusal"; "unknown"]
  | _ => True
  end.

(** ** Lemmas *)

Section Facts.
Context (sha256 : string → string) (fate : nat → io).

Lemma with_db_cases {A} (m : M Db A) s r s' :
  with_db fate m s = (r, s') →
  (db s' = db s ∧ ∀ a, r ≠ Ok a) ∨
  (∃ a, m (db s) = (Ok a, db s') ∧ (r = Ok a ∨ r = Err (External "OperationalError"))).
Proof.
  unfold with_db. destruct (fate (calls s)), (m (db s)) as [[a|e] d]; intros [= <- <-]; simpl;
    first [left; split; [done|intros ?; done]|right; eauto].
Qed.

Lemma with_db_ok {A} (m : M Db A) s a s' :
  with_db fate m s = (Ok a, s') → m (db s) = (Ok a, db s').
Proof. intros H. apply with_db_cases in H as [[_ H]|(b & Hm & [Hr|Hr])]; naive_solver. Qed.

Lemma latch_tx_ok p g d d' :
  latch_tx p g d = (Ok tt, d') →
  campaign d = None ∧ operations d' = operations d ∧ status_of d' = Some "running".
Proof. unfold latch_tx. destruct (campaign d) eqn:E; [done|]. by intros [= <-]. Qed.

Lemma reserve_tx_ok n o d d' :
  reserve_tx n o d = (Ok tt, d') →
  status_of d = Some "running" ∧ filter is_dispatching (operations d) = []
  ∧ op_name o ∉ map o_name (operations d) ∧ campaign d' = campaign d
  ∧ operations d' = operations d ++
      [mkOpRow (op_name o) n (dumps (operation_json o)) "dispatching" None None None None].
Proof.
  unfold reserve_tx, status_of. simpl. intros H.
  destruct (negb _ || _) eqn:E1 in H; [done|]. destruct (existsb _ _) eqn:E2 in H; [done|].
  injection H as <-. inv_bool. rewrite existsb_decide_false in *. simpl.
  split_and!; try done.
  - apply filter_none. auto.
  - intros (r & Hn & Hr)%list_elem_of_fmap. by apply (E2 r).
Qed.

Lemma finish_tx_ok n o r d d' :
  finish_tx sha256 n o r d = (Ok tt, d') →
  campaign d' = campaign d
  ∧ operations d' = map (λ x, if finish_matches n o x then settled sha256 r x else x) (operations d).
Proof. unfold finish_tx. destruct (negb _); [done|]. by intros [= <-]. Qed.

Lemma terminal_tx_ok st rs d d' :
  terminal_tx st rs d = (Ok tt, d') →
  operations d' = operations d ∧ status_of d' = Some st
  ∧ ∃ old, status_of d = Some old ∧ terminal_from st old = true.
Proof.
  unfold terminal_tx, status_of. destruct (campaign d) as [c|]; [|done].
  destruct (terminal_from st (cg_status c)) eqn:E; [|done]. intros [= <-]. simpl. eauto.
Qed.

(** Every transaction keeps the invariant. *)
Lemma call_tx_wf c d d' : wf d → call_tx sha256 c d = (Ok tt, d') → wf d'.
Proof.
  intros [Hn Ho] H. destruct c; simpl in H.
  - apply latch_tx_ok in H as (_ & Hop & _). split; by rewrite Hop.
  - apply reserve_tx_ok in H as (_ & Hf & Hin & _ & Hop). split; rewrite Hop.
    + rewrite map_app. apply NoDup_app. split_and!; [done| |by apply NoDup_singleton].
      intros x Hx. simpl. by intros ->%list_elem_of_singleton.
    + rewrite filter_app, Hf. apply (length_filter is_dispatching [_]).
  - apply finish_tx_ok in H as [_ Hop]. split; rewrite Hop.
    + by rewrite map_map, (map_ext _ o_name) by (intros x; by case_match).
    + etrans; [|exact Ho]. clear. induction (operations d) as [|x l IH]; [done|]. simpl.
      rewrite !filter_cons. destruct (finish_matches case op x) eqn:E.
      * unfold finish_matches in E. inv_bool. rewrite (decide_True (P := is_dispatching x)) by done.
        case_decide; simpl; lia.
      * case_decide; simpl; lia.
  - apply terminal_tx_ok in H as (Hop & _). split; by rewrite Hop.
Qed.

Lemma run_call_wf c s r s' : wf (db s) → run_call sha256 fate c s = (r, s') → wf (db s').
Proof.
  intros Hw H. apply with_db_cases in H as [[-> _]|([] & Hm & _)]; [done|]. by eapply call_tx_wf.
Qed.

(** Rows are never removed and names never change. *)
Lemma call_tx_names c d d' :
  call_tx sha256 c d = (Ok tt, d') →
  map o_name (operations d') = map o_name (operations d) ++ option_list (reserved_name c).
Proof.
  intros H. destruct c; simpl in H |- *.
  - apply latch_tx_ok in H as (_ & -> & _). by rewrite app_nil_r.
  - apply reserve_tx_ok in H as (_ & _ & _ & _ & ->). by rewrite map_app.
  - apply finish_tx_ok in H as [_ ->]. rewrite app_nil_r, map_map. apply map_ext.
    intros x. by case_match.
  - apply terminal_tx_ok in H as (-> & _). by rewrite app_nil_r.
Qed.

(** A call that leaves the tables unchanged was not acknowledged. *)
Lemma run_call_cases c s r s' :
  run_call sha256 fate c s = (r, s') →
  (db s' = db s ∧ r ≠ Ok tt) ∨ call_tx sha256 c (db s) = (Ok tt, db s').
Proof.
  intros H. apply with_db_cases in H as [[? H]|([] & Hm & _)]; [left|by right].
  split; [done|]. apply H.
Qed.

Lemma status_step c s r s' :
  run_call sha256 fate c s = (r, s') →
  status_of (db s') = status_of (db s)
  ∨ (is_latch c = true ∧ status_of (db s) = None)
  ∨ (∃ st rs old, c = CTerminal st rs ∧ status_of (db s) = Some old
       ∧ terminal_from st old = true ∧ status_of (db s') = Some st).
Proof.
  intros H. apply run_call_cases in H as [[-> _]|Hm]; [by left|]. destruct c; simpl in Hm.
  - apply latch_tx_ok in Hm as (Hc & _ & _). right. left. unfold status_of. by rewrite Hc.
  - apply reserve_tx_ok in Hm as (_ & _ & _ & Hc & _). left. unfold status_of. by rewrite Hc.
  - apply finish_tx_ok in Hm as [Hc _]. left. unfold status_of. by rewrite Hc.
  - apply terminal_tx_ok in Hm as (_ & Hst & old & Hold & Ht). right. right. eauto 10.
Qed.

(** The campaign row is never deleted. *)
Lemma campaign_kept c s : is_Some (status_of (db s)) → is_Some (status_of (db (run_call sha256 fate c s).2)).
Proof.
  intros Hs. destruct (run_call sha256 fate c s) as [r s'] eqn:E. simpl.
  apply status_step in E as [->|[[_ Hn]|(st & rs & old & _ & _ & _ & ->)]]; [done| |done].
  rewrite Hn in Hs. by destruct Hs.
Qed.

Lemma latch_when_reserved p g s :
  is_Some (status_of (db s)) → (latch fate p g s).1 ≠ Ok tt.
Proof.
  intros Hs H. destruct (latch fate p g s) as [r s'] eqn:E. simpl in H. subst.
  apply with_db_ok, latch_tx_ok in E as (Hc & _). unfold status_of in Hs. rewrite Hc in Hs.
  by destruct Hs.
Qed.

(** A campaign that stopped running never runs again. *)
Definition stopped (d : Db) : Prop := ∃ st, status_of d = Some st ∧ st ≠ "running".

Lemma stopped_kept c s : terminal_ok c → stopped (db s) → stopped (db (run_call sha256 fate c s).2).
Proof.
  intros Hok (st & Hs & Hne). destruct (run_call sha256 fate c s) as [r s'] eqn:E. simpl.
  apply status_step in E as [Hst|[[_ Hn]|(st' & rs & old & -> & Hold & Ht & Hst)]].
  - exists st. by rewrite Hst.
  - by rewrite Hn in Hs.
  - exists st'. split; [done|]. intros ->. by vm_compute in Hok; set_solver.
Qed.
End Facts.

(** ** Properties *)

Section Properties.
Context (sha256 : string → string) (fate : nat → io).

(** The SQLite journal keeps the protocol's latch promise, whatever the fate of
    its connections. *)
#[export] Instance sqlite_port : JournalPort State := {|
  j_latch := latch fate; j_reserve := reserve fate;
  j_finish := finish sha256 fate; j_terminal := terminal fate |}.

#[export, program] Instance sqlite_latch_laws : LatchLaws State := {|
  reserved s := is_Some (status_of (db s)) |}.
Next Obligation.
  intros p d w w' H. simpl in H. apply with_db_ok, latch_tx_ok in H as (_ & _ & H). by rewrite H.
Qed.
Next Obligation. intros p d w. apply latch_when_reserved. Qed.
Next Obligation. intros p d w. apply (campaign_kept sha256 fate (CLatch p d)). Qed.
Next Obligation. intros n o w. apply (campaign_kept sha256 fate (CReserve n o)). Qed.
Next Obligation. intros n o r w. apply (campaign_kept sha256 fate (CFinish n o r)). Qed.
Next Obligation. intros s r w. apply (campaign_kept sha256 fate (CTerminal s r)). Qed.

Lemma acknowledged_latches l s :
  (length (filter is_latch (acknowledged sha256 fate l s)) ≤ if status_of (db s) then 0 else 1)%nat.
Proof.
  revert s. induction l as [|c l IH]; intros s; simpl; [lia|].
  destruct (run_call sha256 fate c s) as [[[]|e] s'] eqn:E; specialize (IH s').
  - rewrite filter_cons. destruct (is_latch c) eqn:Hl.
    + destruct c; try done. apply with_db_ok, latch_tx_ok in E as (Hc & _ & Hst).
      rewrite Hst in IH. unfold status_of at 1. rewrite Hc. simpl. lia.
    + simpl. pose proof (campaign_kept sha256 fate c s) as Hk. rewrite E in Hk. simpl in Hk.
      destruct (status_of (db s)), (status_of (db s')); try lia.
      by destruct Hk as [? ?]; [eauto|].
  - pose proof (campaign_kept sha256 fate c s) as Hk. rewrite E in Hk. simpl in Hk.
    destruct (status_of (db s)), (status_of (db s')); try lia.
    by destruct Hk as [? ?]; [eauto|].
Qed.

Lemma acknowledged_names l s :
  wf (db s) →
  let names := omap reserved_name (acknowledged sha256 fate l s) in
  NoDup names ∧ (∀ n, n ∈ names → n ∉ map o_name (operations (db s)))
  ∧ wf (db (after sha256 fate l s)).
Proof.
  revert s. induction l as [|c l IH]; intros s Hw; simpl; [split_and!; [constructor|set_solver|done]|].
  destruct (run_call sha256 fate c s) as [r s'] eqn:E.
  destruct (IH s') as (I1 & I2 & I3); [by eapply run_call_wf|]. clear IH.
  assert (∀ n, n ∈ map o_name (operations (db s)) → n ∈ map o_name (operations (db s'))) as Hgrow.
  { apply run_call_cases in E as [[-> _]|Hm]; [done|]. apply call_tx_names in Hm as ->. set_solver. }
  assert (∀ n, n ∈ omap reserved_name (acknowledged sha256 fate l s') →
    n ∉ map o_name (operations (db s))) as Hbase by (intros n Hn Hin; by apply (I2 n Hn), Hgrow).
  destruct r as [[]|e]; simpl; [|done].
  apply run_call_cases in E as [[_ ?]|Hm]; [done|]. pose proof (call_tx_names _ _ _ _ Hm) as Hnames.
  destruct c; simpl in *; try done.
  apply reserve_tx_ok in Hm as (_ & _ & Hfresh & _ & _). split_and!; [|intros n' [->|?]%elem_of_cons; [done|auto]|done].
  constructor; [|done]. intros Hin. apply (I2 _ Hin). rewrite Hnames. set_solver.
Qed.

(** in any history of journal calls, from any processes, in any order and
    whatever connections fail or lose their acknowledgment, the campaign is
    acquired at most once, no operation is reserved twice, and at most one
    dispatch is ever outstanding. *)
Theorem journal_no_replay l n :
  let s := mkState fresh n in
  (length (filter is_latch (acknowledged sha256 fate l s)) ≤ 1)%nat
  ∧ NoDup (omap reserved_name (acknowledged sha256 fate l s))
  ∧ wf (db (after sha256 fate l s)).
Proof.
  intros s. destruct (acknowledged_names l s) as (H1 & _ & H3).
  { split; simpl; [constructor|lia]. }
  split_and!; [|done|done]. apply (acknowledged_latches l s).
Qed.

(** once the campaign row left [running], under the runner's terminal
    statuses it never runs again and no later reservation is acknowledged; the
    only status change left is the downgrade to [unknown]. *)
Theorem journal_terminal_sticky l s :
  Forall terminal_ok l → stopped (db s) →
  stopped (db (after sha256 fate l s))
  ∧ omap reserved_name (acknowledged sha256 fate l s) = []
  ∧ (status_of (db (after sha256 fate l s)) = status_of (db s)
     ∨ status_of (db (after sha256 fate l s)) = Some "unknown").
Proof.
  intros Hl. revert s. induction Hl as [|c l Hc Hl IH]; intros s Hs; simpl; [by auto|].
  pose proof (stopped_kept sha256 fate c s Hc Hs) as Hs'.
  destruct (run_call sha256 fate c s) as [r s'] eqn:E. simpl in *.
  destruct (IH s' Hs') as (I1 & I2 & I3). split_and!; [done| |].
  - destruct r as [[]|e]; [|done]. destruct c; try exact I2. apply run_call_cases in E as [[_ ?]|Hm]; [done|].
    apply reserve_tx_ok in Hm as (Hrun & _). destruct Hs as (st & Hst & Hne). congruence.
  - destruct Hs as (st & Hst & Hne).
    apply status_step in E as [E|[[_ E]|(st' & rs & old & -> & Hold & Ht & Hst')]].
    + by rewrite <- E.
    + congruence.
    + unfold terminal_from in Ht. case_bool_decide as Hu.
      * subst. rewrite Hst' in I3. destruct I3; auto.
      * inv_bool. congruence.
Qed.

End Properties.
(** A campaign that ended unknown, asked to reserve again and to complete. *)
Definition spent : State := mkState (mkDb (Some (mkCampaignRow "{}" "d" "unknown" "fault")) []) 0.
Definition late_calls : list call :=
  [CReserve 1 (mkOperation "a" "settle" zero_cost "mechanism" "x" None None);
   CTerminal "mechanism_complete" "late"; CTerminal "unknown" "again"].

Lemma journal_terminal_sticky_witness :
  Forall terminal_ok late_calls ∧ stopped (db spent)
  ∧ omap reserved_name (acknowledged (λ x, x) (λ _, Healthy) late_calls spent) = [].
Proof.
  assert (Forall terminal_ok late_calls) as H1.
  { repeat constructor; simpl; set_solver. }
  assert (stopped (db spent)) as H2 by (exists "unknown"; split; [reflexivity|discriminate]).
  split; [exact H1|]. split; [exact H2|].
  exact (proj1 (proj2 (journal_terminal_sticky (λ x, x) (λ _, Healthy) late_calls spent H1 H2))).
Defined.

End SQLiteJournal.
