(* ===== verification/Runner.v ===== *)
(** [Runner] of probes/pmb1-finite-runner/runner.py: the finite orchestration
    of one selected case over its journal, adapter, oracle, clock and source
    check, with the exact order of its effects recorded as a trace. *)
From S2P Require Import Prelude Json Cost Packet RunnerJournal.

(** ** Data *)

(** A value of [clock()]: a usable number, positive infinity, another value
    that is not finite (NaN or negative infinity), or no number at all. *)
Inductive reading := Tick (t : Z) | PosInf | NotFinite | NotNumber.

Record Result := mkResult {
  status : string;
  completed_cases : Z;
  reason : string;
}.

(** The other ports of the runner, over the world [W] they act on. *)
Record Ports (W : Type) := mkPorts {
  clock : M W reading;
  source_check : M W string;
  invoke : Operation → Z → M W Receipt;
  verify_receipt : Operation → Receipt → M W unit;
  verify : Snapshot → M W unit;
}.
Arguments clock {W}. Arguments source_check {W}. Arguments invoke {W}.
Arguments verify_receipt {W}. Arguments verify {W}.

(** An adapter as the constructor receives it: its channel, whether it is exactly
    a [MechanismAdapter], and its [program_pin] attribute. *)
Record AdapterFacts := mkAdapterFacts {
  a_channel : string;
  a_concrete : bool;
  a_program_pin : option string;
}.

(** The constructor arguments that the run inspects rather than calls. *)
Record Config := mkConfig {
  cf_packet : Packet;
  cf_adapters : list AdapterFacts;
  cf_concrete_oracle : bool;
}.

(** Calls to the ports other than the clock and the source check, as made. *)
Inductive event :=
| EvLatch
| EvReserve (op : Operation)
| EvInvoke (op : Operation)
| EvReceipt (op : Operation) (r : Receipt)
| EvFinish (op : Operation) (r : Receipt)
| EvVerifyReceipt (op : Operation) (r : Receipt)
| EvVerify (s : Snapshot)
| EvTerminal (status reason : string).

(** The world, the runner's attributes, the locals its handler reads, and the
    trace of port calls. *)
Record RState (W : Type) := mkRState {
  r_world : W;
  r_last_time : Z;
  r_identity : option string;
  r_latched : bool;
  r_completed : Z;
  r_trace : list event;
}.
Arguments mkRState {W}. Arguments r_world {W}. Arguments r_last_time {W}.
Arguments r_identity {W}. Arguments r_latched {W}. Arguments r_completed {W}. Arguments r_trace {W}.

(** The locals of the operation loop. *)
Record Locals := mkLocals {
  l_call_end : Z;
  l_snapshots : list (string * Snapshot);
  l_baseline_at : option Z;
  l_restored_at : option Z;
}.

(** Falling through the loop body, or [return]ing from [run]. *)
Inductive flow := Next (l : Locals) | Return (r : Result).

Section Runner.
(** [digest] is [packet_digest] of Packet.v for a hash function. *)
Context {W : Type} `{JournalPort W} (ports : Ports W) (digest : Packet → string).
(** [mechanism.make_packet(number, interruption=...)]. *)
Context (make_packet : Z → string → res Packet).
Context (cfg : Config).

Notation packet := (cf_packet cfg).
Notation R := (M (RState W)).

(** A call on the world. *)
Definition on_world {A} (m : M W A) : R A := λ s,
  let (r, w) := m (r_world s) in
  (r, mkRState w (r_last_time s) (r_identity s) (r_latched s) (r_completed s) (r_trace s)).

Definition emit (e : event) : R unit :=
  modify (λ s, mkRState (r_world s) (r_last_time s) (r_identity s) (r_latched s)
                 (r_completed s) (r_trace s ++ [e])).

Definition set_last (t : Z) : R unit :=
  modify (λ s, mkRState (r_world s) t (r_identity s) (r_latched s) (r_completed s) (r_trace s)).
Definition set_identity (d : string) : R unit :=
  modify (λ s, mkRState (r_world s) (r_last_time s) (Some d) (r_latched s) (r_completed s) (r_trace s)).
Definition set_latched (b : bool) : R unit :=
  modify (λ s, mkRState (r_world s) (r_last_time s) (r_identity s) b (r_completed s) (r_trace s)).
Definition add_completed : R unit :=
  modify (λ s, mkRState (r_world s) (r_last_time s) (r_identity s) (r_latched s)
                 (r_completed s + 1) (r_trace s)).

Definition refuse (bad : bool) (label : string) : R unit := lift (refuse_if bad label).

Definition in_window (t end_ : Z) : bool :=
  (p_starts packet <=? t) && (t <? Z.min end_ (p_deadline packet)).

(** [Runner._check] *)
Definition check (end_ : Z) : R Z :=
  let* now := on_world (clock ports) in
  match now with
  | PosInf | NotFinite | NotNumber => raise (Refusal "invalid_monotonic_clock")
  | Tick now =>
      refuse (negb (in_window now end_)) "deadline_or_not_started" ;*
      let* last := gets r_last_time in
      refuse (now <? last) "monotonic_clock_rewound" ;*
      set_last now ;*
      let* pin := on_world (source_check ports) in
      refuse (negb (bool_decide (pin = p_source_pin packet))) "source_binding_drift" ;*
      let* identity := gets r_identity in
      refuse (negb (bool_decide (Some (digest packet) = identity))) "source_program_identity_drift" ;*
      let* after := on_world (clock ports) in
      match after with
      | PosInf | NotFinite | NotNumber => raise (Refusal "monotonic_clock_rewound")
      | Tick after =>
          refuse (after <? now) "monotonic_clock_rewound" ;*
          refuse (negb (in_window after end_)) "deadline_or_not_started" ;*
          set_last after ;*
          ret after
      end
  end.

Definition interruption_of (p : Packet) : string :=
  match nth_error (p_cases p) 11 with
  | Some c => match c_interruption c with
              | Some i => if empty_str i then "partial_output" else i
              | None => "partial_output"
              end
  | None => "partial_output"
  end.

(** The source-owned program and driver checks. *)
Definition check_program : res unit :=
  let? expected := make_packet (p_selected_case packet) (interruption_of packet) in
  refuse_if (negb (bool_decide (p_cases packet = p_cases expected))
             || negb (bool_decide (p_context packet = p_context expected))
             || negb (bool_decide (p_source_pin packet = p_source_pin expected))
             || negb (cf_concrete_oracle cfg)
             || negb (bool_decide (map a_channel (cf_adapters cfg) = ["mechanism"]))
             || negb (forallb a_concrete (cf_adapters cfg)))
    "source_owned_program_or_driver_required" ;?
  refuse_if (existsb (λ a, negb (bool_decide (a_program_pin a = program_pin <$> p_context packet)))
               (cf_adapters cfg))
    "source_owned_adapter_program_binding_required".

(** [latched = True; try: self.journal.latch(...) except _CampaignAlreadyReserved] *)
Definition acquire : R unit :=
  set_latched true ;*
  emit EvLatch ;*
  try (on_world (j_latch packet (digest packet)))
    (λ exc, match exc with
            | ReservedAlready _ => set_latched false ;* raise exc
            | _ => raise exc
            end).

(** [self.adapters.get(op.channel, DisabledAdapter()).invoke(op, call_end)] *)
Definition dispatch (op : Operation) (call_end : Z) : R Receipt :=
  emit (EvInvoke op) ;*
  let* r := (if str_in (op_channel op) (map a_channel (cf_adapters cfg))
             then on_world (invoke ports op call_end)
             else raise (Refusal "provider_dispatch_disabled")) in
  emit (EvReceipt op r) ;*
  ret r.

Definition stale (now freshness : Z) (at_ : option Z) : bool :=
  match at_ with Some t => freshness <=? now - t | None => false end.

(** The freshness guards at the head of the loop body. *)
Definition check_freshness (op : Operation) (l : Locals) (now : Z) : R unit :=
  refuse (bool_decide (op_stage op = "preflight")
          && stale now (p_baseline_freshness packet) (l_baseline_at l)) "baseline_freshness" ;*
  refuse (bool_decide (op_stage op = "restored")
          && stale now (p_baseline_freshness packet) (l_restored_at l)) "restored_freshness".

Definition bound_for (op : Operation) (stage : string) (at_ : option Z) : Z :=
  match at_ with
  | Some t => if bool_decide (op_stage op = stage) then t + p_baseline_freshness packet else p_deadline packet
  | None => p_deadline packet
  end.

Definition call_end_for (op : Operation) (l : Locals) (now run_end : Z) : Z :=
  Z.min (now + 60) (Z.min run_end (Z.min (p_deadline packet)
    (Z.min (bound_for op "preflight" (l_baseline_at l)) (bound_for op "restored" (l_restored_at l))))).

(** The receipt checks before it is retained. *)
Definition check_receipt (op : Operation) (r : Receipt) : res unit :=
  refuse_if (negb (str_in (r_status r) ["confirmed"; "refused"; "unknown"]) || empty_str (r_evidence r))
    "invalid_or_unmeasurable_receipt" ;?
  (let? ok := within (r_actual_cost r) (op_cost op) in
   refuse_if (negb ok) "invalid_or_unmeasurable_receipt") ;?
  let retained := slen (r_evidence r)
                  + match r_snapshot r with Some s => slen (s_canonical s) | None => 0 end
                  + json_len (operation_json op) + json_len (cost_json (r_actual_cost r)) in
  refuse_if (artifact_bytes (r_actual_cost r) <? retained) "unaccounted_retained_artifact_bytes".

Definition snapshot_bad (r : Receipt) : bool :=
  match r_snapshot r with
  | None => true
  | Some s => negb (s_complete s) || empty_str (s_canonical s) || (512 * 1024 <? slen (s_canonical s))
              || negb (bool_decide (s_source_pin s = p_source_pin packet)) || empty_str (s_identity s)
  end.

Fixpoint assoc {A} (k : string) (l : list (string * A)) : option A :=
  match l with [] => None | (k', a) :: l' => if bool_decide (k = k') then Some a else assoc k l' end.

(** The [op.capture is not None] branch. *)
Definition take_capture (op : Operation) (cap : string) (r : Receipt) (now : Z) (l : Locals) : R Locals :=
  match r_snapshot r with
  | None => raise (Refusal "incomplete_or_unbound_snapshot")
  | Some snap =>
      refuse (snapshot_bad r) "incomplete_or_unbound_snapshot" ;*
      (if bool_decide (l_snapshots l = []) then ret tt
       else match assoc "baseline" (l_snapshots l) with
            | None => raise (External "KeyError")
            | Some first =>
                refuse (negb (bool_decide (s_identity snap = s_identity first))
                        || negb (bool_decide (s_canonical snap = s_canonical first)))
                  "complete_typed_equality_failed"
            end) ;*
      emit (EvVerify snap) ;*
      on_world (verify ports snap) ;*
      let* _ := check (l_call_end l) in
      ret (mkLocals (l_call_end l) ((cap, snap) :: l_snapshots l)
             (if bool_decide (cap = "baseline") then Some now else l_baseline_at l) (l_restored_at l))
  end.

(** From the acknowledged receipt to the end of the loop body. *)
Definition conclude (case : Case) (op : Operation) (r : Receipt) (now : Z) (l : Locals) : R flow :=
  let call_end := l_call_end l in
  let why := match c_interruption case with
             | Some i => if empty_str i then "interruption" else i
             | None => "interruption"
             end in
  if bool_decide (op_stage op = "interruption") then
    refuse (negb (bool_decide (r_status r = "refused"))) "interruption_did_not_refuse" ;*
    let* _ := check call_end in
    emit (EvTerminal "closed_refusal" why) ;*
    on_world (j_terminal "closed_refusal" why) ;*
    let* _ := check call_end in
    let* completed := gets r_completed in
    ret (Return (mkResult "closed_refusal" completed why))
  else
    refuse (negb (bool_decide (r_status r = "confirmed"))) "operation_refused_shared_reuse_stopped" ;*
    let* l1 := (if bool_decide (op_stage op = "restore_readback")
                then let* t := check call_end in
                     ret (mkLocals call_end (l_snapshots l) (l_baseline_at l) (Some t))
                else ret l) in
    let* l2 := (match op_capture op with
                | Some cap => take_capture op cap r now l1
                | None => ret l1
                end) in
    let* _ := check call_end in
    ret (Next l2).

(** One iteration of [for op in case.operations]. *)
Definition run_operation (case : Case) (run_end : Z) (l : Locals) (op : Operation) : R flow :=
  let* now := check run_end in
  check_freshness op l now ;*
  emit (EvReserve op) ;*
  on_world (j_reserve (c_number case) op) ;*
  let call_end := call_end_for op l now run_end in
  let l := mkLocals call_end (l_snapshots l) (l_baseline_at l) (l_restored_at l) in
  let* _ := check call_end in
  let* receipt := dispatch op call_end in
  let* _ := check call_end in
  lift (check_receipt op receipt) ;*
  emit (EvFinish op receipt) ;*
  on_world (j_finish (c_number case) op receipt) ;*
  let* _ := check call_end in
  refuse (bool_decide (r_status receipt = "unknown")) "operation_outcome_unknown" ;*
  emit (EvVerifyReceipt op receipt) ;*
  on_world (verify_receipt ports op receipt) ;*
  let* _ := check call_end in
  conclude case op receipt now l.

Fixpoint run_operations (case : Case) (run_end : Z) (l : Locals) (ops : list Operation) : R flow :=
  match ops with
  | [] => ret (Next l)
  | op :: ops' =>
      let* f := run_operation case run_end l op in
      match f with
      | Next l' => run_operations case run_end l' ops'
      | Return r => ret (Return r)
      end
  end.

(** [min(self.clock() + 1200, self.packet.deadline)]. Minus infinity and NaN
    give an end no time is before, as [packet.starts] is in [check]. *)
Definition run_end_of (now : reading) : res Z :=
  match now with
  | Tick t => Ok (Z.min (t + 1200) (p_deadline packet))
  | PosInf => Ok (p_deadline packet)
  | NotFinite => Ok (p_starts packet)
  | NotNumber => Err (External "TypeError")
  end.

(** [for case in self.packet.cases: if case.number != selected: continue]. *)
Fixpoint run_cases (call_end : Z) (cases : list Case) : R flow :=
  match cases with
  | [] => ret (Next (mkLocals call_end [] None None))
  | case :: cases' =>
      if negb (c_number case =? p_selected_case packet) then run_cases call_end cases'
      else
        let* now := on_world (clock ports) in
        let* run_end := lift (run_end_of now) in
        let* f := run_operations case run_end (mkLocals call_end [] None None) (c_operations case) in
        match f with
        | Return r => ret (Return r)
        | Next l => add_completed ;* run_cases (l_call_end l) cases'
        end
  end.

(** After the case loop: [return Result(...)] of the loop, or completion. *)
Definition complete (f : flow) : R Result :=
  match f with
  | Return r => ret r
  | Next l =>
      let* _ := check (l_call_end l) in
      emit (EvTerminal "mechanism_complete" "selected_source_case_complete") ;*
      on_world (j_terminal "mechanism_complete" "selected_source_case_complete") ;*
      let* _ := check (l_call_end l) in
      let* completed := gets r_completed in
      ret (mkResult "mechanism_complete" completed "selected_source_case_complete")
  end.

(** The [try] body of [Runner.run]: what precedes the latch, the latch, the rest. *)
Definition admission : R unit :=
  lift (validate_packet packet) ;*
  set_identity (digest packet) ;*
  let* _ := check (p_deadline packet) in
  lift check_program.

Definition run_body : R Result :=
  admission ;*
  acquire ;*
  let* f := run_cases (p_deadline packet) (p_cases packet) in
  complete f.

(** [str(exc) if isinstance(exc, Refusal) else ...] *)
Definition reason_of (exc : exn) : string :=
  match exc with
  | Refusal l => l
  | ReservedAlready l => l
  | External _ => "external_ack_or_adapter_unknown"
  end.

(** [except Exception as exc: ...] *)
Definition on_failure (exc : exn) : R Result :=
  let reason := reason_of exc in
  let* latched := gets r_latched in
  let* completed := gets r_completed in
  if latched then
    try (emit (EvTerminal "unknown" reason) ;*
         on_world (j_terminal "unknown" reason) ;*
         ret (mkResult "unknown" completed reason))
      (λ _, ret (mkResult "unknown" completed "terminal_ack_unknown"))
  else ret (mkResult "refused" completed reason).

(** [Runner.run]: [Runner.__init__] sets the last time to [packet.starts]. *)
Definition run : R Result := try run_body on_failure.

Definition start (w : W) : RState W := mkRState w (p_starts packet) None false 0 [].

End Runner.
