(* ===== verification/RunnerFacts.v ===== *)
(** What every run of [Runner] does, whatever its ports answer: the order of its
    effects, what a completed rehearsal has established, how failures are
    accounted for, and that a reserved campaign is never replayed. *)
From S2P Require Import Prelude Json Cost Packet RunnerJournal Runner.

(** ** Specification vocabulary *)

(** The effects of a run on its journal and adapter, without their data. *)
Inductive step :=
| SLatch
| SReserve (op : Operation)
| SInvoke (op : Operation)
| SFinish (op : Operation).

Definition step_of (e : event) : option step :=
  match e with
  | EvLatch => Some SLatch
  | EvReserve op => Some (SReserve op)
  | EvInvoke op => Some (SInvoke op)
  | EvFinish op _ => Some (SFinish op)
  | _ => None
  end.

(** The effects of a whole case: reserve, invoke and finish each operation once,
    in program order. *)
Definition plan (ops : list Operation) : list step :=
  concat (map (λ op, [SReserve op; SInvoke op; SFinish op]) ops).

(** The operations of the selected case. *)
Definition selected_operations (p : Packet) : list Operation :=
  concat (map c_operations (filter (λ c, c_number c = p_selected_case p) (p_cases p))).

(** The events of an operation that completed with receipt [r]. *)
Definition op_events (op : Operation) (r : Receipt) : list event :=
  [EvReserve op; EvInvoke op; EvReceipt op r; EvFinish op r; EvVerifyReceipt op r]
  ++ (if op_capture op then option_list (EvVerify <$> r_snapshot r) else []).

(** A receipt a completed run accepted for [op]. *)
Record accepted (p : Packet) (op : Operation) (r : Receipt) : Prop := {
  acc_confirmed : r_status r = "confirmed";
  acc_cost : cost_le zero_cost (r_actual_cost r) ∧ cost_le (r_actual_cost r) (op_cost op);
  acc_evidence : r_evidence r ≠ EmptyString;
  acc_retained : slen (r_evidence r) + match r_snapshot r with Some s => slen (s_canonical s) | None => 0 end
                 + json_len (operation_json op) + json_len (cost_json (r_actual_cost r))
                 <= artifact_bytes (r_actual_cost r);
  acc_capture : is_Some (op_capture op) → ∃ s, r_snapshot r = Some s ∧ s_complete s = true
                ∧ s_source_pin s = p_source_pin p ∧ slen (s_canonical s) <= 512 * 1024;
}.

(** [simpl] shows [omap] on lists as its instance; this folds it back. *)
Ltac fold_omap := repeat match goal with
  | |- context [list_omap ?A ?B ?f ?l] => change (list_omap A B f l) with (omap (M:=list) f l)
  end.

(** ** Trace reasoning *)

Section Facts.
Context {W : Type} `{JournalPort W} (ports : Ports W) (digest : Packet → string).
Context (make_packet : Z → string → res Packet) (cfg : Config).
Notation R := (M (RState W)).
Notation packet := (cf_packet cfg).

(** [m] appends events satisfying [Q] to the trace. *)
Definition emits {A} (m : R A) (Q : res A → list event → Prop) : Prop :=
  ∀ s r s', m s = (r, s') → ∃ evs, r_trace s' = r_trace s ++ evs ∧ Q r evs.

(** [m] makes no port call but those on the clock and the source. *)
Definition quiet {A} (m : R A) : Prop := ∀ s, r_trace (m s).2 = r_trace s.

Lemma emits_weaken {A} (m : R A) (Q Q' : res A → list event → Prop) :
  emits m Q → (∀ r evs, Q r evs → Q' r evs) → emits m Q'.
Proof. intros Hm HQ s r s' E. destruct (Hm _ _ _ E) as (evs & ? & ?). eauto. Qed.

Lemma emits_bind {A B} (m : R A) (f : A → R B) (Q1 : res A → list event → Prop)
    (Q : res B → list event → Prop) :
  emits m Q1 → (∀ e evs, Q1 (Err e) evs → Q (Err e) evs) →
  (∀ a evs1, Q1 (Ok a) evs1 → emits (f a) (λ r evs2, Q r (evs1 ++ evs2))) →
  emits (bind m f) Q.
Proof.
  intros Hm He Hf s r s' E. apply bind_inv in E as [(a & s1 & E1 & E2)|(e & s1 & E1 & [= -> ->])].
  - destruct (Hm _ _ _ E1) as (e1 & T1 & Q1a). destruct (Hf _ _ Q1a _ _ _ E2) as (e2 & T2 & Q2a).
    exists (e1 ++ e2). split; [|done]. by rewrite T2, T1, app_assoc.
  - destruct (Hm _ _ _ E1) as (e1 & T1 & Q1a). eauto.
Qed.

Lemma emits_quiet {A B} (m : R A) (f : A → R B) (Q : res B → list event → Prop) :
  quiet m → (∀ e, Q (Err e) []) → (∀ a, emits (f a) Q) → emits (bind m f) Q.
Proof.
  intros Hm He Hf. apply (emits_bind m f (λ _ evs, evs = [])).
  - intros s r s' E. exists []. split; [|done]. rewrite app_nil_r. specialize (Hm s). by rewrite E in Hm.
  - by intros e evs ->.
  - by intros a evs ->.
Qed.

Lemma emits_emit {B} e (f : unit → R B) (Q : res B → list event → Prop) :
  emits (f tt) (λ r evs, Q r (e :: evs)) → emits (bind (emit e) f) Q.
Proof.
  intros Hf. apply (emits_bind (emit e) f (λ r evs, r = Ok tt ∧ evs = [e])).
  - intros s r s' [= <- <-]. eauto.
  - by intros e' evs [? _].
  - by intros [] evs [_ ->].
Qed.

Lemma emits_ret {A} (a : A) (Q : res A → list event → Prop) : Q (Ok a) [] → emits (ret a) Q.
Proof. intros HQ s r s' [= <- <-]. exists []. by rewrite app_nil_r. Qed.

Lemma emits_raise {A} e (Q : res A → list event → Prop) : Q (Err e) [] → emits (raise e) Q.
Proof. intros HQ s r s' [= <- <-]. exists []. by rewrite app_nil_r. Qed.

Lemma emits_quiet_end {A} (m : R A) (Q : res A → list event → Prop) :
  quiet m → (∀ r, Q r []) → emits m Q.
Proof.
  intros Hm HQ s r s' E. exists []. rewrite app_nil_r. specialize (Hm s). by rewrite E in Hm.
Qed.

Lemma quiet_bind {A B} (m : R A) (f : A → R B) : quiet m → (∀ a, quiet (f a)) → quiet (bind m f).
Proof.
  intros Hm Hf s. unfold bind. specialize (Hm s). destruct (m s) as [[a|e] s1]; simpl in *; [|done].
  by rewrite Hf.
Qed.

Lemma quiet_on_world {A} (m : M W A) : quiet (on_world m).
Proof. intros s. unfold on_world. by destruct (m (r_world s)). Qed.
Lemma quiet_refuse b l : quiet (refuse b l : R unit).
Proof. done. Qed.
Lemma quiet_lift {A} (r : res A) : quiet (lift r : R A).
Proof. done. Qed.
Lemma quiet_ret {A} (a : A) : quiet (ret a : R A).
Proof. done. Qed.
Lemma quiet_raise {A} e : quiet (raise e : R A).
Proof. done. Qed.
Lemma quiet_gets {A} (f : RState W → A) : quiet (gets f : R A).
Proof. done. Qed.
Lemma quiet_set_last t : quiet (set_last t : R unit).
Proof. done. Qed.
Lemma quiet_set_identity d : quiet (set_identity d : R unit).
Proof. done. Qed.
Lemma quiet_set_latched b : quiet (set_latched b : R unit).
Proof. done. Qed.
Lemma quiet_add_completed : quiet (add_completed : R unit).
Proof. done. Qed.

Hint Resolve quiet_bind quiet_on_world quiet_refuse quiet_lift quiet_ret quiet_raise quiet_gets
  quiet_set_last quiet_set_identity quiet_set_latched quiet_add_completed : quiet.

Ltac quiet := repeat first [apply quiet_bind; [|intros]
  | progress (auto 2 with quiet nocore) | case_match].

Lemma quiet_check e : quiet (check ports digest cfg e).
Proof. unfold check. quiet. Qed.
Lemma quiet_check_freshness op l now : quiet (check_freshness cfg op l now).
Proof. unfold check_freshness. quiet. Qed.

Hint Resolve quiet_check quiet_check_freshness : quiet.

Lemma emits_lift {A B} (r : res A) (f : A → R B) (Q : res B → list event → Prop) :
  (∀ e, r = Err e → Q (Err e) []) → (∀ a, r = Ok a → emits (f a) Q) → emits (bind (lift r) f) Q.
Proof.
  intros He Hf. destruct r as [a|e].
  - intros s r s' E. by apply (Hf a).
  - intros s r s' [= <- <-]. exists []. rewrite app_nil_r. auto.
Qed.

Lemma emits_refuse {B} b l (f : unit → R B) (Q : res B → list event → Prop) :
  (∀ e, Q (Err e) []) → (b = false → emits (f tt) Q) → emits (bind (refuse b l) f) Q.
Proof.
  intros He Hf. apply emits_lift; [auto|]. intros [] Hr. apply refuse_if_ok in Hr. auto.
Qed.

Lemma emits_ret_bind {A B} (a : A) (f : A → R B) (Q : res B → list event → Prop) :
  emits (f a) Q → emits (bind (ret a) f) Q.
Proof. done. Qed.

Definition snaps_of (op : Operation) (r : Receipt) : list Snapshot :=
  if op_capture op then option_list (r_snapshot r) else [].

(** All snapshots agree in identity and canonical content. *)
Definition same (l : list Snapshot) : Prop :=
  ∀ a b, a ∈ l → b ∈ l → s_identity a = s_identity b ∧ s_canonical a = s_canonical b.

Lemma dispatch_emits op call_end :
  emits (dispatch ports cfg op call_end) (λ r evs,
    match r with Ok rc => evs = [EvInvoke op; EvReceipt op rc] | Err _ => evs = [EvInvoke op] end).
Proof.
  unfold dispatch. apply emits_emit, emits_quiet; [case_match; quiet|done|]. intros a.
  by apply emits_emit, emits_ret.
Qed.

Lemma assoc_elem {A} k (l : list (string * A)) a : assoc k l = Some a → a ∈ map snd l.
Proof.
  induction l as [|[k' a'] l IH]; simpl; [done|]. case_bool_decide; [intros [= ->]|intros Hl]; set_solver.
Qed.

Lemma take_capture_emits op cap r now l :
  emits (take_capture ports digest cfg op cap r now l) (λ res evs,
    match res with
    | Ok l' => ∃ s, r_snapshot r = Some s ∧ snapshot_bad cfg r = false ∧ evs = [EvVerify s]
               ∧ map snd (l_snapshots l') = s :: map snd (l_snapshots l)
               ∧ (same (map snd (l_snapshots l)) → same (s :: map snd (l_snapshots l)))
    | Err _ => evs = [] ∨ ∃ s, evs = [EvVerify s]
    end).
Proof.
  unfold take_capture. destruct (r_snapshot r) as [snap|] eqn:Er; [|apply emits_raise; by left].
  apply emits_refuse; [auto|]. intros Hbad.
  apply (emits_bind _ _ (λ x evs, evs = [] ∧
    (x = Ok tt → same (map snd (l_snapshots l)) → same (snap :: map snd (l_snapshots l))))).
  - case_bool_decide as Hnil.
    + apply emits_ret. split; [done|]. intros _ _. rewrite Hnil. intros a b Ha Hb.
      by apply list_elem_of_singleton in Ha as ->, Hb as ->.
    + destruct (assoc "baseline" (l_snapshots l)) as [first|] eqn:Ea;
        [|by apply emits_raise].
      intros s x s' E. exists []. rewrite app_nil_r. unfold refuse, lift in E. injection E as <- <-.
      split_and!; [done|done|]. intros Hx Hsame. apply refuse_if_ok in Hx. inv_bool.
      apply assoc_elem in Ea.
      intros a b [->|Ha]%elem_of_cons [->|Hb]%elem_of_cons; [done| | |by apply Hsame].
      * destruct (Hsame _ _ Ea Hb). split; congruence.
      * destruct (Hsame _ _ Ea Ha). split; congruence.
  - intros e evs [-> _]. auto.
  - intros [] evs [-> Hs]. apply emits_emit. simpl.
    apply emits_quiet; [quiet|eauto|]. intros _.
    apply emits_quiet; [quiet|eauto|]. intros _.
    apply emits_ret. simpl. eexists. split_and!; eauto.
Qed.

Lemma check_receipt_ok op r : check_receipt op r = Ok tt →
  r_evidence r ≠ EmptyString ∧ cost_le zero_cost (r_actual_cost r) ∧ cost_le (r_actual_cost r) (op_cost op)
  ∧ slen (r_evidence r) + match r_snapshot r with Some s => slen (s_canonical s) | None => 0 end
    + json_len (operation_json op) + json_len (cost_json (r_actual_cost r)) <= artifact_bytes (r_actual_cost r).
Proof.
  unfold check_receipt. intros Hc. inv_check. inv_bool. subst.
  lazymatch goal with H : within _ _ = Ok true |- _ => apply within_true in H as (? & _ & ?) end.
  unfold empty_str in *. inv_bool. done.
Qed.

(** What [conclude] appends, and what falling through it means. *)
Lemma conclude_emits case op r now l :
  emits (conclude ports digest cfg case op r now l) (λ x evs,
    omap step_of evs = []
    ∧ match x with
      | Ok (Next l') => r_status r = "confirmed"
          ∧ evs = (if op_capture op then option_list (EvVerify <$> r_snapshot r) else [])
          ∧ map snd (l_snapshots l') = snaps_of op r ++ map snd (l_snapshots l)
          ∧ (same (map snd (l_snapshots l)) → same (map snd (l_snapshots l')))
          ∧ (is_Some (op_capture op) → snapshot_bad cfg r = false)
      | Ok (Return x') => status x' = "closed_refusal" ∧ op_stage op = "interruption"
      | Err _ => True
      end).
Proof.
  unfold conclude. case_bool_decide as Hst.
  - apply emits_refuse; [auto|]. intros _.
    apply emits_quiet; [quiet|auto|]. intros _. apply emits_emit. simpl.
    do 3 (apply emits_quiet; [quiet|auto|]; intros ?). by apply emits_ret.
  - apply emits_refuse; [auto|]. intros Hc. inv_bool.
    apply (emits_bind _ _ (λ x evs, evs = [] ∧ ∀ l1, x = Ok l1 → l_snapshots l1 = l_snapshots l)).
    { case_bool_decide.
      - apply emits_quiet; [quiet|done|]. intros t. apply emits_ret.
        split; [done|]. by intros l1 [= <-].
      - apply emits_ret. split; [done|]. by intros l1 [= <-]. }
    { by intros e evs [-> _]. }
    intros l1 evs [-> Hl1]. specialize (Hl1 l1 eq_refl).
    destruct (op_capture op) as [cap|] eqn:Ec.
    + eapply emits_bind; [apply take_capture_emits| |].
      { intros e evs [->|[s ->]]; done. }
      intros l2 evs (s & Hs & Hbad & -> & Hl2 & Hsame). rewrite Hl1 in Hl2, Hsame.
      apply emits_quiet; [quiet|done|]. intros _. apply emits_ret. simpl.
      unfold snaps_of. rewrite Ec, Hs. simpl. rewrite Hl2. by split_and!.
    + apply emits_ret_bind. apply emits_quiet; [quiet|done|]. intros _. apply emits_ret.
      simpl. unfold snaps_of. rewrite Ec, Hl1. split_and!; try done. all: by intros [? ?].
Qed.

Ltac op_error := intros; split_and!; [eexists; reflexivity|intros ? [=]|exact I].

(** The events and the meaning of one iteration of the operation loop. *)
Lemma run_operation_emits case run_end l op :
  emits (run_operation ports digest cfg case run_end l op) (λ x evs,
    omap step_of evs `prefix_of` [SReserve op; SInvoke op; SFinish op]
    ∧ (∀ f, x = Ok f → omap step_of evs = [SReserve op; SInvoke op; SFinish op])
    ∧ match x with
      | Ok (Next l') => ∃ r, evs = op_events op r ∧ accepted packet op r
          ∧ map snd (l_snapshots l') = snaps_of op r ++ map snd (l_snapshots l)
          ∧ (same (map snd (l_snapshots l)) → same (map snd (l_snapshots l')))
      | Ok (Return x') => status x' = "closed_refusal" ∧ op_stage op = "interruption"
      | Err _ => True
      end).
Proof.
  unfold run_operation.
  apply emits_quiet; [quiet|op_error|]. intros now.
  apply emits_quiet; [quiet|op_error|]. intros [].
  apply emits_emit.
  apply emits_quiet; [quiet|op_error|]. intros [].
  apply emits_quiet; [quiet|op_error|]. intros _.
  eapply emits_bind; [apply dispatch_emits|intros e evs ->; op_error|].
  intros r evs ->. simpl.
  apply emits_quiet; [quiet|op_error|]. intros _.
  apply emits_lift; [op_error|]. intros [] Hr.
  apply check_receipt_ok in Hr as (Hev & Hc0 & Hc1 & Hret).
  apply emits_emit.
  do 2 (apply emits_quiet; [quiet|op_error|]; intros _).
  apply emits_refuse; [op_error|]. intros _. apply emits_emit.
  do 2 (apply emits_quiet; [quiet|op_error|]; intros _).
  eapply emits_weaken; [apply conclude_emits|]. intros x evs2 [Hq Hx].
  simpl. fold_omap.
  rewrite Hq. split_and!; [done|done|]. destruct x as [[l'|x']|e]; [|done|done].
  destruct Hx as (Hconf & -> & Hl' & Hsame & Hcap). exists r. split_and!; [done| |done|done].
  split; try done. intros Hc. specialize (Hcap Hc). unfold snapshot_bad in Hcap.
  destruct (r_snapshot r) as [s|]; [|done]. inv_bool. exists s. done.
Qed.

(** The loop over the operations of a case. *)
Lemma run_operations_emits case run_end ops l :
  emits (run_operations ports digest cfg case run_end l ops) (λ x evs,
    omap step_of evs `prefix_of` plan ops
    ∧ match x with
      | Ok (Next l') => ∃ rs, evs = concat (zip_with op_events ops rs) ∧ Forall2 (accepted packet) ops rs
          ∧ map snd (l_snapshots l') = reverse (concat (zip_with snaps_of ops rs)) ++ map snd (l_snapshots l)
          ∧ (same (map snd (l_snapshots l)) → same (map snd (l_snapshots l')))
      | Ok (Return x') => status x' = "closed_refusal" ∧ ∃ op, op ∈ ops ∧ op_stage op = "interruption"
      | Err _ => True
      end).
Proof.
  revert l. induction ops as [|op ops IH]; intros l; simpl.
  - apply emits_ret. split; [done|]. exists []. by split_and!.
  - eapply emits_bind; [apply run_operation_emits| |].
    + intros e evs (Hp & _ & _). split; [|done]. etrans; [done|]. by apply prefix_app_r.
    + intros f evs (_ & Hfull & Hf). specialize (Hfull f eq_refl). destruct f as [l'|x'].
      * destruct Hf as (r & -> & Hacc & Hsn & Hsame).
        eapply emits_weaken; [apply IH|]. clear IH. intros x evs2 [Hp Hx].
        rewrite omap_app, Hfull. split; [by apply prefix_app|].
        destruct x as [[l2|x2]|e]; [| |done].
        -- destruct Hx as (rs & -> & Hall & Hsn2 & Hsame2). exists (r :: rs). split_and!; [done|by constructor| |auto].
           rewrite Hsn2, Hsn, app_assoc. f_equal. simpl. rewrite reverse_app. f_equal.
           unfold snaps_of. by destruct (op_capture op), (r_snapshot r).
        -- destruct Hx as [? (op' & ? & ?)]. split; [done|]. exists op'. set_solver.
      * apply emits_ret. rewrite app_nil_r, Hfull. split; [by apply prefix_app_r|].
        destruct Hf as [? ?]. split; [done|]. exists op. set_solver.
Qed.

(** ** State invariants of a run after its latch *)

(** [m] keeps the state property [P], whether it returns or raises. *)
Definition maintains (P : RState W → Prop) {A} (m : R A) : Prop := ∀ s, P s → P (m s).2.

Lemma maintains_bind P {A B} (m : R A) (f : A → R B) :
  maintains P m → (∀ a, maintains P (f a)) → maintains P (bind m f).
Proof.
  intros Hm Hf s Hs. unfold bind. specialize (Hm s Hs). destruct (m s) as [[a|e] s1]; simpl in *; [|done].
  by apply Hf.
Qed.
Lemma maintains_id P {A} (m : R A) : (∀ s, (m s).2 = s) → maintains P m.
Proof. intros Hm s. by rewrite Hm. Qed.

Section Maintains.
Context (P : RState W → Prop).
Context (Hclock : maintains P (on_world (clock ports)))
        (Hsource : maintains P (on_world (source_check ports)))
        (Hinvoke : ∀ op e, maintains P (on_world (invoke ports op e)))
        (Hvreceipt : ∀ op r, maintains P (on_world (verify_receipt ports op r)))
        (Hverify : ∀ sn, maintains P (on_world (verify ports sn)))
        (Hreserve : ∀ n op, maintains P (on_world (j_reserve n op)))
        (Hfinish : ∀ n op r, maintains P (on_world (j_finish n op r)))
        (Hterminal : ∀ st why, maintains P (on_world (j_terminal st why)))
        (Hemit : ∀ e, maintains P (emit e))
        (Hlast : ∀ t, maintains P (set_last t))
        (Hcompleted : maintains P add_completed).

Ltac keep := repeat first
  [ apply maintains_bind; [|intros]
  | by auto 1 with nocore
  | apply maintains_id; done
  | case_match ].

Lemma check_maintains e : maintains P (check ports digest cfg e).
Proof using Hclock Hsource Hlast. unfold check, refuse. keep. Qed.

Lemma run_operation_maintains case run_end l op :
  maintains P (run_operation ports digest cfg case run_end l op).
Proof using All.
  unfold run_operation, check_freshness, dispatch, conclude, take_capture, refuse.
  repeat first [apply maintains_bind; [|intros] | apply check_maintains | progress keep].
Qed.

Lemma run_operations_maintains case run_end l ops :
  maintains P (run_operations ports digest cfg case run_end l ops).
Proof using All.
  revert l. induction ops as [|op ops IH]; intros l; [by apply maintains_id|]. simpl.
  apply maintains_bind; [apply run_operation_maintains|]. intros []; [apply IH|by apply maintains_id].
Qed.

Lemma run_cases_maintains call_end cases : maintains P (run_cases ports digest cfg call_end cases).
Proof using All.
  revert call_end. induction cases as [|c cases IH]; intros call_end; [by apply maintains_id|]. simpl.
  case_match; [apply IH|]. apply maintains_bind; [done|]. intros now.
  apply maintains_bind; [by apply maintains_id|]. intros run_end.
  apply maintains_bind; [apply run_operations_maintains|]. intros []; [|by apply maintains_id].
  apply maintains_bind; [done|]. auto.
Qed.

Lemma complete_maintains f : maintains P (complete ports digest cfg f).
Proof using All.
  unfold complete. repeat first [apply maintains_bind; [|intros] | apply check_maintains | progress keep].
Qed.

Lemma after_latch_maintains :
  maintains P (let* f := run_cases ports digest cfg (p_deadline packet) (p_cases packet) in
               complete ports digest cfg f).
Proof using All. apply maintains_bind; [apply run_cases_maintains|apply complete_maintains]. Qed.

End Maintains.

(** The latch: one event, and the flag that decides how failures are reported. *)
Lemma acquire_spec s :
  let (x, s') := acquire digest cfg s in
  r_trace s' = r_trace s ++ [EvLatch]
  ∧ (r_latched s' = false → ∃ l, x = Err (ReservedAlready l))
  ∧ r_world s' = (j_latch packet (digest packet) (r_world s)).2
  ∧ (x = Ok tt → (j_latch packet (digest packet) (r_world s)).1 = Ok tt).
Proof.
  unfold acquire, set_latched, emit, modify, bind, try, on_world, raise. simpl.
  destruct (j_latch packet (digest packet) (r_world s)) as [[[]|[]] w]; simpl;
    split_and!; try done; eauto.
Qed.

(** *** The selected case *)

Lemma filter_unique {A} (f : A → Z) (l : list A) x :
  NoDup (map f l) → x ∈ map f l → ∃ a, filter (λ a, f a = x) l = [a] ∧ a ∈ l.
Proof.
  induction l as [|b l IH]; simpl; [set_solver|]. intros Hn Hx.
  apply NoDup_cons in Hn as [Hb Hn]. rewrite filter_cons. case_decide as Hd.
  - exists b. split; [|set_solver]. f_equal. apply filter_none. intros c Hc Hfc. apply Hb.
    rewrite Hd, <- Hfc. apply list_elem_of_fmap. eauto.
  - apply elem_of_cons in Hx as [->|Hx]; [done|]. destruct (IH Hn Hx) as (a & ? & ?).
    exists a. split; [done|set_solver].
Qed.

Lemma validate_selected p : validate_packet p = Ok tt → 1 <= p_selected_case p <= 12.
Proof.
  unfold validate_packet. intros Hv. inv_check. destruct (p_context p); inv_check. inv_bool. done.
Qed.

Lemma validate_unique p :
  validate_packet p = Ok tt →
  ∃ c, filter (λ c, c_number c = p_selected_case p) (p_cases p) = [c] ∧ c ∈ p_cases p.
Proof.
  intros Hv. pose proof (validate_selected p Hv) as Hs. apply validate_sweep in Hv as (Hn & _).
  apply (filter_unique c_number); rewrite Hn.
  - apply (bool_decide_unpack (NoDup twelve)). by vm_compute.
  - unfold twelve. rewrite !elem_of_cons. lia.
Qed.

Lemma run_cases_none call_end cases :
  filter (λ c, c_number c = p_selected_case packet) cases = [] →
  run_cases ports digest cfg call_end cases = ret (Next (mkLocals call_end [] None None)).
Proof.
  induction cases as [|c cases IH]; [done|]. rewrite filter_cons. case_decide as Hd; [done|].
  intros Hf. simpl. apply Z.eqb_neq in Hd. rewrite Hd. by apply IH.
Qed.

(** What the selected case contributes, and what completing it establishes. *)
Definition case_outcome (ops : list Operation) (x : res flow) (evs : list event) : Prop :=
  omap step_of evs `prefix_of` plan ops
  ∧ match x with
    | Ok (Next _) => ∃ rs, evs = concat (zip_with op_events ops rs) ∧ Forall2 (accepted packet) ops rs
        ∧ same (concat (zip_with snaps_of ops rs))
    | Ok (Return x') => status x' = "closed_refusal" ∧ ∃ op, op ∈ ops ∧ op_stage op = "interruption"
    | Err _ => True
    end.

Lemma run_cases_emits call_end cases c :
  filter (λ c, c_number c = p_selected_case packet) cases = [c] →
  emits (run_cases ports digest cfg call_end cases) (case_outcome (c_operations c)).
Proof.
  revert call_end. induction cases as [|c' cases IH]; intros call_end; [done|]. rewrite filter_cons.
  simpl. case_decide as Hd; intros Hf.
  - injection Hf as -> Hf. rewrite Hd, Z.eqb_refl. simpl.
    do 2 (apply emits_quiet; [quiet|by intros; split; [apply prefix_nil|]|]; intros ?).
    eapply emits_bind; [apply run_operations_emits|by intros e evs [? _]|].
    intros [l|x] evs [Hp Hx]; [|apply emits_ret; by rewrite app_nil_r].
    destruct Hx as (rs & -> & Hall & Hsn & Hsame). rewrite app_nil_r in Hsn.
    apply emits_quiet; [quiet|by intros; rewrite app_nil_r|]. intros _. rewrite run_cases_none by done. apply emits_ret.
    rewrite app_nil_r. split; [done|]. exists rs. split_and!; [done..|].
    intros s1 s2 H1 H2. apply Hsame; [by intros ???%elem_of_nil| |]; rewrite Hsn; by apply elem_of_reverse.
  - apply Z.eqb_neq in Hd. rewrite Hd. simpl. by apply IH.
Qed.

(** A finished body: completed or closed by the declared interruption. *)
Definition body_outcome (x : res Result) (evs : list event) : Prop :=
  omap step_of evs `prefix_of` SLatch :: plan (selected_operations packet)
  ∧ match x with
    | Ok res => (status res = "mechanism_complete" ∧ ∃ rs,
          evs = EvLatch :: concat (zip_with op_events (selected_operations packet) rs)
                ++ [EvTerminal "mechanism_complete" "selected_source_case_complete"]
          ∧ Forall2 (accepted packet) (selected_operations packet) rs
          ∧ same (concat (zip_with snaps_of (selected_operations packet) rs)))
        ∨ (status res = "closed_refusal"
           ∧ ∃ op, op ∈ selected_operations packet ∧ op_stage op = "interruption")
    | Err _ => True
    end.

Lemma after_latch_emits :
  validate_packet packet = Ok tt →
  emits (let* f := run_cases ports digest cfg (p_deadline packet) (p_cases packet) in
         complete ports digest cfg f)
    (λ x evs, body_outcome x (EvLatch :: evs)).
Proof.
  intros Hv. destruct (validate_unique _ Hv) as (c & Hc & _).
  assert (selected_operations packet = c_operations c) as Hsel.
  { unfold selected_operations. rewrite Hc. simpl. apply app_nil_r. }
  assert (∀ evs, omap step_of evs `prefix_of` plan (c_operations c) →
    omap step_of (EvLatch :: evs) `prefix_of` SLatch :: plan (selected_operations packet)) as Hpre.
  { intros evs Hp. rewrite Hsel. by apply prefix_cons. }
  eapply emits_bind; [by apply run_cases_emits|intros e evs [Hp _]; by split; [apply Hpre|]|].
  intros [l|x] evs [Hp Hx].
  - destruct Hx as (rs & -> & Hall & Hsame). unfold body_outcome.
    apply emits_quiet; [quiet|by intros; rewrite app_nil_r; split; [apply Hpre|]|]. intros _.
    apply emits_emit.
    assert (∀ t, omap step_of (concat (zip_with op_events (c_operations c) rs) ++ [EvTerminal t "selected_source_case_complete"])
      = omap step_of (concat (zip_with op_events (c_operations c) rs))) as Ht.
    { intros t. rewrite omap_app. by rewrite app_nil_r. }
    do 3 (apply emits_quiet; [quiet|by intros; split; [apply Hpre; rewrite Ht|]|]; intros ?).
    apply emits_ret. split; [apply Hpre; by rewrite Ht|]. left. split; [done|]. rewrite Hsel. eauto.
  - apply emits_ret. rewrite app_nil_r. split; [by apply Hpre|]. right. by rewrite Hsel.
Qed.

Lemma quiet_admission : quiet (admission ports digest make_packet cfg).
Proof. unfold admission. quiet. Qed.

Lemma admission_valid s s' :
  admission ports digest make_packet cfg s = (Ok tt, s') → validate_packet packet = Ok tt.
Proof. unfold admission, lift, bind. by destruct (validate_packet packet) as [[]|]. Qed.

Lemma run_body_emits : emits (run_body ports digest make_packet cfg) body_outcome.
Proof.
  unfold run_body. apply (emits_bind _ _ (λ x evs, evs = [] ∧ (x = Ok tt → validate_packet packet = Ok tt))).
  - intros s r s' E. exists []. rewrite app_nil_r. pose proof (quiet_admission s) as Hq. rewrite E in Hq.
    split_and!; [done..|]. intros ->. by eapply admission_valid.
  - intros e evs [-> _]. split; [apply prefix_nil|done].
  - intros [] evs [-> Hv]. specialize (Hv eq_refl).
    apply (emits_bind _ _ (λ _ evs, evs = [EvLatch])).
    + intros s r s' E. pose proof (acquire_spec s) as Ha. rewrite E in Ha. exists [EvLatch]. naive_solver.
    + intros e evs ->. split; [|done]. by apply prefix_cons, prefix_nil.
    + intros _ evs ->. by apply after_latch_emits.
Qed.

(** A body that failed with the flag down had reserved nothing. *)
Lemma run_body_unlatched s x s' :
  run_body ports digest make_packet cfg s = (x, s') → r_latched s = false → r_latched s' = false →
  (∃ e, x = Err e) ∧ (r_trace s' = r_trace s ∨ r_trace s' = r_trace s ++ [EvLatch]).
Proof.
  unfold run_body. intros E H0 H1.
  apply bind_inv in E as [([] & s1 & E1 & E)|(e & s1 & E1 & [= -> ->])].
  2: { split; [eauto|]. left. pose proof (quiet_admission s) as Hq. by rewrite E1 in Hq. }
  pose proof (quiet_admission s) as Hq. rewrite E1 in Hq. simpl in Hq.
  pose proof (acquire_spec s1) as Ha.
  apply bind_inv in E as [([] & s2 & E2 & E)|(e & s2 & E2 & [= -> ->])]; rewrite E2 in Ha.
  2: { split; [eauto|]. right. destruct Ha as [-> _]. by rewrite Hq. }
  exfalso. destruct Ha as (_ & Ha & _).
  assert (r_latched s2 = true) as Hl.
  { destruct (r_latched s2); [done|]. by destruct Ha. }
  pose proof (after_latch_maintains (λ s, r_latched s = true)) as Hm.
  unfold maintains in Hm. specialize (λ a b c d e f g h i j k, Hm a b c d e f g h i j k s2 Hl).
  rewrite E in Hm. simpl in Hm. rewrite H1 in Hm.
  assert (∀ A (m : M W A) s, r_latched s = true → r_latched (on_world m s).2 = true) as Hw.
  { intros A m s3 Hs. unfold on_world. by destruct (m (r_world s3)). }
  assert (false = true); [|done]. apply Hm; intros; by auto.
Qed.
End Facts.

(** ** Properties *)

Section Properties.
Context {W : Type} `{JournalPort W} (ports : Ports W) (digest : Packet → string).
Context (make_packet : Z → string → res Packet) (cfg : Config).
Notation packet := (cf_packet cfg).
Notation run := (run ports digest make_packet cfg).

(** [run] always returns a [Result]; its trace is the body's, plus at most the
    downgrade that reports a failure. *)
Lemma run_cases_of s :
  ∃ res s', run s = (Ok res, s') ∧
  ∃ x s1, run_body ports digest make_packet cfg s = (x, s1) ∧
  match x with
  | Ok r => res = r ∧ s' = s1
  | Err e => if r_latched s1
             then status res = "unknown" ∧ r_trace s' = r_trace s1 ++ [EvTerminal "unknown" (reason_of e)]
                  ∧ ∃ w, w = r_world s1 ∧ r_world s' = (j_terminal "unknown" (reason_of e) w).2
             else res = mkResult "refused" (r_completed s1) (reason_of e) ∧ s' = s1
  end.
Proof.
  unfold Runner.run, try. destruct (run_body _ _ _ _ s) as [[r|e] s1] eqn:Eb.
  { exists r, s1. split; [done|]. by exists (Ok r), s1. }
  unfold on_failure, gets, bind, emit, modify, on_world, try. simpl.
  destruct (r_latched s1) eqn:E; simpl; [|do 2 eexists; split; [done|]; by exists (Err e), s1; rewrite E].
  destruct (j_terminal "unknown" (reason_of e) (r_world s1)) as [[[]|e'] w] eqn:Et; simpl;
    (do 2 eexists; split; [done|]; exists (Err e), s1; rewrite E; split; [done|]; simpl;
     split_and!; [done|done|]; eexists; by rewrite Et).
Qed.

(** [Runner.run] returns a [Result] on every input, whatever its clock,
    journal, adapter and oracle answer or raise; and its effects are a prefix of
    the fixed program: the latch, then reserve, invoke and finish of each
    operation of the selected case, each at most once and in program order. So an
    operation is never invoked before its own reservation was requested, never
    twice, and nothing is skipped. *)
Theorem run_program_order w :
  ∃ res s', run (start cfg w) = (Ok res, s')
  ∧ omap step_of (r_trace s') `prefix_of` SLatch :: plan (selected_operations packet)
  ∧ status res ∈ ["refused"; "unknown"; "closed_refusal"; "mechanism_complete"].
Proof.
  destruct (run_cases_of (start cfg w)) as (res & s' & Hr & x & s1 & Hb & Hx).
  exists res, s'. split; [done|].
  destruct (run_body_emits ports digest make_packet cfg _ _ _ Hb) as (evs & Ht & Hp & Ho). simpl in Ht.
  destruct x as [r|e].
  - destruct Hx as [-> ->]. rewrite Ht. split; [done|].
    destruct Ho as [[-> _]|[-> _]]; set_solver.
  - destruct (r_latched s1).
    + destruct Hx as (-> & -> & _). rewrite Ht, omap_app, app_nil_r. split; [done|set_solver].
    + destruct Hx as [-> ->]. rewrite Ht. split; [done|set_solver].
Qed.

(** C26: a result [mechanism_complete] is earned: every operation of the selected
    case was reserved, invoked, measured, retained and independently verified in
    order, each receipt was confirmed within its declared cost and retained-byte
    bound, and all complete captures are equal in identity and content. *)
Theorem run_complete_sound w res s' :
  run (start cfg w) = (Ok res, s') → status res = "mechanism_complete" →
  ∃ rs, r_trace s' = EvLatch :: concat (zip_with op_events (selected_operations packet) rs)
                     ++ [EvTerminal "mechanism_complete" "selected_source_case_complete"]
  ∧ Forall2 (accepted packet) (selected_operations packet) rs
  ∧ same (concat (zip_with snaps_of (selected_operations packet) rs)).
Proof.
  intros Hrun Hst. destruct (run_cases_of (start cfg w)) as (res' & s'' & Hr & x & s1 & Hb & Hx).
  rewrite Hrun in Hr. injection Hr as <- <-.
  destruct (run_body_emits ports digest make_packet cfg _ _ _ Hb) as (evs & Ht & _ & Ho). simpl in Ht.
  destruct x as [r|e].
  - destruct Hx as [-> ->]. rewrite Ht. destruct Ho as [(_ & rs & Ho)|[Hc _]]; [by exists rs|congruence].
  - destruct (r_latched s1); destruct Hx as [Hs _]; [congruence|by rewrite Hs in Hst].
Qed.

(** What was reserved was reserved by the body of the run. *)
Lemma reserved_in_body s op x s1 : run_body ports digest make_packet cfg s = (x, s1) → EvReserve op ∈ r_trace (run s).2 → EvReserve op ∈ r_trace s1.
Proof.
  intros Hb. destruct (run_cases_of s) as (res & s' & -> & x' & s1' & Hb' & Hx). rewrite Hb in Hb'. injection Hb' as <- <-. cbn [snd].
  destruct x as [r|e]; [by destruct Hx as [_ ->]|]. destruct (r_latched s1); [|by destruct Hx as [_ ->]].
  destruct Hx as (_ & -> & _). rewrite elem_of_app, list_elem_of_singleton. by intros [?|?].
Qed.

(** The body of a run that reported [unknown] had raised. *)
Lemma unknown_raised s res s' op : run s = (Ok res, s') → status res = "unknown" → EvReserve op ∈ r_trace s' →
  ∃ e s1, run_body ports digest make_packet cfg s = (Err e, s1) ∧ EvReserve op ∈ r_trace s1.
Proof.
  intros Hr Hs Hop. destruct (run_body ports digest make_packet cfg s) as [x s1] eqn:Hb.
  assert (EvReserve op ∈ r_trace s1) as Hin by (eapply reserved_in_body; [exact Hb|by rewrite Hr]).
  destruct x as [r|e]; [|by exists e, s1]. exfalso. unfold Runner.run, try in Hr. rewrite Hb in Hr. injection Hr as -> _.
  destruct (run_body_emits ports digest make_packet cfg _ _ _ Hb) as (evs & _ & _ & [[E _]|[E _]]); congruence.
Qed.

(** C29: a run that requested a reservation ends in one of two ways. Its body returned,
    and that result - complete, or closed by the declared interruption - is the run's;
    or its body raised, and then the run reports [unknown] with the cases completed
    before: it appends one terminal event, with the reason of the exception, asks the
    journal for exactly that durable downgrade as its last effect, and reports
    [terminal_ack_unknown] instead of the reason when the journal does not acknowledge
    it. It never reports [refused]. *)
Theorem run_spends_on_failure w x s1 op :
  run_body ports digest make_packet cfg (start cfg w) = (x, s1) → EvReserve op ∈ r_trace s1 →
  ∃ res s', run (start cfg w) = (Ok res, s') ∧
  match x with
  | Ok r => res = r ∧ s' = s1 ∧ status r ∈ ["mechanism_complete"; "closed_refusal"]
  | Err e =>
      let (ack, w') := j_terminal "unknown" (reason_of e) (r_world s1) in
      r_trace s' = r_trace s1 ++ [EvTerminal "unknown" (reason_of e)] ∧ r_world s' = w'
      ∧ res = mkResult "unknown" (r_completed s1) (match ack with Ok _ => reason_of e | Err _ => "terminal_ack_unknown" end)
  end.
Proof.
  intros Hb Hop. destruct x as [r|e].
  - exists r, s1. unfold Runner.run, try. rewrite Hb. split; [done|]. split_and!; [done|done|].
    destruct (run_body_emits ports digest make_packet cfg _ _ _ Hb) as (evs & _ & _ & Ho). destruct Ho as [[-> _]|[-> _]]; set_solver.
  - destruct (r_latched s1) eqn:El.
    + unfold Runner.run, try at 1. rewrite Hb. unfold on_failure, gets, bind, emit, modify, on_world, try. simpl. rewrite El. simpl.
      destruct (j_terminal "unknown" (reason_of e) (r_world s1)) as [[[]|e'] w']; by do 2 eexists.
    + exfalso. destruct (run_body_unlatched ports digest make_packet cfg _ _ _ Hb eq_refl El) as [_ [Ht|Ht]];
        rewrite Ht in Hop; simpl in Hop; set_solver.
Qed.
End Properties.

(** ** Replay, for any journal that keeps the latch promise *)

Section Replay.
Context {W : Type} `{LatchLaws W} (ports : Ports W) (digest : Packet → string).
Context (make_packet : Z → string → res Packet).

(** The other ports act outside the journal. *)
Context (Hclock : ∀ w, reserved w → reserved (clock ports w).2)
        (Hsource : ∀ w, reserved w → reserved (source_check ports w).2)
        (Hinvoke : ∀ op e w, reserved w → reserved (invoke ports op e w).2)
        (Hvreceipt : ∀ op r w, reserved w → reserved (verify_receipt ports op r w).2)
        (Hverify : ∀ sn w, reserved w → reserved (verify ports sn w).2).

Definition kept (s : RState W) : Prop := reserved (r_world s).

Lemma kept_on_world {A} (m : M W A) :
  (∀ w, reserved w → reserved (m w).2) → maintains kept (on_world m).
Proof.
  intros Hm s Hs. unfold on_world, kept in *. specialize (Hm _ Hs). by destruct (m (r_world s)).
Qed.

Lemma after_latch_kept cfg :
  maintains kept (let* f := run_cases ports digest cfg (p_deadline (cf_packet cfg)) (p_cases (cf_packet cfg)) in
                  complete ports digest cfg f).
Proof using All.
  apply (after_latch_maintains ports digest make_packet cfg kept); intros; try (by intros s Hs);
    apply kept_on_world; auto; intros w Hw; first [by apply reserve_keeps | by apply finish_keeps | by apply terminal_keeps].
Qed.

Lemma admission_kept cfg : maintains kept (admission ports digest make_packet cfg).
Proof using Hclock Hsource.
  unfold admission. apply maintains_bind; [by intros s Hs|intros _].
  apply maintains_bind; [by intros s Hs|intros _]. apply maintains_bind; [|by intros _ s Hs].
  apply check_maintains; [by apply kept_on_world..|by intros t s Hs].
Qed.

(** A run on a reserved campaign gets no further than the latch. *)
Lemma run_reserved cfg w :
  reserved w → let s' := (run ports digest make_packet cfg (start cfg w)).2 in
  reserved (r_world s') ∧ omap step_of (r_trace s') `prefix_of` [SLatch].
Proof using All.
  intros Hw s'. destruct (run_cases_of ports digest make_packet cfg (start cfg w)) as (res & s2 & Hr & x & s1 & Hb & Hx).
  unfold s'. rewrite Hr. simpl. clear s'.
  assert (reserved (r_world s1) ∧ (∃ e, x = Err e) ∧ omap step_of (r_trace s1) `prefix_of` [SLatch]) as (H1 & [e ->] & H3).
  { unfold run_body in Hb. pose proof (admission_kept cfg (start cfg w) Hw) as Ha.
    pose proof (quiet_admission ports digest make_packet cfg (start cfg w)) as Hq.
    apply bind_inv in Hb as [([] & s3 & E1 & E)|(e & s3 & E1 & [= -> ->])]; rewrite E1 in Ha, Hq; simpl in *.
    2: { split_and!; [done|eauto|]. rewrite Hq. apply prefix_nil. }
    pose proof (acquire_spec digest cfg s3) as Hacq.
    apply bind_inv in E as [([] & s4 & E2 & E)|(e & s4 & E2 & [= -> ->])]; rewrite E2 in Hacq;
      destruct Hacq as (T & _ & Hworld & Hlatch).
    - by destruct (latch_refuses _ _ _ Ha (Hlatch eq_refl)).
    - split_and!; [|eauto|by rewrite T, Hq]. rewrite Hworld. by apply latch_keeps. }
  destruct (r_latched s1).
  - destruct Hx as (_ & -> & w' & -> & ->). split; [by apply terminal_keeps|].
    by rewrite omap_app, app_nil_r.
  - by destruct Hx as [_ ->].
Qed.

(** A run that reserved anything leaves the campaign reserved. *)
Lemma run_reserves cfg w op :
  let s' := (run ports digest make_packet cfg (start cfg w)).2 in
  EvReserve op ∈ r_trace s' → reserved (r_world s').
Proof using All.
  intros s'. destruct (run_cases_of ports digest make_packet cfg (start cfg w)) as (res & s2 & Hr & x & s1 & Hb & Hx).
  unfold s'. rewrite Hr. simpl. clear s'. intros Hop.
  assert (EvReserve op ∈ r_trace s1 → reserved (r_world s1)) as H1.
  { clear -Hb H0 Hclock Hsource Hinvoke Hvreceipt Hverify. intros Hop. unfold run_body in Hb.
    pose proof (quiet_admission ports digest make_packet cfg (start cfg w)) as Hq.
    apply bind_inv in Hb as [([] & s3 & E1 & E)|(e & s3 & E1 & [= -> ->])]; rewrite E1 in Hq; simpl in *.
    2: { rewrite Hq in Hop. by apply elem_of_nil in Hop. }
    pose proof (acquire_spec digest cfg s3) as Hacq.
    apply bind_inv in E as [([] & s4 & E2 & E)|(e & s4 & E2 & [= -> ->])]; rewrite E2 in Hacq;
      destruct Hacq as (T & _ & Hworld & Hlatch).
    2: { rewrite T, Hq in Hop. simpl in Hop. by apply list_elem_of_singleton in Hop. }
    assert (kept s4) as Hk.
    { unfold kept. rewrite Hworld. specialize (Hlatch eq_refl).
      destruct (j_latch _ _ (r_world s3)) as [r w'] eqn:El. simpl in *. subst. by eapply latch_reserves. }
    pose proof (after_latch_kept cfg s4 Hk) as Hk'. by rewrite E in Hk'. }
  destruct x as [r|e]; [by destruct Hx as [_ ->]; auto|].
  destruct (r_latched s1).
  - destruct Hx as (_ & Ht & w' & -> & ->). apply terminal_keeps, H1.
    rewrite Ht, elem_of_app, list_elem_of_singleton in Hop. by destruct Hop.
  - destruct Hx as [_ ->]. auto.
Qed.

(** C9: a campaign is never replayed. Once any run has requested a reservation,
    every later run over the same journal - same or another packet, key, case or
    process - stops at the latch: it reserves, invokes and finishes nothing. *)
Theorem run_no_replay cfg1 cfg2 w op :
  let s1 := (run ports digest make_packet cfg1 (start cfg1 w)).2 in
  EvReserve op ∈ r_trace s1 →
  let s2 := (run ports digest make_packet cfg2 (start cfg2 (r_world s1))).2 in
  omap step_of (r_trace s2) `prefix_of` [SLatch] ∧ reserved (r_world s2).
Proof using All.
  intros s1 Hop s2. destruct (run_reserved cfg2 (r_world s1)) as [H1 H2]; [|done].
  by eapply run_reserves.
Qed.

End Replay.
