(* ===== verification/NativeBroker.v ===== *)
(** The durable leaf broker of probes/pmb1-finite-runner/native_journal.py: the
    admission of a finite tree of leaves, its one permanent reservation, and the
    ordered dispatch and settlement of leaves and subtrees, for any number of
    broker instances over one journal file. *)
From S2P Require Import Prelude Json JsonParse Cost Packet RunnerJournal.
Open Scope Z_scope.

(** ** Data *)

Record LeafIntent := mkLeafIntent {
  lf_ordinal : Z;
  lf_identity : string;
  lf_source_path : string;
  lf_source_pin : string;
  lf_method : string;
  lf_resource : string;
  lf_request_digest : string;
  lf_cost : option Cost;
}.

Record NativeLease := mkNativeLease {
  ls_key : string;
  ls_context_digest : string;
  ls_source_pin : string;
  ls_profile : string;
  ls_object_profile : string;
  ls_leaves : list LeafIntent;
}.

Record LeafReceipt := mkLeafReceipt {
  rc_ordinal : Z;
  rc_identity : string;
  rc_request_digest : string;
  rc_actual_cost : Cost;
  rc_evidence : string;
}.

(** The [native_leaves] and [native_attempt] rows, and the journal file. *)
Record LeafRow := mkLeafRow {
  lr_ordinal : Z;
  lr_identity : string;
  lr_intent : string;
  lr_status : string;
  lr_actual : option string;
  lr_digest : option string;
  lr_evidence : option string;
}.
Record Attempt := mkAttempt {
  at_digest : string;
  at_lease : string;
  at_reserved : string;
  at_status : string;
  at_next : Z;
  at_reason : string;
}.
Record Db := mkDb { attempt : option Attempt; leaves : list LeafRow }.

(** The file ([None] before it exists), the [_owner] of each live instance, and
    the number of connections made so far. *)
Record State := mkState {
  file : option Db;
  owners : list (nat * string);
  calls : nat;
}.

#[export] Instance LeafIntent_eq_dec : EqDecision LeafIntent.
Proof. solve_decision. Defined.
#[export] Instance NativeLease_eq_dec : EqDecision NativeLease.
Proof. solve_decision. Defined.

(** *** [dataclasses.asdict] *)

Definition leaf_json (l : LeafIntent) : json :=
  JObj [("ordinal", JInt (lf_ordinal l)); ("identity", JStr (lf_identity l)); ("source_path", JStr (lf_source_path l));
        ("source_pin", JStr (lf_source_pin l)); ("method", JStr (lf_method l)); ("resource", JStr (lf_resource l));
        ("request_digest", JStr (lf_request_digest l)); ("cost", JOpt cost_json (lf_cost l))].
Definition lease_json (l : NativeLease) : json :=
  JObj [("key", JStr (ls_key l)); ("context_digest", JStr (ls_context_digest l)); ("source_pin", JStr (ls_source_pin l));
        ("profile", JStr (ls_profile l)); ("object_profile", JStr (ls_object_profile l));
        ("leaves", JArr (map leaf_json (ls_leaves l)))].

(** ** Admission *)

(** [_text] *)
Definition text_ok (value : string) (maximum : Z) : bool :=
  (0 <? slen value) && (slen value <=? maximum) && bool_decide (value = strip value)
  && str_forall (λ c, (32 <=? code c) && (code c <? 127)) value.

(** [_cost] *)
Definition leaf_cost (cost : option Cost) : res Cost :=
  match cost with
  | None => Err (Refusal "native_unknown_or_invalid_cost")
  | Some cost =>
      cost_validate cost ;?
      let? inside := within cost RUN_LIMIT in
      refuse_if (negb inside || (1 <? requests cost) || (8 <? sql_statements cost)
                 || (65536 <? outbound_bytes cost) || (262144 <? inbound_bytes cost) || (1 <? captures cost)
                 || negb (categories cost =? requests cost)
                 || (negb (reader_queries cost =? 0) && (32768 <? outbound_bytes cost))) "native_leaf_budget" ;?
      Ok cost
  end.

(** [PurePosixPath(p).as_posix()] of a relative path *)
Definition posix_path (p : string) : string :=
  match filter (λ part, part ∉ [EmptyString; "."]) (split_on "/" p) with
  | [] => "."
  | parts => joined "/" parts
  end.
Definition path_bad (p : string) : bool :=
  mem_char "\" p || startswith "/" p || mem_char ":" p
  || existsb (λ part, str_in part [EmptyString; "."; ".."]) (split_on "/" p)
  || negb (bool_decide (posix_path p = p)).

Definition lease_binding_bad (l : NativeLease) : bool :=
  negb (text_ok (ls_key l) 128) || negb (is_digest (ls_context_digest l)) || negb (is_digest (ls_source_pin l))
  || negb (bool_decide (ls_profile l = PROFILE)) || negb (bool_decide (ls_object_profile l = OBJECT_PROFILE))
  || negb ((1 <=? Z.of_nat (length (ls_leaves l))) && (Z.of_nat (length (ls_leaves l)) <=? 2048)).

Definition leaf_binding_bad (ordinal : Z) (identities : list string) (leaf : LeafIntent) : bool :=
  negb (lf_ordinal leaf =? ordinal) || negb (text_ok (lf_identity leaf) 512) || str_in (lf_identity leaf) identities
  || negb (text_ok (lf_source_path leaf) 1024) || path_bad (lf_source_path leaf)
  || negb (is_digest (lf_source_pin leaf)) || negb (text_ok (lf_method leaf) 512)
  || negb (text_ok (lf_resource leaf) 2048) || negb (is_digest (lf_request_digest leaf)).

(** The loop variables of [_validate]. *)
Record Tree := mkTree {
  tr_ordinal : Z;
  tr_identities : list string;
  tr_actions : list (string * string);
  tr_total : Cost;
}.

(** [for action, count in (("create", ...), ("delete", ...))] *)
Definition latch_action (resource : string) (acts : list (string * string)) (ac : string * Z) : res (list (string * string)) :=
  if ac.2 =? 0 then Ok acts
  else refuse_if (bool_decide ((resource, ac.1) ∈ acts)) "native_resource_latch" ;? Ok ((resource, ac.1) :: acts).

Definition check_leaf (admission : bool) (t : Tree) (leaf : LeafIntent) : res Tree :=
  refuse_if (leaf_binding_bad (tr_ordinal t) (tr_identities t) leaf) "native_leaf_binding" ;?
  let identities := lf_identity leaf :: tr_identities t in
  if negb admission then
    match lf_cost leaf with Some c => cost_validate c | None => Ok tt end ;?
    Ok (mkTree (tr_ordinal t + 1) identities (tr_actions t) (tr_total t))
  else
    let? cost := leaf_cost (lf_cost leaf) in
    let? acts := foldR (latch_action (lf_resource leaf)) (tr_actions t) [("create", creates cost); ("delete", deletes cost)] in
    Ok (mkTree (tr_ordinal t + 1) identities acts (plus (tr_total t) cost)).

(** [_validate] up to its final loop. *)
Definition validate_tree (admission : bool) (lease : NativeLease) : res Cost :=
  refuse_if (lease_binding_bad lease) "native_lease_binding" ;?
  let? t := foldR (check_leaf admission) (mkTree 0 [] [] zero_cost) (ls_leaves lease) in
  require_within (tr_total t) RUN_LIMIT "native_tree_budget" ;?
  Ok (tr_total t).

Section Broker.
Context (sha256 : string → string).

(** [lease_digest] *)
Definition lease_digest (lease : NativeLease) : res string :=
  validate_tree false lease ;? Ok (sha256 (dumps (lease_json lease))).

(** A character repeated. *)
Fixpoint repeated (c : ascii) (n : nat) : string := match n with O => EmptyString | S m => String c (repeated c m) end.

(** The logical rows whose bytes a leaf must have reserved. *)
Definition leaf_envelope (ordinal : Z) (leaf : LeafIntent) (actual : Cost) : json :=
  JObj [("ordinal", JInt ordinal); ("identity", JStr (lf_identity leaf)); ("intent", JStr (dumps (leaf_json leaf)));
        ("status", JStr "dispatching"); ("actual", JStr (dumps (cost_json actual)));
        ("evidence_digest", JStr (repeated "f" 64));
        ("evidence", JObj [("maximum_byte_length", JInt (artifact_bytes RUN_LIMIT))])].
Definition attempt_envelope (lease : NativeLease) (digest : string) (total : Cost) : json :=
  JObj [("singleton", JInt 1); ("lease_digest", JStr digest); ("lease", JStr (dumps (lease_json lease)));
        ("reserved", JStr (dumps (cost_json total))); ("status", JStr "subtree_dispatching");
        ("next_ordinal", JInt (Z.of_nat (length (ls_leaves lease)))); ("reason", JStr (repeated "\" 128))].

Definition leaf_at (lease : NativeLease) (ordinal : Z) : option LeafIntent :=
  if ordinal <? 0 then None else ls_leaves lease !! Z.to_nat ordinal.

(** [_retained_bytes] *)
Definition retained_bytes (lease : NativeLease) (ordinal : Z) (actual total : Cost) (evidence_length : Z) : res Z :=
  match leaf_at lease ordinal with
  | None => Err (Refusal "native_retained_envelope_binding")
  | Some leaf =>
      refuse_if (negb ((0 <=? evidence_length) && (evidence_length <=? artifact_bytes RUN_LIMIT)))
        "native_retained_envelope_binding" ;?
      let size := json_len (leaf_envelope ordinal leaf actual) + evidence_length in
      if ordinal =? 0 then
        let? digest := lease_digest lease in
        Ok (size + json_len (attempt_envelope lease digest total))
      else Ok size
  end.

(** The final loop of [_validate]. *)
Definition check_envelope (lease : NativeLease) (total : Cost) (leaf : LeafIntent) : res unit :=
  let? declared := leaf_cost (lf_cost leaf) in
  let? need := retained_bytes lease (lf_ordinal leaf) declared total 0 in
  refuse_if (artifact_bytes declared <? need) "native_unreserved_artifact_envelope".

(** [_validate(lease)] *)
Definition validate_lease (lease : NativeLease) : res Cost :=
  let? total := validate_tree true lease in
  forR (check_envelope lease total) (ls_leaves lease) ;? Ok total.

(** ** Transactions *)

Context (fate : nat → SQLiteJournal.io).
Notation B := (M State).

Definition set_owner (i : nat) (o : option string) (s : State) : State :=
  mkState (file s)
    (match o with
     | Some d => (i, d) :: filter (λ x, x.1 ≠ i) (owners s)
     | None => filter (λ x, x.1 ≠ i) (owners s)
     end) (calls s).
Definition owner (i : nat) (s : State) : option string :=
  snd <$> List.find (λ x : nat * string, Nat.eqb x.1 i) (owners s).

Definition empty_file : Db := mkDb None [].

(** [_transaction()]: IMMEDIATE, committed or rolled back as a whole; every
    exception gives up the ownership, and one of SQLite becomes a refusal. *)
Definition transaction {A} (i : nat) (m : M Db A) : B A := λ s,
  let d := match file s with Some d => d | None => empty_file end in
  let s1 := mkState (file s) (owners s) (S (calls s)) in
  match fate (calls s) with
  | SQLiteJournal.FailBefore => (Err (Refusal "native_journal_unavailable_or_unknown"), set_owner i None s1)
  | SQLiteJournal.Healthy =>
      match m d with
      | (Ok a, d') => (Ok a, mkState (Some d') (owners s1) (calls s1))
      | (Err e, _) => (Err e, set_owner i None s1)
      end
  | SQLiteJournal.LostAck =>
      match m d with
      | (Ok a, d') => (Err (Refusal "native_journal_unavailable_or_unknown"),
                       set_owner i None (mkState (Some d') (owners s1) (calls s1)))
      | (Err e, _) => (Err e, set_owner i None s1)
      end
  end.

(** [SQLiteNativeBroker.__init__] on a path that does not exist, or on a journal
    this class created: a new instance owns nothing. *)
Definition open_ (i : nat) : B unit :=
  transaction i (ret tt) ;* modify (set_owner i None).

(** ** Operations *)

Definition reserve_tx (lease : NativeLease) (digest : string) (total : Cost) : M Db unit := λ d,
  match attempt d with
  | Some _ => (Err (Refusal "native_attempt_spent_no_replay"), d)
  | None =>
      (Ok tt, mkDb (Some (mkAttempt digest (dumps (lease_json lease)) (dumps (cost_json total)) "reserved" 0 EmptyString))
                (map (λ l, mkLeafRow (lf_ordinal l) (lf_identity l) (dumps (leaf_json l)) "reserved" None None None)
                   (ls_leaves lease)))
  end.

Definition reserve_tree (i : nat) (lease : NativeLease) : B unit :=
  let* total := lift (validate_lease lease) in
  let* digest := lift (lease_digest lease) in
  transaction i (reserve_tx lease digest total) ;*
  modify (set_owner i (Some digest)).

(** [_owned] *)
Definition owned (i : nat) (lease : NativeLease) : B string :=
  let* digest := lift (lease_digest lease) in
  let* o := gets (owner i) in
  if bool_decide (o = Some digest) then ret digest
  else raise (Refusal "native_attempt_not_owned_no_replay").

(** [_spend] *)
Definition spend (digest reason : string) (d : Db) : Db :=
  match attempt d with
  | Some a => if bool_decide (at_digest a = digest)
              then mkDb (Some (mkAttempt (at_digest a) (at_lease a) (at_reserved a) "unknown" (at_next a) reason)) (leaves d)
              else d
  | None => d
  end.

(** [_match] *)
Definition match_leaf (lease : NativeLease) (ordinal : Z) (identity request_digest : string) : bool :=
  match leaf_at lease ordinal with
  | Some l => bool_decide (lf_identity l = identity) && bool_decide (lf_request_digest l = request_digest)
  | None => false
  end.

(** [SELECT status,next_ordinal ... WHERE lease_digest=?] *)
Definition attempt_state (digest : string) (d : Db) : option (string * Z) :=
  match attempt d with
  | Some a => if bool_decide (at_digest a = digest) then Some (at_status a, at_next a) else None
  | None => None
  end.

(** [UPDATE native_leaves SET ... WHERE ...] and its row count. *)
Definition update_leaves (p : LeafRow → bool) (f : LeafRow → LeafRow) (d : Db) : nat * Db :=
  (length (filter (λ r, p r = true) (leaves d)),
   mkDb (attempt d) (map (λ r, if p r then f r else r) (leaves d))).
Definition with_status (st : string) (r : LeafRow) : LeafRow :=
  mkLeafRow (lr_ordinal r) (lr_identity r) (lr_intent r) st (lr_actual r) (lr_digest r) (lr_evidence r).
Definition with_receipt (actual : Cost) (evidence : string) (r : LeafRow) : LeafRow :=
  mkLeafRow (lr_ordinal r) (lr_identity r) (lr_intent r) "known" (Some (dumps (cost_json actual)))
    (Some (sha256 evidence)) (Some evidence).
Definition set_attempt (st : string) (next : option Z) (d : Db) : Db :=
  match attempt d with
  | Some a => mkDb (Some (mkAttempt (at_digest a) (at_lease a) (at_reserved a) st
                            (match next with Some n => n | None => at_next a end) (at_reason a))) (leaves d)
  | None => d
  end.

Definition is_leaf (ordinal : Z) (identity st : string) (r : LeafRow) : bool :=
  (lr_ordinal r =? ordinal) && bool_decide (lr_identity r = identity) && bool_decide (lr_status r = st).

(** The transactions answer whether the call is refused. *)
Definition begin_tx (lease : NativeLease) (digest : string) (ordinal : Z) (identity request_digest : string) :
    M Db bool := λ d,
  if negb (bool_decide (attempt_state digest d = Some ("reserved", ordinal)))
     || negb (match_leaf lease ordinal identity request_digest)
  then (Ok true, spend digest "leaf_order_or_binding" d)
  else
    let (changed, d') := update_leaves (is_leaf ordinal identity "reserved") (with_status "dispatching") d in
    if negb (Nat.eqb changed 1) then (Ok true, spend digest "leaf_dispatch_not_exact" d')
    else (Ok false, set_attempt "dispatching" None d').

Definition begin (i : nat) (lease : NativeLease) (ordinal : Z) (identity request_digest : string) : B unit :=
  let* digest := owned i lease in
  let* refused := transaction i (begin_tx lease digest ordinal identity request_digest) in
  lift (refuse_if refused "native_leaf_order_or_binding").

(** The measurement checks of [finish]; a refusal of theirs makes it invalid. *)
Definition receipt_ok (lease : NativeLease) (ordinal : Z) (identity request_digest : string) (actual_cost : Cost)
    (evidence : string) : bool :=
  match
    (let? actual := leaf_cost (Some actual_cost) in
     if negb (match_leaf lease ordinal identity request_digest) then Ok false else
     let? declared := leaf_cost (match leaf_at lease ordinal with Some l => lf_cost l | None => None end) in
     let? inside := within actual declared in
     if negb inside then Ok false else
     let? total := validate_lease lease in
     let? need := retained_bytes lease ordinal actual total (slen evidence) in
     Ok (need <=? artifact_bytes actual))
  with
  | Ok b => b
  | Err _ => false
  end.

Definition after_leaf (lease : NativeLease) (ordinal : Z) : string :=
  if ordinal + 1 =? Z.of_nat (length (ls_leaves lease)) then "complete" else "reserved".

Definition finish_tx (lease : NativeLease) (digest : string) (ordinal : Z) (identity : string) (actual_cost : Cost)
    (evidence : string) (valid : bool) : M Db bool := λ d,
  if negb (bool_decide (attempt_state digest d = Some ("dispatching", ordinal))) || negb valid
  then (Ok true, spend digest "receipt_unknown_or_overrun" d)
  else
    let (changed, d') := update_leaves (is_leaf ordinal identity "dispatching") (with_receipt actual_cost evidence) d in
    if negb (Nat.eqb changed 1) then (Ok true, spend digest "receipt_not_exact" d')
    else (Ok false, set_attempt (after_leaf lease ordinal) (Some (ordinal + 1)) d').

Definition finish (i : nat) (lease : NativeLease) (ordinal : Z) (identity request_digest : string) (actual_cost : Cost)
    (evidence : string) : B unit :=
  let* digest := owned i lease in
  let valid := receipt_ok lease ordinal identity request_digest actual_cost evidence in
  let* refused := transaction i (finish_tx lease digest ordinal identity actual_cost evidence valid) in
  lift (refuse_if refused "native_receipt_unknown_or_overrun").

(** [_interval] *)
Definition interval (lease : NativeLease) (first through : Z) : bool :=
  (0 <=? first) && (first <=? through) && (through <? Z.of_nat (length (ls_leaves lease))).

(** [_tree_state] *)
Definition tree_row (first through : Z) (active : string) (l : LeafIntent) : Z * string * string * string :=
  (lf_ordinal l, lf_identity l, dumps (leaf_json l),
   if lf_ordinal l <? first then "known" else if lf_ordinal l <=? through then active else "reserved").
Definition row_key (r : LeafRow) : Z * string * string * string := (lr_ordinal r, lr_identity r, lr_intent r, lr_status r).
Definition tree_state (lease : NativeLease) (first through : Z) (active : string) (d : Db) : bool :=
  bool_decide (map row_key (leaves d) = map (tree_row first through active) (ls_leaves lease)).

Definition begin_subtree_tx (lease : NativeLease) (digest : string) (first through : Z) (identity request_digest : string) :
    M Db bool := λ d,
  if interval lease first through && match_leaf lease first identity request_digest
     && bool_decide (attempt_state digest d = Some ("reserved", first)) && tree_state lease first through "reserved" d
  then
    let (changed, d') := update_leaves
      (λ r, (first <=? lr_ordinal r) && (lr_ordinal r <=? through) && bool_decide (lr_status r = "reserved"))
      (with_status "dispatching") d in
    if negb (Z.of_nat changed =? through - first + 1) then (Ok true, spend digest "subtree_dispatch_not_exact" d')
    else (Ok false, set_attempt "subtree_dispatching" None d')
  else (Ok true, spend digest "subtree_order_or_binding" d).

Definition begin_subtree (i : nat) (lease : NativeLease) (first through : Z) (identity request_digest : string) : B unit :=
  let* digest := owned i lease in
  let* refused := transaction i (begin_subtree_tx lease digest first through identity request_digest) in
  lift (refuse_if refused "native_subtree_order_or_binding").

(** The observation loop of [finish_subtree]: all ordered and measured. *)
Fixpoint observations_ok (lease : NativeLease) (ordinal : Z) (l : list LeafReceipt) : bool :=
  match l with
  | [] => true
  | r :: l' =>
      (rc_ordinal r =? ordinal)
      && receipt_ok lease ordinal (rc_identity r) (rc_request_digest r) (rc_actual_cost r) (rc_evidence r)
      && observations_ok lease (ordinal + 1) l'
  end.

Definition subtree_valid (lease : NativeLease) (first through : Z) (observations : list LeafReceipt) : bool :=
  interval lease first through && (Z.of_nat (length observations) =? through - first + 1)
  && match validate_lease lease with Ok _ => true | Err _ => false end
  && observations_ok lease first observations.

(** The savepoint loop: [None] when a row count is not one. *)
Fixpoint settle_all (l : list LeafReceipt) (d : Db) : option Db :=
  match l with
  | [] => Some d
  | r :: l' =>
      let (changed, d') := update_leaves (is_leaf (rc_ordinal r) (rc_identity r) "dispatching")
                             (with_receipt (rc_actual_cost r) (rc_evidence r)) d in
      if Nat.eqb changed 1 then settle_all l' d' else None
  end.

Definition finish_subtree_tx (lease : NativeLease) (digest : string) (first through : Z)
    (observations : list LeafReceipt) (valid : bool) : M Db bool := λ d,
  if negb valid || negb (bool_decide (attempt_state digest d = Some ("subtree_dispatching", first)))
     || negb (tree_state lease first through "dispatching" d)
  then (Ok true, spend digest "subtree_receipt_unknown_or_overrun" d)
  else match settle_all observations d with
       | None => (Ok true, spend digest "subtree_receipt_not_exact" d)
       | Some d' => (Ok false, set_attempt (after_leaf lease through) (Some (through + 1)) d')
       end.

Definition finish_subtree (i : nat) (lease : NativeLease) (first through : Z) (observations : list LeafReceipt) : B unit :=
  let* digest := owned i lease in
  let valid := subtree_valid lease first through observations in
  let* refused := transaction i (finish_subtree_tx lease digest first through observations valid) in
  lift (refuse_if refused "native_subtree_receipt_unknown_or_overrun").

Definition mark_unknown (i : nat) (lease : NativeLease) (reason : string) : B unit :=
  lift (refuse_if (negb (text_ok reason 128)) "native_unknown_reason") ;*
  let* digest := owned i lease in
  transaction i (λ d, (Ok tt, spend digest "caller_reported_unknown" d)).

(** [observe], read only: the parsed rows. *)
Definition loads_opt (o : option string) : res json :=
  match o with
  | Some t => if empty_str t then Ok JNull else
              match loads t with Ok j => Ok j | Err _ => Err (Refusal "native_observation_unavailable") end
  | None => Ok JNull
  end.
Definition observe_leaf (r : LeafRow) : res json :=
  let? actual := loads_opt (lr_actual r) in
  Ok (JObj [("ordinal", JInt (lr_ordinal r)); ("identity", JStr (lr_identity r)); ("status", JStr (lr_status r));
            ("actual", actual); ("evidence_digest", JOpt JStr (lr_digest r))]).
Definition observe : B json := λ s,
  let s1 := mkState (file s) (owners s) (S (calls s)) in
  match fate (calls s), file s with
  | SQLiteJournal.Healthy, Some d =>
      ((let? reserved := loads_opt (at_reserved <$> attempt d) in
        let? rows := mapR observe_leaf (leaves d) in
        Ok (JObj [("status", JStr (match attempt d with Some a => at_status a | None => "unreserved" end));
                  ("next_ordinal", JInt (match attempt d with Some a => at_next a | None => 0 end));
                  ("reserved", reserved); ("leaves", JArr rows)])), s1)
  | _, _ => (Err (Refusal "native_observation_unavailable"), s1)
  end.

(** [close] *)
Definition close (i : nat) : B unit := modify (set_owner i None).
End Broker.
