(* ===== verification/NativeBrokerFacts.v ===== *)
(** What the leaf broker guarantees over any history of calls by any instances:
    an admitted tree is bounded, its rows are always a known prefix, a
    dispatching interval and a reserved rest, each leaf is dispatched at most
    once and in order, and an unknown attempt stays spent. *)
From S2P Require Import Prelude Json JsonParse Cost Packet RunnerJournal NativeBroker.
Open Scope Z_scope.

(** ** Specification vocabulary *)

Definition leaf_latches (l : LeafIntent) : list (string * string) :=
  match lf_cost l with
  | Some c => (if creates c =? 0 then [] else [(lf_resource l, "create")])
              ++ (if deletes c =? 0 then [] else [(lf_resource l, "delete")])
  | None => []
  end.

(** An admitted leaf: one bounded request. *)
Definition leaf_bounded (c : Cost) : Prop :=
  cost_le zero_cost c ∧ cost_le c RUN_LIMIT ∧ categories c = requests c ∧ requests c <= 1
  ∧ sql_statements c <= 8 ∧ outbound_bytes c <= 65536 ∧ inbound_bytes c <= 262144.

(** What [_validate] establishes of a tree with total [total]. *)
Record admitted (lease : NativeLease) (total : Cost) : Prop := {
  ad_ordinals : map lf_ordinal (ls_leaves lease) = seqZ 0 (Z.of_nat (length (ls_leaves lease)));
  ad_identities : NoDup (map lf_identity (ls_leaves lease));
  ad_costs : Forall (λ l, ∃ c, lf_cost l = Some c ∧ leaf_bounded c) (ls_leaves lease);
  ad_total : total = cost_sum (omap lf_cost (ls_leaves lease));
  ad_budget : cost_le total RUN_LIMIT;
  ad_latches : NoDup (concat (map leaf_latches (ls_leaves lease)));
  ad_size : 1 <= Z.of_nat (length (ls_leaves lease)) <= 2048;
}.

(** ** Lemmas: admission *)

Lemma leaf_cost_ok o c : leaf_cost o = Ok c → o = Some c ∧ leaf_bounded c.
Proof.
  unfold leaf_cost. destruct o as [c'|]; [|done]. intros H. inv_check. inv_bool. split; [done|].
  match goal with H : cost_validate _ = Ok _ |- _ => apply cost_validate_ok in H end.
  destruct a; [|done]. match goal with H : within _ _ = Ok true |- _ => apply within_true in H as (_ & _ & ?) end.
  unfold leaf_bounded. split_and!; done || lia.
Qed.

Lemma latch_action_ok r acts ac acts' :
  latch_action r acts ac = Ok acts' → NoDup acts →
  acts' = (if ac.2 =? 0 then [] else [(r, ac.1)]) ++ acts ∧ NoDup acts'.
Proof.
  unfold latch_action. intros H Hn. destruct (ac.2 =? 0); [by injection H as <-|]. inv_check. inv_bool.
  split; [done|]. by constructor.
Qed.

Record sweep (pre : list LeafIntent) (t : Tree) : Prop := {
  sw_ordinal : tr_ordinal t = Z.of_nat (length pre);
  sw_ordinals : map lf_ordinal pre = seqZ 0 (Z.of_nat (length pre));
  sw_identities : tr_identities t = rev (map lf_identity pre);
  sw_nodup : NoDup (tr_identities t);
  sw_costs : Forall (λ l, ∃ c, lf_cost l = Some c ∧ leaf_bounded c) pre;
  sw_total : tr_total t = cost_sum (omap lf_cost pre);
  sw_actions : tr_actions t ≡ₚ concat (map leaf_latches pre);
  sw_latches : NoDup (tr_actions t);
}.

Lemma check_leaf_sweep pre t leaf t' :
  sweep pre t → check_leaf true t leaf = Ok t' → sweep (pre ++ [leaf]) t'.
Proof.
  intros [W1 W2 W3 W4 W5 W6 W7 W8] H. unfold check_leaf in H. cbn [negb] in H. inv_check.
  match goal with H : leaf_binding_bad _ _ _ = false |- _ => unfold leaf_binding_bad in H end.
  unfold str_in in *. inv_bool.
  match goal with H : leaf_cost _ = Ok _ |- _ => apply leaf_cost_ok in H as [Hc Hb] end.
  match goal with H : foldR _ _ _ = Ok _ |- _ => cbn [foldR] in H end. inv_check.
  repeat match goal with H : latch_action _ _ _ = Ok _ |- _ => apply latch_action_ok in H as [-> ?]; [|done] end.
  split; cbn [tr_ordinal tr_identities tr_actions tr_total]; rewrite ?length_app; cbn [length].
  - lia.
  - rewrite map_app, W2, Nat2Z.inj_add, seqZ_app by lia. f_equal. unfold seqZ. simpl. f_equal. lia.
  - rewrite map_app, rev_app_distr, W3. done.
  - by constructor.
  - apply Forall_app. split; [done|]. constructor; [|done]. eauto.
  - rewrite omap_app, cost_sum_app, W6. cbn [omap list_omap]. rewrite Hc. simpl. rewrite cost_sum_cons. by rewrite plus_zero_r.
  - rewrite map_app, concat_app, <- W7. cbn [map concat]. rewrite app_nil_r. unfold leaf_latches. rewrite Hc.
    cbn [snd fst]. rewrite (Permutation_app_comm (tr_actions t)), <- app_assoc.
    destruct (creates a =? 0), (deletes a =? 0); simpl; solve_Permutation.
  - done.
Qed.

Lemma sweep_nil : sweep [] (mkTree 0 [] [] zero_cost).
Proof. split; try done; constructor. Qed.

Lemma validate_tree_admitted lease total : validate_tree true lease = Ok total → admitted lease total.
Proof.
  unfold validate_tree. intros H. inv_check.
  match goal with H : foldR _ _ _ = Ok ?t |- _ =>
    pose proof (foldR_ind (check_leaf true) sweep (ls_leaves lease) [] _ _ sweep_nil
      (λ pre x b b' Hp _, check_leaf_sweep pre b x b' Hp) H) as [W1 W2 W3 W4 W5 W6 W7 W8] end.
  simpl app in *. unfold require_within in *. inv_check.
  match goal with H : within _ _ = Ok ?b, H' : ?b = true |- _ => rewrite H' in H; apply within_true in H as (_ & _ & ?) end.
  match goal with H : lease_binding_bad _ = false |- _ => unfold lease_binding_bad in H; inv_bool end.
  split; try done.
  - apply NoDup_rev_inv. by rewrite <- W3.
  - by rewrite <- W7.
Qed.

Lemma omap_cons_eq {A B} (f : A → option B) x l :
  omap f (x :: l) = match f x with Some y => y :: omap f l | None => omap f l end.
Proof. done. Qed.


Section Facts.
Context (sha256 : string → string) (fate : nat → SQLiteJournal.io).

Lemma validate_lease_admitted lease total : validate_lease sha256 lease = Ok total → admitted lease total.
Proof. unfold validate_lease. intros H. inv_check. by apply validate_tree_admitted. Qed.

Lemma leaf_at_ordinal lease total l :
  admitted lease total → l ∈ ls_leaves lease → leaf_at lease (lf_ordinal l) = Some l ∧ 0 <= lf_ordinal l < Z.of_nat (length (ls_leaves lease)).
Proof.
  intros [Ho _ _ _ _ _ _] Hl. apply list_elem_of_lookup in Hl as [i Hi].
  assert (lf_ordinal l = Z.of_nat i) as E.
  { assert (map lf_ordinal (ls_leaves lease) !! i = Some (lf_ordinal l)) as Hm by (by rewrite list_lookup_fmap, Hi).
    rewrite Ho in Hm. apply lookup_seqZ in Hm. lia. }
  apply lookup_lt_Some in Hi as Hlt. unfold leaf_at. rewrite E, (proj2 (Z.ltb_ge _ _)), Nat2Z.id by lia. split; [done|lia].
Qed.

Lemma leaf_at_in lease o l : leaf_at lease o = Some l → l ∈ ls_leaves lease.
Proof. unfold leaf_at. destruct (o <? 0); [done|]. apply list_elem_of_lookup_2. Qed.

(** ** The shape of a reserved tree *)

Definition leaf_count (lease : NativeLease) : Z := Z.of_nat (length (ls_leaves lease)).

(** The first [k] leaves are known, the next [m] dispatching, the rest reserved. *)
Definition status_at (k m o : Z) : string :=
  if o <? k then "known" else if o <? k + m then "dispatching" else "reserved".

(** A known row keeps one measured receipt within what its leaf declared. *)
Definition settled (l : LeafIntent) (r : LeafRow) : Prop :=
  ∃ declared actual evidence,
    lf_cost l = Some declared ∧ leaf_bounded actual ∧ cost_le actual declared
    ∧ lr_actual r = Some (dumps (cost_json actual)) ∧ lr_digest r = Some (sha256 evidence)
    ∧ lr_evidence r = Some evidence ∧ slen evidence <= artifact_bytes actual.

Definition row_shows (k m : Z) (l : LeafIntent) (r : LeafRow) : Prop :=
  row_key r = (lf_ordinal l, lf_identity l, dumps (leaf_json l), status_at k m (lf_ordinal l))
  ∧ (lf_ordinal l < k → settled l r).

Definition status_fits (lease : NativeLease) (st : string) (k m : Z) : Prop :=
  (st = "reserved" ∧ m = 0 ∧ k < leaf_count lease) ∨ (st = "dispatching" ∧ m = 1)
  ∨ (st = "subtree_dispatching" ∧ 1 <= m) ∨ (st = "complete" ∧ m = 0 ∧ k = leaf_count lease) ∨ st = "unknown".

(** The rows of [lease] reserved under [digest] with [k] known and [m] dispatching. *)
Record shape (lease : NativeLease) (digest : string) (total : Cost) (k m : Z) (d : Db) : Prop := {
  sh_attempt : ∃ st reason, attempt d = Some (mkAttempt digest (dumps (lease_json lease)) (dumps (cost_json total)) st k reason)
               ∧ status_fits lease st k m;
  sh_bounds : 0 <= k ∧ 0 <= m ∧ k + m <= leaf_count lease;
  sh_rows : Forall2 (row_shows k m) (ls_leaves lease) (leaves d);
}.

(** ** Lemmas: rows *)

Lemma Forall2_change {A B C} (P : A → B → Prop) (Q : A → C → Prop) (f : B → C) l1 l2 :
  Forall2 P l1 l2 → (∀ x y, x ∈ l1 → P x y → Q x (f y)) → Forall2 Q l1 (map f l2).
Proof.
  induction 1 as [|x y l1 l2 H _ IH]; intros Hf; constructor; [apply Hf; [by left|done]|].
  apply IH. intros; apply Hf; [by right|done].
Qed.

Lemma seqZ_count a b n : 0 <= a → a <= b + 1 → b < n →
  Z.of_nat (length (filter (λ o, a ≤ o ∧ o ≤ b) (seqZ 0 n))) = b - a + 1.
Proof.
  intros Ha Hab Hb. replace n with (a + ((b - a + 1) + (n - b - 1))) by lia.
  rewrite !seqZ_app, !filter_app, !length_app by lia.
  rewrite (filter_none _ (seqZ 0 a)), (filter_none _ (seqZ (0 + a + (b - a + 1)) _))
    by (intros x Hx%elem_of_seqZ; lia).
  rewrite filter_all by (intros x Hx%elem_of_seqZ; lia).
  rewrite length_seqZ. simpl. lia.
Qed.

Lemma count_rows lease total k m rows p a b :
  admitted lease total → Forall2 (row_shows k m) (ls_leaves lease) rows →
  (∀ l r, l ∈ ls_leaves lease → row_shows k m l r → p r = bool_decide (a ≤ lf_ordinal l ∧ lf_ordinal l ≤ b)) →
  0 <= a → a <= b + 1 → b < leaf_count lease →
  Z.of_nat (length (filter (λ r, p r = true) rows)) = b - a + 1.
Proof.
  intros Had Hrows Hp Ha Hab Hb. rewrite <- (seqZ_count a b (leaf_count lease)) by done.
  unfold leaf_count. rewrite <- (ad_ordinals _ _ Had). f_equal. clear Had Ha Hab Hb.
  induction Hrows as [|l r ls rs Hlr Hrows IH]; [done|]. cbn [map]. rewrite !filter_cons.
  specialize (Hp l r ltac:(by left) Hlr) as Hpr. specialize (IH ltac:(intros; apply Hp; [by right|done])).
  destruct (p r), (bool_decide_reflect (a ≤ lf_ordinal l ∧ lf_ordinal l ≤ b)); try done;
    repeat case_decide; simpl; try done; by rewrite IH.
Qed.

Lemma row_shows_fields k m l r :
  row_shows k m l r → lr_ordinal r = lf_ordinal l ∧ lr_identity r = lf_identity l
  ∧ lr_status r = status_at k m (lf_ordinal l).
Proof. intros [[= -> -> _ ->] _]. done. Qed.

Lemma status_at_cases k m o :
  0 <= m → (o < k ∧ status_at k m o = "known") ∨ (k <= o < k + m ∧ status_at k m o = "dispatching")
           ∨ (k + m <= o ∧ status_at k m o = "reserved").
Proof.
  intros Hm. unfold status_at. destruct (Z.ltb_spec o k); [by left|]. destruct (Z.ltb_spec o (k + m)); right; [left|right]; done.
Qed.

(** The row of one leaf among the rows of a shape. *)
Lemma is_leaf_row lease total k m o l st l' r :
  admitted lease total → leaf_at lease o = Some l → status_at k m o = st →
  l' ∈ ls_leaves lease → row_shows k m l' r →
  is_leaf o (lf_identity l) st r = bool_decide (o ≤ lf_ordinal l' ∧ lf_ordinal l' ≤ o).
Proof.
  intros Had Hl Hst Hin Hr. apply row_shows_fields in Hr as (E1 & E2 & E3). unfold is_leaf. rewrite E1, E2, E3.
  destruct (Z.eqb_spec (lf_ordinal l') o) as [Ho|Ho].
  - destruct (leaf_at_ordinal lease total l' Had Hin) as [Hat _]. rewrite Ho, Hl in Hat. injection Hat as <-.
    rewrite Ho, Hst, !bool_decide_eq_true_2 by (done || lia). done.
  - rewrite (bool_decide_eq_false_2 (o ≤ lf_ordinal l' ∧ lf_ordinal l' ≤ o)) by lia. done.
Qed.

Lemma dispatch_rows lease total k m rows p :
  admitted lease total → Forall2 (row_shows k 0) (ls_leaves lease) rows → 0 <= k → 1 <= m → k + m <= leaf_count lease →
  (∀ l r, l ∈ ls_leaves lease → row_shows k 0 l r → p r = bool_decide (k ≤ lf_ordinal l ∧ lf_ordinal l ≤ k + m - 1)) →
  Z.of_nat (length (filter (λ r, p r = true) rows)) = m
  ∧ Forall2 (row_shows k m) (ls_leaves lease) (map (λ r, if p r then with_status "dispatching" r else r) rows).
Proof.
  intros Had Hrows Hk Hm Hn Hp. split.
  - rewrite (count_rows lease total k 0 rows p k (k + m - 1)) by (done || lia). lia.
  - eapply Forall2_change; [exact Hrows|]. intros l r Hin Hr. cbn beta. rewrite (Hp l r Hin Hr).
    destruct Hr as [Hkey Hset]. unfold row_shows. case_bool_decide as Hb.
    + split; [|lia]. unfold row_key, with_status in *. cbn in *. injection Hkey as -> -> -> Hst. f_equal.
      destruct (status_at_cases k m (lf_ordinal l)) as [[? _]|[[_ ->]|[? _]]]; lia || done.
    + split; [|done]. rewrite Hkey. f_equal.
      destruct (status_at_cases k 0 (lf_ordinal l)) as [[? ->]|[[? ->]|[? ->]]]; try lia;
      destruct (status_at_cases k m (lf_ordinal l)) as [[? ->]|[[? ->]|[? ->]]]; done || lia.
Qed.

Lemma settle_rows lease total k m rows l c e :
  admitted lease total → Forall2 (row_shows k m) (ls_leaves lease) rows → 0 <= k → 1 <= m → k + m <= leaf_count lease →
  leaf_at lease k = Some l → settled l (with_receipt sha256 c e (mkLeafRow 0 "" "" "" None None None)) →
  length (filter (λ r, is_leaf k (lf_identity l) "dispatching" r = true) rows) = 1%nat
  ∧ Forall2 (row_shows (k + 1) (m - 1)) (ls_leaves lease)
      (map (λ r, if is_leaf k (lf_identity l) "dispatching" r then with_receipt sha256 c e r else r) rows).
Proof.
  intros Had Hrows Hk Hm Hn Hl Hset.
  assert (status_at k m k = "dispatching") as Hst.
  { destruct (status_at_cases k m k) as [[? _]|[[_ ->]|[? _]]]; lia || done. }
  assert (∀ l' r, l' ∈ ls_leaves lease → row_shows k m l' r →
    is_leaf k (lf_identity l) "dispatching" r = bool_decide (k ≤ lf_ordinal l' ∧ lf_ordinal l' ≤ k)) as Hp
    by (intros; by eapply is_leaf_row).
  split.
  - pose proof (count_rows lease total k m rows _ k k Had Hrows Hp). lia.
  - eapply Forall2_change; [exact Hrows|]. intros l' r Hin Hr. cbn beta. rewrite (Hp l' r Hin Hr).
    destruct Hr as [Hkey Hs]. unfold row_shows. case_bool_decide as Hb.
    + assert (l' = l) as ->.
      { destruct (leaf_at_ordinal lease total l' Had Hin) as [Hat _]. replace (lf_ordinal l') with k in Hat by lia. congruence. }
      split.
      * unfold row_key, with_receipt in *. cbn in *. injection Hkey as -> -> -> _. f_equal.
        destruct (status_at_cases (k + 1) (m - 1) (lf_ordinal l)) as [[_ ->]|[[? _]|[? _]]]; lia || done.
      * intros _. exact Hset.
    + split; [|intros; apply Hs; lia]. rewrite Hkey. f_equal.
      destruct (status_at_cases k m (lf_ordinal l')) as [[? ->]|[[? ->]|[? ->]]]; try lia;
      destruct (status_at_cases (k + 1) (m - 1) (lf_ordinal l')) as [[? ->]|[[? ->]|[? ->]]]; done || lia.
Qed.

(** What a valid receipt says. *)
Lemma receipt_ok_facts lease o id rd c e :
  receipt_ok sha256 lease o id rd c e = true →
  ∃ l, leaf_at lease o = Some l ∧ lf_identity l = id
       ∧ settled l (with_receipt sha256 c e (mkLeafRow 0 "" "" "" None None None)).
Proof.
  unfold receipt_ok. destruct (let? actual := leaf_cost (Some c) in _) as [b|] eqn:E; [|done]. intros ->.
  inv_check. match goal with H : leaf_cost (Some c) = Ok _ |- _ => apply leaf_cost_ok in H as [[= <-] Hb1] end.
  destruct (match_leaf lease o id rd) eqn:Em; cbn [negb] in Hb; [|done]. inv_check.
  unfold match_leaf in Em. destruct (leaf_at lease o) as [l|] eqn:El; [|done]. inv_bool.
  match goal with H : leaf_cost _ = Ok _ |- _ => apply leaf_cost_ok in H as [Hd _] end.
  match goal with H : within _ _ = Ok ?x |- _ => destruct x; [apply within_true in H as (_ & _ & Hle)|by cbn in *] end.
  cbn [negb] in *. inv_check. exists l. split; [done|]. split; [done|].
  exists a, c, e. split_and!; try done. inv_bool.
  match goal with H : retained_bytes _ _ _ _ _ _ = Ok _ |- _ =>
    unfold retained_bytes in H; rewrite El in H; inv_check end.
  match goal with H : (if _ =? 0 then _ else _) = Ok ?x, H' : ?x <= artifact_bytes c |- _ =>
    clear - H H'; assert (slen e <= x); [|lia] end.
  pose proof (json_len_nonneg (leaf_envelope o l c)).
  destruct (o =? 0); inv_check; [|lia].
  match goal with |- context [json_len (attempt_envelope ?a ?b ?c)] => pose proof (json_len_nonneg (attempt_envelope a b c)) end. lia.
Qed.

(** ** The transactions of an owned attempt *)

Inductive act :=
| ABegin (ordinal : Z) (identity request_digest : string)
| AFinish (ordinal : Z) (identity request_digest : string) (actual : Cost) (evidence : string)
| ABeginSubtree (first through : Z) (identity request_digest : string)
| AFinishSubtree (first through : Z) (observations : list LeafReceipt)
| AMark (reason : string).

(** The ordinals a call dispatches. *)
Definition dispatches (a : act) : list Z :=
  match a with
  | ABegin o _ _ => [o]
  | ABeginSubtree f t _ _ => seqZ f (t - f + 1)
  | _ => []
  end.

Definition act_tx (lease : NativeLease) (digest : string) (a : act) : M Db bool :=
  match a with
  | ABegin o id rd => begin_tx lease digest o id rd
  | AFinish o id rd c e => finish_tx sha256 lease digest o id c e (receipt_ok sha256 lease o id rd c e)
  | ABeginSubtree f t id rd => begin_subtree_tx lease digest f t id rd
  | AFinishSubtree f t obs => finish_subtree_tx sha256 lease digest f t obs (subtree_valid sha256 lease f t obs)
  | AMark _ => λ d, (Ok false, spend digest "caller_reported_unknown" d)
  end.

Lemma spend_shape lease dg total k m reason d :
  shape lease dg total k m d → shape lease dg total k m (spend dg reason d).
Proof.
  intros [(st & why & Ha & _) Hb Hr]. unfold spend. rewrite Ha. cbn [at_digest]. rewrite bool_decide_eq_true_2 by done.
  split; [|done|done]. do 2 eexists. split; [done|]. unfold status_fits. tauto.
Qed.

Lemma set_attempt_shape lease dg total k m k' m' st next d rows :
  shape lease dg total k m d → status_fits lease st k' m' →
  match next with Some n => n | None => k end = k' → 0 <= k' → 0 <= m' → k' + m' <= leaf_count lease →
  Forall2 (row_shows k' m') (ls_leaves lease) rows →
  shape lease dg total k' m' (set_attempt st next (mkDb (attempt d) rows)).
Proof.
  intros [(st0 & why & Ha & _) _ _] Hst Hn H1 H2 H3 Hr. unfold set_attempt. cbn [attempt leaves]. rewrite Ha.
  split; [|done|done]. cbn [attempt at_digest at_lease at_reserved at_next at_reason].
  exists st, why. rewrite Hn. done.
Qed.

Lemma attempt_state_shape lease dg total k m d st o :
  shape lease dg total k m d → attempt_state dg d = Some (st, o) → o = k ∧ status_fits lease st k m.
Proof.
  intros [(st0 & why & Ha & Hf) _ _]. unfold attempt_state. rewrite Ha. cbn [at_digest at_status at_next].
  rewrite bool_decide_eq_true_2 by done. by intros [= <- <-].
Qed.

Lemma match_leaf_at lease o id rd : match_leaf lease o id rd = true → ∃ l, leaf_at lease o = Some l ∧ lf_identity l = id.
Proof. unfold match_leaf. destruct (leaf_at lease o) as [l|]; [|done]. intros H. inv_bool. eauto. Qed.

Lemma after_leaf_fits lease o : 0 <= o → o + 1 <= leaf_count lease → status_fits lease (after_leaf lease o) (o + 1) 0.
Proof.
  intros Ho Hn. unfold after_leaf, status_fits, leaf_count in *. destruct (Z.eqb_spec (o + 1) (Z.of_nat (length (ls_leaves lease)))).
  - right. right. right. left. split_and!; lia || done.
  - left. split_and!; lia || done.
Qed.

(** A refused call only spends; an accepted one moves the shape. *)
Definition moved (lease : NativeLease) (dg : string) (total : Cost) (k m : Z) (a : act) (refused : bool) (d' : Db) : Prop :=
  ∃ k' m', shape lease dg total k' m' d'
  ∧ (if refused then k' + m' = k + m else k' + m' = k + m + Z.of_nat (length (dispatches a))
       ∧ (dispatches a = [] ∨ dispatches a = seqZ (k + m) (Z.of_nat (length (dispatches a))))).

Lemma moved_spend lease dg total k m a reason d :
  shape lease dg total k m d → moved lease dg total k m a true (spend dg reason d).
Proof. intros H. exists k, m. split; [by apply spend_shape|done]. Qed.

Lemma begin_moved lease dg total k m d o id rd refused d' :
  admitted lease total → shape lease dg total k m d → begin_tx lease dg o id rd d = (Ok refused, d') →
  moved lease dg total k m (ABegin o id rd) refused d'.
Proof.
  intros Had Hs. unfold begin_tx. destruct (negb _ || negb _) eqn:E; [intros [= <- <-]; by apply moved_spend|].
  inv_bool. match goal with H : attempt_state _ _ = _ |- _ => destruct (attempt_state_shape _ _ _ _ _ _ _ _ Hs H) as [-> Hf] end.
  destruct Hf as [(_ & -> & Hk)|[[? _]|[[? _]|[[? _]|?]]]]; try done.
  match goal with H : match_leaf _ _ _ _ = true |- _ => destruct (match_leaf_at _ _ _ _ H) as (l & Hl & <-) end.
  pose proof Hs as [Ha (Hk0 & _) Hr].
  destruct (dispatch_rows lease total k 1 (leaves d) (is_leaf k (lf_identity l) "reserved") Had Hr) as [Hc Hr']; [lia..| |].
  { intros l' r Hin Hr'. rewrite (is_leaf_row lease total k 0 k l "reserved" l' r Had Hl); [|by destruct (status_at_cases k 0 k) as [[? _]|[[? _]|[? ->]]]; lia || done|done|done].
    apply bool_decide_ext. lia. }
  unfold update_leaves. destruct (Nat.eqb_spec (length (filter (λ r, is_leaf k (lf_identity l) "reserved" r = true) (leaves d))) 1) as [_|Hne]; [|lia].
  cbn [negb]. intros [= <- <-]. exists k, 1. split; [|cbn [dispatches length]; split; [lia|right; unfold seqZ; simpl; f_equal; lia]].
  eapply set_attempt_shape; [exact Hs|right; left; done|done|lia..|done].
Qed.

Lemma finish_moved lease dg total k m d o id rd c e refused d' :
  admitted lease total → shape lease dg total k m d →
  finish_tx sha256 lease dg o id c e (receipt_ok sha256 lease o id rd c e) d = (Ok refused, d') →
  moved lease dg total k m (AFinish o id rd c e) refused d'.
Proof.
  intros Had Hs. unfold finish_tx. destruct (negb _ || negb _) eqn:E; [intros [= <- <-]; by apply moved_spend|].
  inv_bool. match goal with H : attempt_state _ _ = _ |- _ => destruct (attempt_state_shape _ _ _ _ _ _ _ _ Hs H) as [-> Hf] end.
  destruct Hf as [[? _]|[(_ & ->)|[[? _]|[[? _]|?]]]]; try done.
  match goal with H : receipt_ok _ _ _ _ _ _ _ = true |- _ => destruct (receipt_ok_facts _ _ _ _ _ _ H) as (l & Hl & <- & Hset) end.
  pose proof Hs as [Ha (Hk0 & _ & Hn) Hr].
  destruct (settle_rows lease total k 1 (leaves d) l c e Had Hr) as [Hc Hr']; [lia..|done|done|].
  unfold update_leaves. rewrite Hc. cbn [Nat.eqb negb]. intros [= <- <-]. exists (k + 1), 0.
  split; [|cbn [dispatches length]; split; [lia|by left]].
  eapply set_attempt_shape; [exact Hs|by apply after_leaf_fits|done|lia..|exact Hr'].
Qed.

Lemma begin_subtree_moved lease dg total k m d f t id rd refused d' :
  admitted lease total → shape lease dg total k m d → begin_subtree_tx lease dg f t id rd d = (Ok refused, d') →
  moved lease dg total k m (ABeginSubtree f t id rd) refused d'.
Proof.
  intros Had Hs. unfold begin_subtree_tx. destruct (_ && _ && _ && _) eqn:E; [|intros [= <- <-]; by apply moved_spend].
  unfold interval in E. inv_bool.
  match goal with H : attempt_state _ _ = _ |- _ => destruct (attempt_state_shape _ _ _ _ _ _ _ _ Hs H) as [-> Hf] end.
  destruct Hf as [(_ & -> & Hk)|[[? _]|[[? _]|[[? _]|?]]]]; try done.
  pose proof Hs as [Ha (Hk0 & _) Hr].
  match goal with |- context [update_leaves ?p _ _] => set (q := p) end.
  destruct (dispatch_rows lease total k (t - k + 1) (leaves d) q Had Hr) as [Hc Hr']; [lia|lia|unfold leaf_count; lia| |].
  { intros l r Hin Hrow. unfold q. apply row_shows_fields in Hrow as (-> & _ & ->).
    destruct (status_at_cases k 0 (lf_ordinal l)) as [[? ->]|[[? _]|[? ->]]]; [lia| |lia|].
    - rewrite !bool_decide_eq_false_2 by (done || lia). by rewrite andb_false_r.
    - rewrite bool_decide_eq_true_2, andb_true_r by done.
      rewrite (bool_decide_ext _ (k <= lf_ordinal l ∧ lf_ordinal l <= t)) by lia.
      symmetry. apply eq_true_iff_eq. rewrite bool_decide_eq_true, andb_true_iff, !Z.leb_le. done. }
  unfold update_leaves. rewrite Hc, Z.eqb_refl. cbn [negb]. intros [= <- <-]. exists k, (t - k + 1).
  split; [|cbn [dispatches]; rewrite length_seqZ; split; [lia|right; f_equal; lia]].
  eapply set_attempt_shape; [exact Hs|right; right; left; split; [done|lia]|done|lia|lia|unfold leaf_count; lia|exact Hr'].
Qed.

Lemma leaf_of_ordinal lease total o :
  admitted lease total → 0 <= o < leaf_count lease → ∃ l, l ∈ ls_leaves lease ∧ lf_ordinal l = o.
Proof.
  intros [Ho _ _ _ _ _ _] Hb. assert (o ∈ map lf_ordinal (ls_leaves lease)) as Hin by (rewrite Ho; by apply elem_of_seqZ).
  apply list_elem_of_fmap in Hin as (l & -> & Hl). eauto.
Qed.

Lemma tree_state_extent lease total k m t d :
  admitted lease total → Forall2 (row_shows k m) (ls_leaves lease) (leaves d) → 0 <= k → 1 <= m → k + m <= leaf_count lease →
  k <= t < leaf_count lease → tree_state lease k t "dispatching" d = true → m = t - k + 1.
Proof.
  intros Had Hr Hk Hm Hn Ht Hts. unfold tree_state in Hts. inv_bool.
  assert (∀ l, l ∈ ls_leaves lease → status_at k m (lf_ordinal l)
    = if lf_ordinal l <? k then "known" else if lf_ordinal l <=? t then "dispatching" else "reserved") as Hst.
  { revert Hts. clear -Hr. induction Hr as [|l r ls rs [Hkey _] _ IH]; [intros _ l Hl; by apply elem_of_nil in Hl|].
    cbn [map]. intros Hm. pose proof (f_equal head Hm) as H1. pose proof (f_equal tail Hm) as H2.
    cbn [head tail] in H1, H2. apply (inj Some) in H1. intros l' [->|Hl']%elem_of_cons; [|by apply IH].
    rewrite Hkey in H1. unfold tree_row in H1. by injection H1. }
  destruct (leaf_of_ordinal lease total t Had) as (l & Hl & Eo); [lia|]. specialize (Hst l Hl) as H1. rewrite Eo in H1.
  destruct (leaf_of_ordinal lease total (k + m - 1) Had) as (l' & Hl' & Eo'); [lia|]. specialize (Hst l' Hl') as H2. rewrite Eo' in H2.
  rewrite (proj2 (Z.ltb_ge t k)), (proj2 (Z.leb_le t t)) in H1 by lia. rewrite (proj2 (Z.ltb_ge (k + m - 1) k)) in H2 by lia.
  destruct (status_at_cases k m t) as [[? E]|[[? E]|[? E]]]; try lia; rewrite E in H1; try done.
  destruct (status_at_cases k m (k + m - 1)) as [[? E']|[[? E']|[? E']]]; try lia.
  rewrite E' in H2. destruct (Z.leb_spec (k + m - 1) t); [lia|done].
Qed.

Lemma settle_all_rows lease total obs k d :
  admitted lease total → Forall2 (row_shows k (Z.of_nat (length obs))) (ls_leaves lease) (leaves d) → 0 <= k →
  k + Z.of_nat (length obs) <= leaf_count lease → observations_ok sha256 lease k obs = true →
  ∃ rows, settle_all sha256 obs d = Some (mkDb (attempt d) rows)
  ∧ Forall2 (row_shows (k + Z.of_nat (length obs)) 0) (ls_leaves lease) rows.
Proof.
  intros Had. revert k d. induction obs as [|x obs IH]; intros k d Hr Hk Hn Ho.
  - cbn [length] in *. exists (leaves d). split; [by destruct d|]. by rewrite Z.add_0_r.
  - cbn [observations_ok length settle_all] in *. inv_bool.
    match goal with H : receipt_ok _ _ _ _ _ _ _ = true |- _ => destruct (receipt_ok_facts _ _ _ _ _ _ H) as (l & Hl & Hid & Hset) end.
    match goal with H : rc_ordinal x = k |- _ => rewrite H end. rewrite <- Hid.
    destruct (settle_rows lease total k (Z.of_nat (S (length obs))) (leaves d) l (rc_actual_cost x) (rc_evidence x) Had Hr)
      as [Hc Hr']; [lia..|done|done|].
    unfold update_leaves. rewrite Hc. cbn [Nat.eqb].
    destruct (IH (k + 1) (mkDb (attempt d) (map (λ r, if is_leaf k (lf_identity l) "dispatching" r
        then with_receipt sha256 (rc_actual_cost x) (rc_evidence x) r else r) (leaves d)))) as (rows & Hs & Hrows); [|lia|lia|done|].
    + cbn [leaves]. replace (Z.of_nat (length obs)) with (Z.of_nat (S (length obs)) - 1) by lia. exact Hr'.
    + exists rows. cbn [attempt] in Hs. split; [exact Hs|].
      replace (k + Z.of_nat (S (length obs))) with (k + 1 + Z.of_nat (length obs)) by lia. done.
Qed.

Lemma finish_subtree_moved lease dg total k m d f t obs refused d' :
  admitted lease total → shape lease dg total k m d →
  finish_subtree_tx sha256 lease dg f t obs (subtree_valid sha256 lease f t obs) d = (Ok refused, d') →
  moved lease dg total k m (AFinishSubtree f t obs) refused d'.
Proof.
  intros Had Hs. unfold finish_subtree_tx. destruct (negb _ || _ || _) eqn:E; [intros [= <- <-]; by apply moved_spend|].
  unfold subtree_valid, interval in E. inv_bool.
  match goal with H : attempt_state _ _ = _ |- _ => destruct (attempt_state_shape _ _ _ _ _ _ _ _ Hs H) as [-> Hf] end.
  destruct Hf as [[? _]|[[? _]|[(_ & Hm)|[[? _]|?]]]]; try done.
  pose proof Hs as [Ha (Hk0 & _ & Hn) Hr].
  assert (m = t - k + 1) as -> by (eapply (tree_state_extent lease total); try done; unfold leaf_count; lia).
  destruct (settle_all_rows lease total obs k d Had) as (rows & Hsettle & Hrows).
  { by match goal with H : Z.of_nat (length obs) = _ |- _ => rewrite H end. }
  { lia. } { lia. } { done. }
  rewrite Hsettle. intros [= <- <-]. exists (t + 1), 0.
  split; [|cbn [dispatches length]; split; [lia|by left]].
  eapply set_attempt_shape; [exact Hs|apply after_leaf_fits; lia|done|lia|lia|lia|].
  replace (t + 1) with (k + Z.of_nat (length obs)) by lia. exact Hrows.
Qed.

(** Every transaction of an owned attempt keeps its shape. *)
Lemma act_moved lease dg total k m d a refused d' :
  admitted lease total → shape lease dg total k m d → act_tx lease dg a d = (Ok refused, d') →
  moved lease dg total k m a refused d'.
Proof.
  intros Had Hs H. destruct a; simpl in H.
  - by eapply begin_moved.
  - by eapply finish_moved.
  - by eapply begin_subtree_moved.
  - by eapply finish_subtree_moved.
  - injection H as <- <-. exists k, m. split; [by apply spend_shape|]. simpl. split; [lia|by left].
Qed.

(** ** Histories of calls by any instances *)

Inductive call :=
| COpen (i : nat)
| CReserve (i : nat) (lease : NativeLease)
| CAct (i : nat) (lease : NativeLease) (a : act)
| CClose (i : nat).

Definition run_call (c : call) : M State unit :=
  match c with
  | COpen i => open_ fate i
  | CReserve i lease => reserve_tree sha256 fate i lease
  | CAct i lease (ABegin o id rd) => begin sha256 fate i lease o id rd
  | CAct i lease (AFinish o id rd c e) => finish sha256 fate i lease o id rd c e
  | CAct i lease (ABeginSubtree f t id rd) => begin_subtree sha256 fate i lease f t id rd
  | CAct i lease (AFinishSubtree f t obs) => finish_subtree sha256 fate i lease f t obs
  | CAct i lease (AMark reason) => mark_unknown sha256 fate i lease reason
  | CClose i => close i
  end.

Definition call_dispatches (c : call) : list Z := match c with CAct _ _ a => dispatches a | _ => [] end.
Definition is_reserve (c : call) : bool := match c with CReserve _ _ => true | _ => false end.
Definition lease_of (c : call) : option NativeLease :=
  match c with CReserve _ l | CAct _ l _ => Some l | _ => None end.

Fixpoint after (h : list call) (s : State) : State :=
  match h with [] => s | c :: h' => after h' (run_call c s).2 end.
(** The calls that answered without raising. *)
Fixpoint acknowledged (h : list call) (s : State) : list call :=
  match h with
  | [] => []
  | c :: h' => match run_call c s with
               | (Ok _, s') => c :: acknowledged h' s'
               | (Err _, s') => acknowledged h' s'
               end
  end.

(** No two of these leases share a digest. *)
Definition binds (L : list NativeLease) : Prop :=
  ∀ a b d, a ∈ L → b ∈ L → lease_digest sha256 a = Ok d → lease_digest sha256 b = Ok d → a = b.

Definition db_of (s : State) : Db := match file s with Some d => d | None => empty_file end.
Definition fresh : State := mkState None [] 0.

(** The file and the owners a call leaves, by what its transaction did. *)
Definition drop (i : nat) (l : list (nat * string)) : list (nat * string) := filter (λ x, x.1 ≠ i) l.

Lemma transaction_cases {A} i (m : M Db A) s r s' :
  transaction fate i m s = (r, s') →
  (db_of s' = db_of s ∧ owners s' = drop i (owners s) ∧ ∀ a, r ≠ Ok a)
  ∨ (∃ a, m (db_of s) = (Ok a, db_of s') ∧ (r = Ok a ∧ owners s' = owners s ∨ (∀ a, r ≠ Ok a) ∧ owners s' = drop i (owners s))).
Proof.
  unfold transaction, db_of. fold (db_of s). destruct (fate (calls s)), (m (db_of s)) as [[a|e] d] eqn:E; intros [= <- <-]; cbn;
    first [left; split_and!; done | right; exists a; split; [done|first [by left|by right]]].
Qed.

Lemma owned_cases i lease s r s1 :
  owned sha256 i lease s = (r, s1) →
  s1 = s ∧ match r with Ok dg => lease_digest sha256 lease = Ok dg ∧ owner i s = Some dg | Err _ => True end.
Proof.
  unfold owned, bind, lift, gets, ret, raise. destruct (lease_digest sha256 lease) as [dg|e]; [|by intros [= <- <-]].
  case_bool_decide; by intros [= <- <-].
Qed.

(** The shape of every call on an owned attempt. *)
Lemma act_cases i lease a s r s' :
  run_call (CAct i lease a) s = (r, s') →
  (s' = s ∧ r ≠ Ok tt) ∨
  ∃ dg, lease_digest sha256 lease = Ok dg ∧ owner i s = Some dg ∧
    ((db_of s' = db_of s ∧ owners s' = drop i (owners s) ∧ r ≠ Ok tt)
     ∨ ∃ refused, act_tx lease dg a (db_of s) = (Ok refused, db_of s')
         ∧ ((r = Ok tt ∧ refused = false ∧ owners s' = owners s)
            ∨ (r ≠ Ok tt ∧ refused = true ∧ owners s' = owners s)
            ∨ (r ≠ Ok tt ∧ owners s' = drop i (owners s)))).
Proof.
  assert (∀ label (tx : string → M Db bool), (∀ dg, tx dg = act_tx lease dg a) →
    (let* digest := owned sha256 i lease in let* refused := transaction fate i (tx digest) in lift (refuse_if refused label)) s = (r, s') →
    (s' = s ∧ r ≠ Ok tt) ∨ ∃ dg, lease_digest sha256 lease = Ok dg ∧ owner i s = Some dg ∧
    ((db_of s' = db_of s ∧ owners s' = drop i (owners s) ∧ r ≠ Ok tt)
     ∨ ∃ refused, act_tx lease dg a (db_of s) = (Ok refused, db_of s')
         ∧ ((r = Ok tt ∧ refused = false ∧ owners s' = owners s) ∨ (r ≠ Ok tt ∧ refused = true ∧ owners s' = owners s)
            ∨ (r ≠ Ok tt ∧ owners s' = drop i (owners s))))) as Hgen.
  { intros label tx Htx H. apply bind_inv in H as [(dg & s1 & E & H)|(e & s1 & E & [= -> ->])].
    2: { apply owned_cases in E as [-> _]. left. done. }
    apply owned_cases in E as [-> [Hd Ho]]. right. exists dg. split; [done|]. split; [done|].
    apply bind_inv in H as [(x & s2 & E & H)|(e & s2 & E & [= -> ->])]; apply transaction_cases in E as [(H1 & H2 & H3)|(y & H1 & [[H2 H3]|[H2 H3]])].
    - by destruct (H3 x).
    - injection H2 as <-. unfold lift in H. injection H as <- <-. right. exists x. rewrite <- Htx. split; [done|].
      destruct x; simpl; [right; left|left]; done.
    - by destruct (H2 x).
    - left. done.
    - done.
    - right. exists y. rewrite <- Htx. split; [done|]. right. right. done. }
  destruct a as [o id rd|o id rd c e|f t id rd|f t obs|reason]; cbn [run_call].
  - apply Hgen. done.
  - apply Hgen. done.
  - apply Hgen. done.
  - apply Hgen. done.
  - intros H. unfold mark_unknown in H. apply bind_inv in H as [(u & s0 & E & H)|(e & s1 & E & [= -> ->])];
      unfold lift in E; injection E as E <-; [|left; done].
    apply bind_inv in H as [(dg & s1 & E1 & H)|(e & s1 & E1 & [= -> ->])].
    2: { apply owned_cases in E1 as [-> _]. left. done. }
    apply owned_cases in E1 as [-> [Hd Ho]]. right. exists dg. split; [done|]. split; [done|].
    apply transaction_cases in H as [(H1 & H2 & H3)|(y & H1 & [[H2 H3]|[H2 H3]])].
    + left. split_and!; [done|done|apply H3].
    + right. exists false. injection H1 as <- H1. cbn [act_tx]. rewrite <- H1. split; [done|]. left. done.
    + right. exists false. injection H1 as _ H1. cbn [act_tx]. rewrite <- H1. split; [done|]. right. right. split; [apply H2|done].
Qed.

(** Before any reservation; and after one, with the dispatches acknowledged so
    far: the owner, if any is left, has been told of every one. *)
Definition unreserved (s : State) : Prop := attempt (db_of s) = None ∧ owners s = [].
Record reserved_state (L : list NativeLease) (s : State) (acks : list Z) lease dg total k m c : Prop := {
  rs_lease : lease ∈ L;
  rs_valid : validate_lease sha256 lease = Ok total;
  rs_digest : lease_digest sha256 lease = Ok dg;
  rs_shape : shape lease dg total k m (db_of s);
  rs_acks : acks = seqZ 0 c;
  rs_count : 0 <= c <= k + m;
  rs_owner : owners s = [] ∨ ∃ i, owners s = [(i, dg)] ∧ c = k + m;
}.
Definition consistent (L : list NativeLease) (s : State) (acks : list Z) : Prop :=
  (unreserved s ∧ acks = []) ∨ ∃ lease dg total k m c, reserved_state L s acks lease dg total k m c.

Lemma drop_single i j (d : string) : drop i [(j, d)] = if Nat.eqb j i then [] else [(j, d)].
Proof. unfold drop. rewrite filter_cons. simpl. destruct (Nat.eqb_spec j i); case_decide; done. Qed.

Lemma owner_single i j d dg : owner i (mkState None [(j, d)] 0) = Some dg → j = i ∧ d = dg.
Proof. unfold owner. simpl. destruct (Nat.eqb_spec j i); [|done]. by intros [= <-]. Qed.

Lemma owner_owners i s s' : owners s = owners s' → owner i s = owner i s'.
Proof. unfold owner. by intros ->. Qed.

(** Losing an owner, with the same rows, keeps consistency. *)
Lemma consistent_drop L s s' acks i :
  db_of s' = db_of s → owners s' = drop i (owners s) ∨ owners s' = owners s → consistent L s acks → consistent L s' acks.
Proof.
  intros Hd Ho [[[Ha Hown] ->]|(lease & dg & total & k & m & c & [H1 H2 H3 H4 H5 H6 H7])].
  - left. split; [|done]. split; [by rewrite Hd|]. rewrite Hown in Ho. by destruct Ho as [->| ->].
  - right. exists lease, dg, total, k, m, c. split; [done|done|done|by rewrite Hd|done|done|].
    destruct Ho as [-> | ->], H7 as [->|(j & -> & ->)]; [by left| |by left|right; eauto].
    rewrite drop_single. destruct (Nat.eqb j i); [by left|right; eauto].
Qed.

Lemma reserve_shape lease dg total d d' :
  validate_lease sha256 lease = Ok total → reserve_tx lease dg total d = (Ok tt, d') →
  attempt d = None ∧ shape lease dg total 0 0 d'.
Proof.
  intros Hv. pose proof (validate_lease_admitted _ _ Hv) as Had. unfold reserve_tx.
  destruct (attempt d); [done|]. intros [= <-]. split; [done|]. split.
  - do 2 eexists. split; [done|]. left. pose proof (ad_size _ _ Had). unfold leaf_count. split_and!; done || lia.
  - unfold leaf_count. lia.
  - cbn [leaves]. assert (∀ l, l ∈ ls_leaves lease → 0 <= lf_ordinal l) as Hpos by (intros l Hl; by destruct (leaf_at_ordinal _ _ _ Had Hl) as [_ ?]; lia).
    clear Hv Had. revert Hpos. induction (ls_leaves lease) as [|l ls IH]; intros Hpos; constructor.
    + assert (0 <= lf_ordinal l) as Hl by (apply Hpos; left). split; [|lia]. unfold row_key. cbn. f_equal.
      destruct (status_at_cases 0 0 (lf_ordinal l)) as [[? _]|[[? _]|[_ ->]]]; lia || done.
    + apply IH. intros; apply Hpos; by right.
Qed.

Lemma seqZ_extend c n : 0 <= c → 0 <= n → seqZ 0 c ++ seqZ c n = seqZ 0 (c + n).
Proof. intros. by rewrite seqZ_app by lia. Qed.

Lemma consistent_step L s acks c r s' :
  binds L → (∀ l, lease_of c = Some l → l ∈ L) → consistent L s acks → run_call c s = (r, s') →
  consistent L s' (acks ++ match r with Ok _ => call_dispatches c | Err _ => [] end).
Proof.
  intros HL Hin Hs H. destruct c as [i|i lease|i lease a|i].
  - cbn [call_dispatches]. assert (acks ++ match r with Ok _ => [] | Err _ => [] end = acks) as -> by (destruct r; apply app_nil_r).
    unfold run_call, open_ in H. apply bind_inv in H as [(u & s1 & E & H)|(e & s1 & E & [= -> ->])].
    + unfold modify in H. injection H as _ <-.
      apply transaction_cases in E as [(H1 & H2 & _)|(y & H1 & [[_ H2]|[_ H2]])].
      * eapply (consistent_drop L s1 _ _ i); [done|by left|]. eapply (consistent_drop _ _ _ _ i); [exact H1|by left|done].
      * eapply (consistent_drop L s1 _ _ i); [done|by left|]. injection H1 as _ H1. eapply (consistent_drop _ _ _ _ i); [by rewrite H1|by right|done].
      * eapply (consistent_drop L s1 _ _ i); [done|by left|]. injection H1 as _ H1. eapply (consistent_drop _ _ _ _ i); [by rewrite H1|by left|done].
    + apply transaction_cases in E as [(H1 & H2 & _)|(y & H1 & [[? _]|[_ H2]])]; [|done|].
      * eapply (consistent_drop _ _ _ _ i); [exact H1|by left|done].
      * injection H1 as _ H1. eapply (consistent_drop _ _ _ _ i); [by rewrite H1|by left|done].
  - cbn [call_dispatches]. assert (acks ++ match r with Ok _ => [] | Err _ => [] end = acks) as -> by (destruct r; apply app_nil_r).
    unfold run_call, reserve_tree in H. apply bind_inv in H as [(total & s1 & E & H)|(e & s1 & E & [= -> ->])];
      unfold lift in E; injection E as Ev <-; [|done].
    apply bind_inv in H as [(dg & s1 & E & H)|(e & s1 & E & [= -> ->])]; unfold lift in E; injection E as Ed <-; [|done].
    assert (∀ s1 y, reserve_tx lease dg total (db_of s) = (Ok y, db_of s1) →
      acks = [] ∧ owners s = [] ∧ shape lease dg total 0 0 (db_of s1)) as Hnew.
    { intros s1 [] H1. destruct (reserve_shape _ _ _ _ _ Ev H1) as [Hnone Hsh].
      destruct Hs as [[[_ Hown] ->]|(? & ? & ? & ? & ? & ? & [_ _ _ [(st & why & Ha & _) _ _] _ _ _])]; [done|congruence]. }
    apply bind_inv in H as [(u & s1 & E & H)|(e & s1 & E & [= -> ->])];
      apply transaction_cases in E as [(H1 & H2 & H3)|(y & H1 & [[H2 H3]|[H2 H3]])]; try done; try by destruct (H3 u).
    + unfold modify in H. injection H as _ <-. destruct (Hnew _ _ H1) as (-> & Hown & Hsh). right.
      exists lease, dg, total, 0, 0, 0. split; [by apply Hin|done|done|exact Hsh|done|lia|].
      right. exists i. unfold set_owner. cbn [owners]. by rewrite H3, Hown.
    + by destruct (H2 u).
    + eapply (consistent_drop _ _ _ _ i); [exact H1|by left|done].
    + destruct (Hnew _ _ H1) as (-> & Hown & Hsh). right. exists lease, dg, total, 0, 0, 0.
      split; [by apply Hin|done|done|exact Hsh|done|lia|]. left. by rewrite H3, Hown.
  - apply act_cases in H as [[-> Hr]|(dg & Hd & Hown & H)].
    { destruct r as [[]|e]; [done|]. by rewrite app_nil_r. }
    destruct Hs as [[[_ Hnone] _]|(lease' & dg' & total & k & m & c & R)].
    { unfold owner in Hown. by rewrite Hnone in Hown. }
    pose proof R as [H1 H2 H3 H4 H5 H6 [H7|(j & H7 & Hc)]].
    { unfold owner in Hown. by rewrite H7 in Hown. }
    assert (j = i ∧ dg' = dg) as [-> ->]. { rewrite (owner_owners i s (mkState None [(j, dg')] 0) H7) in Hown. by apply owner_single. }
    assert (lease' = lease) as -> by (eapply HL; [done|by apply Hin|done|done]).
    pose proof (validate_lease_admitted _ _ H2) as Had.
    destruct H as [(D1 & D2 & D3)|(refused & Htx & Hout)].
    { destruct r as [[]|e]; [done|]. rewrite app_nil_r.
      eapply (consistent_drop _ _ _ _ i); [exact D1|by left|]. right. by exists lease, dg, total, k, m, c. }
    destruct (act_moved _ _ _ _ _ _ _ _ _ Had H4 Htx) as (k' & m' & Hsh & Hcount). right.
    destruct Hout as [(-> & -> & Hw)|[(Hr & -> & Hw)|(Hr & Hw)]].
    + destruct Hcount as [Hc' Hd'].
      exists lease, dg, total, k', m', (c + Z.of_nat (length (dispatches a))). split; [done|done|done|exact Hsh| |lia|].
      * rewrite H5. cbn [call_dispatches]. destruct Hd' as [->| ->]; [by rewrite app_nil_r, Z.add_0_r|].
        rewrite length_seqZ, Z2Nat.id by lia. rewrite <- Hc. apply seqZ_extend; lia.
      * right. exists i. rewrite Hw. split; [done|lia].
    + destruct r as [[]|e]; [done|]. rewrite app_nil_r. exists lease, dg, total, k', m', c.
      split; [done|done|done|exact Hsh|done|lia|]. right. exists i. rewrite Hw. split; [done|lia].
    + destruct r as [[]|e]; [done|]. rewrite app_nil_r. exists lease, dg, total, k', m', c.
      split; [done|done|done|exact Hsh|done| |].
      * destruct refused; lia.
      * left. by rewrite Hw, H7, drop_single, Nat.eqb_refl.
  - cbn in H. injection H as <- <-. cbn [call_dispatches]. rewrite app_nil_r.
    eapply (consistent_drop L s _ _ i); [done|by left|done].
Qed.

(** *** The attempt row is never removed, and unknown stays unknown *)

Definition attempt_status (s : State) : option string := at_status <$> attempt (db_of s).

Lemma spend_status dg reason d : at_status <$> attempt (spend dg reason d) = at_status <$> attempt d
  ∨ at_status <$> attempt (spend dg reason d) = Some "unknown".
Proof. unfold spend. destruct (attempt d) as [a|] eqn:E; [|left; by rewrite E]. case_bool_decide; [by right|left; by rewrite E]. Qed.

Lemma spend_some dg reason d : is_Some (attempt d) → is_Some (attempt (spend dg reason d)).
Proof. intros [a E]. unfold spend. rewrite E. case_bool_decide; [done|by rewrite E]. Qed.

Lemma set_attempt_some st n d : is_Some (attempt d) → is_Some (attempt (set_attempt st n d)).
Proof. intros [a E]. unfold set_attempt. by rewrite E. Qed.

Lemma settle_all_attempt l d d' : settle_all sha256 l d = Some d' → attempt d' = attempt d.
Proof.
  revert d. induction l as [|r l IH]; intros d; simpl; [by intros [= ->]|].
  destruct (Nat.eqb _ 1); [|done]. intros H. by apply IH in H.
Qed.

(** A transaction that is not refused found the status it needs. *)
Lemma act_status lease dg a d refused d' :
  act_tx lease dg a d = (Ok refused, d') →
  (is_Some (attempt d) → is_Some (attempt d'))
  ∧ (at_status <$> attempt d = Some "unknown" →
     at_status <$> attempt d' = Some "unknown" ∧ (refused = false → ∃ why, a = AMark why)).
Proof.
  assert (∀ reason, (is_Some (attempt d) → is_Some (attempt (spend dg reason d)))
    ∧ (at_status <$> attempt d = Some "unknown" → at_status <$> attempt (spend dg reason d) = Some "unknown")) as Hspend.
  { intros reason. split; [apply spend_some|]. intros H. destruct (spend_status dg reason d) as [->|?]; done. }
  assert (∀ st o, attempt_state dg d = Some (st, o) → at_status <$> attempt d = Some "unknown" → st = "unknown") as Hst.
  { intros st o. unfold attempt_state. destruct (attempt d) as [x|]; [|done]. case_bool_decide; [|done]. intros [= <- _] [= ->]. done. }
  intros H. destruct a; simpl in H.
  - unfold begin_tx in H. destruct (negb _ || negb _) eqn:E; [injection H as <- <-; destruct (Hspend "leaf_order_or_binding"); split; [done|by intros; split; auto]|].
    inv_bool. unfold update_leaves in H. split.
    + intros Ha. destruct (negb _); injection H as <- <-; [by apply spend_some|by apply set_attempt_some].
    + intros Hu. match goal with H : attempt_state _ _ = _ |- _ => by specialize (Hst _ _ H Hu) end.
  - unfold finish_tx in H. destruct (negb _ || negb _) eqn:E; [injection H as <- <-; destruct (Hspend "receipt_unknown_or_overrun"); split; [done|by intros; split; auto]|].
    inv_bool. unfold update_leaves in H. split.
    + intros Ha. destruct (negb _); injection H as <- <-; [by apply spend_some|by apply set_attempt_some].
    + intros Hu. match goal with H : attempt_state _ _ = _ |- _ => by specialize (Hst _ _ H Hu) end.
  - unfold begin_subtree_tx in H. destruct (_ && _ && _ && _) eqn:E; [|injection H as <- <-; destruct (Hspend "subtree_order_or_binding"); split; [done|by intros; split; auto]].
    inv_bool. unfold update_leaves in H. split.
    + intros Ha. destruct (negb _); injection H as <- <-; [by apply spend_some|by apply set_attempt_some].
    + intros Hu. match goal with H : attempt_state _ _ = _ |- _ => by specialize (Hst _ _ H Hu) end.
  - unfold finish_subtree_tx in H. destruct (negb _ || _ || _) eqn:E; [injection H as <- <-; destruct (Hspend "subtree_receipt_unknown_or_overrun"); split; [done|by intros; split; auto]|].
    inv_bool. split.
    + intros Ha. destruct (settle_all _ _ _) as [d1|] eqn:E1; injection H as <- <-; [|by apply spend_some].
      apply set_attempt_some. by rewrite (settle_all_attempt _ _ _ E1).
    + intros Hu. match goal with H : attempt_state _ _ = _ |- _ => by specialize (Hst _ _ H Hu) end.
  - injection H as <- <-. destruct (Hspend "caller_reported_unknown") as [H1 H2]. split; [done|]. intros Hu. split; [auto|eauto].
Qed.

(** What a call does to the attempt row. *)
Lemma attempt_step c s r s' :
  run_call c s = (r, s') →
  (is_Some (attempt (db_of s)) → is_Some (attempt (db_of s')) ∧ (is_reserve c = true → r ≠ Ok tt))
  ∧ (is_reserve c = true → r = Ok tt → is_Some (attempt (db_of s')))
  ∧ (attempt_status s = Some "unknown" →
     attempt_status s' = Some "unknown" ∧ (r = Ok tt → ∀ i l a, c = CAct i l a → ∃ why, a = AMark why)).
Proof.
  unfold attempt_status. intros H. destruct c as [i|i lease|i lease a|i].
  - unfold run_call, open_ in H. assert (db_of s' = db_of s) as ->; [|done].
    apply bind_inv in H as [(u & s1 & E & H)|(e & s1 & E & [= -> ->])].
    + unfold modify in H. injection H as _ <-. change (db_of s1 = db_of s).
      apply transaction_cases in E as [(H1 & _)|(y & H1 & _)]; [done|]. by injection H1 as _ H1.
    + apply transaction_cases in E as [(H1 & _)|(y & H1 & _)]; [done|]. by injection H1 as _ H1.
  - unfold run_call, reserve_tree in H. apply bind_inv in H as [(total & s1 & E & H)|(e & s1 & E & [= -> ->])];
      unfold lift in E; injection E as _ <-; [|done].
    apply bind_inv in H as [(dg & s1 & E & H)|(e & s1 & E & [= -> ->])]; unfold lift in E; injection E as _ <-; [|done].
    apply bind_inv in H as [(u & s1 & E & H)|(e & s1 & E & [= -> ->])];
      apply transaction_cases in E as [(H1 & H2 & H3)|(y & H1 & [[H2 H3]|[H2 H3]])]; try done; try by destruct (H3 u).
    + unfold modify in H. injection H as <- <-. change (db_of (set_owner i (Some dg) s1)) with (db_of s1).
      unfold reserve_tx in H1. destruct (attempt (db_of s)) eqn:Ea; [done|]. injection H1 as _ H1. rewrite <- H1. cbn.
      split_and!; [by intros [? ?]|done|done].
    + by destruct (H2 u).
    + rewrite H1. done.
    + unfold reserve_tx in H1. destruct (attempt (db_of s)) eqn:Ea; [done|]. injection H1 as _ H1. rewrite <- H1. cbn.
      split_and!; [by intros [? ?]|done|done].
  - apply act_cases in H as [[-> Hr]|(dg & _ & _ & [(H1 & _ & Hr)|(refused & Htx & Hout)])].
    + split_and!; [done|done|]. by intros ->.
    + rewrite H1. done.
    + apply act_status in Htx as [T1 T2]. split_and!; [by intros ?; split; [auto|]|done|].
      intros Hu. destruct (T2 Hu) as [T3 T4]. split; [done|]. intros Hr i' l' a' [= <- <- <-].
      destruct Hout as [(_ & Hf & _)|[(? & _)|(? & _)]]; [by apply T4|done|done].
  - cbn in H. injection H as <- <-. done.
Qed.

(** ** Properties *)

Lemma consistent_history L h s acks :
  binds L → (∀ l, l ∈ omap lease_of h → l ∈ L) → consistent L s acks →
  consistent L (after h s) (acks ++ concat (map call_dispatches (acknowledged h s))).
Proof.
  intros HL. revert s acks. induction h as [|c h IH]; intros s acks Hin Hs; simpl; [by rewrite app_nil_r|].
  destruct (run_call c s) as [r s'] eqn:E.
  assert (∀ l, lease_of c = Some l → l ∈ L) as Hc.
  { intros l Hl. apply Hin. rewrite omap_cons_eq, Hl. by left. }
  assert (∀ l, l ∈ omap lease_of h → l ∈ L) as Hin'.
  { intros l Hl. apply Hin. rewrite omap_cons_eq. destruct (lease_of c); [by right|done]. }
  pose proof (consistent_step _ _ _ _ _ _ HL Hc Hs E) as Hs'. simpl.
  destruct r as [[]|e]; simpl; [|rewrite app_nil_r in Hs'; by apply IH].
  rewrite app_assoc. by apply IH.
Qed.

Lemma acknowledged_reserves h s :
  (length (filter (λ c, is_reserve c = true) (acknowledged h s)) ≤ if attempt (db_of s) then 0 else 1)%nat.
Proof.
  revert s. induction h as [|c h IH]; intros s; simpl; [lia|].
  destruct (run_call c s) as [r s'] eqn:E. specialize (IH s').
  destruct (attempt_step _ _ _ _ E) as (T1 & T2 & _).
  assert ((length (filter (λ c, is_reserve c = true) (acknowledged h s')) ≤ if attempt (db_of s) then 0 else 1)%nat) as Hle.
  { destruct (attempt (db_of s)), (attempt (db_of s')); try lia. by destruct T1 as [[? ?] _]. }
  destruct r as [[]|e]; [|done]. rewrite filter_cons. destruct (decide (is_reserve c = true)) as [Hr|Hr]; [|done].
  destruct (T2 Hr eq_refl) as [x Hx]. rewrite Hx in IH. simpl.
  destruct (attempt (db_of s)); [|lia]. destruct T1 as [_ T1]; [done|]. by destruct (T1 Hr).
Qed.

Lemma consistent_fresh L : consistent L fresh [].
Proof. left. done. Qed.

(** C25: over any history of calls, by any instances, whatever connections fail or
    lose their acknowledgment: at most one reservation is ever acknowledged, and
    the leaves whose dispatch was acknowledged are exactly 0, 1, 2, ... in this
    order, each once: no leaf is ever dispatched again, skipped or overtaken. *)
Theorem broker_no_replay h :
  binds (omap lease_of h) →
  let a := acknowledged h fresh in
  (length (filter (λ c, is_reserve c = true) a) ≤ 1)%nat
  ∧ concat (map call_dispatches a) = seqZ 0 (Z.of_nat (length (concat (map call_dispatches a)))).
Proof.
  intros Hb a. split; [apply (acknowledged_reserves h fresh)|].
  pose proof (consistent_history _ h fresh [] Hb (λ l H, H) (consistent_fresh _)) as Hc. simpl in Hc. fold a in Hc.
  destruct Hc as [[_ ->]|(? & ? & ? & ? & ? & c & [_ _ _ _ -> Hc _])]; [done|].
  rewrite length_seqZ, Z2Nat.id; [done|lia].
Qed.

(** at every moment the journal holds the reserved tree leaf by leaf: a known
    prefix, then the dispatching leaves, then the reserved rest, under a fitting
    attempt status; the known leaves keep measured receipts whose sum is within
    the admitted total, and the total within [RUN_LIMIT]. *)
Theorem broker_state h a :
  binds (omap lease_of h) → attempt (db_of (after h fresh)) = Some a →
  ∃ lease total k m actuals,
    admitted lease total ∧ at_next a = k ∧ status_fits lease (at_status a) k m
    ∧ map row_key (leaves (db_of (after h fresh)))
      = map (λ l, (lf_ordinal l, lf_identity l, dumps (leaf_json l), status_at k m (lf_ordinal l))) (ls_leaves lease)
    ∧ Forall2 (λ r c, lr_actual r = Some (dumps (cost_json c)) ∧ is_Some (lr_evidence r))
        (take (Z.to_nat k) (leaves (db_of (after h fresh)))) actuals
    ∧ cost_le (cost_sum actuals) total ∧ cost_le total RUN_LIMIT.
Proof.
  intros Hb Ha.
  pose proof (consistent_history _ h fresh [] Hb (λ l H, H) (consistent_fresh _)) as Hc.
  destruct Hc as [[[Hn _] _]|(lease & dg & total & k & m & c & [_ Hv _ [(st & why & Ha' & Hf) (Hk & Hm & Hn) Hr] _ _ _])]; [congruence|].
  rewrite Ha in Ha'. injection Ha' as ->. pose proof (validate_lease_admitted _ _ Hv) as Had.
  assert (∃ actuals, Forall2 (λ r c, lr_actual r = Some (dumps (cost_json c)) ∧ is_Some (lr_evidence r))
        (take (Z.to_nat k) (leaves (db_of (after h fresh)))) actuals
      ∧ cost_le (cost_sum actuals) (cost_sum (omap lf_cost (take (Z.to_nat k) (ls_leaves lease))))) as (actuals & Hact & Hsum).
  { assert (Forall2 (λ l r, settled l r) (take (Z.to_nat k) (ls_leaves lease)) (take (Z.to_nat k) (leaves (db_of (after h fresh))))) as Hset.
    { assert (∀ l, l ∈ take (Z.to_nat k) (ls_leaves lease) → lf_ordinal l < k) as Hord.
      { intros l Hl. apply list_elem_of_lookup in Hl as [i Hi]. apply lookup_take_Some in Hi as [Hi Hlt].
        assert (map lf_ordinal (ls_leaves lease) !! i = Some (lf_ordinal l)) as Hm' by (by rewrite list_lookup_fmap, Hi).
        rewrite (ad_ordinals _ _ Had) in Hm'. apply lookup_seqZ in Hm'. lia. }
      apply (Forall2_take _ _ _ (Z.to_nat k)) in Hr. revert Hr Hord. generalize (take (Z.to_nat k) (ls_leaves lease)) (take (Z.to_nat k) (leaves (db_of (after h fresh)))).
      induction 1 as [|l r ls rs [_ Hlr] _ IH]; intros Hord; constructor; [apply Hlr, Hord; by left|apply IH; intros; apply Hord; by right]. }
    clear -Hset. induction Hset as [|l r ls rs (declared & actual & ev & H1 & _ & H3 & H4 & _ & H6 & _) _ (acts & IH1 & IH2)].
    - exists []. split; [constructor|done].
    - exists (actual :: acts). split; [constructor; [split; [done|by rewrite H6]|done]|].
      rewrite omap_cons_eq, H1, !cost_sum_cons. by apply plus_mono. }
  exists lease, total, k, m, actuals. split_and!; try done.
  - clear -Hr. induction Hr as [|l r ls rs [Hkey _] _ IH]; [done|]. cbn [map]. by rewrite Hkey, IH.
  - etrans; [exact Hsum|]. rewrite (ad_total _ _ Had). rewrite <- (take_drop (Z.to_nat k) (ls_leaves lease)) at 2.
    rewrite omap_app. apply cost_sum_prefix. pose proof (ad_costs _ _ Had) as Hcosts.
    rewrite <- (take_drop (Z.to_nat k) (ls_leaves lease)) in Hcosts. apply Forall_app in Hcosts as [_ Hcosts].
    clear -Hcosts. induction Hcosts as [|l ls (c & Hc & Hb & _) _ IH]; [constructor|].
    rewrite omap_cons_eq, Hc. by constructor.
  - apply (ad_budget _ _ Had).
Qed.

(** An attempt that became unknown is spent for good: whatever any instance
    calls afterwards, it stays unknown, nothing is reserved again, and no
    dispatch or settlement is ever acknowledged. *)
Theorem broker_unknown_spent h s :
  attempt_status s = Some "unknown" →
  attempt_status (after h s) = Some "unknown"
  ∧ Forall (λ c, is_reserve c = false ∧ ∀ i l a, c = CAct i l a → ∃ why, a = AMark why) (acknowledged h s).
Proof.
  revert s. induction h as [|c h IH]; intros s Hu; simpl; [by split; [|constructor]|].
  destruct (run_call c s) as [r s'] eqn:E. destruct (attempt_step _ _ _ _ E) as (T1 & _ & T3).
  destruct (T3 Hu) as [Hu' Ha]. destruct (IH s' Hu') as [I1 I2]. simpl. split; [done|].
  destruct r as [[]|e]; [|done]. constructor; [|done]. split; [|by apply Ha].
  unfold attempt_status in Hu. destruct (attempt (db_of s)) as [x|] eqn:Ea; [|done].
  destruct T1 as [_ T1]; [done|]. apply not_true_iff_false. intros Hr. by destruct (T1 Hr).
Qed.
End Facts.

(** ** A concrete history *)

Definition leaf_one (n : Z) : LeafIntent :=
  mkLeafIntent n ("leaf-" +:+ str_of_int n) "probes/source.ts" (repeated "a" 64) "Observer.read" "resource" (repeated "b" 64)
    (Some (mkCost 1 0 0 1 0 0 0 0 1 0 100 100 20000 0 0)).
Definition lease_one : NativeLease :=
  mkNativeLease "key" (repeated "c" 64) (repeated "d" 64) PROFILE OBJECT_PROFILE [leaf_one 0; leaf_one 1; leaf_one 2].
Definition measured : Cost := mkCost 1 0 0 1 0 0 0 0 1 0 90 80 20000 0 0.

(** Reserve, one leaf, a second instance that may not act, then a subtree whose
    settlement is malformed. *)
Definition history_one : list call :=
  let rd := repeated "b" 64 in
  [COpen 0; CReserve 0 lease_one; CAct 0 lease_one (ABegin 0 "leaf-0" rd);
   CAct 0 lease_one (AFinish 0 "leaf-0" rd measured "ok"); COpen 1; CReserve 1 lease_one;
   CAct 1 lease_one (ABegin 1 "leaf-1" rd); CAct 0 lease_one (ABeginSubtree 1 2 "leaf-1" rd);
   CAct 0 lease_one (AFinishSubtree 1 2 []); CAct 0 lease_one (ABegin 2 "leaf-2" rd)].
Definition no_fault (n : nat) : SQLiteJournal.io := SQLiteJournal.Healthy.
Definition plain (s : string) : string := s.

Lemma history_one_binds : binds plain (omap lease_of history_one).
Proof.
  assert (∀ l, l ∈ omap lease_of history_one → l = lease_one) as H.
  { apply Forall_forall. repeat constructor. }
  intros a b d Ha Hb _ _. by rewrite (H a Ha), (H b Hb).
Qed.

Example history_one_run :
  (concat (map call_dispatches (acknowledged plain no_fault history_one fresh)),
   attempt_status (after plain no_fault history_one fresh),
   map lr_status (leaves (db_of (after plain no_fault history_one fresh))))
  = ([0; 1; 2], Some "unknown", ["known"; "dispatching"; "dispatching"]).
Proof. vm_compute. reflexivity. Qed.

Lemma broker_no_replay_witness :
  binds plain (omap lease_of history_one)
  ∧ (length (filter (λ c, is_reserve c = true) (acknowledged plain no_fault history_one fresh)) ≤ 1)%nat.
Proof.
  split; [exact history_one_binds|]. exact (proj1 (broker_no_replay plain no_fault history_one history_one_binds)).
Defined.

Lemma broker_state_witness : ∃ a,
  attempt (db_of (after plain no_fault history_one fresh)) = Some a
  ∧ ∃ lease total, admitted lease total ∧ cost_le total RUN_LIMIT.
Proof.
  assert (is_Some (attempt (db_of (after plain no_fault history_one fresh)))) as [a Ha] by (vm_compute; eauto).
  exists a. split; [exact Ha|].
  destruct (broker_state plain no_fault history_one a history_one_binds Ha) as (lease & total & k & m & acts & H1 & _ & _ & _ & _ & _ & H7).
  exists lease, total. split; [exact H1|exact H7].
Defined.

Lemma broker_unknown_spent_witness :
  attempt_status (after plain no_fault history_one fresh) = Some "unknown"
  ∧ attempt_status (after plain no_fault history_one (after plain no_fault history_one fresh)) = Some "unknown".
Proof.
  assert (attempt_status (after plain no_fault history_one fresh) = Some "unknown") as H by (vm_compute; reflexivity).
  split; [exact H|]. exact (proj1 (broker_unknown_spent plain no_fault history_one _ H)).
Defined.
