(* ===== verification/Oracle.v ===== *)
(** The independent state reference of
    probes/pmb1-full-state-oracle/full_state_oracle.py: typed cells, the direct
    read of a persisted database, and the check of an observed snapshot. The
    database connection is the function that answers its SQL texts. *)
From Stdlib Require Import Permutation.
From stdpp Require Import sorting.
From S2P Require Import Prelude Json JsonParse Binary64.
Open Scope Z_scope.

(** ** Data *)

Definition MAX_ROWS : Z := 10000.
Definition MAX_BYTES : Z := 4 * 1024 * 1024.

(** [(tag, value)]: a real is its packed bit pattern. *)
Inductive Cell :=
| CNull
| CInteger (z : Z)
| CReal (bits : Z)
| CText (s : string)
| CBlob (s : string).
#[export] Instance Cell_eq_dec : EqDecision Cell.
Proof. solve_decision. Defined.

(** An identity and its cells; the identity is [None] without a rowid. *)
Definition Row : Type := option Z * list Cell.

Record Table := mkTable {
  columns : list string;
  rows : list Row;
  has_rowid : bool;
}.
(** [schema]: type, name, table name and SQL text of every schema object. *)
Record Reference := mkReference {
  schema : list (list (option string));
  tables : list (string * Table);
}.

(** A [sqlite3] connection: [None] stands for a [sqlite3.Error]. *)
Record Connection := mkConnection {
  in_transaction : bool;
  default_factories : bool;
  execute : string → option (list (list pyval));
}.

(** ** Operations *)

Fixpoint double_quotes (s : string) : string :=
  match s with
  | String c s' => if code c =? 34 then String c (String c (double_quotes s')) else String c (double_quotes s')
  | EmptyString => EmptyString
  end.
Definition quote (name : string) : string := dquote +:+ double_quotes name +:+ dquote.

Definition persisted_cell (tag : pyval) (value : pyval) : res Cell :=
  match tag with
  | PStr tag =>
      if bool_decide (tag = "null") then
        match value with PNone => Ok CNull | _ => Err (Refusal "binding_type_mismatch") end
      else if bool_decide (tag = "integer") then
        match value with
        | PInt z => require ((- 2 ^ 63 <=? z) && (z <? 2 ^ 63)) "integer_range" ;? Ok (CInteger z)
        | _ => Err (Refusal "binding_type_mismatch")
        end
      else if bool_decide (tag = "real") then
        match value with
        | PFloat b => require (isfinite b) "nonfinite_reference" ;? Ok (CReal b)
        | _ => Err (Refusal "binding_type_mismatch")
        end
      else if bool_decide (tag = "text") then
        match value with PStr s => Ok (CText s) | _ => Err (Refusal "binding_type_mismatch") end
      else if bool_decide (tag = "blob") then
        match value with PBytes s => Ok (CBlob s) | _ => Err (Refusal "binding_type_mismatch") end
      else Err (Refusal "binding_type_mismatch")
  | _ => Err (Refusal "binding_type_mismatch")
  end.

(** *** [repr], for the byte accounting *)

Definition hex_escape (c : ascii) : string := "\x" +:+ hex_byte c.
(** [str.__repr__] prints the other code points as they are. *)
Definition repr_char (q : Z) (is_bytes : bool) (c : ascii) : string :=
  let n := code c in
  if n =? 92 then "\\"
  else if n =? q then "\" +:+ String c EmptyString
  else if n =? 9 then "\t" else if n =? 10 then "\n" else if n =? 13 then "\r"
  else if (n <? 32) || (n =? 127) then hex_escape c
  else if (128 <=? n) && (is_bytes || (n <=? 160) || (n =? 173)) then hex_escape c
  else String c EmptyString.
Fixpoint repr_chars (q : Z) (is_bytes : bool) (s : string) : string :=
  match s with
  | String c s' => repr_char q is_bytes c +:+ repr_chars q is_bytes s'
  | EmptyString => EmptyString
  end.
Definition quote_code (s : string) : Z :=
  if mem_char (chr 39) s && negb (mem_char (chr 34) s) then 34 else 39.
Definition repr_text (is_bytes : bool) (s : string) : string :=
  let q := quote_code s in
  (if is_bytes then "b" else EmptyString)
  +:+ String (chr q) EmptyString +:+ repr_chars q is_bytes s +:+ String (chr q) EmptyString.
Definition repr_tuple (l : list string) : string :=
  match l with
  | [x] => "(" +:+ x +:+ ",)"
  | _ => "(" +:+ joined ", " l +:+ ")"
  end.
(** [struct.pack(">d", value)] *)
Fixpoint big_endian (n : nat) (v : Z) : string :=
  match n with
  | O => EmptyString
  | S m => String (chr (v / 256 ^ Z.of_nat m mod 256)) (big_endian m v)
  end.
Definition repr_cell (c : Cell) : string :=
  match c with
  | CNull => repr_tuple [repr_text false "null"; "None"]
  | CInteger z => repr_tuple [repr_text false "integer"; str_of_int z]
  | CReal b => repr_tuple [repr_text false "real"; repr_text true (big_endian 8 b)]
  | CText s => repr_tuple [repr_text false "text"; repr_text false s]
  | CBlob s => repr_tuple [repr_text false "blob"; repr_text true s]
  end.
Definition repr_row (r : Row) : string :=
  repr_tuple [match r.1 with Some z => str_of_int z | None => "None" end; repr_tuple (map repr_cell r.2)].
Definition repr_schema (s : list (list (option string))) : string :=
  repr_tuple (map (λ r, repr_tuple (map (λ c, match c with Some t => repr_text false t | None => "None" end) r)) s).

(** [charge]: the bytes used so far. *)
Definition charge (used : Z) (text : string) : res Z :=
  let used := used + slen (utf8_encode text) in
  require (used <=? MAX_BYTES) "reference_byte_bound" ;? Ok used.

(** *** Reading *)

(** [connection.execute(sql)]; its [sqlite3.Error] becomes the read failure. *)
Definition query (c : Connection) (sql : string) : res (list (list pyval)) :=
  match execute c sql with Some r => Ok r | None => Err (Refusal "reference_read_failed") end.

Definition cell_at (i : nat) (r : list pyval) : res pyval :=
  match nth_error r i with Some v => Ok v | None => Err (External "IndexError") end.

(** The cells of [sqlite_schema] are texts or null. *)
Definition text_cell (v : pyval) : res (option string) :=
  match v with PStr s => Ok (Some s) | PNone => Ok None | _ => Err (External "sqlite_schema cell") end.
Definition text_of (v : pyval) : res string :=
  match v with PStr s => Ok s | _ => Err (External "name cell") end.

Definition SCHEMA_SQL : string :=
  "SELECT type,name,tbl_name,sql FROM main.sqlite_schema ORDER BY type,name,tbl_name LIMIT 2049".

Definition lower_char (c : ascii) : ascii :=
  let n := code c in
  if ((65 <=? n) && (n <=? 90)) || ((192 <=? n) && (n <=? 222) && negb (n =? 215)) then chr (n + 32) else c.
Fixpoint lower (s : string) : string :=
  match s with String c s' => String (lower_char c) (lower s') | EmptyString => EmptyString end.

Definition aliases (columns : list string) : list string :=
  filter (λ a, a ∉ map lower columns) ["oid"; "_rowid_"; "rowid"].

Definition expressions (columns : list string) (rowid : bool) : list string :=
  (if rowid then option_list (quote <$> head (aliases columns)) else [])
  ++ concat (map (λ c, ["typeof(" +:+ quote c +:+ ")"; quote c]) columns).

(** [range(0, len(values), 2)] *)
Fixpoint read_cells (values : list pyval) : res (list Cell) :=
  match values with
  | [] => Ok []
  | tag :: v :: rest =>
      let? c := persisted_cell tag v in let? cs := read_cells rest in Ok (c :: cs)
  | [_] => Err (External "IndexError")
  end.

Definition read_row (rowid : bool) (row : list pyval) : res Row :=
  let? identity := (if rowid then let? v := cell_at 0 row in
                      match v with PInt z => Ok (Some z) | _ => Err (Refusal "rowid_type") end
                    else Ok None) in
  let? cells := read_cells (if rowid then tail row else row) in
  Ok (identity, cells).

(** The loop over the rows: the rows, the row count and the bytes used. *)
Record Meter := mkMeter { m_rows : list Row; m_count : Z; m_used : Z }.
Definition read_record (rowid : bool) (m : Meter) (row : list pyval) : res Meter :=
  let count := m_count m + 1 in
  require (count <=? MAX_ROWS) "reference_row_bound" ;?
  let? record := read_row rowid row in
  let? used := charge (m_used m) (repr_row record) in
  Ok (mkMeter (m_rows m ++ [record]) count used).

(** The hidden flag of a [table_xinfo] row. *)
Definition hidden_ok (v : pyval) : bool := bool_decide (v ∈ [PInt 0; PInt 2; PInt 3]).

(** The body of [for name in names]. *)
Record Progress := mkProgress { g_tables : list (string * Table); g_count : Z; g_used : Z }.
Definition read_table (c : Connection) (storage : list (string * (pyval * pyval))) (g : Progress)
    (name : string) : res Progress :=
  let? info := query c ("PRAGMA main.table_xinfo(" +:+ quote name +:+ ")") in
  require ((0 <? Z.of_nat (length info)) && (Z.of_nat (length info) <=? 256)) "reference_column_bound" ;?
  let? hidden := mapR (cell_at 6) info in
  require (forallb hidden_ok hidden) "unsupported_hidden_column" ;?
  let? names := mapR (cell_at 1) info in
  let? columns := mapR text_of names in
  let? kind := match dict_get name storage with Some s => Ok s | None => Err (External "KeyError") end in
  let rowid := bool_decide (kind.2 = PInt 0) in
  require (negb rowid || negb (bool_decide (aliases columns = []))) "inaccessible_rowid" ;?
  let sql := "SELECT " +:+ joined "," (expressions columns rowid) +:+ " FROM main." +:+ quote name in
  let? found := query c sql in
  let? m := foldR (read_record rowid) (mkMeter [] (g_count g) (g_used g)) found in
  Ok (mkProgress (dict_set name (mkTable columns (m_rows m) rowid) (g_tables g)) (m_count m) (m_used m)).

(** [r[1]] of a schema row, used as a name *)
Definition name_of (r : list (option string)) : res string :=
  match r with _ :: Some n :: _ => Ok n | _ => Err (External "AttributeError") end.

Definition read_storage (row : list pyval) : res (string * (pyval * pyval)) :=
  let? v := cell_at 1 row in let? name := text_of v in
  let? kind := cell_at 2 row in let? wr := cell_at 4 row in
  Ok (name, (kind, wr)).

Definition read_reference (c : Connection) : res Reference :=
  require (negb (in_transaction c)) "active_reference_transaction" ;?
  require (default_factories c) "binding_settings" ;?
  query c "BEGIN" ;?
  let? encoding := query c "PRAGMA encoding" in
  require (bool_decide (head encoding = Some [PStr "UTF-8"])) "encoding" ;?
  let? found := query c SCHEMA_SQL in
  let? schema := mapR (mapR text_cell) found in
  require (Z.of_nat (length schema) <=? 2048) "reference_schema_bound" ;?
  let? used := charge 0 (repr_schema schema) in
  let? listed := query c "PRAGMA main.table_list" in
  let? pairs := mapR read_storage listed in
  let storage := dict_of pairs in
  require (forallb (λ kv, negb (bool_decide (kv.2.1 ∈ [PStr "virtual"; PStr "shadow"]))) storage)
    "unsupported_storage" ;?
  let? names := mapR name_of (filter (λ r, head r = Some (Some "table")) schema) in
  require (Z.of_nat (length names) <=? 128) "reference_table_bound" ;?
  let? g := foldR (read_table c storage) (mkProgress [] 0 used) names in
  Ok (mkReference schema (g_tables g)).

(** *** Checking an observation *)

(** [re.fullmatch(r"-?0x(?:0\.[0-9a-f]{1,13}|1\.[0-9a-f]{13})p[+-][0-9]{1,4}", value)] *)
Fixpoint take_hex_text (s : string) : string * string :=
  match s with
  | String c s' => if is_hex c then let r := take_hex_text s' in (String c r.1, r.2) else (EmptyString, s)
  | EmptyString => (EmptyString, EmptyString)
  end.
Definition exponent_grammar (s : string) : bool :=
  match s with
  | String p (String sg ds) =>
      (code p =? 112) && ((code sg =? 43) || (code sg =? 45)) && isdecimal ds && (slen ds <=? 4)
  | _ => false
  end.
Definition real_grammar (value : string) : bool :=
  let s := if head_is "-" value then String.substring 1 (String.length value) value else value in
  let h := take_hex_text (after_prefix "0x0." s) in
  exponent_grammar h.2 &&
  ((String.prefix "0x0." s && (1 <=? slen h.1) && (slen h.1 <=? 13))
   || (String.prefix "0x1." s && (slen h.1 =? 13))).

(** [bytes.fromhex] of pairs of lower-case hexadecimal digits *)
Fixpoint unhex (s : string) : option string :=
  match s with
  | EmptyString => Some EmptyString
  | String a (String b s') =>
      if is_hex a && is_hex b then
        match hex_value a, hex_value b, unhex s' with
        | Some x, Some y, Some t => Some (String (chr (16 * x + y)) t)
        | _, _, _ => None
        end
      else None
  | String _ EmptyString => None
  end.

Definition observed_cell (cell : json) : res Cell :=
  match cell with
  | JArr [tag; value] =>
      match tag with
      | JStr tag =>
          if bool_decide (tag = "real") then
            match value with
            | JStr v =>
                require ((slen v <=? 32) && real_grammar v) "observed_real" ;?
                match fromhex v with
                | Some b => require (isfinite b) "observed_real" ;? Ok (CReal b)
                | None => Err (Refusal "observed_real")
                end
            | _ => Err (Refusal "observed_real")
            end
          else if bool_decide (tag = "blob") then
            match value with
            | JStr v => match unhex v with Some t => Ok (CBlob t) | None => Err (Refusal "observed_blob") end
            | _ => Err (Refusal "observed_blob")
            end
          else
            require (str_in tag ["null"; "integer"; "text"]) "observed_tag" ;?
            persisted_cell (PStr tag) (py_of_json value)
      | _ => Err (Refusal "observed_tag")
      end
  | _ => Err (Refusal "observed_cell_shape")
  end.

(** [Counter(a) == Counter(b)] *)
Definition count {A} `{EqDecision A} (x : A) (l : list A) : nat := length (filter (λ y, x = y) l).
Definition counter_eqb {A} `{EqDecision A} (a b : list A) : bool :=
  forallb (λ x, bool_decide (count x a = count x b)) (a ++ b).

(** A stable sort of texts, and [ordered == sorted(ordered, key=json.dumps)]:
    checked cells are equal exactly when they print the same. *)
Fixpoint insert_text (x : string) (l : list string) : list string :=
  match l with
  | [] => [x]
  | y :: l' => if String.leb x y then x :: y :: l' else y :: insert_text x l'
  end.
Definition sort_texts (l : list string) : list string := foldr insert_text [] l.
Definition in_order (ordered : list json) : bool :=
  bool_decide (map dumps ordered = sort_texts (map dumps ordered)).

Definition schema_row (r : json) : option (list (option string)) :=
  match r with
  | JArr l => mapM (λ c, match c with JStr s => Some (Some s) | JNull => Some None | _ => None end) l
  | _ => None
  end.

Definition as_list (j : json) : option (list json) := match j with JArr l => Some l | _ => None end.
Definition as_dict (j : json) : option (list (string * json)) := match j with JObj d => Some d | _ => None end.
Definition as_int64 (j : json) : option Z :=
  match j with JInt z => if (- 2 ^ 63 <=? z) && (z <? 2 ^ 63) then Some z else None | _ => None end.
Definition as_str (j : json) : option string := match j with JStr s => Some s | _ => None end.

(** [set(d) == keys] *)
Definition same_keys {A} (d : list (string * A)) (keys : list string) : bool :=
  forallb (λ kv, str_in kv.1 keys) d && forallb (λ k, bool_decide (is_Some (dict_get k d))) keys.

Definition some_or {A} (o : option A) (label : string) : res A :=
  match o with Some a => Ok a | None => Err (Refusal label) end.

(** The identities of a table: [(identities, [identity or None per row])]. *)
Definition check_rowids (has_rowid : bool) (identities : json) (n : nat) : res (list (option Z)) :=
  if has_rowid then
    let? l := some_or (as_list identities) "observed_rowids" in
    require (bool_decide (length l = n)) "observed_rowids" ;?
    let? ids := some_or (mapM as_int64 l) "observed_rowids" in
    require (bool_decide (NoDup ids)) "observed_rowids" ;?
    Ok (map Some ids)
  else
    match identities with JNull => Ok (replicate n None) | _ => Err (Refusal "unexpected_rowids") end.

(** The [for identity, row in zip(...)] loop. *)
Definition observed_row (width : nat) (ir : option Z * json) : res Row :=
  let? row := some_or (as_list ir.2) "observed_row" in
  require (bool_decide (length row = width)) "observed_row" ;?
  let? cells := mapR observed_cell row in
  Ok (ir.1, cells).

Definition id_json (o : option Z) : json := match o with Some z => JInt z | None => JNull end.

(** The body of [for name, expected in reference.tables.items()]. *)
Definition check_table (observed : list (string * json)) (ne : string * Table) : res unit :=
  let (name, expected) := ne in
  let? actual := some_or (dict_get name observed) "table_census_drift" in
  let? actual := some_or (as_dict actual) "observed_table" in
  require (same_keys actual ["columns"; "rows"; "rowids"]) "observed_table" ;?
  let part k := match dict_get k actual with Some j => j | None => JNull end in
  let? cols := some_or (as_list (part "columns")) "column_order_drift" in
  require (bool_decide (mapM as_str cols = Some (columns expected))) "column_order_drift" ;?
  let? found := some_or (as_list (part "rows")) "row_count_drift" in
  require (bool_decide (length found = length (rows expected))) "row_count_drift" ;?
  let? identities := check_rowids (has_rowid expected) (part "rowids") (length found) in
  let? records := mapR (observed_row (length (columns expected))) (combine identities found) in
  require (counter_eqb records (rows expected)) "typed_state_drift" ;?
  let ordered := if has_rowid expected
                 then map (λ ir, JArr [ir.2; id_json ir.1]) (combine identities found) else found in
  require (in_order ordered) "noncanonical_row_order".

Definition check (reference : Reference) (snapshot : json) : res unit :=
  let? d := some_or (as_dict snapshot) "observed_snapshot" in
  let? observed_schema := some_or (dict_get "schema" d) "observed_snapshot" in
  let? observed := some_or (dict_get "tables" d) "observed_snapshot" in
  let? listed := some_or (as_list observed_schema) "observed_schema" in
  require (forallb (λ r, bool_decide (is_Some (as_list r))) listed) "observed_schema" ;?
  require (bool_decide (mapM schema_row listed = Some (schema reference))) "schema_drift" ;?
  let? observed := some_or (as_dict observed) "table_census_drift" in
  require (same_keys observed (map fst (tables reference))) "table_census_drift" ;?
  forR (check_table observed) (tables reference).

(** ** Specification vocabulary *)

(** The observed JSON of a cell, and the cells that have one. *)
Fixpoint hexs (s : string) : string :=
  match s with String c s' => hex_byte c +:+ hexs s' | EmptyString => EmptyString end.
Definition cell_json (c : Cell) : json :=
  match c with
  | CNull => JArr [JStr "null"; JNull]
  | CInteger z => JArr [JStr "integer"; JInt z]
  | CReal b => JArr [JStr "real"; JStr (float_hex b)]
  | CText s => JArr [JStr "text"; JStr s]
  | CBlob s => JArr [JStr "blob"; JStr (hexs s)]
  end.
Definition cell_ok (c : Cell) : Prop :=
  match c with
  | CInteger z => - 2 ^ 63 <= z < 2 ^ 63
  | CReal b => 0 <= b < 2 ^ 64 ∧ isfinite b = true
  | _ => True
  end.

Definition row_json (r : Row) : json := JArr (map cell_json r.2).
Definition id_ok (rowid : bool) (o : option Z) : Prop :=
  match o with Some z => rowid = true ∧ - 2 ^ 63 <= z < 2 ^ 63 | None => rowid = false end.
(** The canonical key of a row: with its rowid where the table has one. *)
Definition ordered_json (rowid : bool) (r : Row) : json :=
  if rowid then JArr [row_json r; id_json r.1] else row_json r.

(** [actual] shows exactly the rows [records] of a table with the reference's
    columns: the reference's rows with their multiplicity, in canonical order. *)
Record shows (t : Table) (actual : json) (records : list Row) : Prop := {
  sh_rows : records ≡ₚ rows t;
  sh_cells : Forall (λ r, id_ok (has_rowid t) r.1 ∧ Forall cell_ok r.2
                          ∧ length r.2 = length (columns t)) records;
  sh_ids : has_rowid t = true → NoDup (map fst records);
  sh_order : in_order (map (ordered_json (has_rowid t)) records) = true;
  sh_json : ∃ d, actual = JObj d ∧ same_keys d ["columns"; "rows"; "rowids"] = true
            ∧ dict_get "columns" d = Some (JArr (map JStr (columns t)))
            ∧ dict_get "rows" d = Some (JArr (map row_json records))
            ∧ dict_get "rowids" d = Some (if has_rowid t then JArr (map (λ r, id_json r.1) records) else JNull);
}.

Definition schema_json (s : list (list (option string))) : json :=
  JArr (map (λ r, JArr (map (JOpt JStr) r)) s).

(** ** Lemmas: cells *)

Lemma unhex_hexs s : unhex (hexs s) = Some s.
Proof.
  induction s as [|c s IH]; [done|]. cbn [hexs]. unfold hex_byte.
  change (String ?a (String ?b EmptyString) +:+ ?r) with (String a (String b r)).
  pose proof (code_range c) as Hc. pose proof (Z.div_mod (code c) 16 ltac:(lia)) as Hd.
  pose proof (Z.mod_pos_bound (code c) 16 ltac:(lia)) as Hm.
  assert (0 <= code c / 16 < 16) as Hq by (split; [apply Z.div_pos|apply Z.div_lt_upper_bound]; lia).
  cbn [unhex]. rewrite !hex_digit_hex, !hex_value_digit, IH by lia. simpl. do 2 f_equal.
  apply code_inj. rewrite code_chr; lia.
Qed.

Lemma hexs_unhex n v t : (String.length v ≤ n)%nat → unhex v = Some t → v = hexs t.
Proof.
  revert v t. induction n as [|n IH]; intros v t Hl.
  - destruct v; [|simpl in Hl; lia]. by intros [= <-].
  - destruct v as [|a [|b v]]; [by intros [= <-]|done|]. cbn [unhex].
    destruct (is_hex a) eqn:Ea; [|done]. destruct (is_hex b) eqn:Eb; [|done]. simpl andb. cbv iota.
    destruct (hex_value_inv a Ea) as (x & -> & Hx & Hdx). destruct (hex_value_inv b Eb) as (y & -> & Hy & Hdy).
    destruct (unhex v) as [u|] eqn:Eu; [|done]. intros [= <-]. cbn [hexs]. unfold hex_byte.
    rewrite code_chr by lia.
    replace ((16 * x + y) / 16) with x by (rewrite Z.mul_comm, Z.div_add_l, Z.div_small; lia).
    replace ((16 * x + y) mod 16) with y by (rewrite Z.add_comm, Z.mul_comm, Z.mod_add, Z.mod_small; lia).
    rewrite Hdx, Hdy. rewrite <- (IH v u); [done| |done]. simpl in Hl. lia.
Qed.

(** [float.fromhex] of a canonical text is a 64-bit pattern. *)
Lemma float_hex_mod b : float_hex b = sign_text b +:+ magnitude_text (b mod 2 ^ 63).
Proof.
  unfold float_hex. fold (fraction_of b) (exponent_field b).
  rewrite fraction_of_mod, exponent_field_div.
  assert (b mod 2 ^ 63 mod 2 ^ 52 = b mod 2 ^ 52) as Hf.
  { change (2 ^ 63) with (2 ^ 52 * 2 ^ 11). rewrite Z.rem_mul_r by lia.
    rewrite (Z.mul_comm (2 ^ 52)), Z.mod_add, Z.mod_mod; lia. }
  assert (b mod 2 ^ 63 / 2 ^ 52 = (b / 2 ^ 52) mod 2 ^ 11) as He.
  { change (2 ^ 63) with (2 ^ 52 * 2 ^ 11). rewrite Z.rem_mul_r by lia.
    rewrite (Z.mul_comm (2 ^ 52)), Z.div_add, Z.div_small by (try apply Z.mod_pos_bound; lia). lia. }
  unfold magnitude_text, sign_text. rewrite Hf, He. by repeat case_match.
Qed.

Lemma fromhex_range s b : fromhex s = Some b → 0 <= b < 2 ^ 64 ∧ float_hex b = s.
Proof.
  unfold fromhex. destruct (unsigned_of _) as [m|] eqn:Em; [|done].
  case_bool_decide as Hs; [|done]. intros [= <-]. split; [|done].
  set (x := if head_is "-" s then SIGN + m else m) in *.
  pose proof (float_hex_mod x) as Hx. rewrite Hs in Hx. pose proof (Z.mod_pos_bound x (2 ^ 63) ltac:(lia)) as Hm.
  assert (m = x mod 2 ^ 63) as Em'.
  { rewrite Hx in Em. unfold sign_text in Em. destruct (Z.testbit x 63).
    - change ("-" +:+ ?t) with (String "-" t) in Em. cbn [head_is] in Em.
      rewrite bool_decide_eq_true_2, substring_tail, unsigned_of_text in Em by done. congruence.
    - change (EmptyString +:+ ?t) with t in Em. rewrite magnitude_text_head, unsigned_of_text in Em by done. congruence. }
  rewrite <- Em' in Hm. unfold x. change SIGN with (2 ^ 63). destruct (head_is "-" s); lia.
Qed.

Lemma observed_cell_inv j c : observed_cell j = Ok c → cell_ok c ∧ j = cell_json c.
Proof.
  unfold observed_cell. destruct j as [| | | | |[|tag [|value [|]]]|]; try done.
  destruct tag as [| | | |tag| |]; try done. case_bool_decide as H1; [subst|].
  { destruct value as [| | | |v| |]; try done. intros H. inv_check.
    destruct (fromhex v) as [b|] eqn:E; [|done]. inv_check. apply fromhex_range in E as [? <-]. done. }
  case_bool_decide as H2; [subst|].
  { destruct value as [| | | |v| |]; try done. destruct (unhex v) as [t|] eqn:E; [|done].
    intros [= <-]. split; [done|]. simpl. by rewrite <- (hexs_unhex _ _ _ (le_n _) E). }
  intros H. inv_check. unfold str_in in Ha. inv_bool. rewrite !elem_of_cons, elem_of_nil in Ha.
  destruct Ha as [->|[->|[->|[]]]]; destruct value; try done; simpl in Hb; inv_check; inv_bool; done.
Qed.

(** The canonical text of a finite value is in the grammar of observed reals. *)
Lemma substring_all n t : (String.length t ≤ n)%nat → String.substring 0 n t = t.
Proof.
  revert n. induction t as [|d t IH]; intros n Hn; [by destruct n|].
  destruct n as [|n]; simpl in *; [lia|]. rewrite IH by lia. done.
Qed.

Lemma take_hex_text_digits n v r :
  0 <= v → take_hex_text (hex_digits n v +:+ String "p" r) = (hex_digits n v, String "p" r).
Proof.
  intros Hv. induction n as [|n IH]; [done|]. cbn [hex_digits].
  change (String ?a ?s +:+ ?t) with (String a (s +:+ t)). cbn [take_hex_text].
  rewrite hex_digit_hex by (apply Z.mod_pos_bound; lia). by rewrite IH.
Qed.

Lemma small_int_text e : 0 <= e < 1100 → slen (str_of_int e) <= 4.
Proof.
  intros He. assert (forallb (λ z, slen (str_of_int z) <=? 4) (seqZ 0 1100) = true) as Hall by (vm_compute; reflexivity).
  rewrite forallb_forall in Hall. specialize (Hall e). rewrite <- list_elem_of_In, elem_of_seqZ in Hall.
  apply Z.leb_le, Hall. lia.
Qed.

Lemma exponent_text_grammar e : -1022 <= e <= 1023 →
  exponent_grammar (String "p" (exponent_text e)) = true ∧ slen (exponent_text e) <= 5.
Proof.
  intros He. unfold exponent_text. destruct (Z.ltb_spec e 0) as [Hn|Hn].
  - change ("-" +:+ ?t) with (String "-" t). destruct (str_of_int_decimal (- e)) as [Hd _]; [lia|].
    pose proof (small_int_text (- e)). simpl exponent_grammar. rewrite Hd. split; [apply Z.leb_le; lia|].
    unfold slen in *. simpl String.length. lia.
  - change ("+" +:+ ?t) with (String "+" t). pose proof (small_int_text e). simpl exponent_grammar.
    assert (isdecimal (str_of_int e) = true) as ->.
    { destruct (Z.eq_dec e 0) as [->|]; [done|]. apply str_of_int_decimal. lia. }
    split; [apply Z.leb_le; lia|]. unfold slen in *. simpl String.length. lia.
Qed.

Lemma magnitude_text_grammar m : 0 <= m → exponent_field m ≠ 2047 → m < 2 ^ 63 →
  slen (magnitude_text m) <= 24 ∧
  (∃ h r, (magnitude_text m = "0x0." +:+ h +:+ r ∧ 1 <= slen h <= 13
           ∨ magnitude_text m = "0x1." +:+ h +:+ r ∧ slen h = 13)
    ∧ take_hex_text (h +:+ r) = (h, r) ∧ exponent_grammar r = true).
Proof.
  intros Hm Hf Hlt. unfold magnitude_text. rewrite exponent_field_div in Hf.
  pose proof (Z.div_pos m (2 ^ 52) ltac:(lia) ltac:(lia)) as He.
  pose proof (Z.div_lt_upper_bound m (2 ^ 52) (2 ^ 11) ltac:(lia) ltac:(lia)) as He'.
  pose proof (Z.mod_pos_bound m (2 ^ 52) ltac:(lia)) as Hfr.
  rewrite Z.mod_small in Hf by lia.
  destruct (Z.eqb_spec (m / 2 ^ 52) 0) as [H0|H0]; [destruct (Z.eqb_spec (m mod 2 ^ 52) 0) as [H1|H1]|].
  - split; [done|]. exists "0", "p+0". split; [left; done|done].
  - rewrite !slen_app, slen_hex_digits. split; [done|]. exists (hex_digits 13 (m mod 2 ^ 52)), "p-1022".
    rewrite slen_hex_digits. split; [left; done|]. split; [|done]. apply take_hex_text_digits. lia.
  - destruct (exponent_text_grammar (m / 2 ^ 52 - 1023)) as [Hg Hl]; [lia|].
    rewrite !slen_app, slen_hex_digits. split; [change (slen "0x1.") with 4; change (slen "p") with 1; lia|].
    eexists (hex_digits 13 (m mod 2 ^ 52)), _. rewrite slen_hex_digits.
    split; [by right|]. split; [|exact Hg]. apply take_hex_text_digits. lia.
Qed.

Lemma real_grammar_hex b : 0 <= b < 2 ^ 64 → isfinite b = true →
  real_grammar (float_hex b) = true ∧ slen (float_hex b) <= 32.
Proof.
  intros Hb Hf. unfold isfinite in Hf. apply negb_true_iff, Z.eqb_neq in Hf.
  rewrite float_hex_mod. pose proof (Z.mod_pos_bound b (2 ^ 63) ltac:(lia)) as Hm.
  destruct (magnitude_text_grammar (b mod 2 ^ 63)) as (Hl & h & r & Ht & Hh & Hg); [lia| |lia|].
  { fold (exponent_field b) in Hf. destruct (fields_of_magnitude b (b mod 2 ^ 63) Hm) as (_ & He & _).
    - change SIGN with (2 ^ 63). destruct (Z_lt_le_dec b (2 ^ 63)); [left; by rewrite Z.mod_small by lia|right].
      pose proof (Z.div_mod b (2 ^ 63) ltac:(lia)). pose proof (Z.div_lt_upper_bound b (2 ^ 63) 2 ltac:(lia) ltac:(lia)).
      pose proof (Z.div_le_lower_bound b (2 ^ 63) 1 ltac:(lia) ltac:(lia)). nia.
    - destruct (fields_of_magnitude (b mod 2 ^ 63) (b mod 2 ^ 63) Hm) as (_ & He' & _); [by left|].
      by rewrite He', <- He. }
  assert (real_grammar (magnitude_text (b mod 2 ^ 63)) = true ∧ real_grammar (String "-" (magnitude_text (b mod 2 ^ 63))) = true) as [G1 G2].
  { unfold real_grammar. rewrite magnitude_text_head, substring_tail. cbn [head_is].
    rewrite bool_decide_eq_true_2 by done. cbv iota.
    assert (∀ t, String.prefix "0x0." ("0x0." +:+ t) = true ∧ String.prefix "0x1." ("0x1." +:+ t) = true
      ∧ after_prefix "0x0." ("0x0." +:+ t) = t ∧ after_prefix "0x0." ("0x1." +:+ t) = t) as Hp.
    { intros t. split_and!; [by destruct t..| |]; apply (substring_all (4 + String.length t)); lia. }
    destruct (Hp (h +:+ r)) as (P0 & P1 & A0 & A1). destruct Ht as [[-> Hlen]|[-> Hlen]].
    - rewrite A0, P0, Hh. cbn [fst snd]. rewrite Hg.
      rewrite (proj2 (Z.leb_le 1 _)), (proj2 (Z.leb_le _ 13)) by lia. by split.
    - rewrite A1, P1, Hh. cbn [fst snd]. rewrite Hg, Hlen.
      split; by rewrite orb_true_r. }
  unfold sign_text. destruct (Z.testbit b 63); [change ("-" +:+ ?t) with (String "-" t)|change (EmptyString +:+ ?t) with t].
  - split; [done|]. unfold slen in *. simpl String.length. lia.
  - split; [done|lia].
Qed.

Lemma observed_cell_json c : cell_ok c → observed_cell (cell_json c) = Ok c.
Proof.
  destruct c as [|z|b|s|s]; intros Hc; try done.
  - simpl in *. unfold persisted_cell. cbn -[Z.pow]. destruct Hc as [H1 H2].
    rewrite (proj2 (Z.leb_le _ _)), (proj2 (Z.ltb_lt _ _)) by lia. done.
  - destruct Hc as [Hb Hf]. destruct (real_grammar_hex b Hb Hf) as [Hg Hl].
    unfold observed_cell, cell_json. rewrite bool_decide_eq_true_2 by done.
    rewrite Hg, (proj2 (Z.leb_le _ _)), float_hex_inverse, Hf by done. done.
  - unfold observed_cell, cell_json. rewrite bool_decide_eq_false_2, bool_decide_eq_true_2, unhex_hexs by done. done.
Qed.

(** ** Lemmas: multisets and order *)

Lemma counter_eqb_perm {A} `{EqDecision0 : EqDecision A} (a b : list A) : counter_eqb a b = true ↔ a ≡ₚ b.
Proof.
  assert (∀ x (l : list A), count x l = count_occ EqDecision0 l x) as Hc.
  { intros x l. unfold count. induction l as [|y l IH]; [done|]. rewrite filter_cons. cbn [count_occ].
    destruct (decide (x = y)), (EqDecision0 y x); try congruence; cbn [length]; by rewrite IH. }
  rewrite (Permutation_count_occ EqDecision0). unfold counter_eqb. rewrite forallb_forall. split.
  - intros H x. rewrite <- !Hc. destruct (decide (x ∈ a ++ b)) as [Hin|Hout].
    + apply (bool_decide_eq_true _), H. by rewrite <- list_elem_of_In.
    + rewrite elem_of_app in Hout. unfold count. rewrite !filter_none; [done|naive_solver..].
  - intros H x _. rewrite bool_decide_eq_true, !Hc. apply H.
Qed.

Lemma insert_text_perm x l : insert_text x l ≡ₚ x :: l.
Proof. induction l as [|y l IH]; simpl; [done|]. destruct (String.leb x y); [done|]. rewrite IH. constructor. Qed.
Lemma sort_texts_perm l : sort_texts l ≡ₚ l.
Proof. induction l as [|x l IH]; simpl; [done|]. by rewrite insert_text_perm, IH. Qed.

Lemma insert_text_sorted x l : StronglySorted text_le l → StronglySorted text_le (insert_text x l).
Proof.
  induction 1 as [|y l Hs IH Hy]; simpl; [by repeat constructor|].
  destruct (String.leb x y) eqn:E.
  - constructor; [by constructor|]. constructor; [done|].
    eapply Forall_impl; [exact Hy|]. intros z Hz. by trans y.
  - constructor; [done|]. rewrite insert_text_perm. constructor; [|done].
    destruct (text_le_total x y) as [H|H]; [unfold text_le in H; congruence|done].
Qed.
Lemma sort_texts_sorted l : StronglySorted text_le (sort_texts l).
Proof. induction l as [|x l IH]; simpl; [constructor|]. by apply insert_text_sorted. Qed.

Lemma in_order_sorted l : in_order l = true ↔ StronglySorted text_le (map dumps l).
Proof.
  unfold in_order. rewrite bool_decide_eq_true. split.
  - intros ->. apply sort_texts_sorted.
  - intros H. apply (StronglySorted_unique text_le); [done|apply sort_texts_sorted|].
    by rewrite sort_texts_perm.
Qed.

(** ** Lemmas: the observed rows *)

Lemma observed_cells_iff js cs :
  mapR observed_cell js = Ok cs ↔ js = map cell_json cs ∧ Forall cell_ok cs.
Proof.
  rewrite mapR_forall2. split.
  - induction 1 as [|j c js cs Hc _ [IH1 IH2]]; [done|]. apply observed_cell_inv in Hc as [? ->].
    split; [simpl; by f_equal|by constructor].
  - intros [-> H]. induction H as [|c cs Hc _ IH]; constructor; [by apply observed_cell_json|done].
Qed.

Lemma some_or_ok {A} (o : option A) l a : some_or o l = Ok a ↔ o = Some a.
Proof. destruct o; simpl; split; congruence. Qed.

Lemma observed_row_iff w ir r :
  observed_row w ir = Ok r ↔ ir = (r.1, row_json r) ∧ Forall cell_ok r.2 ∧ length r.2 = w.
Proof.
  destruct ir as [i j]. unfold observed_row. split.
  - intros H. inv_check. apply some_or_ok in Ha. destruct j; simplify_eq/=. inv_bool.
    apply observed_cells_iff in Ha1 as [-> ?]. by rewrite length_map in Ha0.
  - destruct r as [i' cs]. intros ([= -> ->] & Hc & Hl). simpl in *. rewrite bool_decide_eq_true_2 by by rewrite length_map.
    simpl. by rewrite (proj2 (observed_cells_iff _ _) (conj eq_refl Hc)).
Qed.

Lemma observed_rows_iff w ids found rs :
  length ids = length found →
  mapR (observed_row w) (combine ids found) = Ok rs ↔
  ids = map fst rs ∧ found = map row_json rs ∧ Forall (λ r, Forall cell_ok r.2 ∧ length r.2 = w) rs.
Proof.
  rewrite mapR_forall2. revert found rs. induction ids as [|i ids IH]; intros [|j found] rs Hlen; try done.
  - split; [by inversion 1|]. destruct rs; [constructor|by intros [? _]].
  - simpl combine. split.
    + intros H. inversion H as [|x r ? rs' Hr Hrs]; subst. apply observed_row_iff in Hr as ([= -> ->] & Hc).
      apply IH in Hrs as (-> & -> & ?); [|by injection Hlen]. split_and!; [done..|]. by constructor.
    + destruct rs as [|r rs]; [by intros [? _]|]. simpl. intros ([= -> Hi] & [= -> Hj] & Hf).
      inversion Hf; subst. constructor; [by apply observed_row_iff|]. apply IH; auto.
Qed.

Lemma int64_ids l ids : mapM as_int64 l = Some ids ↔
  l = map JInt ids ∧ Forall (λ z, - 2 ^ 63 <= z < 2 ^ 63) ids.
Proof.
  rewrite mapM_Some. split.
  - induction 1 as [|j z l ids Hz _ [IH1 IH2]]; [done|].
    destruct j; simplify_eq/=. case_match eqn:E; simplify_eq. inv_bool. split; [done|]. by constructor.
  - intros [-> H]. induction H as [|z ids Hz _ IH]; constructor; [|done]. unfold as_int64.
    by rewrite (proj2 (Z.leb_le _ _)), (proj2 (Z.ltb_lt _ _)) by lia.
Qed.

Lemma check_rowids_iff rid j n l :
  check_rowids rid j n = Ok l ↔
  length l = n ∧ Forall (id_ok rid) l ∧ (rid = true → NoDup l)
  ∧ j = if rid then JArr (map id_json l) else JNull.
Proof.
  unfold check_rowids. destruct rid.
  - split.
    + intros H. inv_check. apply some_or_ok in Ha, Ha1. inv_bool. destruct j; simplify_eq/=.
      apply int64_ids in Ha1 as [-> Hr]. rewrite !length_map, map_map. split_and!; [done| | |done].
      * rewrite Forall_map. eapply Forall_impl; [exact Hr|]. done.
      * intros _. by apply NoDup_fmap_2; [apply _|].
    + intros (Hl & Hi & Hn & ->).
      assert (∃ zs, l = map Some zs) as (zs & ->).
      { clear Hl Hn. induction Hi as [|[z|] l Hz _ [zs IH]]; [by exists []| |by simpl in Hz].
        exists (z :: zs). simpl. by f_equal. }
      rewrite map_map. simpl. rewrite !length_map in *. rewrite bool_decide_eq_true_2 by done. simpl.
      rewrite (proj2 (int64_ids _ zs)); simpl.
      * rewrite bool_decide_eq_true_2; [done|]. by eapply NoDup_fmap_1, Hn.
      * split; [done|]. rewrite Forall_map in Hi. eapply Forall_impl; [exact Hi|]. by intros z [_ ?].
  - split.
    + destruct j; try done. intros [= <-]. rewrite length_replicate. split_and!; [done| |done|done].
      by apply Forall_replicate.
    + intros (Hl & Hi & _ & ->). f_equal. subst n. induction Hi as [|[z|] l Hz _ IH]; simpl; [done|by destruct Hz|by rewrite IH].
Qed.

Lemma ordered_combine (rid : bool) (rs : list Row) :
  (if rid then map (λ ir : option Z * json, JArr [ir.2; id_json ir.1]) (combine (map fst rs) (map row_json rs))
   else map row_json rs)
  = map (ordered_json rid) rs.
Proof. destruct rid; [|done]. induction rs as [|r rs IH]; simpl; [done|]. by rewrite IH. Qed.

Lemma str_columns l cs : mapM as_str l = Some cs ↔ l = map JStr cs.
Proof.
  rewrite mapM_Some. split.
  - induction 1 as [|j s l cs Hs _ IH]; [done|]. destruct j; simplify_eq/=. done.
  - intros ->. induction cs; by constructor.
Qed.

Lemma same_keys_get {A} (d : list (string * A)) ks k :
  same_keys d ks = true → k ∈ ks → ∃ v, dict_get k d = Some v.
Proof.
  unfold same_keys. rewrite andb_true_iff, !forallb_forall. intros [_ H] Hk.
  apply list_elem_of_In, H, bool_decide_eq_true in Hk as [v Hv]. eauto.
Qed.

Lemma check_table_iff observed name t :
  check_table observed (name, t) = Ok tt ↔
  ∃ actual records, dict_get name observed = Some actual ∧ shows t actual records.
Proof.
  unfold check_table. split.
  - intros H. inv_check. repeat match goal with H : some_or _ _ = Ok _ |- _ => apply some_or_ok in H end.
    inv_bool. destruct a as [| | | | | |d]; try done. injection Ha0 as [= <-].
    match goal with H : mapM as_str _ = Some _ |- _ => apply str_columns in H as -> end.
    match goal with H : check_rowids _ _ _ = Ok _ |- _ => apply check_rowids_iff in H as (Hl & Hi & Hn & Hj) end.
    match goal with H : mapR _ (combine _ _) = Ok _ |- _ => apply observed_rows_iff in H as (-> & -> & Hr); [|done] end.
    match goal with H : counter_eqb _ _ = true |- _ => apply counter_eqb_perm in H end.
    rewrite ordered_combine in Hb0. rewrite (Forall_map fst) in Hi. rewrite map_map in Hj.
    destruct (same_keys_get d _ "columns" Ha1) as [jc Ec]; [set_solver|].
    destruct (same_keys_get d _ "rows" Ha1) as [jr Er]; [set_solver|].
    destruct (same_keys_get d _ "rowids" Ha1) as [ji Ei]; [set_solver|].
    rewrite Ec in *. rewrite Er in *. rewrite Ei in *.
    destruct jc; simplify_eq/=. destruct jr; simplify_eq/=.
    eexists (JObj d), _. split; [done|]. split; [done| |done|done|by exists d].
    apply Forall_and. split; [exact Hi|]. eapply Forall_impl; [exact Hr|]. naive_solver.
  - intros (actual & rs & Ha & [Hp Hc Hn Ho (d & -> & Hk & Ec & Er & Ei)]).
    apply Forall_and in Hc as [Hc1 Hc2]. rewrite Ha. cbn [some_or rbind as_dict]. rewrite Hk. cbn [require rbind].
    rewrite Ec, Er, Ei. cbn [as_list some_or rbind].
    rewrite (proj2 (str_columns _ _) eq_refl), bool_decide_eq_true_2 by done. cbn [require rbind].
    rewrite bool_decide_eq_true_2 by (by rewrite length_map, Hp). cbn [require rbind].
    rewrite (proj2 (check_rowids_iff _ _ _ (map fst rs))); cbn [rbind].
    + rewrite (proj2 (observed_rows_iff (length (columns t)) (map fst rs) (map row_json rs) rs ltac:(by rewrite !length_map)));
        cbn [rbind].
      * rewrite (proj2 (counter_eqb_perm _ _) Hp). cbn [require rbind]. by rewrite ordered_combine, Ho.
      * split_and!; [done..|]. eapply Forall_impl; [exact Hc2|]. done.
    + rewrite !length_map, map_map. split_and!; [done| |done|done]. by rewrite Forall_map.
Qed.

(** ** Lemmas: the schema and the census *)

Lemma schema_row_iff j r : schema_row j = Some r ↔ j = JArr (map (JOpt JStr) r).
Proof.
  unfold schema_row. split.
  - destruct j as [| | | | |l|]; try done. rewrite mapM_Some. intros H. f_equal.
    induction H as [|j c l r Hc _ IH]; [done|]. simpl. rewrite <- IH. f_equal. destruct j; simplify_eq/=; done.
  - intros ->. rewrite mapM_Some. induction r as [|[s|] r IH]; by constructor.
Qed.

Lemma schema_rows_iff l s : mapM schema_row l = Some s ↔ JArr l = schema_json s.
Proof.
  unfold schema_json. rewrite mapM_Some. split.
  - induction 1 as [|j r l s Hr _ IH]; [done|]. apply schema_row_iff in Hr as ->. simpl. injection IH as ->. done.
  - intros [= ->]. induction s as [|r s IH]; constructor; [by apply schema_row_iff|done].
Qed.

Lemma schema_rows_lists l s :
  JArr l = schema_json s → forallb (λ r, bool_decide (is_Some (as_list r))) l = true.
Proof.
  intros [= ->]. apply forallb_forall. intros j Hj%list_elem_of_In.
  apply list_elem_of_fmap in Hj as (r & -> & _). by apply bool_decide_eq_true.
Qed.

(** A snapshot whose schema, table census and tables show the reference. *)
Definition shows_all (r : Reference) (snapshot : json) : Prop :=
  ∃ d observed, snapshot = JObj d ∧ dict_get "schema" d = Some (schema_json (schema r))
    ∧ dict_get "tables" d = Some (JObj observed)
    ∧ same_keys observed (map fst (tables r)) = true
    ∧ ∀ name t, (name, t) ∈ tables r →
        ∃ actual records, dict_get name observed = Some actual ∧ shows t actual records.

(** ** Properties *)

Lemma check_shows r snapshot : check r snapshot = Ok tt ↔ shows_all r snapshot.
Proof.
  unfold check, shows_all. split.
  - intros H. inv_check. repeat match goal with H : some_or _ _ = Ok _ |- _ => apply some_or_ok in H end. inv_bool.
    destruct snapshot as [| | | | | |d]; simplify_eq/=.
    match goal with H : as_list ?j = Some _ |- _ => destruct j; simplify_eq/= end.
    match goal with H : as_dict ?j = Some _ |- _ => destruct j; simplify_eq/= end.
    match goal with H : mapM schema_row _ = Some _ |- _ => apply schema_rows_iff in H end.
    do 2 eexists. split_and!; [done|congruence|done|done|]. intros name t Hin.
    apply check_table_iff. by apply (proj1 (forR_ok _ _) Hb0).
  - intros (d & observed & -> & Hs & Ht & Hk & Hall). cbn [as_dict some_or rbind]. rewrite Hs, Ht.
    cbn [some_or rbind as_list schema_json]. rewrite (schema_rows_lists _ _ eq_refl). cbn [require rbind].
    rewrite (proj2 (schema_rows_iff _ _) eq_refl), bool_decide_eq_true_2 by done.
    cbn [require rbind as_dict some_or]. rewrite Hk. cbn [require rbind]. apply forR_ok.
    intros [name t] Hin. apply check_table_iff. by apply Hall.
Qed.

(** C33: the check accepts exactly the snapshots that show the reference: the
    schema row for row, no table missing or extra, the declared columns in order,
    and in each table the reference's typed rows with their identities and
    multiplicities, nothing else, in canonical order. *)
Theorem check_exact r snapshot : check r snapshot = Ok tt ↔ shows_all r snapshot.
Proof. apply check_shows. Qed.

(** The content of a table of a snapshot: columns, rows and identities. *)
Definition table_content (snapshot : json) (name k : string) : option json :=
  d ← as_dict snapshot; ts ← dict_get "tables" d; observed ← as_dict ts;
  t ← dict_get name observed; fields ← as_dict t; dict_get k fields.

Lemma shows_unique t a b ra rb : shows t a ra → shows t b rb →
  map (λ r, dumps (ordered_json (has_rowid t) r)) ra = map (λ r, dumps (ordered_json (has_rowid t) r)) rb.
Proof.
  intros [Pa _ _ Oa _] [Pb _ _ Ob _]. apply in_order_sorted in Oa, Ob. rewrite !map_map in *.
  apply (StronglySorted_unique text_le); [done..|]. apply Permutation_map. by rewrite Pa, Pb.
Qed.

(** The canonical texts of the rows of a table, with their identities. *)
Definition row_texts (rowid : bool) (snapshot : json) (name : string) : option (list string) :=
  found ← table_content snapshot name "rows" ≫= as_list;
  if rowid then
    ids ← table_content snapshot name "rowids" ≫= as_list;
    Some (zip_with (λ r i, dumps (JArr [r; i])) found ids)
  else Some (map dumps found).

Lemma shows_content d observed name t actual records k :
  dict_get "tables" d = Some (JObj observed) → dict_get name observed = Some actual → shows t actual records →
  table_content (JObj d) name "columns" = Some (JArr (map JStr (columns t)))
  ∧ row_texts (has_rowid t) (JObj d) name = Some (map (λ r, dumps (ordered_json (has_rowid t) r)) records)
  ∧ (k = "rowids" → has_rowid t = false → table_content (JObj d) name k = Some JNull).
Proof.
  intros Ht Hn [_ _ _ _ (f & -> & _ & Ec & Er & Ei)].
  assert (∀ k, table_content (JObj d) name k = dict_get k f) as Hc
    by (intros k'; unfold table_content; simpl; rewrite Ht; simpl; by rewrite Hn).
  split_and!; [by rewrite Hc| |by intros -> Hr; rewrite Hc, Ei, Hr].
  unfold row_texts. destruct (has_rowid t); rewrite !Hc, ?Ei, Er; simpl; f_equal; [|by rewrite map_map].
  clear. induction records as [|r l IH]; [done|]. simpl. by f_equal.
Qed.

(** The check is decisive: two accepted observations of one reference show
    the same columns and, row by row with their identities, the same canonical
    text in the same order. *)
Theorem check_unique r a b name t :
  check r a = Ok tt → check r b = Ok tt → (name, t) ∈ tables r →
  table_content a name "columns" = table_content b name "columns"
  ∧ row_texts (has_rowid t) a name = row_texts (has_rowid t) b name
  ∧ is_Some (row_texts (has_rowid t) a name).
Proof.
  intros (da & oa & -> & _ & Ta & _ & Ha)%check_shows (db & ob & -> & _ & Tb & _ & Hb)%check_shows Hin.
  destruct (Ha _ _ Hin) as (ja & ra & Na & Sa), (Hb _ _ Hin) as (jb & rb & Nb & Sb).
  destruct (shows_content _ _ _ _ _ _ "" Ta Na Sa) as (-> & -> & _).
  destruct (shows_content _ _ _ _ _ _ "" Tb Nb Sb) as (-> & -> & _).
  split_and!; [done|by f_equal; apply (shows_unique t ja jb)|done].
Qed.

(** *** Every reference has an accepted observation *)

Record wf_table (t : Table) : Prop := {
  wt_cells : Forall (λ r, id_ok (has_rowid t) r.1 ∧ Forall cell_ok r.2 ∧ length r.2 = length (columns t)) (rows t);
  wt_ids : has_rowid t = true → NoDup (map fst (rows t));
}.
Definition wf_reference (r : Reference) : Prop :=
  NoDup (map fst (tables r)) ∧ Forall (λ nt, wf_table nt.2) (tables r).

Definition key_le (rowid : bool) (a b : Row) : Prop :=
  text_le (dumps (ordered_json rowid a)) (dumps (ordered_json rowid b)).
#[export] Instance key_le_dec rowid a b : Decision (key_le rowid a b).
Proof. unfold key_le. apply _. Defined.
#[export] Instance key_le_trans rowid : Transitive (key_le rowid).
Proof. intros a b c. apply text_le_trans. Qed.
#[export] Instance key_le_total rowid : Total (key_le rowid).
Proof. intros a b. apply text_le_total. Qed.

(** What a faithful reader prints of the reference. *)
Definition table_json (t : Table) : json :=
  let records := merge_sort (key_le (has_rowid t)) (rows t) in
  JObj [("columns", JArr (map JStr (columns t))); ("rows", JArr (map row_json records));
        ("rowids", if has_rowid t then JArr (map (λ r, id_json r.1) records) else JNull)].
Definition snapshot_of (r : Reference) : json :=
  JObj [("schema", schema_json (schema r));
        ("tables", JObj (map (λ nt, (nt.1, table_json nt.2)) (tables r)))].

Lemma dict_get_map {A B} (f : A → B) (l : list (string * A)) k a :
  NoDup (map fst l) → (k, a) ∈ l → dict_get k (map (λ kv, (kv.1, f kv.2)) l) = Some (f a).
Proof.
  induction l as [|[k' a'] l IH]; [set_solver|]. simpl. rewrite NoDup_cons. intros [Hn Hd] Hin.
  apply elem_of_cons in Hin as [[= -> ->]|Hin]; [by rewrite bool_decide_eq_true_2|].
  rewrite bool_decide_eq_false_2; [by apply IH|]. intros ->. apply Hn, list_elem_of_fmap.
  by exists (k', a).
Qed.

Lemma same_keys_map {A B} (f : A → B) (l : list (string * A)) :
  NoDup (map fst l) → same_keys (map (λ kv, (kv.1, f kv.2)) l) (map fst l) = true.
Proof.
  intros Hd. unfold same_keys. apply andb_true_iff. rewrite !forallb_forall. split.
  - intros [k b] ([k' a] & [= -> ->] & Hin)%list_elem_of_In%list_elem_of_fmap.
    apply bool_decide_eq_true, list_elem_of_fmap. by exists (k', a).
  - intros k ([k' a] & -> & Hin)%list_elem_of_In%list_elem_of_fmap.
    apply bool_decide_eq_true. cbn [fst]. by rewrite (dict_get_map f l k' a).
Qed.

(** no reference is unsatisfiable: the canonical print of a well-formed
    reference is accepted by its own check. *)
Theorem reference_accepted r : wf_reference r → check r (snapshot_of r) = Ok tt.
Proof.
  intros [Hd Hw]. apply check_shows. do 2 eexists. split_and!; [done|done|done|by apply same_keys_map|].
  intros name t Hin. rewrite Forall_forall in Hw. specialize (Hw _ Hin). simpl in Hw.
  eexists _, (merge_sort (key_le (has_rowid t)) (rows t)). split; [by apply dict_get_map|].
  pose proof (merge_sort_Permutation (key_le (has_rowid t)) (rows t)) as Hp. destruct Hw as [Hc Hi].
  split; [done|by rewrite Hp| | |].
  - intros Hr. rewrite Hp. auto.
  - apply in_order_sorted. rewrite map_map.
    apply (StronglySorted_fmap _ (key_le (has_rowid t))); [done|]. apply (StronglySorted_merge_sort _).
  - by eexists.
Qed.

(** ** Lemmas: reading *)

Definition rows_total (l : list (string * Table)) : Z :=
  foldr (λ nt n, Z.of_nat (length (rows nt.2)) + n) 0 l.

(** A table as the reader builds it. *)
Record read_ok (t : Table) : Prop := {
  ro_columns : 1 <= Z.of_nat (length (columns t)) <= 256;
  ro_identity : Forall (λ r : Row, is_Some r.1 ↔ has_rowid t = true) (rows t);
}.

Lemma rows_total_nonneg l : 0 <= rows_total l.
Proof. induction l as [|[n t] l IH]; simpl; lia. Qed.

Lemma rows_total_set n t l : rows_total (dict_set n t l) <= rows_total l + Z.of_nat (length (rows t)).
Proof.
  induction l as [|[n' t'] l IH]; simpl; [lia|]. case_bool_decide; simpl; lia.
Qed.

Lemma dict_set_names {A} n (a : A) l :
  map fst (dict_set n a l) = if str_in n (map fst l) then map fst l else map fst l ++ [n].
Proof.
  unfold str_in. induction l as [|[n' a'] l IH]; [done|]. simpl. destruct (decide (n = n')) as [->|Hn].
  - rewrite !bool_decide_eq_true_2 by set_solver. done.
  - rewrite (bool_decide_eq_false_2 (n = n')) by done. simpl. rewrite IH.
    rewrite (bool_decide_ext (n ∈ n' :: map fst l) (n ∈ map fst l)) by (rewrite elem_of_cons; naive_solver).
    by case_bool_decide.
Qed.

Lemma dict_set_nodup {A} n (a : A) l : NoDup (map fst l) → NoDup (map fst (dict_set n a l)).
Proof.
  intros H. rewrite dict_set_names. unfold str_in. case_bool_decide; [done|].
  apply NoDup_app. split_and!; [done|set_solver|apply NoDup_singleton].
Qed.

Lemma dict_set_forall {A} (P : string * A → Prop) n (a : A) l :
  Forall P l → P (n, a) → Forall P (dict_set n a l).
Proof.
  intros H Ha. induction H as [|[n' a'] l Hx Hl IH]; simpl; [by constructor|].
  case_bool_decide; by constructor.
Qed.

Lemma dict_set_length {A} n (a : A) l : (length (dict_set n a l) ≤ S (length l))%nat.
Proof. induction l as [|[n' a'] l IH]; simpl; [lia|]. case_bool_decide; simpl; lia. Qed.

Lemma read_records_ok rowid m found m' :
  0 <= m_count m <= MAX_ROWS → foldR (read_record rowid) m found = Ok m' →
  Forall (λ r : Row, is_Some r.1 ↔ rowid = true) (m_rows m) →
  m_count m' = m_count m + (Z.of_nat (length (m_rows m')) - Z.of_nat (length (m_rows m)))
  ∧ 0 <= m_count m' <= MAX_ROWS ∧ Forall (λ r : Row, is_Some r.1 ↔ rowid = true) (m_rows m').
Proof.
  intros Hm H Hr. eapply (foldR_ind _ (λ _ x, m_count x = m_count m + (Z.of_nat (length (m_rows x)) - Z.of_nat (length (m_rows m)))
    ∧ 0 <= m_count x <= MAX_ROWS ∧ Forall (λ r : Row, is_Some r.1 ↔ rowid = true) (m_rows x)) found []); [|clear m' H|exact H].
  { split_and!; [lia|lia|lia|done]. }
  intros _ row x x' (Hc & Hb & Hf) _ H. unfold read_record in H. inv_check. inv_bool.
  cbn [m_rows m_count] in *. rewrite length_app. cbn [length]. split_and!; [lia|lia|lia|].
  apply Forall_app. split; [done|]. constructor; [|done].
  match goal with H : read_row _ _ = Ok _ |- _ => unfold read_row in H; destruct rowid; inv_check end; cbn [fst].
  - match goal with H : match ?v with _ => _ end = Ok _ |- _ => destruct v; simplify_eq/= end. split; [done|eauto].
  - split; [by intros [? ?]|done].
Qed.

Lemma read_table_ok c storage g name g' :
  read_table c storage g name = Ok g' →
  0 <= g_count g <= MAX_ROWS → rows_total (g_tables g) <= g_count g →
  Forall (λ nt, read_ok nt.2) (g_tables g) → NoDup (map fst (g_tables g)) →
  0 <= g_count g' <= MAX_ROWS ∧ rows_total (g_tables g') <= g_count g'
  ∧ Forall (λ nt, read_ok nt.2) (g_tables g') ∧ NoDup (map fst (g_tables g'))
  ∧ (length (g_tables g') ≤ S (length (g_tables g)))%nat.
Proof.
  intros H Hc Ht Hf Hn. unfold read_table in H. inv_check. inv_bool.
  match goal with H : foldR _ _ _ = Ok _ |- _ => apply read_records_ok in H as (E1 & E2 & E3); [|done|done] end.
  cbn [m_rows m_count g_tables g_count] in *. cbn [length] in E1. split_and!.
  - lia.
  - lia.
  - match goal with |- context [dict_set name ?t ?l] => pose proof (rows_total_set name t l) as Hs end.
    cbn [rows] in Hs. lia.
  - apply dict_set_forall; [done|]. split; cbn [snd columns rows has_rowid]; [|done].
    repeat match goal with H : mapR _ _ = Ok _ |- _ => apply mapR_length in H end. lia.
  - by apply dict_set_nodup.
  - apply dict_set_length.
Qed.

(** ** Properties *)

(** a reference that was read is bounded and regular: at most 2048 schema
    objects, 128 tables with distinct names and 10,000 rows in all, each table
    with 1 to 256 columns and every one of its rows identified exactly when the
    table has rowids; and no transaction was open. *)
Theorem read_reference_bounded c r :
  read_reference c = Ok r →
  in_transaction c = false ∧ Z.of_nat (length (schema r)) <= 2048
  ∧ Z.of_nat (length (tables r)) <= 128 ∧ NoDup (map fst (tables r))
  ∧ rows_total (tables r) <= MAX_ROWS ∧ Forall (λ nt, read_ok nt.2) (tables r).
Proof.
  intros H. unfold read_reference in H. inv_check. inv_bool.
  match goal with H : foldR (read_table _ _) _ ?names = Ok ?g |- _ =>
    eapply (foldR_ind _ (λ pre x, 0 <= g_count x <= MAX_ROWS ∧ rows_total (g_tables x) <= g_count x
      ∧ Forall (λ nt, read_ok nt.2) (g_tables x) ∧ NoDup (map fst (g_tables x))
      ∧ (length (g_tables x) ≤ length pre)%nat) names []) in H as (I1 & I2 & I3 & I4 & I5)
  end.
  - cbn [schema tables]. simpl app in I5. split_and!; [done|lia|lia|done|lia|done].
  - cbn. split_and!; [lia|done|lia|constructor|constructor|lia].
  - intros pre n x x' (J1 & J2 & J3 & J4 & J5) _ Hx.
    destruct (read_table_ok _ _ _ _ _ Hx J1 J2 J3 J4) as (K1 & K2 & K3 & K4 & K5).
    rewrite length_app. cbn [length]. split_and!; [lia|lia|done|done|done|lia].
Qed.

(** A one-table database, for concrete runs. *)
Definition small_execute (sql : string) : option (list (list pyval)) :=
  if bool_decide (sql = "BEGIN") then Some []
  else if bool_decide (sql = "PRAGMA encoding") then Some [[PStr "UTF-8"]]
  else if bool_decide (sql = SCHEMA_SQL) then Some [[PStr "table"; PStr "t"; PStr "t"; PStr "CREATE TABLE t(a)"]]
  else if bool_decide (sql = "PRAGMA main.table_list") then
    Some [[PStr "main"; PStr "t"; PStr "table"; PInt 1; PInt 0; PInt 0]]
  else if bool_decide (sql = "PRAGMA main.table_xinfo(" +:+ quote "t" +:+ ")") then
    Some [[PInt 0; PStr "a"; PStr ""; PInt 0; PNone; PInt 0; PInt 0]]
  else if bool_decide (sql = "SELECT " +:+ quote "oid" +:+ ",typeof(" +:+ quote "a" +:+ ")," +:+ quote "a" +:+ " FROM main." +:+ quote "t")
  then Some [[PInt 1; PStr "text"; PStr "b"]; [PInt 2; PStr "real"; PFloat 4607182418800017408]; [PInt 3; PStr "text"; PStr "b"]]
  else None.
Definition small_table : Table :=
  mkTable ["a"] [(Some 1, [CText "b"]); (Some 2, [CReal 4607182418800017408]); (Some 3, [CText "b"])] true.
Definition small_reference : Reference :=
  mkReference [[Some "table"; Some "t"; Some "t"; Some "CREATE TABLE t(a)"]]
    [("t", small_table)].

Lemma read_reference_bounded_witness :
  read_reference (mkConnection false true small_execute) = Ok small_reference
  ∧ rows_total (tables small_reference) <= MAX_ROWS.
Proof.
  assert (read_reference (mkConnection false true small_execute) = Ok small_reference) as H by (vm_compute; reflexivity).
  split; [exact H|]. apply (read_reference_bounded _ _ H).
Defined.

Lemma small_wf : wf_reference small_reference.
Proof.
  split; [apply NoDup_singleton|]. constructor; [|constructor]. split.
  - repeat constructor; simpl; lia.
  - intros _. apply (bool_decide_unpack _). vm_compute. done.
Defined.

Lemma reference_accepted_witness :
  wf_reference small_reference ∧ check small_reference (snapshot_of small_reference) = Ok tt.
Proof. split; [exact small_wf|]. apply reference_accepted. exact small_wf. Defined.

Lemma check_unique_witness :
  check small_reference (snapshot_of small_reference) = Ok tt
  ∧ is_Some (row_texts true (snapshot_of small_reference) "t").
Proof.
  assert (check small_reference (snapshot_of small_reference) = Ok tt) as H by (vm_compute; reflexivity).
  split; [exact H|]. refine (proj2 (proj2 (check_unique _ _ _ "t" small_table H H _))). constructor.
Defined.
