(* ===== verification/Sqlite.v ===== *)
(** The statements that probes/pmb1-finite-runner/mechanism.py sends to its
    in-memory [sqlite3] connection, with the documented meaning of each: rows
    under rowids, BEFORE triggers that abort, foreign keys with a cascade,
    conflict clauses, statement rollback, the change counter and
    [sqlite_schema]. Values need no affinity conversion and one connection sees
    its own writes, so transactions are not represented. *)
From S2P Require Import Prelude Json JsonParse Oracle.
Open Scope Z_scope.

(** ** Data *)

Inductive action := AInsert | AUpdate | ADelete.
#[export] Instance action_eq_dec : EqDecision action.
Proof. solve_decision. Defined.

(** A column: [alias] for [INTEGER PRIMARY KEY], which names the rowid, [key]
    for another primary key. *)
Record Column := mkColumn {
  cl_name : string;
  cl_alias : bool;
  cl_key : bool;
  cl_notnull : bool;
  cl_default : Cell;
  cl_parent : option string;
}.

Inductive conflict := OnAbort | OnReplace | OnUpsert (column : string) (value : Cell).
Inductive expr := Lit (c : Cell) | ColumnMinus (column : string) (z : Z).

Inductive stmt :=
| ForeignKeysOn
| CreateTable (name : string) (cols : list Column)
| Insert (c : conflict) (table : string) (cols : option (list string)) (values : list Cell)
| Update (table column : string) (e : expr) (where_ : list (string * Cell))
| Delete (table : string) (where_ : list (string * Cell))
| Select (cols : list string) (table : string) (where_ : list (string * Cell))
| CreateTrigger (name table : string) (a : action) (cascade : bool)
| DropTrigger (name : string).

Record Trigger := mkTrigger {
  tr_name : string;
  tr_table : string;
  tr_action : action;
  tr_cascade : bool;
}.

Definition Stored : Type := Z * list Cell.

Record Db := mkDb {
  d_defs : list (string * list Column);
  d_rows : list (string * list Stored);
  d_triggers : list Trigger;
  d_schema : list (list (option string));
  d_foreign_keys : bool;
  d_changes : Z;
}.

Definition empty_db : Db := mkDb [] [] [] [] false 0.

(** ** Operations *)

Definition integrity {A} : res A := Err (External "IntegrityError").
Definition operational {A} : res A := Err (External "OperationalError").

Definition rows_of (d : Db) (t : string) : list Stored := match dict_get t (d_rows d) with Some l => l | None => [] end.
Definition set_rows (t : string) (l : list Stored) (d : Db) : Db :=
  mkDb (d_defs d) (dict_set t l (d_rows d)) (d_triggers d) (d_schema d) (d_foreign_keys d) (d_changes d).
Definition count_changes (n : Z) (d : Db) : Db :=
  mkDb (d_defs d) (d_rows d) (d_triggers d) (d_schema d) (d_foreign_keys d) (d_changes d + n).

Fixpoint column_index (c : string) (cols : list Column) : option nat :=
  match cols with
  | [] => None
  | x :: cols' => if bool_decide (c = cl_name x) then Some O else S <$> column_index c cols'
  end.

Definition value_of (cols : list Column) (c : string) (r : Stored) : option Cell :=
  i ← column_index c cols; r.2 !! i.

(** [WHERE a=x AND b=y ...] *)
Definition matches (cols : list Column) (w : list (string * Cell)) (r : Stored) : bool :=
  forallb (λ cv, bool_decide (value_of cols cv.1 r = Some cv.2)) w.

(** [COALESCE((SELECT state='open' AND generation=1 FROM control WHERE id=1),0)=0] *)
Definition not_open (d : Db) : bool :=
  match dict_get "control" (d_defs d) with
  | Some cols =>
      negb (existsb (λ r, matches cols [("id", CInteger 1); ("state", CText "open"); ("generation", CInteger 1)] r)
              (rows_of d "control"))
  | None => true
  end.

(** [EXISTS(SELECT 1 FROM session WHERE parent_id=OLD.id)] *)
Definition has_children (d : Db) (old : Stored) : bool :=
  match dict_get "session" (d_defs d) with
  | Some cols => existsb (matches cols [("parent_id", CInteger old.1)]) (rows_of d "session")
  | None => false
  end.

(** The BEFORE triggers of one row operation: [RAISE(ABORT, 'closed')]. *)
Definition aborts (d : Db) (t : string) (a : action) (old : Stored) : bool :=
  existsb (λ tr, bool_decide (tr_table tr = t) && bool_decide (tr_action tr = a)
                 && not_open d && negb (tr_cascade tr && has_children d old)) (d_triggers d).

(** NOT NULL and FOREIGN KEY constraints of a row. *)
Definition parent_exists (d : Db) (parent : string) (c : Cell) : bool :=
  match c with
  | CNull => true
  | CInteger z => existsb (λ r : Stored, r.1 =? z) (rows_of d parent)
  | _ => false
  end.
Definition row_valid (d : Db) (cols : list Column) (r : Stored) : bool :=
  forallb (λ cv : Column * Cell,
    negb (cl_notnull cv.1 && bool_decide (cv.2 = CNull))
    && match cl_parent cv.1 with
       | Some p => negb (d_foreign_keys d) || parent_exists d p cv.2
       | None => true
       end) (combine cols r.2).

(** The rows that conflict with a new one: the same rowid or primary key. *)
Definition key_cell (cols : list Column) (r : Stored) : option Cell :=
  match List.find (λ cv : Column * Cell, cl_key cv.1) (combine cols r.2) with Some cv => Some cv.2 | None => None end.
Definition conflicts (cols : list Column) (r old : Stored) : bool :=
  (r.1 =? old.1)
  || match key_cell cols r with
     | Some k => bool_decide (key_cell cols old = Some k)
     | None => false
     end.

Fixpoint insert_row (r : Stored) (l : list Stored) : list Stored :=
  match l with
  | [] => [r]
  | x :: l' => if r.1 <=? x.1 then r :: l else x :: insert_row r l'
  end.

(** The stored row of a list of values: the alias column gives the rowid. *)
Definition next_rowid (l : list Stored) : Z := foldr (λ r n, Z.max r.1 n) 0 l + 1.
Definition stored (cols : list Column) (l : list Stored) (vals : list Cell) : Stored :=
  match List.find (λ cv : Column * Cell, cl_alias cv.1) (combine cols vals) with
  | Some (_, CInteger z) => (z, vals)
  | _ => (next_rowid l, vals)
  end.

(** [VALUES] of a column list, the others at their defaults. *)
Definition fill (cols : list Column) (names : option (list string)) (vals : list Cell) : list Cell :=
  match names with
  | None => vals
  | Some ns => map (λ c, match dict_get (cl_name c) (combine ns vals) with Some v => v | None => cl_default c end) cols
  end.

Definition assign (cols : list Column) (c : string) (v : Cell) (r : Stored) : Stored :=
  match column_index c cols with Some i => (r.1, <[i:=v]> r.2) | None => r end.

Definition eval (cols : list Column) (e : expr) (r : Stored) : Cell :=
  match e with
  | Lit c => c
  | ColumnMinus c z => match value_of cols c r with Some (CInteger x) => CInteger (x - z) | _ => CNull end
  end.

(** One updated row of a table. *)
Definition update_row (t : string) (cols : list Column) (f : Stored → Stored) (d : Db) (r : Stored) : res Db :=
  if aborts d t AUpdate r then integrity
  else
    let r' := f r in
    if row_valid d cols r'
    then Ok (count_changes 1 (set_rows t (map (λ x, if x.1 =? r.1 then r' else x) (rows_of d t)) d))
    else integrity.

(** One deleted row, then the children of its cascade. *)
Definition delete_child (t : string) (d : Db) (r : Stored) : res Db :=
  if aborts d t ADelete r then integrity
  else Ok (count_changes 1 (set_rows t (filter (λ x, x.1 ≠ r.1) (rows_of d t)) d)).
Definition children (d : Db) (parent : string) (old : Stored) : list (string * Stored) :=
  concat (map (λ dc : string * list Column,
    match List.find (λ c, bool_decide (cl_parent c = Some parent)) dc.2 with
    | Some c => map (λ r, (dc.1, r)) (filter (λ r, matches dc.2 [(cl_name c, CInteger old.1)] r = true) (rows_of d dc.1))
    | None => []
    end) (d_defs d)).
Definition delete_row (t : string) (d : Db) (r : Stored) : res Db :=
  let? d1 := delete_child t d r in
  if d_foreign_keys d then foldR (λ d x, delete_child x.1 d x.2) d1 (children d t r) else Ok d1.

Definition insert_stmt (c : conflict) (t : string) (cols : list Column) (r : Stored) (d : Db) : res Db :=
  if aborts d t AInsert r then integrity else
  let clash := filter (λ x, conflicts cols r x = true) (rows_of d t) in
  match c, clash with
  | _, [] =>
      if row_valid d cols r then Ok (count_changes 1 (set_rows t (insert_row r (rows_of d t)) d)) else integrity
  | OnAbort, _ => integrity
  | OnReplace, _ =>
      if row_valid d cols r
      then Ok (count_changes 1 (set_rows t (insert_row r (filter (λ x, conflicts cols r x = false) (rows_of d t))) d))
      else integrity
  | OnUpsert col v, x :: _ => update_row t cols (assign cols col v) d x
  end.

Definition schema_text (o : option string) : string := match o with Some s => s | None => EmptyString end.
(** [ORDER BY type, name, tbl_name] *)
Fixpoint insert_schema (r : list (option string)) (l : list (list (option string))) : list (list (option string)) :=
  match l with
  | [] => [r]
  | x :: l' =>
      let key y := map schema_text (take 3 y) in
      let le a b := match a, b with
                    | [a1; a2; a3], [b1; b2; b3] =>
                        if bool_decide (a1 = b1) then
                          if bool_decide (a2 = b2) then String.leb a3 b3 else String.leb a2 b2
                        else String.leb a1 b1
                    | _, _ => true
                    end in
      if le (key r) (key x) then r :: l else x :: insert_schema r l'
  end.

Definition schema_entry (type name table : string) (sql : option string) : list (option string) :=
  [Some type; Some name; Some table; sql].

Definition create (name : string) (cols : list Column) (text : string) (d : Db) : Db :=
  let table := schema_entry "table" name name (Some text) in
  let s := insert_schema table (d_schema d) in
  let s := if existsb cl_key cols
           then insert_schema (schema_entry "index" ("sqlite_autoindex_" +:+ name +:+ "_1") name None) s else s in
  mkDb (d_defs d ++ [(name, cols)]) (dict_set name [] (d_rows d)) (d_triggers d) s (d_foreign_keys d) (d_changes d).

Definition with_triggers (ts : list Trigger) (s : list (list (option string))) (d : Db) : Db :=
  mkDb (d_defs d) (d_rows d) ts s (d_foreign_keys d) (d_changes d).

(** The value of a selected column; an unknown one is an error of the query. *)
Definition project (cols : list Column) (names : list string) (r : Stored) : option (list Cell) :=
  mapM (λ n, value_of cols n r) names.

(** One statement with its text: its rows, or its error without any effect. *)
Definition step (text : string) (s : stmt) (d : Db) : res (list (list Cell) * Db) :=
  match s with
  | ForeignKeysOn => Ok ([], mkDb (d_defs d) (d_rows d) (d_triggers d) (d_schema d) true (d_changes d))
  | CreateTable name cols =>
      if bool_decide (is_Some (dict_get name (d_defs d))) then operational else Ok ([], create name cols text d)
  | CreateTrigger name table a cascade =>
      if existsb (λ tr, bool_decide (tr_name tr = name)) (d_triggers d)
         || negb (bool_decide (is_Some (dict_get table (d_defs d)))) then operational
      else Ok ([], with_triggers (d_triggers d ++ [mkTrigger name table a cascade])
                     (insert_schema (schema_entry "trigger" name table (Some text)) (d_schema d)) d)
  | DropTrigger name =>
      if existsb (λ tr, bool_decide (tr_name tr = name)) (d_triggers d)
      then Ok ([], with_triggers (filter (λ tr, tr_name tr ≠ name) (d_triggers d))
                     (filter (λ r, take 2 r ≠ [Some "trigger"; Some name]) (d_schema d)) d)
      else operational
  | Insert c t names vals =>
      match dict_get t (d_defs d) with
      | None => operational
      | Some cols => let? d' := insert_stmt c t cols (stored cols (rows_of d t) (fill cols names vals)) d in Ok ([], d')
      end
  | Update t col e w =>
      match dict_get t (d_defs d) with
      | None => operational
      | Some cols =>
          let? d' := foldR (update_row t cols (λ r, assign cols col (eval cols e r) r)) d
                       (filter (λ r, matches cols w r = true) (rows_of d t)) in
          Ok ([], d')
      end
  | Delete t w =>
      match dict_get t (d_defs d) with
      | None => operational
      | Some cols =>
          let? d' := foldR (delete_row t) d (filter (λ r, matches cols w r = true) (rows_of d t)) in Ok ([], d')
      end
  | Select names t w =>
      match dict_get t (d_defs d) with
      | None => operational
      | Some cols =>
          match mapM (project cols names) (filter (λ r, matches cols w r = true) (rows_of d t)) with
          | Some rows => Ok (rows, d)
          | None => operational
          end
      end
  end.

(** *** Answers to the reference reader *)

Definition typeof (c : Cell) : string :=
  match c with CNull => "null" | CInteger _ => "integer" | CReal _ => "real" | CText _ => "text" | CBlob _ => "blob" end.
Definition binding (c : Cell) : pyval :=
  match c with
  | CNull => PNone | CInteger z => PInt z | CReal b => PFloat b | CText s => PStr s | CBlob s => PBytes s
  end.

Definition schema_bindings (d : Db) : list (list pyval) :=
  map (map (λ c, match c with Some s => PStr s | None => PNone end)) (d_schema d).

(** The queries of full_state_oracle.py over this database. *)
Definition answer (d : Db) (sql : string) : option (list (list pyval)) :=
  if bool_decide (sql = "BEGIN") then Some []
  else if bool_decide (sql = "PRAGMA encoding") then Some [[PStr "UTF-8"]]
  else if bool_decide (sql = SCHEMA_SQL) then Some (schema_bindings d)
  else if bool_decide (sql = "PRAGMA main.table_list") then
    Some (map (λ dc : string * list Column,
            [PStr "main"; PStr dc.1; PStr "table"; PInt (Z.of_nat (length dc.2)); PInt 0; PInt 0]) (d_defs d))
  else
    match List.find (λ dc : string * list Column,
            bool_decide (sql = "PRAGMA main.table_xinfo(" +:+ quote dc.1 +:+ ")")) (d_defs d) with
    | Some dc =>
        Some (map (λ c, [PInt 0; PStr (cl_name c); PStr EmptyString; PInt 0; PNone; PInt 0; PInt 0]) dc.2)
    | None =>
        match List.find (λ dc : string * list Column,
            bool_decide (sql = "SELECT " +:+ joined "," (expressions (map cl_name dc.2) true)
                               +:+ " FROM main." +:+ quote dc.1)) (d_defs d) with
        | Some dc => Some (map (λ r : Stored, PInt r.1 :: concat (map (λ c, [PStr (typeof c); binding c]) r.2))
                             (rows_of d dc.1))
        | None => None
        end
    end.

Definition connection (d : Db) : Connection := mkConnection false true (answer d).

(** ** Specification vocabulary *)

(** A database under its closed guards: control is not open, every table but
    control has its three triggers, and the one cascade exception stands for a
    foreign key whose children are guarded themselves. *)
Record fenced (d : Db) : Prop := {
  f_closed : not_open d = true;
  f_keys : d_foreign_keys d = true;
  f_guards : ∀ t a, is_Some (dict_get t (d_defs d)) → t ≠ "control" →
    ∃ tr, tr ∈ d_triggers d ∧ tr_table tr = t ∧ tr_action tr = a
          ∧ (tr_cascade tr = true → t = "cascade_parent" ∧ a = ADelete);
  f_session : ∃ cols c, ("session", cols) ∈ d_defs d ∧ dict_get "session" (d_defs d) = Some cols
    ∧ List.find (λ c, bool_decide (cl_parent c = Some "cascade_parent")) cols = Some c ∧ cl_name c = "parent_id";
  f_children : ∀ t cols c, (t, cols) ∈ d_defs d → c ∈ cols → cl_parent c = Some "cascade_parent" → t = "session";
}.

(** The statements that read or write rows outside control. *)
Definition ordinary (s : stmt) : bool :=
  match s with
  | Insert _ t _ _ | Update t _ _ _ | Delete t _ => negb (bool_decide (t = "control"))
  | Select _ _ _ => true
  | _ => false
  end.

(** A sequence of attempts; a failed statement leaves the database as it was. *)
Fixpoint attempts (l : list (string * stmt)) (d : Db) : Db :=
  match l with
  | [] => d
  | x :: l' => attempts l' (match step x.1 x.2 d with Ok r => r.2 | Err _ => d end)
  end.

(** ** Lemmas *)

Lemma not_open_control d d' :
  d_defs d' = d_defs d → rows_of d' "control" = rows_of d "control" → not_open d' = not_open d.
Proof. intros H1 H2. unfold not_open. by rewrite H1, H2. Qed.

Lemma fenced_aborts d t a r :
  fenced d → is_Some (dict_get t (d_defs d)) → t ≠ "control" →
  aborts d t a r = true ∨ (t = "cascade_parent" ∧ a = ADelete ∧ has_children d r = true).
Proof.
  intros [Hc _ Hg _ _] Ht Hne. destruct (Hg t a Ht Hne) as (tr & Hin & H1 & H2 & H3).
  destruct (tr_cascade tr && has_children d r) eqn:E.
  - apply andb_true_iff in E as [E1 E2]. destruct (H3 E1). by right.
  - left. unfold aborts. apply existsb_exists. exists tr. split; [by apply list_elem_of_In|].
    rewrite !bool_decide_eq_true_2, Hc, E by done. done.
Qed.

(** The children of a guarded parent refuse to go. *)
Lemma cascade_refused d r :
  fenced d → has_children d r = true → delete_row "cascade_parent" d r = integrity.
Proof.
  intros F Hch. unfold delete_row, delete_child at 1. destruct (aborts d "cascade_parent" ADelete r); [done|].
  set (d1 := count_changes 1 _). cbn [rbind]. rewrite (f_keys _ F).
  assert (∀ x, x ∈ children d "cascade_parent" r → delete_child x.1 d1 x.2 = integrity) as Hall.
  { intros [t x] Hx. apply list_elem_of_In, in_concat in Hx as (l & Hl & Hx).
    apply list_elem_of_In, list_elem_of_fmap in Hl as ([t' cols] & -> & Hdef).
    destruct (List.find _ _) as [c|] eqn:Ef; [|done]. apply find_some in Ef as [Hin Hp]. cbn [snd fst] in *.
    apply bool_decide_eq_true in Hp. apply list_elem_of_In in Hin.
    apply list_elem_of_In, list_elem_of_fmap in Hx as (y & [= -> ->] & _).
    pose proof (f_children _ F _ _ _ Hdef Hin Hp) as ->. cbn [fst snd].
    unfold delete_child. destruct (f_session _ F) as (cs & _ & _ & Hget & _).
    assert (fenced d1) as F1.
    { destruct F as [G1 G2 G3 G4 G5]. split; [|done|done|done|done]. rewrite <- G1. apply not_open_control; [done|].
      unfold d1, rows_of, count_changes, set_rows. cbn [d_rows]. by rewrite dict_get_set. }
    destruct (fenced_aborts d1 "session" ADelete y F1) as [->|[? _]]; [by eexists|done|done|done]. }
  unfold has_children in Hch. destruct (f_session _ F) as (cs & c & Hin & Hget & Hfind & Hname).
  rewrite Hget in Hch. apply existsb_exists in Hch as (y & Hy & Hm).
  destruct (children d "cascade_parent" r) as [|x l] eqn:El.
  - exfalso. assert (("session", y) ∈ children d "cascade_parent" r) as Hbad; [|rewrite El in Hbad; by apply elem_of_nil in Hbad].
    apply list_elem_of_In, in_concat. eexists. split.
    + apply list_elem_of_In, list_elem_of_fmap. exists ("session", cs). split; [reflexivity|done].
    + cbn [fst snd]. rewrite Hfind, Hname. apply list_elem_of_In, list_elem_of_fmap. exists y. split; [done|].
      apply list_elem_of_filter. split; [done|by apply list_elem_of_In].
  - cbn [foldR]. rewrite Hall by set_solver. done.
Qed.

Lemma fenced_step d text s :
  fenced d → ordinary s = true →
  match step text s d with Ok r => r.2 = d | Err _ => True end.
Proof.
  intros F Ho. destruct s as [| |c t cols vals|t col e w|t w|names t w| |]; try done; simpl in *;
    (destruct (dict_get t (d_defs d)) as [cs|] eqn:Et; [|done]).
  - apply negb_true_iff, bool_decide_eq_false in Ho. unfold insert_stmt.
    destruct (fenced_aborts d t AInsert (stored cs (rows_of d t) (fill cs cols vals)) F) as [->|(_ & [=] & _)]; [by eexists|done|done].
  - apply negb_true_iff, bool_decide_eq_false in Ho.
    destruct (filter _ _) as [|r l]; [done|]. simpl. unfold update_row at 1.
    destruct (fenced_aborts d t AUpdate r F) as [->|(_ & [=] & _)]; [by eexists|done|done].
  - apply negb_true_iff, bool_decide_eq_false in Ho. destruct (filter _ _) as [|r l]; [done|]. simpl.
    destruct (fenced_aborts d t ADelete r F) as [H|(-> & _ & H)]; [by eexists|done| |].
    + unfold delete_row at 1, delete_child at 1. by rewrite H.
    + by rewrite cascade_refused.
  - by destruct (mapM _ _).
Qed.

(** ** Properties *)

(** the closed guards hold: in a closed guarded database no sequence of
    ordinary inserts, updates, upserts, replacements or deletes, foreign key
    cascade included, changes anything at all outside control. *)
Theorem closed_fence d l :
  fenced d → Forall (λ x, ordinary x.2 = true) l → attempts l d = d.
Proof.
  intros F H. induction H as [|x l Hx _ IH]; [done|]. simpl.
  pose proof (fenced_step d x.1 x.2 F Hx) as Hs. by destruct (step x.1 x.2 d) as [[rows d']|e]; simpl in Hs; subst.
Qed.
