(* ===== verification/Mechanism.v ===== *)
(** The source-owned programs of probes/pmb1-finite-runner/mechanism.py: the
    twelve cases and their packet, the independent oracle and the fixed SQL
    adapter over its own database. *)
From S2P Require Import Prelude Json JsonParse Cost Packet Oracle Sqlite.
Open Scope Z_scope.

(** ** Data *)

Definition TABLES : list string :=
  ["control"; "application"; "audit"; "session"; "quota"; "object_kv"; "alarm"; "cascade_parent"].

Definition SCHEMA : string := "
PRAGMA foreign_keys=ON;
CREATE TABLE control(id INTEGER PRIMARY KEY, state TEXT NOT NULL, generation INTEGER NOT NULL);
INSERT INTO control VALUES(1,'open',1);
CREATE TABLE application(id INTEGER PRIMARY KEY, value TEXT NOT NULL);
INSERT INTO application VALUES(1,'synthetic');
CREATE TABLE audit(id INTEGER PRIMARY KEY, event TEXT NOT NULL);
CREATE TABLE cascade_parent(id INTEGER PRIMARY KEY);
INSERT INTO cascade_parent VALUES(1);
CREATE TABLE session(id INTEGER PRIMARY KEY, value TEXT NOT NULL,
 parent_id INTEGER NOT NULL DEFAULT 1 REFERENCES cascade_parent(id) ON DELETE CASCADE);
INSERT INTO session(id,value) VALUES(1,'synthetic');
CREATE TABLE quota(id INTEGER PRIMARY KEY, credit INTEGER NOT NULL);
INSERT INTO quota VALUES(1,100);
CREATE TABLE object_kv(id TEXT PRIMARY KEY, value BLOB NOT NULL);
INSERT INTO object_kv VALUES('binary',x'00ff');
CREATE TABLE alarm(id INTEGER PRIMARY KEY, instant INTEGER);
INSERT INTO alarm VALUES(1,NULL);
".

Definition COLUMNS : list (string * list string) :=
  [("control", ["id"; "state"; "generation"]); ("application", ["id"; "value"]); ("audit", ["id"; "event"]);
   ("session", ["id"; "value"; "parent_id"]); ("quota", ["id"; "credit"]); ("object_kv", ["id"; "value"]);
   ("alarm", ["id"; "instant"]); ("cascade_parent", ["id"])].

Definition CHALLENGES : list (Z * list string) :=
  [(1, ["UPDATE application SET value='forbidden' WHERE id=1"]);
   (2, ["UPDATE application SET value='late-admitted' WHERE id=1"]);
   (3, ["INSERT INTO application VALUES(1,'stale') ON CONFLICT(id) DO UPDATE SET value='stale'";
        "INSERT OR REPLACE INTO application VALUES(1,'stale')";
        "DELETE FROM cascade_parent WHERE id=1"]);
   (7, ["UPDATE application SET value='original-delayed' WHERE id=1";
        "UPDATE application SET value='temporary-delayed' WHERE id=1"]);
   (8, ["INSERT INTO audit VALUES(1,'scheduled-maintenance')";
        "INSERT INTO session(id,value) VALUES(2,'session-write')";
        "INSERT INTO audit VALUES(2,'authentication-failure')";
        "UPDATE quota SET credit=credit-1 WHERE id=1"]);
   (9, ["INSERT INTO audit VALUES(1,'service-entry')";
        "INSERT INTO audit VALUES(2,'queue-entry')";
        "INSERT INTO audit VALUES(3,'hint-entry')";
        "UPDATE alarm SET instant=999 WHERE id=1";
        "UPDATE object_kv SET value=x'ff00' WHERE id='binary'"])].

Definition challenges_of (number : Z) : option (list string) :=
  snd <$> List.find (λ nc, nc.1 =? number) CHALLENGES.

(** ** The SQL texts *)

Definition action_name (a : action) : string :=
  match a with AInsert => "INSERT" | AUpdate => "UPDATE" | ADelete => "DELETE" end.
Definition actions : list action := [AInsert; AUpdate; ADelete].
Definition is_cascade (table : string) (a : action) : bool :=
  bool_decide (table = "cascade_parent") && bool_decide (a = ADelete).

Definition trigger_name (table : string) (a : action) : string :=
  "guard_" +:+ table +:+ "_" +:+ lower (action_name a).
Definition trigger_sql (table : string) (a : action) : string :=
  let cascade := if is_cascade table a
                 then " AND NOT EXISTS(SELECT 1 FROM session WHERE parent_id=OLD.id)" else EmptyString in
  "CREATE TRIGGER " +:+ trigger_name table a +:+ "
            BEFORE " +:+ action_name a +:+ " ON " +:+ table +:+ "
            WHEN COALESCE((SELECT state='open' AND generation=1
                          FROM control WHERE id=1),0)=0" +:+ cascade +:+ "
            BEGIN SELECT RAISE(ABORT,'closed'); END;".

Fixpoint chunks (n : nat) (fuel : nat) (l : list string) : list (list string) :=
  match fuel, l with
  | _, [] => []
  | O, _ => []
  | S fuel, _ => take n l :: chunks n fuel (drop n l)
  end.

(** The statements of [setup_sql], in order, and its batches of eight. *)
Definition setup_statements : list string :=
  map (λ v, strip v +:+ ";") (filter (λ v, strip v ≠ EmptyString) (split_on ";" SCHEMA))
  ++ concat (map (λ table, map (trigger_sql table) actions) (tail TABLES)).
Definition setup_batches : list (list string) := chunks 8 (length setup_statements) setup_statements.
Definition setup_sql : list string := map (joined newline) setup_batches.

Definition schema_query : string := "SELECT type,name,tbl_name,sql FROM sqlite_schema ORDER BY type,name,tbl_name".
Definition table_query (table : string) : string := "SELECT rowid,* FROM " +:+ quote table +:+ " ORDER BY rowid".

(** ** The meaning of the texts *)

Definition id_column : Column := mkColumn "id" true false false CNull None.
Definition text_column (n : string) : Column := mkColumn n false false true CNull None.
Definition integer_column (n : string) : Column := mkColumn n false false true CNull None.
Definition definitions : list (string * list Column) :=
  [("control", [id_column; text_column "state"; integer_column "generation"]);
   ("application", [id_column; text_column "value"]);
   ("audit", [id_column; text_column "event"]);
   ("cascade_parent", [id_column]);
   ("session", [id_column; text_column "value"; mkColumn "parent_id" false false true (CInteger 1) (Some "cascade_parent")]);
   ("quota", [id_column; integer_column "credit"]);
   ("object_kv", [mkColumn "id" false true false CNull None; mkColumn "value" false false true CNull None]);
   ("alarm", [id_column; mkColumn "instant" false false false CNull None])].

Definition one : list (string * Cell) := [("id", CInteger 1)].
Definition blob (a b : Z) : Cell := CBlob (String (chr a) (String (chr b) EmptyString)).

Definition meanings : list (string * stmt) :=
  [("PRAGMA foreign_keys=ON", ForeignKeysOn);
   ("INSERT INTO control VALUES(1,'open',1)", Insert OnAbort "control" None [CInteger 1; CText "open"; CInteger 1]);
   ("INSERT INTO application VALUES(1,'synthetic')", Insert OnAbort "application" None [CInteger 1; CText "synthetic"]);
   ("INSERT INTO cascade_parent VALUES(1)", Insert OnAbort "cascade_parent" None [CInteger 1]);
   ("INSERT INTO session(id,value) VALUES(1,'synthetic')",
    Insert OnAbort "session" (Some ["id"; "value"]) [CInteger 1; CText "synthetic"]);
   ("INSERT INTO quota VALUES(1,100)", Insert OnAbort "quota" None [CInteger 1; CInteger 100]);
   ("INSERT INTO object_kv VALUES('binary',x'00ff')", Insert OnAbort "object_kv" None [CText "binary"; blob 0 255]);
   ("INSERT INTO alarm VALUES(1,NULL)", Insert OnAbort "alarm" None [CInteger 1; CNull]);
   ("UPDATE application SET value='forbidden' WHERE id=1", Update "application" "value" (Lit (CText "forbidden")) one);
   ("UPDATE application SET value='late-admitted' WHERE id=1", Update "application" "value" (Lit (CText "late-admitted")) one);
   ("INSERT INTO application VALUES(1,'stale') ON CONFLICT(id) DO UPDATE SET value='stale'",
    Insert (OnUpsert "value" (CText "stale")) "application" None [CInteger 1; CText "stale"]);
   ("INSERT OR REPLACE INTO application VALUES(1,'stale')", Insert OnReplace "application" None [CInteger 1; CText "stale"]);
   ("DELETE FROM cascade_parent WHERE id=1", Delete "cascade_parent" one);
   ("UPDATE application SET value='original-delayed' WHERE id=1",
    Update "application" "value" (Lit (CText "original-delayed")) one);
   ("UPDATE application SET value='temporary-delayed' WHERE id=1",
    Update "application" "value" (Lit (CText "temporary-delayed")) one);
   ("INSERT INTO audit VALUES(1,'scheduled-maintenance')",
    Insert OnAbort "audit" None [CInteger 1; CText "scheduled-maintenance"]);
   ("INSERT INTO session(id,value) VALUES(2,'session-write')",
    Insert OnAbort "session" (Some ["id"; "value"]) [CInteger 2; CText "session-write"]);
   ("INSERT INTO audit VALUES(2,'authentication-failure')",
    Insert OnAbort "audit" None [CInteger 2; CText "authentication-failure"]);
   ("UPDATE quota SET credit=credit-1 WHERE id=1", Update "quota" "credit" (ColumnMinus "credit" 1) one);
   ("INSERT INTO audit VALUES(1,'service-entry')", Insert OnAbort "audit" None [CInteger 1; CText "service-entry"]);
   ("INSERT INTO audit VALUES(2,'queue-entry')", Insert OnAbort "audit" None [CInteger 2; CText "queue-entry"]);
   ("INSERT INTO audit VALUES(3,'hint-entry')", Insert OnAbort "audit" None [CInteger 3; CText "hint-entry"]);
   ("UPDATE alarm SET instant=999 WHERE id=1", Update "alarm" "instant" (Lit (CInteger 999)) one);
   ("UPDATE object_kv SET value=x'ff00' WHERE id='binary'",
    Update "object_kv" "value" (Lit (blob 255 0)) [("id", CText "binary")]);
   ("UPDATE application SET value='synthetic' WHERE id=1", Update "application" "value" (Lit (CText "synthetic")) one);
   ("UPDATE application SET value='transient' WHERE id=1", Update "application" "value" (Lit (CText "transient")) one);
   ("DELETE FROM control WHERE id=1", Delete "control" one);
   ("SELECT state,generation FROM control WHERE id=1", Select ["state"; "generation"] "control" one);
   ("SELECT state FROM control WHERE id=1", Select ["state"] "control" one);
   ("SELECT value FROM application WHERE id=1", Select ["value"] "application" one);
   ("UPDATE control SET state='closed' WHERE id=1", Update "control" "state" (Lit (CText "closed")) one);
   ("UPDATE control SET state='closed' WHERE id=1 AND state='open' AND generation=1",
    Update "control" "state" (Lit (CText "closed")) [("id", CInteger 1); ("state", CText "open"); ("generation", CInteger 1)]);
   ("DROP TRIGGER guard_application_update", DropTrigger (trigger_name "application" AUpdate))]
  ++ concat (map (λ table, map (λ a, (trigger_sql table a,
       CreateTrigger (trigger_name table a) table a (is_cascade table a))) actions) TABLES).

(** A statement text without its semicolon. *)
Definition unterminated (s : string) : string :=
  let n := String.length s in
  if bool_decide (String.substring (n - 1) 1 s = ";") then String.substring 0 (n - 1) s else s.

Definition table_meaning (text : string) : option stmt :=
  (λ nc, CreateTable nc.1 nc.2) <$>
  List.find (λ nc : string * list Column, String.prefix ("CREATE TABLE " +:+ nc.1 +:+ "(") text) definitions.

Definition meaning (text : string) : option stmt :=
  match dict_get text meanings with
  | Some s => Some s
  | None => match dict_get (unterminated text) meanings with
            | Some s => Some s
            | None => table_meaning text
            end
  end.

Definition run_sql (text : string) (d : Db) : res (list (list Cell) * Db) :=
  match meaning text with
  | Some s => step (unterminated text) s d
  | None => Err (External "unknown statement")
  end.

(** ** The programs *)

(** [Cost(requests=..., mutations=..., ...)] of the fields a program sets. *)
Definition program_cost (requests readers receipts mutations statements effects challenges captures : Z) : Cost :=
  mkCost requests readers receipts 0 0 mutations 0 0 statements effects 0 0 16384 challenges captures.

Definition case_prefix (number : Z) : string := "case" +:+ str_of_int number.

Definition bool_int (b : bool) : Z := if b then 1 else 0.

Definition setup_operations (number : Z) (stage : string) : list Operation :=
  imap (λ index _, mkOperation (case_prefix number +:+ "_setup_" +:+ str_of_int (Z.of_nat index)) stage
          (program_cost 1 0 0 1 8 8 0 0) "mechanism" ("sqlite.setup." +:+ str_of_int (Z.of_nat index)) None None) setup_sql.

Definition capture_operations (number : Z) (stage : string) : list Operation :=
  map (λ page, let last := (page =? Z.of_nat (length TABLES)) in
         mkOperation (case_prefix number +:+ "_" +:+ stage +:+ "_" +:+ str_of_int page) stage
           (program_cost 1 1 0 0 1 0 0 (bool_int last)) "mechanism" ("sqlite.capture." +:+ str_of_int page)
           (if last then Some stage else None) None)
    (seqZ 0 (Z.of_nat (length TABLES) + 1)).

Definition stage_action (number : Z) (interruption stage : string) : string :=
  if bool_decide (stage = "challenge") then obligation number
  else if bool_decide (stage = "interruption") then interruption
  else case_prefix number +:+ "." +:+ stage.

Definition is_mutation (stage : string) : bool :=
  str_in stage ["settle"; "close"; "challenge"; "temporary_install"; "admission_off"; "restore"].
Definition is_local (stage : string) : bool := str_in stage ["cleanup"; "interruption"].

Definition stage_cost (stage : string) : Cost :=
  let mutation := is_mutation stage in
  let local := is_local stage in
  let challenge := bool_decide (stage = "challenge") in
  program_cost (if local then 0 else 1) 0 (bool_int (negb mutation && negb local))
    (bool_int (mutation && negb local)) (if local then 0 else if challenge then 8 else 1)
    (if challenge then 8 else bool_int (mutation && negb local))
    (bool_int (str_in stage ["challenge"; "interruption"])) 0.

(** [dataclasses.replace(cost, challenges=0)] *)
Definition without_challenges (c : Cost) : Cost :=
  mkCost (requests c) (reader_queries c) (receipt_reads c) (metadata_reads c) (authenticated_checks c)
    (mutations c) (creates c) (deletes c) (sql_statements c) (effects c) (outbound_bytes c) (inbound_bytes c)
    (artifact_bytes c) 0 (captures c).

(** The body of [for stage in stages]. *)
Definition stage_operations (number : Z) (interruption stage : string) : list Operation :=
  (if bool_decide (stage = "settle") then setup_operations number stage else [])
  ++ if is_capture_stage stage then capture_operations number stage else
  [mkOperation (case_prefix number +:+ "_" +:+ stage) stage (stage_cost stage) "mechanism"
     (stage_action number interruption stage) None None]
  ++ (if bool_decide (stage = "challenge") then
        match challenges_of number with
        | Some l =>
            map (λ index, mkOperation (case_prefix number +:+ "_challenge_" +:+ str_of_int index) stage
                            (without_challenges (stage_cost stage)) "mechanism"
                            ("sqlite.challenge." +:+ str_of_int index) None None)
              (seqZ 1 (Z.of_nat (length l) - 1))
        | None => []
        end
      else [])
  ++ (if bool_decide (stage = "restore_readback") && (number =? 7) then
        map (λ index, mkOperation ("case7_delayed_after_restore_" +:+ str_of_int index) stage
                        (program_cost 1 0 0 1 8 1 0 0) "mechanism"
                        ("sqlite.restored-delayed." +:+ str_of_int index) None None) [0; 1]
      else []).

Definition program_case (interruption : string) (number : Z) : Case :=
  mkCase number
    (concat (map (stage_operations number interruption) (expected_stages number (Some interruption))))
    (if number =? 12 then Some interruption else None).

Definition programs (interruption : string) : res (list Case) :=
  refuse_if (negb (bool_decide (interruption = "partial_output"))) "uncovered_interruption_variant_no_allocation" ;?
  Ok (map (program_case interruption) twelve).

(** ** The packet and the oracle *)

Definition RETAINED : string := "synthetic-retained-artifact".
Definition TEMPORARY : string := "synthetic-temporary-artifact".

Section Mechanism.
(** hashlib's SHA-256 as its lower-case hexadecimal text, and the digests of the
    program's own source files: [source_pin()] and the oracle's. *)
Context (sha256 : string → string) (source_pin oracle_pin : string).

Definition cases_json (cases : list Case) : json := JArr (map case_json cases).

Definition make_packet (number : Z) (interruption : string) : res Packet :=
  let? cases := programs interruption in
  let pin := source_pin in
  let program_pin := sha256 (dumps (cases_json cases)) in
  let context := mkSourceContext pin (sha256 RETAINED)
    (sha256 (dumps (JObj [("tables", JArr (map JStr TABLES)); ("closed_generation", JInt 1)])))
    (sha256 SCHEMA) (sha256 (joined newline setup_sql)) oracle_pin
    ["synthetic-d1"; "synthetic-object-kv-alarm"] ["1"; "1"] 8 29 program_pin in
  Ok (mkPacket ("source-case-" +:+ str_of_int number) pin PROFILE OBJECT_PROFILE cases 0 1200 60
        (Some context) number).

(** [db.executescript] over the batches. *)
Definition run_script (d : Db) (texts : list string) : res Db :=
  foldR (λ d text, let? r := run_sql text d in Ok r.2) d texts.
Definition initialize (d : Db) : res Db := foldR run_script d setup_batches.

(** [OracleRefused] is not a [Refusal] of the runner. *)
Definition foreign {A} (r : res A) : res A :=
  match r with
  | Err (Refusal _) => Err (External "OracleRefused")
  | r => r
  end.

Definition is_real (c : Cell) : bool := match c with CReal _ => true | _ => false end.

(** [MechanismOracle.__init__]: its reference. *)
Definition oracle_reference : res Reference :=
  let? d := initialize empty_db in
  let? r := run_sql "UPDATE control SET state='closed' WHERE id=1" d in
  let? reference := foreign (read_reference (connection r.2)) in
  require (negb (existsb (λ nt, existsb (λ row, existsb is_real row.2) (rows nt.2)) (tables reference)))
    "independent_reference_REAL" ;?
  Ok reference.

(** [s.endswith(suffix)] *)
Definition endswith (suffix s : string) : bool :=
  (slen suffix <=? slen s)
  && bool_decide (String.substring (String.length s - String.length suffix) (String.length suffix) s = suffix).

(** The dictionary a receipt's evidence must equal. *)
Definition expected_evidence (packet : Packet) (operation : Operation) : json :=
  let fact := if bool_decide (op_stage operation = "challenge") then "guarded-rejection"
              else if endswith "readback" (op_stage operation)
              then "closed" else "source-observed" in
  JObj ([("operation", JStr (op_name operation)); ("source", JStr (p_source_pin packet)); ("fact", JStr fact)]
        ++ (if bool_decide (op_stage operation = "interruption")
            then [("partial", JStr ("{" +:+ dquote +:+ "schema" +:+ dquote +:+ ":"))] else [])).

(** [MechanismOracle.verify_receipt] *)
Definition verify_receipt (packet : Packet) (operation : Operation) (receipt : Receipt) : res unit :=
  let? value := loads (r_evidence receipt) in
  refuse_if (negb (json_eqb value (expected_evidence packet operation))) "independent_mechanism_receipt_mismatch".

(** [any(cell[0] == "real" for table ... for row ... for cell ...)] over the
    shape the adapter prints; another shape ends in a Python error. *)
Definition odd_shape {A} : res A := Err (External "TypeError").
Definition cell_is_real (cell : json) : res bool :=
  match cell with
  | JArr (tag :: _) => Ok (bool_decide (py_of_json tag = PStr "real"))
  | _ => odd_shape
  end.
Fixpoint anyR {A} (f : A → res bool) (l : list A) : res bool :=
  match l with
  | [] => Ok false
  | x :: l' => let? b := f x in if b then Ok true else anyR f l'
  end.
Definition row_has_real (row : json) : res bool :=
  match row with JArr cells => anyR cell_is_real cells | _ => odd_shape end.
Definition table_has_real (kv : string * json) : res bool :=
  match kv.2 with
  | JObj d => match dict_get "rows" d with Some (JArr rs) => anyR row_has_real rs | _ => odd_shape end
  | _ => odd_shape
  end.
Definition has_real (value : json) : res bool :=
  match value with
  | JObj d => match dict_get "tables" d with Some (JObj ts) => anyR table_has_real ts | _ => odd_shape end
  | _ => odd_shape
  end.

(** [MechanismOracle.verify] *)
Definition verify (reference : Reference) (snapshot : Snapshot) : res unit :=
  let? value := loads (s_canonical snapshot) in
  let? real := has_real value in
  refuse_if real "observed_REAL_refused" ;?
  foreign (Oracle.check reference value).

(** ** The adapter *)

(** The attributes of [MechanismAdapter] and the counters of one invocation. *)
Record Mech := mkMech {
  m_db : Db;
  m_pages : list (string * list (string * json));
  m_calls : list string;
  m_retained : string;
  m_pending : list string;
  m_expires : Z;
  n_sql : Z;
  n_effects : Z;
}.

(** [MechanismAdapter.__init__] *)
Definition adapter (packet : Packet) : res Mech :=
  match nth_error (p_cases packet) 11 with
  | None => Err (External "IndexError")
  | Some c =>
      let? cases := programs (match c_interruption c with Some i => if empty_str i then "partial_output" else i
                                                        | None => "partial_output" end) in
      refuse_if (negb (bool_decide (p_cases packet = cases))) "source_owned_program_mismatch" ;?
      Ok (mkMech empty_db [] [] RETAINED [] (p_deadline packet) 0 0)
  end.

(** *** Invocation, over a clock that may change its own state [C] *)

Context {C : Type} (clock : M C Z) (packet : Packet).
Notation A := (M (Mech * C)).

Definition now : A Z := λ s, let (r, c) := clock s.2 in (r, (s.1, c)).
Definition upd (f : Mech → Mech) : A unit := modify (λ s, (f s.1, s.2)).

Definition set_db (d : Db) (m : Mech) : Mech :=
  mkMech d (m_pages m) (m_calls m) (m_retained m) (m_pending m) (m_expires m) (n_sql m) (n_effects m).
Definition set_pages (p : list (string * list (string * json))) (m : Mech) : Mech :=
  mkMech (m_db m) p (m_calls m) (m_retained m) (m_pending m) (m_expires m) (n_sql m) (n_effects m).
Definition add_call (n : string) (m : Mech) : Mech :=
  mkMech (m_db m) (m_pages m) (m_calls m ++ [n]) (m_retained m) (m_pending m) (m_expires m) 0 0.
Definition set_retained (r : string) (m : Mech) : Mech :=
  mkMech (m_db m) (m_pages m) (m_calls m) r (m_pending m) (m_expires m) (n_sql m) (n_effects m).
Definition add_pending (l : list string) (m : Mech) : Mech :=
  mkMech (m_db m) (m_pages m) (m_calls m) (m_retained m) (m_pending m ++ l) (m_expires m) (n_sql m) (n_effects m).
Definition set_expires (t : Z) (m : Mech) : Mech :=
  mkMech (m_db m) (m_pages m) (m_calls m) (m_retained m) (m_pending m) t (n_sql m) (n_effects m).
Definition set_counts (q e : Z) (m : Mech) : Mech :=
  mkMech (m_db m) (m_pages m) (m_calls m) (m_retained m) (m_pending m) (m_expires m) q e.

(** The nested [execute]: one counted statement, its changes counted even when
    it raises (a failed statement changes nothing). *)
Definition execute (text : string) : A (list (list Cell)) := λ s,
  let m := s.1 in
  match run_sql text (m_db m) with
  | Ok (rows, d) =>
      (Ok rows, (set_db d (set_counts (n_sql m + 1) (n_effects m + (d_changes d - d_changes (m_db m))) m), s.2))
  | Err e => (Err e, (set_counts (n_sql m + 1) (n_effects m) m, s.2))
  end.

(** [self.db.executescript(batch)] under the trace callback: each statement takes
    effect on its own, up to the first that fails. *)
Fixpoint script (texts : list string) : A unit :=
  match texts with
  | [] => ret tt
  | t :: texts' => execute t ;* script texts'
  end.

(** [int(action.rsplit(".", 1)[1])] *)
Fixpoint after_dot (s acc : string) : string :=
  match s with
  | EmptyString => acc
  | String c s' => if code c =? 46 then after_dot s' s' else after_dot s' acc
  end.
Definition last_index (action : string) : Z := int_of_str (after_dot action EmptyString).

Definition nthR {T} (i : Z) (l : list T) : res T :=
  match (if i <? 0 then nth_error l (Z.to_nat (Z.of_nat (length l) + i)) else nth_error l (Z.to_nat i)) with
  | Some x => Ok x
  | None => Err (External "IndexError")
  end.

Definition refuse {T} (label : string) : A T := raise (Refusal label).

(** [_cell] *)
Definition adapter_cell (c : Cell) : res json :=
  match c with
  | CNull => Ok (JArr [JStr "null"; JNull])
  | CInteger z => if (- 2 ^ 63 <=? z) && (z <? 2 ^ 63) then Ok (JArr [JStr "integer"; JInt z])
                  else Err (Refusal "actual_REAL_or_unsupported_cell")
  | CText s => Ok (JArr [JStr "text"; JStr s])
  | CBlob s => Ok (JArr [JStr "blob"; JStr (hexs s)])
  | CReal _ => Err (Refusal "actual_REAL_or_unsupported_cell")
  end.

(** The rows of [_schema_sql()] and of [_table_sql(table)], as [clean] keeps them. *)
Definition schema_page (d : Db) : json := schema_json (d_schema d).
Definition table_page (d : Db) (table : string) : res json :=
  match dict_get table (d_defs d), dict_get table COLUMNS with
  | Some _, Some cols =>
      let? rs := mapR (λ r : Stored, mapR adapter_cell r.2) (rows_of d table) in
      Ok (JObj [("columns", JArr (map JStr cols)); ("rows", JArr (map JArr rs));
                ("rowids", JArr (map (λ r : Stored, JInt r.1) (rows_of d table)))])
  | _, _ => Err (External "OperationalError")
  end.

(** One counted read of a page. *)
Definition read_page (page : Z) : A (string * json) :=
  upd (λ m, set_counts (n_sql m + 1) (n_effects m) m) ;*
  let* s := get in
  if page =? 0 then ret ("schema", schema_page (m_db s.1))
  else
    let* table := lift (nthR (page - 1) TABLES) in
    let* j := lift (table_page (m_db s.1) table) in
    ret (table, j).

(** [self.pages.setdefault(stage, {})[name] = clean] *)
Definition keep_page (stage name : string) (clean : json) (m : Mech) : Mech :=
  let pages := match dict_get stage (m_pages m) with Some p => p | None => [] end in
  set_pages (dict_set stage (dict_set name clean pages) (m_pages m)) m.

Definition page_of (acquired : list (string * json)) (n : string) : res json :=
  match dict_get n acquired with Some j => Ok j | None => Err (External "KeyError") end.

Definition make_snapshot (acquired : list (string * json)) : res Snapshot :=
  let? schema := page_of acquired "schema" in
  let? ts := mapR (λ n, let? j := page_of acquired n in Ok (n, j)) TABLES in
  Ok (mkSnapshot (dumps (JObj [("schema", schema); ("tables", JObj ts)])) (p_source_pin packet)
        "synthetic-complete-seven-table" true).

(** [_canonical({"operation": ..., "source": ..., "fact": ...})] *)
Definition evidence (operation : Operation) (fact : string) : string :=
  dumps (JObj [("operation", JStr (op_name operation)); ("source", JStr (p_source_pin packet)); ("fact", JStr fact)]).

(** [dataclasses.replace(operation.cost, sql_statements=..., effects=...)] *)
Definition with_counts (c : Cost) (q e : Z) : Cost :=
  mkCost (requests c) (reader_queries c) (receipt_reads c) (metadata_reads c) (authenticated_checks c)
    (mutations c) (creates c) (deletes c) q e (outbound_bytes c) (inbound_bytes c) (artifact_bytes c)
    (challenges c) (captures c).

Definition confirmed (operation : Operation) (fact : string) (snapshot : option Snapshot) : A Receipt :=
  let* s := get in
  ret (mkReceipt "confirmed" (with_counts (op_cost operation) (n_sql s.1) (n_effects s.1))
         (evidence operation fact) snapshot).

Definition closed_row : list (list Cell) := [[CText "closed"; CInteger 1]].
Definition control_query : string := "SELECT state,generation FROM control WHERE id=1".

(** [try: execute(sql) except sqlite3.IntegrityError: pass else: raise] *)
Definition expect_guard (text label : string) : A unit := λ s,
  match execute text s with
  | (Err (External "IntegrityError"), s') => (Ok tt, s')
  | (Err e, s') => (Err e, s')
  | (Ok _, s') => (Err (Refusal label), s')
  end.

(** The [stage == "settle"] branch. *)
Definition settle (number : Z) : A unit :=
  if number =? 2 then
    execute "UPDATE application SET value='synthetic' WHERE id=1" ;* upd (add_pending ["admitted-open-1"])
  else if number =? 5 then execute "DELETE FROM control WHERE id=1" ;* ret tt
  else execute control_query ;* ret tt.

(** The capture branch: its snapshot. *)
Definition capture (operation : Operation) (number : Z) (stage : string) : A (option Snapshot) :=
  (if (number =? 6) && bool_decide (stage = "preflight") then
     let* t := now in
     let* s := get in
     if m_expires s.1 <=? t then refuse "source_observation_credential_expired" else ret tt
   else ret tt) ;*
  let* nj := read_page (last_index (op_action operation)) in
  upd (keep_page stage nj.1 nj.2) ;*
  match op_capture operation with
  | Some c =>
      if empty_str c then ret None else
      let* s := get in
      let* snap := lift (make_snapshot (match dict_get stage (m_pages s.1) with Some p => p | None => [] end)) in
      ret (Some snap)
  | None => ret None
  end.

(** The challenge branch, after its case 6 return. *)
Definition challenge (operation : Operation) (number : Z) : A unit :=
  if number =? 10 then
    execute "DROP TRIGGER guard_application_update" ;* refuse "trusted_operator_guard_bypass_detected"
  else if number =? 11 then
    execute "DROP TRIGGER guard_application_update" ;*
    execute "UPDATE application SET value='transient' WHERE id=1" ;*
    execute "UPDATE application SET value='synthetic' WHERE id=1" ;*
    refuse "broken_guard_mutate_revert_detected"
  else
    let index := if String.prefix "sqlite.challenge." (op_action operation)
                 then last_index (op_action operation) else 0 in
    let* text := lift (nthR index (match challenges_of number with
                                   | Some l => l
                                   | None => match challenges_of 1 with Some l => l | None => [] end
                                   end)) in
    expect_guard text "guard_failed".

Definition expect_rows (text : string) (rows : list (list Cell)) (label : string) : A unit :=
  let* found := execute text in
  if bool_decide (found = rows) then ret tt else refuse label.

(** [restore_readback] and [cleanup_readback]. *)
Definition exact_readback : A unit :=
  let* found := execute control_query in
  let* s := get in
  if bool_decide (found = closed_row) && bool_decide (m_retained s.1 = RETAINED)
  then ret tt else refuse "exact_restore_or_cleanup_readback".

Definition observe_state : A unit := execute "SELECT state FROM control WHERE id=1" ;* ret tt.

(** [MechanismAdapter.invoke] after its guards, by the branches of the code. *)
Definition perform (case : Case) (operation : Operation) : A Receipt :=
  let stage := op_stage operation in
  let number := c_number case in
  let at_ s := bool_decide (stage = s) in
  if String.prefix "sqlite.setup." (op_action operation) then
    let* batch := lift (nthR (last_index (op_action operation)) setup_batches) in
    script batch ;* confirmed operation "source-observed" None
  else if at_ "settle" then settle number ;* confirmed operation "source-observed" None
  else if at_ "close" then
    execute "UPDATE control SET state='closed' WHERE id=1 AND state='open' AND generation=1" ;*
    if number =? 4 then raise (External "RuntimeError") else confirmed operation "source-observed" None
  else if at_ "closure_readback" then
    expect_rows control_query closed_row "malformed_or_missing_control_fail_closed" ;*
    confirmed operation "closed" None
  else if is_capture_stage stage then
    let* snap := capture operation number stage in
    confirmed operation "source-observed" snap
  else if at_ "challenge" then
    if number =? 6 then
      observe_state ;*
      let* t := now in
      upd (set_expires t) ;* confirmed operation "guarded-rejection" None
    else challenge operation number ;* confirmed operation "guarded-rejection" None
  else if at_ "challenge_readback" then
    expect_rows "SELECT value FROM application WHERE id=1" [[CText "synthetic"]] "challenge_effect_persisted" ;*
    confirmed operation "closed" None
  else if at_ "admission_off" then observe_state ;* confirmed operation "source-observed" None
  else if at_ "temporary_install" then
    observe_state ;* upd (set_retained TEMPORARY) ;* confirmed operation "source-observed" None
  else if at_ "restore" then
    execute control_query ;* upd (set_retained RETAINED) ;*
    when (number =? 7) (upd (add_pending ["original-delayed"; "temporary-delayed"])) ;*
    confirmed operation "source-observed" None
  else if String.prefix "sqlite.restored-delayed." (op_action operation) then
    let* text := lift (nthR (last_index (op_action operation))
                         (match challenges_of 7 with Some l => l | None => [] end)) in
    expect_guard text "restored_delayed_generation_not_fenced" ;* confirmed operation "closed" None
  else if at_ "restore_readback" || at_ "cleanup_readback" then
    exact_readback ;* confirmed operation "closed" None
  else if at_ "cleanup" then confirmed operation "source-observed" None
  else if at_ "interruption" then
    if match c_interruption case with Some i => str_in i ["unknown_restore"; "unknown_cleanup"] | None => false end
    then raise (External "RuntimeError")
    else ret (mkReceipt "refused" (mkCost 0 0 0 0 0 0 0 0 0 0 0 0 16384 1 0)
                (dumps (JObj [("operation", JStr (op_name operation)); ("source", JStr (p_source_pin packet));
                              ("fact", JStr "source-observed");
                              ("partial", JStr ("{" +:+ dquote +:+ "schema" +:+ dquote +:+ ":"))])) None)
  else refuse "unsupported_mechanism_method".

(** The three guards of [invoke], with its clock reads in order. *)
Definition past (t : A bool) : A unit :=
  let* b := t in if b then refuse "fixed_operation_or_deadline" else ret tt.

Definition invoke (operation : Operation) (deadline : Z) : A Receipt :=
  let* case := lift (nthR (p_selected_case packet - 1) (p_cases packet)) in
  past (ret (negb (bool_decide (operation ∈ c_operations case)))) ;*
  past (let* t := now in ret (deadline <=? t)) ;*
  past (let* t := now in let* s := get in ret (m_expires s.1 <=? t)) ;*
  upd (add_call (op_name operation)) ;*
  perform case operation.

End Mechanism.
