(* ===== verification/MechanismFacts.v ===== *)
(** What the source-owned programs guarantee: their packet is admissible for
    every case and any hash function, their closed database is fenced, the
    adapter is bounded by its deadlines, and its observations show the oracle's
    reference. *)
From S2P Require Import Prelude Json JsonParse Cost Packet Oracle Sqlite Mechanism.
Open Scope Z_scope.

(** ** The closed database of the programs *)

(** [initialize(db)] and the close of the fixed programs. *)
Definition closed_result : res Db :=
  let? d := initialize empty_db in
  let? r := run_sql "UPDATE control SET state='closed' WHERE id=1 AND state='open' AND generation=1" d in
  Ok r.2.
Definition closed_db : Db := Eval vm_compute in match closed_result with Ok d => d | Err _ => empty_db end.

Lemma closed_db_result : closed_result = Ok closed_db.
Proof. vm_compute. reflexivity. Qed.

Lemma closed_db_tables t : is_Some (dict_get t (d_defs closed_db)) →
  t ∈ ["control"; "application"; "audit"; "cascade_parent"; "session"; "quota"; "object_kv"; "alarm"].
Proof.
  intros [x Hx]. simpl in Hx. repeat (case_bool_decide; [subst; set_solver|]). done.
Qed.

Lemma closed_db_fenced : fenced closed_db.
Proof.
  split.
  - vm_compute. reflexivity.
  - reflexivity.
  - intros t a Ht Hne. apply closed_db_tables in Ht.
    exists (mkTrigger (trigger_name t a) t a (is_cascade t a)).
    repeat (apply elem_of_cons in Ht as [->|Ht]); try done; try (by apply elem_of_nil in Ht);
      (split; [destruct a; vm_compute; repeat first [left; reflexivity|right]|split; [done|split; [done|]]]);
      destruct a; vm_compute; done.
  - do 2 eexists. split; [do 4 right; left; reflexivity|]. split_and!; reflexivity.
  - intros t cols c Ht Hc Hp. simpl in Ht.
    repeat (apply elem_of_cons in Ht as [[= -> ->]|Ht]); try (by apply elem_of_nil in Ht); try done;
      repeat (apply elem_of_cons in Hc as [->|Hc]); try (by apply elem_of_nil in Hc); done.
Qed.

(** ** The packet *)

Definition program_cases : list Case := Eval vm_compute in map (program_case "partial_output") twelve.
Lemma program_cases_eq : map (program_case "partial_output") twelve = program_cases.
Proof. vm_compute. reflexivity. Qed.

Lemma program_cases_len : json_len (JArr (map case_json program_cases)) <= 1000000.
Proof. apply Z.leb_le. vm_compute. reflexivity. Qed.

Lemma program_cases_checked p : p_cases p = program_cases → check_cases p = Ok tt.
Proof. intros H. unfold check_cases. rewrite H. vm_compute. reflexivity. Qed.

Lemma validate_packet_intro p ctx :
  packet_binding_bad p = false → p_context p = Some ctx → 1 <= p_selected_case p <= 12 →
  population_bad ctx = false → allocation_bad ctx = false → window_bad p = false →
  json_len (packet_json p) <= 1024 ^ 2 → check_cases p = Ok tt → validate_packet p = Ok tt.
Proof.
  intros H1 H2 H3 H4 H5 H6 H7 H8. unfold validate_packet. rewrite H1, H2. cbn [refuse_if rbind].
  rewrite (proj2 (Z.leb_le 1 _)), (proj2 (Z.leb_le _ 12)), H4, H5, H6, (proj2 (Z.ltb_ge _ _)) by lia. done.
Qed.

Section Packet.
Context (sha256 : string → string) (source_pin oracle_pin : string).
Hypothesis sha256_digest : ∀ s, is_digest (sha256 s) = true.
Hypothesis source_pin_digest : is_digest source_pin = true.
Hypothesis oracle_pin_digest : is_digest oracle_pin = true.

(** The packet of a case, field by field. *)
Definition the_context : SourceContext :=
  mkSourceContext source_pin (sha256 RETAINED)
    (sha256 (dumps (JObj [("tables", JArr (map JStr TABLES)); ("closed_generation", JInt 1)])))
    (sha256 SCHEMA) (sha256 (joined newline setup_sql)) oracle_pin
    ["synthetic-d1"; "synthetic-object-kv-alarm"] ["1"; "1"] 8 29 (sha256 (dumps (cases_json program_cases))).
Definition the_packet (n : Z) : Packet :=
  mkPacket ("source-case-" +:+ str_of_int n) source_pin PROFILE OBJECT_PROFILE program_cases 0 1200 60
    (Some the_context) n.

Lemma make_packet_eq n : make_packet sha256 source_pin oracle_pin n "partial_output" = Ok (the_packet n).
Proof.
  unfold make_packet, programs. rewrite bool_decide_eq_true_2 by done. cbn [negb refuse_if rbind].
  by rewrite program_cases_eq.
Qed.

(** The key is short and not empty. *)
Lemma key_ok n : 1 <= n <= 12 →
  slen ("source-case-" +:+ str_of_int n) <= 20 ∧ empty_str ("source-case-" +:+ str_of_int n) = false
  ∧ json_len (JStr ("source-case-" +:+ str_of_int n)) <= 30 ∧ json_len (JInt n) <= 2.
Proof.
  intros Hn. assert (n ∈ seqZ 1 12) as Hin by (apply elem_of_seqZ; lia). clear Hn.
  repeat (apply elem_of_cons in Hin as [->|Hin]; [by vm_compute|]). by apply elem_of_nil in Hin.
Qed.

Lemma the_binding n : 1 <= n <= 12 → packet_binding_bad (the_packet n) = false.
Proof.
  intros Hn. destruct (key_ok n Hn) as (K1 & K2 & _).
  unfold is_digest in source_pin_digest. apply andb_true_iff in source_pin_digest as [Hl Hs].
  unfold packet_binding_bad, the_packet. cbn [p_key p_source_pin p_profile p_object_profile].
  rewrite K2, Hl, Hs, (proj2 (Z.ltb_ge 128 _)), !bool_decide_eq_true_2 by (done || lia). done.
Qed.

Lemma the_population : population_bad the_context = false.
Proof.
  unfold population_bad, the_context.
  cbn [candidate artifact configuration Packet.schema guards oracle population generations program_pin existsb].
  rewrite source_pin_digest, oracle_pin_digest, !sha256_digest. vm_compute. reflexivity.
Qed.

Lemma context_len : json_len (context_json the_context) <= 2000.
Proof.
  unfold context_json, the_context.
  cbn [candidate artifact configuration Packet.schema guards oracle population generations table_count schema_objects program_pin].
  rewrite json_len_obj. cbn [foldr fst snd length pred].
  rewrite !(json_len_digest source_pin), !(json_len_digest oracle_pin), !json_len_digest by auto.
  apply Z.leb_le. vm_compute. reflexivity.
Qed.

Lemma the_packet_len n : 1 <= n <= 12 → json_len (packet_json (the_packet n)) <= 1024 ^ 2.
Proof.
  intros Hn. destruct (key_ok n Hn) as (_ & _ & K3 & K4).
  unfold packet_json, the_packet.
  cbn [p_key p_source_pin p_profile p_object_profile p_cases p_starts p_deadline p_baseline_freshness p_context p_selected_case JOpt].
  rewrite json_len_obj. cbn [foldr fst snd length pred].
  rewrite (json_len_digest source_pin) by done. pose proof program_cases_len as K5. pose proof context_len as K6.
  revert K3 K4 K5 K6. generalize (json_len (JStr ("source-case-" +:+ str_of_int n))) (json_len (JInt n))
    (json_len (JArr (map case_json program_cases))) (json_len (context_json the_context)).
  clear. intros k1 k2 k3 k4.
  repeat match goal with |- context [slen (quoted ?k)] =>
    let v := eval vm_compute in (slen (quoted k)) in change (slen (quoted k)) with v end.
  repeat match goal with |- context [json_len ?k] =>
    let v := eval vm_compute in (json_len k) in change (json_len k) with v end.
  change (1024 ^ 2) with 1048576. lia.
Qed.

Lemma packet_admissible n :
  1 <= n <= 12 →
  ∃ p, make_packet sha256 source_pin oracle_pin n "partial_output" = Ok p ∧ validate_packet p = Ok tt.
Proof.
  intros Hn. exists (the_packet n). split; [apply make_packet_eq|].
  apply (validate_packet_intro _ the_context).
  - exact (the_binding n Hn).
  - reflexivity.
  - exact Hn.
  - exact the_population.
  - reflexivity.
  - reflexivity.
  - exact (the_packet_len n Hn).
  - apply program_cases_checked. reflexivity.
Qed.

(** the packet [make_packet] freezes is admissible for each of the twelve
    cases, whatever the hash function: bindings, population, window, plan size,
    the stage program of every case, captures and both budgets all pass. *)
Theorem make_packet_valid n :
  1 <= n <= 12 →
  ∃ p, make_packet sha256 source_pin oracle_pin n "partial_output" = Ok p ∧ validate_packet p = Ok tt.
Proof. apply packet_admissible. Qed.
End Packet.

(** A stand-in hash for concrete runs: a digest of the text's length. *)
Definition toy_sha256 (s : string) : string := Binary64.hex_digits 64 (slen s).
Lemma toy_digest s : is_digest (toy_sha256 s) = true.
Proof.
  unfold is_digest, toy_sha256. rewrite Binary64.slen_hex_digits, Binary64.hex_digits_hex by apply slen_nonneg. done.
Qed.

Lemma make_packet_valid_witness :
  ∃ p, make_packet toy_sha256 (toy_sha256 "a") (toy_sha256 "b") 7 "partial_output" = Ok p ∧ validate_packet p = Ok tt.
Proof. apply (make_packet_valid toy_sha256 _ _ toy_digest (toy_digest _) (toy_digest _)). lia. Defined.

(** ** The fence on the programs' own challenges *)

(** Every challenge statement of every case, with its meaning. *)
Definition challenge_statements : list (string * stmt) :=
  Eval vm_compute in
  omap (λ text, match meaning text with Some s => Some (text, s) | None => None end) (concat (map snd CHALLENGES)).

Lemma closed_fence_witness :
  fenced closed_db ∧ Forall (λ x, ordinary x.2 = true) challenge_statements
  ∧ attempts challenge_statements closed_db = closed_db.
Proof.
  assert (Forall (λ x, ordinary x.2 = true) challenge_statements) as H by (repeat constructor).
  split; [exact closed_db_fenced|]. split; [exact H|].
  exact (closed_fence closed_db challenge_statements closed_db_fenced H).
Defined.

(** the guards reject rather than ignore: on the programs' closed database
    each of the sixteen fixed challenge statements has a meaning and raises
    [sqlite3.IntegrityError]. *)
Theorem challenges_rejected :
  length challenge_statements = length (concat (map snd CHALLENGES))
  ∧ Forall (λ text, run_sql text closed_db = Err (External "IntegrityError")) (concat (map snd CHALLENGES)).
Proof. split; [reflexivity|]. repeat (constructor; [vm_compute; reflexivity|]). constructor. Qed.

(** ** The adapter *)

Section Adapter.
Context {C : Type} (clock : M C Z) (packet : Packet).
Notation A := (M (Mech * C)).

(** A step that leaves the record of calls alone. *)
Definition keeps_calls {T} (m : A T) : Prop := ∀ s, m_calls (m s).2.1 = m_calls s.1.

Lemma keeps_bind {T U} (m : A T) (f : T → A U) : keeps_calls m → (∀ a, keeps_calls (f a)) → keeps_calls (bind m f).
Proof.
  intros Hm Hf s. unfold bind. specialize (Hm s). destruct (m s) as [[a|e] s1]; simpl in *; [|done].
  by rewrite Hf.
Qed.
Lemma keeps_ret {T} (a : T) : keeps_calls (ret a). Proof. done. Qed.
Lemma keeps_raise {T} e : keeps_calls (raise e : A T). Proof. done. Qed.
Lemma keeps_get : keeps_calls (get : A (Mech * C)). Proof. done. Qed.
Lemma keeps_lift {T} (r : res T) : keeps_calls (lift r : A T). Proof. done. Qed.
Lemma keeps_upd f : (∀ m, m_calls (f m) = m_calls m) → keeps_calls (upd f). Proof. intros H s. apply H. Qed.
Lemma keeps_now : keeps_calls (now clock). Proof. intros s. unfold now. by destruct (clock s.2). Qed.
Lemma keeps_execute t : keeps_calls (execute t).
Proof. intros s. unfold execute. by destruct (run_sql t (m_db s.1)) as [[rows d]|e]. Qed.
Lemma keeps_expect t l : keeps_calls (expect_guard t l).
Proof.
  intros s. unfold expect_guard. pose proof (keeps_execute t s) as H.
  destruct (execute t s) as [[a|e] s1]; simpl in H; [done|]. by repeat case_match.
Qed.
Lemma keeps_script l : keeps_calls (script l).
Proof. induction l as [|t l IH]; [apply keeps_ret|]. apply keeps_bind; [apply keeps_execute|auto]. Qed.

Lemma keeps_perform case op : keeps_calls (perform clock packet case op).
Proof.
  unfold perform, settle, capture, challenge, expect_rows, exact_readback, observe_state, confirmed, read_page, when, refuse.
  repeat first
    [ apply keeps_ret | apply keeps_raise | apply keeps_get | apply keeps_lift | apply keeps_now
    | apply keeps_execute | apply keeps_expect | apply keeps_script
    | apply keeps_upd; intros ?; reflexivity
    | apply keeps_bind; [|intros ?]
    | match goal with |- keeps_calls (match ?x with _ => _ end) => destruct x end ].
Qed.

(** the adapter acts only on a fixed operation of the selected case, and only
    before its deadline and before its observation credential expires: any other
    invocation raises and changes nothing, and an admitted one is recorded
    exactly once, whatever then happens to it. *)
Theorem invoke_gated op deadline m c r m' c' :
  invoke clock packet op deadline (m, c) = (r, (m', c')) →
  (m' = m ∧ ∃ e, r = Err e)
  ∨ (m_calls m' = m_calls m ++ [op_name op]
     ∧ (∃ case, nthR (p_selected_case packet - 1) (p_cases packet) = Ok case ∧ op ∈ c_operations case)
     ∧ ∃ t1 c1 t2 c2, clock c = (Ok t1, c1) ∧ t1 < deadline ∧ clock c1 = (Ok t2, c2) ∧ t2 < m_expires m).
Proof.
  unfold invoke, past. intros H. apply bind_inv in H as [(case & s1 & E & H)|(e & s1 & E & [= -> <-])].
  2: { injection E as _ <-. left. eauto. }
  unfold lift in E. injection E as Ecase <-. unfold bind at 1 in H. cbn [ret] in H. unfold bind at 1 in H. cbn [ret] in H.
  destruct (bool_decide_reflect (op ∈ c_operations case)) as [Hop|Hop]; cbn [negb] in H.
  2: { injection H as <- <- <-. left. eauto. }
  unfold bind, now, ret, refuse, raise, get, modify, upd, Prelude.modify in H. cbn [fst snd] in H.
  destruct (clock c) as [[t1|e] c1] eqn:E1; cbn [fst snd] in H; [|injection H as <- <- <-; left; eauto].
  destruct (Z.leb_spec deadline t1) as [Hd|Hd]; [injection H as <- <- <-; left; eauto|].
  cbn [fst snd] in H. destruct (clock c1) as [[t2|e] c2] eqn:E2; cbn [fst snd] in H; [|injection H as <- <- <-; left; eauto].
  destruct (Z.leb_spec (m_expires m) t2) as [He|He]; [injection H as <- <- <-; left; eauto|].
  unfold Prelude.modify in H. cbn [fst snd] in H. right. pose proof (keeps_perform case op (add_call (op_name op) m, c2)) as Hk. rewrite H in Hk.
  cbn [fst snd] in Hk. split; [exact Hk|]. split; [by exists case|]. eauto 10.
Qed.
End Adapter.

Lemma invoke_gated_witness :
  let p := the_packet toy_sha256 (toy_sha256 "a") (toy_sha256 "b") 1 in
  let op := List.nth 0 (c_operations (List.nth 0 program_cases (mkCase 0 [] None))) (mkOperation "" "" zero_cost "" "" None None) in
  let m := mkMech empty_db [] [] RETAINED [] 1200 0 0 in
  ∃ r m' c', invoke (C := nat) (λ n, (Ok 5, S n)) p op 5 (m, 0%nat) = (r, (m', c')) ∧ m_calls m' = [].
Proof.
  intros p op m. destruct (invoke (C := nat) (λ n, (Ok 5, S n)) p op 5 (m, 0%nat)) as [r [m' c']] eqn:E.
  exists r, m', c'. split; [reflexivity|].
  destruct (invoke_gated _ _ _ _ _ _ _ _ _ E) as [[-> _]|(_ & _ & t1 & c1 & t2 & c2 & [= <- <-] & Hd & _)].
  - reflexivity.
  - exfalso. lia.
Defined.
