(* ===== verification/Rehearsal.v ===== *)
(** The whole rehearsal: [Runner] over its SQLite journal, the source-owned
    adapter and the independent oracle, run to its result for each case. *)
From S2P Require Import Prelude Json JsonParse Cost Packet RunnerJournal Runner RunnerFacts Oracle Sqlite Mechanism MechanismFacts.
Open Scope Z_scope.

(** ** Composition *)

(** The journal file, the adapter and the number of clock reads so far. *)
Record World := mkWorld {
  w_journal : SQLiteJournal.State;
  w_mech : Mech;
  w_ticks : nat;
}.

Section Compose.
Context (sha256 : string → string) (source_pin oracle_pin : string).
(** The fate of each journal connection, and the clock at its n-th read. *)
Context (fate : nat → SQLiteJournal.io) (ticks : nat → Z).
Context (packet : Packet) (reference : Reference).

Definition journal_call (m : M SQLiteJournal.State unit) : M World unit := λ w,
  let (r, j) := m (w_journal w) in (r, mkWorld j (w_mech w) (w_ticks w)).

#[export] Instance rehearsal_journal : JournalPort World := {|
  j_latch p d := journal_call (SQLiteJournal.latch fate p d);
  j_reserve n o := journal_call (SQLiteJournal.reserve fate n o);
  j_finish n o r := journal_call (SQLiteJournal.finish sha256 fate n o r);
  j_terminal s r := journal_call (SQLiteJournal.terminal fate s r) |}.

Definition tick : M nat Z := λ n, (Ok (ticks n), S n).
Definition read_clock : M World reading := λ w,
  let (r, n) := tick (w_ticks w) in
  (match r with Ok t => Ok (Tick t) | Err e => Err e end, mkWorld (w_journal w) (w_mech w) n).

Definition rehearsal_ports : Ports World := {|
  Runner.clock := read_clock;
  Runner.source_check := ret source_pin;
  Runner.invoke := λ op end_ w,
    let '(r, (m, n)) := Mechanism.invoke tick packet op end_ (w_mech w, w_ticks w) in
    (r, mkWorld (w_journal w) m n);
  Runner.verify_receipt := λ op r, lift (Mechanism.verify_receipt packet op r);
  Runner.verify := λ s, lift (Mechanism.verify reference s) |}.

Definition rehearsal_config : Config :=
  mkConfig packet [mkAdapterFacts "mechanism" true (program_pin <$> p_context packet)] true.

Definition new_world (m : Mech) : World := mkWorld (SQLiteJournal.mkState SQLiteJournal.fresh 0) m 0.
End Compose.

(** One rehearsal of case [n] on a fresh fixture and journal. *)
Section Rehearse.
Context (ticks : nat → Z) (fate : nat → SQLiteJournal.io).

Definition pin : string := toy_sha256 "source".
Definition packet_of (n : Z) : Packet := the_packet toy_sha256 pin (toy_sha256 "oracle") n.

Definition rehearse (n : Z) : res (res Result * RState World) :=
  let? reference := oracle_reference in
  let? m := adapter (packet_of n) in
  Ok (@run World (rehearsal_journal toy_sha256 fate) (rehearsal_ports pin ticks (packet_of n) reference) p_key
        (make_packet toy_sha256 pin (toy_sha256 "oracle")) (rehearsal_config (packet_of n))
        (start (rehearsal_config (packet_of n)) (new_world m))).

(** The result and its reason, the durable campaign status, whether the
    relational content of the fixture is the closed one, and the number of
    operations reserved. *)
Record Report := mkReport {
  rp_status : string;
  rp_reason : string;
  rp_campaign : option string;
  rp_content : bool;
  rp_reserved : Z;
}.
Definition reserved_count (l : list event) : Z :=
  foldr (λ e n, match e with EvReserve _ => n + 1 | _ => n end) 0 l.
Definition report_of (x : res Result * RState World) : option Report :=
  match x with
  | (Ok r, s) => Some (mkReport (status r) (reason r)
                         (SQLiteJournal.status_of (SQLiteJournal.db (w_journal (r_world s))))
                         (bool_decide (d_rows (m_db (w_mech (r_world s))) = d_rows closed_db)) (reserved_count (r_trace s)))
  | _ => None
  end.
Definition report_res (x : res (res Result * RState World)) : option Report :=
  match x with Ok x => report_of x | Err _ => None end.
Definition report (n : Z) : option Report := report_res (rehearse n).
End Rehearse.

(** ** Evaluation *)

(** Validation of the program's own packets is settled by [packet_admissible]. *)
Lemma packet_of_valid n : 1 <= n <= 12 → validate_packet (packet_of n) = Ok tt.
Proof.
  intros Hn. destruct (packet_admissible toy_sha256 pin (toy_sha256 "oracle") toy_digest (toy_digest _) (toy_digest _) n Hn)
    as (p & Hp & Hv). rewrite make_packet_eq in Hp. by injection Hp as <-.
Qed.

(** The run without its validation and program checks, where both pass. *)
Definition run_admitted {W} `{JournalPort W} (ports : Ports W) digest cfg : M (RState W) Result :=
  try (set_identity (digest (cf_packet cfg)) ;*
       (let* _ := Runner.check ports digest cfg (p_deadline (cf_packet cfg)) in ret tt) ;*
       acquire digest cfg ;*
       let* f := run_cases ports digest cfg (p_deadline (cf_packet cfg)) (p_cases (cf_packet cfg)) in
       complete ports digest cfg f) on_failure.

Lemma run_admitted_eq {W} `{JournalPort W} (ports : Ports W) digest mk cfg s :
  validate_packet (cf_packet cfg) = Ok tt → check_program mk cfg = Ok tt →
  run ports digest mk cfg s = run_admitted ports digest cfg s.
Proof.
  intros Hv Hc. unfold run, run_admitted, run_body, admission, try, bind, lift, ret. rewrite Hv, Hc.
  by destruct (set_identity _ s) as [[[]|e] s1]; [destruct (Runner.check _ _ _ _ s1) as [[t|e] s2]|].
Qed.

(** One second for every hundred clock reads, and a journal without faults. *)
Definition slow (n : nat) : Z := Z.of_nat n / 100.
Definition healthy (n : nat) : SQLiteJournal.io := SQLiteJournal.Healthy.

(** The oracle's reference and the new adapter, computed once. *)
Definition reference : Reference := Eval vm_compute in match oracle_reference with Ok r => r | Err _ => mkReference [] [] end.
Lemma reference_eq : oracle_reference = Ok reference.
Proof. vm_compute. reflexivity. Qed.
Definition new_adapter : Mech := mkMech empty_db [] [] RETAINED [] 1200 0 0.
Lemma adapter_eq n : adapter (packet_of n) = Ok new_adapter.
Proof.
  unfold adapter. change (p_cases (packet_of n)) with program_cases.
  change (nth_error program_cases 11) with (Some (List.nth 11 program_cases (mkCase 0 [] None))). cbv iota beta.
  change (c_interruption _) with (Some "partial_output"). cbv iota beta. change (empty_str "partial_output") with false.
  cbv iota. unfold programs. rewrite bool_decide_eq_true_2 by done. cbn [negb refuse_if rbind].
  rewrite program_cases_eq, bool_decide_eq_true_2 by done. reflexivity.
Qed.

(** The rehearsal of a case, with its settled parts computed away. *)
Definition evaluate (p : Packet) : res Result * RState World :=
  run_admitted (H := rehearsal_journal toy_sha256 healthy)
    (rehearsal_ports pin slow p reference) p_key (rehearsal_config p)
    (start (rehearsal_config p) (new_world new_adapter)).

Definition context_value : SourceContext := Eval vm_compute in the_context toy_sha256 pin (toy_sha256 "oracle").
Definition packet_value (n : Z) : Packet :=
  mkPacket ("source-case-" +:+ str_of_int n) pin PROFILE OBJECT_PROFILE program_cases 0 1200 60 (Some context_value) n.
Lemma packet_value_eq n : packet_of n = packet_value n.
Proof.
  unfold packet_of, the_packet, packet_value.
  assert (the_context toy_sha256 pin (toy_sha256 "oracle") = context_value) as -> by (vm_compute; reflexivity). done.
Qed.

Lemma check_program_ok n :
  check_program (make_packet toy_sha256 pin (toy_sha256 "oracle")) (rehearsal_config (packet_of n)) = Ok tt.
Proof.
  unfold check_program. change (interruption_of _) with "partial_output".
  change (p_selected_case _) with n. rewrite make_packet_eq. cbn [rbind].
  fold (packet_of n). change (cf_packet (rehearsal_config (packet_of n))) with (packet_of n).
  rewrite !bool_decide_eq_true_2 by reflexivity. cbn [negb orb cf_concrete_oracle rehearsal_config forallb cf_adapters a_concrete andb refuse_if rbind existsb].
  by rewrite bool_decide_eq_true_2.
Qed.

Lemma rehearse_evaluated n : 1 <= n <= 12 → rehearse slow healthy n = Ok (evaluate (packet_value n)).
Proof.
  intros Hn. unfold rehearse, evaluate. rewrite reference_eq, adapter_eq, <- (packet_value_eq n). cbn [rbind]. f_equal.
  apply run_admitted_eq; [exact (packet_of_valid n Hn)|exact (check_program_ok n)].
Qed.

(** ** Properties *)

Definition complete_report (reserved : Z) : Report :=
  mkReport "mechanism_complete" "selected_source_case_complete" (Some "mechanism_complete") true reserved.
Definition unknown_report (reason : string) (content : bool) (reserved : Z) : Report :=
  mkReport "unknown" reason (Some "unknown") content reserved.
Definition program_length (n : Z) : Z :=
  foldr (λ c k, if c_number c =? n then Z.of_nat (length (c_operations c)) else k) 0 program_cases.

(** What each case is for, and how it must end. *)
Definition expected_report (n : Z) : Report :=
  if n =? 4 then unknown_report "external_ack_or_adapter_unknown" true 7
  else if n =? 5 then unknown_report "malformed_or_missing_control_fail_closed" false 8
  else if n =? 6 then unknown_report "fixed_operation_or_deadline" true 19
  else if n =? 10 then unknown_report "trusted_operator_guard_bypass_detected" true 18
  else if n =? 11 then unknown_report "broken_guard_mutate_revert_detected" true 18
  else if n =? 12 then mkReport "closed_refusal" "partial_output" (Some "closed_refusal") true (program_length n)
  else complete_report (program_length n).

Lemma map_eq_in {A B} (f g : A → B) l x : map f l = map g l → x ∈ l → f x = g x.
Proof.
  induction l as [|y l IH]; [set_solver|]. cbn [map]. intros [= H1 H2] [->|Hx]%elem_of_cons; auto.
Qed.

Lemma rehearsals : map (λ n, report_of (evaluate (packet_value n))) twelve = map (λ n, Some (expected_report n)) twelve.
Proof. vm_cast_no_check (eq_refl (map (λ n, Some (expected_report n)) twelve)). Qed.

(** The whole stack end to end: on a fresh fixture and journal, with the slow clock, no
    fault of the journal and the toy digest, the twelve cases end exactly as they are
    declared to. The six guarded cases complete, the interruption closes by refusal, and
    lost acknowledgment, malformed control, expired observation, guard bypass and broken
    guard each end unknown with their own reason after the operations reserved until
    then; the journal records the same status, and except where control itself was
    destroyed the fixture holds exactly the closed content, rejected writes and all. *)
Lemma rehearsal_outcomes n : 1 <= n <= 12 → report slow healthy n = Some (expected_report n).
Proof.
  intros Hn. unfold report, report_res. rewrite (rehearse_evaluated n Hn).
  apply (map_eq_in _ _ _ _ rehearsals). unfold twelve. rewrite !elem_of_cons. lia.
Qed.

(** ** The journal promise, for this world *)

Section Laws.
Context (sha256 : string → string) (source_pin : string).
Context (fate : nat → SQLiteJournal.io) (ticks : nat → Z) (packet : Packet) (reference : Reference).

#[local] Existing Instance rehearsal_journal.

Lemma journal_call_reserved (m : M SQLiteJournal.State unit) w :
  (is_Some (SQLiteJournal.status_of (SQLiteJournal.db (w_journal w))) →
   is_Some (SQLiteJournal.status_of (SQLiteJournal.db (m (w_journal w)).2))) →
  is_Some (SQLiteJournal.status_of (SQLiteJournal.db (w_journal w))) →
  is_Some (SQLiteJournal.status_of (SQLiteJournal.db (w_journal (journal_call m w).2))).
Proof. intros Hm Hw. unfold journal_call. destruct (m (w_journal w)) as [r j]. by apply Hm. Qed.

#[export, program] Instance rehearsal_laws : @LatchLaws World (rehearsal_journal sha256 fate) := {|
  reserved w := is_Some (SQLiteJournal.status_of (SQLiteJournal.db (w_journal w))) |}.
Next Obligation.
  intros p d w w' H. simpl in H. unfold journal_call in H.
  destruct (SQLiteJournal.latch fate p d (w_journal w)) as [r j] eqn:E. injection H as -> <-.
  apply SQLiteJournal.with_db_ok, SQLiteJournal.latch_tx_ok in E as (_ & _ & E). simpl. by rewrite E.
Qed.
Next Obligation.
  intros p d w Hw. simpl. unfold journal_call.
  pose proof (SQLiteJournal.latch_when_reserved fate p d (w_journal w) Hw) as H.
  by destruct (SQLiteJournal.latch fate p d (w_journal w)).
Qed.
Next Obligation. intros p d w. apply journal_call_reserved, (SQLiteJournal.campaign_kept sha256 fate (SQLiteJournal.CLatch p d)). Qed.
Next Obligation. intros n o w. apply journal_call_reserved, (SQLiteJournal.campaign_kept sha256 fate (SQLiteJournal.CReserve n o)). Qed.
Next Obligation. intros n o r w. apply journal_call_reserved, (SQLiteJournal.campaign_kept sha256 fate (SQLiteJournal.CFinish n o r)). Qed.
Next Obligation. intros s r w. apply journal_call_reserved, (SQLiteJournal.campaign_kept sha256 fate (SQLiteJournal.CTerminal s r)). Qed.

(** The other ports leave the journal alone. *)
Lemma clock_frame w :
  w_journal (Runner.clock (rehearsal_ports source_pin ticks packet reference) w).2 = w_journal w.
Proof. done. Qed.
Lemma invoke_frame op e w :
  w_journal (Runner.invoke (rehearsal_ports source_pin ticks packet reference) op e w).2 = w_journal w.
Proof. simpl. destruct (Mechanism.invoke _ _ _ _ _) as [r [m n]]. done. Qed.
End Laws.

(** ** Witnesses for the properties of the parts *)

(** The run of case [n] that a report stands for. *)
Notation concrete_run n := (@run World (rehearsal_journal toy_sha256 healthy)
  (rehearsal_ports pin slow (packet_of n) reference) p_key (make_packet toy_sha256 pin (toy_sha256 "oracle"))
  (rehearsal_config (packet_of n)) (start (rehearsal_config (packet_of n)) (new_world new_adapter))).

Lemma report_run n rp :
  report slow healthy n = Some rp →
  ∃ r s, concrete_run n = (Ok r, s) ∧ status r = rp_status rp ∧ reserved_count (r_trace s) = rp_reserved rp.
Proof.
  unfold report, rehearse. rewrite reference_eq, adapter_eq. cbn [rbind report_res].
  destruct (concrete_run n) as [[r|e] s]; intros [= <-]. by exists r, s.
Qed.

Lemma reserved_some l : 0 < reserved_count l → ∃ op, EvReserve op ∈ l.
Proof.
  induction l as [|e l IH]; [done|]. destruct e; simpl; intros Hl;
    try (destruct IH as [o Ho]; [exact Hl|exists o; by right]). eexists. by left.
Qed.

Lemma validate_packet_budget_witness :
  validate_packet (packet_of 1) = Ok tt ∧ Forall op_bounded (all_operations (packet_of 1)).
Proof.
  assert (validate_packet (packet_of 1) = Ok tt) as H by (apply packet_of_valid; lia).
  split; [exact H|]. apply (validate_packet_budget _ H).
Defined.

Lemma validate_packet_identities_witness :
  validate_packet (packet_of 1) = Ok tt ∧ NoDup (map op_name (all_operations (packet_of 1))).
Proof.
  assert (validate_packet (packet_of 1) = Ok tt) as H by (apply packet_of_valid; lia).
  split; [exact H|]. apply (validate_packet_identities _ H).
Defined.

Lemma validate_packet_program_witness :
  validate_packet (packet_of 1) = Ok tt ∧ map c_number (p_cases (packet_of 1)) = twelve.
Proof.
  assert (validate_packet (packet_of 1) = Ok tt) as H by (apply packet_of_valid; lia).
  split; [exact H|]. apply (validate_packet_program _ H).
Defined.

Lemma run_complete_sound_witness : ∃ r s,
  concrete_run 1 = (Ok r, s) ∧ status r = "mechanism_complete"
  ∧ ∃ rs, Forall2 (accepted (packet_of 1)) (selected_operations (packet_of 1)) rs.
Proof.
  destruct (report_run 1 _ (rehearsal_outcomes 1 ltac:(lia))) as (r & s & Hr & Hs & _).
  exists r, s. split; [exact Hr|]. split; [exact Hs|].
  destruct (run_complete_sound _ _ _ _ _ _ _ Hr Hs) as (rs & _ & Hrs & _). exists rs. exact Hrs.
Defined.

(** The body of that run. *)
Notation concrete_body n := (@run_body World (rehearsal_journal toy_sha256 healthy)
  (rehearsal_ports pin slow (packet_of n) reference) p_key (make_packet toy_sha256 pin (toy_sha256 "oracle"))
  (rehearsal_config (packet_of n)) (start (rehearsal_config (packet_of n)) (new_world new_adapter))).

Lemma run_spends_on_failure_witness : ∃ r s op e s1,
  concrete_run 4 = (Ok r, s) ∧ concrete_body 4 = (Err e, s1) ∧ EvReserve op ∈ r_trace s1 ∧ status r = "unknown"
  ∧ r_trace s = r_trace s1 ++ [EvTerminal "unknown" (reason_of e)].
Proof.
  destruct (report_run 4 _ (rehearsal_outcomes 4 ltac:(lia))) as (r & s & Hr & Hs & Hn).
  destruct (reserved_some (r_trace s)) as [op Hop]; [rewrite Hn; reflexivity|].
  destruct (unknown_raised _ _ _ _ _ _ _ op Hr Hs Hop) as (e & s1 & Hb & Hin).
  destruct (run_spends_on_failure _ _ _ _ _ _ _ _ Hb Hin) as (res & s' & Hr' & H).
  pose proof (eq_trans (eq_sym Hr) Hr') as E. injection E as <- <-.
  destruct (j_terminal _ _ _) as [ack w']. destruct H as (H & _ & _).
  exists r, s, op, e, s1. split; [exact Hr|]. split; [exact Hb|]. split; [exact Hin|]. split; [exact Hs|exact H].
Defined.

Lemma run_no_replay_witness : ∃ op,
  EvReserve op ∈ r_trace (concrete_run 1).2
  ∧ omap step_of (r_trace (@run World (rehearsal_journal toy_sha256 healthy)
      (rehearsal_ports pin slow (packet_of 1) reference) p_key (make_packet toy_sha256 pin (toy_sha256 "oracle"))
      (rehearsal_config (packet_of 2)) (start (rehearsal_config (packet_of 2)) (r_world (concrete_run 1).2))).2)
    `prefix_of` [SLatch].
Proof.
  destruct (report_run 1 _ (rehearsal_outcomes 1 ltac:(lia))) as (r & s & Hr & _ & Hn).
  destruct (reserved_some (r_trace s)) as [op Hop]; [rewrite Hn; reflexivity|].
  exists op. split; [rewrite Hr; exact Hop|].
  refine (proj1 (@run_no_replay World _ (rehearsal_laws toy_sha256 healthy) (rehearsal_ports pin slow (packet_of 1) reference)
    p_key _ _ _ _ _ _ (rehearsal_config (packet_of 1)) (rehearsal_config (packet_of 2)) _ op _)).
  - intros w Hw. exact Hw.
  - intros w Hw. exact Hw.
  - intros o e w Hw. change (is_Some (SQLiteJournal.status_of (SQLiteJournal.db (w_journal
      (Runner.invoke (rehearsal_ports pin slow (packet_of 1) reference) o e w).2)))). rewrite invoke_frame. exact Hw.
  - intros o x w Hw. exact Hw.
  - intros x w Hw. exact Hw.
  - rewrite Hr. exact Hop.
Defined.
