(* ===== verification/Control.v ===== *)
(** probes/pmb1-d1/control.py and the fixed SQL it ships beside it: the
    generation texts of a maintenance transition, the close and reopen
    transitions, and the complete readback that confirms one. *)
From Stdlib Require Import DecimalString.
From S2P Require Import Prelude Json JsonParse Oracle.

(** ** Data *)

Definition MAX_GENERATION : Z := 9223372036854775807.

(** The files of [read_sql], comments included. *)
Definition CLOSE_SQL : string :=
"UPDATE maintenance_control SET generation = generation + 1, state = 'closed'
WHERE (SELECT COUNT(*) FROM maintenance_control) = 1
  AND typeof(singleton_id) = 'integer' AND singleton_id = 1
  AND typeof(generation) = 'integer'
  AND generation BETWEEN 1 AND 9223372036854775806
  AND typeof(state) = 'text' AND state = 'open'
  AND typeof(:expected_generation) = 'text'
  AND CAST(generation AS TEXT) = :expected_generation;
".
Definition REOPEN_SQL : string :=
"UPDATE maintenance_control SET generation = generation + 1, state = 'open'
WHERE (SELECT COUNT(*) FROM maintenance_control) = 1
  AND typeof(singleton_id) = 'integer' AND singleton_id = 1
  AND typeof(generation) = 'integer'
  AND generation BETWEEN 1 AND 9223372036854775806
  AND typeof(state) = 'text' AND state = 'closed'
  AND typeof(:expected_generation) = 'text'
  AND CAST(generation AS TEXT) = :expected_generation;
".
Definition READBACK_SQL : string :=
"-- Entire relation, no WHERE/LIMIT: do not hide extra/malformed authority rows.
SELECT typeof(singleton_id) AS singleton_type,
       CAST(singleton_id AS TEXT) AS singleton_text,
       typeof(rowid) AS rowid_type, CAST(rowid AS TEXT) AS rowid_text,
       typeof(generation) AS generation_type,
       CAST(generation AS TEXT) AS generation_text,
       typeof(state) AS state_type, state
FROM maintenance_control;
".
Definition SCHEMA_SQL : string :=
"-- Complete schema, including indexes/internal definitions. No exclusion list.
SELECT type, name, tbl_name, sql FROM sqlite_schema ORDER BY type, name;
".

(** A dict of column names. *)
Definition DictRow : Type := list (string * pyval).

Record Transition := mkTransition {
  operation : string;
  expected_generation : string;
  next_generation : string;
  next_state : string;
  sql : string;
}.

Record ControlReadback := mkControlReadback { cr_generation : string; cr_state : string }.
#[export] Instance ControlReadback_eq_dec : EqDecision ControlReadback.
Proof. solve_decision. Defined.

(** ** Operations *)

(** [generation_text(value, reserve_increment=...)] *)
Definition generation_text (value : pyval) (reserve_increment : bool) : res string :=
  match value with
  | PStr s =>
      refuse_if (negb ((1 <=? slen s) && (slen s <=? 19)) || negb (isascii s) || negb (isdecimal s)
                 || head_is "0" s) "invalid_generation_text" ;?
      refuse_if (MAX_GENERATION - Z.b2z reserve_increment <? int_of_str s) "generation_exhausted" ;?
      Ok s
  | _ => Err (Refusal "invalid_generation_text")
  end.

(** [read_sql(name)] for the four statements a transition uses. *)
Definition read_sql (name : string) : string :=
  if bool_decide (name = "close") then CLOSE_SQL
  else if bool_decide (name = "reopen") then REOPEN_SQL
  else if bool_decide (name = "readback") then READBACK_SQL
  else if bool_decide (name = "schema") then SCHEMA_SQL
  else EmptyString.

Definition close (expected_generation : pyval) : res Transition :=
  let? expected := generation_text expected_generation true in
  Ok (mkTransition "close" expected (str_of_int (int_of_str expected + 1)) "closed" (read_sql "close")).
Definition reopen (expected_generation : pyval) : res Transition :=
  let? expected := generation_text expected_generation true in
  Ok (mkTransition "reopen" expected (str_of_int (int_of_str expected + 1)) "open" (read_sql "reopen")).

Definition require_one_change (changes : pyval) : res unit :=
  refuse_if (negb (bool_decide (changes = PInt 1))) "affected_rows_not_one".

Definition readback_keys : list string :=
  ["singleton_type"; "singleton_text"; "rowid_type"; "rowid_text"; "generation_type";
   "generation_text"; "state_type"; "state"].

(** [row[key]]; the callers checked the keys. *)
Definition row_get (row : DictRow) (key : string) : pyval := default POther (dict_get key row).

Definition parse_readback (rows : list DictRow) : res ControlReadback :=
  match rows with
  | [row] =>
      refuse_if (negb (same_keys row readback_keys)) "invalid_control_readback" ;?
      let cell key text := bool_decide (row_get row key = PStr text) in
      refuse_if (negb (cell "singleton_type" "integer") || negb (cell "singleton_text" "1")
        || negb (cell "rowid_type" "integer") || negb (cell "rowid_text" "1")
        || negb (cell "generation_type" "integer") || negb (cell "state_type" "text")
        || negb (cell "state" "open" || cell "state" "closed")) "invalid_control_readback" ;?
      let? generation := generation_text (row_get row "generation_text") false in
      if cell "state" "open" then Ok (mkControlReadback generation "open")
      else Ok (mkControlReadback generation "closed")
  | _ => Err (Refusal "invalid_control_readback")
  end.

Section Pins.
(** [hashlib.sha256(b).hexdigest()] and the text of manifest.json. *)
Context (sha256 : string → string) (manifest : string).

Definition schema_pin (row : DictRow) : res json :=
  refuse_if (negb (same_keys row ["type"; "name"; "tbl_name"; "sql"])) "invalid_schema_readback" ;?
  let? digest := match row_get row "sql" with
                 | PNone => Ok JNull
                 | PStr sql => Ok (JStr (sha256 (utf8_encode sql)))
                 | _ => Err (Refusal "invalid_schema_readback")
                 end in
  match row_get row "type", row_get row "name", row_get row "tbl_name" with
  | PStr type, PStr name, PStr table =>
      Ok (JObj [("type", JStr type); ("name", JStr name); ("table", JStr table); ("sql_sha2_256", digest)])
  | _, _, _ => Err (Refusal "invalid_schema_readback")
  end.

Definition schema_pins (rows : list DictRow) : res (list json) := mapR schema_pin rows.

(** [json.loads(text)["candidate_schema"]] *)
Definition candidate_schema (text : string) : res json :=
  let? pinned := loads text in
  match pinned with
  | JObj d => match dict_get "candidate_schema" d with
              | Some j => Ok j
              | None => Err (External "KeyError")
              end
  | _ => Err (External "TypeError")
  end.

Definition confirm_readback (transition : Transition) (rows schema_rows : list DictRow) : res ControlReadback :=
  let? pinned := candidate_schema manifest in
  let? pins := schema_pins schema_rows in
  refuse_if (negb (json_eqb (JArr pins) pinned)) "schema_readback_mismatch" ;?
  let? observed := parse_readback rows in
  refuse_if (negb (bool_decide (observed
    = mkControlReadback (next_generation transition) (next_state transition)))) "transition_readback_mismatch" ;?
  Ok observed.

End Pins.

(** ** What the fixed SQL does to [maintenance_control] *)

(** A row; the rowid is [singleton_id]'s, an INTEGER PRIMARY KEY. *)
Record ControlRow := mkControlRow { singleton_id : Cell; generation : Cell; state : Cell }.
#[export] Instance ControlRow_eq_dec : EqDecision ControlRow.
Proof. solve_decision. Defined.

Definition typeof (c : Cell) : string :=
  match c with
  | CNull => "null" | CInteger _ => "integer" | CReal _ => "real" | CText _ => "text" | CBlob _ => "blob"
  end.

Definition in_range (c : Cell) : bool :=
  match c with CInteger g => (1 <=? g) && (g <=? 9223372036854775806) | _ => false end.

Section Sql.
(** SQLite's text of a REAL. *)
Context (real_text : Z → string).

Definition cast_text (c : Cell) : Cell :=
  match c with
  | CNull => CNull
  | CInteger z => CText (str_of_int z)
  | CReal b => CText (real_text b)
  | CText s | CBlob s => CText s
  end.

(** The WHERE clause of close.sql and reopen.sql, which differ in [from]; an
    equality of cells of a stated type is that equality in SQL. *)
Definition matches (from : string) (expected : Cell) (count : nat) (r : ControlRow) : bool :=
  bool_decide (count = 1%nat)
  && bool_decide (singleton_id r = CInteger 1)
  && in_range (generation r)
  && bool_decide (state r = CText from)
  && bool_decide (typeof expected = "text")
  && bool_decide (cast_text (generation r) = expected).

Definition updated (to : string) (r : ControlRow) : ControlRow :=
  match generation r with
  | CInteger g => mkControlRow (singleton_id r) (CInteger (g + 1)) (CText to)
  | _ => r
  end.

(** bootstrap.sql's trigger [maintenance_control_transition]. *)
Definition transition_allowed (count : nat) (old new : ControlRow) : bool :=
  bool_decide (count = 1%nat)
  && bool_decide (singleton_id old = CInteger 1) && bool_decide (singleton_id new = singleton_id old)
  && in_range (generation old)
  && match generation old, generation new with
     | CInteger g, CInteger h => h =? g + 1
     | _, _ => false
     end
  && ((bool_decide (state old = CText "open") && bool_decide (state new = CText "closed"))
      || (bool_decide (state old = CText "closed") && bool_decide (state new = CText "open"))).

(** One UPDATE statement: the changed-row count, or an abort that changes
    nothing. *)
Definition update (from to : string) (expected : Cell) (t : list ControlRow) : res (Z * list ControlRow) :=
  let hit := matches from expected (length t) in
  if forallb (λ r, negb (hit r) || transition_allowed (length t) r (updated to r)) t
  then Ok (Z.of_nat (length (filter (λ r, hit r = true) t)), map (λ r, if hit r then updated to r else r) t)
  else Err (External "maintenance_control_transition_denied").

(** The meaning of a fixed statement with [:expected_generation] bound to a text. *)
Definition run_update (text : string) (expected : Cell) (t : list ControlRow) : res (Z * list ControlRow) :=
  if bool_decide (text = CLOSE_SQL) then update "open" "closed" expected t
  else if bool_decide (text = REOPEN_SQL) then update "closed" "open" expected t
  else Err (External "not a fixed update").

Definition cell_binding (c : Cell) : pyval :=
  match c with
  | CNull => PNone | CInteger z => PInt z | CReal b => PFloat b | CText s => PStr s | CBlob s => PBytes s
  end.

(** readback.sql *)
Definition readback_row (r : ControlRow) : DictRow :=
  [("singleton_type", PStr (typeof (singleton_id r))); ("singleton_text", cell_binding (cast_text (singleton_id r)));
   ("rowid_type", PStr (typeof (singleton_id r))); ("rowid_text", cell_binding (cast_text (singleton_id r)));
   ("generation_type", PStr (typeof (generation r))); ("generation_text", cell_binding (cast_text (generation r)));
   ("state_type", PStr (typeof (state r))); ("state", cell_binding (state r))].
Definition readback (t : list ControlRow) : list DictRow := map readback_row t.

End Sql.

(** ** Specification vocabulary *)

(** A well-formed authority row at generation [g]. *)
Definition control_at (g : Z) (st : string) : ControlRow := mkControlRow (CInteger 1) (CInteger g) (CText st).

Definition opposite (st : string) : string := if bool_decide (st = "open") then "closed" else "open".

(** The transition that leaves state [st]. *)
Definition leaving (st : string) : pyval → res Transition :=
  if bool_decide (st = "open") then close else reopen.

(** ** Generation texts *)

Lemma decimal_ascii s : isdecimal s = true → isascii s = true.
Proof.
  unfold isdecimal, isascii. rewrite andb_true_iff. intros [_ H]. revert H. apply str_forall_impl.
  intros c. unfold is_digit, is_ascii. rewrite andb_true_iff, !Z.leb_le, Z.ltb_lt. lia.
Qed.

Lemma head_digit_positive s : isdecimal s = true → head_is "0" s = false → 1 <= int_of_str s.
Proof.
  intros Hd Hh. pose proof (decimal_lower s Hd Hh). pose proof (slen_nonneg s).
  unfold isdecimal in Hd. apply andb_true_iff in Hd as [Hne _].
  apply negb_true_iff, bool_decide_eq_false in Hne.
  assert (1 <= slen s) by (destruct s; [done|unfold slen; simpl; lia]).
  assert (0 < 10 ^ (slen s - 1)) by (apply Z.pow_pos_nonneg; lia). lia.
Qed.

(** The texts a generation may have: exactly the canonical decimal of 1 up to
    the largest generation, less the increment to come. *)
Lemma generation_text_iff v inc s :
  generation_text v inc = Ok s ↔
  v = PStr s ∧ ∃ z, s = str_of_int z ∧ 1 <= z <= MAX_GENERATION - Z.b2z inc.
Proof.
  split.
  - destruct v as [| | | |t| |]; simpl; try done. intros H. inv_check. inv_bool. split; [done|].
    exists (int_of_str s). rewrite str_of_int_of_str by done. split; [done|].
    split; [by apply head_digit_positive|done].
  - intros (-> & z & -> & Hz). unfold generation_text.
    destruct (str_of_int_decimal z) as [Hd Hh]; [lia|].
    pose proof (decimal_lower _ Hd Hh) as Hl. rewrite int_of_str_of_int in Hl by lia.
    assert (slen (str_of_int z) <= 19).
    { destruct (Z.le_gt_cases (slen (str_of_int z)) 19) as [|Hgt]; [done|].
      assert (10 ^ 19 <= 10 ^ (slen (str_of_int z) - 1)) by (apply Z.pow_le_mono_r; lia).
      unfold MAX_GENERATION in Hz. destruct inc; simpl in Hz; lia. }
    assert (1 <= slen (str_of_int z)).
    { unfold isdecimal in Hd. apply andb_true_iff in Hd as [Hne _].
      apply negb_true_iff, bool_decide_eq_false in Hne.
      destruct (str_of_int z); [done|unfold slen; simpl; lia]. }
    rewrite Hh, Hd, (decimal_ascii _ Hd), int_of_str_of_int by lia.
    rewrite (proj2 (Z.leb_le 1 _)), (proj2 (Z.leb_le _ 19)) by lia.
    rewrite (proj2 (Z.ltb_ge _ _)) by lia. done.
Qed.

(** ** Readbacks *)

Section Facts.
Context (real_text : Z → string).

Lemma typeof_integer c : typeof c = "integer" → ∃ z, c = CInteger z.
Proof. destruct c; simpl; eauto; done. Qed.

Lemma cast_integer c s : typeof c = "integer" → cell_binding (cast_text real_text c) = PStr s →
  ∃ z, c = CInteger z ∧ s = str_of_int z.
Proof. intros Hc. destruct (typeof_integer _ Hc) as [z ->]. simpl. intros [= <-]. eauto. Qed.

Lemma str_of_int_pos_inv g z : 0 < z → str_of_int g = str_of_int z → g = z.
Proof.
  intros Hz H. destruct (Z.le_gt_cases 0 g) as [Hg|Hg]; [by apply str_of_int_inj; [lia|lia|]|].
  destruct (str_of_int_decimal z Hz) as [Hd _]. rewrite <- H in Hd.
  destruct g as [|p|p]; [lia|lia|]. unfold str_of_int in Hd. simpl in Hd. discriminate.
Qed.

Lemma readback_fields r :
  same_keys (readback_row real_text r) readback_keys = true
  ∧ row_get (readback_row real_text r) "singleton_type" = PStr (typeof (singleton_id r))
  ∧ row_get (readback_row real_text r) "singleton_text" = cell_binding (cast_text real_text (singleton_id r))
  ∧ row_get (readback_row real_text r) "generation_type" = PStr (typeof (generation r))
  ∧ row_get (readback_row real_text r) "generation_text" = cell_binding (cast_text real_text (generation r))
  ∧ row_get (readback_row real_text r) "state_type" = PStr (typeof (state r))
  ∧ row_get (readback_row real_text r) "state" = cell_binding (state r).
Proof. repeat split; reflexivity. Qed.

(** Reading a table back accepts exactly the single well-formed row. *)
Lemma parse_readback_iff t o :
  parse_readback (readback real_text t) = Ok o ↔
  ∃ g st, t = [control_at g st] ∧ (st = "open" ∨ st = "closed") ∧ 1 <= g <= MAX_GENERATION
          ∧ o = mkControlReadback (str_of_int g) st.
Proof.
  split.
  - destruct t as [|r [|r' t]]; [done| |done]. unfold parse_readback, readback. cbn [map].
    destruct (readback_fields r) as (_ & E1 & E2 & E3 & E4 & E5 & E6). rewrite E1, E2, E3, E4, E5, E6.
    intros H. inv_check. inv_bool. simplify_eq.
    match goal with H : typeof (singleton_id r) = _ |- _ => rename H into Hst end.
    match goal with H : typeof (generation r) = _ |- _ => rename H into Hgt end.
    match goal with H : generation_text _ _ = Ok _ |- _ => apply generation_text_iff in H as (Hg & z & -> & Hz) end.
    match goal with H : cell_binding (cast_text _ (singleton_id r)) = _ |- _ => rename H into Hsx end.
    destruct (cast_integer _ _ Hgt Hg) as (g & Hge & Hzg).
    destruct (cast_integer _ _ Hst Hsx) as (one & Hsi & Hone).
    symmetry in Hone. apply (str_of_int_pos_inv _ 1) in Hone as ->; [|lia].
    symmetry in Hzg. apply str_of_int_pos_inv in Hzg as ->; [|lia].
    assert (∀ st, cell_binding (state r) = PStr st → state r = CText st) as Hstate
      by (intros st; destruct (state r); simpl; congruence).
    change (MAX_GENERATION - Z.b2z false) with MAX_GENERATION in Hz.
    match goal with H : _ || _ = true |- _ => rename H into Hor end.
    destruct r as [si ge st]; cbn [singleton_id generation state] in *. subst.
    destruct (bool_decide_reflect (cell_binding st = PStr "open")) as [Ho|Ho]; simplify_eq.
    + exists z, "open". rewrite (Hstate _ Ho). auto.
    + simpl in Hor. apply bool_decide_eq_true in Hor. exists z, "closed". rewrite (Hstate _ Hor). auto.
  - intros (g & st & -> & Hst & Hg & ->).
    assert (generation_text (PStr (str_of_int g)) false = Ok (str_of_int g)) as E
      by (apply generation_text_iff; split; [done|]; exists g; simpl; split; [done|lia]).
    unfold parse_readback, readback. cbn [map].
    destruct (readback_fields (control_at g st)) as (_ & _ & _ & _ & E5 & _). rewrite E5.
    change (cell_binding (cast_text real_text (generation (control_at g st)))) with (PStr (str_of_int g)). rewrite E.
    by destruct Hst as [-> | ->].
Qed.

(** ** Transitions *)

Lemma transition_fields v tr :
  close v = Ok tr ∨ reopen v = Ok tr →
  ∃ g, 1 <= g < MAX_GENERATION ∧ expected_generation tr = str_of_int g ∧ next_generation tr = str_of_int (g + 1)
       ∧ ∃ from, (from = "open" ∨ from = "closed") ∧ next_state tr = opposite from
                 ∧ sql tr = (if bool_decide (from = "open") then CLOSE_SQL else REOPEN_SQL).
Proof.
  intros [H|H]; unfold close, reopen in H; apply rbind_ok in H as (s & Hs & [= <-]);
    apply generation_text_iff in Hs as (_ & g & -> & Hg); exists g; simpl in Hg |- *;
    rewrite int_of_str_of_int by lia; (split_and!; [lia|lia|done|done|]); [exists "open"|exists "closed"]; auto.
Qed.

Lemma run_update_eq from e t :
  run_update real_text (if bool_decide (from = "open") then CLOSE_SQL else REOPEN_SQL) e t
  = if bool_decide (from = "open") then update real_text "open" "closed" e t
    else update real_text "closed" "open" e t.
Proof. by destruct (bool_decide_reflect (from = "open")). Qed.

Lemma matches_iff from g n r :
  0 < g →
  matches real_text from (CText (str_of_int g)) n r = true ↔
  n = 1%nat ∧ r = control_at g from ∧ 1 <= g <= 9223372036854775806.
Proof.
  intros Hg. unfold matches. rewrite !andb_true_iff, !bool_decide_eq_true. split.
  - intros (((((Hn & Hs) & Hr) & Hst) & _) & Hc). destruct r as [si ge st]; simpl in *.
    destruct ge as [|z| | |]; simpl in *; try done. injection Hc as Hc.
    apply str_of_int_pos_inv in Hc as ->; [|done]. subst. apply andb_true_iff in Hr as [?%Z.leb_le ?%Z.leb_le]. done.
  - intros (-> & -> & H1 & H2). simpl. rewrite (proj2 (Z.leb_le _ _) H1), (proj2 (Z.leb_le _ _) H2). done.
Qed.

(** One guarded update: it fires on the matching authority row or not at all. *)
Lemma update_cases from g t :
  from = "open" ∨ from = "closed" → 1 <= g <= 9223372036854775806 →
  update real_text from (opposite from) (CText (str_of_int g)) t
  = if bool_decide (t = [control_at g from]) then Ok (1, [control_at (g + 1) (opposite from)]) else Ok (0, t).
Proof.
  intros Hf Hg. unfold update. destruct (bool_decide_reflect (t = [control_at g from])) as [->|Ht].
  - assert (matches real_text from (CText (str_of_int g)) 1 (control_at g from) = true) as Hm
      by (apply matches_iff; [lia|done]).
    cbn [length forallb map]. rewrite Hm. cbn [negb orb andb].
    assert (transition_allowed 1 (control_at g from) (updated (opposite from) (control_at g from)) = true) as ->.
    { unfold transition_allowed. simpl. rewrite (proj2 (Z.leb_le 1 g)), (proj2 (Z.leb_le g _)), Z.eqb_refl by lia.
      by destruct Hf as [-> | ->]. }
    cbn [andb]. rewrite filter_all by (intros r Hr%list_elem_of_singleton; by rewrite Hr). done.
  - assert (∀ r, r ∈ t → matches real_text from (CText (str_of_int g)) (length t) r = false) as Hno.
    { intros r Hr. apply not_true_iff_false. rewrite matches_iff by lia. intros (Hn & -> & _).
      destruct t as [|a [|? ?]]; [done| |done]. apply list_elem_of_singleton in Hr. by subst. }
    rewrite (proj2 (forallb_forall _ t)) by (intros r Hr; apply list_elem_of_In in Hr; rewrite (Hno r Hr); done).
    rewrite filter_none by (intros r Hr; rewrite (Hno r Hr); done). do 2 f_equal.
    transitivity (map id t); [|apply map_id]. apply map_ext_in. intros r Hr.
    apply list_elem_of_In in Hr. by rewrite (Hno r Hr).
Qed.

(** what a transition does, for every content of the control table: either
    the table is the single well-formed row at exactly the expected generation and
    in the state the transition leaves, then one row changes, the generation
    advances by one without overflow, and the complete readback confirms exactly
    the declared successor; or nothing changes, the statement does not even
    abort, and no readback of that table can confirm the transition's
    starting point. *)
Theorem transition_exact v tr t :
  close v = Ok tr ∨ reopen v = Ok tr →
  ∃ n t', run_update real_text (sql tr) (CText (expected_generation tr)) t = Ok (n, t')
  ∧ ((n = 1 ∧ parse_readback (readback real_text t)
              = Ok (mkControlReadback (expected_generation tr) (opposite (next_state tr)))
      ∧ parse_readback (readback real_text t') = Ok (mkControlReadback (next_generation tr) (next_state tr)))
     ∨ (n = 0 ∧ t' = t ∧ parse_readback (readback real_text t)
              ≠ Ok (mkControlReadback (expected_generation tr) (opposite (next_state tr))))).
Proof.
  intros Htr. destruct (transition_fields v tr Htr) as (g & Hg & -> & -> & from & Hf & -> & ->).
  assert (opposite (opposite from) = from) as -> by (by destruct Hf as [-> | ->]).
  assert (opposite from = "open" ∨ opposite from = "closed") as Hf' by (by destruct Hf as [-> | ->]; auto).
  unfold MAX_GENERATION in Hg.
  rewrite run_update_eq.
  assert ((if bool_decide (from = "open") then update real_text "open" "closed" (CText (str_of_int g)) t
    else update real_text "closed" "open" (CText (str_of_int g)) t)
    = update real_text from (opposite from) (CText (str_of_int g)) t) as -> by (by destruct Hf as [-> | ->]).
  rewrite update_cases by (done || lia).
  destruct (bool_decide_reflect (t = [control_at g from])) as [->|Ht]; do 2 eexists; (split; [done|]).
  - left. split_and!; [done| |]; apply parse_readback_iff;
      [exists g, from|exists (g + 1), (opposite from)]; unfold MAX_GENERATION; split_and!; try done; lia.
  - right. split_and!; [done|done|]. intros H. apply parse_readback_iff in H as (g' & st & -> & _ & Hr & [= Hgg <-]).
    apply str_of_int_pos_inv in Hgg as ->; [done|lia].
Qed.

(** a confirmed transition: the schema read back pins exactly the manifest's
    candidate schema, in order, and the control rows are the single row of the
    declared successor. *)
Theorem confirm_readback_sound sha256 manifest tr t schema_rows o :
  confirm_readback sha256 manifest tr (readback real_text t) schema_rows = Ok o →
  (∃ g, t = [control_at g (next_state tr)] ∧ next_generation tr = str_of_int g)
  ∧ ∃ pinned pins, candidate_schema manifest = Ok pinned ∧ schema_pins sha256 schema_rows = Ok pins
    ∧ json_eqb (JArr pins) pinned = true ∧ length pins = length schema_rows.
Proof.
  unfold confirm_readback. intros H. inv_check. inv_bool. subst.
  match goal with H : parse_readback _ = Ok _ |- _ => apply parse_readback_iff in H as (g & st & -> & _ & _ & [= Hg Hst]) end.
  split; [exists g; by rewrite Hst|]. do 2 eexists. split_and!; [done|done|done|].
  match goal with H : schema_pins _ _ = Ok _ |- _ => by apply mapR_length in H end.
Qed.
End Facts.

Lemma transition_exact_witness : ∃ tr, close (PStr "41") = Ok tr
  ∧ ∃ n t', run_update (λ _, EmptyString) (sql tr) (CText (expected_generation tr)) [control_at 41 "open"] = Ok (n, t')
  ∧ n = 1 ∧ parse_readback (readback (λ _, EmptyString) t') = Ok (mkControlReadback "42" "closed").
Proof.
  exists (mkTransition "close" "41" "42" "closed" CLOSE_SQL). split; [reflexivity|].
  destruct (transition_exact (λ _, EmptyString) (PStr "41") (mkTransition "close" "41" "42" "closed" CLOSE_SQL)
    [control_at 41 "open"] (or_introl eq_refl)) as (n & t' & Hr & [(Hn & _ & Ht)|(_ & _ & Ht)]).
  - exists n, t'. split; [exact Hr|]. split; [exact Hn|exact Ht].
  - destruct Ht. reflexivity.
Defined.

Definition small_manifest : string :=
  dumps (JObj [("candidate_schema", JArr [JObj [("type", JStr "table"); ("name", JStr "t"); ("table", JStr "t");
    ("sql_sha2_256", JStr "CREATE")]])]).
Definition small_schema : list DictRow :=
  [[("type", PStr "table"); ("name", PStr "t"); ("tbl_name", PStr "t"); ("sql", PStr "CREATE")]].

Lemma confirm_readback_sound_witness :
  ∃ o, confirm_readback (λ s, s) small_manifest (mkTransition "close" "41" "42" "closed" CLOSE_SQL)
         (readback (λ _, EmptyString) [control_at 42 "closed"]) small_schema = Ok o
  ∧ ∃ g, [control_at 42 "closed"] = [control_at g "closed"] ∧ "42" = str_of_int g.
Proof.
  exists (mkControlReadback "42" "closed"). split; [vm_compute; reflexivity|].
  refine (proj1 (confirm_readback_sound (λ _, EmptyString) (λ s, s) small_manifest
    (mkTransition "close" "41" "42" "closed" CLOSE_SQL) [control_at 42 "closed"] small_schema
    (mkControlReadback "42" "closed") _)). vm_compute. reflexivity.
Defined.
