(* ===== verification/D1Port.v ===== *)
(** The data of probes/pmb1-d1-adapter/adapter.py that the adapter shares with its
    ports - windows, intents, journal entries, results and receipts - with their
    validation and their canonical text, and the [Journal] port itself.

    A time is a Python number: [At t] a finite one, [Unusable] a NaN, an infinity or
    a value of another type, which every check refuses alike. *)
From S2P Require Import Prelude Json JsonParse JsonRoundTrip Oracle Control.

(** ** Data *)

Inductive stamp := At (t : Z) | Unusable.
#[export] Instance stamp_eq_dec : EqDecision stamp.
Proof. solve_decision. Defined.

Record Window := mkWindow {
  starts_at : stamp;
  dispatch_until : stamp;
  reconcile_until : stamp;
}.
#[export] Instance Window_eq_dec : EqDecision Window.
Proof. solve_decision. Defined.

(** [PINS["manifest.json"]] *)
Definition CANDIDATE : string := "3a6b0d8fda2b07a3e4999ece220eee84c28c7d906ca4a87ed67faf693e009e50".

Record Intent := mkIntent {
  i_key : string;
  i_operation : string;
  i_expected : string;
  i_window : Window;
  i_target_id : string;
  i_candidate : string;
  i_transition_limit : Z;
}.
#[export] Instance Intent_eq_dec : EqDecision Intent.
Proof. solve_decision. Defined.

Record JournalEntry := mkJournalEntry {
  je_intent : Intent;
  je_phase : string;
  je_dispatch_claimed : bool;
  je_root_key : string;
  je_ordinal : Z;
  je_successor : option string;
  je_confirmation : option string;
}.

Record Result := mkResult {
  r_status : string;
  r_reason : string;
  r_generation : option string;
  r_state : option string;
  r_confirmed_at : option stamp;
}.
#[export] Instance Result_eq_dec : EqDecision Result.
Proof. solve_decision. Defined.

Record ConfirmedReceipt := mkConfirmedReceipt {
  cf_reference : string;
  cf_predecessor : Intent;
  cf_result : Result;
  cf_status : string;
}.

Record FixedUpdate := mkFixedUpdate { fu_sql : string; fu_expected_generation : string }.

Record CompleteRows := mkCompleteRows { cr_rows : list DictRow; cr_complete : bool }.

(** [Result(status, reason)] *)
Definition plain_result (status reason : string) : Result := mkResult status reason None None None.

(** ** Derived properties of an intent *)

Definition read_limit (i : Intent) : Z := if i_transition_limit i =? 1 then 8 else 16.
Definition next_generation_of (i : Intent) : string := str_of_int (int_of_str (i_expected i) + 1).
Definition target (i : Intent) : string := if bool_decide (i_operation i = "close") then "closed" else "open".

(** ** Validation *)

(** [generation(value, increment=...)] *)
Definition generation (value : pyval) (increment : bool) : res string :=
  match value with
  | PStr s =>
      refuse_if (negb ((1 <=? slen s) && (slen s <=? 19)) || negb (isascii s) || negb (isdecimal s)
                 || head_is "0" s || (Control.MAX_GENERATION - Z.b2z increment <? int_of_str s))
        "invalid_or_exhausted_generation" ;?
      Ok s
  | _ => Err (Refusal "invalid_or_exhausted_generation")
  end.

(** [Window.validate] *)
Definition window_validate (w : Window) : res unit :=
  match starts_at w, dispatch_until w, reconcile_until w with
  | At s, At d, At r =>
      refuse_if (negb ((0 <=? s) && (s <? d) && (d <=? r))) "invalid_window" ;?
      refuse_if (300 <? r - s) "window_exceeds_five_minute_source_ceiling"
  | _, _, _ => Err (Refusal "invalid_window")
  end.

Definition control_keys : list string := readback_keys.

(** [validate_control] *)
Definition validate_control (rows : CompleteRows) : res (string * string) :=
  refuse_if (negb (cr_complete rows)) "incomplete_control" ;?
  match cr_rows rows with
  | [row] =>
      refuse_if (negb (same_keys row control_keys)) "invalid_control" ;?
      let cell key text := bool_decide (row_get row key = PStr text) in
      refuse_if (negb (cell "singleton_type" "integer") || negb (cell "singleton_text" "1")
        || negb (cell "rowid_type" "integer") || negb (cell "rowid_text" "1")
        || negb (cell "generation_type" "integer") || negb (cell "state_type" "text")
        || negb (cell "state" "open" || cell "state" "closed")) "invalid_control" ;?
      let? g := generation (row_get row "generation_text") false in
      Ok (g, if cell "state" "open" then "open" else "closed")
  | _ => Err (Refusal "invalid_control")
  end.

Section Schema.
Context (sha256 : string → string).

Definition schema_entry_of (row : DictRow) : res json :=
  refuse_if (negb (same_keys row ["type"; "name"; "tbl_name"; "sql"])) "invalid_schema" ;?
  match row_get row "type", row_get row "name", row_get row "tbl_name" with
  | PStr type, PStr name, PStr table =>
      let? digest := match row_get row "sql" with
                     | PNone => Ok JNull
                     | PStr sql => Ok (JStr (sha256 (utf8_encode sql)))
                     | _ => Err (Refusal "invalid_schema")
                     end in
      Ok (JObj [("type", JStr type); ("name", JStr name); ("table", JStr table); ("sql_sha2_256", digest)])
  | _, _, _ => Err (Refusal "invalid_schema")
  end.

(** [validate_schema(rows, files)], on the bytes of manifest.json *)
Definition validate_schema (rows : CompleteRows) (manifest : string) : res unit :=
  refuse_if (negb (cr_complete rows)) "incomplete_schema" ;?
  let? actual := mapR schema_entry_of (cr_rows rows) in
  let? text := utf8_decode manifest in
  let? pinned := candidate_schema text in
  refuse_if (negb (json_eqb (JArr actual) pinned)) "schema_or_guard_mismatch".
End Schema.

(** ** The canonical text of an intent *)

(** A validated window holds numbers only; [allow_nan=False] refuses the rest. *)
Definition stamp_json (t : stamp) : json := match t with At t => JInt t | Unusable => JFloat "NaN" end.
Definition window_json (w : Window) : json :=
  JObj [("starts", stamp_json (starts_at w)); ("dispatch_until", stamp_json (dispatch_until w));
        ("reconcile_until", stamp_json (reconcile_until w))].
(** [asdict(intent)] *)
Definition intent_json (i : Intent) : json :=
  JObj [("key", JStr (i_key i)); ("operation", JStr (i_operation i)); ("expected", JStr (i_expected i));
        ("window", window_json (i_window i)); ("target_id", JStr (i_target_id i));
        ("candidate", JStr (i_candidate i)); ("transition_limit", JInt (i_transition_limit i))].
(** [encode(asdict(intent))] *)
Definition intent_text (i : Intent) : string := dumps (intent_json i).

Definition type_error {A} : res A := Err (External "TypeError").
Definition str_field (k : string) (d : list (string * json)) : res string :=
  match dict_get k d with Some (JStr s) => Ok s | _ => type_error end.
Definition stamp_field (k : string) (d : list (string * json)) : res stamp :=
  match dict_get k d with Some (JInt t) => Ok (At t) | _ => type_error end.

(** [Window] of the keyword arguments [value]. *)
Definition window_from (value : json) : res Window :=
  match value with
  | JObj d =>
      if negb (same_keys d ["starts"; "dispatch_until"; "reconcile_until"]) then type_error else
      let? s := stamp_field "starts" d in
      let? u := stamp_field "dispatch_until" d in
      let? r := stamp_field "reconcile_until" d in
      Ok (mkWindow s u r)
  | _ => type_error
  end.

(** [intent_from(value)] of probes/pmb1-native-d1-binding/journal.py *)
Definition intent_from (value : json) : res Intent :=
  match value with
  | JObj d =>
      let? w := match dict_get "window" d with Some j => window_from j | None => Err (External "KeyError") end in
      if negb (forallb (λ kv, str_in kv.1 ["key"; "operation"; "expected"; "window"; "target_id"; "candidate";
                                           "transition_limit"]) d) then type_error else
      let? key := str_field "key" d in
      let? operation := str_field "operation" d in
      let? expected := str_field "expected" d in
      let? target_id := str_field "target_id" d in
      let? candidate := match dict_get "candidate" d with None => Ok CANDIDATE | _ => str_field "candidate" d end in
      let? limit := match dict_get "transition_limit" d with
                    | None => Ok 1 | Some (JInt n) => Ok n | Some _ => type_error end in
      Ok (mkIntent key operation expected w target_id candidate limit)
  | _ => type_error
  end.

(** ** The port *)

(** [class Journal(Protocol)], over a world [W]. *)
Class D1Journal (W : Type) := {
  dj_latch : Intent → stamp → M W bool;
  dj_advance : Intent → Intent → ConfirmedReceipt → stamp → M W bool;
  dj_get : string → stamp → M W JournalEntry;
  dj_spend_read : string → stamp → M W bool;
  dj_claim_dispatch : string → stamp → M W bool;
  dj_claim_reconcile : string → stamp → M W bool;
  dj_settle : string → string → stamp → M W unit;
}.

(** ** Lemmas *)

Lemma generation_iff v inc s : generation v inc = Ok s ↔ generation_text v inc = Ok s.
Proof.
  destruct v as [| | | |t| |]; simpl; try done.
  destruct (negb _ || _ || _ || _) eqn:E; simpl; [done|].
  by destruct (_ <? _).
Qed.

Lemma window_validate_ok w :
  window_validate w = Ok tt → ∃ s d r, w = mkWindow (At s) (At d) (At r) ∧ 0 <= s < d ∧ d <= r ∧ r - s <= 300.
Proof.
  destruct w as [[s|] [d|] [r|]]; try done; intros H; unfold window_validate in H; cbn [starts_at dispatch_until reconcile_until] in H; try done. inv_check. inv_bool. exists s, d, r. split; [done|lia].
Qed.

(** The adapter's validator and the control module's parser agree. *)
Lemma validate_control_iff rows g st :
  validate_control rows = Ok (g, st) ↔
  cr_complete rows = true ∧ parse_readback (cr_rows rows) = Ok (mkControlReadback g st).
Proof.
  unfold validate_control, parse_readback. destruct (cr_complete rows); simpl; [|naive_solver].
  destruct (cr_rows rows) as [|row [|]]; [naive_solver| |naive_solver].
  change control_keys with readback_keys.
  destruct (same_keys row readback_keys); simpl; [|naive_solver].
  destruct (_ || _ || _ || _ || _ || _ || _); simpl; [naive_solver|].
  pose proof (generation_iff (row_get row "generation_text") false) as Hg.
  destruct (generation (row_get row "generation_text") false) as [x|e] eqn:E1, (generation_text (row_get row "generation_text") false) as [y|e'] eqn:E2; simpl.
  - assert (x = y) as -> by (destruct (Hg x) as [Hx _]; specialize (Hx eq_refl); congruence).
    destruct (bool_decide _); naive_solver.
  - destruct (Hg x) as [Hx _]. by specialize (Hx eq_refl).
  - destruct (Hg y) as [_ Hy]. by specialize (Hy eq_refl).
  - naive_solver.
Qed.

(** An intent is read back from its text. *)
Lemma intent_from_text i s d r :
  i_window i = mkWindow (At s) (At d) (At r) →
  (let? j := loads (intent_text i) in intent_from j) = Ok i.
Proof.
  intros Hw. destruct i as [k o e w t c l]. simpl in Hw. subst w. unfold intent_text.
  rewrite loads_back; [reflexivity|]. simpl. split_and!; try done; repeat constructor; set_solver.
Qed.
