(* ===== verification/D1Journal.v ===== *)
(** probes/pmb1-native-d1-binding/journal.py: the operator's SQLite journal of D1
    transitions - one root intent, its successor chain, the dispatch, read and
    reconciliation budgets, and the request, statement and byte accounting. *)
From S2P Require Import Prelude Json JsonParse JsonRoundTrip Oracle Control D1Port.

(** ** Tables *)

(** The [binding] row; [singleton=1] makes the table an option. *)
Record Binding := mkBinding {
  b_target : string;
  b_packet : string;
  b_active : option string;
  b_ordinal : Z;
  b_response_bytes : Z;
}.

Record Entry := mkEntry {
  e_key : string;
  e_intent : string;
  e_phase : string;
  e_dispatched : Z;
  e_root : string;
  e_ordinal : Z;
  e_successor : option string;
  e_confirmation : option string;
  e_reads : Z;
  e_reconciliations : Z;
}.

Record Request := mkRequest { q_ordinal : Z; q_query : string; q_reserved : Z; q_received : option Z }.
Record Allocation := mkAllocation { a_ordinal : Z; a_statements : Z; a_request_bytes : Z }.

Record Db := mkDb {
  binding : option Binding;
  entries : list Entry;
  requests : list Request;
  allocations : list Allocation;
  batches : list (string * Z);
}.

(** The file: absent, left without its tables by a failed [provision], or provisioned. *)
Inductive file := Absent | Tombstone | Provisioned (d : Db).

(** The connection under a transaction: it works, raises before anything is
    durable, or loses the acknowledgment of its commit. *)
Inductive io := Healthy | FailBefore | LostAck.

(** The journal over a clock with state [C]. *)
Record State (C : Type) := mkState { s_file : file; s_calls : nat; s_clock : C }.
Arguments mkState {C}. Arguments s_file {C}. Arguments s_calls {C}. Arguments s_clock {C}.

Section Journal.
Context {C : Type} (clock : M C stamp) (fate : nat → io).
(** [self.target_id] and [self.packet_sha2_256] of one instance. *)
Context (target_id packet : string).
Notation J := (M (State C)).
Notation T := (M Db).

(** ** Guard and transaction *)

Definition guard (deadline : stamp) : J unit := λ s,
  let (now, c) := clock (s_clock s) in
  let s := mkState (s_file s) (s_calls s) c in
  match now, deadline with
  | Ok (At n), At d => (refuse_if (negb ((0 <=? n) && (n <? d))) "external_journal_deadline", s)
  | Ok _, _ => (Err (Refusal "external_journal_deadline"), s)
  | Err e, _ => (Err e, s)
  end.

Definition empty_db : Db := mkDb (Some (mkBinding target_id packet None 0 0)) [] [] [] [].

(** [provision]; the path tests are made by the caller of the model. *)
Definition provision (deadline : stamp) : J unit :=
  guard deadline ;*
  (λ s, match s_file s with
        | Absent =>
            match fate (s_calls s) with
            | Healthy => (Ok tt, mkState (Provisioned empty_db) (S (s_calls s)) (s_clock s))
            | FailBefore => (Err (External "OperationalError"), mkState Tombstone (S (s_calls s)) (s_clock s))
            | LostAck => (Err (External "OperationalError"), mkState (Provisioned empty_db) (S (s_calls s)) (s_clock s))
            end
        | _ => (Err (External "FileExistsError"), s)
        end) ;*
  guard deadline.

Definition bound (b : Binding) : bool := bool_decide (b_target b = target_id) && bool_decide (b_packet b = packet).

Definition begin_ : J Db := λ s,
  match s_file s with
  | Absent => (Err (Refusal "external_journal_missing"), s)
  | f =>
      let s' := mkState (s_file s) (S (s_calls s)) (s_clock s) in
      match fate (s_calls s), f with
      | FailBefore, _ | _, Tombstone => (Err (External "OperationalError"), s')
      | _, Provisioned d =>
          match binding d with
          | Some b => if bound b then (Ok d, s') else (Err (Refusal "external_journal_binding"), s')
          | None => (Err (Refusal "external_journal_binding"), s')
          end
      | _, Absent => (Err (Refusal "external_journal_missing"), s)
      end
  end.

(** [with self.transaction(deadline) as db: body]; a rollback forgets [d'], a
    failure after the commit does not. *)
Definition transaction {A} (deadline : stamp) (body : T A) : J A :=
  guard deadline ;*
  let* d := begin_ in
  guard deadline ;*
  match body d with
  | (Err e, _) => raise e
  | (Ok a, d') =>
      guard deadline ;*
      (λ s, let s' := mkState (Provisioned d') (s_calls s) (s_clock s) in
            match fate (pred (s_calls s)) with
            | LostAck => (Err (External "OperationalError"), s')
            | _ => (Ok tt, s')
            end) ;*
      guard deadline ;*
      ret a
  end.

(** ** Rows *)

Definition entry_of (key : string) (d : Db) : option Entry :=
  List.find (λ e, bool_decide (e_key e = key)) (entries d).
(** [self._entry(db, key)] *)
Definition entry (key : string) : T Entry := λ d,
  match entry_of key d with Some e => (Ok e, d) | None => (Err (Refusal "external_journal_unknown_key"), d) end.

(** [intent_from(json.loads(text))] *)
Definition read_intent (text : string) : res Intent := let? j := loads text in intent_from j.

Definition set_entries (l : list Entry) (d : Db) : Db := mkDb (binding d) l (requests d) (allocations d) (batches d).
(** [UPDATE entries SET ... WHERE key=?] *)
Definition update_entry (key : string) (f : Entry → Entry) : T unit :=
  modify (λ d, set_entries (map (λ e, if bool_decide (e_key e = key) then f e else e) (entries d)) d).
Definition update_binding (f : Binding → Binding) : T unit :=
  modify (λ d, mkDb (f <$> binding d) (entries d) (requests d) (allocations d) (batches d)).
Definition set_active (key : string) : T unit :=
  update_binding (λ b, mkBinding (b_target b) (b_packet b) (Some key) (b_ordinal b) (b_response_bytes b)).
Definition active : T (option string) := gets (λ d, binding d ≫= b_active).

Definition integrity {S A} : M S A := raise (External "IntegrityError").

(** [INSERT INTO entries(key,intent,phase,root,ordinal) VALUES(...)] *)
Definition insert_entry (key intent phase root : string) (ordinal : Z) : T unit := λ d,
  if bool_decide (key ∈ map e_key (entries d)) then integrity d
  else (Ok tt, set_entries (entries d ++ [mkEntry key intent phase 0 root ordinal None None 0 0]) d).

(** ** Operations *)

(** [self._valid_intent(intent)] *)
Definition valid_intent (i : Intent) : res unit :=
  refuse_if (negb (bool_decide (i_target_id i = target_id))) "external_journal_intent" ;?
  window_validate (i_window i) ;?
  let? _ := generation (PStr (i_expected i)) true in
  refuse_if (negb (str_in (i_operation i) ["close"; "reopen"])
             || negb ((1 <=? slen (i_key i)) && (slen (i_key i) <=? 128)) || negb (isascii (i_key i))
             || negb (is_digest (i_candidate i))
             || negb (bool_decide (i_transition_limit i ∈ [1; 2; 3]))) "external_journal_intent".

Definition latch_tx (i : Intent) : T bool := λ d,
  match entries d with
  | _ :: _ => (Ok false, d)
  | [] => (insert_entry (i_key i) (intent_text i) "latched" (i_key i) 1 ;* set_active (i_key i) ;* ret true) d
  end.
Definition latch (i : Intent) (deadline : stamp) : J bool :=
  lift (valid_intent i) ;*
  lift (refuse_if (Control.MAX_GENERATION <? int_of_str (i_expected i) + i_transition_limit i)
          "external_journal_root_headroom") ;*
  transaction deadline (latch_tx i).

Definition get_tx (key : string) : T JournalEntry :=
  let* row := entry key in
  let* i := lift (read_intent (e_intent row)) in
  ret (mkJournalEntry i (e_phase row) (negb (e_dispatched row =? 0)) (e_root row) (e_ordinal row)
         (e_successor row) (e_confirmation row)).
Definition get (key : string) (deadline : stamp) : J JournalEntry := transaction deadline (get_tx key).

(** The disjunction of [advance] over the rows it read. *)
Definition advance_bad (d : Db) (row : Entry) (root pred_ succ_ : Intent) (receipt : ConfirmedReceipt) : bool :=
  negb (bool_decide (binding d ≫= b_active = Some (i_key pred_)))
  || negb (bool_decide (e_intent row = intent_text pred_))
  || negb (bool_decide (e_phase row = "confirmed"))
  || negb (e_dispatched row =? 1)
  || bool_decide (is_Some (e_successor row))
  || (i_transition_limit root <=? e_ordinal row)
  || negb ((1 <=? e_ordinal row) && (e_ordinal row <=? i_transition_limit root))
  || (Control.MAX_GENERATION <? int_of_str (i_expected root) + i_transition_limit root)
  || negb (bool_decide (i_expected pred_ = str_of_int (int_of_str (i_expected root) + e_ordinal row - 1)))
  || (Control.MAX_GENERATION <? int_of_str (i_expected succ_) + i_transition_limit root - e_ordinal row)
  || bool_decide (i_key succ_ = i_key pred_)
  || negb (bool_decide (i_candidate succ_ = i_candidate pred_))
  || negb (bool_decide (i_candidate succ_ = i_candidate root))
  || negb (bool_decide (i_window succ_ = i_window root))
  || negb (i_transition_limit succ_ =? i_transition_limit root)
  || bool_decide (i_operation succ_ = i_operation pred_)
  || negb (bool_decide (i_expected succ_ = next_generation_of pred_))
  || negb (bool_decide (cf_predecessor receipt = pred_))
  || negb (bool_decide (cf_status receipt = "CONFIRMED"))
  || negb (bool_decide (r_status (cf_result receipt) = "confirmed"))
  || negb (bool_decide (r_reason (cf_result receipt) = "one_row_and_independent_readback"))
  || negb (bool_decide (r_generation (cf_result receipt) = Some (next_generation_of pred_)))
  || negb (bool_decide (r_state (cf_result receipt) = Some (target pred_)))
  || existsb (λ e, bool_decide (e_key e = i_key succ_)
                   || bool_decide (e_confirmation e = Some (cf_reference receipt))) (entries d).

Definition consume (successor reference : string) (e : Entry) : Entry :=
  mkEntry (e_key e) (e_intent e) (e_phase e) (e_dispatched e) (e_root e) (e_ordinal e) (Some successor)
    (Some reference) (e_reads e) (e_reconciliations e).

Definition advance_tx (pred_ succ_ : Intent) (receipt : ConfirmedReceipt) : T bool :=
  let* row := entry (i_key pred_) in
  let* root_row := entry (e_root row) in
  let* root := lift (read_intent (e_intent root_row)) in
  lift (valid_intent root) ;*
  let* d := Prelude.get in
  if advance_bad d row root pred_ succ_ receipt then ret false else
  update_entry (i_key pred_) (consume (i_key succ_) (cf_reference receipt)) ;*
  insert_entry (i_key succ_) (intent_text succ_) "latched" (e_root row) (e_ordinal row + 1) ;*
  set_active (i_key succ_) ;*
  ret true.
Definition advance (pred_ succ_ : Intent) (receipt : ConfirmedReceipt) (deadline : stamp) : J bool :=
  lift (valid_intent pred_) ;*
  lift (valid_intent succ_) ;*
  transaction deadline (advance_tx pred_ succ_ receipt).

Definition add_read (e : Entry) : Entry :=
  mkEntry (e_key e) (e_intent e) (e_phase e) (e_dispatched e) (e_root e) (e_ordinal e) (e_successor e)
    (e_confirmation e) (e_reads e + 1) (e_reconciliations e).
Definition spend_read_tx (key : string) : T bool :=
  let* row := entry key in
  let* root := entry (e_root row) in
  let* i := lift (read_intent (e_intent root)) in
  if read_limit i <=? e_reads root then ret false else
  update_entry (e_root row) add_read ;*
  ret true.
Definition spend_read (key : string) (deadline : stamp) : J bool := transaction deadline (spend_read_tx key).

Definition dispatching (e : Entry) : Entry :=
  mkEntry (e_key e) (e_intent e) "dispatching" 1 (e_root e) (e_ordinal e) (e_successor e) (e_confirmation e)
    (e_reads e) (e_reconciliations e).
Definition claim_dispatch_tx (key : string) : T bool :=
  let* row := entry key in
  let* a := active in
  if negb (bool_decide (e_phase row = "latched")) || negb (e_dispatched row =? 0) || negb (bool_decide (a = Some key))
  then ret false else
  update_entry key dispatching ;*
  ret true.
Definition claim_dispatch (key : string) (deadline : stamp) : J bool := transaction deadline (claim_dispatch_tx key).

Definition add_reconciliation (e : Entry) : Entry :=
  mkEntry (e_key e) (e_intent e) (e_phase e) (e_dispatched e) (e_root e) (e_ordinal e) (e_successor e)
    (e_confirmation e) (e_reads e) (e_reconciliations e + 1).
Definition claim_reconcile_tx (key : string) : T bool :=
  let* row := entry key in
  let* root := entry (e_root row) in
  if (e_dispatched row =? 0) || (2 <=? e_reconciliations root) then ret false else
  update_entry (e_root row) add_reconciliation ;*
  ret true.
Definition claim_reconcile (key : string) (deadline : stamp) : J bool := transaction deadline (claim_reconcile_tx key).

Definition with_phase (phase : string) (e : Entry) : Entry :=
  mkEntry (e_key e) (e_intent e) phase (e_dispatched e) (e_root e) (e_ordinal e) (e_successor e) (e_confirmation e)
    (e_reads e) (e_reconciliations e).
Definition settle_tx (key phase : string) : T unit :=
  let* row := entry key in
  lift (refuse_if (bool_decide (is_Some (e_successor row))) "external_journal_consumed") ;*
  lift (refuse_if (bool_decide (phase = "confirmed") && negb (e_dispatched row =? 1))
          "external_journal_unclaimed_confirmation") ;*
  update_entry key (with_phase phase).
Definition settle (key phase : string) (deadline : stamp) : J unit :=
  lift (refuse_if (negb (str_in phase ["refused"; "unknown"; "confirmed"])) "external_journal_phase") ;*
  transaction deadline (settle_tx key phase).

(** ** Request accounting *)

(** [db.execute("SELECT * FROM binding").fetchone()] *)
Definition the_binding : T Binding := λ d,
  match binding d with Some b => (Ok b, d) | None => (Err (External "TypeError"), d) end.

Definition charge_request (allowance : Z) : T unit :=
  update_binding (λ b, mkBinding (b_target b) (b_packet b) (b_active b) (b_ordinal b + 1) (b_response_bytes b + allowance)).

Definition insert_request (ordinal : Z) (query : string) (reserved : Z) : T unit := λ d,
  if bool_decide (ordinal ∈ map q_ordinal (requests d)) then integrity d
  else (Ok tt, mkDb (binding d) (entries d) (requests d ++ [mkRequest ordinal query reserved None]) (allocations d) (batches d)).

Definition reserve_request_tx (query : string) (allowance max_total max_queries : Z) : T Z :=
  let* row := the_binding in
  lift (refuse_if ((max_queries <=? b_ordinal row) || (max_total <? b_response_bytes row + allowance))
          "native_d1_budget_exhausted") ;*
  insert_request (b_ordinal row) query allowance ;*
  charge_request allowance ;*
  ret (b_ordinal row).
Definition reserve_request (query : string) (allowance max_total max_queries : Z) (deadline : stamp) : J Z :=
  lift (refuse_if (negb ((1 <=? slen (utf8_encode query)) && (slen (utf8_encode query) <=? 256 * 1024))
          || negb ((1 <=? allowance) && (allowance <=? 512 * 1024))
          || negb ((1 <=? max_total) && (max_total <=? 16 * 1024 * 1024))
          || negb ((1 <=? max_queries) && (max_queries <=? 2048))) "native_d1_request_budget_shape") ;*
  transaction deadline (reserve_request_tx query allowance max_total max_queries).

Definition remaining (max_total : Z) (deadline : stamp) : J (Z * Z) :=
  transaction deadline (let* row := the_binding in ret (b_ordinal row, max_total - b_response_bytes row)).

Definition request_of (ordinal : Z) (d : Db) : option Request :=
  List.find (λ q, q_ordinal q =? ordinal) (requests d).

Definition mark_received (ordinal count : Z) : T unit :=
  modify (λ d, mkDb (binding d) (entries d)
    (map (λ q, if q_ordinal q =? ordinal then mkRequest (q_ordinal q) (q_query q) (q_reserved q) (Some count) else q) (requests d))
    (allocations d) (batches d)).

Definition received_tx (ordinal count : Z) : T unit := λ d,
  match request_of ordinal d with
  | Some q =>
      (lift (refuse_if (bool_decide (is_Some (q_received q)) || negb ((0 <=? count) && (count <=? q_reserved q)))
               "native_d1_accounting") ;*
       mark_received ordinal count ;*
       update_binding (λ b, mkBinding (b_target b) (b_packet b) (b_active b) (b_ordinal b)
                              (b_response_bytes b - (q_reserved q - count)))) d
  | None => (Err (Refusal "native_d1_accounting"), d)
  end.
Definition received (ordinal count : Z) (deadline : stamp) : J unit := transaction deadline (received_tx ordinal count).

(** [descriptor.get("statementCount")] of a dict *)
Definition statement_count (descriptor : json) : option Z :=
  match descriptor with
  | JObj d => match dict_get "statementCount" d with Some (JInt n) => Some n | _ => None end
  | _ => None
  end.

Definition limit_of (k : string) (limits : list (string * Z)) : Z := default 0 (dict_get k limits).

Definition allocation_shape_bad (descriptor : json) (allowance request_bytes : Z) (limits : list (string * Z)) : bool :=
  negb (bool_decide (statement_count descriptor ∈ [Some 1; Some 2]))
  || negb ((1 <=? request_bytes) && (request_bytes <=? 256 * 1024))
  || negb ((1 <=? allowance) && (allowance <=? 512 * 1024))
  || negb (same_keys limits ["requests"; "statements"; "requestBytes"; "responseBytes"])
  || existsb (λ kv, kv.2 <=? 0) limits
  || (2048 <? limit_of "requests" limits)
  || (2048 <? limit_of "statements" limits)
  || (16 * 1024 * 1024 <? limit_of "requestBytes" limits)
  || (16 * 1024 * 1024 <? limit_of "responseBytes" limits).

(** The two sums over [statement_allocations]. *)
Definition extra_statements (l : list Allocation) : Z := foldr (λ a n, a_statements a - 1 + n) 0 l.
Definition allocated_bytes (l : list Allocation) : Z := foldr (λ a n, a_request_bytes a + n) 0 l.

Definition insert_batch (key : string) (ordinal : Z) : T unit := λ d,
  if existsb (λ kb, bool_decide (kb.1 = key) || (kb.2 =? ordinal)) (batches d) then integrity d
  else (Ok tt, mkDb (binding d) (entries d) (requests d) (allocations d) (batches d ++ [(key, ordinal)])).

Definition insert_allocation (ordinal statements request_bytes : Z) : T unit := λ d,
  if bool_decide (ordinal ∈ map a_ordinal (allocations d)) then integrity d
  else (Ok tt, mkDb (binding d) (entries d) (requests d)
                 (allocations d ++ [mkAllocation ordinal statements request_bytes]) (batches d)).

(** The batch branch: two statements are one dispatch of the active intent. *)
Definition spend_batch (intent : option Intent) (ordinal : Z) : T unit :=
  match intent with
  | None => raise (Refusal "exact_successor_intent_required")
  | Some i =>
      lift (valid_intent i) ;*
      let* row := entry (i_key i) in
      let* d := Prelude.get in
      lift (refuse_if (negb (bool_decide (e_intent row = intent_text i)) || negb (bool_decide (e_phase row = "dispatching"))
              || negb (e_dispatched row =? 1) || negb (bool_decide (binding d ≫= b_active = Some (i_key i)))
              || existsb (λ kb, bool_decide (kb.1 = i_key i)) (batches d)) "exact_successor_dispatch_already_spent") ;*
      insert_batch (i_key i) ordinal
  end.

Definition reserve_exact_tx (descriptor : json) (statements allowance request_bytes : Z) (limits : list (string * Z))
    (intent : option Intent) : T Z :=
  let* row := the_binding in
  let* d := Prelude.get in
  lift (refuse_if (negb (bool_decide (length (requests d) = length (allocations d))))
          "exact_successor_prior_allocation_unknown") ;*
  lift (refuse_if ((limit_of "requests" limits <=? b_ordinal row)
          || (limit_of "statements" limits <? b_ordinal row + extra_statements (allocations d) + statements)
          || (limit_of "requestBytes" limits <? allocated_bytes (allocations d) + request_bytes)
          || (limit_of "responseBytes" limits <? b_response_bytes row + allowance)) "exact_successor_budget_exhausted") ;*
  (if statements =? 2 then spend_batch intent (b_ordinal row)
   else lift (refuse_if (bool_decide (is_Some intent)) "exact_successor_read_intent")) ;*
  insert_request (b_ordinal row) (dumps descriptor) allowance ;*
  insert_allocation (b_ordinal row) statements request_bytes ;*
  charge_request allowance ;*
  ret (b_ordinal row).
Definition reserve_exact_request (descriptor : json) (allowance request_bytes : Z) (limits : list (string * Z))
    (deadline : stamp) (intent : option Intent) : J Z :=
  lift (refuse_if (allocation_shape_bad descriptor allowance request_bytes limits) "exact_successor_allocation_shape") ;*
  transaction deadline
    (reserve_exact_tx descriptor (default 0 (statement_count descriptor)) allowance request_bytes limits intent).

(** ** The port implemented *)

#[export] Instance d1_sqlite_journal : D1Journal (State C) := {|
  dj_latch := latch;
  dj_advance := advance;
  dj_get := get;
  dj_spend_read := spend_read;
  dj_claim_dispatch := claim_dispatch;
  dj_claim_reconcile := claim_reconcile;
  dj_settle := settle;
|}.

(** ** Calls *)

Inductive call :=
| CLatch (i : Intent)
| CAdvance (pred_ succ_ : Intent) (receipt : ConfirmedReceipt)
| CGet (key : string)
| CSpendRead (key : string)
| CClaimDispatch (key : string)
| CClaimReconcile (key : string)
| CSettle (key phase : string)
| CReserve (query : string) (allowance max_total max_queries : Z)
| CReceived (ordinal count : Z)
| CReserveExact (descriptor : json) (allowance request_bytes : Z) (limits : list (string * Z)) (intent : option Intent).

Definition discard {S A} (m : M S A) (f : A → bool) : M S bool := let* a := m in ret (f a).

(** A call and whether it answers [True] (or a value that is not a bool). *)
Definition run_call (c : call) (deadline : stamp) : J bool :=
  match c with
  | CLatch i => latch i deadline
  | CAdvance p s r => advance p s r deadline
  | CGet k => discard (get k deadline) (λ _, true)
  | CSpendRead k => spend_read k deadline
  | CClaimDispatch k => claim_dispatch k deadline
  | CClaimReconcile k => claim_reconcile k deadline
  | CSettle k p => discard (settle k p deadline) (λ _, true)
  | CReserve q a t n => discard (reserve_request q a t n deadline) (λ _, true)
  | CReceived o n => discard (received o n deadline) (λ _, true)
  | CReserveExact d a b l i => discard (reserve_exact_request d a b l deadline i) (λ _, true)
  end.

(** The transaction of a call, and the test it makes before it opens one. *)
Definition call_tx (c : call) : T bool :=
  match c with
  | CLatch i => latch_tx i
  | CAdvance p s r => advance_tx p s r
  | CGet k => discard (get_tx k) (λ _, true)
  | CSpendRead k => spend_read_tx k
  | CClaimDispatch k => claim_dispatch_tx k
  | CClaimReconcile k => claim_reconcile_tx k
  | CSettle k p => discard (settle_tx k p) (λ _, true)
  | CReserve q a t n => discard (reserve_request_tx q a t n) (λ _, true)
  | CReceived o n => discard (received_tx o n) (λ _, true)
  | CReserveExact d a b l i => discard (reserve_exact_tx d (default 0 (statement_count d)) a b l i) (λ _, true)
  end.
Definition precheck (c : call) : res unit :=
  match c with
  | CLatch i => valid_intent i ;?
      refuse_if (Control.MAX_GENERATION <? int_of_str (i_expected i) + i_transition_limit i) "external_journal_root_headroom"
  | CAdvance p s _ => valid_intent p ;? valid_intent s
  | CSettle _ p => refuse_if (negb (str_in p ["refused"; "unknown"; "confirmed"])) "external_journal_phase"
  | CReserve q a t n =>
      refuse_if (negb ((1 <=? slen (utf8_encode q)) && (slen (utf8_encode q) <=? 256 * 1024))
          || negb ((1 <=? a) && (a <=? 512 * 1024))
          || negb ((1 <=? t) && (t <=? 16 * 1024 * 1024))
          || negb ((1 <=? n) && (n <=? 2048))) "native_d1_request_budget_shape"
  | CReserveExact d a b l _ => refuse_if (allocation_shape_bad d a b l) "exact_successor_allocation_shape"
  | _ => Ok tt
  end.
End Journal.
