(* ===== verification/D1JournalFacts.v ===== *)
(** The invariant of the operator journal: the entries are one chain of intents
    under one root, with its budgets, and what follows for every history of calls,
    crashes and lost acknowledgments. *)
From S2P Require Import Prelude Json JsonParse JsonRoundTrip Oracle Control D1Port D1Journal.

(** ** Transactions *)

Section Transaction.
Context {C : Type} (clock : M C stamp) (fate : nat → io) (target_id packet : string).
Notation transaction := (transaction clock fate target_id packet).

Lemma guard_file dl s : s_file (guard clock dl s).2 = s_file s ∧ s_calls (guard clock dl s).2 = s_calls s.
Proof. unfold guard. destruct (clock (s_clock s)) as [[[n|]|e] c]; [destruct dl|..]; done. Qed.

(** A transaction changes nothing, or applies its whole body to the provisioned
    file; an acknowledged one applied it. *)
Lemma tx_cases {A} dl (m : M Db A) s r s' :
  transaction dl m s = (r, s') →
  (s_file s' = s_file s ∧ ∀ a, r ≠ Ok a)
  ∨ ∃ d a d', s_file s = Provisioned d ∧ m d = (Ok a, d') ∧ s_file s' = Provisioned d' ∧ ∀ b, r = Ok b → b = a.
Proof.
  unfold D1Journal.transaction, bind.
  destruct (guard clock dl s) as [r1 s1] eqn:E1. pose proof (guard_file dl s) as [F1 _]. rewrite E1 in F1. simpl in F1.
  destruct r1 as [[]|e1]; [|intros [= <- <-]; left; done].
  assert (∀ r2 s2, begin_ fate target_id packet s1 = (r2, s2) →
    s_file s2 = s_file s1 ∧ ∀ d, r2 = Ok d → s_file s1 = Provisioned d) as Hb.
  { intros r2 s2. unfold begin_. destruct (s_file s1) as [| |d] eqn:Ef; [|destruct (fate _)..]; try (by intros [= <- <-]).
    all: destruct (binding d) as [b|]; [destruct (bound _ _ b)|]; intros [= <- <-]; (split; [done|]); congruence. }
  destruct (begin_ fate target_id packet s1) as [r2 s2] eqn:E2. destruct (Hb _ _ eq_refl) as [F2 Hd].
  destruct r2 as [d|e2]; [|intros [= <- <-]; left; split; [congruence|done]].
  destruct (guard clock dl s2) as [r3 s3] eqn:E3. pose proof (guard_file dl s2) as [F3 _]. rewrite E3 in F3. simpl in F3.
  destruct r3 as [[]|e3]; [|intros [= <- <-]; left; split; [congruence|done]].
  destruct (m d) as [[a|e] d'] eqn:Em; [|intros [= <- <-]; left; split; [congruence|done]].
  destruct (guard clock dl s3) as [r4 s4] eqn:E4. pose proof (guard_file dl s3) as [F4 _]. rewrite E4 in F4. simpl in F4.
  destruct r4 as [[]|e4]; [|intros [= <- <-]; left; split; [congruence|done]].
  assert (∀ r5 s5, (let s' := mkState (Provisioned d') (s_calls s4) (s_clock s4) in
      match fate (pred (s_calls s4)) with LostAck => (Err (External "OperationalError"), s') | _ => (Ok tt, s') end)
      = (r5, s5) → s_file s5 = Provisioned d') as Hc.
  { intros r5 s5. destruct (fate _); by intros [= <- <-]. }
  cbv zeta in Hc.
  destruct (match fate (pred (s_calls s4)) with LostAck => _ | _ => _ end) as [r5 s5] eqn:E5.
  specialize (Hc _ _ eq_refl).
  intros H. right. exists d, a, d'. rewrite F1, F2 in *. split; [by apply Hd|]. split; [done|].
  destruct r5 as [[]|e5]; [|injection H as <- <-; done].
  destruct (guard clock dl s5) as [r6 s6] eqn:E6. pose proof (guard_file dl s5) as [F6 _]. rewrite E6 in F6. simpl in F6.
  destruct r6 as [[]|e6]; injection H as <- <-; (split; [congruence|]); congruence.
Qed.

Lemma discard_cases {S A} (m : M S A) f s r s' :
  discard m f s = (r, s') → ∃ r0, m s = (r0, s') ∧ ∀ b, r = Ok b ↔ ∃ a, r0 = Ok a ∧ b = f a.
Proof.
  unfold discard, bind, ret. destruct (m s) as [[a|e] s1]; intros [= <- <-].
  - exists (Ok a). split; [done|]. intros b. split; [intros [= <-]; eauto|by intros (? & [= <-] & ->)].
  - exists (Err e). split; [done|]. intros b. split; [done|by intros (? & ? & ?)].
Qed.

Lemma discarded_transaction {A} dl (m : M Db A) f s r s' :
  discard (transaction dl m) f s = (r, s') →
  (s_file s' = s_file s ∧ ∀ a, r ≠ Ok a)
  ∨ ∃ d a d', s_file s = Provisioned d ∧ discard m f d = (Ok a, d') ∧ s_file s' = Provisioned d' ∧ ∀ b, r = Ok b → b = a.
Proof.
  intros (r0 & Ht & Hr)%discard_cases. apply tx_cases in Ht as [[Hf Hn]|(d & a & d' & H1 & H2 & H3 & H4)].
  - left. split; [done|]. intros b Hb. apply Hr in Hb as (a & -> & _). by eapply Hn.
  - right. exists d, (f a), d'. split_and!; [done| |done|].
    + unfold discard, bind. by rewrite H2.
    + intros b Hb. apply Hr in Hb as (a' & -> & ->). by rewrite (H4 a').
Qed.

Notation run_call := (run_call clock fate target_id packet).
Notation call_tx := (call_tx target_id).
Notation precheck := (precheck target_id).

Lemma lift_then {S A} (x : res unit) (m : M S A) s r s' :
  (lift x ;* m) s = (r, s') → (∃ e, x = Err e ∧ r = Err e ∧ s' = s) ∨ (x = Ok tt ∧ m s = (r, s')).
Proof. unfold bind, lift. destruct x as [[]|e]; [by right|]. intros [= <- <-]. left. eauto. Qed.

(** What one call does to the file. *)
Lemma call_cases c dl s r s' :
  run_call c dl s = (r, s') →
  (s_file s' = s_file s ∧ ∀ a, r ≠ Ok a)
  ∨ ∃ d a d', s_file s = Provisioned d ∧ precheck c = Ok tt ∧ call_tx c d = (Ok a, d') ∧ s_file s' = Provisioned d'
    ∧ ∀ b, r = Ok b → b = a.
Proof.
  assert (∀ (x : res unit) (m : M (State C) bool) (tx : M Db bool),
    (∀ r s', m s = (r, s') → (s_file s' = s_file s ∧ ∀ a, r ≠ Ok a)
      ∨ ∃ d a d', s_file s = Provisioned d ∧ tx d = (Ok a, d') ∧ s_file s' = Provisioned d' ∧ ∀ b, r = Ok b → b = a) →
    (lift x ;* m) s = (r, s') →
    (s_file s' = s_file s ∧ ∀ a, r ≠ Ok a)
    ∨ ∃ d a d', s_file s = Provisioned d ∧ x = Ok tt ∧ tx d = (Ok a, d') ∧ s_file s' = Provisioned d' ∧ ∀ b, r = Ok b → b = a) as Hpre.
  { intros x m tx Hm [(e & _ & -> & ->)|[-> H]]%lift_then; [left; done|].
    apply Hm in H as [H|(d & a & d' & ? & ? & ? & ?)]; [by left|]. right. eauto 10. }
  assert (∀ (m : M (State C) bool) (tx : M Db bool),
    (∀ r s', m s = (r, s') → (s_file s' = s_file s ∧ ∀ a, r ≠ Ok a)
      ∨ ∃ d a d', s_file s = Provisioned d ∧ tx d = (Ok a, d') ∧ s_file s' = Provisioned d' ∧ ∀ b, r = Ok b → b = a) →
    m s = (r, s') →
    (s_file s' = s_file s ∧ ∀ a, r ≠ Ok a)
    ∨ ∃ d a d', s_file s = Provisioned d ∧ Ok tt = Ok tt ∧ tx d = (Ok a, d') ∧ s_file s' = Provisioned d' ∧ ∀ b, r = Ok b → b = a) as Hno.
  { intros m tx Hm H. apply Hm in H as [H|(d & a & d' & ? & ? & ? & ?)]; [by left|]. right. eauto 10. }
  assert (∀ (x y : res unit) (m : M (State C) bool), (lift x ;* lift y ;* m) s = (lift (x ;? y) ;* m) s) as H2
    by (intros [[]|] y m; reflexivity).
  assert (∀ A (x : res unit) (m : M (State C) A) f, discard (lift x ;* m) f s = (lift x ;* discard m f) s) as Hd
    by (intros A [[]|] m f; reflexivity).
  destruct c; simpl; unfold latch, advance, D1Journal.get, spend_read, claim_dispatch, claim_reconcile, settle, reserve_request,
    received, reserve_exact_request; rewrite ?H2, ?Hd;
    (apply Hpre || apply Hno); intros r1 s1 H1; (by apply tx_cases in H1) || (by apply discarded_transaction in H1).
Qed.
End Transaction.

(** ** Bodies run backwards *)

Lemma entry_ok k d e d' : entry k d = (Ok e, d') → entry_of k d = Some e ∧ d' = d.
Proof. unfold entry. destruct (entry_of k d); intros [= <- <-]. done. Qed.
Lemma lift_ok {S A} (x : res A) (s : S) a s' : lift x s = (Ok a, s') → x = Ok a ∧ s' = s.
Proof. unfold lift. intros [= -> <-]. done. Qed.
Lemma binding_ok d b d' : the_binding d = (Ok b, d') → binding d = Some b ∧ d' = d.
Proof. unfold the_binding. destruct (binding d); intros [= <- <-]. done. Qed.
Lemma insert_entry_ok k i p r o d x d' :
  insert_entry k i p r o d = (Ok x, d') →
  k ∉ map e_key (entries d) ∧ d' = set_entries (entries d ++ [mkEntry k i p 0 r o None None 0 0]) d.
Proof. unfold insert_entry. destruct (bool_decide_reflect (k ∈ map e_key (entries d))); [done|]. intros [= _ <-]. done. Qed.
Lemma insert_request_ok o q n d x d' :
  insert_request o q n d = (Ok x, d') →
  o ∉ map q_ordinal (requests d)
  ∧ d' = mkDb (binding d) (entries d) (requests d ++ [mkRequest o q n None]) (allocations d) (batches d).
Proof. unfold insert_request. destruct (bool_decide_reflect (o ∈ map q_ordinal (requests d))); [done|]. intros [= _ <-]. done. Qed.
Lemma insert_allocation_ok o n b d x d' :
  insert_allocation o n b d = (Ok x, d') →
  o ∉ map a_ordinal (allocations d)
  ∧ d' = mkDb (binding d) (entries d) (requests d) (allocations d ++ [mkAllocation o n b]) (batches d).
Proof. unfold insert_allocation. destruct (bool_decide_reflect (o ∈ map a_ordinal (allocations d))); [done|]. intros [= _ <-]. done. Qed.
Lemma insert_batch_ok k o d x d' :
  insert_batch k o d = (Ok x, d') →
  (∀ kb, kb ∈ batches d → kb.1 ≠ k ∧ kb.2 ≠ o)
  ∧ d' = mkDb (binding d) (entries d) (requests d) (allocations d) (batches d ++ [(k, o)]).
Proof.
  unfold insert_batch. destruct (existsb _ _) eqn:E; [done|]. intros [= _ <-]. split; [|done].
  intros kb Hkb. apply not_true_iff_false in E. rewrite existsb_exists in E.
  split; intros H; apply E; exists kb; (split; [by apply list_elem_of_In|]); apply orb_true_iff;
    [left; by apply bool_decide_eq_true|right; by apply Z.eqb_eq].
Qed.

(** Runs a successful body backwards: its reads, tests and writes. *)
Ltac inv_tx :=
  repeat match goal with
  | H : bind _ _ _ = (Ok _, _) |- _ =>
      let x := fresh "x" in let d := fresh "d" in let Hx := fresh "Hx" in
      apply bind_ok in H as (x & d & Hx & H); cbv beta in H; try match type of x with unit => destruct x end
  | H : entry _ _ = (Ok _, _) |- _ => let E := fresh "He" in apply entry_ok in H as [E ->]
  | H : the_binding _ = (Ok _, _) |- _ => let E := fresh "Hb" in apply binding_ok in H as [E ->]
  | H : lift _ _ = (Ok _, _) |- _ => let E := fresh "Hl" in apply lift_ok in H as [E ->]
  | H : insert_entry _ _ _ _ _ _ = (Ok _, _) |- _ => let E := fresh "Hi" in apply insert_entry_ok in H as [E ->]
  | H : insert_request _ _ _ _ = (Ok _, _) |- _ => let E := fresh "Hi" in apply insert_request_ok in H as [E ->]
  | H : insert_allocation _ _ _ _ = (Ok _, _) |- _ => let E := fresh "Hi" in apply insert_allocation_ok in H as [E ->]
  | H : insert_batch _ _ _ = (Ok _, _) |- _ => let E := fresh "Hi" in apply insert_batch_ok in H as [E ->]
  | H : ret _ _ = (Ok _, _) |- _ => unfold ret in H; injection H as ? ?; subst
  | H : gets _ _ = (Ok _, _) |- _ => unfold gets in H; injection H as ? ?; subst
  | H : Prelude.get _ = (Ok _, _) |- _ => unfold Prelude.get in H; injection H as ? ?; subst
  | H : modify _ _ = (Ok _, _) |- _ => unfold modify in H; injection H as ?; subst
  | H : update_entry _ _ _ = (Ok _, _) |- _ => unfold update_entry in H
  | H : update_binding _ _ = (Ok _, _) |- _ => unfold update_binding in H
  | H : set_active _ _ = (Ok _, _) |- _ => unfold set_active in H
  | H : charge_request _ _ = (Ok _, _) |- _ => unfold charge_request in H
  | H : mark_received _ _ _ = (Ok _, _) |- _ => unfold mark_received in H
  | H : discard _ _ _ = (Ok _, _) |- _ => unfold discard in H
  | H : active _ = (Ok _, _) |- _ => unfold active in H
  | H : refuse_if _ _ = Ok _ |- _ => apply refuse_if_ok in H
  | H : raise _ _ = (Ok _, _) |- _ => discriminate H
  end.

(** ** The chain of intents *)

Section Chain.
Context (target_id : string).

(** Phases an entry can be in before and after its dispatch was claimed. *)
Definition phase_fits (e : Entry) : Prop :=
  (e_dispatched e = 0 ∧ e_phase e ∈ ["latched"; "refused"; "unknown"])
  ∨ (e_dispatched e = 1 ∧ e_phase e ∈ ["dispatching"; "refused"; "unknown"; "confirmed"]).

(** Entry [n] of the chain of root [r] holds intent [i], succeeded by [next]. *)
Record link (r : Intent) (n : nat) (next : option Intent) (i : Intent) (e : Entry) : Prop := {
  lk_key : e_key e = i_key i;
  lk_text : e_intent e = intent_text i;
  lk_valid : valid_intent target_id i = Ok tt;
  lk_window : i_window i = i_window r;
  lk_candidate : i_candidate i = i_candidate r;
  lk_limit : i_transition_limit i = i_transition_limit r;
  lk_expected : i_expected i = str_of_int (int_of_str (i_expected r) + Z.of_nat n);
  lk_root : e_root e = i_key r;
  lk_ordinal : e_ordinal e = Z.of_nat n + 1;
  lk_successor : e_successor e = i_key <$> next;
  lk_confirmation : is_Some (e_confirmation e) ↔ is_Some next;
  lk_consumed : is_Some next → e_phase e = "confirmed";
  lk_phase : phase_fits e;
  lk_reads : 0 <= e_reads e <= (if bool_decide (n = 0%nat) then read_limit r else 0);
  lk_reconciliations : 0 <= e_reconciliations e <= (if bool_decide (n = 0%nat) then 2 else 0);
}.

(** The entries are the chain [r :: l]. *)
Record chain (r : Intent) (l : list Intent) (d : Db) : Prop := {
  ch_active : binding d ≫= b_active = i_key <$> last (r :: l);
  ch_keys : NoDup (map i_key (r :: l));
  ch_length : length (entries d) = length (r :: l);
  ch_link : ∀ n e i, entries d !! n = Some e → (r :: l) !! n = Some i → link r n ((r :: l) !! S n) i e;
  ch_alternate : ∀ n i j, (r :: l) !! n = Some i → (r :: l) !! S n = Some j → i_operation j ≠ i_operation i;
  ch_bound : Z.of_nat (length (r :: l)) <= i_transition_limit r;
  ch_headroom : int_of_str (i_expected r) + i_transition_limit r <= Control.MAX_GENERATION;
  ch_receipts : ∀ n m e f c, entries d !! n = Some e → entries d !! m = Some f →
    e_confirmation e = Some c → e_confirmation f = Some c → n = m;
}.
Definition chained (d : Db) : Prop := entries d = [] ∨ ∃ r l, chain r l d.

(** *** Lookups *)

Lemma entry_of_lookup k d e : entry_of k d = Some e → e_key e = k ∧ ∃ n, entries d !! n = Some e.
Proof.
  unfold entry_of. intros H. apply find_some in H as [Hin Hk]. apply bool_decide_eq_true in Hk.
  split; [done|]. by apply list_elem_of_lookup, list_elem_of_In.
Qed.

Lemma chain_intent r l d n e : chain r l d → entries d !! n = Some e → ∃ i, (r :: l) !! n = Some i ∧ link r n ((r :: l) !! S n) i e.
Proof.
  intros H He. destruct ((r :: l) !! n) as [i|] eqn:Ei.
  - exists i. split; [done|]. by eapply ch_link.
  - apply lookup_ge_None in Ei. apply lookup_lt_Some in He. rewrite (ch_length _ _ _ H) in He. lia.
Qed.

Lemma chain_entry r l d n i : chain r l d → (r :: l) !! n = Some i → ∃ e, entries d !! n = Some e ∧ link r n ((r :: l) !! S n) i e.
Proof.
  intros H Hi. destruct (entries d !! n) as [e|] eqn:Ee.
  - exists e. split; [done|]. by eapply ch_link.
  - apply lookup_ge_None in Ee. apply lookup_lt_Some in Hi. rewrite (ch_length _ _ _ H) in Ee. lia.
Qed.

(** Equal keys are one position. *)
Lemma chain_same r l d n m e f :
  chain r l d → entries d !! n = Some e → entries d !! m = Some f → e_key e = e_key f → n = m.
Proof.
  intros H He Hf Hk. destruct (chain_intent _ _ _ _ _ H He) as (i & Hi & Li).
  destruct (chain_intent _ _ _ _ _ H Hf) as (j & Hj & Lj).
  apply (NoDup_lookup (map i_key (r :: l)) n m (i_key i)); [apply H| |].
  - change (map i_key (r :: l)) with (i_key <$> (r :: l)). by rewrite list_lookup_fmap, Hi.
  - change (map i_key (r :: l)) with (i_key <$> (r :: l)). rewrite list_lookup_fmap, Hj. simpl. f_equal.
    by rewrite <- (lk_key _ _ _ _ _ Li), <- (lk_key _ _ _ _ _ Lj).
Qed.

Lemma chain_nonempty r l d : chain r l d → entries d ≠ [].
Proof. intros H E. pose proof (ch_length _ _ _ H) as Hl. rewrite E in Hl. done. Qed.

(** The intent read back from a linked entry. *)
Lemma valid_intent_window i : valid_intent target_id i = Ok tt → ∃ s d r, i_window i = mkWindow (At s) (At d) (At r).
Proof.
  unfold valid_intent. intros H. inv_check.
  match goal with H : window_validate _ = Ok _ |- _ => apply window_validate_ok in H as (s & d & r & E & _) end. eauto.
Qed.
Lemma read_intent_text i : valid_intent target_id i = Ok tt → read_intent (intent_text i) = Ok i.
Proof. intros (s & d & r & Hw)%valid_intent_window. by eapply intent_from_text. Qed.

Lemma intent_text_inj i j :
  valid_intent target_id i = Ok tt → valid_intent target_id j = Ok tt → intent_text i = intent_text j → i = j.
Proof. intros Hi Hj E. apply read_intent_text in Hi, Hj. rewrite E in Hi. congruence. Qed.

Lemma root_entry r l d n e :
  chain r l d → entries d !! n = Some e → entry_of (e_root e) d = entries d !! 0%nat.
Proof.
  intros H He. destruct (chain_intent _ _ _ _ _ H He) as (i & _ & L). rewrite (lk_root _ _ _ _ _ L).
  destruct (chain_entry r l d 0 r H eq_refl) as (e0 & H0 & L0). rewrite H0. unfold entry_of.
  destruct (entries d) as [|x es]; [done|]. injection H0 as ->. simpl.
  by rewrite bool_decide_true by apply L0.
Qed.

(** *** Changing one row *)

Lemma update_entry_run k f d : update_entry k f d = (Ok tt, set_entries (map (λ e, if bool_decide (e_key e = k) then f e else e) (entries d)) d).
Proof. done. Qed.

(** An update of one row that keeps what links the chain keeps the chain. *)
Lemma chain_update r l d n e f :
  chain r l d → entries d !! n = Some e →
  (∀ x, e_key (f x) = e_key x) → (∀ x, e_confirmation (f x) = e_confirmation x) →
  (∀ i, (r :: l) !! n = Some i → link r n ((r :: l) !! S n) i e → link r n ((r :: l) !! S n) i (f e)) →
  chain r l (set_entries (map (λ x, if bool_decide (e_key x = e_key e) then f x else x) (entries d)) d).
Proof.
  intros H He Hk Hc Hf. set (g := λ x, if bool_decide (e_key x = e_key e) then f x else x).
  assert (∀ m x, map g (entries d) !! m = Some x → ∃ y, entries d !! m = Some y ∧ x = g y) as Hlook.
  { intros m x Hx. change (map g (entries d)) with (g <$> entries d) in Hx. rewrite list_lookup_fmap in Hx.
    destruct (entries d !! m) as [y|]; [|done]. injection Hx as <-. eauto. }
  assert (∀ y, e_confirmation (g y) = e_confirmation y) as Hgc by (intros y; unfold g; destruct (bool_decide _); auto).
  split; try apply H.
  - simpl. rewrite length_map. apply H.
  - simpl. intros m x i Hx Hi. apply Hlook in Hx as (y & Hy & ->). unfold g.
    destruct (bool_decide_reflect (e_key y = e_key e)) as [E|E].
    + assert (m = n) as -> by (by eapply chain_same). rewrite He in Hy. injection Hy as <-.
      apply Hf; [done|]. by eapply ch_link.
    + by eapply ch_link.
  - simpl. intros m m' x y c Hx Hy. apply Hlook in Hx as (x' & Hx & ->). apply Hlook in Hy as (y' & Hy & ->).
    rewrite !Hgc. by eapply ch_receipts.
Qed.

(** ** The bodies of the calls *)

Lemma chain_frame r l d d' :
  entries d' = entries d → binding d' ≫= b_active = binding d ≫= b_active → chain r l d → chain r l d'.
Proof. intros He Hb H. split; rewrite ?He, ?Hb; apply H. Qed.

Lemma chained_frame d d' :
  entries d' = entries d → binding d' ≫= b_active = binding d ≫= b_active → chained d → chained d'.
Proof. intros He Hb [H|(r & l & H)]; [left; congruence|right; exists r, l; by eapply chain_frame]. Qed.

Lemma active_update d f :
  (∀ b, b_active (f b) = b_active b) → (f <$> binding d) ≫= b_active = binding d ≫= b_active.
Proof. intros H. destruct (binding d); simpl; auto. Qed.

Lemma claim_dispatch_chained k d a d' : claim_dispatch_tx k d = (Ok a, d') → chained d → chained d'.
Proof.
  unfold claim_dispatch_tx. intros H Hc. inv_tx. destruct (negb _ || _ || _) eqn:E; inv_tx; [done|].
  apply entry_of_lookup in He as (Hk & n & Hn). destruct Hc as [Hc|(r & l & Hc)]; [by rewrite Hc in Hn|].
  right. exists r, l. rewrite <- Hk. eapply chain_update; [done|done|done|done|].
  intros i Hi [L1 L2 L3 L4 L5 L6 L7 L8 L9 L10 L11 L12 L13 L14 L15]. inv_bool.
  split; try done; simpl.
  - intros Hs. specialize (L12 Hs). congruence.
  - right. split; [done|set_solver].
Qed.

Lemma settle_chained k p d a d' :
  str_in p ["refused"; "unknown"; "confirmed"] = true → settle_tx k p d = (Ok a, d') → chained d → chained d'.
Proof.
  unfold settle_tx. intros Hp H Hc. inv_tx. apply bool_decide_eq_true in Hp.
  apply entry_of_lookup in He as (Hk & n & Hn). destruct Hc as [Hc|(r & l & Hc)]; [by rewrite Hc in Hn|].
  right. exists r, l. rewrite <- Hk. eapply chain_update; [done|done|done|done|].
  intros i Hi [L1 L2 L3 L4 L5 L6 L7 L8 L9 L10 L11 L12 L13 L14 L15]. inv_bool.
  split; try done; simpl.
  - intros Hs. destruct Hl0. rewrite L10. by apply fmap_is_Some.
  - destruct L13 as [[D P]|[D P]]; [left|right]; (split; [done|]).
    + rewrite D in Hl. simpl in Hl. apply andb_false_iff in Hl as [Hl|Hl]; [|done].
      apply bool_decide_eq_false in Hl. set_solver.
    + set_solver.
Qed.

(** The root of a linked row, with its index. *)
Lemma root_row r l d k row root :
  chain r l d → entry_of k d = Some row → entry_of (e_root row) d = Some root →
  (∃ n, entries d !! n = Some row) ∧ e_key row = k ∧ entries d !! 0%nat = Some root ∧ link r 0 ((r :: l) !! 1%nat) r root
  ∧ e_root row = e_key root.
Proof.
  intros H Hr Hroot. apply entry_of_lookup in Hr as (Hk & n & Hn).
  rewrite (root_entry r l d n row H Hn) in Hroot. split; [eauto|]. split; [done|]. split; [done|].
  assert (link r 0 ((r :: l) !! 1%nat) r root) as L by (by eapply ch_link). split; [done|].
  destruct (chain_intent _ _ _ _ _ H Hn) as (i & _ & Li). by rewrite (lk_root _ _ _ _ _ Li), (lk_key _ _ _ _ _ L).
Qed.

Lemma spend_read_chained k d a d' : spend_read_tx k d = (Ok a, d') → chained d → chained d'.
Proof.
  unfold spend_read_tx. intros H Hc. inv_tx. destruct (_ <=? _) eqn:E; inv_tx; [done|].
  destruct Hc as [Hc|(r & l & Hc)]; [unfold entry_of in He0; by rewrite Hc in He0|].
  destruct (root_row _ _ _ _ _ _ Hc He0 He) as (_ & _ & H0 & L & ->).
  match goal with H : read_intent _ = Ok _ |- _ => rewrite (lk_text _ _ _ _ _ L), (read_intent_text r) in H by apply L; injection H as <- end.
  right. exists r, l. eapply chain_update; [done|done|done|done|].
  intros i [= <-] [L1 L2 L3 L4 L5 L6 L7 L8 L9 L10 L11 L12 L13 L14 L15]. split; try done. simpl in *. lia.
Qed.

Lemma claim_reconcile_chained k d a d' : claim_reconcile_tx k d = (Ok a, d') → chained d → chained d'.
Proof.
  unfold claim_reconcile_tx. intros H Hc. inv_tx. destruct (_ || _) eqn:E; inv_tx; [done|].
  destruct Hc as [Hc|(r & l & Hc)]; [unfold entry_of in He0; by rewrite Hc in He0|].
  destruct (root_row _ _ _ _ _ _ Hc He0 He) as (_ & _ & H0 & L & ->). inv_bool.
  right. exists r, l. eapply chain_update; [done|done|done|done|].
  intros i [= <-] [L1 L2 L3 L4 L5 L6 L7 L8 L9 L10 L11 L12 L13 L14 L15]. split; try done. simpl in *. lia.
Qed.

Lemma valid_limit i : valid_intent target_id i = Ok tt → 1 <= i_transition_limit i <= 3.
Proof.
  unfold valid_intent. intros H. inv_check. inv_bool.
  match goal with H : i_transition_limit i ∈ _ |- _ => rewrite !elem_of_cons, elem_of_nil in H; destruct H as [->|[->|[->|[]]]]; lia end.
Qed.

Lemma latch_chained i d a d' :
  valid_intent target_id i = Ok tt →
  int_of_str (i_expected i) + i_transition_limit i <= Control.MAX_GENERATION →
  is_Some (binding d) → latch_tx i d = (Ok a, d') → chained d → chained d'.
Proof.
  unfold latch_tx. intros Hv Hm [b Hb] H Hc. destruct (entries d) as [|e es] eqn:Ee; [|injection H as _ <-; done].
  inv_tx. right. exists i, []. unfold set_entries. rewrite Ee. simpl.
  assert (i_expected i = str_of_int (int_of_str (i_expected i))) as Hexp.
  { pose proof Hv as Hv'. unfold valid_intent in Hv'. inv_check.
    match goal with H : generation _ _ = Ok _ |- _ => apply generation_iff, generation_text_iff in H as ([= E] & z & Hz & Hr) end.
    rewrite E, Hz, int_of_str_of_int by lia. done. }
  split; simpl; try (intros; lia); try done.
  - by rewrite Hb.
  - apply NoDup_singleton.
  - intros [|n] e j; [|done]. intros [= <-] [= <-]. split; simpl; try done.
    + by rewrite Z.add_0_r.
    + left. split; [done|set_solver].
    + unfold read_limit. case_match; lia.
  - pose proof (valid_limit i Hv). lia.
  - intros [|n] [|m] e f c; done.
Qed.

Lemma chain_key_list r l d : chain r l d → map e_key (entries d) = map i_key (r :: l).
Proof.
  intros H. apply list_eq. intros n.
  change (map e_key (entries d)) with (e_key <$> entries d).
  change (map i_key (r :: l)) with (i_key <$> (r :: l)). rewrite !list_lookup_fmap.
  destruct (entries d !! n) as [e|] eqn:E.
  - destruct (chain_intent _ _ _ _ _ H E) as (i & -> & L). simpl. by rewrite (lk_key _ _ _ _ _ L).
  - apply lookup_ge_None in E. rewrite (ch_length _ _ _ H) in E. apply lookup_ge_None in E. by rewrite E.
Qed.

(** The active entry is the last of the chain. *)
Lemma chain_last r l d n e k :
  chain r l d → entries d !! n = Some e → e_key e = k → binding d ≫= b_active = Some k → n = length l.
Proof.
  intros H He Hk Ha. rewrite (ch_active _ _ _ H), last_lookup in Ha. simpl length in Ha. simpl pred in Ha.
  destruct ((r :: l) !! length l) as [i|] eqn:Ei; [|done]. simpl in Ha. injection Ha as Ha.
  destruct (chain_entry _ _ _ _ _ H Ei) as (f & Hf & Lf).
  eapply chain_same; [done|done|done|]. by rewrite (lk_key _ _ _ _ _ Lf), Ha.
Qed.

(** What a successful [advance] found and did, [n] being the last position. *)
Record advanced (r : Intent) (l : list Intent) (p q : Intent) (ref : string) (row : Entry) (d : Db) : Prop := {
  av_row : entries d !! length l = Some row;
  av_link : link r (length l) None p row;
  av_intent : (r :: l) !! length l = Some p;
  av_phase : e_phase row = "confirmed";
  av_dispatched : e_dispatched row = 1;
  av_room : e_ordinal row < i_transition_limit r;
  av_window : i_window q = i_window r;
  av_candidate : i_candidate q = i_candidate r;
  av_limit : i_transition_limit q = i_transition_limit r;
  av_operation : i_operation q ≠ i_operation p;
  av_expected : i_expected q = next_generation_of p;
  av_fresh : ∀ e, e ∈ entries d → e_key e ≠ i_key q ∧ e_confirmation e ≠ Some ref;
}.

Lemma advance_ok p q receipt d a d' r l :
  valid_intent target_id p = Ok tt → advance_tx target_id p q receipt d = (Ok a, d') → chain r l d →
  (a = false ∧ d' = d)
  ∨ (a = true ∧ ∃ row, advanced r l p q (cf_reference receipt) row d
     ∧ entries d' = map (λ e, if bool_decide (e_key e = i_key p) then consume (i_key q) (cf_reference receipt) e else e) (entries d)
                    ++ [mkEntry (i_key q) (intent_text q) "latched" 0 (e_root row) (e_ordinal row + 1) None None 0 0]
     ∧ binding d' = (λ b, mkBinding (b_target b) (b_packet b) (Some (i_key q)) (b_ordinal b) (b_response_bytes b)) <$> binding d
     ∧ (requests d', allocations d', batches d') = (requests d, allocations d, batches d)).
Proof.
  unfold advance_tx. intros Hvp H Hc. inv_tx.
  destruct (advance_bad _ _ _ _ _ _) eqn:E; inv_tx; [by left|]. right. split; [done|].
  match goal with H1 : entry_of (i_key p) ?d0 = Some ?x, H2 : entry_of (e_root ?x) ?d0 = Some ?y |- _ =>
    rename d0 into d;
    destruct (root_row _ _ _ _ _ _ Hc H1 H2) as ((n & Hn) & Hk & H0 & L0 & _); rename x into row end.
  match goal with H : read_intent _ = Ok _ |- _ => rewrite (lk_text _ _ _ _ _ L0), (read_intent_text r) in H by apply L0; injection H as <- end.
  unfold advance_bad in E. inv_bool.
  match goal with H : binding _ ≫= b_active = _ |- _ => pose proof (chain_last _ _ _ _ _ _ Hc Hn Hk H) as -> end.
  destruct (chain_intent _ _ _ _ _ Hc Hn) as (i & Hpi & L).
  assert ((r :: l) !! S (length l) = None) as Hnone by (apply lookup_ge_None; simpl; lia). rewrite Hnone in L.
  assert (i = p) as ->.
  { apply intent_text_inj; [apply L|done|]. rewrite <- (lk_text _ _ _ _ _ L). done. }
  exists row. split_and!; [|done|done|done]. split; try done.
  intros e Hin. match goal with H : existsb _ _ = false |- _ => rename H into Hx end.
  apply not_true_iff_false in Hx. rewrite existsb_exists in Hx.
  split; intros Hbad; apply Hx; exists e; (split; [by apply list_elem_of_In|]); apply orb_true_iff;
    [left|right]; by apply bool_decide_eq_true.
Qed.

Lemma advanced_lookup (es : list Entry) (g : Entry → Entry) new m e :
  (map g es ++ [new]) !! m = Some e →
  (∃ y, es !! m = Some y ∧ e = g y) ∨ (m = length es ∧ e = new).
Proof.
  rewrite lookup_app, length_map. change (map g es) with (g <$> es). rewrite list_lookup_fmap.
  destruct (es !! m) as [y|] eqn:E; simpl; [intros [= <-]; eauto|].
  apply lookup_ge_None in E. destruct (m - length es)%nat as [|k] eqn:Ek; [|done].
  intros [= <-]. right. split; [lia|done].
Qed.

Lemma advance_chain r l p q ref row d d' :
  valid_intent target_id q = Ok tt → is_Some (binding d) → chain r l d → advanced r l p q ref row d →
  entries d' = map (λ e, if bool_decide (e_key e = i_key p) then consume (i_key q) ref e else e) (entries d)
               ++ [mkEntry (i_key q) (intent_text q) "latched" 0 (e_root row) (e_ordinal row + 1) None None 0 0] →
  binding d' = (λ b, mkBinding (b_target b) (b_packet b) (Some (i_key q)) (b_ordinal b) (b_response_bytes b)) <$> binding d →
  chain r (l ++ [q]) d'.
Proof.
  intros Hvq [b Hb] Hc Ha He Hbd. set (g := λ e, if bool_decide (e_key e = i_key p) then consume (i_key q) ref e else e) in *.
  change (r :: l ++ [q]) with ((r :: l) ++ [q]). pose proof (ch_length _ _ _ Hc) as Hlen. simpl in Hlen.
  assert (∀ m y, entries d !! m = Some y → bool_decide (e_key y = i_key p) = true ↔ m = length l) as Hat.
  { intros m y Hy. rewrite bool_decide_eq_true. split.
    - intros Hk. eapply chain_same; [done|done|apply Ha|]. by rewrite Hk, (lk_key _ _ _ _ _ (av_link _ _ _ _ _ _ _ Ha)).
    - intros ->. rewrite (av_row _ _ _ _ _ _ _ Ha) in Hy. injection Hy as <-. apply (av_link _ _ _ _ _ _ _ Ha). }
  assert (∀ m, (m ≤ length l)%nat → ((r :: l) ++ [q]) !! m = (r :: l) !! m) as Hold
    by (intros m Hm; apply lookup_app_l; simpl; lia).
  assert (((r :: l) ++ [q]) !! S (length l) = Some q) as Hnew
    by (rewrite lookup_app_r by (simpl; lia); simpl; by rewrite Nat.sub_diag).
  split.
  - rewrite Hbd, Hb. change (r :: l ++ [q]) with ((r :: l) ++ [q]). by rewrite last_snoc.
  - change (r :: l ++ [q]) with ((r :: l) ++ [q]). rewrite map_app, NoDup_app. split; [apply Hc|].
    split; [|apply NoDup_singleton]. rewrite <- (chain_key_list _ _ _ Hc). intros k Hk Hq.
    apply list_elem_of_singleton in Hq as ->. apply list_elem_of_In, in_map_iff in Hk as (y & Hy & Hin).
    apply list_elem_of_In in Hin. by apply (proj1 (av_fresh _ _ _ _ _ _ _ Ha y Hin)).
  - rewrite He. simpl. rewrite !length_app, length_map, Hlen. simpl. lia.
  - change (r :: l ++ [q]) with ((r :: l) ++ [q]). intros m e i Hm Hi. rewrite He in Hm.
    apply advanced_lookup in Hm as [(y & Hy & ->)|[-> ->]].
    + assert (m ≤ length l)%nat by (apply lookup_lt_Some in Hy; lia). rewrite Hold in Hi by done.
      pose proof (ch_link _ _ _ Hc m y i Hy Hi) as L. unfold g. specialize (Hat m y Hy).
      destruct (bool_decide (e_key y = i_key p)) eqn:Ek.
      * assert (m = length l) as -> by (by apply Hat). rewrite Hnew.
        rewrite (av_row _ _ _ _ _ _ _ Ha) in Hy. injection Hy as <-.
        destruct L as [L1 L2 L3 L4 L5 L6 L7 L8 L9 L10 L11 L12 L13 L14 L15]. split; try done; simpl.
        intros _. exact (av_phase _ _ _ _ _ _ _ Ha).
      * assert (m ≠ length l) by (intros ->; discriminate (proj2 Hat eq_refl)).
        rewrite Hold by lia. done.
    + rewrite Hlen, Hnew in Hi. injection Hi as <-. rewrite Hlen.
      assert (((r :: l) ++ [q]) !! S (S (length l)) = None) as ->
        by (apply lookup_ge_None; rewrite length_app; simpl; lia).
      destruct Ha as [A1 A2 A3 A4 A5 A6 A7 A8 A9 A10 A11 A12].
      destruct A2 as [L1 L2 L3 L4 L5 L6 L7 L8 L9 L10 L11 L12 L13 L14 L15].
      split; try done; simpl.
      * rewrite A11. unfold next_generation_of. rewrite L7. pose proof (int_of_str_nonneg (i_expected r)).
        rewrite int_of_str_of_int by lia. f_equal. lia.
      * lia.
      * done.
      * left. split; [done|set_solver].
  - change (r :: l ++ [q]) with ((r :: l) ++ [q]). intros m i j Hi Hj.
    assert (S m < length ((r :: l) ++ [q]))%nat as Hm by (by apply lookup_lt_Some in Hj).
    rewrite length_app in Hm. simpl in Hm. rewrite Hold in Hi by lia.
    destruct (decide (m = length l)) as [->|Hne].
    + rewrite Hnew in Hj. injection Hj as <-. rewrite (av_intent _ _ _ _ _ _ _ Ha) in Hi. injection Hi as <-. apply Ha.
    + rewrite Hold in Hj by lia. by eapply ch_alternate.
  - simpl. rewrite length_app. simpl. pose proof (av_room _ _ _ _ _ _ _ Ha).
    pose proof (lk_ordinal _ _ _ _ _ (av_link _ _ _ _ _ _ _ Ha)). lia.
  - apply Hc.
  - rewrite He. assert (∀ y, y ∈ entries d → e_confirmation y ≠ Some ref) as Hfresh
      by (intros y Hy; apply (av_fresh _ _ _ _ _ _ _ Ha y Hy)).
    intros m m' e f c Hm Hm' Hce Hcf.
    apply advanced_lookup in Hm as [(y & Hy & ->)|[_ ->]]; [|done].
    apply advanced_lookup in Hm' as [(z & Hz & ->)|[_ ->]]; [|done]. unfold g in Hce, Hcf.
    pose proof (Hat m y Hy) as Hty. pose proof (Hat m' z Hz) as Htz.
    apply list_elem_of_lookup_2 in Hy as Hyin. apply list_elem_of_lookup_2 in Hz as Hzin.
    destruct (bool_decide (e_key y = i_key p)), (bool_decide (e_key z = i_key p)); simpl in Hce, Hcf.
    + rewrite (proj1 Hty eq_refl). by rewrite (proj1 Htz eq_refl).
    + injection Hce as <-. by destruct (Hfresh z Hzin).
    + injection Hcf as <-. by destruct (Hfresh y Hyin).
    + by eapply (ch_receipts _ _ _ Hc).
Qed.

Lemma advance_chained p q receipt d a d' :
  valid_intent target_id p = Ok tt → valid_intent target_id q = Ok tt → is_Some (binding d) →
  advance_tx target_id p q receipt d = (Ok a, d') → chained d → chained d'.
Proof.
  intros Hp Hq Hb H [Hc|(r & l & Hc)].
  - unfold advance_tx in H. inv_tx. match goal with H : entry_of (i_key p) _ = Some _ |- _ => unfold entry_of in H; by rewrite Hc in H end.
  - destruct (advance_ok _ _ _ _ _ _ _ _ Hp H Hc) as [[_ ->]|(_ & row & Ha & He & Hbd & _)]; [right; eauto|].
    right. exists r, (l ++ [q]). by eapply advance_chain.
Qed.

Lemma received_tx_ok o n d a d' :
  received_tx o n d = (Ok a, d') →
  ∃ q, request_of o d = Some q ∧ q_received q = None ∧ 0 <= n <= q_reserved q
  ∧ d' = mkDb ((λ b, mkBinding (b_target b) (b_packet b) (b_active b) (b_ordinal b) (b_response_bytes b - (q_reserved q - n)))
                 <$> binding d) (entries d)
           (map (λ q, if q_ordinal q =? o then mkRequest (q_ordinal q) (q_query q) (q_reserved q) (Some n) else q) (requests d))
           (allocations d) (batches d).
Proof.
  unfold received_tx. destruct (request_of o d) as [q|]; [|done]. intros H. inv_tx. inv_bool.
  exists q. split_and!; try done. by apply eq_None_not_Some.
Qed.

(** The request accounting does not touch the chain. *)
Lemma accounting_frame c d a d' :
  match c with CReserve _ _ _ _ | CReceived _ _ | CReserveExact _ _ _ _ _ => True | _ => False end →
  call_tx target_id c d = (Ok a, d') → entries d' = entries d ∧ binding d' ≫= b_active = binding d ≫= b_active.
Proof.
  destruct c; try done; intros _ H; simpl in H; unfold reserve_request_tx, reserve_exact_tx in H.
  - inv_tx. split; [done|]. simpl. by rewrite active_update.
  - inv_tx. apply received_tx_ok in Hx as (q & _ & _ & _ & ->). split; [done|]. simpl. by rewrite active_update.
  - inv_tx. destruct (default 0 (statement_count descriptor) =? 2).
    + unfold spend_batch in *. destruct intent; inv_tx; (split; [done|]); simpl; by rewrite active_update.
    + inv_tx. split; [done|]. simpl. by rewrite active_update.
Qed.

(** ** One call *)

Notation call_tx := (call_tx target_id).
Notation precheck := (precheck target_id).

Lemma binding_kept c d a d' : call_tx c d = (Ok a, d') → is_Some (binding d) → is_Some (binding d').
Proof.
  assert (∀ f, is_Some (binding d) → is_Some (f <$> binding d : option Binding)) as Hf
    by (intros f; apply fmap_is_Some).
  intros H Hb. destruct c; simpl in H.
  - unfold latch_tx in H. destruct (entries d); [|by injection H as _ <-]. inv_tx. simpl. auto.
  - unfold advance_tx in H. inv_tx. destruct (advance_bad _ _ _ _ _ _); inv_tx; [done|]. simpl. auto.
  - unfold get_tx in H. inv_tx. done.
  - unfold spend_read_tx in H. inv_tx. destruct (_ <=? _); inv_tx; done.
  - unfold claim_dispatch_tx in H. inv_tx. destruct (negb _ || _ || _); inv_tx; done.
  - unfold claim_reconcile_tx in H. inv_tx. destruct (_ || _); inv_tx; done.
  - unfold settle_tx in H. inv_tx. done.
  - unfold reserve_request_tx in H. inv_tx. simpl. auto.
  - inv_tx. apply received_tx_ok in Hx as (q & _ & _ & _ & ->). simpl. auto.
  - unfold reserve_exact_tx in H. inv_tx. destruct (default 0 (statement_count descriptor) =? 2).
    + unfold spend_batch in *. destruct intent; inv_tx; simpl; auto.
    + inv_tx. simpl. auto.
Qed.

Lemma call_chained c d a d' :
  precheck c = Ok tt → call_tx c d = (Ok a, d') → is_Some (binding d) → chained d → chained d'.
Proof.
  intros Hp H Hb Hc. destruct c; simpl in Hp.
  - simpl in H. inv_check. eapply latch_chained; [done| |done|done|done]. inv_bool. done.
  - apply rbind_ok in Hp as ([] & Hp1 & Hp2). exact (advance_chained _ _ _ _ _ _ Hp1 Hp2 Hb H Hc).
  - simpl in H. unfold get_tx in H. inv_tx. done.
  - by eapply spend_read_chained.
  - by eapply claim_dispatch_chained.
  - by eapply claim_reconcile_chained.
  - simpl in H. inv_check. inv_bool. inv_tx. by eapply settle_chained.
  - apply accounting_frame in H as [He Ha]; [|done]. by eapply chained_frame.
  - apply accounting_frame in H as [He Ha]; [|done]. by eapply chained_frame.
  - apply accounting_frame in H as [He Ha]; [|done]. by eapply chained_frame.
Qed.

(** *** The dispatched keys *)

Definition is_dispatched (e : Entry) : Prop := e_dispatched e = 1.
#[local] Instance is_dispatched_dec e : Decision (is_dispatched e).
Proof. unfold is_dispatched. apply _. Defined.
Definition dispatched_keys (l : list Entry) : list string := map e_key (filter is_dispatched l).

Lemma dispatched_map f (k : string) l :
  (∀ x, e_key (f x) = e_key x) → (∀ x, e_dispatched (f x) = e_dispatched x) →
  dispatched_keys (map (λ e, if bool_decide (e_key e = k) then f e else e) l) = dispatched_keys l.
Proof.
  intros Hk Hd. unfold dispatched_keys. induction l as [|e l IH]; [done|]. cbn [map]. rewrite !filter_cons.
  set (e' := if bool_decide (e_key e = k) then f e else e).
  assert (e_key e' = e_key e ∧ e_dispatched e' = e_dispatched e) as [E1 E2]
    by (unfold e'; destruct (bool_decide _); auto).
  assert (is_dispatched e' ↔ is_dispatched e) as Hd' by (unfold is_dispatched; by rewrite E2).
  destruct (decide (is_dispatched e')), (decide (is_dispatched e)); try tauto; cbn [map]; by rewrite ?E1, IH.
Qed.

Lemma update_one (f : Entry → Entry) l1 e l2 :
  NoDup (map e_key (l1 ++ e :: l2)) →
  map (λ x, if bool_decide (e_key x = e_key e) then f x else x) (l1 ++ e :: l2) = l1 ++ f e :: l2.
Proof.
  intros Hn. rewrite map_app in Hn. cbn [map] in Hn. apply NoDup_app in Hn as (_ & H1 & H2%NoDup_cons).
  assert (∀ l, (∀ x, x ∈ l → e_key x ≠ e_key e) → map (λ x, if bool_decide (e_key x = e_key e) then f x else x) l = l) as Hid.
  { intros l Hl. induction l as [|x l IH]; [done|]. cbn [map]. rewrite bool_decide_false by (apply Hl; left).
    f_equal. apply IH. intros y Hy. apply Hl. by right. }
  rewrite map_app. cbn [map]. rewrite bool_decide_true by done.
  assert (∀ (x : Entry) l, x ∈ l → e_key x ∈ map e_key l) as Hin.
  { intros x l Hx. apply list_elem_of_In, in_map, list_elem_of_In, Hx. }
  rewrite !Hid; [done| |].
  - intros x Hx E. destruct H2 as [H2 _]. apply H2. rewrite <- E. by apply Hin.
  - intros x Hx E. apply (H1 (e_key x)); [by apply Hin|]. rewrite E. left.
Qed.

(** The dispatch a call has claimed when it answered [a]. *)
Definition claims_of (c : call) (a : bool) : list string :=
  match c with CClaimDispatch k => if a then [k] else [] | _ => [] end.

Lemma call_dispatched c d a d' :
  precheck c = Ok tt → call_tx c d = (Ok a, d') → chained d →
  dispatched_keys (entries d') ≡ₚ claims_of c a ++ dispatched_keys (entries d).
Proof.
  assert (∀ e, e_dispatched e = 0 → ∀ l, dispatched_keys (l ++ [e]) = dispatched_keys l) as Hsnoc.
  { intros e He l. unfold dispatched_keys. rewrite filter_app, filter_cons_False; [by rewrite filter_nil, app_nil_r|].
    unfold is_dispatched. rewrite He. done. }
  intros Hp H Hc. destruct c; simpl claims_of; rewrite ?app_nil_l.
  - simpl in H. unfold latch_tx in H. destruct (entries d) eqn:Ee; [|injection H as _ <-; by rewrite Ee].
    inv_tx. simpl. by rewrite Hsnoc, Ee.
  - simpl in H. unfold advance_tx in H. inv_tx. destruct (advance_bad _ _ _ _ _ _); inv_tx; [done|].
    simpl. rewrite Hsnoc by done. by rewrite dispatched_map.
  - simpl in H. unfold get_tx in H. inv_tx. done.
  - simpl in H. unfold spend_read_tx in H. inv_tx. destruct (_ <=? _); inv_tx; [done|]. simpl. by rewrite dispatched_map.
  - simpl in H. unfold claim_dispatch_tx in H. inv_tx. destruct (negb _ || _ || _) eqn:E; inv_tx; [done|]. inv_bool.
    match goal with H : entry_of key ?d0 = Some ?row |- _ => rename row into row; apply entry_of_lookup in H as (<- & n & Hn) end.
    simpl. destruct Hc as [Hc|(r & l & Hc)]; [by rewrite Hc in Hn|].
    apply list_elem_of_split_length in Hn as (l1 & l2 & El & _).
    match type of El with entries ?d0 = _ => assert (NoDup (map e_key (entries d0))) as Hnd by (rewrite (chain_key_list _ _ _ Hc); apply Hc) end.
    rewrite El in *. rewrite update_one by done. unfold dispatched_keys. rewrite !filter_app, !filter_cons.
    rewrite decide_True by done. rewrite decide_False by (unfold is_dispatched; congruence).
    rewrite !map_app. cbn [map]. by rewrite <- Permutation_middle.
  - simpl in H. unfold claim_reconcile_tx in H. inv_tx. destruct (_ || _); inv_tx; [done|]. simpl. by rewrite dispatched_map.
  - simpl in H. unfold settle_tx in H. inv_tx. simpl. by rewrite dispatched_map.
  - apply accounting_frame in H as [-> _]; done.
  - apply accounting_frame in H as [-> _]; done.
  - apply accounting_frame in H as [-> _]; done.
Qed.

(** ** The accounting *)

Definition charged (q : Request) : Z := default (q_reserved q) (q_received q).
Definition charged_total (l : list Request) : Z := foldr (λ q n, charged q + n) 0 l.

(** The counters of the binding are those of its request rows. *)
Record accounts (b : Binding) (d : Db) : Prop := {
  ac_ordinals : map q_ordinal (requests d) = seqZ 0 (b_ordinal b);
  ac_total : b_response_bytes b = charged_total (requests d);
  ac_rows : Forall (λ q, 0 <= charged q <= q_reserved q ∧ q_reserved q <= 512 * 1024) (requests d);
  ac_bounds : 0 <= b_ordinal b <= 2048 ∧ b_response_bytes b <= 16 * 1024 * 1024;
  ac_batches : NoDup (map fst (batches d)) ∧ ∀ kb, kb ∈ batches d → kb.1 ∈ dispatched_keys (entries d) ∧ kb.2 < b_ordinal b;
}.
Definition accounted (d : Db) : Prop := ∃ b, binding d = Some b ∧ accounts b d.

Lemma charged_total_app l1 l2 : charged_total (l1 ++ l2) = charged_total l1 + charged_total l2.
Proof. induction l1 as [|q l IH]; simpl; [done|]. rewrite IH. lia. Qed.

Lemma charged_total_nonneg l : Forall (λ q, 0 <= charged q <= q_reserved q ∧ q_reserved q <= 512 * 1024) l → 0 <= charged_total l.
Proof. induction 1; simpl; lia. Qed.

(** The calls on entries leave the accounting alone. *)
Lemma entries_frame c d a d' :
  match c with CReserve _ _ _ _ | CReceived _ _ | CReserveExact _ _ _ _ _ => False | _ => True end →
  call_tx c d = (Ok a, d') →
  requests d' = requests d ∧ batches d' = batches d
  ∧ ∀ b, binding d = Some b → ∃ b', binding d' = Some b' ∧ b_ordinal b' = b_ordinal b ∧ b_response_bytes b' = b_response_bytes b.
Proof.
  destruct c; try done; intros _ H; simpl in H.
  - unfold latch_tx in H. destruct (entries d); [|injection H as _ <-; naive_solver]. inv_tx.
    split_and!; [done|done|]. intros b Hb. simpl. rewrite Hb. simpl. eauto.
  - unfold advance_tx in H. inv_tx. destruct (advance_bad _ _ _ _ _ _); inv_tx; [naive_solver|].
    split_and!; [done|done|]. intros b Hb. simpl. rewrite Hb. simpl. eauto.
  - unfold get_tx in H. inv_tx. naive_solver.
  - unfold spend_read_tx in H. inv_tx. destruct (_ <=? _); inv_tx; naive_solver.
  - unfold claim_dispatch_tx in H. inv_tx. destruct (negb _ || _ || _); inv_tx; naive_solver.
  - unfold claim_reconcile_tx in H. inv_tx. destruct (_ || _); inv_tx; naive_solver.
  - unfold settle_tx in H. inv_tx. naive_solver.
Qed.

Lemma seqZ_snoc n : 0 <= n → seqZ 0 n ++ [n] = seqZ 0 (n + 1).
Proof.
  intros Hn. rewrite <- (Z2Nat.id n) at 1 3 by done.
  replace (Z.of_nat (Z.to_nat n) + 1) with (Z.of_nat (S (Z.to_nat n))) by lia.
  rewrite seqZ_S. by rewrite Z2Nat.id, Z.add_0_l by done.
Qed.

(** A reservation: one more request at the next ordinal, charged in full. *)
Lemma accounts_reserve b d q n bt :
  1 <= n <= 512 * 1024 → b_ordinal b < 2048 → b_response_bytes b + n <= 16 * 1024 * 1024 →
  NoDup (map fst bt) → (∀ kb, kb ∈ bt → kb.1 ∈ dispatched_keys (entries d) ∧ kb.2 <= b_ordinal b) →
  accounts b d → ∀ al,
  accounts (mkBinding (b_target b) (b_packet b) (b_active b) (b_ordinal b + 1) (b_response_bytes b + n))
    (mkDb (Some (mkBinding (b_target b) (b_packet b) (b_active b) (b_ordinal b + 1) (b_response_bytes b + n)))
       (entries d) (requests d ++ [mkRequest (b_ordinal b) q n None]) al bt).
Proof.
  intros Hn Ho Hb Hbt Hkb [A1 A2 A3 A4 A5] al. split; simpl.
  - rewrite map_app, A1. apply seqZ_snoc. lia.
  - rewrite charged_total_app, A2. simpl. unfold charged. simpl. lia.
  - apply Forall_app. split; [done|]. constructor; [|done]. unfold charged. simpl. lia.
  - lia.
  - split; [done|]. intros kb H. destruct (Hkb kb H). split; [done|lia].
Qed.

Lemma charged_total_mark o n q l :
  NoDup (map q_ordinal l) → List.find (λ x, q_ordinal x =? o) l = Some q → q_received q = None →
  charged_total (map (λ x, if q_ordinal x =? o then mkRequest (q_ordinal x) (q_query x) (q_reserved x) (Some n) else x) l)
  = charged_total l - (q_reserved q - n).
Proof.
  intros Hn Hf Hr. induction l as [|x l IH]; [done|]. cbn [map] in *. apply NoDup_cons in Hn as [Hx Hn].
  cbn [List.find] in Hf. destruct (q_ordinal x =? o) eqn:E.
  - injection Hf as ->. cbn [charged_total foldr]. fold (charged_total l). unfold charged at 1 3. simpl. rewrite Hr. simpl.
    apply Z.eqb_eq in E.
    assert (map (λ x, if q_ordinal x =? o then mkRequest (q_ordinal x) (q_query x) (q_reserved x) (Some n) else x) l = l) as ->;
      [|unfold charged_total; lia].
    transitivity (map id l); [|apply map_id]. apply map_ext_in. intros y Hy.
    destruct (Z.eqb_spec (q_ordinal y) o) as [Ey|]; [|done]. destruct Hx. rewrite E, <- Ey.
    by apply list_elem_of_In, in_map.
  - cbn [charged_total foldr]. fold (charged_total l). 
    change (foldr _ 0 ?l') with (charged_total l'). rewrite (IH Hn Hf). lia.
Qed.

Lemma batches_frame d d' c a :
  precheck c = Ok tt → call_tx c d = (Ok a, d') → chained d → dispatched_keys (entries d) ⊆ dispatched_keys (entries d').
Proof. intros Hp H Hc k Hk. rewrite (call_dispatched c d a d' Hp H Hc). apply elem_of_app. by right. Qed.

Lemma exact_shape d a rb l :
  allocation_shape_bad d a rb l = false →
  1 <= a <= 512 * 1024 ∧ 1 <= rb <= 256 * 1024 ∧ (statement_count d = Some 1 ∨ statement_count d = Some 2)
  ∧ limit_of "requests" l <= 2048 ∧ limit_of "statements" l <= 2048
  ∧ limit_of "requestBytes" l <= 16 * 1024 * 1024 ∧ limit_of "responseBytes" l <= 16 * 1024 * 1024.
Proof.
  unfold allocation_shape_bad. intros H. inv_bool.
  match goal with H : statement_count d ∈ _ |- _ => rewrite !elem_of_cons, elem_of_nil in H end.
  split_and!; try done. naive_solver.
Qed.

(** The whole effect of a successful exact reservation. *)
Lemma reserve_exact_ok desc st al rb l intent d x d' :
  reserve_exact_tx target_id desc st al rb l intent d = (Ok x, d') →
  ∃ b bt, binding d = Some b ∧ x = b_ordinal b
  ∧ length (requests d) = length (allocations d)
  ∧ b_ordinal b < limit_of "requests" l
  ∧ b_ordinal b + extra_statements (allocations d) + st <= limit_of "statements" l
  ∧ allocated_bytes (allocations d) + rb <= limit_of "requestBytes" l
  ∧ b_response_bytes b + al <= limit_of "responseBytes" l
  ∧ d' = mkDb (Some (mkBinding (b_target b) (b_packet b) (b_active b) (b_ordinal b + 1) (b_response_bytes b + al)))
           (entries d) (requests d ++ [mkRequest (b_ordinal b) (dumps desc) al None])
           (allocations d ++ [mkAllocation (b_ordinal b) st rb]) bt
  ∧ ((st ≠ 2 ∧ intent = None ∧ bt = batches d)
     ∨ (st = 2 ∧ ∃ i row, intent = Some i ∧ entry_of (i_key i) d = Some row ∧ e_intent row = intent_text i
        ∧ e_phase row = "dispatching" ∧ e_dispatched row = 1 ∧ b_active b = Some (i_key i)
        ∧ i_key i ∉ map fst (batches d) ∧ bt = batches d ++ [(i_key i, b_ordinal b)])).
Proof.
  unfold reserve_exact_tx. intros H. inv_tx. inv_bool.
  match goal with H : binding ?d0 = Some ?b |- _ => rename b into b; exists b; pose proof H as Hbd end.
  destruct (Z.eqb_spec st 2) as [->|Hst].
  - unfold spend_batch in *. destruct intent as [i|]; inv_tx. inv_bool.
    eexists. split_and!; try done; try lia.
    + simpl. rewrite Hbd. reflexivity.
    + right. split; [done|]. rewrite Hbd in *. simpl in *. do 2 eexists. split_and!; try done.
      intros Hin. apply list_elem_of_In, in_map_iff in Hin as (kb & Hk & Hkb). apply list_elem_of_In in Hkb.
      match goal with H : ∀ kb, kb ∈ _ → _ |- _ => by destruct (H kb Hkb) end.
  - inv_tx. inv_bool. eexists. split_and!; try done; try lia.
    + simpl. rewrite Hbd. reflexivity.
    + left. split_and!; try done. by apply eq_None_not_Some.
Qed.

Lemma reserve_request_ok q a t n d x d' :
  reserve_request_tx q a t n d = (Ok x, d') →
  ∃ b, binding d = Some b ∧ x = b_ordinal b ∧ b_ordinal b < n ∧ b_response_bytes b + a <= t
  ∧ d' = mkDb (Some (mkBinding (b_target b) (b_packet b) (b_active b) (b_ordinal b + 1) (b_response_bytes b + a)))
           (entries d) (requests d ++ [mkRequest (b_ordinal b) q a None]) (allocations d) (batches d).
Proof.
  unfold reserve_request_tx. intros H. inv_tx. inv_bool.
  match goal with H : binding ?d0 = Some ?b |- _ => exists b; pose proof H as Hbd end.
  split_and!; try done. simpl. by rewrite Hbd.
Qed.

Lemma call_accounted c d a d' :
  precheck c = Ok tt → call_tx c d = (Ok a, d') → chained d → accounted d → accounted d'.
Proof.
  intros Hp H Hc (b & Hb & Ha).
  assert (match c with CReserve _ _ _ _ | CReceived _ _ | CReserveExact _ _ _ _ _ => False | _ => True end → accounted d') as Hentries.
  { intros Hk. destruct (entries_frame _ _ _ _ Hk H) as (Hr & Hbt & Hbd). destruct (Hbd b Hb) as (b' & Hb' & Ho & Ht).
    exists b'. split; [done|]. destruct Ha as [A1 A2 A3 A4 A5]. split; rewrite ?Hr, ?Hbt, ?Ho, ?Ht; try done.
    split; [apply A5|]. intros kb Hkb. destruct (proj2 A5 kb Hkb). split; [|done].
    by eapply batches_frame. }
  destruct c; try (by apply Hentries); clear Hentries; simpl in Hp, H.
  - inv_check. inv_bool. inv_tx. apply reserve_request_ok in Hx as (b0 & Hb0 & -> & Ho & Ht & ->).
    rewrite Hb in Hb0. injection Hb0 as <-. eexists. split; [done|]. eapply accounts_reserve; try done; try lia.
    + apply Ha.
    + intros kb Hkb. destruct (proj2 (ac_batches _ _ Ha) kb Hkb). split; [done|lia].
  - inv_tx. apply received_tx_ok in Hx as (q & Hq & Hr & Hn & ->). rewrite Hb. eexists. split; [done|].
    destruct Ha as [A1 A2 A3 A4 A5].
    assert (NoDup (map q_ordinal (requests d))) as Hnd by (rewrite A1; apply NoDup_seqZ).
    split; simpl; try done.
    + rewrite map_map. erewrite map_ext; [exact A1|]. intros x. by destruct (_ =? _).
    + rewrite A2. symmetry. by apply charged_total_mark.
    + rewrite Forall_forall in A3 |- *. intros x Hx. apply list_elem_of_In, in_map_iff in Hx as (y & <- & Hy).
      apply list_elem_of_In in Hy as Hy'. specialize (A3 y Hy').
      destruct (Z.eqb_spec (q_ordinal y) ordinal) as [E|]; [|done]. unfold charged. simpl.
      assert (y = q) as ->; [|lia]. apply find_some in Hq as [Hqin Hqo]. apply Z.eqb_eq in Hqo.
      apply list_elem_of_In in Hqin. apply list_elem_of_lookup in Hqin as [m Hm]. apply list_elem_of_lookup in Hy' as [m' Hm'].
      assert (m = m') as <-; [|congruence].
      apply (NoDup_lookup (q_ordinal <$> requests d) m m' ordinal); [done| |];
        rewrite list_lookup_fmap, ?Hm, ?Hm'; simpl; congruence.
    + rewrite A2 in A4. pose proof (proj1 (find_some _ _ Hq)) as Hqin. lia.
  - inv_check. match goal with H : allocation_shape_bad _ _ _ _ = false |- _ => apply exact_shape in H as (S1 & S2 & S3 & S4 & S5 & S6 & S7) end.
    inv_tx. apply reserve_exact_ok in Hx as (b0 & bt & Hb0 & -> & Hl & Ho & _ & _ & Ht & -> & Hbt).
    rewrite Hb in Hb0. injection Hb0 as <-. eexists. split; [done|]. eapply accounts_reserve; try done; try lia.
    + destruct Hbt as [(_ & _ & ->)|(_ & i & row & _ & _ & _ & _ & _ & _ & Hf & ->)]; [apply Ha|].
      rewrite map_app, NoDup_app. split; [apply Ha|]. split; [|apply NoDup_singleton].
      intros k Hk Hs. apply list_elem_of_singleton in Hs as ->. done.
    + intros kb Hkb. destruct Hbt as [(_ & _ & ->)|(_ & i & row & _ & He & _ & _ & Hd & _ & _ & ->)].
      * destruct (proj2 (ac_batches _ _ Ha) kb Hkb). split; [done|lia].
      * apply elem_of_app in Hkb as [Hkb|Hkb%list_elem_of_singleton].
        -- destruct (proj2 (ac_batches _ _ Ha) kb Hkb). split; [done|lia].
        -- subst kb. simpl. split; [|lia]. apply entry_of_lookup in He as (<- & n & Hn).
           unfold dispatched_keys. apply list_elem_of_In, in_map, list_elem_of_In, list_elem_of_filter.
           split; [done|]. by eapply list_elem_of_lookup_2.
Qed.
End Chain.

(** ** Histories *)

Section History.
Context {C : Type} (clock : M C stamp) (fate : nat → io) (target_id packet : string).
Notation run_call := (run_call clock fate target_id packet).
Notation State := (State C).

(** The calls of any processes on the one file, in the order the file saw them. *)
Definition history : Type := list (call * stamp).

Fixpoint after (h : history) (s : State) : State :=
  match h with [] => s | (c, dl) :: h' => after h' (run_call c dl s).2 end.
(** The calls that answered [True]. *)
Fixpoint acknowledged (h : history) (s : State) : list call :=
  match h with
  | [] => []
  | (c, dl) :: h' =>
      let (r, s') := run_call c dl s in
      match r with Ok true => c :: acknowledged h' s' | _ => acknowledged h' s' end
  end.

Definition sound (d : Db) : Prop := is_Some (binding d) ∧ chained target_id d ∧ accounted d.
(** A provisioned file without calls yet. *)
Definition provisioned (s : State) : Prop := s_file s = Provisioned (empty_db target_id packet).

Lemma sound_empty : sound (empty_db target_id packet).
Proof.
  split; [by eexists|]. split; [by left|]. eexists. split; [done|]. split; simpl; try done.
  - split; [constructor|]. set_solver.
Qed.

Lemma call_sound c d a d' : precheck target_id c = Ok tt → call_tx target_id c d = (Ok a, d') → sound d → sound d'.
Proof.
  intros Hp H (Hb & Hc & Ha). split; [by eapply binding_kept|]. split; [by eapply call_chained|by eapply call_accounted].
Qed.

(** One call keeps the file sound, and claims what it acknowledges. *)
Lemma run_call_sound c dl s d r s' :
  run_call c dl s = (r, s') → s_file s = Provisioned d → sound d →
  ∃ d', s_file s' = Provisioned d' ∧ sound d'
  ∧ match r with Ok a => claims_of c a | Err _ => [] end ++ dispatched_keys (entries d) ⊆+ dispatched_keys (entries d').
Proof.
  intros H Hf Hs. apply call_cases in H as [[Hf' Hr]|(d0 & a & d' & Hf0 & Hp & Ht & Hf' & Hr)].
  - exists d. split; [congruence|]. split; [done|]. destruct r as [a|e]; [by destruct (Hr a)|done].
  - rewrite Hf in Hf0. injection Hf0 as <-. exists d'. split; [done|]. split; [by eapply call_sound|].
    destruct Hs as (_ & Hc & _). rewrite (call_dispatched target_id c d a d' Hp Ht Hc).
    destruct r as [a'|e]; [by rewrite (Hr a')|]. apply submseteq_inserts_l. done.
Qed.

Lemma history_sound h : ∀ s d, s_file s = Provisioned d → sound d →
  ∃ d', s_file (after h s) = Provisioned d' ∧ sound d'
  ∧ concat (map (λ c, claims_of c true) (acknowledged h s)) ++ dispatched_keys (entries d) ⊆+ dispatched_keys (entries d').
Proof.
  induction h as [|[c dl] h IH]; intros s d Hf Hs; [by exists d|]. cbn [after acknowledged].
  destruct (run_call c dl s) as [r s1] eqn:E. simpl.
  destruct (run_call_sound _ _ _ _ _ _ E Hf Hs) as (d1 & Hf1 & Hs1 & Hd1).
  destruct (IH s1 d1 Hf1 Hs1) as (d' & Hf' & Hs' & Hd'). exists d'. split; [done|]. split; [done|].
  etransitivity; [|exact Hd'].
  assert (∀ l, concat (map (λ c, claims_of c true) l) ++ dispatched_keys (entries d) ⊆+
    concat (map (λ c, claims_of c true) l) ++ dispatched_keys (entries d1)) as Hmono.
  { intros l. apply submseteq_app; [done|]. etransitivity; [|exact Hd1]. by apply submseteq_inserts_l. }
  destruct r as [[]|e]; [|apply Hmono|apply Hmono]. cbn [map concat].
  rewrite (Permutation_app_comm (claims_of c true)), <- app_assoc. by apply submseteq_app.
Qed.

Lemma dispatched_sub es : dispatched_keys es `sublist_of` map e_key es.
Proof.
  unfold dispatched_keys. induction es as [|e es IH]; [constructor|]. rewrite filter_cons.
  destruct (decide _); cbn [map]; by constructor.
Qed.

(** Keys among the claimed ones of a chain: distinct, of the chain, within its limit. *)
Lemma dispatched_within d ks :
  chained target_id d → ks ⊆+ dispatched_keys (entries d) →
  NoDup ks ∧ (ks ≠ [] → ∃ r l, chain target_id r l d ∧ ks ⊆ map i_key (r :: l)
    ∧ Z.of_nat (length ks) <= i_transition_limit r <= 3).
Proof.
  intros [Hc|(r & l & Hc)] Hd.
  - rewrite Hc in Hd. apply submseteq_nil_r in Hd as ->. split; [constructor|done].
  - pose proof (dispatched_sub (entries d)) as Hsub. rewrite (chain_key_list _ _ _ _ Hc) in Hsub.
    assert (ks ⊆+ map i_key (r :: l)) as Hg by (etransitivity; [exact Hd|]; by apply sublist_submseteq).
    split.
    { destruct (submseteq_Permutation _ _ Hg) as [k Hk]. pose proof (ch_keys _ _ _ _ Hc) as Hn. rewrite Hk in Hn.
      by apply NoDup_app in Hn as (? & _). }
    intros _. exists r, l. split_and!; [done| | |].
    + intros k Hk. by eapply elem_of_submseteq.
    + apply submseteq_length in Hg. rewrite length_map in Hg. pose proof (ch_bound _ _ _ _ Hc). lia.
    + destruct (chain_entry _ _ _ _ 0 r Hc eq_refl) as (e & _ & L).
      pose proof (valid_limit _ _ (lk_valid _ _ _ _ _ _ L)). lia.
Qed.

(** C27: at every moment of every history - any calls, by any processes, whatever
    connections fail, lose or delay their acknowledgment - the operator journal holds
    one chain of intents under one root: adjacent generations, alternating
    operations, one window, candidate and target, distinct keys and receipts,
    every predecessor confirmed and consumed, the last one active, within the
    root's transition, read and reconciliation budgets; and the request counters
    equal what its request rows reserve or received. *)
Theorem d1_journal_sound h s :
  provisioned s → ∃ d, s_file (after h s) = Provisioned d ∧ chained target_id d ∧ accounted d.
Proof.
  intros Hp. destruct (history_sound h s _ Hp sound_empty) as (d & Hf & (_ & Hc & Ha) & _). eauto.
Qed.

(** across every history, the dispatches that the journal ever granted are of
    pairwise distinct intents of the one chain, so there are at most as many as
    the root's transition limit, three at most: no crash, restart, lost
    acknowledgment, new key or repeated call grants another. *)
Theorem d1_journal_dispatches h s :
  provisioned s →
  let granted := concat (map (λ c, claims_of c true) (acknowledged h s)) in
  NoDup granted
  ∧ (granted ≠ [] → ∃ r l d, s_file (after h s) = Provisioned d ∧ chain target_id r l d
      ∧ granted ⊆ map i_key (r :: l) ∧ Z.of_nat (length granted) <= i_transition_limit r <= 3).
Proof.
  intros Hp granted. destruct (history_sound h s _ Hp sound_empty) as (d & Hf & (_ & Hc & _) & Hd).
  simpl in Hd. rewrite app_nil_r in Hd. destruct (dispatched_within d granted Hc Hd) as [Hn Hg].
  split; [done|]. intros Hne. destruct (Hg Hne) as (r & l & Hch & Hin & Hl). by exists r, l, d.
Qed.
End History.

Section Exact.
Context {C : Type} (clock : M C stamp) (fate : nat → io) (target_id packet : string).

(** C36: an acknowledged exact reservation leaves every budget respected: requests,
    statements (one per request, two for a batch), request bytes and response
    bytes, counted over all reservations the file ever kept, are within the given
    limits. It records exactly the statements of its descriptor, and these decide the
    grant: with one statement no intent is named and no batch is granted; with two, one
    batch is granted at this ordinal, and only to the active intent whose dispatch is
    claimed and which had no batch before. *)
Theorem d1_exact_budget desc al rb l dl intent s o s' :
  reserve_exact_request clock fate target_id packet desc al rb l dl intent s = (Ok o, s') →
  ∃ d d' b' n, s_file s = Provisioned d ∧ s_file s' = Provisioned d' ∧ binding d' = Some b'
  ∧ b_ordinal b' = o + 1 ∧ b_ordinal b' <= limit_of "requests" l <= 2048
  ∧ o + 1 + extra_statements (allocations d') <= limit_of "statements" l <= 2048
  ∧ allocated_bytes (allocations d') <= limit_of "requestBytes" l <= 16 * 1024 * 1024
  ∧ b_response_bytes b' <= limit_of "responseBytes" l <= 16 * 1024 * 1024
  ∧ statement_count desc = Some n ∧ allocations d' = allocations d ++ [mkAllocation o n rb]
  ∧ (n = 1 ∧ intent = None ∧ batches d' = batches d
     ∨ n = 2 ∧ ∃ i row, intent = Some i ∧ entry_of (i_key i) d = Some row ∧ e_intent row = intent_text i
       ∧ e_dispatched row = 1 ∧ e_phase row = "dispatching" ∧ b_active b' = Some (i_key i)
       ∧ i_key i ∉ map fst (batches d) ∧ batches d' = batches d ++ [(i_key i, o)]).
Proof.
  unfold reserve_exact_request. intros [(e & _ & [=] & _)|[Hshape H]]%lift_then.
  apply refuse_if_ok, exact_shape in Hshape as (S1 & S2 & S3 & S4 & S5 & S6 & S7).
  apply tx_cases in H as [[_ Hn]|(d & a & d' & Hf & Ht & Hf' & Ha)]; [by destruct (Hn o)|].
  rewrite <- (Ha o eq_refl) in Ht. clear Ha.
  assert (∃ n, statement_count desc = Some n ∧ (n = 1 ∨ n = 2)) as (n & Hn & Hn12) by (destruct S3; eauto).
  rewrite Hn in Ht. cbn [default id from_option] in Ht.
  apply reserve_exact_ok in Ht as (b & bt & Hb & -> & Hl & Ho & Hst & Hrb & Hres & -> & Hbt).
  exists d. do 2 eexists. exists n. split_and!; try done; simpl; try lia.
  - unfold extra_statements in *. rewrite foldr_app. simpl.
    assert (∀ l n, foldr (λ a n, a_statements a - 1 + n) n l = foldr (λ a n, a_statements a - 1 + n) 0 l + n) as Hacc
      by (intros l' k; induction l'; simpl; lia).
    rewrite Hacc. lia.
  - unfold allocated_bytes in *. rewrite foldr_app. simpl.
    assert (∀ l n, foldr (λ a n, a_request_bytes a + n) n l = foldr (λ a n, a_request_bytes a + n) 0 l + n) as Hacc
      by (intros l' k; induction l'; simpl; lia).
    rewrite Hacc. lia.
  - destruct Hbt as [(? & -> & ->)|(-> & i & row & -> & He & Ht & Hp & Hd & Hact & Hf2 & ->)]; [left; split; [lia|done]|].
    right. split; [done|]. by exists i, row.
Qed.
End Exact.

(** ** Witnesses *)

Definition ticking (n : nat) : res stamp * nat := (Ok (At (Z.of_nat n)), S n).
Definition sound_io (n : nat) : io := Healthy.
Definition five_minutes : Window := mkWindow (At 0) (At 250) (At 300).
Definition first_intent : Intent := mkIntent "first" "close" "41" five_minutes "target" CANDIDATE 2.
Definition second_intent : Intent := mkIntent "second" "reopen" "42" five_minutes "target" CANDIDATE 2.
Definition first_receipt : ConfirmedReceipt :=
  mkConfirmedReceipt "receipt" first_intent
    (mkResult "confirmed" "one_row_and_independent_readback" (Some "42") (Some "closed") (Some (At 9))) "CONFIRMED".
Definition two_transitions : history :=
  map (λ c, (c, At 250)) [CLatch first_intent; CSpendRead "first"; CClaimDispatch "first"; CClaimDispatch "first";
    CReserve "SELECT 1" 1024 4096 8; CReceived 0 100; CSettle "first" "confirmed";
    CAdvance first_intent second_intent first_receipt; CLatch second_intent; CClaimDispatch "second"].
Definition new_journal : State nat := mkState (Provisioned (empty_db "target" "packet")) 0 0%nat.

Lemma d1_journal_sound_witness :
  ∃ d, s_file (after ticking sound_io "target" "packet" two_transitions new_journal) = Provisioned d
    ∧ chained "target" d ∧ accounted d.
Proof. apply (d1_journal_sound ticking sound_io "target" "packet" two_transitions new_journal). reflexivity. Defined.

Lemma d1_journal_dispatches_witness :
  concat (map (λ c, claims_of c true) (acknowledged ticking sound_io "target" "packet" two_transitions new_journal))
  = ["first"; "second"] ∧ NoDup ["first"; "second"].
Proof.
  assert (concat (map (λ c, claims_of c true) (acknowledged ticking sound_io "target" "packet" two_transitions new_journal))
    = ["first"; "second"]) as E by (vm_compute; reflexivity).
  split; [exact E|].
  pose proof (proj1 (d1_journal_dispatches ticking sound_io "target" "packet" two_transitions new_journal eq_refl)) as H.
  cbv zeta in H. rewrite E in H. exact H.
Defined.

Definition batch_limits : list (string * Z) :=
  [("requests", 8); ("statements", 8); ("requestBytes", 4096); ("responseBytes", 8192)].
Definition claimed_journal : State nat :=
  after ticking sound_io "target" "packet" (map (λ c, (c, At 250)) [CLatch first_intent; CClaimDispatch "first"]) new_journal.

Lemma d1_exact_budget_witness :
  ∃ s', reserve_exact_request ticking sound_io "target" "packet" (JObj [("statementCount", JInt 2)]) 1024 512 batch_limits
    (At 250) (Some first_intent) claimed_journal = (Ok 0, s')
  ∧ ∃ d d', s_file claimed_journal = Provisioned d ∧ s_file s' = Provisioned d'.
Proof.
  destruct (reserve_exact_request ticking sound_io "target" "packet" (JObj [("statementCount", JInt 2)]) 1024 512 batch_limits
    (At 250) (Some first_intent) claimed_journal) as [r s'] eqn:E.
  assert (r = Ok 0) as -> by (change r with (fst (r, s')); rewrite <- E; vm_compute; reflexivity).
  exists s'. split; [reflexivity|].
  destruct (d1_exact_budget _ _ _ _ _ _ _ _ _ _ _ _ _ E) as (d & d' & b' & n & H1 & H2 & _). exists d, d'. split; [exact H1|exact H2].
Defined.
