(* ===== verification/D1Adapter.v ===== *)
(** probes/pmb1-d1-adapter/adapter.py: the [Adapter] over arbitrary ports - clock,
    source files, writer, independent observer, confirmation custodian - and the
    [D1Journal] port.

    The identity tests of [__init__] ([writer is observer] and the like) compare
    objects and are not modelled; the ports are distinct operations of one world. *)
From S2P Require Import Prelude Json JsonParse Oracle Control D1Port.

(** ** Sources *)

Definition PINS : list (string * string) :=
  [("bootstrap.sql", "5961b61bcb612bd8e2b569d9848955bcb8d346c7aa9f003b4cb5a9a3a7f0b82b");
   ("close.sql", "98623876d1121459b100f001e655d4e632fc1ffe7da756e48a1dccc4a40c1e9f");
   ("control.py", "d8c1cfa9fecf22b24635810438bbc508f17dc146ebcce67c3137d5ae0c4d1857");
   ("fixture.py", "3b7461876f80ca66e2f0e2ada979e70d1cf6e2480aa7d023b88e47d4e5716059");
   ("guards.sql", "14e8a7a1aa6aae07e35066b24b6cd41f5530c215f68aef1969965ad62642571e");
   ("manifest.json", "3a6b0d8fda2b07a3e4999ece220eee84c28c7d906ca4a87ed67faf693e009e50");
   ("readback.sql", "4927c060bab3de5312ce843c916f89d5ef5f4bb5b0ece500cec8263dc9de8222");
   ("README.md", "592ca18ffcace44004e4d67197222eff63005c97d7a7f04f1b855055957af2a7");
   ("reopen.sql", "33b96dacc532444803d94d7ded2512d313e492d1873520c058746103f2f9bfd8");
   ("schema.sql", "449fbbf112513c0204a5155b055c9c3b7ab8f51db43811f31290d8e8c2794baa");
   ("test_control.py", "a7ffa89b38602592d7ecf5e83b25f78e860765e007dd71c9d5aaee5cd0395827")].

Record SourceDescriptor := mkSourceDescriptor { sd_candidate : string; sd_manifest : string }.

(** [SourceDescriptor.__post_init__] *)
Definition source_descriptor (d : SourceDescriptor) : res unit :=
  refuse_if (negb (is_digest (sd_candidate d)) || bool_decide (sd_manifest d = EmptyString)) "invalid_source_descriptor".

(** What [Provider.dispatch] may answer. *)
Inductive reply := ReplyDict (d : list (string * pyval)) | ReplyOther.

Record Ports (W : Type) := mkPorts {
  p_now : M W stamp;
  p_read_bytes : string → M W string;
  p_recheck : M W bool;
  p_read : string → stamp → M W CompleteRows;
  p_dispatch : FixedUpdate → stamp → M W reply;
  p_confirmation : string → stamp → M W ConfirmedReceipt;
}.
Arguments p_now {W}. Arguments p_read_bytes {W}. Arguments p_recheck {W}. Arguments p_read {W}.
Arguments p_dispatch {W}. Arguments p_confirmation {W}.

(** What an [Adapter] instance keeps beside its ports. *)
Record Config := mkConfig {
  c_target_id : string;
  c_has_confirmations : bool;
  c_source : option SourceDescriptor;
}.

(** The tests of [Adapter.__init__] on values. *)
Definition adapter_new (c : Config) : res unit :=
  refuse_if (negb ((1 <=? slen (c_target_id c)) && (slen (c_target_id c) <=? 128)) || negb (isascii (c_target_id c)))
    "invalid_target_binding".

(** The adapter's visible effects, in order; an answer is recorded when it came. *)
Inductive event :=
| EvReserved (i : Intent)
| EvRead (sql : string)
| EvRows (sql : string) (rows : CompleteRows)
| EvClaimed (key : string)
| EvDispatch (key : string) (u : FixedUpdate)
| EvReply (r : reply)
| EvSettled (key phase : string).

(** World, [self.last_time], the local [claimed] of [_dispatch_reserved], trace. *)
Record AState (W : Type) := mkAState {
  a_world : W;
  a_last_time : Z;
  a_claimed : bool;
  a_trace : list event;
}.
Arguments mkAState {W}. Arguments a_world {W}. Arguments a_last_time {W}. Arguments a_claimed {W}. Arguments a_trace {W}.

Section Adapter.
Context {W : Type} `{D1Journal W} (ports : Ports W) (sha256 : string → string) (cfg : Config).
Notation A := (M (AState W)).

Definition on_world {T} (m : M W T) : A T := λ s,
  let (r, w) := m (a_world s) in (r, mkAState w (a_last_time s) (a_claimed s) (a_trace s)).
Definition emit (e : event) : A unit :=
  modify (λ s, mkAState (a_world s) (a_last_time s) (a_claimed s) (a_trace s ++ [e])).
Definition set_last (t : Z) : A unit := modify (λ s, mkAState (a_world s) t (a_claimed s) (a_trace s)).
Definition set_claimed (b : bool) : A unit := modify (λ s, mkAState (a_world s) (a_last_time s) b (a_trace s)).
Definition refuse (bad : bool) (label : string) : A unit := lift (refuse_if bad label).

(** ** Source files *)

Fixpoint read_files (names : list string) : A (list (string * string)) :=
  match names with
  | [] => ret []
  | n :: names => let* b := on_world (p_read_bytes ports n) in let* l := read_files names in ret ((n, b) :: l)
  end.

Definition pinned (files : list (string * string)) : bool :=
  forallb (λ nb, bool_decide (Some (sha256 nb.2) = dict_get nb.1 PINS)) files.

(** [verify_source()] *)
Definition verify_source : A (list (string * string)) :=
  let* files := read_files (map fst PINS) in
  refuse (negb (pinned files)) "source_pin_mismatch" ;*
  ret files.

(** [Adapter.candidate] *)
Definition candidate : string := match c_source cfg with None => CANDIDATE | Some d => sd_candidate d end.

(** [Adapter._source_files] *)
Definition source_files : A (list (string * string)) :=
  let* files := verify_source in
  match c_source cfg with
  | None => ret files
  | Some d =>
      let* void := on_world (p_recheck ports) in
      refuse (negb void) "source_recheck_not_a_local_void_check" ;*
      ret (dict_set "manifest.json" (sd_manifest d) files)
  end.

(** [files[name]] *)
Definition file_of (name : string) (files : list (string * string)) : res string :=
  match dict_get name files with Some b => Ok b | None => Err (External "KeyError") end.
(** [files[name].decode()] *)
Definition text_of_file (name : string) (files : list (string * string)) : res string :=
  let? b := file_of name files in utf8_decode b.

(** ** Admission *)

Definition intent_ok (i : Intent) : res unit :=
  window_validate (i_window i) ;?
  refuse_if (negb (bool_decide (i_candidate i = candidate)) || negb (str_in (i_operation i) ["close"; "reopen"]))
    "invalid_intent" ;?
  let? _ := generation (PStr (i_expected i)) true in
  refuse_if (negb (bool_decide (i_target_id i = c_target_id cfg))) "wrong_target_binding" ;?
  refuse_if (negb (bool_decide (i_transition_limit i ∈ [1; 2; 3]))) "invalid_transition_limit" ;?
  refuse_if (negb ((1 <=? slen (i_key i)) && (slen (i_key i) <=? 128)) || negb (isascii (i_key i))) "invalid_intent_key".

Definition end_of (i : Intent) (reconciliation : bool) : stamp :=
  if reconciliation then reconcile_until (i_window i) else dispatch_until (i_window i).

(** [starts <= t < end] *)
Definition within (i : Intent) (t : Z) (end_ : stamp) : bool :=
  match starts_at (i_window i), end_ with
  | At s, At e => (s <=? t) && (t <? e)
  | _, _ => false
  end.

(** [Adapter.check] *)
Definition check (i : Intent) (reconciliation : bool) : A stamp :=
  lift (intent_ok i) ;*
  let* now := on_world (p_now ports) in
  let* last := gets a_last_time in
  let end_ := end_of i reconciliation in
  match now with
  | Unusable => raise (Refusal "clock_unusable")
  | At now =>
      refuse (now <? last) "clock_unusable" ;*
      set_last now ;*
      refuse (negb (within i now end_)) "deadline_or_not_started" ;*
      let* _ := source_files in
      let* after := on_world (p_now ports) in
      match after with
      | Unusable => raise (Refusal "clock_or_deadline_after_source_check")
      | At after =>
          refuse ((after <? now) || negb (within i after end_)) "clock_or_deadline_after_source_check" ;*
          set_last after ;*
          ret end_
      end
  end.

(** ** Observation *)

(** One turn of the loop of [observe]. *)
Definition observe_one (i : Intent) (reconciliation : bool) (files : list (string * string)) (name : string) : A CompleteRows :=
  let* end_ := check i reconciliation in
  let* spent := on_world (dj_spend_read (i_key i) end_) in
  refuse (negb spent) "read_budget_exhausted" ;*
  let* end_ := check i reconciliation in
  let* sql := lift (text_of_file name files) in
  emit (EvRead sql) ;*
  let* rows := on_world (p_read ports sql end_) in
  emit (EvRows sql rows) ;*
  let* _ := check i reconciliation in
  ret rows.

(** [Adapter.observe] *)
Definition observe (i : Intent) (reconciliation : bool) : A (string * string) :=
  let* files := source_files in
  let* control := observe_one i reconciliation files "readback.sql" in
  let* schema := observe_one i reconciliation files "schema.sql" in
  let* manifest := lift (file_of "manifest.json" files) in
  lift (validate_schema sha256 schema manifest) ;*
  lift (validate_control control).

(** ** Dispatch *)

Definition settle (key phase : string) (end_ : stamp) : A unit :=
  on_world (dj_settle key phase end_) ;*
  emit (EvSettled key phase).

Definition from_state (i : Intent) : string := if bool_decide (i_operation i = "close") then "open" else "closed".

(** [receipt["changes"]] of a well-formed receipt. *)
Definition changes_of (r : reply) : option Z :=
  match r with
  | ReplyDict d =>
      if same_keys d ["success"; "changes"] && bool_decide (dict_get "success" d = Some (PBool true))
      then match dict_get "changes" d with Some (PInt n) => Some n | _ => None end
      else None
  | ReplyOther => None
  end.

(** The [try] body of [_dispatch_reserved]: up to the dispatch, and what follows. *)
Definition before_dispatch (i : Intent) : A unit :=
  let* _ := check i false in
  let* before := observe i false in
  refuse (negb (bool_decide (before = (i_expected i, from_state i)))) "stale_or_wrong_state" ;*
  let* end_ := check i false in
  set_claimed true ;*
  let* claimed := on_world (dj_claim_dispatch (i_key i) end_) in
  refuse (negb claimed) "dispatch_claim_unconfirmed" ;*
  emit (EvClaimed (i_key i)).

Definition send (i : Intent) : A reply :=
  let* _ := check i false in
  let* files := source_files in
  let* sql := lift (text_of_file (i_operation i +:+ ".sql") files) in
  let update := mkFixedUpdate sql (i_expected i) in
  let* end_ := check i false in
  emit (EvDispatch (i_key i) update) ;*
  let* receipt := on_world (p_dispatch ports update end_) in
  emit (EvReply receipt) ;*
  let* _ := check i false in
  ret receipt.

Definition after_dispatch (i : Intent) (receipt : reply) : A Result :=
  match changes_of receipt with
  | None => raise (Refusal "malformed_receipt")
  | Some 0 =>
      let* end_ := check i false in
      settle (i_key i) "refused" end_ ;*
      let* _ := check i false in
      ret (plain_result "refused" "zero_affected_rows")
  | Some n =>
      refuse (negb (n =? 1)) "affected_rows_not_one" ;*
      let* observed := observe i false in
      refuse (negb (bool_decide (observed = (next_generation_of i, target i)))) "transition_readback_mismatch" ;*
      let* end_ := check i false in
      settle (i_key i) "confirmed" end_ ;*
      let* _ := check i false in
      let* last := gets a_last_time in
      ret (mkResult "confirmed" "one_row_and_independent_readback" (Some observed.1) (Some observed.2) (Some (At last)))
  end.

(** The handler: settle conservatively, ignoring a failure to. *)
Definition on_failure (i : Intent) : A Result :=
  let* claimed := gets a_claimed in
  try (let* end_ := check i true in settle (i_key i) (if claimed then "unknown" else "refused") end_) (λ _, ret tt) ;*
  ret (plain_result (if claimed then "unknown" else "refused") "operation_unconfirmed").

(** [Adapter._dispatch_reserved] *)
Definition dispatch_reserved (i : Intent) : A Result :=
  set_claimed false ;*
  try (before_dispatch i ;* let* receipt := send i in after_dispatch i receipt) (λ _, on_failure i).

(** ** Operations *)

(** [Adapter.execute] *)
Definition reserve_root (i : Intent) : A bool :=
  let* end_ := check i false in
  refuse (Control.MAX_GENERATION <? int_of_str (i_expected i) + i_transition_limit i) "lifecycle_generation_headroom_exhausted" ;*
  let* latched := on_world (dj_latch i end_) in
  if negb latched then ret false else
  emit (EvReserved i) ;*
  let* _ := check i false in
  ret true.
Definition execute (i : Intent) : A Result :=
  let* reserved := try (let* b := reserve_root i in ret (Some b)) (λ _, ret None) in
  match reserved with
  | None => ret (plain_result "refused" "reservation_unconfirmed")
  | Some false => ret (plain_result "refused" "intent_already_latched_or_unconfirmed")
  | Some true => dispatch_reserved i
  end.

(** [Adapter.close] and [Adapter.reopen] *)
Definition close (key expected : string) (w : Window) : A Result :=
  execute (mkIntent key "close" expected w (c_target_id cfg) candidate 1).
Definition reopen (key expected : string) (w : Window) : A Result :=
  execute (mkIntent key "reopen" expected w (c_target_id cfg) candidate 1).

(** The two disjunctions of [advance]. *)
Definition successor_bad (p q : Intent) (reference : string) : bool :=
  negb (c_has_confirmations cfg)
  || negb ((1 <=? slen reference) && (slen reference <=? 128)) || negb (isascii reference)
  || bool_decide (i_key q = i_key p)
  || negb (bool_decide (i_expected q = next_generation_of p))
  || bool_decide (i_operation q = i_operation p)
  || negb (bool_decide (i_window q = i_window p))
  || negb (i_transition_limit q =? i_transition_limit p).
Definition confirmation_bad (p : Intent) (reference : string) (receipt : ConfirmedReceipt) (last : Z) : bool :=
  let result := cf_result receipt in
  negb (bool_decide (cf_reference receipt = reference))
  || negb (bool_decide (cf_predecessor receipt = p))
  || negb (bool_decide (cf_status receipt = "CONFIRMED"))
  || negb (bool_decide (r_status result = "confirmed"))
  || negb (bool_decide (r_reason result = "one_row_and_independent_readback"))
  || negb (bool_decide (r_generation result = Some (next_generation_of p)))
  || negb (bool_decide (r_state result = Some (target p)))
  || match r_confirmed_at result with
     | Some (At t) => negb (within p t (dispatch_until (i_window p))) || (last <? t)
     | _ => true
     end.

Definition reserve_successor (p q : Intent) (reference : string) : A unit :=
  let* end_ := check q false in
  let* _ := check p false in
  refuse (successor_bad p q reference) "invalid_successor" ;*
  let* receipt := on_world (p_confirmation ports reference end_) in
  let* _ := check q false in
  let* last := gets a_last_time in
  refuse (confirmation_bad p reference receipt last) "invalid_retained_confirmation" ;*
  let* advanced := on_world (dj_advance p q receipt end_) in
  refuse (negb advanced) "successor_reservation_refused" ;*
  emit (EvReserved q) ;*
  let* _ := check q false in
  ret tt.
(** [Adapter.advance] *)
Definition advance (p q : Intent) (reference : string) : A Result :=
  let* reserved := try (reserve_successor p q reference ;* ret true) (λ _, ret false) in
  if reserved then dispatch_reserved q
  else ret (plain_result "refused" "successor_reservation_unconfirmed").

(** [Adapter.reconcile] *)
Definition reconcile_body (i : Intent) : A Result :=
  let* end_ := check i true in
  let* entry := on_world (dj_get (i_key i) end_) in
  refuse (negb (bool_decide (je_intent entry = i)) || negb (je_dispatch_claimed entry)) "not_exact_uncertain_intent" ;*
  let* _ := check i true in
  let* claimed := on_world (dj_claim_reconcile (i_key i) end_) in
  refuse (negb claimed) "reconciliation_budget_exhausted" ;*
  let* observed := observe i true in
  ret (if negb (bool_decide (observed = (next_generation_of i, target i)))
       then mkResult "unknown" "target_not_observed" (Some observed.1) (Some observed.2) None
       else mkResult "observed" "current_target_only_receipt_remains_unknown" (Some observed.1) (Some observed.2) None).
Definition reconcile (i : Intent) : A Result :=
  try (reconcile_body i) (λ _, ret (plain_result "unknown" "reconciliation_unconfirmed")).

(** [last_time] starts at -1.0. *)
Definition new_adapter (w : W) : AState W := mkAState w (-1) false [].

End Adapter.
