(* ===== verification/D1AdapterFacts.v ===== *)
(** Which effects each part of the D1 adapter can add, what a passed check means, that
    source texts are pinned, and what a complete observation is. *)
From S2P Require Import Prelude Json JsonParse Oracle Control D1Port D1Adapter.

Section Facts.
Context {W : Type} `{D1Journal W} (ports : Ports W) (sha256 : string → string) (cfg : Config).
Notation A := (M (AState W)).
Notation check := (check ports sha256 cfg).
Notation observe := (observe ports sha256 cfg).
Notation source_files := (source_files ports sha256 cfg).

(** ** Which events a statement sequence can add *)

(** [m] adds only events of kind [P] and leaves the flag [claimed] alone. *)
Definition only (P : event → Prop) {T} (m : A T) : Prop :=
  ∀ s, ∃ evs, a_trace (m s).2 = a_trace s ++ evs ∧ Forall P evs ∧ a_claimed (m s).2 = a_claimed s.

Lemma only_silent {T} (P : event → Prop) (m : A T) :
  (∀ s, a_trace (m s).2 = a_trace s ∧ a_claimed (m s).2 = a_claimed s) → only P m.
Proof. intros Hm s. destruct (Hm s) as [E1 E2]. exists []. by rewrite E1, E2, app_nil_r. Qed.
Lemma only_then {T U} (P : event → Prop) (m : A T) (f : AState W → A U) s r s1 :
  only P m → m s = (r, s1) → (∀ x, only P (f x)) →
  ∃ evs, a_trace (f s1 s1).2 = a_trace s ++ evs ∧ Forall P evs ∧ a_claimed (f s1 s1).2 = a_claimed s.
Proof.
  intros Hm E Hf. destruct (Hm s) as (e1 & E1 & F1 & C1). rewrite E in *. simpl in *.
  destruct (Hf s1 s1) as (e2 & E2 & F2 & C2). exists (e1 ++ e2). rewrite E2, E1, C2, app_assoc.
  split; [done|]. split; [by apply Forall_app|done].
Qed.
Lemma only_bind {T U} (P : event → Prop) (m : A T) (f : T → A U) : only P m → (∀ x, only P (f x)) → only P (bind m f).
Proof.
  intros Hm Hf s. unfold bind. destruct (m s) as [[x|e] s1] eqn:E.
  - exact (only_then P m (λ _, f x) s _ s1 Hm E (λ _, Hf x)).
  - pose proof (Hm s) as H0. by rewrite E in H0.
Qed.
Lemma only_try {T} (P : event → Prop) (m : A T) (f : exn → A T) : only P m → (∀ x, only P (f x)) → only P (try m f).
Proof.
  intros Hm Hf s. unfold try. destruct (m s) as [[x|e] s1] eqn:E.
  - pose proof (Hm s) as H0. by rewrite E in H0.
  - exact (only_then P m (λ _, f e) s _ s1 Hm E (λ _, Hf e)).
Qed.
Lemma only_emit (P : event → Prop) e : P e → only P (emit (W:=W) e).
Proof. intros He s. exists [e]. split; [done|]. split; [by constructor|done]. Qed.
Lemma only_on_world {T} P (m : M W T) : only P (on_world m).
Proof. apply only_silent. intros s. unfold on_world. by destruct (m (a_world s)). Qed.
Lemma only_lift {T} P (x : res T) : only P (lift x).
Proof. by apply only_silent. Qed.
Lemma only_ret {T} P (x : T) : only P (ret x).
Proof. by apply only_silent. Qed.
Lemma only_raise {T} P (e : exn) : only P (raise (A:=T) e).
Proof. by apply only_silent. Qed.
Lemma only_gets {T} P (f : AState W → T) : only P (gets f).
Proof. by apply only_silent. Qed.
Lemma only_set_last P t : only P (set_last (W:=W) t).
Proof. by apply only_silent. Qed.

Create HintDb events discriminated.
#[local] Hint Resolve only_bind only_try only_on_world only_lift only_ret only_raise only_gets only_set_last : events.
#[local] Hint Extern 1 (only _ (refuse _ _)) => apply only_lift : events.
#[local] Hint Extern 2 (only _ (match ?x with _ => _ end)) => destruct x : events.

Lemma only_read_files P names : only P (read_files ports names).
Proof. induction names; simpl; auto with events. Qed.
#[local] Hint Resolve only_read_files : events.
Lemma only_source_files P : only P source_files.
Proof. unfold D1Adapter.source_files, verify_source. auto 10 with events. Qed.
#[local] Hint Resolve only_source_files : events.
Lemma only_check P i b : only P (check i b).
Proof. unfold D1Adapter.check. auto 30 with events. Qed.
#[local] Hint Resolve only_check : events.

(** An answered query of the observer, or one it was asked. *)
Definition is_observation (e : event) : Prop := match e with EvRead _ | EvRows _ _ => True | _ => False end.
Definition is_settlement (e : event) : Prop := match e with EvSettled _ _ => True | _ => is_observation e end.

Lemma only_observe_one (P : event → Prop) i b files n :
  (∀ e, is_observation e → P e) → only P (observe_one ports sha256 cfg i b files n).
Proof.
  intros HP. unfold observe_one.
  assert (∀ sql, only P (emit (W:=W) (EvRead sql))) by (intros; by apply only_emit, HP).
  assert (∀ sql rows, only P (emit (W:=W) (EvRows sql rows))) by (intros; by apply only_emit, HP).
  auto 30 with events.
Qed.
Lemma only_observe (P : event → Prop) i b : (∀ e, is_observation e → P e) → only P (observe i b).
Proof.
  intros HP. unfold D1Adapter.observe. pose proof (only_observe_one P i b) as Ho.
  apply only_bind; [auto with events|]. intros files. apply only_bind; [by apply Ho|]. intros c.
  apply only_bind; [by apply Ho|]. intros sc. auto 10 with events.
Qed.

Lemma only_settle (P : event → Prop) k p e : P (EvSettled k p) → only P (settle k p e).
Proof. intros HP. unfold settle. apply only_bind; [auto with events|]. intros _. by apply only_emit. Qed.

Lemma only_on_failure (P : event → Prop) i : (∀ k p, P (EvSettled k p)) → only P (on_failure ports sha256 cfg i).
Proof.
  intros HP. unfold on_failure. apply only_bind; [auto with events|]. intros c.
  apply only_bind; [|auto with events]. apply only_try; [|auto with events].
  apply only_bind; [auto with events|]. intros e. by apply only_settle.
Qed.

Lemma only_after_dispatch i r : only is_settlement (after_dispatch ports sha256 cfg i r).
Proof.
  assert (∀ k p e, only is_settlement (settle k p e)) by (intros; by apply only_settle).
  assert (∀ b, only is_settlement (observe i b)) by (intros b; apply only_observe; by intros []).
  unfold after_dispatch. destruct (changes_of r) as [[|n|n]|]; auto 30 with events.
Qed.

(** ** What a successful step leaves *)

(** The state after a step that emits nothing. *)
Lemma quiet_step {T} (m : A T) s x s' :
  only (λ _, False) m → m s = (x, s') → a_trace s' = a_trace s ∧ a_claimed s' = a_claimed s.
Proof.
  intros Hm E. destruct (Hm s) as (evs & E1 & F & C). rewrite E in *. simpl in *.
  destruct evs as [|e evs]; [by rewrite app_nil_r in E1|]. by apply Forall_inv in F.
Qed.

Lemma check_quiet i b s x s' : check i b s = (x, s') → a_trace s' = a_trace s ∧ a_claimed s' = a_claimed s.
Proof. apply quiet_step. auto with events. Qed.
Lemma source_files_quiet s x s' : source_files s = (x, s') → a_trace s' = a_trace s ∧ a_claimed s' = a_claimed s.
Proof. apply quiet_step. auto with events. Qed.

(** A passed check: the clock stands inside the window, the intent is admitted. *)
Lemma check_ok i b s e s' :
  check i b s = (Ok e, s') → e = end_of i b ∧ within i (a_last_time s') e = true ∧ intent_ok cfg i = Ok tt.
Proof.
  unfold D1Adapter.check. intros Hc.
  apply bind_ok in Hc as ([] & s1 & H1 & Hc). unfold lift in H1. injection H1 as H1 <-.
  apply bind_ok in Hc as (now & s2 & _ & Hc). apply bind_ok in Hc as (last & s3 & H3 & Hc).
  destruct now as [now|]; [|done].
  apply bind_ok in Hc as ([] & s4 & _ & Hc). apply bind_ok in Hc as ([] & s5 & _ & Hc).
  apply bind_ok in Hc as ([] & s6 & _ & Hc). apply bind_ok in Hc as (files & s7 & _ & Hc).
  apply bind_ok in Hc as (after & s8 & _ & Hc). destruct after as [after|]; [|done].
  apply bind_ok in Hc as ([] & s9 & H9 & Hc). unfold refuse, lift in H9. injection H9 as H9 <-.
  apply refuse_if_ok, orb_false_iff in H9 as [_ H9]. apply negb_false_iff in H9.
  apply bind_ok in Hc as ([] & s10 & H10 & Hc). unfold set_last, modify in H10. injection H10 as <-.
  unfold ret in Hc. injection Hc as <- <-. done.
Qed.

(** ** Pinned sources *)

(** The text of a source file whose bytes have the pinned digest. *)
Definition pinned_text (name text : string) : Prop :=
  ∃ b, Some (sha256 b) = dict_get name PINS ∧ utf8_decode b = Ok text.
(** The manifest in force: the pinned one, or the reviewed candidate's. *)
Definition manifest_bytes (m : string) : Prop :=
  match c_source cfg with None => Some (sha256 m) = dict_get "manifest.json" PINS | Some d => m = sd_manifest d end.

Lemma source_files_ok s files s' :
  source_files s = (Ok files, s') →
  (∀ n b, dict_get n files = Some b → n ≠ "manifest.json" → Some (sha256 b) = dict_get n PINS)
  ∧ (∀ m, dict_get "manifest.json" files = Some m → manifest_bytes m).
Proof.
  unfold D1Adapter.source_files, verify_source. intros Hs. apply bind_ok in Hs as (fs & s1 & Hv & Hs).
  apply bind_ok in Hv as (fs' & s2 & _ & Hv). apply bind_ok in Hv as ([] & s3 & Hp & Hv).
  unfold ret in Hv. injection Hv as -> <-. unfold refuse, lift in Hp. injection Hp as Hp <-.
  apply refuse_if_ok, negb_false_iff in Hp. unfold pinned in Hp. rewrite forallb_forall in Hp.
  assert (∀ n b, dict_get n fs = Some b → Some (sha256 b) = dict_get n PINS) as Hpin.
  { intros n b Hb. apply dict_get_in, list_elem_of_In in Hb. apply Hp in Hb. by apply bool_decide_eq_true in Hb. }
  unfold manifest_bytes. destruct (c_source cfg) as [d|].
  - apply bind_ok in Hs as (void & s4 & _ & Hs). apply bind_ok in Hs as ([] & s5 & _ & Hs).
    unfold ret in Hs. injection Hs as <- <-. split.
    + intros n b Hb Hn. rewrite dict_get_set_other in Hb by done. by apply Hpin.
    + intros m Hm. rewrite dict_get_set_same in Hm. by injection Hm as <-.
  - unfold ret in Hs. injection Hs as <- <-. split; [intros n b Hb _; by apply Hpin|intros m Hm; by apply Hpin].
Qed.

Lemma text_of_file_ok s files s' n t :
  source_files s = (Ok files, s') → n ≠ "manifest.json" → text_of_file n files = Ok t → pinned_text n t.
Proof.
  intros Hs Hn Ht. apply source_files_ok in Hs as [Hs _]. unfold text_of_file, file_of in Ht.
  destruct (dict_get n files) as [b|] eqn:Eb; [|done]. exists b. split; [by apply Hs|done].
Qed.

(** ** A complete observation *)

(** Both pinned queries answered completely: the schema is the manifest's and the
    control relation is the one row of generation [g] in state [st]. *)
Definition observed (evs : list event) (gs : string * string) : Prop :=
  ∃ q1 q2 control schema manifest,
    evs = [EvRead q1; EvRows q1 control; EvRead q2; EvRows q2 schema]
    ∧ pinned_text "readback.sql" q1 ∧ pinned_text "schema.sql" q2 ∧ manifest_bytes manifest
    ∧ validate_schema sha256 schema manifest = Ok tt ∧ validate_control control = Ok gs.

Lemma observe_one_ok i b files n s rows s' :
  observe_one ports sha256 cfg i b files n s = (Ok rows, s') →
  ∃ q, a_trace s' = a_trace s ++ [EvRead q; EvRows q rows] ∧ a_claimed s' = a_claimed s ∧ text_of_file n files = Ok q.
Proof.
  unfold observe_one. intros Ho.
  apply bind_ok in Ho as (e1 & s1 & H1 & Ho). apply check_quiet in H1 as [T1 C1].
  apply bind_ok in Ho as (sp & s2 & H2 & Ho). apply (quiet_step _ _ _ _ (only_on_world _ _)) in H2 as [T2 C2].
  apply bind_ok in Ho as ([] & s3 & H3 & Ho). apply (quiet_step _ _ _ _ (only_lift _ _)) in H3 as [T3 C3].
  apply bind_ok in Ho as (e4 & s4 & H4 & Ho). apply check_quiet in H4 as [T4 C4].
  apply bind_ok in Ho as (q & s5 & H5 & Ho). pose proof H5 as H5'. apply (quiet_step _ _ _ _ (only_lift _ _)) in H5 as [T5 C5].
  unfold lift in H5'. injection H5' as Hq _.
  apply bind_ok in Ho as ([] & s6 & H6 & Ho). unfold emit, modify in H6. injection H6 as <-.
  apply bind_ok in Ho as (r & s7 & H7 & Ho). apply (quiet_step _ _ _ _ (only_on_world _ _)) in H7 as [T7 C7].
  apply bind_ok in Ho as ([] & s8 & H8 & Ho). unfold emit, modify in H8. injection H8 as <-.
  apply bind_ok in Ho as (e9 & s9 & H9 & Ho). apply check_quiet in H9 as [T9 C9].
  unfold ret in Ho. injection Ho as <- <-. exists q. simpl in *. split_and!; [|congruence|done].
  rewrite T9, T7, T5, T4, T3, T2, T1, <- app_assoc. done.
Qed.

Lemma observe_ok i b s gs s' :
  observe i b s = (Ok gs, s') → ∃ evs, a_trace s' = a_trace s ++ evs ∧ a_claimed s' = a_claimed s ∧ observed evs gs.
Proof.
  unfold D1Adapter.observe. intros Ho.
  apply bind_ok in Ho as (files & s1 & H1 & Ho). pose proof (source_files_quiet _ _ _ H1) as [T1 C1].
  apply bind_ok in Ho as (control & s2 & H2 & Ho). apply observe_one_ok in H2 as (q1 & T2 & C2 & Q1).
  apply bind_ok in Ho as (schema & s3 & H3 & Ho). apply observe_one_ok in H3 as (q2 & T3 & C3 & Q2).
  apply bind_ok in Ho as (m & s4 & H4 & Ho). unfold lift in H4. injection H4 as Hm <-.
  apply bind_ok in Ho as ([] & s5 & H5 & Ho). unfold lift in H5, Ho. injection H5 as Hv <-. injection Ho as Hc <-.
  exists [EvRead q1; EvRows q1 control; EvRead q2; EvRows q2 schema].
  split_and!; [by rewrite T3, T2, T1, <- app_assoc|congruence|].
  exists q1, q2, control, schema, m. split_and!; try done.
  - by eapply text_of_file_ok.
  - by eapply text_of_file_ok.
  - apply (source_files_ok _ _ _ H1). unfold file_of in Hm. by destruct (dict_get "manifest.json" files); [injection Hm as ->|].
Qed.
End Facts.
