(* ===== verification/D1Protocol.v ===== *)
(** The D1 adapter refines an abstract protocol: whatever its ports answer or raise,
    each operation answers a result, and the effects it left are one of the few
    transcripts that license that result. *)
From S2P Require Import Prelude Json JsonParse Oracle Control D1Port D1Adapter D1AdapterFacts.

Section Protocol.
Context {W : Type} `{D1Journal W} (ports : Ports W) (sha256 : string → string) (cfg : Config).
Notation A := (M (AState W)).
Notation check := (check ports sha256 cfg).
Notation observe := (observe ports sha256 cfg).
Notation pinned_text := (pinned_text sha256).
Notation observed := (observed sha256 cfg).

(** ** The abstract protocol *)

(** The one statement of an operation, bound to the expected generation. *)
Definition update_of (i : Intent) (u : FixedUpdate) : Prop :=
  pinned_text (i_operation i +:+ ".sql") (fu_sql u) ∧ fu_expected_generation u = i_expected i.

(** A settlement that was acknowledged, or none. *)
Definition settled (i : Intent) (phase : string) (evs : list event) : Prop :=
  evs = [] ∨ evs = [EvSettled (i_key i) phase].

(** What a reserved intent may do, and the result each transcript gives. *)
Inductive protocol (i : Intent) (now : Z) : list event → Result → Prop :=
| PStale obs tail :
    Forall is_observation obs → settled i "refused" tail →
    protocol i now (obs ++ tail) (plain_result "refused" "operation_unconfirmed")
| PUnclaimed obs tail :
    observed obs (i_expected i, from_state i) → settled i "unknown" tail →
    protocol i now (obs ++ tail) (plain_result "unknown" "operation_unconfirmed")
| PClaimed obs tail :
    observed obs (i_expected i, from_state i) → settled i "unknown" tail →
    protocol i now (obs ++ EvClaimed (i_key i) :: tail) (plain_result "unknown" "operation_unconfirmed")
| PDispatched obs u tail :
    observed obs (i_expected i, from_state i) → update_of i u → settled i "unknown" tail →
    protocol i now (obs ++ EvClaimed (i_key i) :: EvDispatch (i_key i) u :: tail)
      (plain_result "unknown" "operation_unconfirmed")
| PReplied obs u r rest tail :
    observed obs (i_expected i, from_state i) → update_of i u → Forall is_settlement rest → settled i "unknown" tail →
    protocol i now (obs ++ EvClaimed (i_key i) :: EvDispatch (i_key i) u :: EvReply r :: rest ++ tail)
      (plain_result "unknown" "operation_unconfirmed")
| PRefused obs u r :
    observed obs (i_expected i, from_state i) → update_of i u → changes_of r = Some 0 →
    protocol i now (obs ++ [EvClaimed (i_key i); EvDispatch (i_key i) u; EvReply r; EvSettled (i_key i) "refused"])
      (plain_result "refused" "zero_affected_rows")
| PConfirmed obs u r readback :
    observed obs (i_expected i, from_state i) → update_of i u → changes_of r = Some 1 →
    observed readback (next_generation_of i, target i) → within i now (dispatch_until (i_window i)) = true →
    protocol i now
      (obs ++ EvClaimed (i_key i) :: EvDispatch (i_key i) u :: EvReply r :: readback ++ [EvSettled (i_key i) "confirmed"])
      (mkResult "confirmed" "one_row_and_independent_readback" (Some (next_generation_of i)) (Some (target i))
         (Some (At now))).

(** ** Postconditions *)

(** A step that emits nothing, and what it proves when it succeeds. *)
Definition silent {T} (R : T → AState W → Prop) (s : AState W) (r : res T) (s' : AState W) : Prop :=
  a_trace s' = a_trace s ∧ a_claimed s' = a_claimed s ∧ ∀ x, r = Ok x → R x s'.

Lemma post_check i b s :
  post (check i b) s (silent (λ e s', e = end_of i b ∧ within i (a_last_time s') e = true ∧ intent_ok cfg i = Ok tt) s).
Proof.
  apply post_eq. intros r s' E. pose proof (check_quiet _ _ _ _ _ _ _ _ E) as [T C].
  split; [done|]. split; [done|]. intros x ->. by apply check_ok in E.
Qed.
Lemma post_world {T} (m : M W T) s : post (on_world m) s (silent (λ _ _, True) s).
Proof. apply post_eq. unfold on_world. intros r s'. destruct (m (a_world s)). by intros [= <- <-]. Qed.
Lemma post_lift {T} (x : res T) s : post (lift x) s (silent (λ y s', x = Ok y) s).
Proof. by apply post_eq; intros r s' [= <- <-]. Qed.
Lemma post_refuse b l s : post (refuse (W:=W) b l) s (silent (λ _ _, b = false) s).
Proof. apply post_eq. intros r s' [= <- <-]. split; [done|]. split; [done|]. by destruct b. Qed.
Lemma post_gets {T} (f : AState W → T) s : post (gets f) s (λ r s', r = Ok (f s) ∧ s' = s).
Proof. done. Qed.

Lemma post_observe i b s :
  post (observe i b) s (λ r s', ∃ evs, a_trace s' = a_trace s ++ evs ∧ a_claimed s' = a_claimed s
    ∧ Forall is_observation evs ∧ ∀ gs, r = Ok gs → observed evs gs).
Proof.
  apply post_eq. intros r s' E.
  destruct (only_observe ports sha256 cfg is_observation i b (λ _ He, He) s) as (evs & E1 & F & C).
  rewrite E in *. simpl in *. exists evs. split_and!; [done..|]. intros gs ->.
  apply observe_ok in E as (evs' & E2 & _ & Ho). rewrite E2 in E1. by apply app_inv_head in E1 as ->.
Qed.

Lemma post_source_files s :
  post (source_files ports sha256 cfg) s
    (silent (λ files _, ∀ n t, n ≠ "manifest.json" → text_of_file n files = Ok t → pinned_text n t) s).
Proof.
  apply post_eq. intros r s' E. pose proof (source_files_quiet _ _ _ _ _ _ E) as [T C].
  split; [done|]. split; [done|]. intros files -> n t Hn Ht. by eapply text_of_file_ok.
Qed.

(** One statement of a sequence: its success continues, its failure ends it. *)
Ltac advance_by L :=
  apply post_bind; eapply post_weaken; [apply L|];
  let r := fresh "r" in let s := fresh "s" in let T := fresh "T" in let C := fresh "C" in let R := fresh "R" in
  intros r s (T & C & R); destruct r as [r|]; [specialize (R r eq_refl)|clear R].

(** ** The stages of a dispatch *)

Lemma before_dispatch_post i s :
  a_claimed s = false →
  post (before_dispatch ports sha256 cfg i) s (λ r s', ∃ obs, Forall is_observation obs ∧
    match r with
    | Ok _ => a_trace s' = a_trace s ++ obs ++ [EvClaimed (i_key i)] ∧ a_claimed s' = true
              ∧ observed obs (i_expected i, from_state i)
    | Err _ => a_trace s' = a_trace s ++ obs
               ∧ (a_claimed s' = true → observed obs (i_expected i, from_state i))
    end).
Proof.
  intros C0. unfold before_dispatch.
  advance_by post_check; [|exists []; rewrite app_nil_r; split_and!; [constructor|done|congruence]].
  apply post_bind. eapply post_weaken; [apply post_observe|].
  intros [gs|e] s1 (obs & T1 & C1 & F & Ho);
    [|exists obs; split_and!; [done|congruence|congruence]].
  specialize (Ho gs eq_refl).
  advance_by post_refuse; [|exists obs; split_and!; [done|congruence|congruence]].
  apply negb_false_iff, bool_decide_eq_true in R0 as ->.
  advance_by post_check; [|exists obs; split_and!; [done|congruence|done]].
  apply post_bind. unfold set_claimed, modify, post at 1. cbn [fst snd].
  advance_by (post_world (dj_claim_dispatch (i_key i) r1)); [|exists obs; split_and!; [done|simpl in *; congruence|done]].
  advance_by post_refuse; [|exists obs; split_and!; [done|simpl in *; congruence|done]].
  unfold emit, modify, post. cbn [fst snd a_trace a_claimed] in *. exists obs.
  split_and!; [done| |congruence|done]. rewrite T4, T3, T2, T0, T1, T, <- app_assoc. done.
Qed.

Lemma send_post i s :
  post (send ports sha256 cfg i) s (λ r s', a_claimed s' = a_claimed s ∧
    match r with
    | Ok reply => ∃ u, update_of i u ∧ a_trace s' = a_trace s ++ [EvDispatch (i_key i) u; EvReply reply]
    | Err _ => a_trace s' = a_trace s ∨ ∃ u, update_of i u ∧
        (a_trace s' = a_trace s ++ [EvDispatch (i_key i) u]
         ∨ ∃ reply, a_trace s' = a_trace s ++ [EvDispatch (i_key i) u; EvReply reply])
    end).
Proof.
  unfold send. advance_by post_check; [|by split; [|left]]. destruct R as (_ & _ & Hi).
  advance_by post_source_files; [|split; [congruence|left; congruence]].
  assert (i_operation i +:+ ".sql" ≠ "manifest.json") as Hn.
  { unfold intent_ok in Hi. inv_check. inv_bool. unfold str_in in *. inv_bool.
    match goal with Ho : i_operation i ∈ _ |- _ =>
      rewrite !elem_of_cons, elem_of_nil in Ho; destruct Ho as [-> | [-> | []]]; discriminate end. }
  specialize (R (i_operation i +:+ ".sql")).
  advance_by (post_lift (text_of_file (i_operation i +:+ ".sql") r0)); [|split; [congruence|left; congruence]].
  specialize (R r1 Hn R0).
  advance_by post_check; [|split; [congruence|left; congruence]].
  set (u := mkFixedUpdate r1 (i_expected i)). assert (update_of i u) as Hu by (by split).
  apply post_bind. unfold emit, modify, post at 1. cbn [fst snd].
  advance_by (post_world (p_dispatch ports u r2)).
  2: { split; [simpl in *; congruence|]. right. exists u. split; [done|]. left. simpl in *. congruence. }
  apply post_bind. unfold emit, modify, post at 1. cbn [fst snd].
  advance_by post_check; unfold ret, post; simpl in *.
  - split; [congruence|]. exists u. split; [done|]. rewrite T4, T3, <- app_assoc. simpl. congruence.
  - split; [congruence|]. right. exists u. split; [done|]. right. exists r3. rewrite T4, T3, <- app_assoc. simpl. congruence.
Qed.

Lemma settle_post key phase e s :
  post (settle key phase e) s (λ r s', a_claimed s' = a_claimed s ∧
    a_trace s' = a_trace s ++ match r with Ok _ => [EvSettled key phase] | Err _ => [] end).
Proof.
  unfold settle. advance_by (post_world (dj_settle key phase e)); simpl in *.
  - unfold emit, modify, post. simpl. split; [done|congruence].
  - split; [done|]. by rewrite app_nil_r.
Qed.

(** What [after_dispatch] answers, and the transcript it leaves. *)
Definition answered (i : Intent) (reply_ : reply) (res_ : Result) (s' : AState W) (evs : list event) : Prop :=
  (changes_of reply_ = Some 0 ∧ res_ = plain_result "refused" "zero_affected_rows"
   ∧ evs = [EvSettled (i_key i) "refused"])
  ∨ (changes_of reply_ = Some 1
     ∧ res_ = mkResult "confirmed" "one_row_and_independent_readback" (Some (next_generation_of i)) (Some (target i))
                (Some (At (a_last_time s')))
     ∧ within i (a_last_time s') (dispatch_until (i_window i)) = true
     ∧ ∃ readback, observed readback (next_generation_of i, target i)
         ∧ evs = readback ++ [EvSettled (i_key i) "confirmed"]).

Lemma after_dispatch_post i reply_ s :
  post (after_dispatch ports sha256 cfg i reply_) s (λ r s', a_claimed s' = a_claimed s ∧ ∃ evs,
    a_trace s' = a_trace s ++ evs ∧ Forall is_settlement evs ∧ ∀ res_, r = Ok res_ → answered i reply_ res_ s' evs).
Proof.
  apply post_eq. intros r s' E.
  destruct (only_after_dispatch ports sha256 cfg i reply_ s) as (evs & E1 & F & C). rewrite E in *. simpl in *.
  split; [done|]. exists evs. split_and!; [done..|]. intros res_ ->.
  cut (post (after_dispatch ports sha256 cfg i reply_) s (λ r s', ∀ x, r = Ok x →
         ∃ evs, a_trace s' = a_trace s ++ evs ∧ answered i reply_ x s' evs)).
  { unfold post. rewrite E. simpl. intros Hp. destruct (Hp res_ eq_refl) as (evs' & E2 & Ha).
    rewrite E2 in E1. by apply app_inv_head in E1 as ->. }
  clear. unfold after_dispatch. destruct (changes_of reply_) as [n|] eqn:Er; [|done].
  assert (n = 0 ∨ n ≠ 0) as [-> | Hn] by lia.
  - advance_by post_check; [|done]. apply post_bind. eapply post_weaken; [apply settle_post|].
    intros [[]|e] s1 [C1 T1]; [|done]. advance_by post_check; [|done].
    unfold ret, post. cbn [fst snd]. intros x [= <-]. exists [EvSettled (i_key i) "refused"]. split; [congruence|]. left. done.
  - replace (match n with 0 => _ | _ => _ end) with
      (refuse (W:=W) (negb (n =? 1)) "affected_rows_not_one" ;*
       let* observed := observe i false in
       refuse (negb (bool_decide (observed = (next_generation_of i, target i)))) "transition_readback_mismatch" ;*
       let* end_ := check i false in
       settle (i_key i) "confirmed" end_ ;*
       let* _ := check i false in
       let* last := gets a_last_time in
       ret (mkResult "confirmed" "one_row_and_independent_readback" (Some observed.1) (Some observed.2) (Some (At last))))
      by (destruct n; done).
    advance_by post_refuse; [|done]. apply negb_false_iff, Z.eqb_eq in R as ->.
    apply post_bind. eapply post_weaken; [apply post_observe|]. intros [gs|e] s1 (rb & T1 & C1 & _ & Ho); [|done].
    specialize (Ho gs eq_refl). advance_by post_refuse; [|done].
    apply negb_false_iff, bool_decide_eq_true in R as ->.
    advance_by post_check; [|done]. apply post_bind. eapply post_weaken; [apply settle_post|].
    intros [[]|e] s4 [C4 T4]; [|done]. advance_by post_check; [|done]. destruct R0 as (-> & Hin & _).
    apply post_bind. unfold gets, ret, post. cbn [fst snd]. intros x [= <-].
    exists (rb ++ [EvSettled (i_key i) "confirmed"]). split; [rewrite app_assoc; congruence|]. right.
    split_and!; [done..|]. by exists rb.
Qed.

Lemma on_failure_post i s :
  post (on_failure ports sha256 cfg i) s (λ r s', ∃ evs,
    let phase := if a_claimed s then "unknown" else "refused" in
    r = Ok (plain_result phase "operation_unconfirmed") ∧ a_trace s' = a_trace s ++ evs ∧ settled i phase evs).
Proof.
  unfold on_failure. apply post_bind. unfold gets, post at 1. cbn [fst snd]. apply post_bind, post_try.
  advance_by post_check.
  - eapply post_weaken; [apply settle_post|]. intros [[]|e] s1 [C1 T1].
    + eexists. split_and!; [done| |by right]. unfold ret. simpl. congruence.
    + exists []. split_and!; [done| |by left]. unfold ret. simpl. rewrite !app_nil_r in *. congruence.
  - exists []. split_and!; [done| |by left]. unfold ret. simpl. by rewrite app_nil_r.
Qed.

Lemma dispatch_reserved_post i s :
  post (dispatch_reserved ports sha256 cfg i) s (λ r s', ∃ res_ evs,
    r = Ok res_ ∧ a_trace s' = a_trace s ++ evs ∧ protocol i (a_last_time s') evs res_).
Proof.
  unfold dispatch_reserved. apply post_bind. unfold set_claimed, modify, post at 1. cbn [fst snd].
  apply post_try, post_bind. eapply post_weaken; [by apply before_dispatch_post|].
  cbn [a_trace]. intros [[]|e] s1 (obs & Fo & H1).
  2: { destruct H1 as [T1 Hc]. eapply post_weaken; [apply on_failure_post|]. intros r s' (tail & -> & T & Hs).
    do 2 eexists. split_and!; [done|rewrite T, T1; by rewrite <- app_assoc|].
    destruct (a_claimed s1) eqn:C; [apply PUnclaimed; auto|by apply PStale]. }
  destruct H1 as (T1 & C1 & Ho). apply post_bind. eapply post_weaken; [apply send_post|].
  intros [reply_|e] s2 (C2 & H2).
  2: { eapply post_weaken; [apply on_failure_post|]. intros r s' (tail & -> & T & Hs). rewrite C2, C1 in *.
    destruct H2 as [T2|(u & Hu & [T2|[reply_ T2]])]; rewrite T, T2, T1, <- !app_assoc; simpl; do 2 eexists;
      (split_and!; [done|done|]).
    - by apply PClaimed.
    - by apply PDispatched.
    - by apply (PReplied i _ obs u reply_ [] tail). }
  destruct H2 as (u & Hu & T2). eapply post_weaken; [apply after_dispatch_post|].
  intros [res_|e] s3 (C3 & rest & T3 & F & Ha).
  - rewrite T2, T1, <- !app_assoc in T3. simpl in T3. do 2 eexists. split_and!; [done|exact T3|].
    destruct (Ha res_ eq_refl) as [(Er & -> & ->)|(Er & -> & Hin & rb & Hrb & ->)].
    + by apply PRefused.
    + by apply PConfirmed.
  - eapply post_weaken; [apply on_failure_post|]. intros r s' (tail & -> & T & Hs). rewrite C3, C2, C1 in *.
    rewrite T3, T2, T1, <- !app_assoc in T. simpl in T. do 2 eexists. split_and!; [done|exact T|].
    by apply PReplied.
Qed.

(** ** Whole operations *)

(** A retained confirmation of [p] that the custodian answered, and that is the one
    receipt [p]'s transition can leave. *)
Definition retained (p : Intent) (reference : string) : Prop :=
  ∃ receipt t at_ w w', p_confirmation ports reference t w = (Ok receipt, w')
    ∧ cf_reference receipt = reference ∧ cf_predecessor receipt = p
    ∧ cf_result receipt = mkResult "confirmed" "one_row_and_independent_readback" (Some (next_generation_of p))
        (Some (target p)) (Some (At at_))
    ∧ within p at_ (dispatch_until (i_window p)) = true.

Definition immediate_successor (p q : Intent) : Prop :=
  i_key q ≠ i_key p ∧ i_expected q = next_generation_of p ∧ i_operation q ≠ i_operation p
  ∧ i_window q = i_window p ∧ i_transition_limit q = i_transition_limit p.

Inductive request := Execute (i : Intent) | Advance (p q : Intent) (reference : string).
Definition intent_of (r : request) : Intent := match r with Execute i => i | Advance _ q _ => q end.
Definition serve (r : request) : A Result :=
  match r with
  | Execute i => execute ports sha256 cfg i
  | Advance p q reference => advance ports sha256 cfg p q reference
  end.
(** What a reservation by this request rests on. *)
Definition licensed (r : request) : Prop :=
  intent_ok cfg (intent_of r) = Ok tt ∧
  match r with
  | Execute i => int_of_str (i_expected i) + i_transition_limit i <= Control.MAX_GENERATION
  | Advance p q reference => immediate_successor p q ∧ retained p reference
  end.

Lemma confirmation_fields p reference receipt last :
  confirmation_bad p reference receipt last = false →
  ∃ at_, cf_reference receipt = reference ∧ cf_predecessor receipt = p
    ∧ cf_result receipt = mkResult "confirmed" "one_row_and_independent_readback" (Some (next_generation_of p))
        (Some (target p)) (Some (At at_))
    ∧ within p at_ (dispatch_until (i_window p)) = true.
Proof.
  unfold confirmation_bad. intros Hb. destruct receipt as [ref pred_ [st why g stt [[at_|]|]] status]; simpl in *; inv_bool; try done.
  exists at_. subst. done.
Qed.

(** What a reserving prefix leaves: nothing, or its reservation. *)
Definition reserved_by (r : request) (ok : Prop) (s s' : AState W) : Prop :=
  (a_trace s' = a_trace s ∧ ~ ok) ∨ (a_trace s' = a_trace s ++ [EvReserved (intent_of r)] ∧ licensed r).

Lemma reserve_root_post i s :
  post (reserve_root ports sha256 cfg i) s (λ r s', reserved_by (Execute i) (r = Ok true) s s').
Proof.
  unfold reserve_root, reserved_by. advance_by post_check; [|left; by split]. destruct R as (_ & _ & Hi).
  advance_by post_refuse; [|left; split; [congruence|done]]. apply Z.ltb_ge in R.
  advance_by (post_world (dj_latch i r)); [|left; split; [congruence|done]].
  destruct r1; [|left; unfold ret, post; simpl; split; [congruence|done]]. cbn [negb].
  apply post_bind. unfold emit, modify, post at 1. cbn [fst snd].
  advance_by post_check; right; (split; [|done]); unfold ret, post; simpl in *; congruence.
Qed.

Lemma reserve_successor_post p q reference s :
  post (reserve_successor ports sha256 cfg p q reference) s
    (λ r s', reserved_by (Advance p q reference) (r = Ok tt) s s').
Proof.
  unfold reserve_successor, reserved_by. advance_by post_check; [|left; by split].
  advance_by post_check; [|left; split; [congruence|done]].
  advance_by post_refuse; [|left; split; [congruence|done]].
  apply post_bind. unfold post at 1. destruct (on_world (p_confirmation ports reference r) s2) as [rc s3] eqn:Ec.
  pose proof (post_world (p_confirmation ports reference r) s2) as Hw. unfold post in Hw. rewrite Ec in Hw.
  cbn [fst snd] in *. destruct Hw as (T3 & C3 & _). destruct rc as [receipt|e]; [|left; split; [congruence|done]].
  advance_by post_check; [|left; split; [congruence|done]].
  apply post_bind. unfold gets, post at 1. cbn [fst snd].
  advance_by post_refuse; [|left; split; [congruence|done]].
  advance_by (post_world (dj_advance p q receipt r)); [|left; split; [congruence|done]].
  advance_by post_refuse; [|left; split; [congruence|done]].
  apply post_bind. unfold emit, modify, post at 1. cbn [fst snd].
  assert (licensed (Advance p q reference)) as Hl.
  { destruct R as (_ & _ & Hi). split; [done|]. split.
    - unfold successor_bad in R1. inv_bool. done.
    - unfold on_world in Ec. destruct (p_confirmation ports reference r (a_world s2)) as [x w] eqn:Ec'.
      injection Ec as -> <-. apply confirmation_fields in R3 as (at_ & Hc). by exists receipt, r, at_, (a_world s2), w. }
  advance_by post_check; right; (split; [|done]); unfold ret, post; simpl in *; congruence.
Qed.

(** A request that reserved nothing it may use is refused; the others follow the protocol. *)
Definition refined (r : request) (s s' : AState W) (res_ : Result) : Prop :=
  (r_status res_ = "refused" ∧
    (a_trace s' = a_trace s ∨ a_trace s' = a_trace s ++ [EvReserved (intent_of r)] ∧ licensed r))
  ∨ ∃ evs, a_trace s' = a_trace s ++ EvReserved (intent_of r) :: evs ∧ licensed r
      ∧ protocol (intent_of r) (a_last_time s') evs res_.

Lemma serve_post r s : post (serve r) s (λ x s', ∃ res_, x = Ok res_ ∧ refined r s s' res_).
Proof.
  assert (∀ ok s1 why, reserved_by r ok s s1 → refined r s s1 (plain_result "refused" why)) as Hr.
  { intros ok s1 why [[T _]|[T L]]; left; (split; [done|auto]). }
  assert (∀ ok s1, ok → reserved_by r ok s s1 →
    post (dispatch_reserved ports sha256 cfg (intent_of r)) s1 (λ x s', ∃ res_, x = Ok res_ ∧ refined r s s' res_)) as Hd.
  { intros ok s1 Hok [[_ Hn]|[T L]]; [done|]. eapply post_weaken; [apply dispatch_reserved_post|].
    intros x s' (res_ & evs & -> & T' & Hp). exists res_. split; [done|]. right. exists evs.
    by rewrite T', T, <- app_assoc. }
  destruct r as [i|p q reference]; cbn [serve].
  - unfold execute. apply post_bind, post_try, post_bind. eapply post_weaken; [apply reserve_root_post|].
    intros [[]|e] s1 Hs1; unfold ret at 1, post at 1; cbn [fst snd].
    + exact (Hd _ _ eq_refl Hs1).
    + eexists. split; [done|]. by eapply Hr.
    + eexists. split; [done|]. by eapply Hr.
  - unfold advance. apply post_bind, post_try, post_bind. eapply post_weaken; [apply reserve_successor_post|].
    intros [[]|e] s1 Hs1; unfold ret at 1, post at 1; cbn [fst snd].
    + exact (Hd _ _ eq_refl Hs1).
    + eexists. split; [done|]. by eapply Hr.
Qed.

(** C8: whatever the ports answer or raise, [execute] and [advance] answer a result
    and refine the abstract protocol: without a usable reservation they refuse; a
    reservation needs an admitted intent and generation headroom, or a retained confirmation of the
    immediate predecessor; then the effects are a transcript of the protocol - a
    dispatch only after a complete observation of the expected state and an
    acknowledged claim, of the pinned statement bound to the expected generation,
    once, and a settlement conservative in what happened - and the result is the
    one the transcript licenses. *)
Theorem adapter_refines r s :
  ∃ res_ s', serve r s = (Ok res_, s') ∧ refined r s s' res_.
Proof.
  pose proof (serve_post r s) as Hp. unfold post in Hp. destruct (serve r s) as [x s'].
  cbn [fst snd] in Hp. destruct Hp as (res_ & -> & Hp). eauto.
Qed.

(** a confirmed result is earned: this very call reserved the intent, observed the
    complete expected schema and state, claimed the dispatch, sent the one pinned
    update, was told of exactly one changed row, observed the complete pinned schema
    with the declared successor row, and had the confirmation settled inside the
    dispatch window; and it did nothing else. *)
Theorem confirmed_earned r s res_ s' :
  serve r s = (Ok res_, s') → r_status res_ = "confirmed" →
  let i := intent_of r in
  ∃ obs u reply_ readback,
    a_trace s' = a_trace s ++ EvReserved i :: obs ++ EvClaimed (i_key i) :: EvDispatch (i_key i) u :: EvReply reply_
                   :: readback ++ [EvSettled (i_key i) "confirmed"]
    ∧ licensed r ∧ observed obs (i_expected i, from_state i) ∧ update_of i u ∧ changes_of reply_ = Some 1
    ∧ observed readback (next_generation_of i, target i)
    ∧ res_ = mkResult "confirmed" "one_row_and_independent_readback" (Some (next_generation_of i)) (Some (target i))
               (Some (At (a_last_time s')))
    ∧ within i (a_last_time s') (dispatch_until (i_window i)) = true.
Proof.
  intros E Hst i. pose proof (serve_post r s) as Hp. unfold post in Hp. rewrite E in Hp.
  cbn [fst snd] in Hp. destruct Hp as (? & [= <-] & [[Hn _]|(evs & T & L & Hp)]); [congruence|]. fold i in T, Hp.
  inversion Hp; subst evs res_; try discriminate Hst. exists obs, u, r0, readback. done.
Qed.

Lemma reconcile_body_post i s :
  post (reconcile_body ports sha256 cfg i) s (λ r s', ∃ evs, a_trace s' = a_trace s ++ evs
    ∧ Forall is_observation evs
    ∧ ∀ res_, r = Ok res_ → ∃ gs, observed evs gs ∧ r_generation res_ = Some gs.1 ∧ r_state res_ = Some gs.2
        ∧ r_confirmed_at res_ = None
        ∧ (r_status res_ = "observed" ∧ gs = (next_generation_of i, target i)
           ∨ r_status res_ = "unknown" ∧ gs ≠ (next_generation_of i, target i))).
Proof.
  unfold reconcile_body.
  advance_by post_check; [|exists []; rewrite app_nil_r; split_and!; [congruence|done|done]].
  advance_by (post_world (dj_get (i_key i) r)); [|exists []; rewrite app_nil_r; split_and!; [congruence|done|done]].
  advance_by post_refuse; [|exists []; rewrite app_nil_r; split_and!; [congruence|done|done]].
  advance_by post_check; [|exists []; rewrite app_nil_r; split_and!; [congruence|done|done]].
  advance_by (post_world (dj_claim_reconcile (i_key i) r)); [|exists []; rewrite app_nil_r; split_and!; [congruence|done|done]].
  advance_by post_refuse; [|exists []; rewrite app_nil_r; split_and!; [congruence|done|done]].
  apply post_bind. eapply post_weaken; [apply post_observe|]. intros [gs|e] s6 (evs & T6 & _ & F & Ho).
  - unfold ret, post. cbn [fst snd]. exists evs. split_and!; [congruence|done|]. intros res_ [= <-].
    exists gs. split; [by apply Ho|]. destruct (bool_decide_reflect (gs = (next_generation_of i, target i))); simpl; auto 10.
  - exists evs. split_and!; [congruence|done|done].
Qed.

(** a reconciliation only looks: whatever the ports do it answers a result, sends no
    update, claims, reserves and settles nothing; it never reports a confirmation,
    and what it reports observed is a complete observation of the pinned schema with
    that very control row. *)
Theorem reconcile_observes i s :
  ∃ res_ s' evs, reconcile ports sha256 cfg i s = (Ok res_, s') ∧ a_trace s' = a_trace s ++ evs
  ∧ Forall is_observation evs ∧ r_confirmed_at res_ = None
  ∧ (r_status res_ = "unknown" ∨ r_status res_ = "observed" ∧ observed evs (next_generation_of i, target i)
       ∧ r_generation res_ = Some (next_generation_of i) ∧ r_state res_ = Some (target i)).
Proof.
  unfold reconcile, try. pose proof (reconcile_body_post i s) as Hp. unfold post in Hp.
  destruct (reconcile_body ports sha256 cfg i s) as [[res_|e] s']; simpl in Hp; destruct Hp as (evs & T & F & Ho).
  - destruct (Ho res_ eq_refl) as (gs & Hobs & Hg & Hs & Hc & [[Hst ->]|[Hst _]]); exists res_, s', evs; (split_and!; [done..|]); [by right|by left].
  - exists (plain_result "unknown" "reconciliation_unconfirmed"), s', evs. split_and!; [done..|]. by left.
Qed.
End Protocol.
