(* ===== verification/D1Campaign.v ===== *)
(** A campaign: any number of adapter instances - restarts, several operators, any
    order of calls - over one journal. The client theorem is proved against the laws
    of a journal; the SQLite journal discharges them. *)
From S2P Require Import Prelude Json JsonParse Oracle Control D1Port D1Journal D1JournalFacts D1Adapter D1AdapterFacts D1Protocol.

(** ** The interface *)

Definition claimed_by (k : string) (r : res bool) : list string := match r with Ok true => [k] | _ => [] end.

Section Laws.
Context {W : Type} (inv : W → Prop) (granted : W → list string).

(** [m] keeps the invariant and forgets no granted claim. *)
Definition keeps {T} (m : M W T) : Prop := ∀ w, inv w → inv (m w).2 ∧ granted w ⊆+ granted (m w).2.

(** What a durable journal promises of its world: [granted] are the claims on record,
    and an acknowledged claim is one more. *)
Class D1JournalLaws `{D1Journal W} : Prop := {
  law_latch i t : keeps (dj_latch i t);
  law_advance p q c t : keeps (dj_advance p q c t);
  law_get k t : keeps (dj_get k t);
  law_spend_read k t : keeps (dj_spend_read k t);
  law_claim_reconcile k t : keeps (dj_claim_reconcile k t);
  law_settle k p t : keeps (dj_settle k p t);
  law_claim_dispatch k t w : inv w →
    let (r, w') := dj_claim_dispatch k t w in inv w' ∧ claimed_by k r ++ granted w ⊆+ granted w';
}.

(** Ports outside the journal: whatever they do, they do not touch it. *)
Record PortsKeep (ports : Ports W) : Prop := {
  keep_now : keeps (p_now ports);
  keep_read_bytes n : keeps (p_read_bytes ports n);
  keep_recheck : keeps (p_recheck ports);
  keep_read q t : keeps (p_read ports q t);
  keep_dispatch u t : keeps (p_dispatch ports u t);
  keep_confirmation c t : keeps (p_confirmation ports c t);
}.
End Laws.

(** ** The client *)

Definition claims (evs : list event) : list string := omap (λ e, match e with EvClaimed k => Some k | _ => None end) evs.
Definition dispatches (evs : list event) : list string :=
  omap (λ e, match e with EvDispatch k _ => Some k | _ => None end) evs.

(** One use of an instance: made with [cfg], its clock last seen at [last]. *)
Inductive action := Serve (r : request) | Reconcile (i : Intent).
Record session := mkSession { ss_config : Config; ss_last_time : Z; ss_action : action }.

Section Sessions.
Context {W : Type} `{D1Journal W} (ports : Ports W) (sha256 : string → string).

Definition run_action (cfg : Config) (a : action) : M (AState W) Result :=
  match a with
  | Serve r => serve ports sha256 cfg r
  | Reconcile i => reconcile ports sha256 cfg i
  end.
Definition run_session (w : W) (n : session) : AState W :=
  (run_action (ss_config n) (ss_action n) (mkAState w (ss_last_time n) false [])).2.
(** The world after all sessions, and every effect of theirs in order. *)
Fixpoint campaign (h : list session) (w : W) : W * list event :=
  match h with
  | [] => (w, [])
  | n :: h =>
      let s := run_session w n in
      let (w', evs) := campaign h (a_world s) in (w', a_trace s ++ evs)
  end.
End Sessions.

Lemma claims_app l1 l2 : claims (l1 ++ l2) = claims l1 ++ claims l2.
Proof. apply omap_app. Qed.
Lemma dispatches_app l1 l2 : dispatches (l1 ++ l2) = dispatches l1 ++ dispatches l2.
Proof. apply omap_app. Qed.
Lemma claims_cons e l : claims (e :: l) = match e with EvClaimed k => [k] | _ => [] end ++ claims l.
Proof. by destruct e. Qed.
Lemma dispatches_cons e l : dispatches (e :: l) = match e with EvDispatch k _ => [k] | _ => [] end ++ dispatches l.
Proof. by destruct e. Qed.

Section Client.
Context {W : Type} (inv : W → Prop) (granted : W → list string) `{!D1Journal W} `{!D1JournalLaws inv granted}.
Context (ports : Ports W) (sha256 : string → string) (Hports : PortsKeep inv granted ports).
Notation A := (M (AState W)).

(** [m] keeps the invariant, and every claim it emits is on record. *)
Definition recorded {T} (m : A T) : Prop := ∀ s, inv (a_world s) →
  inv (a_world (m s).2) ∧ ∃ evs, a_trace (m s).2 = a_trace s ++ evs ∧ claims evs ++ granted (a_world s) ⊆+ granted (a_world (m s).2).

Lemma recorded_then {T U} (m : A T) (f : AState W → A U) s r s1 :
  recorded m → m s = (r, s1) → (∀ x, recorded (f x)) → inv (a_world s) →
  inv (a_world (f s1 s1).2) ∧ ∃ evs, a_trace (f s1 s1).2 = a_trace s ++ evs
    ∧ claims evs ++ granted (a_world s) ⊆+ granted (a_world (f s1 s1).2).
Proof.
  intros Hm E Hf Hi. destruct (Hm s Hi) as (Hi1 & e1 & E1 & G1). rewrite E in *. simpl in *.
  destruct (Hf s1 s1 Hi1) as (Hi2 & e2 & E2 & G2). split; [done|]. exists (e1 ++ e2). split; [by rewrite E2, E1, app_assoc|].
  etransitivity; [|exact G2]. unfold claims. rewrite omap_app, (Permutation_app_comm (omap _ e1)), <- app_assoc.
  by apply submseteq_app.
Qed.
Lemma recorded_bind {T U} (m : A T) (f : T → A U) : recorded m → (∀ x, recorded (f x)) → recorded (bind m f).
Proof.
  intros Hm Hf s Hi. unfold bind. destruct (m s) as [[x|e] s1] eqn:E.
  - exact (recorded_then m (λ _, f x) s _ s1 Hm E (λ _, Hf x) Hi).
  - pose proof (Hm s Hi) as H0. by rewrite E in H0.
Qed.
Lemma recorded_try {T} (m : A T) (f : exn → A T) : recorded m → (∀ x, recorded (f x)) → recorded (try m f).
Proof.
  intros Hm Hf s Hi. unfold try. destruct (m s) as [[x|e] s1] eqn:E.
  - pose proof (Hm s Hi) as H0. by rewrite E in H0.
  - exact (recorded_then m (λ _, f e) s _ s1 Hm E (λ _, Hf e) Hi).
Qed.
Lemma recorded_still {T} (m : A T) :
  (∀ s, a_world (m s).2 = a_world s ∧ ∃ evs, a_trace (m s).2 = a_trace s ++ evs ∧ claims evs = []) → recorded m.
Proof.
  intros Hm s Hi. destruct (Hm s) as (E & evs & T1 & C). rewrite E. split; [done|]. exists evs. by rewrite C.
Qed.
Lemma recorded_silent {T} (m : A T) : (∀ s, a_world (m s).2 = a_world s ∧ a_trace (m s).2 = a_trace s) → recorded m.
Proof. intros Hm. apply recorded_still. intros s. destruct (Hm s) as [E T1]. split; [done|]. exists []. by rewrite app_nil_r. Qed.
Lemma recorded_lift {T} (x : res T) : recorded (lift x).
Proof. by apply recorded_silent. Qed.
Lemma recorded_ret {T} (x : T) : recorded (ret x).
Proof. by apply recorded_silent. Qed.
Lemma recorded_raise {T} (e : exn) : recorded (raise (A:=T) e).
Proof. by apply recorded_silent. Qed.
Lemma recorded_gets {T} (f : AState W → T) : recorded (gets f).
Proof. by apply recorded_silent. Qed.
Lemma recorded_set_last t : recorded (set_last (W:=W) t).
Proof. by apply recorded_silent. Qed.
Lemma recorded_set_claimed b : recorded (set_claimed (W:=W) b).
Proof. by apply recorded_silent. Qed.
Lemma recorded_emit e : claims [e] = [] → recorded (emit (W:=W) e).
Proof. intros He. apply recorded_still. intros s. split; [done|]. by exists [e]. Qed.
Lemma recorded_world {T} (m : M W T) : keeps inv granted m → recorded (on_world m).
Proof.
  intros Hm s Hi. unfold on_world. pose proof (Hm (a_world s) Hi) as Hk. destruct (m (a_world s)) as [r w]. simpl in *.
  destruct Hk as [Hi' Hg]. split; [done|]. exists []. by rewrite app_nil_r.
Qed.

Create HintDb campaign discriminated.
#[local] Hint Resolve recorded_bind recorded_try recorded_lift recorded_ret recorded_raise recorded_gets recorded_set_last
  recorded_set_claimed recorded_world : campaign.
#[local] Hint Resolve law_latch law_advance law_get law_spend_read law_claim_reconcile law_settle : campaign.
#[local] Hint Resolve keep_now keep_read_bytes keep_recheck keep_read keep_dispatch keep_confirmation : campaign.
#[local] Hint Extern 1 (recorded (refuse _ _)) => apply recorded_lift : campaign.
#[local] Hint Extern 1 (recorded (emit _)) => apply recorded_emit; reflexivity : campaign.
#[local] Hint Extern 2 (recorded (match ?x with _ => _ end)) => destruct x : campaign.

Lemma recorded_read_files names : recorded (read_files ports names).
Proof. induction names; simpl; auto 10 with campaign. Qed.
#[local] Hint Resolve recorded_read_files : campaign.

(** The acknowledged claim and its event. *)
Lemma recorded_claim k t :
  recorded (let* claimed := on_world (dj_claim_dispatch k t) in
            refuse (negb claimed) "dispatch_claim_unconfirmed" ;* emit (EvClaimed k)).
Proof.
  intros s Hi. unfold bind, on_world, refuse, lift, emit, modify.
  pose proof (law_claim_dispatch inv granted k t (a_world s) Hi) as Hl.
  destruct (dj_claim_dispatch k t (a_world s)) as [[[]|e] w]; simpl in *; destruct Hl as [Hi' Hg].
  - split; [done|]. by exists [EvClaimed k].
  - split; [done|]. exists []. by rewrite app_nil_r.
  - split; [done|]. exists []. by rewrite app_nil_r.
Qed.
#[local] Hint Resolve recorded_claim : campaign.

Variable cfg : Config.
Lemma recorded_source_files : recorded (source_files ports sha256 cfg).
Proof. unfold source_files, verify_source. auto 20 with campaign. Qed.
#[local] Hint Resolve recorded_source_files : campaign.
Lemma recorded_check i b : recorded (check ports sha256 cfg i b).
Proof. unfold check. auto 30 with campaign. Qed.
#[local] Hint Resolve recorded_check : campaign.
Lemma recorded_observe i b : recorded (observe ports sha256 cfg i b).
Proof. unfold observe, observe_one. auto 60 with campaign. Qed.
#[local] Hint Resolve recorded_observe : campaign.
Lemma recorded_settle k p e : recorded (settle k p e).
Proof. unfold settle. auto 10 with campaign. Qed.
#[local] Hint Resolve recorded_settle : campaign.
Lemma recorded_before_dispatch i : recorded (before_dispatch ports sha256 cfg i).
Proof. unfold before_dispatch. auto 30 with campaign. Qed.
Lemma recorded_send i : recorded (send ports sha256 cfg i).
Proof. unfold send. auto 30 with campaign. Qed.
Lemma recorded_after_dispatch i r : recorded (after_dispatch ports sha256 cfg i r).
Proof. unfold after_dispatch. destruct (changes_of r) as [[|n|n]|]; auto 30 with campaign. Qed.
Lemma recorded_on_failure i : recorded (on_failure ports sha256 cfg i).
Proof. unfold on_failure. auto 30 with campaign. Qed.
#[local] Hint Resolve recorded_before_dispatch recorded_send recorded_after_dispatch recorded_on_failure : campaign.
Lemma recorded_dispatch_reserved i : recorded (dispatch_reserved ports sha256 cfg i).
Proof. unfold dispatch_reserved. auto 30 with campaign. Qed.
#[local] Hint Resolve recorded_dispatch_reserved : campaign.
Lemma recorded_reserve_root i : recorded (reserve_root ports sha256 cfg i).
Proof. unfold reserve_root. auto 30 with campaign. Qed.
Lemma recorded_reserve_successor p q c : recorded (reserve_successor ports sha256 cfg p q c).
Proof. unfold reserve_successor. auto 60 with campaign. Qed.
#[local] Hint Resolve recorded_reserve_root recorded_reserve_successor : campaign.
Lemma recorded_serve r : recorded (serve ports sha256 cfg r).
Proof. destruct r; simpl; unfold execute, advance; auto 30 with campaign. Qed.
Lemma recorded_reconcile i : recorded (reconcile ports sha256 cfg i).
Proof. unfold reconcile, reconcile_body. auto 60 with campaign. Qed.

(** ** Dispatches follow claims *)

Lemma observations_none evs : Forall is_observation evs → dispatches evs = [] ∧ claims evs = [].
Proof. induction 1 as [|[] evs H _ [IH1 IH2]]; simpl in *; try done. Qed.
Lemma settlements_none evs : Forall is_settlement evs → dispatches evs = [] ∧ claims evs = [].
Proof. induction 1 as [|[] evs H _ [IH1 IH2]]; simpl in *; try done. Qed.
Lemma settled_none i phase evs : settled i phase evs → dispatches evs = [] ∧ claims evs = [].
Proof. by intros [-> | ->]. Qed.
Lemma observed_none evs gs : observed sha256 cfg evs gs → dispatches evs = [] ∧ claims evs = [].
Proof. by intros (q1 & q2 & c & d & m & -> & _). Qed.

Lemma protocol_dispatches i now evs res_ :
  protocol sha256 cfg i now evs res_ → dispatches evs ⊆+ claims evs.
Proof.
  destruct 1 as [obs tail Ho Ht|obs tail Ho Ht|obs tail Ho Ht|obs u tail Ho Hu Ht|obs u r rest tail Ho Hu Hr Ht|obs u r Ho Hu Hc
    |obs u r rb Ho Hu Hc Hrb Hin];
    repeat match goal with
    | H : settled _ _ _ |- _ => apply settled_none in H as [? ?]
    | H : observed _ _ _ _ |- _ => apply observed_none in H as [? ?]
    | H : Forall is_observation _ |- _ => apply observations_none in H as [? ?]
    | H : Forall is_settlement _ |- _ => apply settlements_none in H as [? ?]
    end;
    rewrite ?dispatches_app, ?claims_app, ?dispatches_cons, ?claims_cons, ?dispatches_app, ?claims_app;
    repeat match goal with H : _ = [] |- _ => rewrite H; clear H end; simpl; try done.
  all: by apply submseteq_nil_l.
Qed.

Lemma serve_dispatches r s :
  ∃ evs, a_trace (serve ports sha256 cfg r s).2 = a_trace s ++ evs ∧ dispatches evs ⊆+ claims evs.
Proof.
  pose proof (serve_post ports sha256 cfg r s) as (res_ & _ & [[_ [T1|[T1 _]]]|(evs & T1 & _ & Hp)]).
  - exists []. by rewrite app_nil_r.
  - by eexists.
  - eexists. split; [exact T1|]. simpl. by eapply protocol_dispatches.
Qed.
Lemma reconcile_dispatches i s :
  ∃ evs, a_trace (reconcile ports sha256 cfg i s).2 = a_trace s ++ evs ∧ dispatches evs ⊆+ claims evs.
Proof.
  pose proof (reconcile_body_post ports sha256 cfg i s) as Hp. unfold reconcile, try, post in *.
  destruct (reconcile_body ports sha256 cfg i s) as [[res_|e] s']; simpl in *;
    destruct Hp as (evs & T1 & F & _); exists evs; apply observations_none in F as [-> ->]; auto.
Qed.

(** ** Whole campaigns *)

Lemma run_action_recorded a s :
  inv (a_world s) → let s' := (run_action ports sha256 cfg a s).2 in
  inv (a_world s') ∧ ∃ evs, a_trace s' = a_trace s ++ evs ∧ dispatches evs ++ granted (a_world s) ⊆+ granted (a_world s').
Proof.
  assert (∀ m : A Result, recorded m → (∃ evs, a_trace (m s).2 = a_trace s ++ evs ∧ dispatches evs ⊆+ claims evs) →
    inv (a_world s) → inv (a_world (m s).2) ∧ ∃ evs, a_trace (m s).2 = a_trace s ++ evs
      ∧ dispatches evs ++ granted (a_world s) ⊆+ granted (a_world (m s).2)) as Hm.
  { intros m Hr (evs & T1 & Hd) Hi. destruct (Hr s Hi) as (Hi' & evs' & T2 & G). split; [done|]. exists evs.
    split; [done|]. rewrite T2 in T1. apply app_inv_head in T1 as ->. etransitivity; [|exact G]. by apply submseteq_app. }
  destruct a; simpl; apply Hm.
  - apply recorded_serve.
  - apply serve_dispatches.
  - apply recorded_reconcile.
  - apply reconcile_dispatches.
Qed.
End Client.

Section Campaign.
Context {W : Type} (inv : W → Prop) (granted : W → list string) `{!D1Journal W} `{!D1JournalLaws inv granted}.
Context (ports : Ports W) (sha256 : string → string) (Hports : PortsKeep inv granted ports).

Lemma campaign_recorded h : ∀ w, inv w →
  let (w', evs) := campaign ports sha256 h w in inv w' ∧ dispatches evs ++ granted w ⊆+ granted w'.
Proof.
  induction h as [|n h IH]; intros w Hi; [done|]. cbn [campaign].
  destruct (run_action_recorded inv granted ports sha256 Hports (ss_config n) (ss_action n)
    (mkAState w (ss_last_time n) false []) Hi) as (Hi1 & evs1 & T1 & G1).
  fold (run_session ports sha256 w n) in *. simpl in T1, G1. rewrite T1. specialize (IH _ Hi1).
  destruct (campaign ports sha256 h (a_world (run_session ports sha256 w n))) as [w' evs2]. destruct IH as [Hi2 G2].
  split; [done|]. rewrite dispatches_app, (Permutation_app_comm (dispatches evs1)), <- app_assoc.
  etransitivity; [|exact G2]. by apply submseteq_app.
Qed.
End Campaign.

(** ** The SQLite journal keeps the laws *)

(** An operation of the world outside the journal's file. *)
Definition outside {C T} (m : M C T) : M (State C) T := λ s,
  let (r, c) := m (s_clock s) in (r, mkState (s_file s) (s_calls s) c).
Definition outside_ports {C} (p : Ports C) : Ports (State C) := {|
  p_now := outside (p_now p);
  p_read_bytes n := outside (p_read_bytes p n);
  p_recheck := outside (p_recheck p);
  p_read q t := outside (p_read p q t);
  p_dispatch u t := outside (p_dispatch p u t);
  p_confirmation c t := outside (p_confirmation p c t);
|}.

Section Sqlite.
Context {C : Type} (clock : M C stamp) (fate : nat → io) (target_id packet : string).
#[local] Instance journal : D1Journal (State C) := d1_sqlite_journal clock fate target_id packet.

Definition sqlite_inv (s : State C) : Prop := ∃ d, s_file s = Provisioned d ∧ sound target_id d.
Definition sqlite_granted (s : State C) : list string :=
  match s_file s with Provisioned d => dispatched_keys (entries d) | _ => [] end.

Lemma call_recorded c t s : sqlite_inv s →
  let (r, s') := run_call clock fate target_id packet c t s in
  sqlite_inv s' ∧ match r with Ok a => claims_of c a | Err _ => [] end ++ sqlite_granted s ⊆+ sqlite_granted s'.
Proof.
  intros (d & Hf & Hs). destruct (run_call clock fate target_id packet c t s) as [r s'] eqn:E.
  destruct (run_call_sound _ _ _ _ _ _ _ _ _ _ E Hf Hs) as (d' & Hf' & Hs' & Hd). unfold sqlite_granted. rewrite Hf, Hf'.
  split; [by exists d'|done].
Qed.
Lemma call_keeps c t : keeps sqlite_inv sqlite_granted (run_call clock fate target_id packet c t).
Proof.
  intros s Hi. pose proof (call_recorded c t s Hi) as Hc. destruct (run_call clock fate target_id packet c t s) as [r s'].
  destruct Hc as [Hi' Hg]. split; [done|]. etransitivity; [|exact Hg]. by apply submseteq_inserts_l.
Qed.
Lemma discard_keeps {T} (m : M (State C) T) f :
  keeps sqlite_inv sqlite_granted (discard m f) → keeps sqlite_inv sqlite_granted m.
Proof. intros Hk s Hi. specialize (Hk s Hi). unfold discard, bind in Hk. by destruct (m s) as [[]]. Qed.

#[local] Instance sqlite_laws : D1JournalLaws sqlite_inv sqlite_granted.
Proof.
  split.
  - intros i t. exact (call_keeps (CLatch i) t).
  - intros p q c t. exact (call_keeps (CAdvance p q c) t).
  - intros k t. exact (discard_keeps _ _ (call_keeps (CGet k) t)).
  - intros k t. exact (call_keeps (CSpendRead k) t).
  - intros k t. exact (call_keeps (CClaimReconcile k) t).
  - intros k p t. exact (discard_keeps _ _ (call_keeps (CSettle k p) t)).
  - intros k t s Hi. pose proof (call_recorded (CClaimDispatch k) t s Hi) as Hc. simpl in *.
    destruct (claim_dispatch clock fate target_id packet k t s) as [[[]|e] s']; done.
Qed.

Lemma outside_keeps {T} (m : M C T) : keeps sqlite_inv sqlite_granted (outside m).
Proof. intros s Hi. unfold outside. by destruct (m (s_clock s)). Qed.
Lemma outside_ports_keep (p : Ports C) : PortsKeep sqlite_inv sqlite_granted (outside_ports p).
Proof. split; intros; apply outside_keeps. Qed.

Lemma campaign_within sha256 (p : Ports C) h s :
  provisioned target_id packet s →
  let (s', evs) := campaign (outside_ports p) sha256 h s in
  NoDup (dispatches evs)
  ∧ (dispatches evs ≠ [] → ∃ r l d, s_file s' = Provisioned d ∧ chain target_id r l d
      ∧ dispatches evs ⊆ map i_key (r :: l) ∧ Z.of_nat (length (dispatches evs)) <= i_transition_limit r <= 3).
Proof.
  intros Hp. pose proof (campaign_recorded sqlite_inv sqlite_granted (outside_ports p) sha256 (outside_ports_keep p) h s) as Hc.
  destruct (campaign (outside_ports p) sha256 h s) as [s' evs].
  destruct Hc as [(d & Hf & _ & Hch & _) Hg]; [eexists; split; [exact Hp|apply sound_empty]|].
  unfold sqlite_granted in Hg. rewrite Hf in Hg.
  destruct (dispatched_within target_id d (dispatches evs) Hch) as [Hn Hl].
  { etransitivity; [|exact Hg]. by apply submseteq_inserts_r. }
  split; [done|]. intros Hne. destruct (Hl Hne) as (r & l & H1 & H2 & H3). by exists r, l, d.
Qed.

(** C2: at-most-once, end to end: over every campaign - any number of adapter
    instances with any configurations, restarted and interleaved call by call,
    executing, advancing and reconciling any intents, over ports and connections
    that fail or lie in any way - the updates dispatched are for distinct intents of
    the journal's one chain, so no more than its root's transition limit, three. *)
Theorem campaign_dispatches sha256 (p : Ports C) h s :
  provisioned target_id packet s →
  let (s', evs) := campaign (outside_ports p) sha256 h s in
  NoDup (dispatches evs)
  ∧ (dispatches evs ≠ [] → ∃ r l d, s_file s' = Provisioned d ∧ chain target_id r l d
      ∧ dispatches evs ⊆ map i_key (r :: l) ∧ Z.of_nat (length (dispatches evs)) <= i_transition_limit r <= 3).
Proof. apply campaign_within. Qed.
End Sqlite.
