(* ===== verification/D1Target.v ===== *)
(** The adapter over an honest target: a provider that runs the fixed statement on the
    control table at most once per dispatch - perhaps losing its answer - and an
    observer that reads that table. What results mean for the table itself. *)
From S2P Require Import Prelude Json JsonParse Oracle Control D1Port D1Journal D1JournalFacts D1Adapter D1AdapterFacts D1Protocol D1Campaign.

(** ** The target *)

Section Target.
Context {W : Type} (table : W → list ControlRow) (real_text : Z → string).

(** One fixed update on a table. *)
Definition fixed (u : FixedUpdate) (t : list ControlRow) : res (Z * list ControlRow) :=
  run_update real_text (fu_sql u) (CText (fu_expected_generation u)) t.

(** How the table moves along a sequence of effects. *)
Inductive moves : list event → list ControlRow → list ControlRow → Prop :=
| MNil t : moves [] t t
| MReserved i evs t t' : moves evs t t' → moves (EvReserved i :: evs) t t'
| MRead sql evs t t' : moves evs t t' → moves (EvRead sql :: evs) t t'
| MRows sql rows evs t t' :
    (sql = READBACK_SQL → cr_complete rows = true → cr_rows rows = readback real_text t) →
    moves evs t t' → moves (EvRows sql rows :: evs) t t'
| MClaimed k evs t t' : moves evs t t' → moves (EvClaimed k :: evs) t t'
| MSettled k p evs t t' : moves evs t t' → moves (EvSettled k p :: evs) t t'
| MLost k u evs t t1 t' :
    t1 = t ∨ (∃ n, fixed u t = Ok (n, t1)) → moves evs t1 t' → moves (EvDispatch k u :: evs) t t'
| MReplied k u r n evs t t1 t' :
    fixed u t = Ok (n, t1) → changes_of r = Some n → moves evs t1 t' →
    moves (EvDispatch k u :: EvReply r :: evs) t t'.

Lemma moves_app e1 e2 t t1 t2 : moves e1 t t1 → moves e2 t1 t2 → moves (e1 ++ e2) t t2.
Proof. induction 1; intros; simpl; eauto using moves. Qed.

(** Observations and settlements leave the table alone. *)
Lemma moves_quiet evs rest t t' :
  Forall is_settlement evs → moves (evs ++ rest) t t' → moves evs t t ∧ moves rest t t'.
Proof.
  induction 1 as [|e evs He _ IH]; simpl; intros Hm; [split; [constructor|done]|].
  destruct e; try done; inversion Hm; subst; edestruct IH; eauto using moves.
Qed.

Definition still {T} (m : M W T) : Prop := ∀ w, table (m w).2 = table w.

Context `{!D1Journal W} (ports : Ports W) (sha256 : string → string).

(** The documented behaviour of the provider and the observer; only a dispatch
    changes the table; and the pins are of the reviewed statements. *)
Record Honest : Prop := {
  h_close text : pinned_text sha256 "close.sql" text → text = CLOSE_SQL;
  h_reopen text : pinned_text sha256 "reopen.sql" text → text = REOPEN_SQL;
  h_readback text : pinned_text sha256 "readback.sql" text → text = READBACK_SQL;
  h_dispatch u t w :
    let (r, w') := p_dispatch ports u t w in
    match r with
    | Ok answer => ∃ n, fixed u (table w) = Ok (n, table w') ∧ changes_of answer = Some n
    | Err _ => table w' = table w ∨ ∃ n, fixed u (table w) = Ok (n, table w')
    end;
  h_read sql t w :
    let (r, w') := p_read ports sql t w in
    table w' = table w ∧
    match r with
    | Ok rows => sql = READBACK_SQL → cr_complete rows = true → cr_rows rows = readback real_text (table w)
    | Err _ => True
    end;
  h_now : still (p_now ports);
  h_read_bytes n : still (p_read_bytes ports n);
  h_recheck : still (p_recheck ports);
  h_confirmation c t : still (p_confirmation ports c t);
  h_latch i t : still (dj_latch i t);
  h_advance p q c t : still (dj_advance p q c t);
  h_get k t : still (dj_get k t);
  h_spend_read k t : still (dj_spend_read k t);
  h_claim_dispatch k t : still (dj_claim_dispatch k t);
  h_claim_reconcile k t : still (dj_claim_reconcile k t);
  h_settle k p t : still (dj_settle k p t);
}.
Context (honest : Honest) (cfg : Config).
Notation A := (M (AState W)).

(** ** Every operation moves the table along its effects *)

Definition moving {T} (m : A T) : Prop := ∀ s, ∃ evs,
  a_trace (m s).2 = a_trace s ++ evs ∧ moves evs (table (a_world s)) (table (a_world (m s).2)).

Lemma moving_then {T U} (m : A T) (f : AState W → A U) s r s1 :
  moving m → m s = (r, s1) → (∀ x, moving (f x)) →
  ∃ evs, a_trace (f s1 s1).2 = a_trace s ++ evs ∧ moves evs (table (a_world s)) (table (a_world (f s1 s1).2)).
Proof.
  intros Hm E Hf. destruct (Hm s) as (e1 & E1 & M1). rewrite E in *. simpl in *.
  destruct (Hf s1 s1) as (e2 & E2 & M2). exists (e1 ++ e2). split; [by rewrite E2, E1, app_assoc|]. by eapply moves_app.
Qed.
Lemma moving_bind {T U} (m : A T) (f : T → A U) : moving m → (∀ x, moving (f x)) → moving (bind m f).
Proof.
  intros Hm Hf s. unfold bind. destruct (m s) as [[x|e] s1] eqn:E.
  - exact (moving_then m (λ _, f x) s _ s1 Hm E (λ _, Hf x)).
  - pose proof (Hm s) as H0. by rewrite E in H0.
Qed.
Lemma moving_try {T} (m : A T) (f : exn → A T) : moving m → (∀ x, moving (f x)) → moving (try m f).
Proof.
  intros Hm Hf s. unfold try. destruct (m s) as [[x|e] s1] eqn:E.
  - pose proof (Hm s) as H0. by rewrite E in H0.
  - exact (moving_then m (λ _, f e) s _ s1 Hm E (λ _, Hf e)).
Qed.
Lemma moving_silent {T} (m : A T) : (∀ s, a_world (m s).2 = a_world s ∧ a_trace (m s).2 = a_trace s) → moving m.
Proof. intros Hm s. destruct (Hm s) as [E T1]. exists []. rewrite E, app_nil_r. split; [done|constructor]. Qed.
Lemma moving_lift {T} (x : res T) : moving (lift x).
Proof. by apply moving_silent. Qed.
Lemma moving_ret {T} (x : T) : moving (ret x).
Proof. by apply moving_silent. Qed.
Lemma moving_raise {T} (e : exn) : moving (raise (A:=T) e).
Proof. by apply moving_silent. Qed.
Lemma moving_gets {T} (f : AState W → T) : moving (gets f).
Proof. by apply moving_silent. Qed.
Lemma moving_set_last t : moving (set_last (W:=W) t).
Proof. by apply moving_silent. Qed.
Lemma moving_set_claimed b : moving (set_claimed (W:=W) b).
Proof. by apply moving_silent. Qed.
Lemma moving_emit e : (∀ t, moves [e] t t) → moving (emit (W:=W) e).
Proof. intros He s. by exists [e]. Qed.
Lemma moving_world {T} (m : M W T) : still m → moving (on_world m).
Proof.
  intros Hm s. unfold on_world. specialize (Hm (a_world s)). destruct (m (a_world s)) as [r w]. simpl in *.
  exists []. rewrite app_nil_r, Hm. split; [done|constructor].
Qed.

(** A query and its answer; a dispatch and its answer. *)
Lemma moving_read {T} sql t (k : CompleteRows → A T) :
  (∀ rows, moving (k rows)) →
  moving (let* rows := on_world (p_read ports sql t) in emit (EvRows sql rows) ;* k rows).
Proof.
  intros Hk s. unfold bind, on_world, emit, modify.
  pose proof (h_read honest sql t (a_world s)) as Hr. destruct (p_read ports sql t (a_world s)) as [[rows|e] w]; simpl in *;
    destruct Hr as [Ht Hr].
  - destruct (Hk rows (mkAState w (a_last_time s) (a_claimed s) (a_trace s ++ [EvRows sql rows]))) as (evs & E & Hm).
    simpl in *. exists (EvRows sql rows :: evs). rewrite E, <- app_assoc. split; [done|]. rewrite Ht in Hm. by constructor.
  - exists []. rewrite app_nil_r, Ht. split; [done|constructor].
Qed.
Lemma moving_dispatch {T} key u t (k : reply → A T) :
  (∀ r, moving (k r)) →
  moving (emit (EvDispatch key u) ;* let* r := on_world (p_dispatch ports u t) in emit (EvReply r) ;* k r).
Proof.
  intros Hk s. unfold bind, on_world, emit, modify. cbn [a_world a_last_time a_claimed a_trace fst snd].
  pose proof (h_dispatch honest u t (a_world s)) as Hr. destruct (p_dispatch ports u t (a_world s)) as [[r|e] w]; simpl in *.
  - destruct Hr as (n & Hf & Hc).
    destruct (Hk r (mkAState w (a_last_time s) (a_claimed s) ((a_trace s ++ [EvDispatch key u]) ++ [EvReply r]))) as (evs & E & Hm).
    simpl in *. exists (EvDispatch key u :: EvReply r :: evs). split; [by rewrite E, <- !app_assoc|].
    exact (MReplied key u r n evs _ _ _ Hf Hc Hm).
  - exists [EvDispatch key u]. split; [done|]. by apply (MLost key u [] (table (a_world s)) (table w)); [|constructor].
Qed.

Create HintDb moving discriminated.
#[local] Hint Resolve moving_bind moving_try moving_lift moving_ret moving_raise moving_gets moving_set_last
  moving_set_claimed moving_world : moving.
#[local] Hint Resolve h_now h_read_bytes h_recheck h_confirmation h_latch h_advance h_get h_spend_read
  h_claim_dispatch h_claim_reconcile h_settle : moving.
#[local] Hint Resolve honest : moving.
#[local] Hint Extern 1 (moving (refuse _ _)) => apply moving_lift : moving.
#[local] Hint Extern 1 (moving (emit _)) => apply moving_emit; intros; constructor; constructor : moving.
#[local] Hint Extern 2 (moving (match ?x with _ => _ end)) => destruct x : moving.

Lemma moving_read_files names : moving (read_files ports names).
Proof. induction names; simpl; auto 10 with moving. Qed.
#[local] Hint Resolve moving_read_files : moving.
Lemma moving_source_files : moving (source_files ports sha256 cfg).
Proof. unfold source_files, verify_source. auto 20 with moving. Qed.
#[local] Hint Resolve moving_source_files : moving.
Lemma moving_check i b : moving (check ports sha256 cfg i b).
Proof. unfold check. auto 30 with moving. Qed.
#[local] Hint Resolve moving_check : moving.
Lemma moving_observe_one i b files n : moving (observe_one ports sha256 cfg i b files n).
Proof.
  unfold observe_one. do 5 (apply moving_bind; [auto with moving|intros ?]). apply moving_bind; [auto with moving|intros _].
  apply moving_read. auto 10 with moving.
Qed.
#[local] Hint Resolve moving_observe_one : moving.
Lemma moving_observe i b : moving (observe ports sha256 cfg i b).
Proof. unfold observe. auto 30 with moving. Qed.
#[local] Hint Resolve moving_observe : moving.
Lemma moving_settle k p e : moving (settle k p e).
Proof. unfold settle. auto 10 with moving. Qed.
#[local] Hint Resolve moving_settle : moving.
Lemma moving_before_dispatch i : moving (before_dispatch ports sha256 cfg i).
Proof. unfold before_dispatch. auto 30 with moving. Qed.
Lemma moving_send i : moving (send ports sha256 cfg i).
Proof.
  unfold send. do 4 (apply moving_bind; [auto with moving|intros ?]). apply moving_dispatch. auto 10 with moving.
Qed.
Lemma moving_after_dispatch i r : moving (after_dispatch ports sha256 cfg i r).
Proof. unfold after_dispatch. destruct (changes_of r) as [[|n|n]|]; auto 30 with moving. Qed.
Lemma moving_on_failure i : moving (on_failure ports sha256 cfg i).
Proof. unfold on_failure. auto 30 with moving. Qed.
#[local] Hint Resolve moving_before_dispatch moving_send moving_after_dispatch moving_on_failure : moving.
Lemma moving_dispatch_reserved i : moving (dispatch_reserved ports sha256 cfg i).
Proof. unfold dispatch_reserved. auto 30 with moving. Qed.
#[local] Hint Resolve moving_dispatch_reserved : moving.
Lemma moving_serve r : moving (serve ports sha256 cfg r).
Proof.
  assert (∀ i, moving (reserve_root ports sha256 cfg i)) by (intros i; unfold reserve_root; auto 30 with moving).
  assert (∀ p q c, moving (reserve_successor ports sha256 cfg p q c))
    by (intros p q c; unfold reserve_successor; auto 60 with moving).
  destruct r; simpl; unfold execute, advance; auto 30 with moving.
Qed.
Lemma moving_reconcile i : moving (reconcile ports sha256 cfg i).
Proof. unfold reconcile, reconcile_body. auto 60 with moving. Qed.

(** ** What the effects say of the table *)

Lemma observed_table obs gs rest t t' :
  observed sha256 cfg obs gs → moves (obs ++ rest) t t' →
  moves rest t t' ∧ ∃ g st, t = [control_at g st] ∧ gs = (str_of_int g, st) ∧ 1 <= g <= Control.MAX_GENERATION.
Proof.
  intros (q1 & q2 & control & schema & m & -> & Hq1 & _ & _ & _ & Hc) Hm.
  apply (h_readback honest) in Hq1 as ->. simpl in Hm.
  inversion Hm as [| |? ? ? ? Hm1| | | | |]; subst; clear Hm. inversion Hm1 as [| | |? ? ? ? ? Hrows Hm2| | | |]; subst; clear Hm1.
  inversion Hm2 as [| |? ? ? ? Hm3| | | | |]; subst; clear Hm2. inversion Hm3; subst; clear Hm3.
  split; [done|]. destruct gs as [g st]. apply validate_control_iff in Hc as [Hcomplete Hp].
  rewrite (Hrows eq_refl Hcomplete) in Hp. apply parse_readback_iff in Hp as (z & st' & -> & _ & Hz & [= -> ->]).
  by exists z, st'.
Qed.

(** The row of [i]'s starting point becomes its target. *)
Definition transition (i : Intent) (t t' : list ControlRow) : Prop :=
  ∃ g, i_expected i = str_of_int g ∧ 1 <= g < Control.MAX_GENERATION
    ∧ t = [control_at g (from_state i)] ∧ t' = [control_at (g + 1) (target i)].

Lemma admitted_intent i :
  intent_ok cfg i = Ok tt →
  (i_operation i = "close" ∨ i_operation i = "reopen")
  ∧ ∃ g, i_expected i = str_of_int g ∧ 1 <= g < Control.MAX_GENERATION.
Proof.
  unfold intent_ok. intros H0. inv_check. inv_bool. unfold str_in in *. inv_bool. split.
  - match goal with Ho : i_operation i ∈ _ |- _ => rewrite !elem_of_cons, elem_of_nil in Ho; naive_solver end.
  - match goal with Hg : D1Port.generation _ _ = _ |- _ => apply generation_iff, generation_text_iff in Hg as ([= <-] & g & Hg & Hr) end.
    exists g. simpl in Hr. split; [done|lia].
Qed.

Lemma fixed_update i u t n t1 :
  intent_ok cfg i = Ok tt → update_of sha256 i u → fixed u t = Ok (n, t1) →
  (n = 1 ∧ transition i t t1) ∨ (n = 0 ∧ t1 = t).
Proof.
  intros (Hop & g & Hg & Hr)%admitted_intent [Ht He]. unfold fixed. rewrite He, Hg. unfold Control.MAX_GENERATION in Hr.
  assert (run_update real_text (fu_sql u) (CText (str_of_int g)) t
    = update real_text (from_state i) (opposite (from_state i)) (CText (str_of_int g)) t) as ->.
  { unfold from_state. destruct Hop as [Ho|Ho]; rewrite Ho in *.
    - by rewrite (h_close honest _ Ht).
    - by rewrite (h_reopen honest _ Ht). }
  assert ((from_state i = "open" ∨ from_state i = "closed") ∧ opposite (from_state i) = target i) as [Hf Hopp]
    by (unfold from_state, target; destruct Hop as [-> | ->]; auto).
  rewrite update_cases, Hopp by (done || lia).
  destruct (bool_decide_reflect (t = [control_at g (from_state i)])) as [->|_]; intros [= <- <-]; [left|by right].
  split; [done|]. exists g. unfold Control.MAX_GENERATION. split_and!; done || lia.
Qed.

(** A transcript of the protocol on an honest target. *)
Lemma protocol_target i now evs res_ t t' :
  intent_ok cfg i = Ok tt → protocol sha256 cfg i now evs res_ → moves evs t t' →
  (t' = t ∨ transition i t t') ∧ (r_status res_ = "confirmed" → transition i t t')
  ∧ (r_status res_ = "refused" → t' = t).
Proof.
  intros Hi Hp Hm.
  assert (∀ obs rest, Forall is_observation obs → moves (obs ++ rest) t t' → moves rest t t') as Hobs.
  { intros obs rest Ho H1. apply moves_quiet in H1 as [_ H1]; [done|]. eapply Forall_impl; [exact Ho|]. by intros []. }
  assert (∀ evs, Forall is_settlement evs → ∀ t1, moves evs t1 t' → t' = t1) as Hquiet.
  { intros l Hl t1 H1. rewrite <- (app_nil_r l) in H1. apply moves_quiet in H1 as [_ H1]; [|done]. by inversion H1. }
  assert (∀ phase tail, settled i phase tail → Forall is_settlement tail) as Hset
    by (intros phase tail [-> | ->]; repeat constructor).
  destruct Hp as [obs tail Ho Ht|obs tail Ho Ht|obs tail Ho Ht|obs u tail Ho Hu Ht|obs u r rest tail Ho Hu Hr Ht
    |obs u r Ho Hu Hc|obs u r rb Ho Hu Hc Hrb Hin]; [apply Hobs in Hm; [|done]|apply (observed_table _ _ _ _ _ Ho) in Hm as [Hm _]..].
  - apply Hquiet in Hm as ->; [by split; [left|]|by eapply Hset].
  - apply Hquiet in Hm as ->; [by split; [left|]|by eapply Hset].
  - inversion Hm as [| | | |? ? ? ? Hm1| | |]; subst. apply Hquiet in Hm1 as ->; [by split; [left|]|by eapply Hset].
  - inversion Hm as [| | | |? ? ? ? Hm1| | |]; subst. inversion Hm1 as [| | | | | |? ? ? ? t1 ? Hd Hm2|]; subst.
    + apply Hquiet in Hm2 as ->; [|by eapply Hset]. split; [|by split].
      destruct Hd as [->|[n Hd]]; [by left|]. destruct (fixed_update i u t n t1 Hi Hu Hd) as [[_ Htr]|[_ ->]]; auto.
    + by destruct Ht as [Ht|Ht].
  - inversion Hm as [| | | |? ? ? ? Hm1| | |]; subst.
    inversion Hm1 as [| | | | | |? ? ? ? t1 ? Hd Hm2|? ? ? n ? ? t1 ? Hd Hcr Hm2]; subst; [by inversion Hm2|].
    apply Hquiet in Hm2 as ->; [|apply Forall_app; split; [done|by eapply Hset]]. split; [|by split].
    destruct (fixed_update i u t n t1 Hi Hu Hd) as [[_ Htr]|[_ ->]]; auto.
  - inversion Hm as [| | | |? ? ? ? Hm1| | |]; subst.
    inversion Hm1 as [| | | | | |? ? ? ? t1 ? Hd Hm2|? ? ? n ? ? t1 ? Hd Hcr Hm2]; subst; [by inversion Hm2|].
    apply Hquiet in Hm2 as ->; [|repeat constructor]. assert (n = 0) as -> by congruence.
    destruct (fixed_update i u t 0 t1 Hi Hu Hd) as [[? _]|[_ ->]]; [done|by split; [left|]].
  - inversion Hm as [| | | |? ? ? ? Hm1| | |]; subst.
    inversion Hm1 as [| | | | | |? ? ? ? t1 ? Hd Hm2|? ? ? n ? ? t1 ? Hd Hcr Hm2]; subst; [by inversion Hm2|].
    assert (n = 1) as -> by congruence.
    destruct (fixed_update i u t 1 t1 Hi Hu Hd) as [[_ Htr]|[? _]]; [|done].
    apply (observed_table _ _ _ _ _ Hrb) in Hm2 as [Hm2 _]. apply Hquiet in Hm2 as ->; [|repeat constructor].
    split_and!; [by right|done|done].
Qed.

(** C1: what a result means for the control table of an honest target, whatever the
    clock, journal and connections do: the table makes the intent's one declared
    transition or does not change; a confirmed result means it made it, a refused
    one that nothing changed, and only an unknown one leaves the question open. *)
Theorem target_sound r s res_ s' :
  serve ports sha256 cfg r s = (Ok res_, s') →
  let i := intent_of r in let t := table (a_world s) in let t' := table (a_world s') in
  (t' = t ∨ transition i t t') ∧ (r_status res_ = "confirmed" → transition i t t')
  ∧ (r_status res_ = "refused" → t' = t).
Proof.
  intros E i t t'. pose proof (serve_post ports sha256 cfg r s) as Hp. pose proof (moving_serve r s) as (evs & T1 & Hm).
  unfold post in Hp. rewrite E in *. cbn [fst snd] in *. destruct Hp as (? & [= <-] & [[Hst Hres]|(evs' & T2 & [Hi _] & Hp)]).
  - assert (t' = t) as ->; [|split_and!; [by left|congruence|done]].
    destruct Hres as [T2|[T2 _]]; rewrite T2 in T1.
    + rewrite <- (app_nil_r (a_trace s)) in T1 at 1. apply app_inv_head in T1 as <-. by inversion Hm.
    + apply app_inv_head in T1 as <-. inversion Hm as [|? ? ? ? Hm1| | | | | |]; subst. by inversion Hm1.
  - rewrite T2 in T1. apply app_inv_head in T1 as <-. inversion Hm as [|? ? ? ? Hm1| | | | | |]; subst.
    by eapply protocol_target.
Qed.
End Target.

(** ** Campaigns *)

(** Any update - of any text, bound to anything - advances one well-formed row by one
    generation, or leaves it. *)
Lemma fixed_row real_text u g st n t1 :
  fixed real_text u [control_at g st] = Ok (n, t1) →
  t1 = [control_at g st] ∨ ∃ st', t1 = [control_at (g + 1) st'].
Proof.
  assert (∀ from to, update real_text from to (CText (fu_expected_generation u)) [control_at g st] = Ok (n, t1) →
    t1 = [control_at g st] ∨ ∃ st', t1 = [control_at (g + 1) st']) as Hup.
  { intros from to. unfold update. cbn [forallb length map]. destruct (matches _ _ _ _ _); simpl; [|by intros [= <- <-]; left].
    destruct (transition_allowed _ _ _); simpl; [intros [= <- <-]; right; by exists to|done]. }
  unfold fixed, run_update. destruct (bool_decide _); [apply Hup|]. destruct (bool_decide _); [apply Hup|done].
Qed.

Lemma moves_row real_text evs t t' : moves real_text evs t t' → ∀ g st, t = [control_at g st] →
  ∃ g' st', t' = [control_at g' st'] ∧ g <= g' <= g + Z.of_nat (length (dispatches evs)).
Proof.
  induction 1 as [t|? ? ? ? _ IH|? ? ? ? _ IH|? ? ? ? ? _ _ IH|? ? ? ? _ IH|? ? ? ? ? _ IH|k u evs t t1 t' Hd _ IH
    |k u r n evs t t1 t' Hd _ _ IH]; intros g st ->; try (by apply (IH g st)).
  - exists g, st. simpl. split; [done|lia].
  - assert (t1 = [control_at g st] ∨ ∃ st', t1 = [control_at (g + 1) st']) as [-> | [st1 ->]]
      by (destruct Hd as [-> | [n Hd]]; [by left|by eapply fixed_row]);
      (edestruct IH as (g' & st' & -> & Hg); [done|]; exists g', st'; split; [done|]; simpl; lia).
  - apply fixed_row in Hd as [-> | [st1 ->]];
      (edestruct IH as (g' & st' & -> & Hg); [done|]; exists g', st'; split; [done|]; simpl; lia).
Qed.

Lemma campaign_moving {W} (table : W → list ControlRow) real_text `{!D1Journal W} (ports : Ports W) sha256 h :
  Honest table real_text ports sha256 → ∀ w,
  let (w', evs) := campaign ports sha256 h w in moves real_text evs (table w) (table w').
Proof.
  intros honest. induction h as [|n h IH]; intros w; [constructor|]. cbn [campaign].
  assert (∃ evs, a_trace (run_session ports sha256 w n) = evs
    ∧ moves real_text evs (table w) (table (a_world (run_session ports sha256 w n)))) as (evs1 & -> & M1).
  { unfold run_session, run_action. destruct (ss_action n) as [r|i];
      [destruct (moving_serve table real_text ports sha256 honest (ss_config n) r (mkAState w (ss_last_time n) false [])) as (evs & E & M)
      |destruct (moving_reconcile table real_text ports sha256 honest (ss_config n) i (mkAState w (ss_last_time n) false [])) as (evs & E & M)];
      exists evs; split; done. }
  specialize (IH (a_world (run_session ports sha256 w n))). destruct (campaign ports sha256 h _) as [w' evs2].
  by eapply moves_app.
Qed.

Section Campaign.
Context {C : Type} (clock : M C stamp) (fate : nat → io) (target_id packet : string) (table : C → list ControlRow)
  (real_text : Z → string) (sha256 : string → string) (p : Ports C).
#[local] Instance file_journal : D1Journal (State C) := d1_sqlite_journal clock fate target_id packet.

(** C28: a whole campaign on an honest target: whatever is executed, advanced and
    reconciled, by however many instances, with any failures of clocks, connections,
    journal transactions and answers, the control table keeps its one well-formed
    row, whose generation never decreases and advances by three at most. *)
Theorem campaign_target h s g st :
  provisioned target_id packet s → Honest (λ s, table (s_clock s)) real_text (outside_ports p) sha256 →
  table (s_clock s) = [control_at g st] →
  let (s', evs) := campaign (outside_ports p) sha256 h s in
  ∃ g' st', table (s_clock s') = [control_at g' st'] ∧ g <= g' <= g + 3
    ∧ g' <= g + Z.of_nat (length (dispatches evs)).
Proof.
  intros Hp honest Ht. pose proof (campaign_moving _ real_text (outside_ports p) sha256 h honest s) as Hm.
  pose proof (campaign_within clock fate target_id packet sha256 p h s Hp) as Hd.
  unfold journal in Hd. unfold file_journal in *.
  destruct (campaign (outside_ports p) sha256 h s) as [s' evs]. destruct Hd as [_ Hd].
  destruct (moves_row _ _ _ _ Hm g st Ht) as (g' & st' & Ht' & Hg). exists g', st'. split; [done|].
  assert (Z.of_nat (length (dispatches evs)) <= 3); [|lia].
  destruct (dispatches evs) as [|k l]; [simpl; lia|]. destruct Hd as (? & ? & ? & _ & _ & _ & Hl); [done|]. lia.
Qed.
End Campaign.
