(* ===== verification/D1Rehearsal.v ===== *)
(** The D1 adapter, the SQLite journal and the control table composed and run: two
    transitions under one root, a lost answer, and the concrete instances at which
    the theorems of the adapter, of campaigns and of the target apply. *)
From S2P Require Import Prelude Json JsonParse Oracle Control D1Port D1Journal D1JournalFacts D1Adapter D1AdapterFacts D1Protocol D1Campaign D1Target.

(** ** A site *)

(** A clock that ticks at every reading, the control table, and whether the provider
    loses its next answer. *)
Record Site := mkSite { site_now : Z; site_rows : list ControlRow; site_loses : bool }.

Definition site_clock : M Site stamp := λ s,
  (Ok (At (site_now s)), mkSite (site_now s + 1) (site_rows s) (site_loses s)).

Definition site_manifest : string := dumps (JObj [("candidate_schema", JArr [])]).
(** The source files; those that are only pinned hold their own name. *)
Definition site_file (name : string) : string :=
  if bool_decide (name = "close.sql") then CLOSE_SQL
  else if bool_decide (name = "reopen.sql") then REOPEN_SQL
  else if bool_decide (name = "readback.sql") then READBACK_SQL
  else if bool_decide (name = "schema.sql") then SCHEMA_SQL
  else if bool_decide (name = "manifest.json") then site_manifest
  else name.
(** A digest function under which exactly these files have the pinned digests. *)
Definition site_sha256 (bytes : string) : string :=
  match List.find (λ np, bool_decide (site_file np.1 = bytes)) PINS with Some np => np.2 | None => EmptyString end.

Definition no_real (_ : Z) : string := EmptyString.

Definition site_dispatch (u : FixedUpdate) (_ : stamp) : M Site reply := λ s,
  match fixed no_real u (site_rows s) with
  | Ok (n, t) =>
      if site_loses s then (Err (External "TimeoutError"), mkSite (site_now s) t false)
      else (Ok (ReplyDict [("success", PBool true); ("changes", PInt n)]), mkSite (site_now s) t (site_loses s))
  | Err e => (Err e, s)
  end.
Definition site_read (sql : string) (_ : stamp) : M Site CompleteRows := λ s,
  (Ok (mkCompleteRows (if bool_decide (sql = READBACK_SQL) then readback no_real (site_rows s) else []) true), s).

Definition site_ports : Ports Site := {|
  p_now := site_clock;
  p_read_bytes name := ret (site_file name);
  p_recheck := ret true;
  p_read := site_read;
  p_dispatch := site_dispatch;
  p_confirmation reference _ := ret first_receipt;
|}.
Definition site_config : Config := mkConfig "target" true None.
#[export] Instance site_journal : D1Journal (State Site) := d1_sqlite_journal site_clock sound_io "target" "packet".

Definition site_at (loses : bool) (t : list ControlRow) : State Site :=
  mkState (Provisioned (empty_db "target" "packet")) 0 (mkSite 0 t loses).

(** Close under a root of two transitions, then reopen. *)
Definition two_sessions : list session :=
  [mkSession site_config (-1) (Serve (Execute first_intent));
   mkSession site_config (-1) (Serve (Advance first_intent second_intent "receipt"));
   mkSession site_config (-1) (Serve (Execute second_intent));
   mkSession site_config (-1) (Reconcile second_intent)].

Definition table_of (s : State Site) : list ControlRow := site_rows (s_clock s).

(** ** Runs *)

Definition results (loses : bool) : list (string * string) :=
  (fix go (h : list session) (w : State Site) := match h with
   | [] => []
   | n :: h =>
       let (r, s) := run_action (outside_ports site_ports) site_sha256 (ss_config n) (ss_action n)
                       (mkAState w (ss_last_time n) false []) in
       match r with Ok x => (r_status x, r_reason x) | Err _ => ("raised", EmptyString) end :: go h (a_world s)
   end) two_sessions (site_at loses [control_at 41 "open"]).

Example two_transitions_run :
  results false = [("confirmed", "one_row_and_independent_readback"); ("confirmed", "one_row_and_independent_readback");
                   ("refused", "intent_already_latched_or_unconfirmed"); ("observed", "current_target_only_receipt_remains_unknown")].
Proof. vm_compute. reflexivity. Qed.
Example lost_answer_run :
  results true = [("unknown", "operation_unconfirmed"); ("refused", "successor_reservation_unconfirmed");
                  ("refused", "intent_already_latched_or_unconfirmed"); ("unknown", "reconciliation_unconfirmed")].
Proof. vm_compute. reflexivity. Qed.

(** ** The site is honest *)

Lemma site_pin name text pin :
  dict_get name PINS = Some pin → List.find (λ np, bool_decide (np.2 = pin)) PINS = Some (name, pin) →
  pin ≠ EmptyString → utf8_decode (site_file name) = Ok (site_file name) →
  pinned_text site_sha256 name text → text = site_file name.
Proof.
  intros Hn Hpin Hne Hdec (b & Hb & Ht). rewrite Hn in Hb. injection Hb as Hb. unfold site_sha256 in Hb.
  destruct (List.find _ PINS) as [[n p]|] eqn:E in Hb; [|by subst]. simpl in Hb. subst p.
  apply find_some in E as [Hin E]. apply bool_decide_eq_true in E. simpl in E.
  assert (n = name) as ->; [|subst b; congruence].
  assert (∀ l, NoDup (map snd l) → In (n, pin) l → List.find (λ np, bool_decide (np.2 = pin)) l = Some (name, pin) → n = name) as Hu.
  { clear. induction l as [|[x y] l IH]; simpl; [done|]. intros [Hx Hl]%NoDup_cons [[= -> ->]|Hin].
    - rewrite bool_decide_true by done. by intros [= <-].
    - destruct (bool_decide_reflect (y = pin)) as [->|]; [|auto]. exfalso. apply Hx, list_elem_of_In.
      exact (in_map snd _ _ Hin). }
  apply (Hu PINS); [|done|done]. vm_cast_no_check (bool_decide_unpack _ (I : bool_decide (NoDup (map snd PINS)))).
Qed.

Lemma outside_still {T} (m : M Site T) : (∀ c, site_rows (m c).2 = site_rows c) → still table_of (outside m).
Proof. intros Hm s. unfold outside, table_of. specialize (Hm (s_clock s)). by destruct (m (s_clock s)). Qed.

(** A clock that does not touch the table: no journal operation does. *)
Lemma journal_still c t s : table_of (run_call site_clock sound_io "target" "packet" c t s).2 = table_of s.
Proof.
  assert (∀ dl s, table_of (guard site_clock dl s).2 = table_of s) as Hg
    by (intros dl s'; unfold guard; simpl; by destruct dl).
  assert (∀ A (body : M Db A) dl s, table_of (transaction site_clock sound_io "target" "packet" dl body s).2 = table_of s) as Ht.
  { intros A body dl s'. unfold transaction, bind.
    pose proof (Hg dl s') as G1. destruct (guard site_clock dl s') as [[[]|e] s1]; simpl in *; [|done].
    assert (table_of (begin_ sound_io "target" "packet" s1).2 = table_of s1) as B.
    { unfold begin_. destruct (s_file s1) as [| |d]; simpl; try done. destruct (binding d); simpl; [|done]. by destruct (bound _ _ _). }
    destruct (begin_ sound_io "target" "packet" s1) as [[d|e] s2]; simpl in *; [|congruence].
    pose proof (Hg dl s2) as G2. destruct (guard site_clock dl s2) as [[[]|e] s3]; simpl in *; [|congruence].
    destruct (body d) as [[a|e] d']; simpl; [|congruence].
    pose proof (Hg dl s3) as G3. destruct (guard site_clock dl s3) as [[[]|e] s4]; simpl in *; [|congruence].
    pose proof (Hg dl (mkState (Provisioned d') (s_calls s4) (s_clock s4))) as G4. unfold table_of in G4 at 2. simpl in G4.
    destruct (guard site_clock dl _) as [[[]|e] s5]; simpl in *; unfold table_of in *; congruence. }
  assert (∀ A (x : res unit) (m : M (State Site) A) s, table_of (m s).2 = table_of s → table_of ((lift x ;* m) s).2 = table_of s) as Hl
    by (intros A x m s'; unfold bind, lift; by destruct x).
  assert (∀ A (m : M (State Site) A) f s, table_of (m s).2 = table_of s → table_of (discard m f s).2 = table_of s) as Hd.
  { intros A m f s'. unfold discard, bind. by destruct (m s') as [[]]. }
  destruct c; simpl; try apply Hd; unfold latch, advance, get, spend_read, claim_dispatch, claim_reconcile, settle,
    reserve_request, received, reserve_exact_request; repeat apply Hl; apply Ht.
Qed.

Lemma site_honest : Honest table_of no_real (outside_ports site_ports) site_sha256.
Proof.
  assert (∀ A (m : M (State Site) A) f s, table_of (discard m f s).2 = table_of (m s).2) as Hd.
  { intros A m f s. unfold discard, bind. by destruct (m s) as [[]]. }
  split; try (intros; apply outside_still; done).
  - intros text. apply (site_pin "close.sql" text (default EmptyString (dict_get "close.sql" PINS))); vm_compute; done.
  - intros text. apply (site_pin "reopen.sql" text (default EmptyString (dict_get "reopen.sql" PINS))); vm_compute; done.
  - intros text. apply (site_pin "readback.sql" text (default EmptyString (dict_get "readback.sql" PINS))); vm_compute; done.
  - intros u t w. unfold outside_ports, site_ports, outside, table_of. cbn [p_dispatch]. unfold site_dispatch.
    destruct (fixed no_real u (site_rows (s_clock w))) as [[n t1]|e] eqn:E; simpl; [|by left].
    destruct (site_loses (s_clock w)); simpl; [by right; exists n|by exists n].
  - intros sql t w. simpl. split; [done|]. intros -> _. by rewrite bool_decide_true.
  - intros i t s. exact (journal_still (CLatch i) t s).
  - intros p q c t s. exact (journal_still (CAdvance p q c) t s).
  - intros k t s. etransitivity; [symmetry; apply (Hd _ _ (λ _, true))|]. exact (journal_still (CGet k) t s).
  - intros k t s. exact (journal_still (CSpendRead k) t s).
  - intros k t s. exact (journal_still (CClaimDispatch k) t s).
  - intros k t s. exact (journal_still (CClaimReconcile k) t s).
  - intros k p t s. etransitivity; [symmetry; apply (Hd _ _ (λ _, true))|]. exact (journal_still (CSettle k p) t s).
Qed.

(** ** Witnesses *)

Definition open_site : AState (State Site) := new_adapter (site_at false [control_at 41 "open"]).
Notation closing := (serve (outside_ports site_ports) site_sha256 site_config (Execute first_intent) open_site).

Lemma fst_is {A B} (p : A * B) a : p.1 = a → ∃ b, p = (a, b).
Proof. destruct p as [x b]. intros <-. by exists b. Qed.

Lemma closing_confirmed : ∃ res_ s', closing = (Ok res_, s') ∧ r_status res_ = "confirmed".
Proof.
  destruct (fst_is closing (Ok (mkResult "confirmed" "one_row_and_independent_readback" (Some "42") (Some "closed") (Some (At 69)))))
    as [s' E]; [vm_compute; reflexivity|]. eexists _, s'. split; [exact E|reflexivity].
Qed.

Lemma confirmed_earned_witness :
  ∃ (s' : AState (State Site)) obs u reply_ readback,
    a_trace s' = EvReserved first_intent :: obs ++ EvClaimed "first" :: EvDispatch "first" u :: EvReply reply_
                   :: readback ++ [EvSettled "first" "confirmed"]
    ∧ changes_of reply_ = Some 1.
Proof.
  destruct closing_confirmed as (res_ & s' & E & Hst). exists s'.
  destruct (confirmed_earned _ _ _ _ _ _ _ E Hst) as (obs & u & reply_ & rb & T & _ & _ & _ & Hc & _).
  exists obs, u, reply_, rb. exact (conj T Hc).
Defined.

Lemma target_sound_witness : ∃ s' : AState (State Site), transition first_intent [control_at 41 "open"] (table_of (a_world s')).
Proof.
  destruct closing_confirmed as (res_ & s' & E & Hst). exists s'.
  exact (proj1 (proj2 (target_sound table_of no_real (outside_ports site_ports) site_sha256 site_honest site_config
    (Execute first_intent) open_site res_ s' E)) Hst).
Defined.

Lemma campaign_dispatches_witness :
  let (s', evs) := campaign (outside_ports site_ports) site_sha256 two_sessions (site_at false [control_at 41 "open"]) in
  dispatches evs = ["first"; "second"] ∧ NoDup (dispatches evs).
Proof.
  pose proof (campaign_dispatches site_clock sound_io "target" "packet" site_sha256 site_ports two_sessions
    (site_at false [control_at 41 "open"]) eq_refl) as H.
  assert (dispatches (campaign (outside_ports site_ports) site_sha256 two_sessions (site_at false [control_at 41 "open"])).2
    = ["first"; "second"]) as E by (vm_compute; reflexivity).
  change (journal site_clock sound_io "target" "packet") with site_journal in H.
  destruct (campaign (outside_ports site_ports) site_sha256 two_sessions (site_at false [control_at 41 "open"])) as [s' evs].
  exact (conj E (proj1 H)).
Defined.

Lemma campaign_target_witness :
  let (s', evs) := campaign (outside_ports site_ports) site_sha256 two_sessions (site_at true [control_at 41 "open"]) in
  ∃ g' st', table_of s' = [control_at g' st'] ∧ 41 <= g' <= 44.
Proof.
  pose proof (campaign_target site_clock sound_io "target" "packet" site_rows no_real site_sha256 site_ports two_sessions
    (site_at true [control_at 41 "open"]) 41 "open" eq_refl site_honest eq_refl) as H.
  change (file_journal site_clock sound_io "target" "packet") with site_journal in H.
  destruct (campaign (outside_ports site_ports) site_sha256 two_sessions (site_at true [control_at 41 "open"])) as [s' evs].
  destruct H as (g' & st' & Ht & Hg & _). exists g', st'. exact (conj Ht Hg).
Defined.
