(* ===== verification/ExactCount.v ===== *)
(** probes/pmb1-native-d1-binding/exact_receipt_successor.py and
    positional_receipt_successor.py: one fixed update and the count of the rows it
    changed as a request of exactly two statements, and the strict reading of the
    answer.

    [canonical] and [_json] are those of
    scripts/temporary_composition_metadata_collector.py. *)
From S2P Require Import Prelude Json JsonParse JsonRoundTrip Binary64 Oracle Control D1Port D1Adapter D1AdapterFacts.

(** ** Canonical bytes and strict reading *)

(** [canonical(value)]: text in the ASCII escapes of [dumps]. *)
Definition canonical (j : json) : string := dumps j +:+ newline.

(** [_pairs] and [parse_constant] of [_json]. *)
Definition collection_hooks : Hooks :=
  mkHooks (λ kvs, match unique_into [] kvs with Ok d => Ok (JObj d) | Err _ => Err (Refusal "collection_duplicate_json_key") end)
    (λ _, Err (Refusal "collection_json")).
(** [_json(body)]; every [ValueError] becomes one refusal. *)
Definition strict_json (body : string) : res json :=
  match (let? text := utf8_decode body in loads_with collection_hooks text) with
  | Err (External "text above U+00FF") => Err (External "text above U+00FF")
  | Err _ => Err (Refusal "collection_json")
  | Ok j => Ok j
  end.

(** ** Statements *)

Definition BOUNDARY : string := "fixed_update_with_exact_count_v1".
Definition POSITIONAL_BOUNDARY : string := "fixed_update_with_exact_count_positional_v1".
Definition COUNT_SQL : string := "SELECT CAST(changes() AS TEXT) AS exact_change_count".
Definition statement (sql : string) (params : list string) : json :=
  JObj [("sql", JStr sql); ("params", JArr (map JStr params))].
(** The two statements of a batch. *)
Definition batch_statements (sql expected : string) : json := JArr [statement sql [expected]; statement COUNT_SQL []].

Record Batch := mkBatch { fb_intent : Intent; fb_update_sql : string; fb_boundary : string }.
#[export] Instance Batch_eq_dec : EqDecision Batch.
Proof. solve_decision. Defined.

Definition is_true (o : option json) : bool := match o with Some (JBool true) => true | _ => false end.
Definition is_empty (o : option json) : bool := match o with Some (JArr []) => true | _ => false end.

(** *** Reading the answer *)

Definition completion_keys : list string := ["next"; "next_page"; "cursor"; "truncated"; "has_more"].
(** One element of [payload["result"]]: complete, and served by the primary. *)
Definition primary_result (result : json) : bool :=
  match result with
  | JObj r =>
      same_keys r ["success"; "results"; "meta"] && is_true (dict_get "success" r)
      && match dict_get "results" r with Some (JArr _) => true | _ => false end
      && match dict_get "meta" r with
         | Some (JObj m) => is_true (dict_get "served_by_primary" m)
                            && forallb (λ k, negb (bool_decide (is_Some (dict_get k m)))) completion_keys
         | _ => false
         end
  | _ => false
  end.
Definition results_of (result : json) : list json :=
  match result with JObj r => match dict_get "results" r with Some (JArr l) => l | _ => [] end | _ => [] end.

(** [payload["result"]] of a well-formed answer. *)
Definition ordered_results (payload : json) : option (json * json) :=
  match payload with
  | JObj p =>
      if same_keys p ["success"; "errors"; "messages"; "result"] && is_true (dict_get "success" p)
         && is_empty (dict_get "errors" p) && is_empty (dict_get "messages" p)
      then match dict_get "result" p with Some (JArr [r1; r2]) => Some (r1, r2) | _ => None end
      else None
  | _ => None
  end.
(** The one row of the second statement. *)
Definition exact_count (rows : list json) : option Z :=
  match rows with
  | [JObj row] =>
      if same_keys row ["exact_change_count"] then
        match dict_get "exact_change_count" row with
        | Some (JStr t) => if str_in t ["0"; "1"] then Some (int_of_str t) else None
        | _ => None
        end
      else None
  | _ => None
  end.

(** [decode_ordered_body(body)] *)
Definition decode_ordered_body (body : string) : res Z :=
  refuse_if (negb ((0 <? slen body) && (slen body <=? 512 * 1024))) "exact_count_successor_body_bound" ;?
  let? payload := strict_json body in
  match ordered_results payload with
  | None => Err (Refusal "exact_count_successor_ordered_results")
  | Some (r1, r2) =>
      refuse_if (negb (primary_result r1) || negb (primary_result r2)) "exact_count_successor_incomplete_or_nonprimary" ;?
      refuse_if (negb (bool_decide (length (results_of r1) = 0%nat))) "exact_count_successor_update_result" ;?
      match exact_count (results_of r2) with
      | Some n => Ok n
      | None => Err (Refusal "exact_count_successor_count")
      end
  end.

(** *** Building the request *)

Section Build.
Context {W : Type} (ports : Ports W) (sha256 : string → string).
Notation A := (M (AState W)).
Notation verify_source := (verify_source ports sha256).

(** The refusals of [build(intent)] before it reads the source. *)
Definition intent_bad (i : Intent) : res unit :=
  refuse_if (negb (str_in (i_operation i) ["close"; "reopen"])) "exact_count_successor_intent" ;?
  window_validate (i_window i) ;?
  let? _ := D1Port.generation (PStr (i_expected i)) true in
  refuse_if (negb (bool_decide (i_transition_limit i ∈ [1; 2; 3]))) "exact_count_successor_headroom".

(** What both variants share; the module's own [build], [request_body] and the text
    of a refusal are its parameters. *)
Definition body_of (batch : Batch) : string :=
  canonical (JObj [("batch", batch_statements (fb_update_sql batch) (i_expected (fb_intent batch)))]).
Definition manifest_of (boundary : string) (body : string) (statements : json) : json :=
  JObj [("protocol", JStr boundary); ("statementCount", JInt 2); ("requestBodySha2_256", JStr (sha256 body));
        ("statements", statements)].
Definition receipt_of (boundary : string) (request : json) (body : string) (count : Z) : json :=
  JObj [("protocol", JStr boundary); ("request", request); ("responseBodySha2_256", JStr (sha256 body));
        ("exactChangeCountText", JStr (str_of_int count))].
Definition root_headroom (i : Intent) : res unit :=
  refuse_if (Control.MAX_GENERATION <? int_of_str (i_expected i) + i_transition_limit i) "exact_count_successor_root_headroom".

(** [build(intent)] *)
Definition build (i : Intent) : A Batch :=
  lift (intent_bad i) ;*
  let* files := verify_source in
  let* sql := lift (text_of_file (i_operation i +:+ ".sql") files) in
  ret (mkBatch i sql BOUNDARY).
(** [build_root(intent)] *)
Definition build_root (i : Intent) : A Batch :=
  let* batch := build i in
  lift (root_headroom i) ;*
  ret batch.
(** [request_body(batch)] *)
Definition request_body (batch : Batch) : A string :=
  refuse (negb (bool_decide (fb_boundary batch = BOUNDARY))) "exact_count_successor_boundary" ;*
  let* again := build (fb_intent batch) in
  refuse (negb (bool_decide (batch = again))) "exact_count_successor_fixed_source" ;*
  ret (body_of batch).
(** [manifest(batch)], whose statements are read back from the body *)
Definition manifest (batch : Batch) : A json :=
  let* body := request_body batch in
  let* parsed := lift (strict_json body) in
  match parsed with
  | JObj d => match dict_get "batch" d with
              | Some statements => ret (manifest_of BOUNDARY body statements)
              | None => raise (External "KeyError")
              end
  | _ => raise (External "TypeError")
  end.
(** [receipt_manifest(batch, body)] *)
Definition receipt_manifest (batch : Batch) (body : string) : A json :=
  let* request := manifest batch in
  let* count := lift (decode_ordered_body body) in
  ret (receipt_of BOUNDARY request body count).

(** ** The positional variant *)

(** [bytes.count(token)] and [bytes.replace(token, by)] of a token that is not
    empty, left to right without overlaps. *)
Fixpoint replace_from (skip : nat) (token by_ s : string) : string * nat :=
  match s with
  | EmptyString => (EmptyString, O)
  | String c s' =>
      match skip with
      | S skip => replace_from skip token by_ s'
      | O =>
          if String.prefix token s
          then let (t, n) := replace_from (pred (String.length token)) token by_ s' in (by_ +:+ t, S n)
          else let (t, n) := replace_from O token by_ s' in (String c t, n)
      end
  end.
Definition replace (token by_ s : string) : string := (replace_from O token by_ s).1.
Definition count (token s : string) : nat := (replace_from O token EmptyString s).2.

Definition TOKEN : string := ":expected_generation".
Definition SLOT : string := "?1".

(** [source_sql(operation)] on the bytes of the original file *)
Definition variant_of (original : string) : res string :=
  refuse_if (negb (bool_decide (count TOKEN original = 2%nat)) || negb (bool_decide (count SLOT original = 0%nat)))
    "positional_source_token_inventory" ;?
  let variant := replace TOKEN SLOT original in
  refuse_if (negb (bool_decide (replace SLOT TOKEN variant = original))) "positional_nonparameter_source_delta" ;?
  utf8_decode variant.
Definition source_sql (operation : string) : A string :=
  refuse (negb (str_in operation ["close"; "reopen"])) "positional_fixed_operation" ;*
  let* files := verify_source in
  let* original := lift (file_of (operation +:+ ".sql") files) in
  lift (variant_of original).

Definition positional_build (i : Intent) : A Batch :=
  build i ;*
  let* sql := source_sql (i_operation i) in
  ret (mkBatch i sql POSITIONAL_BOUNDARY).
Definition positional_build_root (i : Intent) : A Batch :=
  build_root i ;*
  positional_build i.
Definition positional_request_body (batch : Batch) : A string :=
  let* again := positional_build (fb_intent batch) in
  refuse (negb (bool_decide (batch = again))) "positional_exact_batch_boundary" ;*
  ret (body_of batch).
Definition positional_manifest (batch : Batch) : A json :=
  let* body := positional_request_body batch in
  ret (manifest_of POSITIONAL_BOUNDARY body (batch_statements (fb_update_sql batch) (i_expected (fb_intent batch)))).
Definition positional_receipt_manifest (batch : Batch) (body : string) : A json :=
  let* count := lift (decode_ordered_body body) in
  let* request := positional_manifest batch in
  ret (receipt_of POSITIONAL_BOUNDARY request body count).
End Build.
