(* ===== verification/ExactCountFacts.v ===== *)
(** What an exact-count batch means: the request that is built decodes to the two
    pinned statements, the answer to them decodes to the exact count, and with an
    endpoint that runs the statements the count says whether the transition was made. *)
From S2P Require Import Prelude Json JsonParse JsonRoundTrip Binary64 Oracle Control D1Port D1Adapter D1AdapterFacts D1Target D1JournalFacts D1Rehearsal ExactCount.

(** ** Canonical bytes *)

Lemma isascii_app s t : isascii (s +:+ t) = isascii s && isascii t.
Proof. apply str_forall_app. Qed.

Lemma ascii_of_int z : isascii (str_of_int z) = true.
Proof.
  destruct (int_text z) as (s & Hd & _ & _ & ->). destruct (z <? 0); [|by apply decimal_ascii].
  apply andb_true_iff. split; [reflexivity|by apply decimal_ascii].
Qed.

Lemma escape_char_ascii c : isascii (escape_char c) = true.
Proof. destruct c as [[] [] [] [] [] [] [] []]; reflexivity. Qed.
Lemma escape_ascii s : isascii (escape s) = true.
Proof. induction s as [|c s IH]; [done|]. cbn [escape]. by rewrite isascii_app, IH, escape_char_ascii. Qed.
Lemma quoted_ascii s : isascii (quoted s) = true.
Proof. unfold quoted. by rewrite !isascii_app, escape_ascii. Qed.
Lemma joined_ascii l : Forall (λ t, isascii t = true) l → isascii (joined "," l) = true.
Proof.
  induction l as [|x l IH]; [done|]. intros [Hx Hl]%Forall_cons. destruct l as [|y l]; [done|].
  by rewrite joined_cons, !isascii_app, Hx, IH.
Qed.

Lemma dumps_ascii j : regular j → isascii (dumps j) = true.
Proof.
  induction j as [|[]|z|t|s|l IH|kvs IH] using json_induction; intros Hr; try done.
  - apply ascii_of_int.
  - apply quoted_ascii.
  - simpl in Hr. rewrite foldr_and_forall in Hr. cbn [dumps]. rewrite !isascii_app, joined_ascii; [done|].
    apply Forall_map. eapply Forall_impl2; [|exact Hr|exact IH]. auto.
  - simpl in Hr. rewrite (foldr_and_forall (λ kv, regular kv.2)) in Hr. destruct Hr as [_ Hr].
    rewrite dumps_obj_text, !isascii_app, joined_ascii; [done|].
    apply Forall_map. rewrite <- (sort_keys_perm kvs) in Hr, IH.
    eapply Forall_impl2; [|exact Hr|exact IH]. intros [k v] H1 H2. simpl in *. unfold item_text. cbn [fst snd].
    by rewrite !isascii_app, quoted_ascii, (H2 H1).
Qed.

Lemma utf8_decode_ascii s : isascii s = true → utf8_decode s = Ok s.
Proof.
  induction s as [|c s IH]; [done|]. intros [Hc Hs]%andb_true_iff. cbn [utf8_decode]. unfold is_ascii in Hc. rewrite Hc.
  by rewrite IH.
Qed.

Lemma unique_into_nodup l : NoDup (map fst l) → unique_into [] l = Ok l.
Proof.
  assert (∀ acc, NoDup (map fst (acc ++ l)) → unique_into acc l = Ok (acc ++ l)) as H; [|apply (H [])].
  induction l as [|[k v] l IH]; intros acc Hn; simpl; [by rewrite app_nil_r|].
  assert (acc ++ (k, v) :: l = (acc ++ [(k, v)]) ++ l) as E by by rewrite <- app_assoc.
  rewrite bool_decide_true; [simpl; rewrite E; apply IH; by rewrite <- E|].
  rewrite map_app in Hn. apply NoDup_app in Hn as (_ & Hn & _).
  destruct (dict_get k acc) as [x|] eqn:Ek; [|done]. apply dict_get_in in Ek.
  exfalso. apply (Hn k); [exact (list_elem_of_fmap_2 fst _ _ Ek)|]. simpl. by left.
Qed.

Lemma collection_faithful : faithful collection_hooks.
Proof. intros kvs Hn. cbn. by rewrite unique_into_nodup. Qed.

(** What was written canonically is read back strictly. *)
Lemma strict_json_canonical j : regular j → strict_json (canonical j) = Ok (canon j).
Proof.
  intros Hr. unfold strict_json, canonical. rewrite utf8_decode_ascii.
  - cbn [rbind]. by rewrite (loads_with_back collection_hooks j newline collection_faithful Hr eq_refl eq_refl).
  - by rewrite isascii_app, (dumps_ascii j Hr).
Qed.

(** ** Looking a key up after sorting *)

Lemma dict_get_perm {A} (l l' : list (string * A)) k : NoDup (map fst l) → l ≡ₚ l' → dict_get k l = dict_get k l'.
Proof.
  intros Hn Hp. induction Hp as [|[x v] l l' Hp IH|[x v] [y w] l|l1 l2 l3 H1 IH1 H2 IH2]; [done| | |].
  - simpl in *. apply NoDup_cons in Hn as [_ Hn]. by rewrite IH.
  - simpl in *. apply NoDup_cons in Hn as [Hx _]. destruct (bool_decide_reflect (k = x)), (bool_decide_reflect (k = y)); try done.
    subst. set_solver.
  - rewrite IH1 by done. apply IH2. by rewrite <- H1.
Qed.
Lemma dict_get_fmap {A B} (f : A → B) l k : dict_get k (map (λ kv, (kv.1, f kv.2)) l) = f <$> dict_get k l.
Proof. induction l as [|[x v] l IH]; simpl; [done|]. by destruct (bool_decide _). Qed.
Lemma dict_get_canon (kvs : list (string * json)) k :
  NoDup (map fst kvs) → dict_get k (sort_keys (map (λ kv, (kv.1, canon kv.2)) kvs)) = canon <$> dict_get k kvs.
Proof.
  intros Hn. rewrite <- dict_get_fmap. symmetry. apply dict_get_perm; [by rewrite map_map|]. symmetry. apply sort_keys_perm.
Qed.

(** ** Answers *)

Definition result_of (meta : list (string * json)) (rows : list json) : json :=
  JObj [("success", JBool true); ("results", JArr rows); ("meta", JObj meta)].
(** The answer of a complete primary batch that changed [n] rows. *)
Definition response (m1 m2 : list (string * json)) (n : Z) : json :=
  JObj [("success", JBool true); ("errors", JArr []); ("messages", JArr []);
        ("result", JArr [result_of m1 []; result_of m2 [JObj [("exact_change_count", JStr (str_of_int n))]]])].

(** Metadata that says primary and does not say there is more. *)
Definition primary_meta (m : list (string * json)) : Prop :=
  regular (JObj m) ∧ dict_get "served_by_primary" m = Some (JBool true) ∧ ∀ k, k ∈ completion_keys → dict_get k m = None.

Ltac solve_distinct := repeat constructor; set_solver.

Lemma primary_canon m rows : primary_meta m → primary_result (canon (result_of m rows)) = true.
Proof.
  intros ([Hn _] & Hp & Hc). cbn [canon result_of map]. unfold primary_result.
  set (m' := sort_keys (map (λ kv, (kv.1, canon kv.2)) m)).
  change (sort_keys _) with [("meta", JObj m'); ("results", JArr (map canon rows)); ("success", JBool true)].
  assert (∀ k, dict_get k m' = canon <$> dict_get k m) as Hm by (intros k; by apply dict_get_canon).
  clearbody m'. transitivity (is_true (dict_get "served_by_primary" m')
    && forallb (λ k, negb (bool_decide (is_Some (dict_get k m')))) completion_keys); [reflexivity|].
  rewrite (Hm "served_by_primary"), Hp. cbn [fmap option_fmap option_map canon is_true andb].
  apply forallb_forall. intros k Hk%list_elem_of_In. rewrite Hm, (Hc k Hk). done.
Qed.
Lemma results_canon m rows : results_of (canon (result_of m rows)) = map canon rows.
Proof. reflexivity. Qed.

Lemma response_regular m1 m2 n : primary_meta m1 → primary_meta m2 → regular (response m1 m2 n).
Proof.
  intros [H1 _] [H2 _]. unfold response, result_of. cbn [regular map fst snd foldr] in *.
  split_and!; try done; solve_distinct.
Qed.

(** The answer to an exact batch reads back exactly; any count but 0 and 1 is refused. *)
Lemma decode_back m1 m2 n :
  primary_meta m1 → primary_meta m2 → 0 <= n → slen (canonical (response m1 m2 n)) <= 512 * 1024 →
  decode_ordered_body (canonical (response m1 m2 n))
  = if n <=? 1 then Ok n else Err (Refusal "exact_count_successor_count").
Proof.
  intros H1 H2 Hn Hlen. unfold decode_ordered_body.
  rewrite strict_json_canonical by by apply response_regular.
  assert (0 < slen (canonical (response m1 m2 n))).
  { unfold canonical. rewrite slen_app. pose proof (slen_nonneg (dumps (response m1 m2 n))). change (slen newline) with 1. lia. }
  rewrite (proj2 (Z.ltb_lt 0 _)), (proj2 (Z.leb_le _ (512 * 1024))) by lia. cbn [andb negb refuse_if rbind].
  assert (ordered_results (canon (response m1 m2 n))
    = Some (canon (result_of m1 []), canon (result_of m2 [JObj [("exact_change_count", JStr (str_of_int n))]]))) as -> by reflexivity.
  rewrite !primary_canon, !results_canon by done. cbn [negb orb refuse_if rbind map length].
  change (exact_count [canon (JObj [("exact_change_count", JStr (str_of_int n))])])
    with (if str_in (str_of_int n) ["0"; "1"] then Some (int_of_str (str_of_int n)) else None).
  rewrite bool_decide_true by done. cbn [negb refuse_if rbind].
  destruct (Z.leb_spec n 1) as [Hle|Hgt].
  - assert (n = 0 ∨ n = 1) as [-> | ->] by lia; reflexivity.
  - assert (str_in (str_of_int n) ["0"; "1"] = false) as ->; [|done].
    apply bool_decide_eq_false. rewrite !elem_of_cons, elem_of_nil. intros [E|[E|[]]].
    + apply (str_of_int_inj n 0) in E; lia.
    + apply (str_of_int_inj n 1) in E; lia.
Qed.

(** ** Requests *)

Inductive variant := Named | Positional.

Lemma batch_regular sql e : regular (JObj [("batch", batch_statements sql e)]).
Proof. unfold batch_statements, statement. cbn [regular map fst snd foldr]. split_and!; try done; solve_distinct. Qed.

Section Requests.
Context {W : Type} (ports : Ports W) (sha256 : string → string).

Definition body_for (v : variant) : Batch → M (AState W) string :=
  match v with Named => request_body ports sha256 | Positional => positional_request_body ports sha256 end.
Definition manifest_for (v : variant) : Batch → M (AState W) json :=
  match v with Named => manifest ports sha256 | Positional => positional_manifest ports sha256 end.
Definition boundary_of (v : variant) : string := match v with Named => BOUNDARY | Positional => POSITIONAL_BOUNDARY end.
(** The statement a variant makes of the bytes of a source file. *)
Definition source_text (v : variant) : string → res string :=
  match v with Named => utf8_decode | Positional => variant_of end.

Lemma verify_source_ok s files s' n b :
  verify_source ports sha256 s = (Ok files, s') → dict_get n files = Some b → Some (sha256 b) = dict_get n PINS.
Proof.
  unfold verify_source. intros (fs & s1 & _ & H)%bind_ok Hb. apply bind_ok in H as ([] & s2 & Hp & H).
  injection H as -> <-. injection Hp as Hp <-. apply refuse_if_ok, negb_false_iff in Hp.
  unfold pinned in Hp. rewrite forallb_forall in Hp. apply dict_get_in, list_elem_of_In, Hp in Hb.
  by apply bool_decide_eq_true in Hb.
Qed.

(** The statement of a batch comes from a pinned file. *)
Definition from_source (v : variant) (i : Intent) (sql : string) : Prop :=
  ∃ b, Some (sha256 b) = dict_get (i_operation i +:+ ".sql") PINS ∧ source_text v b = Ok sql.

Lemma build_ok i s batch s' :
  build ports sha256 i s = (Ok batch, s') →
  intent_bad i = Ok tt ∧ ∃ sql, batch = mkBatch i sql BOUNDARY ∧ from_source Named i sql.
Proof.
  unfold build. intros ([] & s1 & Hi & H)%bind_ok. injection Hi as Hi _. split; [done|].
  apply bind_ok in H as (files & s2 & Hf & H). apply bind_ok in H as (sql & s3 & Ht & H).
  injection H as <- _. injection Ht as Ht _. exists sql. split; [done|]. unfold text_of_file, file_of in Ht.
  destruct (dict_get _ files) as [b|] eqn:Eb; [|done]. exists b. split; [by eapply verify_source_ok|done].
Qed.
Lemma positional_build_ok i s batch s' :
  positional_build ports sha256 i s = (Ok batch, s') →
  intent_bad i = Ok tt ∧ ∃ sql, batch = mkBatch i sql POSITIONAL_BOUNDARY ∧ from_source Positional i sql.
Proof.
  unfold positional_build. intros (b0 & s1 & Hi & H)%bind_ok. apply build_ok in Hi as [Hi _]. split; [done|].
  apply bind_ok in H as (sql & s2 & Hs & H). injection H as <- _. exists sql. split; [done|]. unfold source_sql in Hs.
  apply bind_ok in Hs as ([] & s3 & _ & Hs). apply bind_ok in Hs as (files & s4 & Hf & Hs).
  apply bind_ok in Hs as (b & s5 & Hb & Hs). injection Hb as Hb _. injection Hs as Hs _. unfold file_of in Hb.
  destruct (dict_get _ files) as [b'|] eqn:Eb; [|done]. injection Hb as ->. exists b. split; [by eapply verify_source_ok|done].
Qed.

Lemma body_for_ok v batch s body s' :
  body_for v batch s = (Ok body, s') →
  body = body_of batch ∧ intent_bad (fb_intent batch) = Ok tt ∧ from_source v (fb_intent batch) (fb_update_sql batch).
Proof.
  destruct v; simpl.
  - unfold request_body. intros ([] & s1 & _ & H)%bind_ok. apply bind_ok in H as (again & s2 & Hb & H).
    apply bind_ok in H as ([] & s3 & He & H). injection H as <- _. injection He as He _.
    apply refuse_if_ok, negb_false_iff, bool_decide_eq_true in He as <-.
    apply build_ok in Hb as (Hi & sql & E & Hs). rewrite E. done.
  - unfold positional_request_body. intros (again & s2 & Hb & H)%bind_ok.
    apply bind_ok in H as ([] & s3 & He & H). injection H as <- _. injection He as He _.
    apply refuse_if_ok, negb_false_iff, bool_decide_eq_true in He as <-.
    apply positional_build_ok in Hb as (Hi & sql & E & Hs). rewrite E. done.
Qed.


(** C37: what is sent is what was reviewed. When a request body is built - for the named
    or the positional variant - reading it strictly gives exactly two statements: the
    update that a pinned source file says, with the intent's expected generation as
    its one parameter, and the count; and the manifest describes that very body. *)
Theorem request_exact v batch s body s' :
  body_for v batch s = (Ok body, s') →
  let i := fb_intent batch in let statements := batch_statements (fb_update_sql batch) (i_expected i) in
  strict_json body = Ok (canon (JObj [("batch", statements)]))
  ∧ from_source v i (fb_update_sql batch)
  ∧ (∃ g, i_expected i = str_of_int g ∧ 1 <= g < Control.MAX_GENERATION)
  ∧ ∀ s1 m s2, manifest_for v batch s1 = (Ok m, s2) →
      dumps m = dumps (manifest_of sha256 (boundary_of v) body statements).
Proof.
  intros H i statements. apply body_for_ok in H as (-> & Hi & Hs).
  assert (strict_json (body_of batch) = Ok (canon (JObj [("batch", statements)]))) as Hbody
    by (apply strict_json_canonical, batch_regular).
  split; [done|]. split; [done|]. split.
  - unfold intent_bad in Hi. inv_check.
    match goal with Hg : D1Port.generation _ _ = _ |- _ => apply generation_iff, generation_text_iff in Hg as ([= <-] & g & Hg & Hr) end.
    exists g. simpl in Hr. split; [done|lia].
  - intros s1 m s2 Hm. destruct v; simpl in Hm.
    + unfold manifest in Hm. apply bind_ok in Hm as (body & s3 & Hb & Hm).
      apply (body_for_ok Named) in Hb as (-> & _). apply bind_ok in Hm as (parsed & s4 & Hp & Hm).
      injection Hp as Hp _. rewrite Hbody in Hp. injection Hp as <-. injection Hm as <- _.
      change (dumps (manifest_of sha256 BOUNDARY (body_of batch) (canon statements))
              = dumps (manifest_of sha256 BOUNDARY (body_of batch) statements)).
      pose proof (dumps_canon statements) as E. unfold manifest_of. cbn [dumps map fst snd]. by rewrite E.
    + unfold positional_manifest in Hm. apply bind_ok in Hm as (body & s3 & Hb & Hm).
      apply (body_for_ok Positional) in Hb as (-> & _). by injection Hm as <- _.
Qed.
End Requests.

(** ** The endpoint *)

Section Endpoint.
Context {W : Type} (ports : Ports W) (sha256 : string → string) (real_text : Z → string).

(** A positional parameter is the named one by another name. *)
Definition plain_text (v : variant) (sql : string) : string :=
  match v with Named => sql | Positional => replace SLOT TOKEN sql end.

(** A batch endpoint over the control table: it runs the two statements in order and
    answers completely from the primary. *)
Definition exact_endpoint (v : variant) (endpoint : string → list ControlRow → res string * list ControlRow) : Prop :=
  ∀ body sql expected t n t',
    strict_json body = Ok (canon (JObj [("batch", batch_statements sql expected)])) →
    run_update real_text (plain_text v sql) (CText expected) t = Ok (n, t') → 0 <= n <= 1 →
    ∃ m1 m2, primary_meta m1 ∧ primary_meta m2 ∧ slen (canonical (response m1 m2 n)) <= 512 * 1024
      ∧ endpoint body t = (Ok (canonical (response m1 m2 n)), t').

(** The pinned digests are of the reviewed statements. *)
Definition reviewed : Prop := ∀ b,
  (Some (sha256 b) = dict_get "close.sql" PINS → b = CLOSE_SQL) ∧ (Some (sha256 b) = dict_get "reopen.sql" PINS → b = REOPEN_SQL).

Lemma variant_text v b sql :
  b = CLOSE_SQL ∨ b = REOPEN_SQL → source_text v b = Ok sql → plain_text v sql = b.
Proof.
  intros Hb. destruct v; simpl.
  - destruct Hb as [-> | ->]; intros H; [assert (utf8_decode CLOSE_SQL = Ok CLOSE_SQL) as E by (vm_compute; reflexivity)
      |assert (utf8_decode REOPEN_SQL = Ok REOPEN_SQL) as E by (vm_compute; reflexivity)]; rewrite E in H; by injection H.
  - unfold variant_of. intros H. inv_check. inv_bool.
    assert (utf8_decode (replace TOKEN SLOT b) = Ok (replace TOKEN SLOT b)) as E
      by (destruct Hb as [-> | ->]; vm_compute; reflexivity).
    congruence.
Qed.

(** C32: the count decides: build a batch in either variant, send it to an endpoint that
    runs its statements on the control table, decode the answer: the count is 1
    exactly when the table made the intent's declared transition, and 0 exactly when
    it was not at the expected generation and state and did not change. *)
Theorem exact_count_decides v endpoint batch s body s' t :
  reviewed → exact_endpoint v endpoint →
  body_for ports sha256 v batch s = (Ok body, s') →
  ∃ answer t' n, endpoint body t = (Ok answer, t') ∧ decode_ordered_body answer = Ok n
  ∧ ((n = 1 ∧ transition (fb_intent batch) t t') ∨ (n = 0 ∧ t' = t ∧ ∀ t'', ~ transition (fb_intent batch) t t'')).
Proof.
  intros Hrev Hend H. apply body_for_ok in H as (-> & Hi & (b & Hpin & Hsrc)). set (i := fb_intent batch) in *.
  assert ((i_operation i = "close" ∨ i_operation i = "reopen") ∧ ∃ g, i_expected i = str_of_int g ∧ 1 <= g < Control.MAX_GENERATION)
    as (Hop & g & Hg & Hr).
  { unfold intent_bad in Hi. inv_check. inv_bool. unfold str_in in *. inv_bool. split.
    - match goal with Ho : i_operation i ∈ _ |- _ => rewrite !elem_of_cons, elem_of_nil in Ho; naive_solver end.
    - match goal with Hg : D1Port.generation _ _ = _ |- _ => apply generation_iff, generation_text_iff in Hg as ([= <-] & g & Hg & Hr) end.
      exists g. simpl in Hr. split; [done|lia]. }
  assert (b = if bool_decide (i_operation i = "close") then CLOSE_SQL else REOPEN_SQL) as Hb.
  { destruct Hop as [Ho|Ho]; rewrite Ho in Hpin |- *; by apply Hrev in Hpin. }
  assert (∃ n t', run_update real_text (plain_text v (fb_update_sql batch)) (CText (i_expected i)) t = Ok (n, t')
    ∧ ((n = 1 ∧ transition i t t') ∨ (n = 0 ∧ t' = t ∧ ∀ t'', ~ transition i t t''))) as (n & t' & Hrun & Hn).
  { rewrite (variant_text v b), Hb by (done || (rewrite Hb; destruct Hop as [-> | ->]; auto)). rewrite Hg.
    unfold Control.MAX_GENERATION in Hr.
    assert (run_update real_text (if bool_decide (i_operation i = "close") then CLOSE_SQL else REOPEN_SQL) (CText (str_of_int g)) t
      = update real_text (from_state i) (opposite (from_state i)) (CText (str_of_int g)) t) as ->
      by (unfold from_state; destruct Hop as [-> | ->]; reflexivity).
    assert ((from_state i = "open" ∨ from_state i = "closed") ∧ opposite (from_state i) = target i) as [Hf Hopp]
      by (unfold from_state, target; destruct Hop as [-> | ->]; auto).
    rewrite update_cases by (done || lia). rewrite Hopp.
    destruct (bool_decide_reflect (t = [control_at g (from_state i)])) as [->|Ht]; do 2 eexists; (split; [reflexivity|]).
    - left. split; [done|]. exists g. unfold Control.MAX_GENERATION. split_and!; done || lia.
    - right. split_and!; [done..|]. intros t'' (g' & Hg' & Hr' & -> & _). apply Ht. rewrite Hg in Hg'.
      by apply str_of_int_inj in Hg' as <-; [| |]; try lia. }
  assert (0 <= n <= 1) as Hn01 by (destruct Hn as [[-> _]|[-> _]]; lia).
  destruct (Hend (body_of batch) (fb_update_sql batch) (i_expected i) t n t'
    (strict_json_canonical _ (batch_regular _ _)) Hrun Hn01) as (m1 & m2 & H1 & H2 & Hlen & He).
  exists (canonical (response m1 m2 n)), t', n. split_and!; [done| |done].
  rewrite (decode_back m1 m2 n H1 H2) by (done || lia).
  by destruct Hn as [[-> _]|[-> _]].
Qed.
End Endpoint.

(** ** Witnesses *)

Definition primary_only : list (string * json) := [("served_by_primary", JBool true); ("changed_db", JBool true)].
Lemma primary_only_meta : primary_meta primary_only.
Proof.
  split; [split; [solve_distinct|done]|]. split; [done|]. intros k Hk. unfold completion_keys in Hk.
  rewrite !elem_of_cons, elem_of_nil in Hk. destruct Hk as [->|[->|[->|[->|[->|[]]]]]]; reflexivity.
Qed.

(** An endpoint over the table, for the statements of either variant. *)
Definition site_endpoint (v : variant) (body : string) (t : list ControlRow) : res string * list ControlRow :=
  match strict_json body with
  | Ok (JObj [(_, JArr [JObj [(_, JArr [JStr expected]); (_, JStr sql)]; _])]) =>
      match run_update no_real (plain_text v sql) (CText expected) t with
      | Ok (n, t') => (Ok (canonical (response primary_only primary_only n)), t')
      | Err e => (Err e, t)
      end
  | Ok _ => (Err (External "HTTP 400"), t)
  | Err e => (Err e, t)
  end.

Lemma site_endpoint_exact v : exact_endpoint no_real v (site_endpoint v).
Proof.
  intros body sql expected t n t' Hb Hrun Hn. exists primary_only, primary_only.
  split; [exact primary_only_meta|]. split; [exact primary_only_meta|]. split.
  - assert (n = 0 ∨ n = 1) as [-> | ->] by lia; vm_compute; discriminate.
  - unfold site_endpoint. rewrite Hb.
    change (match run_update no_real (plain_text v sql) (CText expected) t with
      | Ok (n, t') => (Ok (canonical (response primary_only primary_only n)), t')
      | Err e => (Err e, t) end = (Ok (canonical (response primary_only primary_only n)), t')).
    by rewrite Hrun.
Qed.

Lemma site_reviewed : reviewed site_sha256.
Proof.
  assert (∀ name pin b, dict_get name PINS = Some pin → pin ≠ EmptyString →
    (∀ n, In (n, pin) PINS → n = name) → Some (site_sha256 b) = dict_get name PINS → b = site_file name) as H.
  { intros name pin b Hn Hne Hu Hb. rewrite Hn in Hb. injection Hb as Hb. unfold site_sha256 in Hb.
    destruct (List.find _ PINS) as [[n p]|] eqn:E in Hb; [|by subst]. simpl in Hb. subst p.
    apply find_some in E as [Hin E]. apply bool_decide_eq_true in E. simpl in E. by rewrite <- (Hu n Hin), E. }
  intros b. split; (eapply H; [reflexivity|done|]); intros n Hin; simpl in Hin;
    repeat (destruct Hin as [Hin|Hin]; [by injection Hin|]); done.
Qed.

Definition site_batch (v : variant) : Batch :=
  mkBatch first_intent (match v with Named => CLOSE_SQL | Positional => replace TOKEN SLOT CLOSE_SQL end) (boundary_of v).
Definition idle_site : AState Site := new_adapter (mkSite 0 [control_at 41 "open"] false).

Lemma site_body v : ∃ s', body_for site_ports site_sha256 v (site_batch v) idle_site = (Ok (body_of (site_batch v)), s').
Proof. apply fst_is. destruct v; vm_compute; reflexivity. Qed.

Lemma request_exact_witness :
  strict_json (body_of (site_batch Positional))
  = Ok (canon (JObj [("batch", batch_statements (replace TOKEN SLOT CLOSE_SQL) "41")])).
Proof.
  destruct (site_body Positional) as [s' E]. exact (proj1 (request_exact _ _ _ _ _ _ _ E)).
Defined.

Lemma exact_count_decides_witness :
  ∃ answer t', site_endpoint Positional (body_of (site_batch Positional)) [control_at 41 "open"] = (Ok answer, t')
  ∧ transition first_intent [control_at 41 "open"] t'.
Proof.
  destruct (site_body Positional) as [s' E].
  destruct (exact_count_decides site_ports site_sha256 no_real Positional (site_endpoint Positional) _ _ _ _
    [control_at 41 "open"] site_reviewed (site_endpoint_exact Positional) E) as (answer & t' & n & He & _ & [[_ Ht]|(_ & _ & Hno)]).
  - exists answer, t'. exact (conj He Ht).
  - exfalso. apply (Hno [control_at 42 "closed"]). exists 41. split; [reflexivity|]. split; [split; vm_compute; congruence|].
    split; reflexivity.
Defined.
