(* ===== verification/Secrets.v ===== *)
(** scripts/secret_lifecycle_model.py and scripts/secret_ownership_model.py: the
    activation of credentials behind one compare-and-swap revision, and why a secret
    known by name only cannot be owned. *)
From S2P Require Import Prelude.

(** ** scripts/secret_lifecycle_model.py *)

Module Lifecycle.

Inductive status := Planned | Staged | Active | Inactive.
#[export] Instance status_eq_dec : EqDecision status.
Proof. solve_decision. Defined.

Record Grant := mkGrant { g_name : string; g_version : string; g_arn : option string; g_status : status }.
(** The [link] row. *)
Record Link := mkLink { l_revision : Z; l_active : option string }.
Record Db := mkDb { grants : list Grant; link : Link }.
Notation T := (M Db).

(** What [__init__] creates. *)
Definition initial : Db := mkDb [] (mkLink 0 None).

Definition Conflict {A} (why : string) : T A := raise (Refusal why).
Definition IntegrityError {A} : T A := raise (External "IntegrityError").

(** A transaction: an exception rolls back. *)
Definition connect {A} (body : T A) : T A := λ d,
  match body d with (Ok a, d') => (Ok a, d') | (Err e, _) => (Err e, d) end.

Definition grant_of (name : string) (d : Db) : option Grant := List.find (λ g, bool_decide (g_name g = name)) (grants d).
Definition set_status (st : status) (name : string) : T unit := modify (λ d,
  mkDb (map (λ g, if bool_decide (g_name g = name) then mkGrant (g_name g) (g_version g) (g_arn g) st else g) (grants d)) (link d)).

(** [Lifecycle.plan] *)
Definition plan (name version : string) : T unit := connect (λ d,
  if bool_decide (name ∈ map g_name (grants d)) then IntegrityError d
  else (Ok tt, mkDb (grants d ++ [mkGrant name version None Planned]) (link d))).

Definition stageable (name version : string) (g : Grant) : bool :=
  bool_decide (g_name g = name) && bool_decide (g_version g = version) && bool_decide (g_status g = Planned).
(** [Lifecycle.stage]; [name] is the primary key, so [changed] is 0 or 1. *)
Definition stage (name version arn : string) : T unit := connect (
  let* d := get in
  let changed := length (filter (λ g, stageable name version g = true) (grants d)) in
  modify (λ d, mkDb (map (λ g, if stageable name version g then mkGrant (g_name g) (g_version g) (Some arn) Staged else g)
                       (grants d)) (link d)) ;*
  if negb (changed =? 1)%nat then Conflict "Candidate is not planned." else ret tt).

(** [Lifecycle.current] *)
Definition current : T (Z * option string) := connect (gets (λ d, (l_revision (link d), l_active (link d)))).

(** [Lifecycle.activate] *)
Definition activate (name : string) (expected : Z) : T Z := connect (
  let* d := get in
  let revision := l_revision (link d) in
  let active := l_active (link d) in
  if negb (revision =? expected) || negb (bool_decide (g_status <$> grant_of name d = Some Staged))
  then Conflict "Activation revision or candidate changed." else
  match active with Some a => set_status Inactive a | None => ret tt end ;*
  set_status Active name ;*
  modify (λ d, mkDb (grants d) (mkLink (l_revision (link d) + 1) (Some name))) ;*
  ret (revision + 1)).

(** [Lifecycle.disconnect] *)
Definition disconnect (expected : Z) : T unit := connect (
  let* d := get in
  if negb (l_revision (link d) =? expected) then Conflict "Disconnect revision changed." else
  modify (λ d, mkDb (map (λ g, mkGrant (g_name g) (g_version g) (g_arn g) Inactive) (grants d))
                 (mkLink (l_revision (link d) + 1) None))).

(** [Lifecycle.cleanup_allowed] *)
Definition cleanup_allowed (name : string) : T bool := connect (gets (λ d,
  match grant_of name d with
  | Some g => bool_decide (g_status g = Inactive) && negb (bool_decide (l_active (link d) = Some name))
  | None => false
  end)).

Inductive call :=
| CPlan (name version : string)
| CStage (name version arn : string)
| CActivate (name : string) (expected : Z)
| CDisconnect (expected : Z).

Definition discard {A} (m : T A) : T unit := m ;* ret tt.
Definition run_call (c : call) : T unit :=
  match c with
  | CPlan n v => plan n v
  | CStage n v a => stage n v a
  | CActivate n e => discard (activate n e)
  | CDisconnect e => disconnect e
  end.
(** Calls of any processes, one transaction at a time, refused ones included. *)
Fixpoint after (h : list call) (d : Db) : Db :=
  match h with [] => d | c :: h => after h (run_call c d).2 end.

(** ** Invariant *)

(** Names are unique, and the active grants are exactly what the link names. *)
Record sound (d : Db) : Prop := {
  sd_names : NoDup (map g_name (grants d));
  sd_active : ∀ g, g ∈ grants d → g_status g = Active ↔ l_active (link d) = Some (g_name g);
  sd_link : ∀ n, l_active (link d) = Some n → n ∈ map g_name (grants d);
}.

(** What a call may do to one grant. *)
Inductive moves : status → status → Prop :=
| MSame s : moves s s
| MStage : moves Planned Staged
| MActivate : moves Staged Active
| MRetire s : moves s Inactive.

Lemma grant_of_some name d g : grant_of name d = Some g → g ∈ grants d ∧ g_name g = name.
Proof. unfold grant_of. intros [H1 H2]%find_some. apply bool_decide_eq_true in H2. by rewrite list_elem_of_In. Qed.
Lemma names_eq d g h : NoDup (map g_name (grants d)) → g ∈ grants d → h ∈ grants d → g_name g = g_name h → g = h.
Proof.
  generalize (grants d). intros l. induction l as [|x l IH]; simpl; intros Hn Hg Hh E; [by apply elem_of_nil in Hg|].
  apply NoDup_cons in Hn as [Hx Hn].
  apply elem_of_cons in Hg as [-> | Hg], Hh as [-> | Hh]; [done| | |auto].
  - destruct Hx. rewrite E. by apply list_elem_of_fmap_2.
  - destruct Hx. rewrite <- E. by apply list_elem_of_fmap_2.
Qed.
Lemma grant_of_in d g : NoDup (map g_name (grants d)) → g ∈ grants d → grant_of (g_name g) d = Some g.
Proof.
  intros Hn Hg. unfold grant_of. destruct (List.find _ _) as [h|] eqn:E.
  - apply (grant_of_some _ d) in E as [Hh E]. f_equal. by apply (names_eq d).
  - apply list_elem_of_In in Hg. apply (find_none _ _ E) in Hg. by rewrite bool_decide_true in Hg.
Qed.

(** *** What each call does *)

Definition with_status (st : status) (g : Grant) : Grant := mkGrant (g_name g) (g_version g) (g_arn g) st.
Definition set_in (st : status) (name : string) (l : list Grant) : list Grant :=
  map (λ g, if bool_decide (g_name g = name) then with_status st g else g) l.
Definition retire (active : option string) (l : list Grant) : list Grant :=
  match active with Some a => set_in Inactive a l | None => l end.
Definition staged_in (name version arn : string) (l : list Grant) : list Grant :=
  map (λ g, if stageable name version g then mkGrant (g_name g) (g_version g) (Some arn) Staged else g) l.

Definition effect (c : call) (d : Db) : Db :=
  match c with
  | CPlan n v => mkDb (grants d ++ [mkGrant n v None Planned]) (link d)
  | CStage n v a => mkDb (staged_in n v a (grants d)) (link d)
  | CActivate n e => mkDb (set_in Active n (retire (l_active (link d)) (grants d))) (mkLink (e + 1) (Some n))
  | CDisconnect e => mkDb (map (with_status Inactive) (grants d)) (mkLink (e + 1) None)
  end.
(** The guard under which a call succeeds. *)
Definition admitted (c : call) (d : Db) : Prop :=
  match c with
  | CPlan n v => n ∉ map g_name (grants d)
  | CStage n v a => length (filter (λ g, stageable n v g = true) (grants d)) = 1%nat
  | CActivate n e => l_revision (link d) = e ∧ g_status <$> grant_of n d = Some Staged
  | CDisconnect e => l_revision (link d) = e
  end.

Lemma run_call_exact c d :
  (admitted c d ∧ run_call c d = (Ok tt, effect c d)) ∨ (~ admitted c d ∧ ∃ e, run_call c d = (Err e, d)).
Proof.
  destruct c as [n v|n v a|n e|e]; unfold run_call, plan, stage, activate, disconnect, discard, connect, admitted.
  - destruct (bool_decide_reflect (n ∈ map g_name (grants d))); [right|left]; split; eauto.
  - unfold bind, get, modify. simpl. destruct (length _ =? 1)%nat eqn:E; simpl.
    + left. by apply Nat.eqb_eq in E.
    + right. apply Nat.eqb_neq in E. split; [done|]. by eexists.
  - unfold bind, get. destruct (Z.eqb_spec (l_revision (link d)) e) as [<-|Hr]; simpl.
    + destruct (bool_decide_reflect (g_status <$> grant_of n d = Some Staged)) as [Hs|Hs]; simpl.
      * left. split; [done|]. unfold effect, retire, set_in, with_status.
        by destruct (l_active (link d)).
      * right. split; [by intros [_ ?]|]. by eexists.
    + right. split; [by intros [? _]|]. by eexists.
  - unfold bind, get, modify. destruct (Z.eqb_spec (l_revision (link d)) e) as [<-|Hr]; simpl.
    + left. done.
    + right. split; [done|]. by eexists.
Qed.

(** *** Preservation *)

Lemma set_in_names st n l : map g_name (set_in st n l) = map g_name l.
Proof. unfold set_in. rewrite map_map. apply map_ext. intros g. by destruct (bool_decide _). Qed.
Lemma retire_names a l : map g_name (retire a l) = map g_name l.
Proof. destruct a; [apply set_in_names|done]. Qed.
Lemma staged_names n v a l : map g_name (staged_in n v a l) = map g_name l.
Proof. unfold staged_in. rewrite map_map. apply map_ext. intros g. by destruct (stageable n v g). Qed.

Lemma stageable_planned n v g : stageable n v g = true → g_name g = n ∧ g_status g = Planned.
Proof. unfold stageable. intros H. inv_bool. auto. Qed.

Lemma in_map {A B} (f : A → B) l y : y ∈ map f l ↔ ∃ x, y = f x ∧ x ∈ l.
Proof. apply list_elem_of_fmap. Qed.

Lemma effect_sound c d : sound d → admitted c d → sound (effect c d).
Proof.
  intros [Hn Ha Hl]. destruct c as [n v|n v a|n e|e]; simpl.
  - intros Hnew. split; simpl.
    + rewrite map_app. apply NoDup_app. split; [done|]. split; [|apply NoDup_singleton]. set_solver.
    + intros g [Hg|Hg]%elem_of_app; [by apply Ha|]. apply list_elem_of_singleton in Hg as ->. simpl.
      split; [done|]. by intros Hx%Hl.
    + intros x Hx%Hl. rewrite map_app. set_solver.
  - intros _. split; simpl.
    + by rewrite staged_names.
    + intros g (h & -> & Hh)%in_map. destruct (stageable n v h) eqn:E; [|by apply Ha].
      apply stageable_planned in E as [_ E]. simpl. split; [done|]. intros Hx. apply Ha in Hx; [congruence|done].
    + intros x Hx. rewrite staged_names. auto.
  - intros [<- Hs]. split; simpl.
    + by rewrite set_in_names, retire_names.
    + intros g (h & -> & Hh)%in_map. destruct (bool_decide_reflect (g_name h = n)) as [<-|Hne]; simpl; [done|].
      split; [|by intros [= ->]]. intros Hact. exfalso. unfold retire, set_in in Hh.
      destruct (l_active (link d)) as [a|] eqn:Ea.
      * apply in_map in Hh as (k & -> & Hk). destruct (bool_decide_reflect (g_name k = a)) as [Hka|Hka]; [done|].
        apply Ha in Hact; [congruence|done].
      * apply Ha in Hact; [congruence|done].
    + intros x [= <-]. rewrite set_in_names, retire_names.
      destruct (grant_of n d) as [g|] eqn:E; [|done]. apply grant_of_some in E as [Hg <-]. by apply list_elem_of_fmap_2.
  - intros _. split; simpl.
    + by rewrite map_map.
    + intros g (h & -> & Hh)%in_map. simpl. done.
    + done.
Qed.

(** Every grant stays, with its version, and moves along its life. *)
Lemma effect_moves c d g : sound d → admitted c d → g ∈ grants d →
  ∃ h, h ∈ grants (effect c d) ∧ g_name h = g_name g ∧ g_version h = g_version g ∧ moves (g_status g) (g_status h).
Proof.
  intros [Hn Ha Hl] Had Hg. destruct c as [n v|n v a|n e|e]; simpl in *.
  - exists g. split; [set_solver|]. split_and!; constructor.
  - eexists. split; [by apply list_elem_of_fmap_2|]. destruct (stageable n v g) eqn:E; simpl.
    + apply stageable_planned in E as [_ ->]. split_and!; constructor.
    + split_and!; constructor.
  - destruct Had as [<- Hs].
    assert (∃ k, k ∈ retire (l_active (link d)) (grants d) ∧ g_name k = g_name g ∧ g_version k = g_version g
      ∧ (k = g ∨ g_status k = Inactive ∧ g_status g = Active)) as (k & Hk & En & Ev & Ek).
    { unfold retire. destruct (l_active (link d)) as [a|] eqn:Ea; [|exists g; auto].
      eexists. split; [by apply list_elem_of_fmap_2|]. destruct (bool_decide_reflect (g_name g = a)) as [<-|]; simpl; [|auto].
      split_and!; [done..|]. right. split; [done|]. by apply Ha. }
    eexists. split; [by apply list_elem_of_fmap_2|]. destruct (bool_decide_reflect (g_name k = n)) as [E|]; simpl.
    + split_and!; [done..|]. rewrite En in E. subst n. rewrite (grant_of_in d g Hn Hg) in Hs. simpl in Hs.
      injection Hs as Hs. rewrite Hs. constructor.
    + split_and!; [done..|]. destruct Ek as [->|[-> _]]; constructor.
  - eexists. split; [by apply list_elem_of_fmap_2|]. split_and!; constructor.
Qed.

Lemma after_sound h : ∀ d, sound d → sound (after h d).
Proof.
  induction h as [|c h IH]; intros d Hd; [done|]. simpl. apply IH.
  destruct (run_call_exact c d) as [[Had ->]|[_ [e ->]]]; [by apply effect_sound|done].
Qed.
Lemma initial_sound : sound initial.
Proof. split; simpl; [constructor|set_solver|done]. Qed.

Lemma inactive_stays h : ∀ d n, sound d → g_status <$> grant_of n d = Some Inactive →
  g_status <$> grant_of n (after h d) = Some Inactive.
Proof.
  induction h as [|c h IH]; intros d n Hd Hs; [done|]. simpl.
  destruct (run_call_exact c d) as [[Had ->]|[_ [e ->]]]; [|by apply IH]. pose proof (effect_sound c d Hd Had) as Hd'.
  apply IH; [done|]. destruct (grant_of n d) as [g|] eqn:E; [|done]. simpl in Hs. injection Hs as Hs.
  apply grant_of_some in E as [Hg <-]. destruct (effect_moves c d g Hd Had Hg) as (h' & Hh & En & _ & Hm).
  cbn [snd]. rewrite <- En, (grant_of_in _ h' (sd_names _ Hd') Hh). simpl. rewrite Hs in Hm. by inversion Hm.
Qed.

Lemma active_status d n : sound d → l_active (link d) = Some n ↔ g_status <$> grant_of n d = Some Active.
Proof.
  intros Hd. split.
  - intros Hl. pose proof (sd_link _ Hd n Hl) as Hn. apply list_elem_of_fmap in Hn as (g & -> & Hg).
    rewrite (grant_of_in d g (sd_names _ Hd) Hg). simpl. f_equal. by apply (sd_active _ Hd g Hg).
  - destruct (grant_of n d) as [g|] eqn:E; [|done]. apply grant_of_some in E as [Hg <-]. intros [= Hs]. by apply (sd_active _ Hd g Hg).
Qed.
(** A credential that was active or retired is active or retired. *)
Lemma active_stays h : ∀ d n, sound d → g_status <$> grant_of n d = Some Active ∨ g_status <$> grant_of n d = Some Inactive →
  g_status <$> grant_of n (after h d) = Some Active ∨ g_status <$> grant_of n (after h d) = Some Inactive.
Proof.
  induction h as [|c h IH]; intros d n Hd Hs; [done|]. simpl.
  destruct (run_call_exact c d) as [[Had ->]|[_ [e ->]]]; [|by apply IH]. pose proof (effect_sound c d Hd Had) as Hd'.
  apply IH; [done|]. destruct (grant_of n d) as [g|] eqn:E; [|by destruct Hs]. simpl in Hs.
  apply grant_of_some in E as [Hg <-]. destruct (effect_moves c d g Hd Had Hg) as (h' & Hh & En & _ & Hm).
  cbn [snd]. rewrite <- En, (grant_of_in _ h' (sd_names _ Hd') Hh). simpl.
  destruct Hs as [[= Hs]|[= Hs]]; rewrite Hs in Hm; inversion Hm; auto.
Qed.

Lemma revision_grows h : ∀ d, l_revision (link d) <= l_revision (link (after h d)).
Proof.
  induction h as [|c h IH]; intros d; [done|]. simpl.
  destruct (run_call_exact c d) as [[Had ->]|[_ [e ->]]]; [|apply IH].
  etransitivity; [|apply IH]. destruct c; simpl in *; lia.
Qed.

Lemma cleanup_exact d n : sound d →
  cleanup_allowed n d = (Ok true, d) ↔ g_status <$> grant_of n d = Some Inactive.
Proof.
  intros Hd. unfold cleanup_allowed, connect, gets. destruct (grant_of n d) as [g|] eqn:E; simpl; [|by split].
  apply grant_of_some in E as [Hg <-]. destruct (bool_decide_reflect (g_status g = Inactive)) as [Hi|Hs]; simpl.
  - rewrite Hi. split; [done|]. intros _. do 2 f_equal. apply negb_true_iff, bool_decide_eq_false. intros Hl.
    apply (sd_active _ Hd g Hg) in Hl. congruence.
  - split; [done|congruence].
Qed.

Lemma cleanup_answers d n : sound d →
  ∃ b, cleanup_allowed n d = (Ok b, d) ∧ (b = true ↔ g_status <$> grant_of n d = Some Inactive).
Proof.
  intros Hd. assert (∃ b, cleanup_allowed n d = (Ok b, d)) as [b E] by (eexists; reflexivity). exists b. split; [done|].
  rewrite <- (cleanup_exact d n Hd), E. split; [by intros ->|]. by intros [= ->].
Qed.

(** C38: the life of a credential, over every history of calls: names stay unique and
    the one active credential is the one the link names. [cleanup_allowed] always
    answers, and it answers true exactly for the retired credentials: one that was
    active and no longer is has been retired, and one that is retired stays so for ever
    after, so nothing that was ever cleared for cleanup is, or will be, in use. *)
Theorem lifecycle_cleanup h h' n :
  let d := after h initial in
  let d' := after h' d in
  sound d
  ∧ (∃ b, cleanup_allowed n d = (Ok b, d) ∧ (b = true ↔ g_status <$> grant_of n d = Some Inactive))
  ∧ (l_active (link d) = Some n → l_active (link d') ≠ Some n → cleanup_allowed n d' = (Ok true, d'))
  ∧ (cleanup_allowed n d = (Ok true, d) → cleanup_allowed n d' = (Ok true, d') ∧ l_active (link d') ≠ Some n).
Proof.
  intros d d'. assert (sound d) as Hd by apply after_sound, initial_sound. assert (sound d') as Hd' by by apply after_sound.
  split; [done|]. split_and!; [by apply cleanup_answers| |].
  - intros Ha Hn. apply cleanup_exact; [done|]. apply active_status in Ha; [|done]. destruct (active_stays h' d n Hd (or_introl Ha)) as [H|H]; [|exact H].
    by apply active_status in H.
  - intros Hc. apply cleanup_exact in Hc; [|done]. apply (inactive_stays h') in Hc; [|done]. fold d' in Hc.
    split; [by apply cleanup_exact|]. intros Hl%active_status; [congruence|done].
Qed.

(** the revision is a compare-and-swap: once an activation or a disconnect at a
    revision has succeeded, no activation or disconnect that expects that revision
    ever succeeds again, whatever happens in between. *)
Theorem lifecycle_cas c c' e d h :
  (∃ n, c = CActivate n e) ∨ c = CDisconnect e → (∃ n, c' = CActivate n e) ∨ c' = CDisconnect e →
  (run_call c d).1 = Ok tt →
  let d' := after h (run_call c d).2 in ∃ x, run_call c' d' = (Err x, d').
Proof.
  intros Hc Hc' Hok d'. destruct (run_call_exact c d) as [[Had E]|[_ [x E]]]; [|by rewrite E in Hok].
  destruct (run_call_exact c' d') as [[Had' _]|[_ Hx]]; [|done]. exfalso.
  assert (l_revision (link (run_call c d).2) = e + 1) as Hr by (rewrite E; by destruct Hc as [[n ->]| ->]).
  pose proof (revision_grows h (run_call c d).2) as Hg. fold d' in Hg.
  assert (l_revision (link d') = e) by (destruct Hc' as [[n ->]| ->]; simpl in Had'; tauto). lia.
Qed.

Lemma lifecycle_cleanup_witness :
  let h := [CPlan "a" "1"; CStage "a" "1" "arn"; CActivate "a" 0] in
  let d := after h initial in
  let d' := after [CDisconnect 1] d in
  cleanup_allowed "a" d = (Ok false, d) ∧ cleanup_allowed "a" d' = (Ok true, d').
Proof.
  split; [vm_compute; reflexivity|].
  destruct (lifecycle_cleanup [CPlan "a" "1"; CStage "a" "1" "arn"; CActivate "a" 0] [CDisconnect 1] "a") as (_ & _ & H & _).
  apply H; [vm_compute; reflexivity|vm_compute; discriminate].
Defined.
Lemma lifecycle_cas_witness :
  let d := after [CPlan "a" "1"; CStage "a" "1" "arn"; CPlan "b" "1"; CStage "b" "1" "arn"] initial in
  ∃ x, run_call (CActivate "b" 0) (run_call (CActivate "a" 0) d).2 = (Err x, (run_call (CActivate "a" 0) d).2).
Proof.
  intros d. refine (lifecycle_cas (CActivate "a" 0) (CActivate "b" 0) 0 d [] _ _ _).
  - left. exists "a". reflexivity.
  - left. exists "b". reflexivity.
  - vm_compute. reflexivity.
Defined.
End Lifecycle.

(** ** scripts/secret_ownership_model.py *)

Module Ownership.

Record Event := mkEvent { ev_operation : string; ev_actor : string; ev_previous_lineage : option string }.

(** [lineage] is the ghost of the test oracle: no operation reads it but to record it. *)
Record NameOnlyStore := mkStore { st_name : string; st_lineage : option string; st_events : list Event }.

Definition metadata (s : NameOnlyStore) : option string :=
  match st_lineage s with Some _ => Some (st_name s) | None => None end.
Definition put (actor : string) (s : NameOnlyStore) : NameOnlyStore :=
  mkStore (st_name s) (Some actor) (st_events s ++ [mkEvent "put" actor (st_lineage s)]).
Definition delete (actor : string) (s : NameOnlyStore) : NameOnlyStore :=
  mkStore (st_name s) None (st_events s ++ [mkEvent "delete" actor (st_lineage s)]).

Record LocalAttempt := mkAttempt {
  at_store : NameOnlyStore;
  at_locked : bool;
  at_absent_observed : bool;
  at_acknowledged_name : option string;
  at_cleanup_observed : bool;
  at_refused : bool;
}.
Notation L := (M LocalAttempt).

Definition new_attempt (s : NameOnlyStore) : LocalAttempt := mkAttempt s false false None false false.

(** [LocalAttempt.acquire] *)
Definition acquire : L bool := λ a,
  if at_locked a then (Ok false, a)
  else (Ok true, mkAttempt (at_store a) true (at_absent_observed a) (at_acknowledged_name a) (at_cleanup_observed a) (at_refused a)).

Definition LOCAL_STEPS : list string := ["absence"; "put"; "metadata_recheck"; "delete"].

(** [LocalAttempt.step] *)
Definition step (operation : string) : L unit := λ a,
  if negb (at_locked a) then (Err (Refusal "local_lock_required"), a)
  else if negb (str_in operation LOCAL_STEPS) then (Err (Refusal "unknown_model_step"), a)
  else if at_refused a then (Ok tt, a)
  else if bool_decide (operation = "absence") then
    let absent := bool_decide (metadata (at_store a) = None) in
    (Ok tt, mkAttempt (at_store a) (at_locked a) absent (at_acknowledged_name a) (at_cleanup_observed a) (negb absent))
  else if bool_decide (operation = "put") then
    if negb (at_absent_observed a) then (Err (Refusal "absence_required"), a)
    else (Ok tt, mkAttempt (put "local" (at_store a)) (at_locked a) (at_absent_observed a)
                   (Some (st_name (at_store a))) (at_cleanup_observed a) (at_refused a))
  else if bool_decide (operation = "metadata_recheck") then
    (Ok tt, mkAttempt (at_store a) (at_locked a) (at_absent_observed a) (at_acknowledged_name a)
              (bool_decide (metadata (at_store a) = at_acknowledged_name a)) (at_refused a))
  else if bool_decide (at_acknowledged_name a = None) || negb (at_cleanup_observed a) then
    (Ok tt, mkAttempt (at_store a) (at_locked a) (at_absent_observed a) (at_acknowledged_name a) (at_cleanup_observed a) true)
  else (Ok tt, mkAttempt (delete "local" (at_store a)) (at_locked a) (at_absent_observed a) (at_acknowledged_name a)
                 (at_cleanup_observed a) (at_refused a)).

Definition foreign_put : L unit := modify (λ a,
  mkAttempt (put "foreign" (at_store a)) (at_locked a) (at_absent_observed a) (at_acknowledged_name a)
    (at_cleanup_observed a) (at_refused a)).

(** The loop of [interleaving] from step [index] on. *)
Fixpoint run_steps (foreign_gap index : Z) (operations : list string) : L unit :=
  match operations with
  | [] => when (foreign_gap =? index) foreign_put
  | operation :: operations =>
      when (foreign_gap =? index) foreign_put ;*
      step operation ;*
      run_steps foreign_gap (index + 1) operations
  end.
Definition gap_bad (foreign_gap : Z) : bool := negb ((0 <=? foreign_gap) && (foreign_gap <=? Z.of_nat (length LOCAL_STEPS))).
(** The attempt that [interleaving] makes; it answers its store. *)
Definition attempt (foreign_gap : Z) (name : string) : res unit * LocalAttempt :=
  (acquire ;* run_steps foreign_gap 0 LOCAL_STEPS) (new_attempt (mkStore name None [])).
Definition interleaving (foreign_gap : Z) (name : string) : res NameOnlyStore :=
  refuse_if (gap_bad foreign_gap) "invalid_model_gap" ;?
  match attempt foreign_gap name with (Ok _, a) => Ok (at_store a) | (Err e, _) => Err e end.

Definition violations (s : NameOnlyStore) : list string :=
  map (λ e, if bool_decide (ev_operation e = "put") then "foreign_overwritten" else "foreign_deleted")
    (filter (λ e, ev_actor e = "local" ∧ ev_previous_lineage e = Some "foreign") (st_events s)).

Fixpoint checkpoints (foreign_gap index : Z) (n : nat) (s : NameOnlyStore) : NameOnlyStore :=
  match n with
  | O => s
  | S n => checkpoints foreign_gap (index + 1) n (if foreign_gap =? index then put "foreign" s else s)
  end.
Definition mutation_free_boundary (foreign_gap : Z) (initially_present : bool) : res NameOnlyStore :=
  refuse_if (gap_bad foreign_gap) "invalid_model_gap" ;?
  Ok (checkpoints foreign_gap 0 (S (length LOCAL_STEPS))
        (mkStore "FGA_FIXED_ORIGIN_CAPABILITY" (if initially_present then Some "foreign-initial" else None) [])).

(** What the local operator can see: its own receipts, and metadata of the name. *)
Definition view (a : LocalAttempt) : bool * option string * bool * bool :=
  (at_absent_observed a, at_acknowledged_name a, at_cleanup_observed a, at_refused a).

Lemma gap_cases gap : gap_bad gap = false → gap = 0 ∨ gap = 1 ∨ gap = 2 ∨ gap = 3 ∨ gap = 4.
Proof. unfold gap_bad. intros H. inv_bool. simpl in *. lia. Qed.

(** The whole attempt, evaluated at any name. *)
Lemma attempt_runs gap name : gap_bad gap = false →
  ∃ a, attempt gap name = (Ok tt, a)
  ∧ violations (at_store a) = (if gap =? 1 then ["foreign_overwritten"]
                               else if (gap =? 2) || (gap =? 3) then ["foreign_deleted"] else [])
  ∧ (1 <= gap → view a = (true, Some name, true, false)) ∧ (gap = 0 → view a = (false, None, false, true)).
Proof.
  assert (bool_decide (Some name = Some name) = true) as E by by apply bool_decide_true.
  intros [-> | [-> | [-> | [-> | ->]]]]%gap_cases; unfold attempt, run_steps, LOCAL_STEPS, step, acquire, foreign_put,
    metadata, bind, when, modify, ret; simpl; unfold metadata; simpl; rewrite ?E; simpl; eexists; (split; [reflexivity|]);
    (split_and!; [reflexivity|done || lia|done || lia]).
Qed.

(** why a name is not ownership. For every timing of one foreign write the attempt
    completes, and it destroys the foreign secret exactly when the write falls between
    its absence check and its deletion; and what the operator sees then is what it
    sees when nobody interferes. The proposed boundary without local writes damages
    nothing at any timing. *)
Theorem ownership_undecidable gap name : 0 <= gap <= 4 →
  ∃ a clean, attempt gap name = (Ok tt, a) ∧ interleaving gap name = Ok (at_store a)
  ∧ attempt 4 name = (Ok tt, clean) ∧ violations (at_store clean) = []
  ∧ (violations (at_store a) ≠ [] ↔ 1 <= gap <= 3) ∧ (1 <= gap → view a = view clean)
  ∧ ∀ present, ∃ s, mutation_free_boundary gap present = Ok s ∧ violations s = [].
Proof.
  intros Hg. assert (gap_bad gap = false) as Hb.
  { unfold gap_bad. apply negb_false_iff, andb_true_iff. rewrite !Z.leb_le. simpl. lia. }
  destruct (attempt_runs gap name Hb) as (a & E & V & Hv & _).
  destruct (attempt_runs 4 name eq_refl) as (c & Ec & Vc & Hc & _). exists a, c.
  split_and!; [done| |done|done| | |].
  - unfold interleaving. by rewrite Hb, E.
  - rewrite V. destruct (Z.eqb_spec gap 1) as [->|]; [split; [lia|done]|].
    destruct (Z.eqb_spec gap 2) as [->|]; [split; [lia|done]|]. destruct (Z.eqb_spec gap 3) as [->|]; [split; [lia|done]|].
    simpl. split; [done|lia].
  - intros H1. rewrite Hv, Hc by lia. done.
  - intros present. unfold mutation_free_boundary. rewrite Hb. eexists. split; [reflexivity|].
    destruct (gap_cases gap Hb) as [-> | [-> | [-> | [-> | ->]]]]; by destruct present.
Qed.

Lemma ownership_undecidable_witness :
  ∃ a clean, attempt 3 "SECRET" = (Ok tt, a) ∧ attempt 4 "SECRET" = (Ok tt, clean) ∧ view a = view clean
  ∧ violations (at_store a) ≠ [].
Proof.
  destruct (ownership_undecidable 3 "SECRET") as (a & c & E & _ & Ec & _ & [_ V] & Hv & _); [split; vm_compute; discriminate|].
  exists a, c. split_and!; [exact E|exact Ec|apply Hv; vm_compute; discriminate|apply V; split; vm_compute; discriminate].
Defined.
End Ownership.
