(* ===== verification/FixedOrigin.v ===== *)
(** The one-attempt lifecycle of scripts/fixed_origin_lifecycle.py: a journal in
    which every mutation is latched before it is invoked, one owner at a time, and a
    cleanup that deletes only what this run created. *)
From S2P Require Import Prelude Json JsonParse.

(** ** Data *)

Definition LIMIT_FGA : Z := 96.
Definition LIMIT_RECEIVER : Z := 16.
Definition LIFETIME_MS : Z := 1200000.
Definition SECRET_NAMES : list string := ["FGA_FIXED_ORIGIN_CAPABILITY"; "FGA_FIXED_ORIGIN_CANARY"].
Definition QUALIFICATION_BINDINGS : list string :=
  ["FIXED_ORIGIN_DB"; "FIXED_ORIGIN_RUN"; "FIXED_ORIGIN_CAPABILITY"; "FIXED_ORIGIN_CANARY"; "FIXED_ORIGIN_RECEIVER"].

(** A [{"kind": ..., "name": ...}] row. *)
Record Resource := mkResource { kind : string; name : string }.
#[export] Instance Resource_eq_dec : EqDecision Resource.
Proof. solve_decision. Defined.

(** A value of [state["operations"]]: [attempted] is always true in one. *)
Record Entry := mkEntry { acknowledged : bool; result : option json }.

(** The JSON body of the journal's one row, kept as the document it encodes. *)
Record Body := mkBody {
  run : string;
  starts_at : Z;
  expires_at : Z;
  qualification_starts_at : Z;
  qualification_expires_at : Z;
  capture_digest : string;
  operations : list (string * Entry);
  resources : list Resource;
  cleanup_confirmed : option bool;
  outcome : option string;
}.

(** The calls of [OfflineOperations], with their arguments. *)
Inductive Request :=
| Absent (kind name : string)
| Create (kind name : string)
| InitializeGuard (run : string) (starts_at expires_at : Z)
| ReadGuard (run : string)
| Install (bindings : list string) (run : string) (starts_at expires_at : Z)
| Disable (run : string)
| Restore (capture_digest : string)
| Delete (kind name : string) (identity : json).

(** A [Lifecycle] object of the file: its constructor's arguments. *)
Record Instance_ := mkInstance {
  i_run : string;
  i_starts_at : pyval;
  i_capture_digest : string;
  i_offline : bool;
}.

(** ** Failures

    [Cancelled] is a [BaseException] that is not an [Exception]; [Killed] is the end
    of the process: no handler and no [finally] runs after it. *)
Definition Cancelled : exn := External "KeyboardInterrupt".
Definition Killed : exn := External "process killed".
Definition is_exception (e : exn) : bool := negb (bool_decide (e = Cancelled)) && negb (bool_decide (e = Killed)).

(** The journal's connection under one access: it works, raises before anything is
    durable, or raises after its commit. *)
Inductive io := Healthy | FailBefore (e : exn) | LostAck (e : exn).

Section Lifecycle.
Context {W : Type} (perform : Request → M W json) (clock : M W pyval) (fate : nat → io).

(** What the instances share: the journal row, the ownership marker, the world of
    the operations object, the number of journal accesses so far, and - for the
    theorems only - the calls of the operations object with their answers. *)
Record Site := mkSite {
  file : option Body;
  marker : bool;
  world : W;
  accesses : nat;
  log : list (Request * res json);
}.

Definition invoke (r : Request) : M Site json := λ s,
  let a := perform r (world s) in
  (a.1, mkSite (file s) (marker s) a.2 (accesses s) (log s ++ [(r, a.1)])).
Definition on_clock : M Site pyval := λ s,
  let a := clock (world s) in (a.1, mkSite (file s) (marker s) a.2 (accesses s) (log s)).

(** One transaction on the row: committed on a normal exit, rolled back on an
    exception; [fetchone()] of a missing row is [None], which has no item 0. *)
Definition transaction {A} (m : M Body A) : M Site A := λ s,
  let at_ f := mkSite f (marker s) (world s) (S (accesses s)) (log s) in
  match fate (accesses s), file s with
  | FailBefore e, _ => (Err e, at_ (file s))
  | _, None => (Err (External "TypeError"), at_ None)
  | Healthy, Some b =>
      match m b with
      | (Ok a, b') => (Ok a, at_ (Some b'))
      | (Err e, _) => (Err e, at_ (Some b))
      end
  | LostAck e, Some b =>
      match m b with
      | (Ok _, b') => (Err e, at_ (Some b'))
      | (Err e', _) => (Err e', at_ (Some b))
      end
  end.
Definition state : M Site Body := transaction get.

(** [try: m except Exception: h] *)
Definition except {A} (m h : M Site A) : M Site A := λ s,
  match m s with
  | (Err e, s') => if is_exception e then h s' else (Err e, s')
  | r => r
  end.
(** [try: m finally: f] *)
Definition finally {A B} (m : M Site A) (f : M Site B) : M Site A := λ s,
  match m s with
  | (Ok a, s') => match f s' with (Ok _, s2) => (Ok a, s2) | (Err e, s2) => (Err e, s2) end
  | (Err e, s') =>
      if bool_decide (e = Killed) then (Err e, s')
      else match f s' with (Ok _, s2) => (Err e, s2) | (Err e2, s2) => (Err e2, s2) end
  end.
Definition refuse (bad : bool) (label : string) : M Site unit := lift (refuse_if bad label).

(** ** [__init__] *)

Definition fresh_body (i : Instance_) (starts : Z) : Body :=
  mkBody (i_run i) starts (starts + LIFETIME_MS) starts (starts + 600000) (i_capture_digest i) []
    (mkResource "d1" ("fga-fixed-origin-db-" +:+ i_run i)
     :: mkResource "receiver" ("fga-fixed-origin-recv-" +:+ i_run i)
     :: map (mkResource "actions-secret") SECRET_NAMES)
    None None.

Definition is_hex32 (s : string) : bool := (slen s =? 32) && str_forall is_hex s.

Definition same_scope (a b : Body) : bool :=
  bool_decide (run a = run b) && (starts_at a =? starts_at b) && (expires_at a =? expires_at b)
  && (qualification_starts_at a =? qualification_starts_at b)
  && (qualification_expires_at a =? qualification_expires_at b)
  && bool_decide (capture_digest a = capture_digest b) && bool_decide (resources a = resources b).

(** [INSERT OR IGNORE INTO journal VALUES (1, ?)] *)
Definition insert_or_ignore (b : Body) : M Site unit := λ s,
  let at_ f := mkSite f (marker s) (world s) (S (accesses s)) (log s) in
  let inserted := Some (match file s with Some old => old | None => b end) in
  match fate (accesses s) with
  | FailBefore e => (Err e, at_ (file s))
  | Healthy => (Ok tt, at_ inserted)
  | LostAck e => (Err e, at_ inserted)
  end.

Definition open_ (i : Instance_) : M Site unit :=
  match i_starts_at i with
  | PInt starts =>
      refuse (negb (is_hex32 (i_run i)) || negb (is_digest (i_capture_digest i)) || (starts <? 0)
              || negb (i_offline i)) "invalid_offline_scope" ;*
      let fresh := fresh_body i starts in
      insert_or_ignore fresh ;*
      let* saved := state in
      refuse (negb (same_scope saved fresh)) "journal_scope_mismatch"
  | _ => raise (Refusal "invalid_offline_scope")
  end.

(** ** The latch *)

Definition with_operations (f : list (string * Entry) → list (string * Entry)) (b : Body) : Body :=
  mkBody (run b) (starts_at b) (expires_at b) (qualification_starts_at b) (qualification_expires_at b)
    (capture_digest b) (f (operations b)) (resources b) (cleanup_confirmed b) (outcome b).

Definition latch_tx (key : string) : M Body unit :=
  let* b := get in
  lift (refuse_if (bool_decide (is_Some (dict_get key (operations b)))) "operation_already_attempted") ;*
  put (with_operations (dict_set key (mkEntry false None)) b).
Definition acknowledge_tx (key : string) (v : json) : M Body unit :=
  let* b := get in
  match dict_get key (operations b) with
  | Some _ => put (with_operations (dict_set key (mkEntry true (Some v))) b)
  | None => raise (External "KeyError")
  end.

Definition once (key : string) (operation : M Site json) : M Site json :=
  transaction (latch_tx key) ;*
  let* v := operation in
  transaction (acknowledge_tx key v) ;*
  ret v.

(** [os.open(lock_path, O_CREAT | O_EXCL)] around a whole call *)
Definition set_marker (b : bool) : M Site unit := λ s,
  (Ok tt, mkSite (file s) b (world s) (accesses s) (log s)).
Definition ownership {A} (m : M Site A) : M Site A :=
  let* held := gets marker in
  refuse held "lifecycle_owner_or_recovery_required" ;*
  set_marker true ;*
  finally m (set_marker false).

(** ** Time and the durable guard *)

Definition is_true (v : json) : bool := match v with JBool true => true | _ => false end.

Definition time : M Site unit :=
  let* s := state in
  let* now := on_clock in
  refuse (match now with PInt t => negb ((starts_at s <=? t) && (t <? expires_at s)) | _ => true end)
    "expired_or_invalid_clock".

(** [value == z] for an answer: [True == 1], and an integral float equals its
    integer; a float is kept as its [repr]. *)
Definition eq_int (z : Z) (v : option json) : bool :=
  match v with
  | Some (JInt n) => n =? z
  | Some (JBool b) => Z.b2z b =? z
  | Some (JFloat t) => bool_decide (t = str_of_int z +:+ ".0")
  | _ => false
  end.
Definition eq_str (t : string) (v : option json) : bool :=
  match v with Some (JStr u) => bool_decide (u = t) | _ => false end.
(** [value == {k: ..., ...}] over the fields of the literal. *)
Definition eq_dict (fields : list (string * (option json → bool))) (v : option json) : bool :=
  match v with
  | Some (JObj d) =>
      forallb (λ kv, str_in kv.1 (map fst fields)) d && forallb (λ f, f.2 (dict_get f.1 d)) fields
  | _ => false
  end.

Definition eq_limits : option json → bool :=
  eq_dict [("fga", eq_int LIMIT_FGA); ("receiver", eq_int LIMIT_RECEIVER); ("lifetimeMs", eq_int LIFETIME_MS)].

(** A used quota: within its limit, and below it while admission is enabled. *)
Definition quota_ok (disabled : bool) (limit : Z) (v : option json) : bool :=
  match v with
  | Some (JInt n) => (0 <=? n) && (n <=? limit) && (disabled || negb (n =? limit))
  | _ => false
  end.

Definition guard_ready (s : Body) (disabled : bool) (d : list (string * json)) : bool :=
  let get k := dict_get k d in
  eq_str (run s) (get "run") && eq_int (starts_at s) (get "startsAt") && eq_int (expires_at s) (get "expiresAt")
  && match get "enabled" with Some (JBool b) => bool_decide (b = negb disabled) | _ => false end
  && match get "initialized" with Some v => is_true v | None => false end
  && eq_limits (get "limits")
  && quota_ok disabled LIMIT_FGA (get "fga") && quota_ok disabled LIMIT_RECEIVER (get "receiver").

(** The second reading of the clock is compared without a type test: a boolean
    compares as 0 or 1; of the other types only an [int] is modelled as ordered. *)
Definition qualification_open (s : Body) : M Site unit :=
  let* now := on_clock in
  let* t := match now with
            | PInt t => ret t
            | PBool b => ret (Z.b2z b)
            | _ => raise (External "TypeError")
            end in
  refuse (negb ((qualification_starts_at s <=? t) && (t <? qualification_expires_at s)))
    "qualification_window_expired".

Definition guard (disabled : bool) : M Site unit :=
  (if disabled then ret tt else time) ;*
  let* s := state in
  (if disabled then ret tt else qualification_open s) ;*
  let* g := invoke (ReadGuard (run s)) in
  match g with
  | JObj d => refuse (negb (guard_ready s disabled d)) "durable_guard_not_ready"
  | _ => raise (External "AttributeError")
  end.

(** ** [provision] *)

(** [all(absent(...) is True for row in resources)] *)
Fixpoint all_absent (rows : list Resource) : M Site json :=
  match rows with
  | [] => ret (JBool true)
  | r :: rows' =>
      let* v := invoke (Absent (kind r) (name r)) in
      if is_true v then all_absent rows' else ret (JBool false)
  end.

(** [re.fullmatch(r"[a-zA-Z0-9_-]{1,128}", identity)] *)
Definition identity_char (c : ascii) : bool :=
  let n := code c in
  is_digit c || ((65 <=? n) && (n <=? 90)) || ((97 <=? n) && (n <=? 122)) || (n =? 95) || (n =? 45).
Definition identity_grammar (s : string) : bool :=
  (1 <=? slen s) && (slen s <=? 128) && str_forall identity_char s.

(** [uuid.UUID(text)] drops hyphens and reads 32 characters as [int(hex, 16)],
    which also takes a [0x] and single underscores; [str] of it is lower-case
    hexadecimal with hyphens after 8, 12, 16 and 20 digits. *)
Fixpoint without_hyphens (s : string) : string :=
  match s with
  | String c s' => if code c =? 45 then without_hyphens s' else String c (without_hyphens s')
  | EmptyString => EmptyString
  end.
Fixpoint hex_groups (s : string) (after_digit : bool) : bool :=
  match s with
  | EmptyString => after_digit
  | String c s' =>
      if code c =? 95 then after_digit && hex_groups s' false
      else match hex_value c with Some _ => hex_groups s' true | None => false end
  end.
Definition int16_text (s : string) : bool :=
  if String.prefix "0x" s || String.prefix "0X" s then hex_groups (String.substring 2 (String.length s) s) true
  else hex_groups s false.
Definition hyphenated (h : string) : string :=
  String.substring 0 8 h +:+ "-" +:+ String.substring 8 4 h +:+ "-" +:+ String.substring 12 4 h
  +:+ "-" +:+ String.substring 16 4 h +:+ "-" +:+ String.substring 20 12 h.
Definition uuid_check (identity : string) : res unit :=
  let h := without_hyphens identity in
  if negb ((slen h =? 32) && int16_text h) then Err (External "ValueError")
  else refuse_if (negb (str_forall is_hex h && bool_decide (hyphenated h = identity))) "identity_mismatch".

Definition check_identity (row : Resource) (v : json) : res unit :=
  match v with
  | JStr identity =>
      refuse_if (negb (identity_grammar identity)) "unacknowledged_identity" ;?
      if bool_decide (kind row = "d1") then uuid_check identity
      else refuse_if (negb (bool_decide (identity = name row))) "identity_mismatch"
  | _ => Err (Refusal "unacknowledged_identity")
  end.

Definition create (row : Resource) : M Site json :=
  let* v := invoke (Create (kind row) (name row)) in
  lift (check_identity row v) ;* ret v.

Fixpoint create_all (rows : list Resource) : M Site unit :=
  match rows with
  | [] => ret tt
  | r :: rows' => time ;* once ("create:" +:+ name r) (create r) ;* create_all rows'
  end.

(** [if self._once(key, ...) is not True: raise Refused(label)] *)
Definition once_true (key : string) (m : M Site json) (label : string) : M Site unit :=
  let* v := once key m in refuse (negb (is_true v)) label.

Definition provision_ : M Site unit :=
  time ;*
  let* s := state in
  refuse (negb (bool_decide (operations s = []))) "attempt_already_started" ;*
  once_true "preflight" (all_absent (resources s)) "resource_or_secret_preexists" ;*
  create_all (resources s) ;*
  once_true "initialize_guard" (invoke (InitializeGuard (run s) (starts_at s) (expires_at s)))
    "guard_initialization_unconfirmed" ;*
  guard false ;*
  once_true "install"
    (invoke (Install QUALIFICATION_BINDINGS (run s) (qualification_starts_at s) (qualification_expires_at s)))
    "install_unconfirmed" ;*
  guard false.
Definition provision : M Site unit := ownership provision_.

(** ** [cleanup] and [attempt] *)

Definition exact_restore (digest : string) (v : json) : bool :=
  eq_dict [("captureDigest", eq_str digest); ("ordinaryRoutesVerified", eq_int 1);
           ("qualificationBindingsAbsent", eq_int 1); ("writeGatesDisabled", eq_int 1);
           ("productionStateUnchanged", eq_int 1)] (Some v).

Definition delete_row (r : Resource) : M Site unit :=
  let* s := state in
  match dict_get ("create:" +:+ name r) (operations s) with
  | None => ret tt
  | Some creation =>
      refuse (negb (acknowledged creation)) "creation_ambiguous" ;*
      match result creation with
      | Some identity =>
          once_true ("delete:" +:+ name r) (invoke (Delete (kind r) (name r) identity)) "deletion_absence_unconfirmed"
      | None => raise (External "KeyError")
      end
  end.
Fixpoint delete_all (rows : list Resource) : M Site unit :=
  match rows with
  | [] => ret tt
  | r :: rows' => delete_row r ;* delete_all rows'
  end.

Definition cleanup_steps (s : Body) : M Site bool :=
  once_true "disable" (invoke (Disable (run s))) "admission_off_unconfirmed" ;*
  guard true ;*
  let* restored := once "restore" (invoke (Restore (capture_digest s))) in
  refuse (negb (exact_restore (capture_digest s) restored)) "exact_restore_unconfirmed" ;*
  delete_all (rev (resources s)) ;*
  ret true.

Definition conclude_tx (confirmed : bool) : M Body unit :=
  modify (λ b, mkBody (run b) (starts_at b) (expires_at b) (qualification_starts_at b) (qualification_expires_at b)
    (capture_digest b) (operations b) (resources b) (Some confirmed)
    (Some (if confirmed then "cleanup_confirmed" else "cleanup_unconfirmed"))).

Definition cleanup_ : M Site bool :=
  let* s := state in
  match cleanup_confirmed s with
  | Some c => ret c
  | None =>
      let* confirmed := except (cleanup_steps s) (ret false) in
      transaction (conclude_tx confirmed) ;*
      ret confirmed
  end.
Definition cleanup : M Site bool := ownership cleanup_.

Definition attempt : M Site bool :=
  finally provision cleanup ;*
  let* s := state in
  ret (bool_decide (cleanup_confirmed s = Some true)).

(** ** Histories

    Any number of objects on one file, one call at a time - the marker refuses a
    second owner - and an operator who removes the marker of a dead process. *)
Inductive Call :=
| CProvision (i : Instance_)
| CCleanup (i : Instance_)
| CAttempt (i : Instance_)
| CRecover.

Definition run_call (c : Call) : M Site unit :=
  match c with
  | CProvision i => open_ i ;* provision
  | CCleanup i => open_ i ;* let* _ := cleanup in ret tt
  | CAttempt i => open_ i ;* let* _ := attempt in ret tt
  | CRecover => set_marker false
  end.

Definition run_calls (cs : list Call) (s : Site) : Site := foldl (λ s c, (run_call c s).2) s cs.

Definition initial (w : W) : Site := mkSite None false w 0 [].
End Lifecycle.
Arguments mkSite {W}.
Arguments file {W}. Arguments marker {W}. Arguments world {W}. Arguments accesses {W}. Arguments log {W}.
