(* ===== verification/FixedOriginFacts.v ===== *)
(** What the lifecycle guarantees over every history: its calls follow an abstract
    protocol, each mutation is attempted once, only this run's resources are deleted,
    and a confirmed cleanup leaves what was there before. *)
From S2P Require Import Prelude Json JsonParse FixedOrigin.

Notation event := (Request * res json)%type.

(** ** The abstract protocol *)

(** The key a call is latched under. *)
Definition key_of (r : Request) : option string :=
  match r with
  | Absent _ _ | ReadGuard _ => None
  | Create _ n => Some ("create:" +:+ n)
  | InitializeGuard _ _ _ => Some "initialize_guard"
  | Install _ _ _ _ => Some "install"
  | Disable _ => Some "disable"
  | Restore _ => Some "restore"
  | Delete _ n _ => Some ("delete:" +:+ n)
  end.

Definition created (l : list event) (r : Resource) (id : json) : Prop :=
  check_identity r id = Ok tt ∧ (Create (kind r) (name r), Ok id) ∈ l.
Definition deleted (l : list event) (r : Resource) : Prop :=
  ∃ id, created l r id ∧ (Delete (kind r) (name r) id, Ok (JBool true)) ∈ l.
Definition guarded (b : Body) (disabled : bool) (l : list event) : Prop :=
  ∃ d, guard_ready b disabled d = true ∧ (ReadGuard (run b), Ok (JObj d)) ∈ l.
Definition restored (b : Body) (l : list event) : Prop :=
  ∃ v, exact_restore (capture_digest b) v = true ∧ (Restore (capture_digest b), Ok v) ∈ l.

(** What must have been answered before each call. *)
Definition licensed (b : Body) (l : list event) (r : Request) : Prop :=
  match r with
  | Absent k n => mkResource k n ∈ resources b
  | Create k n =>
      mkResource k n ∈ resources b ∧ ∀ x, x ∈ resources b → (Absent (kind x) (name x), Ok (JBool true)) ∈ l
  | InitializeGuard i s e =>
      (i, s, e) = (run b, starts_at b, expires_at b) ∧ ∀ x, x ∈ resources b → ∃ id, created l x id
  | ReadGuard i => i = run b
  | Install bs i s e =>
      (bs, i, s, e) = (QUALIFICATION_BINDINGS, run b, qualification_starts_at b, qualification_expires_at b)
      ∧ (InitializeGuard (run b) (starts_at b) (expires_at b), Ok (JBool true)) ∈ l ∧ guarded b false l
  | Disable i => i = run b
  | Restore d => d = capture_digest b ∧ (Disable (run b), Ok (JBool true)) ∈ l ∧ guarded b true l
  | Delete k n id =>
      mkResource k n ∈ resources b ∧ created l (mkResource k n) id
      ∧ (Disable (run b), Ok (JBool true)) ∈ l ∧ restored b l
  end.

Definition provisions (r : Request) : bool :=
  match r with Create _ _ | InitializeGuard _ _ _ | Install _ _ _ _ => true | _ => false end.
Definition fresh (k : string) (l : list event) : Prop := ∀ r a, (r, a) ∈ l → key_of r ≠ Some k.

(** A call is licensed, the first of its key, and provisions nothing once admission
    was asked to go off. *)
Definition allowed (b : Body) (l : list event) (r : Request) : Prop :=
  licensed b l r ∧ (∀ k, key_of r = Some k → fresh k l)
  ∧ (provisions r = true → fresh "disable" l).

Inductive protocol (b : Body) : list event → Prop :=
| PNil : protocol b []
| PCall l r a : protocol b l → allowed b l r → protocol b (l ++ [(r, a)]).

(** What a confirmed cleanup means: admission off, exact restoration, and every
    resource whose creation was ever asked for deleted by the identity it got. *)
Definition all_clean (b : Body) (l : list event) : Prop :=
  (Disable (run b), Ok (JBool true)) ∈ l ∧ restored b l
  ∧ ∀ r a, r ∈ resources b → (Create (kind r) (name r), a) ∈ l → deleted l r.

(** ** The invariant *)

Definition scope_of (b : Body) :=
  (run b, starts_at b, expires_at b, qualification_starts_at b, qualification_expires_at b, capture_digest b, resources b).

Definition answer_ok (r : Request) (v : json) : Prop :=
  match r with Create k n => check_identity (mkResource k n) v = Ok tt | _ => True end.

Definition answered (k : string) (v : json) (l : list event) : Prop :=
  k ≠ "preflight" → ∃ r, key_of r = Some k ∧ (r, Ok v) ∈ l ∧ answer_ok r v.

Record Inv (b : Body) (l : list event) : Prop := mkInv {
  inv_scope : ∃ i t, scope_of b = scope_of (fresh_body i t);
  inv_keys r a k : (r, a) ∈ l → key_of r = Some k → is_Some (dict_get k (operations b));
  inv_acks k e : dict_get k (operations b) = Some e → acknowledged e = true → ∃ v, result e = Some v ∧ answered k v l;
  inv_protocol : protocol b l;
  inv_done : cleanup_confirmed b = Some true → all_clean b l;
}.

(** How the body changes under one key. *)
Definition step (k : string) (b b' : Body) : Prop :=
  scope_of b' = scope_of b ∧ cleanup_confirmed b' = cleanup_confirmed b
  ∧ ∀ k', k' ≠ k → dict_get k' (operations b') = dict_get k' (operations b).

Lemma protocol_scope b b' l : scope_of b' = scope_of b → protocol b l → protocol b' l.
Proof.
  unfold scope_of. intros E. destruct b, b'; cbn in E. injection E as -> -> -> -> -> -> ->.
  induction 1 as [|l r a Hp IH Ha]; constructor; [exact IH|].
  unfold allowed in *. destruct Ha as [Hl Hf]. split; [|exact Hf]. destruct r; exact Hl.
Qed.

Lemma all_clean_scope b b' l : scope_of b' = scope_of b → all_clean b l → all_clean b' l.
Proof. unfold scope_of. intros E. destruct b, b'; cbn in E. by injection E as -> -> -> -> -> -> ->. Qed.

Lemma answered_mono k v l l' : l `prefix_of` l' → answered k v l → answered k v l'.
Proof. intros [t ->] H Hk. destruct (H Hk) as (r & ? & ? & ?). exists r. rewrite elem_of_app. auto. Qed.

Lemma deleted_mono l l' r : l `prefix_of` l' → deleted l r → deleted l' r.
Proof. intros [t ->] (id & [? ?] & ?). exists id. unfold created. rewrite !elem_of_app. auto. Qed.

Lemma restored_mono b l l' : l `prefix_of` l' → restored b l → restored b l'.
Proof. intros [t ->] (v & ? & ?). exists v. rewrite elem_of_app. auto. Qed.

(** The same log under a body that changed at one key. *)
Lemma inv_step k b b' l :
  Inv b l → step k b b' → is_Some (dict_get k (operations b')) →
  (∀ e, dict_get k (operations b') = Some e → acknowledged e = true → ∃ v, result e = Some v ∧ answered k v l) →
  Inv b' l.
Proof.
  intros [Hs Hk Ha Hp Hd] (E & C & O) Hnew He. constructor.
  - by rewrite E.
  - intros r a k' Hr Hkey. destruct (decide (k' = k)) as [->|Hne]; [done|]. rewrite O by done. eauto.
  - intros k' e Hg. destruct (decide (k' = k)) as [->|Hne]; [eauto|]. rewrite O in Hg by done. eauto.
  - by apply (protocol_scope b).
  - rewrite C. intros Hc. apply (all_clean_scope b); auto.
Qed.

(** One more allowed call. *)
Lemma inv_call b l r a :
  Inv b l → allowed b l r → (∀ k, key_of r = Some k → is_Some (dict_get k (operations b))) →
  Inv b (l ++ [(r, a)]).
Proof.
  intros [Hs Hk Ha Hp Hd] Hall Hkey. assert (l `prefix_of` l ++ [(r, a)]) as Hpre by (by exists [(r, a)]). constructor.
  - done.
  - intros r' a' k. rewrite elem_of_app, list_elem_of_singleton. intros [H|[= -> ->]]; eauto.
  - intros k e H1 H2. destruct (Ha k e H1 H2) as (v & ? & ?). eauto using answered_mono.
  - by constructor.
  - intros Hc. destruct (Hd Hc) as (Hoff & Hres & Hdel). split; [|split].
    + rewrite elem_of_app. auto.
    + by eapply restored_mono.
    + intros x a' Hx. rewrite elem_of_app, list_elem_of_singleton. intros [H|[= <- _]]; [by eapply deleted_mono, Hdel|].
      destruct Hall as (_ & _ & Hfr). by destruct (Hfr eq_refl _ _ Hoff).
Qed.

(** ** Reasoning about the calls *)

Section Calls.
Context {W : Type} (perform : Request → M W json) (clock : M W pyval) (fate : nat → io).
Notation Site := (Site (W:=W)).
Notation invoke := (invoke perform).
Notation transaction := (transaction fate).
Notation once := (once fate).

(** A site between calls, and a site in the middle of one, opened with the scope of
    [b0], where [P] is known of the journal and the log. *)
Definition good (s : Site) : Prop :=
  match file s with Some b => Inv b (log s) | None => log s = [] end.
Definition running (P : Body → list event → Prop) (b0 : Body) (s : Site) : Prop :=
  ∃ b, file s = Some b ∧ Inv b (log s) ∧ scope_of b = scope_of b0 ∧ P b (log s).
(** A statement that keeps the invariant, and what it achieves when it succeeds. *)
Definition ends {A} (R : A → Site → Prop) (r : res A) (s : Site) : Prop :=
  good s ∧ match r with Ok v => R v s | Err _ => True end.
(** Knowledge that a change under key [k] keeps. *)
Definition stable (k : string) (P : Body → list event → Prop) : Prop :=
  ∀ b b' l l', step k b b' → l `prefix_of` l' → P b l → P b' l'.

Lemma running_good P b0 s : running P b0 s → good s.
Proof. intros (b & Hf & Hi & _). unfold good. by rewrite Hf. Qed.

Lemma running_weaken (P Q : Body → list event → Prop) b0 s :
  (∀ b, Inv b (log s) → scope_of b = scope_of b0 → P b (log s) → Q b (log s)) → running P b0 s → running Q b0 s.
Proof. intros H (b & ? & ? & ? & ?). exists b. auto. Qed.

Lemma ends_bind {A B} (m : M Site A) (f : A → M Site B) R R' s :
  post m s (ends R) → (∀ v s1, good s1 → R v s1 → post (f v) s1 (ends R')) → post (bind m f) s (ends R').
Proof.
  intros Hm Hf. apply post_bind. eapply post_weaken; [exact Hm|].
  intros [v|e] s1 [Hg HR]; [by apply Hf|by split].
Qed.

Lemma ends_weaken {A} (m : M Site A) (R R' : A → Site → Prop) s :
  post m s (ends R) → (∀ v s1, good s1 → R v s1 → R' v s1) → post m s (ends R').
Proof. intros Hm HR. eapply post_weaken; [exact Hm|]. intros [v|e] s1 [Hg H]; split; auto. Qed.

Lemma ends_ret {A} (v : A) (R : A → Site → Prop) s : good s → R v s → post (ret v) s (ends R).
Proof. by split. Qed.

Lemma ends_lift {A} (x : res A) (R : A → Site → Prop) s :
  good s → (∀ v, x = Ok v → R v s) → post (lift x) s (ends R).
Proof. intros Hg HR. split; [done|]. unfold lift. simpl. destruct x; auto. Qed.

Lemma running_eq P b0 (s s' : Site) : file s' = file s → log s' = log s → running P b0 s → running P b0 s'.
Proof. unfold running. by intros -> ->. Qed.

Lemma state_ends P b0 s :
  running P b0 s → post (state fate) s (ends (λ b s', running P b0 s' ∧ file s' = Some b)).
Proof.
  intros Hr. pose proof Hr as (b & Hf & _). apply post_eq. unfold state, FixedOrigin.transaction. rewrite Hf.
  intros r s' E.
  assert (running P b0 s') as H by (eapply running_eq; [| |exact Hr]; destruct (fate (accesses s)); injection E as <- <-; simpl; congruence).
  split; [by eapply running_good|]. by destruct (fate (accesses s)); injection E as <- <-.
Qed.

Lemma clock_ends P b0 s : running P b0 s → post (on_clock clock) s (ends (λ _ s', running P b0 s')).
Proof.
  intros Hr. apply post_eq. unfold on_clock. intros r s' [= <- <-].
  assert (running P b0 (mkSite (file s) (marker s) (clock (world s)).2 (accesses s) (log s))) as H
    by (by eapply running_eq; [| |exact Hr]).
  split; [by eapply running_good|]. by destruct (clock (world s)).1.
Qed.

Lemma refuse_ends P b0 s bad label :
  running P b0 s → post (refuse bad label) s (ends (λ _ s', running P b0 s' ∧ bad = false)).
Proof.
  intros Hr. apply ends_lift; [by eapply running_good|]. intros [] H. by apply refuse_if_ok in H.
Qed.

Lemma time_ends P b0 s : running P b0 s → post (time clock fate) s (ends (λ _ s', running P b0 s')).
Proof.
  intros Hr. unfold time. eapply ends_bind; [by apply state_ends|]. intros b s1 _ [H1 _].
  eapply ends_bind; [by apply clock_ends|]. intros now s2 _ H2.
  eapply ends_weaken; [exact (refuse_ends P b0 _ _ _ H2)|]. by intros ? s3 _ [? _].
Qed.

(** One call of the operations object. *)
Lemma invoke_ends P (Q : json → Body → list event → Prop) b0 s r :
  running P b0 s →
  (∀ b l, Inv b l → scope_of b = scope_of b0 → P b l →
     allowed b l r ∧ ∀ k, key_of r = Some k → is_Some (dict_get k (operations b))) →
  (∀ b l v, scope_of b = scope_of b0 → P b l → Q v b (l ++ [(r, Ok v)])) →
  post (invoke r) s (ends (λ v s', running (Q v) b0 s')).
Proof.
  intros (b & Hf & Hi & Hs & HP) Hall HQ. apply post_eq. unfold FixedOrigin.invoke. intros x s' [= <- <-].
  destruct (Hall b (log s) Hi Hs HP) as [Ha Hk]. assert (Inv b (log s ++ [(r, (perform r (world s)).1)])) as Hi'
    by by apply inv_call.
  split; [unfold good; simpl; by rewrite Hf|]. destruct (perform r (world s)).1 as [v|e] eqn:E; [|done].
  exists b. simpl. auto.
Qed.

(** *** The latch *)

Definition unsettled (k : string) (b : Body) : Prop := dict_get k (operations b) = Some (mkEntry false None).

Lemma fresh_key b l k : Inv b l → dict_get k (operations b) = None → fresh k l.
Proof. intros Hi Hn r a Hr Hk. destruct (inv_keys _ _ Hi r a k Hr Hk) as [e He]. congruence. Qed.

Lemma latch_inv b l k :
  Inv b l → dict_get k (operations b) = None →
  let b' := with_operations (dict_set k (mkEntry false None)) b in Inv b' l ∧ step k b b'.
Proof.
  intros Hi Hn. simpl. assert (step k b (with_operations (dict_set k (mkEntry false None)) b)) as Hst.
  { split; [done|]. split; [done|]. intros k' Hk. simpl. by rewrite dict_get_set_other. }
  split; [|done]. apply (inv_step k b); [done|done| |]; simpl; rewrite dict_get_set_same; [done|]. by intros e [= <-].
Qed.

Lemma acknowledge_inv b l k v :
  Inv b l → answered k v l →
  let b' := with_operations (dict_set k (mkEntry true (Some v))) b in Inv b' l ∧ step k b b'.
Proof.
  intros Hi Ha. simpl. assert (step k b (with_operations (dict_set k (mkEntry true (Some v))) b)) as Hst.
  { split; [done|]. split; [done|]. intros k' Hk. simpl. by rewrite dict_get_set_other. }
  split; [|done]. apply (inv_step k b); [done|done| |]; simpl; rewrite dict_get_set_same; [done|].
  intros e [= <-] _. by exists v.
Qed.

(** One transaction that maps a body to a body. *)
Lemma transaction_ends {A} (m : M Body A) P (Q : A → Body → list event → Prop) b0 s :
  running P b0 s →
  (∀ b v b', Inv b (log s) → scope_of b = scope_of b0 → P b (log s) → m b = (Ok v, b') →
     Inv b' (log s) ∧ scope_of b' = scope_of b ∧ Q v b' (log s)) →
  post (transaction m) s (ends (λ v s', running (Q v) b0 s')).
Proof.
  intros (b & Hf & Hi & Hs & HP) Hm. apply post_eq. unfold FixedOrigin.transaction. rewrite Hf. intros r s' E.
  destruct (m b) as [[v|e] b'] eqn:Em.
  - destruct (Hm b v b' Hi Hs HP Em) as (Hi' & Hs' & HQ).
    destruct (fate (accesses s)); injection E as <- <-; (split; [unfold good; simpl; done|]); try done.
    exists b'. simpl. split_and!; [done|done|congruence|done].
  - destruct (fate (accesses s)); injection E as <- <-; (split; [unfold good; simpl; done|]); done.
Qed.

Lemma once_ends key (op : M Site json) P (G : json → Body → list event → Prop) b0 s :
  running P b0 s → stable key P → (∀ v, stable key (G v)) →
  (∀ s1, running (λ b l, P b l ∧ unsettled key b ∧ fresh key l) b0 s1 →
     post op s1 (ends (λ v s2, running (λ b l, P b l ∧ answered key v l ∧ G v b l) b0 s2))) →
  post (once key op) s (ends (λ v s', running (λ b l, P b l ∧ G v b l) b0 s')).
Proof.
  intros Hr HP HG Hop. unfold FixedOrigin.once.
  eapply ends_bind.
  { apply (transaction_ends _ P (λ _ b l, P b l ∧ unsettled key b ∧ fresh key l)); [exact Hr|].
    intros b v b' Hi Hs HPb. unfold latch_tx, bind, get, lift, put. destruct (dict_get key (operations b)) eqn:Hg.
    { by rewrite bool_decide_true. }
    rewrite bool_decide_false by (by intros []). simpl. intros [= <- <-].
    destruct (latch_inv b (log s) key Hi Hg) as [Hi' Hst]. split_and!; [done|done| | |].
    - by eapply HP.
    - unfold unsettled. simpl. apply dict_get_set_same.
    - exact (fresh_key b _ _ Hi Hg). }
  intros [] s1 _ H1. eapply ends_bind; [by apply Hop|]. intros v s2 _ H2.
  eapply ends_bind.
  { apply (transaction_ends _ (λ b l, P b l ∧ answered key v l ∧ G v b l) (λ _ b l, P b l ∧ G v b l)); [exact H2|].
    intros b w b' Hi Hs (HPb & Ha & HGb). unfold acknowledge_tx, bind, get, put, raise.
    destruct (dict_get key (operations b)); [|done]. intros [= <- <-].
    destruct (acknowledge_inv b (log s2) key v Hi Ha) as [Hi' Hst]. split_and!; [done|done|by eapply HP|].
    by eapply HG. }
  intros [] s3 Hg H3. by apply ends_ret.
Qed.

(** [once] of one call with a key of its own. *)
Lemma once_call key r P b0 s :
  running P b0 s → stable key P → key_of r = Some key → (∀ v, answer_ok r v) →
  (∀ b l, Inv b l → scope_of b = scope_of b0 → P b l → licensed b l r ∧ (provisions r = true → fresh "disable" l)) →
  post (once key (invoke r)) s (ends (λ v s', running (λ b l, P b l ∧ (r, Ok v) ∈ l) b0 s')).
Proof.
  intros Hr HP Hk Hans Hl. apply once_ends; [done|done| |].
  { intros v b b' l l' _ [t ->] H. rewrite elem_of_app. auto. }
  intros s1 H1. eapply (invoke_ends _ (λ v b l, P b l ∧ answered key v l ∧ (r, Ok v) ∈ l)); [exact H1| |].
  - intros b l Hi Hs (HPb & Hu & Hf). destruct (Hl b l Hi Hs HPb) as [H2 H3]. split.
    + split; [done|]. split; [|done]. rewrite Hk. by intros k [= <-].
    + rewrite Hk. intros k [= <-]. unfold unsettled in Hu. by rewrite Hu.
  - intros b l v Hs (HPb & _). assert ((r, Ok v) ∈ l ++ [(r, Ok v)]) by (rewrite elem_of_app, list_elem_of_singleton; auto).
    split_and!; [|intros _; exists r; auto|done].
    eapply HP; [|by exists [(r, Ok v)]|exact HPb]. by split.
Qed.

Lemma once_true_ends key m label P (G : Body → list event → Prop) b0 s :
  post (once key m) s (ends (λ v s', running (λ b l, P b l ∧ (is_true v = true → G b l)) b0 s')) →
  post (once_true fate key m label) s (ends (λ _ s', running (λ b l, P b l ∧ G b l) b0 s')).
Proof.
  intros Hm. unfold once_true. eapply ends_bind; [exact Hm|]. intros v s1 _ H1.
  eapply ends_weaken; [exact (refuse_ends _ b0 _ _ _ H1)|]. intros [] s2 _ [H2 Hv].
  apply negb_false_iff in Hv. eapply running_weaken; [|exact H2]. simpl. intros b _ _ [? ?]. auto.
Qed.

Lemma is_true_eq v : is_true v = true → v = JBool true.
Proof. by destruct v as [|[]| | | | |]. Qed.

(** [once_true] of one call: it answered [True]. *)
Lemma once_true_call key r label P b0 s :
  running P b0 s → stable key P → key_of r = Some key → (∀ v, answer_ok r v) →
  (∀ b l, Inv b l → scope_of b = scope_of b0 → P b l → licensed b l r ∧ (provisions r = true → fresh "disable" l)) →
  post (once_true fate key (invoke r) label) s (ends (λ _ s', running (λ b l, P b l ∧ (r, Ok (JBool true)) ∈ l) b0 s')).
Proof.
  intros Hr HP Hk Ha Hl. apply once_true_ends. eapply ends_weaken; [by apply once_call|].
  intros v s1 _. apply running_weaken. intros b _ _ [? ?]. split; [done|]. by intros ->%is_true_eq.
Qed.

Lemma state_scope P b0 s :
  running P b0 s → post (state fate) s (ends (λ b s', running (λ b' l, P b' l ∧ b' = b) b0 s' ∧ scope_of b = scope_of b0)).
Proof.
  intros Hr. eapply ends_weaken; [by apply state_ends|]. intros b s1 _ [(b' & Hf & Hi & Hs & HP) Hb].
  rewrite Hb in Hf. injection Hf as <-. split; [|done]. by exists b.
Qed.

Lemma stable_grow k (P : Body → list event → Prop) b l l' : stable k P → l `prefix_of` l' → P b l → P b l'.
Proof. intros HP Hl. by apply HP; [|exact Hl]. Qed.

Lemma scope_fields b b' : scope_of b = scope_of b' →
  run b = run b' ∧ starts_at b = starts_at b' ∧ expires_at b = expires_at b'
  ∧ qualification_starts_at b = qualification_starts_at b' ∧ qualification_expires_at b = qualification_expires_at b'
  ∧ capture_digest b = capture_digest b' ∧ resources b = resources b'.
Proof. unfold scope_of. intros [= -> -> -> -> -> -> ->]. done. Qed.

Lemma guard_ready_scope b b' d g : scope_of b = scope_of b' → guard_ready b d g = guard_ready b' d g.
Proof. intros (H1 & H2 & H3 & _)%scope_fields. unfold guard_ready. by rewrite H1, H2, H3. Qed.

Lemma guarded_mono b d l l' : l `prefix_of` l' → guarded b d l → guarded b d l'.
Proof. intros [t ->] (g & ? & ?). exists g. rewrite elem_of_app. auto. Qed.

Lemma guard_ends k disabled P b0 s :
  running P b0 s → stable k P →
  post (guard perform clock fate disabled) s (ends (λ _ s', running (λ b l, P b l ∧ guarded b disabled l) b0 s')).
Proof.
  intros Hr HP. unfold guard. eapply ends_bind with (R := λ _ s', running P b0 s').
  { destruct disabled; [apply ends_ret; [by eapply running_good|done]|by apply time_ends]. }
  intros [] s1 _ H1. eapply ends_bind; [exact (state_scope P b0 s1 H1)|]. intros b s2 Hg2 [H2 Hsb].
  assert (running P b0 s2) as H2' by (eapply running_weaken; [|exact H2]; by intros ? _ _ [? _]).
  eapply ends_bind with (R := λ _ s', running P b0 s').
  { destruct disabled; [by apply ends_ret|]. unfold qualification_open.
    eapply ends_bind; [exact (clock_ends P b0 s2 H2')|]. intros now s3 Hg3 H3.
    eapply ends_bind with (R := λ _ s', running P b0 s'); [by destruct now; split|]. intros t s4 _ H4.
    eapply ends_weaken; [exact (refuse_ends P b0 _ _ _ H4)|]. by intros ? s5 _ [? _]. }
  intros [] s3 _ H3.
  eapply ends_bind.
  { apply (invoke_ends P (λ v b' l, P b' l ∧ (ReadGuard (run b), Ok v) ∈ l) b0 s3 _ H3).
    - intros b' l _ Hs _. split; [|done]. split; [|done]. simpl.
      destruct (scope_fields b b') as (? & _); [congruence|done].
    - intros b' l v Hs Hb'. split; [eapply stable_grow; [exact HP|by eexists|exact Hb']|].
      rewrite elem_of_app, list_elem_of_singleton. auto. }
  intros g s4 Hg4 H4. destruct g as [| | | | | |d]; try (by split).
  eapply ends_weaken; [exact (refuse_ends _ b0 _ _ _ H4)|]. intros [] s5 _ [H5 Hd].
  apply negb_false_iff in Hd. eapply running_weaken; [|exact H5]. simpl. intros b' _ Hs [? Hin]. split; [done|].
  exists d. rewrite (guard_ready_scope b' b) by congruence. split; [done|].
  destruct (scope_fields b' b) as (-> & _); [congruence|done].
Qed.

(** *** [provision] *)

Definition absent_of (l : list event) (r : Resource) : Prop := (Absent (kind r) (name r), Ok (JBool true)) ∈ l.

Lemma in_grow {A} (x : A) l l' : l `prefix_of` l' → x ∈ l → x ∈ l'.
Proof. intros [t ->]. rewrite elem_of_app. auto. Qed.

Lemma all_absent_ends k P b0 s rows :
  stable k P → (∀ x, x ∈ rows → x ∈ resources b0) → running P b0 s →
  post (all_absent perform rows) s
    (ends (λ v s', running (λ b l, P b l ∧ (is_true v = true → ∀ x, x ∈ rows → absent_of l x)) b0 s')).
Proof.
  intros HP. revert P HP s. induction rows as [|x rows IH]; intros P HP s Hrows Hr; cbn [all_absent].
  { apply ends_ret; [by eapply running_good|]. eapply running_weaken; [|exact Hr]. intros b _ _ ?. split; [done|set_solver]. }
  eapply ends_bind.
  { apply (invoke_ends P (λ v b l, P b l ∧ (Absent (kind x) (name x), Ok v) ∈ l) b0 s _ Hr).
    - intros b l _ Hs _. split; [|done]. split; [|done]. simpl. destruct (scope_fields _ _ Hs) as (_ & _ & _ & _ & _ & _ & ->).
      destruct x. apply Hrows. by left.
    - intros b l v _ Hb. split; [eapply stable_grow; [exact HP|by eexists|exact Hb]|].
      rewrite elem_of_app, list_elem_of_singleton. auto. }
  intros v s1 Hg1 H1. destruct (is_true v) eqn:Ev.
  - apply is_true_eq in Ev as ->. eapply ends_weaken.
    { apply (IH (λ b l, P b l ∧ absent_of l x)); [|set_solver|exact H1].
      intros b b' l l' Hst Hl [? ?]. split; [by eapply HP|by eapply in_grow]. }
    intros v s2 _. apply running_weaken. intros b _ _ [[Hb Hx] Hr2]. split; [done|].
    intros Hv y [->|Hy]%elem_of_cons; [done|auto].
  - apply ends_ret; [done|]. eapply running_weaken; [|exact H1]. intros b _ _ [? _]. done.
Qed.

(** What is known while [provision] runs: admission was not asked to go off, and
    every resource was seen absent. *)
Definition provisioning (b : Body) (l : list event) : Prop :=
  dict_get "disable" (operations b) = None ∧ ∀ x, x ∈ resources b → absent_of l x.

Lemma provisioning_stable k : k ≠ "disable" → stable k provisioning.
Proof.
  intros Hk b b' l l' (Hs & _ & Ho) Hl [Hd Ha]. split; [by rewrite Ho|].
  destruct (scope_fields _ _ Hs) as (_ & _ & _ & _ & _ & _ & ->). intros x Hx. by eapply in_grow, Ha.
Qed.

Lemma created_mono l l' r id : l `prefix_of` l' → created l r id → created l' r id.
Proof. intros Hl [? ?]. split; [done|by eapply in_grow]. Qed.

Lemma create_ends P b0 s r :
  r ∈ resources b0 → stable ("create:" +:+ name r) P → (∀ b l, P b l → provisioning b l) → running P b0 s →
  post (once ("create:" +:+ name r) (create perform r)) s
    (ends (λ _ s', running (λ b l, P b l ∧ ∃ id, created l r id) b0 s')).
Proof.
  intros Hin HP HPp Hr. apply (once_ends _ _ P (λ _ b l, ∃ id, created l r id)); [done|done| |].
  { intros _ b b' l l' _ Hl [id ?]. exists id. by eapply created_mono. }
  intros s1 H1. unfold create. eapply ends_bind.
  { eapply (invoke_ends _ (λ v b l, P b l ∧ (Create (kind r) (name r), Ok v) ∈ l)); [exact H1| |].
    - intros b l Hi Hs (HPb & Hu & Hf). destruct (HPp b l HPb) as [Hd Hab]. split; [split; [|split]|].
      + simpl. destruct (scope_fields _ _ Hs) as (_ & _ & _ & _ & _ & _ & E). rewrite E in *. destruct r. done.
      + simpl. by intros k [= <-].
      + intros _. exact (fresh_key b _ _ Hi Hd).
      + simpl. intros k [= <-]. unfold unsettled in Hu. by rewrite Hu.
    - intros b l v Hs (HPb & _). split; [eapply stable_grow; [exact HP|by eexists|exact HPb]|].
      rewrite elem_of_app, list_elem_of_singleton. auto. }
  intros v s2 Hg2 H2. eapply ends_bind; [apply (ends_lift _ (λ _ s', s' = s2 ∧ check_identity r v = Ok tt)); [done|by intros []]|].
  intros [] s3 Hg3 [-> Hc]. apply ends_ret; [done|]. eapply running_weaken; [|exact H2]. simpl.
  intros b _ _ [? Hv]. split_and!; [done| |by exists v]. intros _. exists (Create (kind r) (name r)). split_and!; [done|done|].
  by destruct r.
Qed.

Lemma create_all_ends P b0 s rows :
  (∀ x, x ∈ rows → x ∈ resources b0) → (∀ k, k ≠ "disable" → stable k P) → (∀ b l, P b l → provisioning b l) → running P b0 s →
  post (create_all perform clock fate rows) s
    (ends (λ _ s', running (λ b l, P b l ∧ ∀ x, x ∈ rows → ∃ id, created l x id) b0 s')).
Proof.
  revert P s. induction rows as [|r rows IH]; intros P s Hrows HP HPp Hr; cbn [create_all].
  { apply ends_ret; [by eapply running_good|]. eapply running_weaken; [|exact Hr]. intros b _ _ ?. split; [done|set_solver]. }
  eapply ends_bind; [by apply time_ends|]. intros [] s1 _ H1.
  eapply ends_bind; [apply (create_ends P); [apply Hrows; by left|by apply HP|done|exact H1]|]. intros v s2 _ H2.
  eapply ends_weaken.
  { apply (IH (λ b l, P b l ∧ ∃ id, created l r id)); [set_solver| |by intros b l [? _]; apply HPp|exact H2].
    intros k Hk b b' l l' Hst Hl [? [id ?]]. split; [by eapply HP|]. exists id. by eapply created_mono. }
  intros [] s3 _. apply running_weaken. intros b _ _ [[Hb Hx] Hr2]. split; [done|].
  intros y [->|Hy]%elem_of_cons; [done|auto].
Qed.

(** Provisioning, once every resource was created. *)
Definition provisioned (b : Body) (l : list event) : Prop :=
  provisioning b l ∧ ∀ x, x ∈ resources b → ∃ id, created l x id.
Definition guard_initialized (b : Body) (l : list event) : Prop :=
  provisioned b l ∧ (InitializeGuard (run b) (starts_at b) (expires_at b), Ok (JBool true)) ∈ l.

Lemma provisioned_stable k : k ≠ "disable" → stable k provisioned.
Proof.
  intros Hk b b' l l' Hst Hl [Hp Hc]. split; [by eapply provisioning_stable|]. destruct Hst as [Hs _].
  destruct (scope_fields _ _ Hs) as (_ & _ & _ & _ & _ & _ & ->). intros x Hx. destruct (Hc x Hx) as [id ?].
  exists id. by eapply created_mono.
Qed.
Lemma guard_initialized_stable k : k ≠ "disable" → stable k guard_initialized.
Proof.
  intros Hk b b' l l' Hst Hl [Hp Hc]. split; [by eapply provisioned_stable|]. destruct Hst as [Hs _].
  destruct (scope_fields _ _ Hs) as (-> & -> & -> & _). by eapply in_grow.
Qed.
Lemma guarded_stable k d : stable k (λ b l, guarded b d l).
Proof.
  intros b b' l l' [Hs _] Hl (g & Hg & Hin). exists g. rewrite (guard_ready_scope b' b) by done. split; [done|].
  destruct (scope_fields _ _ Hs) as (-> & _). by eapply in_grow.
Qed.
Lemma stable_and k P Q : stable k P → stable k Q → stable k (λ b l, P b l ∧ Q b l).
Proof. intros HP HQ b b' l l' Hst Hl [? ?]. split; [by eapply HP|by eapply HQ]. Qed.

Lemma preflight_ends s b b0 :
  running (λ b' _, dict_get "disable" (operations b') = None) b0 s → scope_of b = scope_of b0 →
  post (once_true fate "preflight" (all_absent perform (resources b)) "resource_or_secret_preexists") s
    (ends (λ _ s', running provisioning b0 s')).
Proof.
  intros Hr Hsb. set (off := λ (b : Body) (_ : list event), dict_get "disable" (operations b) = None) in Hr.
  assert (stable "preflight" off) as Hoff by (intros x x' l l' (_ & _ & Ho) _ Hx; unfold off; by rewrite Ho).
  destruct (scope_fields _ _ Hsb) as (_ & _ & _ & _ & _ & _ & Eres).
  set (seen := λ (v : json) (_ : Body) l, is_true v = true → ∀ x, x ∈ resources b → absent_of l x).
  eapply ends_weaken.
  { apply (once_true_ends _ _ _ off (λ _ l, ∀ x, x ∈ resources b → absent_of l x)).
    apply (once_ends _ _ off seen); [done|done| |].
    - intros v x x' l l' _ Hl H Hv y Hy. by eapply in_grow, H.
    - intros s1 H1. eapply ends_weaken.
      { apply (all_absent_ends "preflight" off); [done|by rewrite Eres|].
        eapply running_weaken; [|exact H1]. by intros ? _ _ [? _]. }
      intros v s2 _. apply running_weaken. intros x _ _ [Hx ?]. split_and!; [done|by intros []|done]. }
  intros [] s1 _. apply running_weaken. intros x _ Hx [? Hab]. split; [done|].
  destruct (scope_fields _ _ Hx) as (_ & _ & _ & _ & _ & _ & ->). by rewrite <- Eres.
Qed.

Lemma install_ends s b b0 :
  running provisioned b0 s → scope_of b = scope_of b0 →
  post (once_true fate "initialize_guard" (invoke (InitializeGuard (run b) (starts_at b) (expires_at b)))
      "guard_initialization_unconfirmed" ;*
    guard perform clock fate false ;*
    once_true fate "install"
      (invoke (Install QUALIFICATION_BINDINGS (run b) (qualification_starts_at b) (qualification_expires_at b)))
      "install_unconfirmed" ;*
    guard perform clock fate false) s (ends (λ _ _, True)).
Proof.
  intros Hr Hsb.
  assert (∀ x, scope_of x = scope_of b0 → scope_of x = scope_of b) as Hsc by congruence.
  eapply ends_bind.
  { apply (once_true_call _ _ _ provisioned b0); [done|by apply provisioned_stable|done|done|].
    intros x l Hi Hx [[Hd _] Hc]. destruct (scope_fields _ _ (Hsc x Hx)) as (<- & <- & <- & _).
    split; [by split|]. intros _. exact (fresh_key x _ _ Hi Hd). }
  intros [] s1 _ H1. eapply ends_bind.
  { apply (guard_ends "install" false guard_initialized); [|by apply guard_initialized_stable].
    eapply running_weaken; [|exact H1]. intros x _ Hx [? ?]. split; [done|].
    by destruct (scope_fields _ _ (Hsc x Hx)) as (-> & -> & -> & _). }
  intros [] s2 _ H2. eapply ends_bind.
  { apply (once_true_call _ _ _ (λ b l, guard_initialized b l ∧ guarded b false l) b0); [done| |done|done|].
    - apply stable_and; [by apply guard_initialized_stable|apply guarded_stable].
    - intros x l Hi Hx [[[[Hd _] _] ?] ?]. destruct (scope_fields _ _ (Hsc x Hx)) as (<- & _ & _ & <- & <- & _).
      split; [done|]. intros _. exact (fresh_key x _ _ Hi Hd). }
  intros [] s3 _ H3. eapply ends_weaken; [apply (guard_ends "" false (λ _ _, True)); [|done]|done].
  eapply running_weaken; [|exact H3]. done.
Qed.

Lemma provision_ends s b0 : running (λ _ _, True) b0 s → post (provision_ perform clock fate) s (ends (λ _ _, True)).
Proof.
  intros Hr. unfold provision_. eapply ends_bind; [by apply time_ends|]. intros [] s1 _ H1.
  eapply ends_bind; [exact (state_scope _ b0 s1 H1)|]. intros b s2 _ [H2 Hsb].
  eapply ends_bind; [exact (refuse_ends _ b0 _ _ _ H2)|]. intros [] s3 _ [H3 He].
  apply negb_false_iff, bool_decide_eq_true in He.
  eapply ends_bind.
  { apply (preflight_ends s3 b b0); [|done]. eapply running_weaken; [|exact H3]. intros x _ _ [_ ->]. by rewrite He. }
  intros [] s4 _ H4. eapply ends_bind.
  { apply (create_all_ends provisioning b0); [|by apply provisioning_stable|done|done].
    by destruct (scope_fields _ _ Hsb) as (_ & _ & _ & _ & _ & _ & ->). }
  intros [] s5 _ H5. apply (install_ends _ b b0); [|done]. eapply running_weaken; [|exact H5].
  intros x _ Hx [? Hc]. split; [done|]. destruct (scope_fields _ _ Hx) as (_ & _ & _ & _ & _ & _ & ->).
  by destruct (scope_fields _ _ Hsb) as (_ & _ & _ & _ & _ & _ & <-).
Qed.

(** *** [cleanup] *)

Lemma protocol_in b l r a : protocol b l → (r, a) ∈ l → ∃ l1, l1 `prefix_of` l ∧ allowed b l1 r.
Proof.
  induction 1 as [|l r' a' Hp IH Ha]; [by intros ?%elem_of_nil|].
  rewrite elem_of_app, list_elem_of_singleton. intros [H|[= -> ->]].
  - destruct (IH H) as (l1 & [t ->] & ?). exists l1. split; [|done]. exists (t ++ [(r', a')]). by rewrite app_assoc.
  - exists l. split; [by eexists|done].
Qed.

Lemma names_distinct b l : Inv b l → NoDup (map name (resources b)).
Proof.
  intros [(i & t & Hs) _ _ _ _]. destruct (scope_fields _ _ Hs) as (_ & _ & _ & _ & _ & _ & ->).
  simpl. repeat constructor; rewrite ?elem_of_cons, ?elem_of_nil; intros H;
    repeat (destruct H as [H|H]; [discriminate H|]); done.
Qed.

Lemma named_once b l x y : Inv b l → x ∈ resources b → y ∈ resources b → name x = name y → x = y.
Proof.
  intros Hn%names_distinct. revert Hn. induction (resources b) as [|z rows IH]; [by intros _ ?%elem_of_nil|].
  simpl. intros [Hz Hn]%NoDup_cons [->|Hx]%elem_of_cons [->|Hy]%elem_of_cons E; [done| | |by apply IH].
  - destruct Hz. rewrite E. by apply list_elem_of_fmap_2.
  - destruct Hz. rewrite <- E. by apply list_elem_of_fmap_2.
Qed.

(** An acknowledged creation is one the log shows, with the identity it answered. *)
Lemma creation_answered b l x e :
  Inv b l → x ∈ resources b → dict_get ("create:" +:+ name x) (operations b) = Some e → acknowledged e = true →
  ∃ id, result e = Some id ∧ created l x id.
Proof.
  intros Hi Hx Hg Ha. destruct (inv_acks _ _ Hi _ _ Hg Ha) as (id & Hr & Hans).
  destruct Hans as (r & Hk & Hin & Hok); [done|]. exists id. split; [done|].
  destruct r as [k n|k n| | | | | |k n i]; try done. simpl in Hk. injection Hk as Hk. simpl in Hok.
  assert (mkResource k n ∈ resources b) as Hin'.
  { destruct (protocol_in _ _ _ _ (inv_protocol _ _ Hi) Hin) as (l1 & _ & [H _] & _). exact H. }
  rewrite <- (named_once _ _ (mkResource k n) x Hi Hin' Hx Hk). by split.
Qed.

Definition removed (b : Body) (l : list event) (r : Resource) : Prop :=
  dict_get ("create:" +:+ name r) (operations b) = None ∨ deleted l r.
(** What is known once the captured state was restored. *)
Definition restoring (b : Body) (l : list event) : Prop :=
  (Disable (run b), Ok (JBool true)) ∈ l ∧ restored b l.

Lemma restoring_stable k : stable k restoring.
Proof.
  intros b b' l l' [Hs _] Hl [Hoff (v & Hv & Hin)]. unfold restoring, restored.
  destruct (scope_fields _ _ Hs) as (-> & _ & _ & _ & _ & -> & _). split; [by eapply in_grow|].
  exists v. split; [done|]. by eapply in_grow.
Qed.

Lemma delete_row_ends P b0 s r :
  r ∈ resources b0 → stable ("delete:" +:+ name r) P → (∀ b l, P b l → restoring b l) → running P b0 s →
  post (delete_row perform fate r) s (ends (λ _ s', running (λ b l, P b l ∧ removed b l r) b0 s')).
Proof.
  intros Hin HP HPr Hr. unfold delete_row. eapply ends_bind; [exact (state_scope P b0 s Hr)|].
  intros b s1 Hg1 [H1 Hsb]. destruct (scope_fields _ _ Hsb) as (_ & _ & _ & _ & _ & _ & Eres).
  destruct (dict_get ("create:" +:+ name r) (operations b)) as [e|] eqn:Hg.
  2:{ apply ends_ret; [done|]. eapply running_weaken; [|exact H1]. intros x _ _ [? ->]. split; [done|by left]. }
  eapply ends_bind; [exact (refuse_ends _ b0 _ _ _ H1)|]. intros [] s2 Hg2 [H2 Ha%negb_false_iff].
  assert (∃ id, result e = Some id ∧ running (λ b l, P b l ∧ created l r id) b0 s2) as (id & -> & H3).
  { destruct H2 as (x & Hf & Hi & Hs & HPx & ->).
    destruct (creation_answered b (log s2) r e) as (id & Hid & Hc); [done|by rewrite Eres|done|done|].
    exists id. split; [done|]. by exists b. }
  eapply ends_weaken.
  { apply (once_true_call _ _ _ (λ b l, P b l ∧ created l r id)); [done| |done|done|].
    - apply stable_and; [done|]. intros x x' l l' _ Hl ?. by eapply created_mono.
    - intros x l Hi Hs [Hx Hc]. destruct (HPr x l Hx) as [Hoff Hres]. split; [|done]. simpl.
      destruct (scope_fields _ _ Hs) as (_ & _ & _ & _ & _ & _ & ->). by destruct r. }
  intros [] s3 _. apply running_weaken. intros x _ _ [[? ?] ?]. split; [done|]. right. by exists id.
Qed.

Lemma removed_stable k r : k ≠ "create:" +:+ name r → stable k (λ b l, removed b l r).
Proof.
  intros Hk b b' l l' (_ & _ & Ho) Hl [H|H]; [left; by rewrite Ho|right; by eapply deleted_mono].
Qed.

Lemma delete_all_ends P b0 s rows :
  (∀ x, x ∈ rows → x ∈ resources b0) → (∀ n, stable ("delete:" +:+ n) P) → (∀ b l, P b l → restoring b l) → running P b0 s →
  post (delete_all perform fate rows) s
    (ends (λ _ s', running (λ b l, P b l ∧ ∀ x, x ∈ rows → removed b l x) b0 s')).
Proof.
  revert P s. induction rows as [|r rows IH]; intros P s Hrows HP HPr Hr; cbn [delete_all].
  { apply ends_ret; [by eapply running_good|]. eapply running_weaken; [|exact Hr]. intros b _ _ ?. split; [done|set_solver]. }
  eapply ends_bind; [apply (delete_row_ends P); [apply Hrows; by left|done|done|exact Hr]|]. intros [] s1 _ H1.
  eapply ends_weaken.
  { apply (IH (λ b l, P b l ∧ removed b l r)); [set_solver| |by intros b l [? _]; apply HPr|exact H1].
    intros n. apply stable_and; [done|]. by apply removed_stable. }
  intros [] s2 _. apply running_weaken. intros b _ _ [[Hb Hx] Hrest]. split; [done|].
  intros y [->|Hy]%elem_of_cons; auto.
Qed.

Lemma cleanup_steps_ends s b b0 :
  running (λ _ _, True) b0 s → scope_of b = scope_of b0 →
  post (cleanup_steps perform clock fate b) s
    (ends (λ c s', c = true ∧ running all_clean b0 s')).
Proof.
  intros Hr Hsb. unfold cleanup_steps.
  assert (∀ x, scope_of x = scope_of b0 → scope_of x = scope_of b) as Hsc by congruence.
  eapply ends_bind.
  { apply (once_true_call _ _ _ (λ _ _, True) b0); [done|done|done|done|]. intros x l _ Hx _. split; [|done].
    by destruct (scope_fields _ _ (Hsc x Hx)) as (<- & _). }
  intros [] s1 _ H1. set (off := λ (b : Body) (l : list event), (Disable (run b), Ok (JBool true)) ∈ l).
  assert (∀ k, stable k off) as Hoff.
  { intros k x x' l l' [Hs _] Hl. unfold off. destruct (scope_fields _ _ Hs) as (-> & _). by eapply in_grow. }
  eapply ends_bind.
  { apply (guard_ends "restore" true off); [|done]. eapply running_weaken; [|exact H1]. intros x _ Hx [_ ?].
    unfold off. by destruct (scope_fields _ _ (Hsc x Hx)) as (-> & _). }
  intros [] s2 _ H2. eapply ends_bind.
  { apply (once_call _ _ (λ b l, off b l ∧ guarded b true l) b0); [done|by apply stable_and, guarded_stable|done|done|].
    intros x l _ Hx [? ?]. split; [|done]. split; [|done]. by destruct (scope_fields _ _ (Hsc x Hx)) as (_ & _ & _ & _ & _ & <- & _). }
  intros v s3 Hg3 H3. eapply ends_bind; [exact (refuse_ends _ b0 _ _ _ H3)|]. intros [] s4 _ [H4 Hv%negb_false_iff].
  eapply ends_bind.
  { apply (delete_all_ends restoring b0); [|by intros; apply restoring_stable|done|].
    - intros x. rewrite list_elem_of_In, <- in_rev, <- list_elem_of_In. by destruct (scope_fields _ _ Hsb) as (_ & _ & _ & _ & _ & _ & ->).
    - eapply running_weaken; [|exact H4]. intros x _ Hx [[? _] ?]. split; [done|]. exists v.
      by destruct (scope_fields _ _ (Hsc x Hx)) as (_ & _ & _ & _ & _ & -> & _). }
  intros [] s5 Hg5 H5. apply ends_ret; [done|]. split; [done|]. eapply running_weaken; [|exact H5].
  intros x Hi Hx [[Ho Hres] Hall]. split_and!; [done|done|]. intros r a Hr' Hc.
  destruct (Hall r) as [Hn|?]; [|exfalso|done].
  - rewrite list_elem_of_In, <- in_rev, <- list_elem_of_In. by destruct (scope_fields _ _ (Hsc x Hx)) as (_ & _ & _ & _ & _ & _ & <-).
  - destruct (inv_keys _ _ Hi _ _ _ Hc eq_refl) as [e He]. simpl in *. congruence.
Qed.

(** *** Whole calls *)

Definition keeps_good {A} (m : M Site A) : Prop := ∀ s, good s → good (m s).2.

Lemma ends_keeps {A} (m : M Site A) :
  (∀ s b0, running (λ _ _, True) b0 s → ∃ R, post m s (ends R)) →
  (∀ s, file s = None → good s → good (m s).2) → keeps_good m.
Proof.
  intros Hm Hn s Hg. destruct (file s) as [b|] eqn:Hf; [|by apply Hn].
  unfold good in Hg. rewrite Hf in Hg. destruct (Hm s b) as [R HR]; [by exists b|].
  unfold post in HR. by destruct HR.
Qed.

Lemma no_row {A} (f : Body → M Site A) s :
  file s = None → good s → ∃ e s', bind (state fate) f s = (Err e, s') ∧ good s'.
Proof.
  unfold good, bind, state, FixedOrigin.transaction. intros Hf Hg. rewrite Hf in *.
  destruct (fate (accesses s)); do 2 eexists; (split; [reflexivity|done]).
Qed.

Lemma provision_keeps : keeps_good (provision_ perform clock fate).
Proof.
  apply ends_keeps.
  - intros s b0 Hr. eexists. by eapply provision_ends.
  - intros s Hf Hg. unfold provision_, time, bind at 1.
    match goal with |- context [bind (state fate) ?f s] => destruct (no_row f s Hf Hg) as (e & s' & -> & ?) end. done.
Qed.

Lemma good_eq (s s' : Site) : file s' = file s → log s' = log s → good s → good s'.
Proof. unfold good. by intros -> ->. Qed.

Lemma except_ends {A} (m h : M Site A) (R : A → Site → Prop) s :
  post m s (ends R) → (∀ s1, good s1 → post h s1 (ends R)) → post (except m h) s (ends R).
Proof.
  unfold post, except. destruct (m s) as [[v|e] s1]; simpl; intros Hm Hh; [done|].
  destruct (is_exception e); [apply Hh; by destruct Hm|done].
Qed.

Lemma conclude_keeps c s :
  good s → (c = true → ∃ b0, running all_clean b0 s) → good (transaction (conclude_tx c) s).2.
Proof.
  unfold good. intros Hg Hc. unfold FixedOrigin.transaction, conclude_tx, modify.
  destruct (file s) as [b|] eqn:Hf; [|by destruct (fate (accesses s)); simpl; rewrite ?Hf].
  assert (Inv (mkBody (run b) (starts_at b) (expires_at b) (qualification_starts_at b) (qualification_expires_at b)
    (capture_digest b) (operations b) (resources b) (Some c)
    (Some (if c then "cleanup_confirmed" else "cleanup_unconfirmed"))) (log s)) as Hi.
  { destruct Hg as [Hs Hk Ha Hp Hd]. constructor; [done|done|done|by eapply protocol_scope; [|exact Hp]|].
    simpl. intros [= ->]. destruct (Hc eq_refl) as (b0 & b' & Hf' & _ & _ & Hall). rewrite Hf in Hf'. injection Hf' as <-.
    exact Hall. }
  by destruct (fate (accesses s)); simpl; rewrite ?Hf.
Qed.

Lemma cleanup_keeps : keeps_good (cleanup_ perform clock fate).
Proof.
  apply ends_keeps.
  2:{ intros s Hf Hg. unfold cleanup_. match goal with |- context [bind (state fate) ?f s] => by destruct (no_row f s Hf Hg) as (e & s' & -> & ?) end. }
  intros s b0 Hr. exists (λ _ _, True). unfold cleanup_. eapply ends_bind; [exact (state_scope _ b0 s Hr)|].
  intros b s1 Hg1 [H1 Hsb]. destruct (cleanup_confirmed b); [by apply ends_ret|].
  eapply ends_bind with (R := λ c s', c = true → ∃ b0, running all_clean b0 s').
  { apply except_ends; [|by split]. eapply ends_weaken; [apply (cleanup_steps_ends s1 b b0); [|done]|].
    - eapply running_weaken; [|exact H1]. done.
    - intros c s2 _ [-> ?] _. by exists b0. }
  intros c s2 Hg2 Hc. pose proof (conclude_keeps c s2 Hg2 Hc) as Hk.
  unfold post, bind, ret, ends. destruct (transaction (conclude_tx c) s2) as [[[]|e] s3]; done.
Qed.

Lemma finally_keeps {A B} (m : M Site A) (f : M Site B) : keeps_good m → keeps_good f → keeps_good (finally m f).
Proof.
  intros Hm Hf s Hg. specialize (Hm s Hg). unfold finally. destruct (m s) as [[v|e] s1]; simpl in Hm.
  - specialize (Hf s1 Hm). by destruct (f s1) as [[?|?] ?].
  - case_bool_decide; [done|]. specialize (Hf s1 Hm). by destruct (f s1) as [[?|?] ?].
Qed.

Lemma bind_keeps {A B} (m : M Site A) (f : A → M Site B) : keeps_good m → (∀ v, keeps_good (f v)) → keeps_good (bind m f).
Proof.
  intros Hm Hf s Hg. specialize (Hm s Hg). unfold bind. destruct (m s) as [[v|e] s1]; simpl in Hm; [by apply Hf|done].
Qed.

Lemma quiet_keeps {A} (m : M Site A) : (∀ s, file (m s).2 = file s ∧ log (m s).2 = log s) → keeps_good m.
Proof. intros Hm s. destruct (Hm s). by apply good_eq. Qed.

Lemma state_keeps : keeps_good (state fate).
Proof.
  apply quiet_keeps. intros s. unfold state, FixedOrigin.transaction, get.
  by destruct (fate (accesses s)), (file s).
Qed.

Lemma ownership_keeps {A} (m : M Site A) : keeps_good m → keeps_good (ownership m).
Proof.
  intros Hm. unfold ownership. apply bind_keeps; [by apply quiet_keeps|]. intros held.
  apply bind_keeps; [by apply quiet_keeps|]. intros _. apply bind_keeps; [by apply quiet_keeps|]. intros _.
  apply finally_keeps; [done|by apply quiet_keeps].
Qed.

Lemma open_keeps i : keeps_good (open_ fate i).
Proof.
  unfold open_. destruct (i_starts_at i) as [| |t| | | |]; try by apply quiet_keeps.
  apply bind_keeps; [by apply quiet_keeps|]. intros _. apply bind_keeps.
  2:{ intros _. apply bind_keeps; [apply state_keeps|]. intros saved. by apply quiet_keeps. }
  intros s Hg. unfold insert_or_ignore. assert (∀ b, file s = None → b = fresh_body i t → Inv b (log s)) as Hi.
  { intros b Hf ->. unfold good in Hg. rewrite Hf in Hg. rewrite Hg. constructor; try done; [by exists i, t|..].
    - by intros r a k ?%elem_of_nil.
    - constructor. }
  unfold good in *. destruct (fate (accesses s)); destruct (file s) eqn:Hf; simpl; rewrite ?Hf; auto.
Qed.

Lemma attempt_keeps : keeps_good (attempt perform clock fate).
Proof.
  unfold attempt. apply bind_keeps.
  - apply finally_keeps; apply ownership_keeps; [apply provision_keeps|apply cleanup_keeps].
  - intros _. apply bind_keeps; [apply state_keeps|]. intros b. by apply quiet_keeps.
Qed.

Lemma call_keeps_good c : keeps_good (run_call perform clock fate c).
Proof.
  destruct c as [i|i|i|]; simpl; [| | |by apply quiet_keeps]; apply bind_keeps; try apply open_keeps; intros _.
  - apply ownership_keeps, provision_keeps.
  - apply bind_keeps; [apply ownership_keeps, cleanup_keeps|]. intros _. by apply quiet_keeps.
  - apply bind_keeps; [apply attempt_keeps|]. intros _. by apply quiet_keeps.
Qed.

Lemma history_good cs s : good s → good (run_calls perform clock fate cs s).
Proof. revert s. induction cs as [|c cs IH]; intros s Hg; [done|]. apply IH. by apply call_keeps_good. Qed.
End Calls.

Lemma protocol_once b l : protocol b l → NoDup (omap key_of (map fst l)).
Proof.
  induction 1 as [|l r a Hp IH (_ & Hf & _)]; [constructor|].
  rewrite map_app, omap_app. apply NoDup_app. split_and!; [done| |]; simpl;
    (destruct (key_of r) as [k|] eqn:Hk; simpl; [|by (set_solver || constructor)]).
  - intros k' Hin ->%list_elem_of_singleton. apply list_elem_of_omap in Hin as (r' & Hin & Hk').
    apply list_elem_of_fmap in Hin as ([r2 a2] & -> & Hin). by apply (Hf k eq_refl _ _ Hin).
  - apply NoDup_singleton.
Qed.

(** C11: Over every history of lifecycle objects on one journal, with any
    answers, failures, lost commits, cancellations and killed processes, the calls of
    the operations object follow the abstract protocol - nothing is created before
    every resource was seen absent, installed before the guard was ready, restored
    before admission was off, or deleted but by the identity its creation answered -
    and no mutation is attempted twice. *)
Theorem lifecycle_protocol {W} (perform : Request → M W json) clock fate (cs : list Call) (w : W) :
  let s := run_calls perform clock fate cs (initial w) in
  match file s with
  | Some b => protocol b (log s) ∧ NoDup (omap key_of (map fst (log s)))
  | None => log s = []
  end.
Proof.
  simpl. pose proof (history_good perform clock fate cs (initial w) eq_refl) as Hg. unfold good in Hg.
  destruct (file _); [|done]. destruct Hg as [_ _ _ Hp _]. split; [done|by eapply protocol_once].
Qed.

(** ** Over a provider *)

(** [kind, name] to the identity held there. *)
Notation holdings := (gmap (string * string) string).

(** What one call may do to what the provider holds. *)
Definition effect (r : Request) (a : res json) (h h' : holdings) : Prop :=
  match r with
  | Absent k n => h' = h ∧ (a = Ok (JBool true) → h !! (k, n) = None)
  | Create k n => h' = h ∨ ∃ id, h' = <[(k, n) := id]> h
  | Delete k n _ => match a with Ok (JBool true) => h' = delete (k, n) h | _ => h' = h ∨ h' = delete (k, n) h end
  | _ => h' = h
  end.

Inductive moves : list event → holdings → holdings → Prop :=
| MNil h : moves [] h h
| MCall evs h h1 h2 r a : moves evs h h1 → effect r a h1 h2 → moves (evs ++ [(r, a)]) h h2.

Lemma absent_held b l h h' : protocol b l → moves l h h' →
  (∀ kn id, h !! kn = Some id → h' !! kn = Some id)
  ∧ (∀ k n, (Absent k n, Ok (JBool true)) ∈ l → h !! (k, n) = None).
Proof.
  intros Hp Hm. revert Hp. induction Hm as [h|l h h1 h2 r a Hm IH He].
  { intros _. split; [done|]. by intros ? ? ?%elem_of_nil. }
  intros Hp. inversion Hp as [|l' r' a' Hpl (Hlic & _) E]; [by destruct l|]. apply app_inj_tail in E as [-> [= -> ->]].
  destruct (IH Hpl) as [Hkeep Hab]. split.
  - intros [k n] id Hh. specialize (Hkeep _ _ Hh) as H1. destruct r as [k' n'|k' n'| | | | | |k' n' id']; simpl in He; try by subst h2.
    + by destruct He as [-> _].
    + destruct He as [->|[id2 ->]]; [done|]. destruct (decide ((k', n') = (k, n))) as [[= -> ->]|Hne]; [|by rewrite lookup_insert_ne].
      destruct Hlic as [Hin Hall]. specialize (Hab k n (Hall _ Hin)). congruence.
    + assert ((k', n') ≠ (k, n)) as Hne.
      { intros [= -> ->]. destruct Hlic as (_ & [_ Hc] & _). destruct (protocol_in _ _ _ _ Hpl Hc) as (l1 & Hpre & [Hin Hall] & _).
        specialize (Hall _ Hin). apply (in_grow _ l1 l Hpre) in Hall. specialize (Hab k n Hall). congruence. }
      assert (h2 = h1 ∨ h2 = delete (k', n') h1) as [-> | ->]; [|done|by rewrite lookup_delete_ne].
      destruct a as [[|[]| | | | |]|]; auto.
  - intros k n. rewrite elem_of_app, list_elem_of_singleton. intros [H|[= <- <-]]; [by apply Hab|].
    destruct He as [-> He]. specialize (He eq_refl). apply eq_None_not_Some. intros [id Hh].
    specialize (Hkeep _ _ Hh). congruence.
Qed.

Lemma create_licensed b l k n a h h' :
  protocol b l → moves l h h' → (Create k n, a) ∈ l → mkResource k n ∈ resources b ∧ h !! (k, n) = None.
Proof.
  intros Hp Hm Hin. destruct (protocol_in _ _ _ _ Hp Hin) as (l1 & Hpre & [Hres Hall] & _). split; [done|].
  apply (absent_held b l h h' Hp Hm). by apply (in_grow _ l1 l Hpre), (Hall _ Hres).
Qed.

(** What was never created is as it was, and what was deleted is gone. *)
Lemma accounted b l h h' k n : protocol b l → moves l h h' →
  ((∀ a, (Create k n, a) ∉ l) → h' !! (k, n) = h !! (k, n))
  ∧ (∀ id, (Delete k n id, Ok (JBool true)) ∈ l → h' !! (k, n) = None).
Proof.
  intros Hp Hm. revert Hp. induction Hm as [h|l h h1 h2 r a Hm IH He].
  { intros _. split; [done|]. by intros ? ?%elem_of_nil. }
  intros Hp. inversion Hp as [|l' r' a' Hpl (Hlic & Hfr & _) E]; [by destruct l|]. apply app_inj_tail in E as [-> [= -> ->]].
  destruct (IH Hpl) as [Hno Hdel]. split.
  - intros Hc. assert (∀ a, (Create k n, a) ∉ l) as Hc' by (intros a' Ha; apply (Hc a'); rewrite elem_of_app; auto).
    rewrite <- (Hno Hc'). destruct r as [k' n'|k' n'| | | | | |k' n' id']; simpl in He; try by subst h2.
    + by destruct He as [-> _].
    + destruct He as [->|[id2 ->]]; [done|]. apply lookup_insert_ne. intros [= -> ->]. apply (Hc a).
      rewrite elem_of_app, list_elem_of_singleton. auto.
    + assert ((k', n') ≠ (k, n)) as Hne.
      { intros [= -> ->]. destruct Hlic as (_ & [_ Hin] & _). by apply Hc' in Hin. }
      assert (h2 = h1 ∨ h2 = delete (k', n') h1) as [-> | ->]; [|done|by rewrite lookup_delete_ne].
      destruct a as [[|[]| | | | |]|]; auto.
  - intros id. rewrite elem_of_app, list_elem_of_singleton. intros [Hin|[= <- <-]]; [|simpl in He; subst h2; by rewrite lookup_delete_eq].
    specialize (Hdel id Hin). destruct (protocol_in _ _ _ _ Hpl Hin) as (l1 & Hpre & (_ & [_ Hcr] & _) & _).
    apply (in_grow _ l1 l Hpre) in Hcr.
    destruct r as [k' n'|k' n'| | | | | |k' n' id']; simpl in He; try by subst h2.
    + by destruct He as [-> _].
    + destruct He as [->|[id2 ->]]; [done|]. rewrite lookup_insert_ne; [done|]. intros [= -> ->].
      by apply (Hfr _ eq_refl _ _ Hcr).
    + assert (h2 = h1 ∨ h2 = delete (k', n') h1) as [-> | ->]; [|done|].
      { destruct a as [[|[]| | | | |]|]; auto. }
      destruct (decide ((k', n') = (k, n))) as [[= -> ->]|Hne]; [by rewrite lookup_delete_eq|by rewrite lookup_delete_ne].
Qed.

Lemma clean_restores b l h h' : protocol b l → all_clean b l → moves l h h' → h' = h.
Proof.
  intros Hp (_ & _ & Hall) Hm. apply map_eq. intros [k n]. destruct (accounted b l h h' k n Hp Hm) as [Hno Hdel].
  destruct (existsb (λ e, match e.1 with Create k' n' => bool_decide ((k', n') = (k, n)) | _ => false end) l) eqn:Hex.
  - apply existsb_exists in Hex as ([[] a] & Hin & Hr); try done. apply list_elem_of_In in Hin.
    apply bool_decide_eq_true in Hr as [= -> ->].
    destruct (create_licensed b l k n a h h' Hp Hm Hin) as [Hres ->].
    destruct (Hall (mkResource k n) a Hres Hin) as (id & _ & Hd). by eapply Hdel.
  - apply Hno. intros a Hin. apply not_true_iff_false in Hex. apply Hex, existsb_exists.
    exists (Create k n, a). split; [by apply list_elem_of_In|]. by apply bool_decide_eq_true.
Qed.

(** *** Every call of the lifecycle moves the holdings by its calls *)

Section Provider.
Context {W : Type} (perform : Request → M W json) (clock : M W pyval) (fate : nat → io).
Context (held : W → holdings).

(** The documented behaviour of the provider: a creation adds at most the named
    resource, a confirmed deletion removes it, a failed one may have, a resource
    reported absent is not held, and nothing else touches the holdings. *)
Record Honest : Prop := {
  h_perform r w : effect r (perform r w).1 (held w) (held (perform r w).2);
  h_clock w : held (clock w).2 = held w;
}.
Context (honest : Honest).
Notation Site := (Site (W:=W)).

Definition tracks {A} (m : M Site A) : Prop := ∀ s h,
  moves (log s) h (held (world s)) → moves (log (m s).2) h (held (world (m s).2)).

Lemma tracks_same {A} (m : M Site A) :
  (∀ s, log (m s).2 = log s ∧ held (world (m s).2) = held (world s)) → tracks m.
Proof. intros Hm s h. destruct (Hm s) as [-> ->]. done. Qed.
Lemma tracks_invoke r : tracks (invoke perform r).
Proof. intros s h Hm. simpl. econstructor; [exact Hm|]. apply h_perform, honest. Qed.
Lemma tracks_bind {A B} (m : M Site A) (f : A → M Site B) : tracks m → (∀ v, tracks (f v)) → tracks (bind m f).
Proof.
  intros Hm Hf s h H. specialize (Hm s h H). unfold bind. destruct (m s) as [[v|e] s1]; [by apply Hf|done].
Qed.
Lemma tracks_except {A} (m f : M Site A) : tracks m → tracks f → tracks (except m f).
Proof.
  intros Hm Hf s h H. specialize (Hm s h H). unfold except. destruct (m s) as [[v|e] s1]; [done|].
  destruct (is_exception e); [by apply Hf|done].
Qed.
Lemma tracks_finally {A B} (m : M Site A) (f : M Site B) : tracks m → tracks f → tracks (finally m f).
Proof.
  intros Hm Hf s h H. specialize (Hm s h H). unfold finally. destruct (m s) as [[v|e] s1]; [|case_bool_decide; [done|]];
    specialize (Hf s1 h Hm); by destruct (f s1) as [[?|?] ?].
Qed.
Lemma tracks_ret {A} (v : A) : tracks (ret v).
Proof. by apply tracks_same. Qed.
Lemma tracks_raise {A} e : tracks (A:=A) (raise e).
Proof. by apply tracks_same. Qed.
Lemma tracks_lift {A} (x : res A) : tracks (lift x).
Proof. by apply tracks_same. Qed.
Lemma tracks_gets {A} (f : Site → A) : tracks (gets f).
Proof. by apply tracks_same. Qed.
Lemma tracks_marker b : tracks (set_marker b).
Proof. by apply tracks_same. Qed.
Lemma tracks_clock : tracks (on_clock clock).
Proof. apply tracks_same. intros s. simpl. split; [done|]. apply h_clock, honest. Qed.
Lemma tracks_transaction {A} (m : M Body A) : tracks (transaction fate m).
Proof.
  apply tracks_same. intros s. unfold transaction.
  destruct (fate (accesses s)), (file s) as [b|]; try done; by destruct (m b) as [[?|?] ?].
Qed.
Lemma tracks_insert b : tracks (insert_or_ignore fate b).
Proof. apply tracks_same. intros s. unfold insert_or_ignore. by destruct (fate (accesses s)). Qed.

Create HintDb tracks discriminated.
#[local] Hint Resolve tracks_invoke tracks_ret tracks_raise tracks_lift tracks_gets tracks_marker tracks_clock
  tracks_transaction tracks_insert : tracks.

(** Follows a statement sequence through its branches. *)
Ltac track :=
  repeat first
    [ solve [auto with tracks nocore]
    | apply tracks_bind | apply tracks_except | apply tracks_finally
    | match goal with
      | |- tracks (match ?x with _ => _ end) => destruct x
      | |- ∀ _, _ => intro
      | |- tracks (refuse _ _) => unfold refuse
      | |- tracks (state _) => unfold state
      end ].

Lemma tracks_time : tracks (time clock fate).
Proof. unfold time. track. Qed.
#[local] Hint Resolve tracks_time : tracks.
Lemma tracks_guard d : tracks (guard perform clock fate d).
Proof. unfold guard, qualification_open. track. Qed.
Lemma tracks_once k op : tracks op → tracks (once fate k op).
Proof. intros Hop. unfold once. track; exact Hop. Qed.
Lemma tracks_once_true k op l : tracks op → tracks (once_true fate k op l).
Proof. intros Hop. unfold once_true. apply tracks_bind; [by apply tracks_once|]. track. Qed.
Lemma tracks_all_absent rows : tracks (all_absent perform rows).
Proof. induction rows as [|r rows IH]; simpl; track; exact IH. Qed.
#[local] Hint Resolve tracks_guard tracks_once tracks_once_true tracks_all_absent : tracks.
Lemma tracks_create r : tracks (create perform r).
Proof. unfold create. track. Qed.
#[local] Hint Resolve tracks_create : tracks.
Lemma tracks_create_all rows : tracks (create_all perform clock fate rows).
Proof. induction rows as [|r rows IH]; simpl; track; exact IH. Qed.
Lemma tracks_delete_all rows : tracks (delete_all perform fate rows).
Proof. induction rows as [|r rows IH]; simpl; [track|]. apply tracks_bind; [|by intros]. unfold delete_row. track. Qed.
#[local] Hint Resolve tracks_create_all tracks_delete_all : tracks.
Lemma tracks_provision : tracks (provision perform clock fate).
Proof. unfold provision, ownership, provision_. track. Qed.
Lemma tracks_cleanup : tracks (cleanup perform clock fate).
Proof. unfold cleanup, ownership, cleanup_, cleanup_steps. track. Qed.
Lemma tracks_open i : tracks (open_ fate i).
Proof. unfold open_. track. Qed.
#[local] Hint Resolve tracks_provision tracks_cleanup tracks_open : tracks.
Lemma tracks_attempt : tracks (attempt perform clock fate).
Proof. unfold attempt. track. Qed.
#[local] Hint Resolve tracks_attempt : tracks.

Lemma history_tracks cs s h :
  moves (log s) h (held (world s)) →
  moves (log (run_calls perform clock fate cs s)) h (held (world (run_calls perform clock fate cs s))).
Proof.
  revert s. induction cs as [|c cs IH]; intros s Hm; [done|]. apply IH.
  assert (tracks (run_call perform clock fate c)) as Hc by (destruct c; simpl; track). by apply Hc.
Qed.
End Provider.

Lemma attempt_confirmed {W} (perform : Request → M W json) clock fate s s' :
  attempt perform clock fate s = (Ok true, s') → ∃ b, file s' = Some b ∧ cleanup_confirmed b = Some true.
Proof.
  unfold attempt. intros (_ & s1 & _ & H)%bind_ok. apply bind_ok in H as (b & s2 & Hs & [= Hc <-]).
  apply bool_decide_eq_true in Hc. exists b. split; [|done]. revert Hs. unfold state, transaction, get.
  by destruct (fate (accesses s1)), (file s1); intros [= <- <-].
Qed.

Lemma good_restores {W} (held : W → holdings) (w : W) (s : Site) b :
  good s → moves (log s) (held w) (held (world s)) → file s = Some b → cleanup_confirmed b = Some true →
  held (world s) = held w.
Proof.
  unfold good. intros Hg Hm Hf Hc. rewrite Hf in Hg. destruct Hg as [_ _ _ Hp Hd]. eapply clean_restores; eauto.
Qed.

(** C10: Over an honest provider and every history - whatever calls fail,
    whichever commits are lost, whenever a process dies - everything that was held
    before the run is still held; and once a cleanup is confirmed, or an attempt
    answers true, exactly what was held before the run is held. *)
Theorem cleanup_restores {W} (perform : Request → M W json) (clock : M W pyval) (fate : nat → io)
    (held : W → holdings) (cs : list Call) (w : W) :
  Honest perform clock held →
  let s := run_calls perform clock fate cs (initial w) in
  (∀ kn id, held w !! kn = Some id → held (world s) !! kn = Some id)
  ∧ (∀ b, file s = Some b → cleanup_confirmed b = Some true → held (world s) = held w)
  ∧ (∀ i s', bind (open_ fate i) (λ _, attempt perform clock fate) s = (Ok true, s') → held (world s') = held w).
Proof.
  intros Hh s. assert (good s) as Hg by by apply history_good.
  assert (moves (log s) (held w) (held (world s))) as Hm by (by apply history_tracks; [|constructor]).
  split; [|split].
  - intros kn id. unfold good in Hg. destruct (file s) as [b|] eqn:Hf.
    + destruct Hg as [_ _ _ Hp _]. apply (absent_held b (log s)); done.
    + rewrite Hg in Hm. inversion Hm as [|evs ? ? ? ? ? ? ? E]; [done|by destruct evs].
  - intros b Hf Hc. by eapply good_restores.
  - intros i s' (u & s1 & Ho & Ha)%bind_ok.
    destruct (attempt_confirmed _ _ _ _ _ Ha) as (b & Hf & Hc).
    pose proof (open_keeps fate i s Hg) as Hg1. pose proof (tracks_open fate held i s (held w) Hm) as Hm1. rewrite Ho in Hg1, Hm1.
    pose proof (attempt_keeps perform clock fate s1 Hg1) as Hg2.
    pose proof (tracks_attempt perform clock fate held Hh s1 (held w) Hm1) as Hm2. rewrite Ha in Hg2, Hm2.
    by eapply good_restores.
Qed.

(** ** A provider *)

Module Bench.
Record World := mkWorld { holds : holdings; enabled : bool; scope : string * Z * Z; now : Z }.

Definition serve (r : Request) : M World json := λ w,
  let with_ h e sc := mkWorld h e sc (now w) in
  match r with
  | Absent k n => (Ok (JBool (bool_decide (holds w !! (k, n) = None))), w)
  | Create k n =>
      let id := if bool_decide (k = "d1") then "0a1b2c3d-0000-4000-8000-00000000abcd" else n in
      (Ok (JStr id), with_ (<[(k, n) := id]> (holds w)) (enabled w) (scope w))
  | InitializeGuard i s e => (Ok (JBool true), with_ (holds w) true (i, s, e))
  | ReadGuard _ =>
      (Ok (JObj [("run", JStr (scope w).1.1); ("startsAt", JInt (scope w).1.2); ("expiresAt", JInt (scope w).2);
                 ("enabled", JBool (enabled w)); ("initialized", JBool true); ("fga", JInt 0); ("receiver", JInt 0);
                 ("limits", JObj [("fga", JInt 96); ("receiver", JInt 16); ("lifetimeMs", JInt 1200000)])]), w)
  | Install _ _ _ _ => (Ok (JBool true), w)
  | Disable _ => (Ok (JBool true), with_ (holds w) false (scope w))
  | Restore d =>
      (Ok (JObj [("captureDigest", JStr d); ("ordinaryRoutesVerified", JBool true);
                 ("qualificationBindingsAbsent", JBool true); ("writeGatesDisabled", JBool true);
                 ("productionStateUnchanged", JBool true)]), w)
  | Delete k n _ => (Ok (JBool true), with_ (delete (k, n) (holds w)) (enabled w) (scope w))
  end.
Definition tick : M World pyval := λ w,
  (Ok (PInt (now w)), mkWorld (holds w) (enabled w) (scope w) (now w + 1)).

Lemma serve_honest : Honest serve tick holds.
Proof.
  split; [|done]. intros [k n|k n| | | | | |k n id] w; simpl; try done; [|by right; eexists].
  split; [done|]. intros [= H]. by apply bool_decide_eq_true in H.
Qed.

Definition production : World := mkWorld {[("d1", "production") := "the-database"]} false ("", 0, 0) 1000.
Definition lifecycle : Instance_ :=
  mkInstance "0123456789abcdef0123456789abcdef" (PInt 1000)
    "00112233445566778899aabbccddeeff00112233445566778899aabbccddeeff" true.
End Bench.

Lemma bench_attempt : ∃ s', bind (open_ (λ _, Healthy) Bench.lifecycle) (λ _, attempt Bench.serve Bench.tick (λ _, Healthy))
    (initial Bench.production) = (Ok true, s') ∧ length (log s') = 19%nat.
Proof. eexists. split; vm_compute; reflexivity. Qed.

Lemma cleanup_restores_witness : ∃ s' : Site (W:=Bench.World),
  length (log s') = 19%nat ∧ Bench.holds (world s') = Bench.holds Bench.production.
Proof.
  destruct bench_attempt as (s' & E & Hl). exists s'. split; [exact Hl|].
  exact (proj2 (proj2 (cleanup_restores Bench.serve Bench.tick (λ _, Healthy) Bench.holds [] Bench.production Bench.serve_honest))
           Bench.lifecycle s' E).
Defined.
