(* ===== verification/Evidence.v ===== *)
(** The bounded evidence texts of scripts/fixed_origin_preservation.py that the
    snapshot tools share: [_json] and its bounds, closed objects, sorting by a
    computed text, and Python's [==] on documents.

    A value of unknown type is a [json] document: what the transport hands over. *)
From stdpp Require Import sorting.
From S2P Require Import Prelude Json JsonParse JsonRoundTrip Oracle.

(** ** Bounds *)

Definition MAX_TABLES : Z := 128.
Definition MAX_ROWS : Z := 10000.
Definition MAX_BYTES : Z := 4 * 1024 * 1024.
Definition MAX_SCHEMA : Z := 2048.

(** ** Texts and shapes *)

(** [json.dumps(..., allow_nan=False)] *)
Fixpoint all_finite (j : json) : bool :=
  match j with
  | JFloat t => negb (str_in t ["NaN"; "Infinity"; "-Infinity"])
  | JArr l => forallb all_finite l
  | JObj d => forallb (λ kv, all_finite kv.2) d
  | _ => true
  end.
Definition _json (value : json) : res string :=
  require (all_finite value) "invalid_evidence_encoding" ;?
  require (slen (dumps value) <=? MAX_BYTES) "evidence_bound_exceeded" ;?
  Ok (dumps value).

(** The fields of a dict with exactly these keys. *)
Definition closed (value : json) (expected : list string) (category : string) : res (list (string * json)) :=
  match value with
  | JObj d => require (same_keys d expected) category ;? Ok d
  | _ => Err (Refusal category)
  end.
Definition field (k : string) (d : list (string * json)) : json :=
  match dict_get k d with Some v => v | None => JNull end.

Definition _text (value : json) : bool := match value with JStr _ => true | _ => false end.
Definition str_among (l : list string) (value : json) : bool := match value with JStr s => str_in s l | _ => false end.
Definition int_where (p : Z → bool) (value : json) : bool := match value with JInt z => p z | _ => false end.
Definition text_of (value : json) : string := match value with JStr s => s | _ => EmptyString end.
Definition int_of (value : json) : Z := match value with JInt z => z | _ => 0 end.
Definition null_or_text (value : json) : bool := match value with JNull => true | _ => _text value end.
Definition list_of (value : json) (category : string) : res (list json) :=
  match value with JArr l => Ok l | _ => Err (Refusal category) end.
Definition dict_fields (value : json) (category : string) : res (list (string * json)) :=
  match value with JObj d => Ok d | _ => Err (Refusal category) end.

(** [set(a) == set(b)] *)
Definition same_set (a b : list string) : bool := forallb (λ x, str_in x b) a && forallb (λ x, str_in x a) b.

(** [sorted(l, key=...)]: the sort is stable. *)
Fixpoint insert_by {A} (leb : A → A → bool) (x : A) (l : list A) : list A :=
  match l with
  | [] => [x]
  | y :: l' => if leb x y then x :: y :: l' else y :: insert_by leb x l'
  end.
Definition sort_by {A} (leb : A → A → bool) (l : list A) : list A := foldr (insert_by leb) [] l.

(** [sorted(l, key=_json)]: every key is computed first. *)
Definition sorted_by_json {A} (f : A → json) (l : list A) : res (list A) :=
  let? keyed := mapR (λ x, let? k := _json (f x) in Ok (k, x)) l in
  Ok (map snd (sort_by (λ a b, String.leb (fst a) (fst b)) keyed)).

(** ** Python's [==]

    Booleans and integers compare as numbers, and an integral float equals its
    integer; two floats that are not integral are equal when their [repr] is.
    [integral] is the integer a finite float literal equals, if any. *)
Section Equality.
Context (integral : string → option Z).

Definition number_eqb (a b : json) : bool :=
  let number j := match j with
                  | JBool b => Some (Some (Z.b2z b))
                  | JInt z => Some (Some z)
                  | JFloat t => Some (integral t)
                  | _ => None
                  end in
  match number a, number b with
  | Some (Some x), Some (Some y) => x =? y
  | Some None, Some None => match a, b with JFloat s, JFloat t => bool_decide (s = t) | _, _ => false end
  | _, _ => false
  end.

Fixpoint py_eqb (a b : json) : bool :=
  match a, b with
  | JNull, JNull => true
  | JStr s, JStr t => bool_decide (s = t)
  | JArr l, JArr k =>
      (fix go l k := match l, k with
                     | [], [] => true
                     | x :: l', y :: k' => py_eqb x y && go l' k'
                     | _, _ => false
                     end) l k
  | JObj d, JObj e =>
      bool_decide (length d = length e)
      && forallb (λ kv, match dict_get kv.1 e with Some v => py_eqb kv.2 v | None => false end) d
  | _, _ => number_eqb a b
  end.
End Equality.

(** ** Lemmas: sorting *)

Section Sort.
Context {A : Type} (leb : A → A → bool).
Definition by_leb (x y : A) : Prop := leb x y = true.

Lemma insert_by_perm x l : insert_by leb x l ≡ₚ x :: l.
Proof. induction l as [|y l IH]; simpl; [done|]. destruct (leb x y); [done|]. rewrite IH. constructor. Qed.
Lemma sort_by_perm l : sort_by leb l ≡ₚ l.
Proof. induction l as [|x l IH]; simpl; [done|]. by rewrite insert_by_perm, IH. Qed.

Lemma insert_by_sorted x l :
  Transitive by_leb → (∀ a b, leb a b = false → leb b a = true) →
  StronglySorted by_leb l → StronglySorted by_leb (insert_by leb x l).
Proof.
  intros Ht Htot. induction 1 as [|y l Hs IH Hy]; simpl; [by repeat constructor|].
  destruct (leb x y) eqn:E.
  - constructor; [by constructor|]. constructor; [done|]. eapply Forall_impl; [exact Hy|]. intros z Hz. by trans y.
  - constructor; [done|]. rewrite insert_by_perm. constructor; [by apply Htot|done].
Qed.
Lemma sort_by_sorted l :
  Transitive by_leb → (∀ a b, leb a b = false → leb b a = true) → StronglySorted by_leb (sort_by leb l).
Proof. intros Ht Htot. induction l as [|x l IH]; simpl; [constructor|]. by apply insert_by_sorted. Qed.

(** A sorted list is its own sort. *)
Lemma sorted_sort_by l : StronglySorted by_leb l → sort_by leb l = l.
Proof.
  induction 1 as [|x l Hs IH Hx]; [done|]. change (sort_by leb (x :: l)) with (insert_by leb x (sort_by leb l)). rewrite IH.
  destruct Hx as [|y l Hy _]; [done|]. simpl. by rewrite Hy.
Qed.
End Sort.

Lemma sort_by_map {A B} (leb : B → B → bool) (g : A → B) l :
  sort_by leb (map g l) = map g (sort_by (λ a b, leb (g a) (g b)) l).
Proof.
  assert (∀ x l, insert_by leb (g x) (map g l) = map g (insert_by (λ a b, leb (g a) (g b)) x l)) as Hi.
  { intros x k. induction k as [|y k IH]; [done|]. simpl. destruct (leb (g x) (g y)); [done|]. simpl. by rewrite IH. }
  induction l as [|x l IH]; [done|]. unfold sort_by in *. cbn [map foldr]. by rewrite IH, Hi.
Qed.

(** The order of the canonical texts. *)
Definition text_order {A} (f : A → json) (a b : A) : bool := String.leb (dumps (f a)) (dumps (f b)).
Lemma text_order_sorted {A} (f : A → json) l : StronglySorted text_le (map (λ x, dumps (f x)) (sort_by (text_order f) l)).
Proof.
  eapply StronglySorted_fmap; [|apply sort_by_sorted].
  - intros a b H. exact H.
  - intros a b c. unfold by_leb, text_order. apply text_le_trans.
  - intros a b Hab. unfold text_order in *. destruct (text_le_total (dumps (f a)) (dumps (f b))) as [H|H]; [unfold text_le in H; congruence|exact H].
Qed.

Lemma _json_ok j t : _json j = Ok t → t = dumps j ∧ all_finite j = true ∧ json_len j <= MAX_BYTES.
Proof. unfold _json. intros H. inv_check. inv_bool. split_and!; done. Qed.
Lemma sorted_by_json_ok {A} (f : A → json) l s : sorted_by_json f l = Ok s → s = sort_by (text_order f) l.
Proof.
  unfold sorted_by_json. intros H. inv_check.
  assert (a = map (λ x, (dumps (f x), x)) l) as ->; [|by rewrite sort_by_map, map_map, map_id].
  clear -Ha. revert a Ha. induction l as [|x l IH]; intros a Ha; cbn [mapR] in Ha; [by injection Ha as <-|]. inv_check.
  cbn [map]. apply _json_ok in Ha1 as [-> _]. f_equal. by apply IH.
Qed.

(** ** Lemmas: shapes *)

Lemma field_get k d v : field k d = v → v ≠ JNull → dict_get k d = Some v.
Proof. unfold field. destruct (dict_get k d); congruence. Qed.
Lemma field_found k d v : dict_get k d = Some v → field k d = v.
Proof. unfold field. by intros ->. Qed.
Lemma closed_ok v ks c d : closed v ks c = Ok d → v = JObj d ∧ same_keys d ks = true.
Proof. unfold closed. destruct v; try done. intros H. by inv_check. Qed.
Lemma closed_field d ks k : same_keys d ks = true → k ∈ ks → dict_get k d = Some (field k d).
Proof. intros Hs Hk. destruct (same_keys_get d ks k Hs Hk) as [v Hv]. unfold field. by rewrite Hv. Qed.
Lemma dict_get_some {A} k (d : list (string * A)) : k ∈ map fst d → ∃ v, dict_get k d = Some v.
Proof.
  induction d as [|[x y] d IH]; simpl; [by intros ?%elem_of_nil|]. destruct (bool_decide_reflect (k = x)) as [->|Hne]; [eauto|].
  intros [?|?]%elem_of_cons; [done|auto].
Qed.
Lemma list_of_ok v c l : list_of v c = Ok l → v = JArr l.
Proof. destruct v; try done. by intros [= ->]. Qed.
Lemma dict_fields_ok v c d : dict_fields v c = Ok d → v = JObj d.
Proof. destruct v; try done. by intros [= ->]. Qed.
Lemma text_ok v : _text v = true → ∃ s, v = JStr s.
Proof. destruct v; try done. eauto. Qed.
Lemma int_where_ok p v : int_where p v = true → ∃ z, v = JInt z ∧ p z = true.
Proof. destruct v; try done. simpl. eauto. Qed.
Lemma str_among_ok l v : str_among l v = true → ∃ s, v = JStr s ∧ s ∈ l.
Proof. destruct v; try done. unfold str_among, str_in. intros ?%bool_decide_eq_true. eauto. Qed.

(** ** Lemmas: equality *)

(** Documents of lists, texts, integers and nulls: equal ones are the same. *)
Fixpoint flat (j : json) : bool :=
  match j with
  | JNull | JInt _ | JStr _ => true
  | JArr l => forallb flat l
  | _ => false
  end.

Section EqualityFacts.
Context (integral : string → option Z).
Notation eqb := (py_eqb integral).

Lemma py_eqb_list l k : eqb (JArr l) (JArr k) = true ↔ Forall2 (λ x y, eqb x y = true) l k.
Proof.
  revert k. induction l as [|x l IH]; intros [|y k]; simpl in *; [done|split; [done|by inversion 1]..|].
  rewrite andb_true_iff. split.
  - intros [Hx Hl]. constructor; [done|]. by apply IH.
  - intros H. inversion H; subst. split; [done|]. by apply IH.
Qed.

Lemma py_eqb_str a s : eqb a (JStr s) = true ↔ a = JStr s.
Proof.
  destruct a as [| | |t|u| |]; simpl; try (split; [done|congruence]).
  - unfold number_eqb. destruct (integral t); split; congruence.
  - rewrite bool_decide_eq_true. split; congruence.
Qed.

Lemma py_eqb_null a : eqb a JNull = true ↔ a = JNull.
Proof.
  destruct a as [| | |t| | |]; simpl; try (split; [done|congruence]).
  unfold number_eqb. destruct (integral t); split; congruence.
Qed.

Lemma py_eqb_flat a b : flat a = true → flat b = true → eqb a b = true → a = b.
Proof.
  revert b. induction a as [|a|z|t|s|l IH|d IH] using json_induction; intros b Ha Hb Hab; try done.
  - by destruct b.
  - destruct b; try done. simpl in Hab. by apply Z.eqb_eq in Hab as ->.
  - destruct b; try done. simpl in Hab. by apply bool_decide_eq_true in Hab as ->.
  - destruct b as [| | | | |k|]; try done. apply py_eqb_list in Hab. f_equal. simpl in Ha, Hb.
    rewrite forallb_forall in Ha, Hb. revert k Hab Hb. induction IH as [|x l Hx _ IHl]; intros k Hab Hb; inversion Hab; subst; [done|].
    f_equal; [apply Hx; [apply Ha; by left|apply Hb; by left|done]|]. apply IHl; [intros; apply Ha; by right|done|intros; apply Hb; by right].
Qed.

Lemma py_eqb_obj d e k v : eqb (JObj d) (JObj e) = true → dict_get k d = Some v →
  ∃ w, dict_get k e = Some w ∧ eqb v w = true.
Proof.
  simpl. rewrite andb_true_iff, forallb_forall. intros [_ H] Hk. apply dict_get_in in Hk.
  specialize (H (k, v)). rewrite <- list_elem_of_In in H. specialize (H Hk). simpl in H. destruct (dict_get k e); [eauto|done].
Qed.
End EqualityFacts.

Lemma pairs_id {A} (l : list (string * A)) : map (λ kv, (kv.1, id kv.2)) l = l.
Proof. induction l as [|[x y] l IH]; [done|]. cbn [map]. by rewrite IH. Qed.
Lemma dict_get_elem {A} k (v : A) l : NoDup (map fst l) → (k, v) ∈ l → dict_get k l = Some v.
Proof. intros Hn Hin. pose proof (dict_get_map id l k v Hn Hin) as H. by rewrite pairs_id in H. Qed.


(** ** Lemmas: sizes *)

Lemma sum_nonneg {A} (f : A → Z) l : (∀ x, 0 <= f x) → 0 <= foldr (λ x n, f x + n) 0 l.
Proof. intros Hf. induction l as [|x l IH]; simpl; [done|]. specialize (Hf x). lia. Qed.
Lemma sum_app {A} (f : A → Z) l k : foldr (λ x n, f x + n) 0 (l ++ k) = foldr (λ x n, f x + n) 0 l + foldr (λ x n, f x + n) 0 k.
Proof. induction l as [|x l IH]; simpl; lia. Qed.
Lemma sum_perm {A} (f : A → Z) l k : l ≡ₚ k → foldr (λ x n, f x + n) 0 l = foldr (λ x n, f x + n) 0 k.
Proof. induction 1; simpl; lia. Qed.

Lemma json_len_sub l k : l ⊆+ k → json_len (JArr l) <= json_len (JArr k).
Proof.
  intros Hs. pose proof (submseteq_length _ _ Hs). apply submseteq_Permutation in Hs as [r Hr].
  rewrite !json_len_arr, (sum_perm json_len _ _ Hr), sum_app. pose proof (sum_nonneg json_len r json_len_nonneg). lia.
Qed.
Lemma json_len_in j l : j ∈ l → json_len j <= json_len (JArr l).
Proof.
  intros Hin. trans (json_len (JArr [j])); [rewrite json_len_arr; simpl; lia|]. apply json_len_sub.
  by apply singleton_submseteq_l.
Qed.
Definition member_len (kv : string * json) : Z := slen (quoted kv.1) + 1 + json_len kv.2.
Lemma member_len_nonneg kv : 0 <= member_len kv.
Proof. unfold member_len. pose proof (slen_nonneg (quoted kv.1)). pose proof (json_len_nonneg kv.2). lia. Qed.
Lemma json_len_members kvs : json_len (JObj kvs) = 2 + foldr (λ kv n, member_len kv + n) 0 kvs + Z.of_nat (pred (length kvs)).
Proof. apply json_len_obj. Qed.
Lemma json_len_prefix l k : json_len (JObj l) <= json_len (JObj (l ++ k)).
Proof.
  rewrite !json_len_members, sum_app, length_app. pose proof (sum_nonneg member_len k member_len_nonneg). lia.
Qed.
Lemma json_len_member k v kvs : (k, v) ∈ kvs → json_len v <= json_len (JObj kvs).
Proof.
  intros (l1 & l2 & ->)%list_elem_of_split. rewrite json_len_members, sum_app. cbn [foldr].
  pose proof (sum_nonneg member_len l1 member_len_nonneg). pose proof (sum_nonneg member_len l2 member_len_nonneg).
  assert (json_len v <= member_len (k, v)) by (unfold member_len; simpl; pose proof (slen_nonneg (quoted k)); lia). lia.
Qed.

(** ** Lemmas: typed rows have an encoding *)

Lemma cell_finite c : all_finite (cell_json c) = true.
Proof. by destruct c. Qed.
Lemma row_finite r : all_finite (row_json r) = true.
Proof.
  unfold row_json. cbn [all_finite]. apply forallb_forall. intros j Hj. apply list_elem_of_In, list_elem_of_fmap in Hj as (c & -> & _).
  apply cell_finite.
Qed.
Lemma ordered_finite b r : all_finite (ordered_json b r) = true.
Proof. unfold ordered_json. destruct b; [|apply row_finite]. cbn [all_finite forallb]. pose proof (row_finite r) as ->. by destruct r.1. Qed.

(** ** Lemmas: agreement

    A computation agrees with a value when it answers it, or refuses because the
    content is larger than the bounds. *)
Definition too_large (small : Prop) (e : exn) : Prop := e = Refusal "evidence_bound_exceeded" ∧ ¬ small.
Definition agrees (small : Prop) {A} (r : res A) (x : A) : Prop := r = Ok x ∨ ∃ e, r = Err e ∧ too_large small e.

Section Agree.
Context {small : Prop}.
Notation agrees := (agrees small).

Lemma agrees_ok {A} (x : A) : agrees (Ok x) x.
Proof. by left. Qed.
Lemma agrees_bind {A B} (r : res A) (f : A → res B) x y : agrees r x → agrees (f x) y → agrees (rbind r f) y.
Proof. intros [->|(e & -> & He)] Hf; [exact Hf|right; by exists e]. Qed.
Lemma agrees_require {A} b label (r : res A) x : b = true → agrees r x → agrees (require b label ;? r) x.
Proof. by intros ->. Qed.
Lemma agrees_json j : all_finite j = true → (small → json_len j <= MAX_BYTES) → agrees (_json j) (dumps j).
Proof.
  intros Hf Hl. unfold _json. rewrite Hf. cbn [require rbind]. destruct (Z.leb_spec (slen (dumps j)) MAX_BYTES) as [H|H].
  - by left.
  - right. eexists. split; [reflexivity|]. split; [done|]. intros Hs. specialize (Hl Hs). unfold json_len in Hl. lia.
Qed.
Lemma agrees_bound n : (small → n <= MAX_BYTES) → agrees (require (n <=? MAX_BYTES) "evidence_bound_exceeded") tt.
Proof.
  intros Hn. destruct (Z.leb_spec n MAX_BYTES) as [H|H]; [by left|]. right. eexists. split; [reflexivity|]. split; [done|].
  intros Hs. specialize (Hn Hs). lia.
Qed.
Lemma agrees_mapR {A B} (f : A → res B) (g : A → B) l : (∀ x, x ∈ l → agrees (f x) (g x)) → agrees (mapR f l) (map g l).
Proof.
  induction l as [|x l IH]; intros Hf; [by left|]. cbn [mapR map]. eapply agrees_bind; [apply Hf; by left|].
  eapply agrees_bind; [apply IH; intros; apply Hf; by right|]. by left.
Qed.
Lemma agrees_sorted {A} (f : A → json) l :
  (∀ x, x ∈ l → all_finite (f x) = true ∧ (small → json_len (f x) <= MAX_BYTES)) →
  agrees (sorted_by_json f l) (sort_by (λ a b, String.leb (dumps (f a)) (dumps (f b))) l).
Proof.
  intros Hl. unfold sorted_by_json. eapply agrees_bind.
  - apply (agrees_mapR _ (λ x, (dumps (f x), x))). intros x Hx. destruct (Hl x Hx) as [Hf Hb].
    eapply agrees_bind; [by apply agrees_json|]. by left.
  - left. by rewrite sort_by_map, map_map, map_id.
Qed.

End Agree.
