(* ===== verification/Documents.v ===== *)
(** Documents as Python values: objects with distinct keys, texts that tell documents
    apart up to the order of keys, and updates of members. *)
From S2P Require Import Prelude Json JsonParse JsonRoundTrip Oracle Evidence ExactCountFacts.

(** ** Regular documents *)

Lemma regular_arr l : regular (JArr l) ↔ Forall regular l.
Proof. cbn. apply foldr_and_forall. Qed.
Lemma regular_obj d : regular (JObj d) ↔ NoDup (map fst d) ∧ Forall (λ kv, regular kv.2) d.
Proof. cbn. by rewrite (foldr_and_forall (λ kv : string * json, regular kv.2)). Qed.
Lemma regular_get d k v : regular (JObj d) → dict_get k d = Some v → regular v.
Proof. rewrite regular_obj, Forall_forall. intros [_ H] Hk%dict_get_in. exact (H _ Hk). Qed.
Lemma regular_field k d : regular (JObj d) → regular (field k d).
Proof. intros H. unfold field. destruct (dict_get k d) eqn:E; [by eapply regular_get|done]. Qed.
Lemma dict_set_elem {A} k (v : A) d kv : kv ∈ dict_set k v d → kv = (k, v) ∨ kv ∈ d.
Proof.
  induction d as [|[x y] d IH]; cbn; [set_solver|]. destruct (bool_decide_reflect (k = x)); [set_solver|].
  intros [->|H]%elem_of_cons; [right; left|]. destruct (IH H); [by left|right; by right].
Qed.
Lemma regular_set k v d : regular (JObj d) → regular v → regular (JObj (dict_set k v d)).
Proof.
  rewrite !regular_obj. intros [Hn Hd] Hv. split; [by apply dict_set_nodup|]. rewrite Forall_forall in *.
  intros kv [->|H]%dict_set_elem; [done|by apply Hd].
Qed.

(** ** Texts tell regular documents apart *)

Lemma text_canon a b : regular a → regular b → dumps a = dumps b → canon a = canon b.
Proof. intros Ha%loads_back Hb%loads_back E. rewrite E in Ha. congruence. Qed.
Lemma canon_text a b : canon a = canon b → dumps a = dumps b.
Proof. intros E. by rewrite <- (dumps_canon a), E, dumps_canon. Qed.
Lemma canon_get k d e : regular (JObj d) → regular (JObj e) → canon (JObj d) = canon (JObj e) → canon <$> dict_get k d = canon <$> dict_get k e.
Proof. intros [Hd _]%regular_obj [He _]%regular_obj [= E]. by rewrite <- !dict_get_canon, E. Qed.
Lemma canon_field k d e : regular (JObj d) → regular (JObj e) → canon (JObj d) = canon (JObj e) → canon (field k d) = canon (field k e).
Proof. intros Hd He E. apply (canon_get k) in E; [|done..]. unfold field. by destruct (dict_get k d), (dict_get k e); cbn in E; try congruence. Qed.
Lemma canon_str s j : canon j = JStr s → j = JStr s.
Proof. by destruct j. Qed.
Lemma canon_list_length l k : canon (JArr l) = canon (JArr k) → length l = length k.
Proof. intros [= E]. by rewrite <- (length_map canon l), E, length_map. Qed.

(** A document without a float is finite. *)
Lemma regular_finite j : regular j → all_finite j = true.
Proof.
  induction j as [|b|z|t|s|l IH|d IH] using json_induction; try done.
  - rewrite regular_arr. cbn. intros H. apply forallb_forall. intros x Hx%list_elem_of_In. rewrite Forall_forall in *. by apply IH, H.
  - rewrite regular_obj. cbn. intros [_ H]. apply forallb_forall. intros x Hx%list_elem_of_In. rewrite Forall_forall in *. by apply IH, H.
Qed.

(** ** Python values: every object has distinct keys *)

Fixpoint distinct (j : json) : Prop :=
  match j with
  | JArr l => foldr (λ x P, distinct x ∧ P) True l
  | JObj d => NoDup (map fst d) ∧ foldr (λ kv P, distinct kv.2 ∧ P) True d
  | _ => True
  end.
Lemma distinct_arr l : distinct (JArr l) ↔ Forall distinct l.
Proof. cbn. apply foldr_and_forall. Qed.
Lemma distinct_obj d : distinct (JObj d) ↔ NoDup (map fst d) ∧ Forall (λ kv, distinct kv.2) d.
Proof. cbn. by rewrite (foldr_and_forall (λ kv : string * json, distinct kv.2)). Qed.

Fixpoint distinct_b (j : json) : bool :=
  match j with
  | JArr l => forallb distinct_b l
  | JObj d => bool_decide (NoDup (map fst d)) && forallb (λ kv, distinct_b kv.2) d
  | _ => true
  end.
Lemma distinct_b_ok j : distinct_b j = true → distinct j.
Proof.
  induction j as [|b|z|t|s|l IH|d IH] using json_induction; try done.
  - rewrite distinct_arr. cbn. rewrite forallb_forall, !Forall_forall in *. intros H x Hx. apply IH; [done|]. by apply H, list_elem_of_In.
  - rewrite distinct_obj. cbn. intros [Hn H]%andb_true_iff. split; [by apply bool_decide_eq_true in Hn|]. rewrite forallb_forall, !Forall_forall in *.
    intros x Hx. apply IH; [done|]. by apply H, list_elem_of_In.
Qed.

(** ** Equality of documents *)

Section Equality.
Context (integral : string → option Z).
Notation eqb := (py_eqb integral).
Lemma py_eqb_refl j : regular j → eqb j j = true.
Proof.
  induction j as [|b|z|t|s|l IH|d IH] using json_induction; try done.
  - intros _. cbn. unfold number_eqb. apply Z.eqb_refl.
  - intros _. cbn. unfold number_eqb. apply Z.eqb_refl.
  - intros _. cbn. by apply bool_decide_eq_true.
  - rewrite regular_arr. intros H. apply py_eqb_list. induction IH as [|x l Hx _ IHl]; [constructor|]. apply Forall_cons in H as [H1 H2]. constructor; auto.
  - rewrite regular_obj. intros [Hn H]. cbn. rewrite bool_decide_true by done. cbn. apply forallb_forall. intros [k v] Hkv%list_elem_of_In.
    rewrite Forall_forall in *. cbn [fst snd]. rewrite (dict_get_elem k v d Hn Hkv). by apply (IH (k, v)); [|apply (H (k, v))].
Qed.
End Equality.
