(* ===== verification/Delta.v ===== *)
(** scripts/temporary_composition_delta.py, with [canonical] and [digest] of
    scripts/synthetic_restoration_packet.py: the reviewed configuration delta of the
    temporary composition, from a complete baseline and a fixed set of additions.

    A document of unknown shape is a [json]; one that a guard has shown to be an
    object with known fields is its list of members. *)
From S2P Require Import Prelude Json JsonParse JsonRoundTrip Oracle Evidence.

(** ** Texts *)

Definition value_error {A} : res A := Err (External "ValueError").
(** [canonical(value)]: [allow_nan=False] *)
Definition canonical_text (value : json) : res string := if all_finite value then Ok (dumps value) else value_error.
(** [canonical(a) == canonical(b)] *)
Definition same_text (a b : json) : res bool :=
  let? x := canonical_text a in let? y := canonical_text b in Ok (bool_decide (x = y)).

Definition MAX_CONFIGURATION_BYTES : Z := 4000000.
Definition CONFIG_KEYS : list string :=
  ["bindings"; "resources"; "runtime"; "assets"; "classLifecycle"; "secretReferences"; "attachment"; "routes"; "domains"; "effectiveEdge";
   "capabilities"].
Definition BASELINE_KEYS : list string :=
  ["schemaVersion"; "kind"; "target"; "retainedVersion"; "deploymentWeights"; "moduleSha256"; "configuration"; "productionState"].
Definition ADDITION_KEYS : list string := ["run"; "temporaryVersion"; "moduleSha256"; "bindings"; "resources"; "receiver"; "scope"].
Definition DELTA_KEYS : list string :=
  ["schemaVersion"; "kind"; "baselineSha256"; "temporarySha256"; "baseline"; "temporary"; "additions"; "restore"].

(** [[A-Za-z0-9_.:-]{1,128}] and [[a-f0-9]{n}] *)
Definition identity_char (c : ascii) : bool :=
  is_digit c || ((97 <=? code c) && (code c <=? 122)) || ((65 <=? code c) && (code c <=? 90)) || mem_char c "_.:-".
Definition _identity (value : json) : bool :=
  match value with JStr s => (1 <=? slen s) && (slen s <=? 128) && str_forall identity_char s | _ => false end.
Definition hex_text (n : Z) (value : json) : bool :=
  match value with JStr s => (slen s =? n) && str_forall is_hex s | _ => false end.
Definition _hash : json → bool := hex_text 64.

(** [value == s] of a text, and [a == b] of a value and a text *)
Definition is_text (value : json) (s : string) : bool := match value with JStr t => bool_decide (t = s) | _ => false end.
Definition same_value (a b : json) : bool := match b with JStr s => is_text a s | _ => false end.
(** [value.get(key)] and [value[key]] of a dict *)
Definition got (k : string) (d : list (string * json)) : json := default JNull (dict_get k d).
Definition at_key (k : string) (d : list (string * json)) : res json :=
  match dict_get k d with Some v => Ok v | None => Err (External "KeyError") end.

(** [_json(value, depth)] *)
Fixpoint configuration_json (depth : Z) (value : json) : res unit :=
  require (depth <=? 32) "configuration_depth" ;?
  match value with
  | JObj d =>
      (fix go (d : list (string * json)) : res unit :=
         match d with [] => Ok tt | kv :: d' => configuration_json (depth + 1) kv.2 ;? go d' end) d
  | JArr l =>
      (fix go (l : list json) : res unit := match l with [] => Ok tt | x :: l' => configuration_json (depth + 1) x ;? go l' end) l
  | JFloat _ => Err (Refusal "configuration_json_type")
  | _ => Ok tt
  end.
Definition _bounded (value : json) : res unit :=
  configuration_json 0 value ;?
  let? text := canonical_text value in
  require (slen text <=? MAX_CONFIGURATION_BYTES) "configuration_size".

(** ** Inventories *)

Definition few (value : json) (reason : string) : res (list json) :=
  match value with JArr l => require (Z.of_nat (length l) <=? 128) reason ;? Ok l | _ => Err (Refusal reason) end.

(** One turn of the loop of [_bindings]. *)
Definition read_binding (names : list string) (binding : json) : res (list string) :=
  match binding with
  | JObj d =>
      require (_identity (got "name" d) && _identity (got "type" d)) "binding_identity" ;?
      require (negb (str_in (text_of (got "name" d)) names)) "duplicate_binding" ;?
      require (negb (is_text (got "type" d) "secret_text")) "secret_value_not_supported" ;?
      Ok (names ++ [text_of (got "name" d)])
  | _ => Err (Refusal "binding_identity")
  end.
(** [_bindings(value)] *)
Definition _bindings (value : json) : res (list string) :=
  let? l := few value "binding_inventory" in foldR read_binding [] l.

Definition read_resource (owned_run : option string) (identities : list string) (resource : json) : res (list string) :=
  match resource with
  | JObj d =>
      require (_identity (got "kind" d) && _identity (got "identity" d)) "resource_identity" ;?
      match owned_run with
      | None => Ok tt
      | Some run =>
          let? d := closed (JObj d) ["kind"; "identity"; "run"] "owned_resource_fields" in
          require (is_text (field "run" d) run) "resource_owner"
      end ;?
      require (negb (str_in (text_of (got "identity" d)) identities)) "duplicate_resource" ;?
      Ok (identities ++ [text_of (got "identity" d)])
  | _ => Err (Refusal "resource_identity")
  end.
(** [_resources(value, owned_run=...)] *)
Definition _resources (value : json) (owned_run : option string) : res (list string) :=
  let? l := few value "resource_inventory" in foldR (read_resource owned_run) [] l.

(** [_reference_strings(value)] *)
Fixpoint _reference_strings (value : json) : list string :=
  match value with
  | JStr s => [s]
  | JObj d => (fix go (d : list (string * json)) : list string := match d with [] => [] | kv :: d' => _reference_strings kv.2 ++ go d' end) d
  | JArr l => (fix go (l : list json) : list string := match l with [] => [] | x :: l' => _reference_strings x ++ go l' end) l
  | _ => []
  end.
Definition binding_references (binding : json) : res (list string) :=
  match binding with
  | JObj d =>
      let? type := at_key "type" d in
      Ok (_reference_strings (JObj (List.filter (λ kv, negb (str_in kv.1 ["name"; "type"])
                                                      && negb (is_text type "plain_text" && bool_decide (kv.1 = "text"))) d)))
  | _ => Err (External "AttributeError")
  end.
Definition reserved_sections : list string := ["assets"; "classLifecycle"; "secretReferences"; "attachment"; "routes"; "domains"; "effectiveEdge"].
(** [_production_references(configuration)] *)
Definition _production_references (configuration : list (string * json)) : res (list string) :=
  let? resources := at_key "resources" configuration in
  let? references := _resources resources None in
  let? bindings := at_key "bindings" configuration in
  let? bound := mapR binding_references (match bindings with JArr l => l | _ => [] end) in
  let? sections := mapR (λ k, let? v := at_key k configuration in Ok (_reference_strings v)) reserved_sections in
  Ok (references ++ concat bound ++ concat sections).

(** ** The baseline *)

Definition is_object (value : json) : bool := match value with JObj _ => true | _ => false end.
Definition is_list (value : json) : bool := match value with JArr _ => true | _ => false end.
Definition section_types (config : list (string * json)) : bool :=
  forallb (λ k, is_object (field k config)) ["runtime"; "assets"; "classLifecycle"; "secretReferences"; "attachment"; "effectiveEdge"; "capabilities"]
  && forallb (λ k, is_list (field k config)) ["routes"; "domains"].
Definition retained_weights_only (baseline : list (string * json)) : bool :=
  match field "deploymentWeights" baseline with
  | JObj w => same_keys w [text_of (field "retainedVersion" baseline)]
              && match field (text_of (field "retainedVersion" baseline)) w with JInt n => n =? 100 | _ => false end
  | _ => false
  end.
(** [validate_baseline(baseline)]: its members and those of its configuration. *)
Definition validate_baseline (baseline : json) : res (list (string * json) * list (string * json)) :=
  _bounded baseline ;?
  let? b := closed baseline BASELINE_KEYS "baseline_fields" in
  require (match field "schemaVersion" b with JInt n => n =? 1 | _ => false end && is_text (field "kind" b) "temporary_composition_baseline")
    "baseline_schema" ;?
  let? target := closed (field "target" b) ["accountId"; "scriptName"] "target_fields" in
  require (forallb (λ kv, _identity kv.2) target) "target_identity" ;?
  require (_identity (field "retainedVersion" b)) "retained_version" ;?
  require (retained_weights_only b) "retained_weights" ;?
  require (_hash (field "moduleSha256" b)) "module_digest" ;?
  let? config := closed (field "configuration" b) CONFIG_KEYS "complete_configuration_required" in
  let? _ := _bindings (field "bindings" config) in
  let? _ := _resources (field "resources" config) None in
  require (section_types config) "configuration_section_type" ;?
  let? capabilities := closed (field "capabilities" config) ["intake"; "dispatch"; "thumbnail"] "capability_fields" in
  require (forallb (λ kv, match kv.2 with JBool false => true | _ => false end) capabilities) "production_not_paused" ;?
  require (match field "productionState" b with JObj (_ :: _) => true | _ => false end) "complete_production_state_required" ;?
  Ok (b, config).

(** ** The delta *)

Definition LAST_START : Z := 2 ^ 53 - 1200000.
Definition member (k : string) (value : json) : json := match value with JObj d => got k d | _ => JNull end.
Definition disjoint (a b : list string) : bool := forallb (λ x, negb (str_in x b)) a.
Definition extended (value : json) (more : list json) : json := match value with JArr l => JArr (l ++ more) | _ => value end.

(** [temporary]: the baseline at the temporary version with the additions appended. *)
Definition composed (b config : list (string * json)) (version module : json) (bindings resources : list json) : json :=
  JObj (dict_set "configuration"
          (JObj (dict_set "resources" (extended (field "resources" config) resources)
             (dict_set "bindings" (extended (field "bindings" config) bindings) config)))
    (dict_set "deploymentWeights" (JObj [(text_of version, JInt 100)])
      (dict_set "moduleSha256" module (dict_set "retainedVersion" version b)))).
Definition selection (version : json) : json :=
  JObj [("strategy", JStr "percentage"); ("force", JBool false);
        ("versions", JArr [JObj [("version_id", version); ("percentage", JInt 100)]])].

(** One pair of [zip(bindings[:3], resources, strict=True)]. *)
Definition check_pair (pair : json * json) : res unit :=
  let '(binding, resource) := pair in
  let key := if is_text (member "type" binding) "d1" then "database_id" else "service" in
  let? d := closed binding ["name"; "type"; key] "synthetic_binding_fields" in
  require (same_value (field key d) (member "identity" resource)) "binding_resource_mismatch".
Definition check_scope (run : string) (bindings : list json) (scope : json) : res unit :=
  let? s := closed scope ["run"; "startsAt"; "expiresAt"; "canary"; "bindingKeys"] "scope_fields" in
  require (is_text (field "run" s) run
           && match field "startsAt" s, field "expiresAt" s with
              | JInt a, JInt e => (0 <=? a) && (a <=? LAST_START) && (e =? a + 600000)
              | _, _ => false
              end && _hash (field "canary" s)) "scope_lifetime" ;?
  match field "bindingKeys" s with
  | JObj keys =>
      require (same_keys keys ["syntheticDb"; "quotaDb"; "receiver"; "capability"]
               && forallb (λ kb, same_value (field kb.1 keys) (member "name" kb.2))
                    (combine ["syntheticDb"; "quotaDb"; "receiver"; "capability"] bindings)) "scope_binding_keys"
  | _ => Err (Refusal "scope_binding_keys")
  end.
Definition check_receiver (b : list (string * json)) (run : string) (bindings resources : list json) (receiver : json) : res unit :=
  let binding n := nth n bindings JNull in
  let resource n := nth n resources JNull in
  let? r := closed receiver ["binding"; "identity"; "run"; "target"; "configuration"; "moduleSha256"] "receiver_fields" in
  require (same_value (field "binding" r) (member "name" (binding 2%nat)) && same_value (field "identity" r) (member "identity" (resource 2%nat))
           && is_text (field "run" r) run && _hash (field "moduleSha256" r)) "receiver_scope" ;?
  let? target := closed (field "target" r) ["accountId"; "scriptName"] "receiver_target_fields" in
  require (same_value (field "accountId" target) (member "accountId" (field "target" b))
           && same_value (field "scriptName" target) (member "identity" (resource 2%nat))) "receiver_target_scope" ;?
  let? bc := validate_baseline (JObj (dict_set "configuration" (field "configuration" r) b)) in
  let config := snd bc in
  let? same_bindings := same_text (field "bindings" config) (JArr [binding 1%nat; binding 3%nat]) in
  let? same_resources := same_text (field "resources" config) (JArr [resource 1%nat]) in
  require (same_bindings && same_resources) "receiver_isolation" ;?
  require (forallb (λ k, match field k config with JObj [] => true | _ => false end) ["assets"; "classLifecycle"; "secretReferences"; "attachment"; "effectiveEdge"]
           && forallb (λ k, match field k config with JArr [] => true | _ => false end) ["routes"; "domains"]) "receiver_relationship_not_supported".

Section Delta.
Context (sha256 : string → string).

(** [digest(value)] *)
Definition digest (value : json) : res string := let? text := canonical_text value in Ok (sha256 text).

(** [build_delta(baseline, additions)] *)
Definition build_delta (baseline additions : json) : res json :=
  let? bc := validate_baseline baseline in
  let (b, config) := bc in
  _bounded additions ;?
  let? a := closed additions ADDITION_KEYS "addition_fields" in
  require (hex_text 32 (field "run" a)) "run_identity" ;?
  let run := text_of (field "run" a) in
  require (_identity (field "temporaryVersion" a) && negb (same_value (field "temporaryVersion" a) (field "retainedVersion" b)))
    "temporary_version" ;?
  require (_hash (field "moduleSha256" a)) "module_digest" ;?
  let? names := _bindings (field "bindings" a) in
  require (bool_decide (length names = 4%nat)) "fixed_binding_inventory" ;?
  let? taken := _bindings (field "bindings" config) in
  require (disjoint names taken) "binding_collision" ;?
  let? identities := _resources (field "resources" a) (Some run) in
  let? resources := list_of (field "resources" a) "resource_inventory" in
  require (bool_decide (map (λ r, text_of (member "kind" r)) resources = ["d1"; "d1"; "worker"])) "fixed_resource_inventory" ;?
  let? reserved := _production_references config in
  require (disjoint identities reserved && negb (str_in (text_of (member "scriptName" (field "target" b))) identities))
    "production_resource_collision" ;?
  let? bindings := list_of (field "bindings" a) "binding_inventory" in
  require (bool_decide (map (λ b, text_of (member "type" b)) bindings = ["d1"; "d1"; "service"; "plain_text"])) "fixed_binding_types" ;?
  forR check_pair (combine bindings resources) ;?
  check_scope run bindings (field "scope" a) ;?
  let? capability := closed (nth 3 bindings JNull) ["name"; "type"; "text"] "capability_binding_fields" in
  require (hex_text 64 (field "text" capability)) "synthetic_capability" ;?
  check_receiver b run bindings resources (field "receiver" a) ;?
  let temporary := composed b config (field "temporaryVersion" a) (field "moduleSha256" a) bindings resources in
  let? baseline_digest := digest baseline in
  let? temporary_digest := digest temporary in
  Ok (JObj [("schemaVersion", JInt 1); ("kind", JStr "offline_temporary_composition_delta"); ("baselineSha256", JStr baseline_digest);
            ("temporarySha256", JStr temporary_digest); ("baseline", baseline); ("temporary", temporary); ("additions", additions);
            ("restore", selection (field "retainedVersion" b))]).

(** [validate_delta(delta)] *)
Definition validate_delta (delta : json) : res unit :=
  _bounded delta ;?
  let? d := closed delta DELTA_KEYS "delta_fields" in
  let? expected := build_delta (field "baseline" d) (field "additions" d) in
  let? same := same_text delta expected in
  require same "configuration_delta_mismatch".
End Delta.

(** ** Reading a private input *)

(** [pairs], and a nonfinite constant, which is a float. *)
Definition configuration_hooks : Hooks :=
  mkHooks (λ kvs, if bool_decide (NoDup (map fst kvs)) then Ok (JObj kvs) else Err (Refusal "duplicate_json_key")) (λ t, Ok (JFloat t)).
(** [load_json(path)] of a file's bytes, in UTF-8: Python reads a text with a NUL as
    UTF-16 or UTF-32. *)
Definition load_json (file : string) : res json :=
  let raw := String.substring 0 (Z.to_nat (MAX_CONFIGURATION_BYTES + 1)) file in
  require (slen raw <=? MAX_CONFIGURATION_BYTES) "configuration_size" ;?
  if mem_char (chr 0) raw then Err (External "text not in UTF-8") else
  let? text := utf8_decode raw in
  let? result := loads_with configuration_hooks text in
  _bounded result ;?
  require (match result with JObj _ => true | _ => false end) "configuration_object_required" ;? Ok result.
