(* ===== verification/DeltaFacts.v ===== *)
(** What an accepted delta is: the complete baseline with four bindings and three
    owned resources added, none of which meets a name, an identity or a reference of
    production. *)
From S2P Require Import Prelude Json JsonParse JsonRoundTrip Oracle Evidence Documents Delta.

(** ** Inventories *)

Lemma configuration_regular j : ∀ n, distinct j → configuration_json n j = Ok tt → regular j.
Proof.
  induction j as [|b|z|t|s|l IH|d IH] using json_induction; intros n Hd H; cbn [configuration_json] in H; inv_check; try done.
  - apply distinct_arr in Hd. apply regular_arr. revert IH Hd Hb. induction l as [|x l IHl]; intros IH Hd H; [constructor|].
    apply Forall_cons in IH as [Hx IH], Hd as [Dx Hd]. inv_check. constructor; [by eapply Hx|by apply IHl].
  - apply distinct_obj in Hd as [Hn Hd]. apply regular_obj. split; [done|]. clear Hn. revert IH Hd Hb. induction d as [|x d IHd]; intros IH Hd H; [constructor|].
    apply Forall_cons in IH as [Hx IH], Hd as [Dx Hd]. inv_check. constructor; [by eapply Hx|by apply IHd].
Qed.
Lemma bounded_regular j : distinct j → _bounded j = Ok tt → regular j.
Proof. intros Hd H. unfold _bounded in H. inv_check. by eapply configuration_regular. Qed.

Definition texts_of (k : string) (l : list json) : list string := map (λ x, text_of (member k x)) l.
(** Every item names itself by a text. *)
Definition texts_named (k : string) (l : list json) : Prop := Forall (λ x, ∃ d s, x = JObj d ∧ dict_get k d = Some (JStr s)) l.

Lemma identity_is_text k d : _identity (got k d) = true → ∃ s, dict_get k d = Some (JStr s).
Proof. unfold got. destruct (dict_get k d) as [[| | | |s| |]|]; try done. eauto. Qed.
Lemma member_text k d s : dict_get k d = Some (JStr s) → member k (JObj d) = JStr s.
Proof. cbn. unfold got. by intros ->. Qed.

(** A loop that takes a new text of every item collects distinct texts. *)
Section Inventory.
Context (k : string) (Q : list (string * json) → Prop) (f : list string → json → res (list string)).
Context (Hf : ∀ names x names', f names x = Ok names' → ∃ d s, x = JObj d ∧ dict_get k d = Some (JStr s) ∧ Q d ∧ s ∉ names ∧ names' = names ++ [s]).
Lemma inventory_ok l names names' :
  NoDup names → foldR f names l = Ok names' →
  names' = names ++ texts_of k l ∧ NoDup names' ∧ Forall (λ x, ∃ d s, x = JObj d ∧ dict_get k d = Some (JStr s) ∧ Q d) l.
Proof.
  revert names. induction l as [|x l IH]; intros names Hn H; cbn [foldR] in H; inv_check; [split_and!; [by rewrite app_nil_r|done|constructor]|].
  apply Hf in Ha as (d & s & -> & Hk & Hq & Hs & ->). apply IH in Hb as (-> & Hn' & Hl).
  - split; [|split; [done|constructor; eauto 7]]. unfold texts_of. cbn [map]. rewrite (member_text _ _ _ Hk). by rewrite <- app_assoc.
  - apply NoDup_app. split; [done|]. split; [set_solver|apply NoDup_singleton].
Qed.
End Inventory.

Lemma few_ok v reason l : few v reason = Ok l → v = JArr l.
Proof. unfold few. destruct v; try done. intros H. by inv_check. Qed.
Lemma str_in_false s l : str_in s l = false → s ∉ l.
Proof. unfold str_in. apply bool_decide_eq_false. Qed.
Lemma is_text_eq v s : is_text v s = true → v = JStr s.
Proof. destruct v; try done. cbn. by intros ->%bool_decide_eq_true. Qed.
Lemma read_binding_ok names x names' : read_binding names x = Ok names' →
  ∃ d s, x = JObj d ∧ dict_get "name" d = Some (JStr s) ∧ True ∧ s ∉ names ∧ names' = names ++ [s].
Proof.
  unfold read_binding. destruct x as [| | | | | |d]; try done. intros H. inv_check. inv_bool.
  match goal with H : _identity (got "name" d) = true |- _ => apply identity_is_text in H as [s Hs] end.
  exists d, s. unfold got in *. rewrite Hs in *. cbn in *. split_and!; try done. by apply str_in_false.
Qed.
Lemma read_resource_ok owner ids x ids' : read_resource owner ids x = Ok ids' →
  ∃ d s, x = JObj d ∧ dict_get "identity" d = Some (JStr s) ∧ (∀ run, owner = Some run → field "run" d = JStr run) ∧ s ∉ ids ∧ ids' = ids ++ [s].
Proof.
  unfold read_resource. destruct x as [| | | | | |d]; try done. intros H. apply rbind_ok in H as ([] & H & H'). apply require_ok in H.
  apply rbind_ok in H' as ([] & Ho & H'). inv_check. inv_bool.
  match goal with H : _identity (got "identity" d) = true |- _ => apply identity_is_text in H as [s Hs] end.
  exists d, s. unfold got in *. rewrite Hs in *. cbn [default text_of] in *. split_and!; try done; [|by apply str_in_false].
  intros run ->. apply rbind_ok in Ho as (d' & Hc & Ho). apply closed_ok in Hc as [[= <-] _]. apply require_ok in Ho. by apply is_text_eq.
Qed.
Lemma bindings_ok v names : _bindings v = Ok names → ∃ l, v = JArr l ∧ names = texts_of "name" l ∧ NoDup names.
Proof.
  unfold _bindings. intros H. apply rbind_ok in H as (l & ->%few_ok & H). exists l. split; [done|].
  apply (inventory_ok "name" (λ _, True)) in H as (-> & Hn & _); [done|apply read_binding_ok|constructor].
Qed.
Lemma resources_ok v owner ids : _resources v owner = Ok ids → ∃ l, v = JArr l ∧ ids = texts_of "identity" l ∧ NoDup ids
  ∧ Forall (λ x, ∃ d s, x = JObj d ∧ dict_get "identity" d = Some (JStr s) ∧ ∀ run, owner = Some run → field "run" d = JStr run) l.
Proof.
  unfold _resources. intros H. apply rbind_ok in H as (l & ->%few_ok & H). exists l. split; [done|].
  apply (inventory_ok "identity" (λ d, ∀ run, owner = Some run → field "run" d = JStr run)) in H as (-> & Hn & Hl); [done|apply read_resource_ok|constructor].
Qed.

(** A text that occurs anywhere in a value. *)
Inductive occurs (s : string) : json → Prop :=
| occurs_here : occurs s (JStr s)
| occurs_item l x : x ∈ l → occurs s x → occurs s (JArr l)
| occurs_value d k x : (k, x) ∈ d → occurs s x → occurs s (JObj d).
Lemma references_occur s j : occurs s j → s ∈ _reference_strings j.
Proof.
  induction 1 as [|l x Hx _ IH|d k x Hx _ IH]; cbn; [by left| |].
  - induction l as [|y l IHl]; [set_solver|]. apply elem_of_cons in Hx as [->|Hx]; apply elem_of_app; [by left|right; by apply IHl].
  - induction d as [|[k' y] d IHd]; [set_solver|]. apply elem_of_cons in Hx as [[= <- <-]|Hx]; apply elem_of_app; [by left|right; by apply IHd].
Qed.

(** What production already uses: its script, its resources, and every text under a
    reserved section or under a binding other than the binding's own name, type and
    plain text. *)
Inductive production_uses (script : json) (config : list (string * json)) (s : string) : Prop :=
| uses_script : script = JStr s → production_uses script config s
| uses_resource l x : field "resources" config = JArr l → x ∈ l → member "identity" x = JStr s → production_uses script config s
| uses_section k : k ∈ reserved_sections → occurs s (field k config) → production_uses script config s
| uses_binding l d k v : field "bindings" config = JArr l → JObj d ∈ l → (k, v) ∈ d → k ∉ ["name"; "type"] →
    ¬ (k = "text" ∧ got "type" d = JStr "plain_text") → occurs s v → production_uses script config s.

Lemma elem_of_concat {A} (x : A) ls : x ∈ concat ls ↔ ∃ l, x ∈ l ∧ l ∈ ls.
Proof. rewrite list_elem_of_In, in_concat. setoid_rewrite list_elem_of_In. naive_solver. Qed.
Lemma at_key_field k d v : at_key k d = Ok v → v = field k d ∧ v = got k d.
Proof. unfold at_key, field, got. destruct (dict_get k d); [|done]. by intros [= ->]. Qed.
Lemma references_used script config refs s :
  _production_references config = Ok refs → script ≠ JStr s → s ∉ refs → ¬ production_uses script config s.
Proof.
  unfold _production_references. intros H Hs Hn.
  apply rbind_ok in H as (rs & [-> _]%at_key_field & H). apply rbind_ok in H as (ids & (l & El & -> & _ & Hl)%resources_ok & H).
  apply rbind_ok in H as (bs & [-> _]%at_key_field & H). apply rbind_ok in H as (bound & Hb%mapR_forall2 & H).
  apply rbind_ok in H as (secs & Hk%mapR_forall2 & [= <-]). rewrite !elem_of_app in Hn.
  intros [E|l' x E Hx Hi|k Hin Ho|l' d k v E Hd Hkv Hkn Hp Ho]; [done|apply Hn; left|apply Hn; right; right|apply Hn; right; left].
  - rewrite El in E. injection E as <-. apply list_elem_of_fmap. exists x. by rewrite Hi.
  - apply elem_of_concat. exists (_reference_strings (field k config)). split; [by apply references_occur|].
    apply list_elem_of_lookup in Hin as [i Hi]. destruct (Forall2_lookup_l _ _ _ _ _ Hk Hi) as (y & Hy & Hv). apply rbind_ok in Hv as (w & [-> _]%at_key_field & [= <-]).
    by eapply list_elem_of_lookup_2.
  - rewrite E in Hb. apply list_elem_of_lookup in Hd as [i Hi]. destruct (Forall2_lookup_l _ _ _ _ _ Hb Hi) as (y & Hy & Hv).
    unfold binding_references in Hv. apply rbind_ok in Hv as (ty & [_ ->]%at_key_field & [= <-]).
    apply elem_of_concat. eexists. split; [|by eapply list_elem_of_lookup_2].
    match goal with |- context [List.filter ?f d] => apply (references_occur s (JObj (List.filter f d))) end. apply (occurs_value _ _ k v); [|done]. apply list_elem_of_In, filter_In. split; [by apply list_elem_of_In|]. cbn [fst].
    apply andb_true_iff. split; apply negb_true_iff; [by apply bool_decide_eq_false|].
    apply not_true_iff_false. intros [Ht Hx]%andb_true_iff. apply Hp. split; [by apply bool_decide_eq_true in Hx|by apply is_text_eq].
Qed.

(** ** The delta *)

Lemma disjoint_ok a b : disjoint a b = true → ∀ s, s ∈ a → s ∉ b.
Proof. unfold disjoint. intros H s Hs. apply str_in_false. apply list_elem_of_In in Hs. rewrite forallb_forall in H. by apply negb_true_iff, H. Qed.
Lemma baseline_ok baseline b config : validate_baseline baseline = Ok (b, config) →
  baseline = JObj b ∧ _bounded baseline = Ok tt ∧ same_keys b BASELINE_KEYS = true ∧ field "configuration" b = JObj config ∧ same_keys config CONFIG_KEYS = true
  ∧ (∃ l, field "bindings" config = JArr l) ∧ (∃ l, field "resources" config = JArr l)
  ∧ (∃ capabilities, field "capabilities" config = JObj capabilities ∧ same_keys capabilities ["intake"; "dispatch"; "thumbnail"] = true
       ∧ Forall (λ kv, kv.2 = JBool false) capabilities).
Proof.
  unfold validate_baseline. intros H. inv_check.
  repeat match goal with H : closed _ _ _ = Ok _ |- _ => apply closed_ok in H as [? ?] end. subst.
  match goal with H : _bindings _ = Ok _ |- _ => apply bindings_ok in H as (? & ? & _) end.
  match goal with H : _resources _ _ = Ok _ |- _ => apply resources_ok in H as (? & ? & _) end.
  split_and!; eauto. eexists. split_and!; eauto. apply Forall_forall. intros [k v] Hkv%list_elem_of_In.
  match goal with H : forallb _ ?c = true |- _ => rewrite forallb_forall in H; specialize (H _ Hkv); cbn in H end. by destruct v as [|[]| | | | |].
Qed.

(** What the reviewed additions are over a baseline and its configuration. *)
Record proper_additions (b config a : list (string * json)) (bindings resources : list json) : Prop := {
  pa_bindings : field "bindings" a = JArr bindings;
  pa_resources : field "resources" a = JArr resources;
  pa_types : map (λ x, text_of (member "type" x)) bindings = ["d1"; "d1"; "service"; "plain_text"];
  pa_kinds : map (λ x, text_of (member "kind" x)) resources = ["d1"; "d1"; "worker"];
  pa_names : NoDup (texts_of "name" bindings);
  pa_apart : ∃ l, field "bindings" config = JArr l ∧ ∀ s, s ∈ texts_of "name" bindings → s ∉ texts_of "name" l;
  pa_texts : Forall (λ x, ∃ s, member "identity" x = JStr s) resources;
  pa_identities : NoDup (texts_of "identity" resources);
  pa_owned : Forall (λ x, member "run" x = field "run" a) resources;
  pa_fresh : ∀ x s, x ∈ resources → member "identity" x = JStr s → ¬ production_uses (member "scriptName" (field "target" b)) config s;
  pa_receiver : ∃ d, field "receiver" a = JObj d;
  pa_version : field "temporaryVersion" a ≠ field "retainedVersion" b }.

Section Delta.
Context (sha256 : string → string).

Lemma build_delta_ok baseline additions expected : build_delta sha256 baseline additions = Ok expected →
  ∃ b config a bindings resources h1 h2,
    validate_baseline baseline = Ok (b, config) ∧ additions = JObj a ∧ _bounded additions = Ok tt ∧ proper_additions b config a bindings resources
    ∧ expected = JObj [("schemaVersion", JInt 1); ("kind", JStr "offline_temporary_composition_delta"); ("baselineSha256", JStr h1);
            ("temporarySha256", JStr h2); ("baseline", baseline);
            ("temporary", composed b config (field "temporaryVersion" a) (field "moduleSha256" a) bindings resources); ("additions", additions);
            ("restore", selection (field "retainedVersion" b))].
Proof.
  unfold build_delta. intros H. apply rbind_ok in H as ([b config] & Hbase & H).
  apply rbind_ok in H as ([] & Hbound & H). apply rbind_ok in H as (a & [-> Hak]%closed_ok & H).
  apply rbind_ok in H as ([] & Hrun%require_ok & H). apply rbind_ok in H as ([] & Hver%require_ok & H). apply rbind_ok in H as ([] & _ & H).
  apply rbind_ok in H as (names & (bs & Eb & -> & Hnames)%bindings_ok & H). apply rbind_ok in H as ([] & Hlen & H).
  apply rbind_ok in H as (taken & (pb & Epb & -> & _)%bindings_ok & H). apply rbind_ok in H as ([] & Hdis%require_ok & H).
  apply rbind_ok in H as (ids & (rs & Er & -> & Hids & Hown)%resources_ok & H).
  apply rbind_ok in H as (rs' & Hrs%list_of_ok & H). rewrite Er in Hrs. injection Hrs as <-.
  apply rbind_ok in H as ([] & Hkinds%require_ok & H). apply rbind_ok in H as (refs & Hrefs & H).
  apply rbind_ok in H as ([] & Hcol%require_ok & H). apply rbind_ok in H as (bs' & Hbs%list_of_ok & H). rewrite Eb in Hbs. injection Hbs as <-.
  apply rbind_ok in H as ([] & Htypes%require_ok & H). apply rbind_ok in H as ([] & _ & H). apply rbind_ok in H as ([] & _ & H).
  apply rbind_ok in H as (capability & _ & H). apply rbind_ok in H as ([] & _ & H). apply rbind_ok in H as ([] & Hrec & H).
  apply rbind_ok in H as (h1 & _ & H). apply rbind_ok in H as (h2 & _ & [= <-]).
  exists b, config, a, bs, rs, h1, h2. split_and!; try done. inv_bool.
  assert (Hrun' : ∃ r, field "run" a = JStr r) by (clear -Hrun; unfold hex_text in Hrun; destruct (field "run" a); try done; eauto). destruct Hrun' as [r Hr].
  constructor; try done.
  - exists pb. split; [done|]. by apply disjoint_ok.
  - eapply Forall_impl; [exact Hown|]. intros x (d & s & -> & Hs & _). exists s. by apply member_text.
  - eapply Forall_impl; [exact Hown|]. intros x (d & s & -> & _ & Hd). rewrite Hr in *. cbn [member]. specialize (Hd _ eq_refl). unfold got, field in *.
    by destruct (dict_get "run" d).
  - intros x s Hx Hs. eapply references_used; [exact Hrefs| |].
    + intros E. rewrite E in *. match goal with H : str_in (text_of _) _ = false |- _ => apply str_in_false in H; apply H end. cbn. apply list_elem_of_fmap.
      exists x. by rewrite Hs.
    + eapply disjoint_ok; [done|]. apply list_elem_of_fmap. exists x. by rewrite Hs.
  - unfold check_receiver in Hrec. apply rbind_ok in Hrec as (d & [Hd _]%closed_ok & _). by exists d.
  - intros E. rewrite E in *. match goal with H : same_value _ _ = false |- _ => apply not_true_iff_false in H; apply H end.
    match goal with H : _identity ?x = true |- _ => destruct x; try done end. cbn. by apply bool_decide_eq_true.
Qed.

Lemma composed_regular b config v m bs rs :
  regular (JObj b) → regular (JObj config) → regular v → regular m → Forall regular bs → Forall regular rs → regular (composed b config v m bs rs).
Proof.
  intros Hb Hc Hv Hm Hbs Hrs. unfold composed, extended.
  assert (Hext : ∀ k l, Forall regular l → regular (match field k config with JArr l0 => JArr (l0 ++ l) | _ => field k config end)).
  { intros k l Hl. pose proof (regular_field k config Hc) as Hk. destruct (field k config); try done. apply regular_arr. apply regular_arr in Hk. by apply Forall_app. }
  repeat apply regular_set; try done; auto. apply regular_obj. split; [apply NoDup_singleton|]. repeat constructor.
Qed.

Local Ltac ground := by apply (bool_decide_unpack (NoDup _)); vm_compute.
Lemma selection_regular v : regular v → regular (selection v).
Proof. intros Hv. unfold selection. cbn. split_and!; try done; ground. Qed.
Lemma got_field k d : got k d = field k d.
Proof. unfold got, field. by destruct (dict_get k d). Qed.
Lemma same_text_ok x y : regular x → regular y → same_text x y = Ok true → canon x = canon y.
Proof.
  unfold same_text, canonical_text. intros Hx Hy. rewrite !regular_finite by done. cbn -[dumps]. intros [= E%bool_decide_eq_true].
  by apply text_canon.
Qed.

Lemma delta_parts delta : validate_delta sha256 delta = Ok tt →
  ∃ d b config a bindings resources h1 h2,
    delta = JObj d ∧ _bounded delta = Ok tt ∧ validate_baseline (field "baseline" d) = Ok (b, config) ∧ field "additions" d = JObj a
    ∧ proper_additions b config a bindings resources
    ∧ same_text delta (JObj [("schemaVersion", JInt 1); ("kind", JStr "offline_temporary_composition_delta"); ("baselineSha256", JStr h1);
            ("temporarySha256", JStr h2); ("baseline", field "baseline" d);
            ("temporary", composed b config (field "temporaryVersion" a) (field "moduleSha256" a) bindings resources); ("additions", field "additions" d);
            ("restore", selection (field "retainedVersion" b))]) = Ok true.
Proof.
  unfold validate_delta. intros H. apply rbind_ok in H as ([] & Hbound & H).
  apply rbind_ok in H as (d & [-> Hdk]%closed_ok & H). apply rbind_ok in H as (expected & Hbuild & H). apply rbind_ok in H as (same & Hsame & ->%require_ok).
  apply build_delta_ok in Hbuild as (b & config & a & bs & rs & h1 & h2 & Hbase & Ea & Hba & Hproper & ->). by exists d, b, config, a, bs, rs, h1, h2.
Qed.

(** The document that [build_delta] gives for the parts of a delta. *)
Definition built (d b config a : list (string * json)) (bindings resources : list json) (h1 h2 : string) : list (string * json) :=
  [("schemaVersion", JInt 1); ("kind", JStr "offline_temporary_composition_delta"); ("baselineSha256", JStr h1); ("temporarySha256", JStr h2);
   ("baseline", field "baseline" d); ("temporary", composed b config (field "temporaryVersion" a) (field "moduleSha256" a) bindings resources);
   ("additions", field "additions" d); ("restore", selection (field "retainedVersion" b))].
Lemma delta_canon delta : distinct delta → validate_delta sha256 delta = Ok tt →
  ∃ d b config a bindings resources h1 h2,
    delta = JObj d ∧ regular delta ∧ validate_baseline (field "baseline" d) = Ok (b, config) ∧ field "additions" d = JObj a
    ∧ proper_additions b config a bindings resources
    ∧ regular (composed b config (field "temporaryVersion" a) (field "moduleSha256" a) bindings resources)
    ∧ ∀ k, canon (field k d) = canon (field k (built d b config a bindings resources h1 h2)).
Proof.
  intros Hdis (d & b & config & a & bs & rs & h1 & h2 & -> & Hbound & Hbase & Ea & Hproper & Hsame)%delta_parts.
  pose proof (bounded_regular _ Hdis Hbound) as Hreg.
  pose proof Hbase as Hvalid. apply baseline_ok in Hbase as (Eb & Hbb & Hbk & Ec & Hck & (pb & Epb) & (pr & Epr) & caps & Ecap & Hcapk & Hcaps).
  assert (Rb : regular (JObj b)) by (rewrite <- Eb; by apply regular_field).
  assert (Ra : regular (JObj a)) by (rewrite <- Ea; by apply regular_field).
  assert (Rc : regular (JObj config)) by (rewrite <- Ec; by apply regular_field).
  assert (Rbs : Forall regular bs) by (apply regular_arr; rewrite <- (pa_bindings _ _ _ _ _ Hproper); by apply regular_field).
  assert (Rrs : Forall regular rs) by (apply regular_arr; rewrite <- (pa_resources _ _ _ _ _ Hproper); by apply regular_field).
  set (temporary := composed b config (field "temporaryVersion" a) (field "moduleSha256" a) bs rs) in *.
  assert (Rt : regular temporary) by (apply composed_regular; try done; by apply regular_field).
  match type of Hsame with same_text _ ?e = _ => assert (Re : regular e) end.
  { apply regular_obj. cbn [map fst]. split; [ground|].
    repeat (apply Forall_cons; split; cbn [snd]); first [exact I|by apply regular_field|done|by apply selection_regular, regular_field|by apply Forall_nil]. }
  apply same_text_ok in Hsame; [|done..].
  exists d, b, config, a, bs, rs, h1, h2. split_and!; try done. intros k. by apply canon_field.
Qed.

(** C23: An accepted delta, as a document, is the complete baseline with four new bindings
    and three owned resources: nothing else of the baseline changes but the deployed
    version and module, no new name or identity meets one that production uses, its
    capabilities stay off, and what it restores is the retained version at 100%. *)
Theorem delta_sound delta : distinct delta → validate_delta sha256 delta = Ok tt →
  ∃ b config a bindings resources temporary,
    canon (member "baseline" delta) = canon (JObj b) ∧ field "configuration" b = JObj config ∧ canon (member "additions" delta) = canon (JObj a)
    ∧ canon (member "temporary" delta) = canon (JObj temporary) ∧ proper_additions b config a bindings resources
    ∧ (∀ k, k ∉ ["configuration"; "deploymentWeights"; "moduleSha256"; "retainedVersion"] → dict_get k temporary = dict_get k b)
    ∧ (∃ extended, dict_get "configuration" temporary = Some (JObj extended)
         ∧ (∀ k, k ∉ ["bindings"; "resources"] → dict_get k extended = dict_get k config)
         ∧ (∃ l, field "bindings" config = JArr l ∧ dict_get "bindings" extended = Some (JArr (l ++ bindings)))
         ∧ (∃ l, field "resources" config = JArr l ∧ dict_get "resources" extended = Some (JArr (l ++ resources)))
         ∧ (∀ k, k ∈ ["intake"; "dispatch"; "thumbnail"] → member k (member "capabilities" (JObj extended)) = JBool false))
    ∧ canon (member "restore" delta) = canon (selection (field "retainedVersion" b)).
Proof.
  intros Hdis (d & b & config & a & bs & rs & h1 & h2 & -> & Hreg & Hbase & Ea & Hproper & Rt & Hf)%delta_canon; [|done].
  apply baseline_ok in Hbase as (Eb & Hbb & Hbk & Ec & Hck & (pb & Epb) & (pr & Epr) & caps & Ecap & Hcapk & Hcaps).
  exists b, config, a, bs, rs.
  exists (match composed b config (field "temporaryVersion" a) (field "moduleSha256" a) bs rs with JObj t => t | _ => [] end). cbn [member]. rewrite !got_field.
  split; [by rewrite Eb|]. split; [done|]. split; [change (canon (field "additions" d) = canon (JObj a)); by rewrite Ea|]. split; [apply (Hf "temporary")|]. split; [done|].
  split; [|split; [|apply (Hf "restore")]].
  - intros k Hk. cbn. rewrite !dict_get_set_other by set_solver. done.
  - eexists. cbn. split; [apply dict_get_set_same|]. split; [|split; [|split]].
    + intros k Hk. by rewrite !dict_get_set_other by set_solver.
    + exists pb. split; [done|]. rewrite dict_get_set_other, dict_get_set_same by done. by rewrite Epb.
    + exists pr. split; [done|]. rewrite dict_get_set_same. by rewrite Epr.
    + intros k Hk. rewrite got_field. unfold field. rewrite !dict_get_set_other by done. fold (field "capabilities" config). rewrite Ecap. cbn [member].
      destruct (same_keys_get _ _ _ Hcapk Hk) as [v Hv]. unfold got. rewrite Hv. cbn. rewrite Forall_forall in Hcaps. by apply (Hcaps (k, v)), dict_get_in.
Qed.
End Delta.
