(* ===== verification/OfflineJournal.v ===== *)
(** The SQLite connection of the offline rehearsals' journals: statements in an
    implicit or explicit transaction, a commit that may fail, and the exclusive
    ownership marker beside the file. *)
From S2P Require Import Prelude Json JsonParse.

(** One commit: it works, raises before anything is durable and leaves its
    transaction open, or raises after it is durable. *)
Inductive commit_io := Durable | Stays | LostCommit.

(** What is durable in the file, the transaction that is open on the connection, and
    the commits so far. *)
Record Conn (D : Type) := mkConn { cn_durable : D; cn_open : option D; cn_commits : nat }.
Arguments mkConn {D}. Arguments cn_durable {D}. Arguments cn_open {D}. Arguments cn_commits {D}.

Section Connection.
Context {D : Type} (fate : nat → commit_io).

(** What a statement of the connection sees. *)
Definition visible (c : Conn D) : D := default (cn_durable c) (cn_open c).
(** [SELECT ...] *)
Definition select {A} (f : D → A) : M (Conn D) A := gets (λ c, f (visible c)).
(** [BEGIN IMMEDIATE] *)
Definition begin_immediate : M (Conn D) unit := λ c,
  match cn_open c with
  | Some _ => (Err (External "OperationalError"), c)
  | None => (Ok tt, mkConn (cn_durable c) (Some (cn_durable c)) (cn_commits c))
  end.
(** A statement that writes opens a transaction; one that fails writes nothing. *)
Definition write {A} (m : M D A) : M (Conn D) A := λ c,
  match m (visible c) with
  | (Ok x, d) => (Ok x, mkConn (cn_durable c) (Some d) (cn_commits c))
  | (Err e, _) => (Err e, mkConn (cn_durable c) (Some (visible c)) (cn_commits c))
  end.
Definition commit : M (Conn D) unit := λ c,
  match fate (cn_commits c) with
  | Durable => (Ok tt, mkConn (visible c) None (S (cn_commits c)))
  | Stays => (Err (External "OperationalError"), mkConn (cn_durable c) (cn_open c) (S (cn_commits c)))
  | LostCommit => (Err (External "OperationalError"), mkConn (visible c) None (S (cn_commits c)))
  end.
Definition rollback : M (Conn D) unit := λ c, (Ok tt, mkConn (cn_durable c) None (cn_commits c)).
(** [connection.close()], and the end of the process *)
Definition close_connection : Conn D → Conn D := λ c, mkConn (cn_durable c) None (cn_commits c).

(** Whatever a connection does, what is durable is what a commit made so. *)
Lemma commit_cases c r c' : commit c = (r, c') →
  (r = Ok tt ∧ cn_durable c' = visible c ∧ cn_open c' = None)
  ∨ (∃ e, r = Err e) ∧ ((cn_durable c' = cn_durable c ∧ cn_open c' = cn_open c) ∨ (cn_durable c' = visible c ∧ cn_open c' = None)).
Proof. unfold commit. destruct (fate (cn_commits c)); intros [= <- <-]; naive_solver. Qed.
End Connection.

Definition integrity_error {D A} : M D A := raise (External "IntegrityError").
