(* ===== verification/Restoration.v ===== *)
(** scripts/synthetic_restoration_packet.py: the finite restoration packet of two
    synthetic cases, the classification of what a restore did, the journal that
    latches every operation, and the rehearsal over a built-in memory model.

    Of the cases only the names in them vary: they are records here, and documents in
    the packet. *)
From S2P Require Import Prelude Json JsonParse JsonRoundTrip Oracle Evidence Delta OfflineJournal.

Definition CAPTURE_INDEX_SHA256 : string := "ea43ba41d7bb5c6ae7fae569f77a8d126cfcfb7a0a550e5f92856c771b9f8202".
Definition CAPTURED_BINDING_TYPES : list (string * Z) :=
  [("assets", 1); ("d1", 1); ("durable_object_namespace", 1); ("plain_text", 14); ("secrets_store_secret", 9)].
Definition CAPTURED_BINDINGS_SHA256 : string := "8d41009f984b5292e2e5ae6a89cdd2529d01b7aac5a7e8f8e0ad1d7e375ed097".
Definition SUPPORTED_SECRET_TYPES : list string := ["secrets_store_secret"].
Definition WORK_MS : Z := 600000.
Definition OUTER_MS : Z := 1200000.
Definition SNAPSHOT_KEYS : list string :=
  ["activeVersion"; "weights"; "moduleDigest"; "bindings"; "resources"; "configuration"; "data"; "gates"; "secretMatchesBaseline"].

(** ** The packet *)

Record Case := mkCase {
  cs_id : string;
  cs_case : string;
  cs_secret_type : string;
  cs_resources : list (string * string);
  cs_baseline : string;
  cs_temporary : string;
  cs_operations : list string;
}.
(** The turn of both loops of [build_packet] for one secret type and one case. *)
Definition build_case (run secret_type case : string) : Case :=
  let small := lower case in
  let prefix := "fga-rst-" +:+ run +:+ "-" +:+ small in
  let resources :=
    [("worker", prefix); ("d1", prefix +:+ "-db"); ("durableObjectNamespace", prefix +:+ "-do"); ("assets", prefix +:+ "-assets");
     ("secret", prefix +:+ "-secret")]
    ++ (if bool_decide (secret_type = "secrets_store_secret") then [("store", prefix +:+ "-store")] else []) in
  let operations :=
    map (λ kv, "check_absent_" +:+ kv.1) resources ++ map (λ kv, "create_" +:+ kv.1) resources
    ++ ["seed_paused_fixture"; "upload_baseline"; "deploy_baseline"; "snapshot_baseline"; "upload_temporary"; "deploy_temporary"; "snapshot_temporary"]
    ++ (if bool_decide (case = "B") then ["change_synthetic_secret"; "snapshot_changed"] else [])
    ++ ["restore_retained"; "snapshot_restored"]
    ++ ["delete_worker"; "delete_assets"; "delete_durableObjectNamespace"; "delete_d1"; "delete_secret"]
    ++ (if str_in "store" (map fst resources) then ["delete_store"] else []) in
  mkCase (secret_type +:+ "-" +:+ small) case secret_type resources (prefix +:+ "-retained") (prefix +:+ "-temporary") operations.
Definition build_cases (run : string) : list Case :=
  concat (map (λ t, map (build_case run t) ["A"; "B"]) SUPPORTED_SECRET_TYPES).

Definition texts_json (d : list (string * string)) : json := JObj (map (λ kv, (kv.1, JStr kv.2)) d).
Definition case_json (c : Case) : json :=
  JObj [("id", JStr (cs_id c)); ("case", JStr (cs_case c)); ("secretType", JStr (cs_secret_type c)); ("resources", texts_json (cs_resources c));
        ("baselineVersion", JStr (cs_baseline c)); ("temporaryVersion", JStr (cs_temporary c)); ("restore", selection (JStr (cs_baseline c)));
        ("operations", JArr (map JStr (cs_operations c))); ("operationCap", JInt (Z.of_nat (length (cs_operations c)) + 2));
        ("readOnlyReconciliationCap", JInt 2); ("syntheticInvocationsCap", JInt 4)].
Definition unqualified (names : list string) : list (string * json) := map (λ k, (k, JBool false)) names.
Definition packet_json (run : string) (start_ms : Z) : json :=
  JObj ([("schemaVersion", JInt 1); ("kind", JStr "offline_synthetic_restoration_packet"); ("run", JStr run); ("owner", JStr "bot");
         ("startMs", JInt start_ms); ("workExpiresMs", JInt (start_ms + WORK_MS)); ("outerExpiresMs", JInt (start_ms + OUTER_MS));
         ("captureIndexSha256", JStr CAPTURE_INDEX_SHA256);
         ("capturedBindingTypes", JObj (map (λ kn, (kn.1, JInt kn.2)) CAPTURED_BINDING_TYPES));
         ("capturedBindingsSourceSha256", JStr CAPTURED_BINDINGS_SHA256); ("secretTypes", JArr (map JStr SUPPORTED_SECRET_TYPES));
         ("cases", JArr (map case_json (build_cases run)))]
        ++ unqualified ["providerRestorationVerified"; "changedSecretSemanticsVerified"; "productionStateVerified"; "deploymentAllowed"]).
(** [build_packet(run, start_ms, owner)] *)
Definition build_packet (run start_ms owner : json) : res (string * Z) :=
  require (hex_text 32 run) "run_identity" ;?
  match start_ms with
  | JInt s => require ((0 <=? s) && (s <=? 2 ^ 53 - OUTER_MS)) "start_time" ;? require (is_text owner "bot") "owner" ;? Ok (text_of run, s)
  | _ => Err (Refusal "start_time")
  end.

(** [except (KeyError, TypeError, OverflowError): raise ValueError(label)] *)
Definition shape_error {A} (label : string) (r : res A) : res A :=
  match r with
  | Err (External l) => if str_in l ["KeyError"; "TypeError"; "OverflowError"] then Err (Refusal label) else r
  | _ => r
  end.
(** [plan[k]] of a value of unknown type *)
Definition item_of (k : string) (value : json) : res json := match value with JObj d => at_key k d | _ => Err (External "TypeError") end.
(** [validate_packet(packet)]: its run and its start. *)
Definition validate_packet (packet : json) : res (string * Z) :=
  shape_error "packet_shape" (
    let? run := item_of "run" packet in
    let? start := item_of "startMs" packet in
    let? owner := item_of "owner" packet in
    let? built := build_packet run start owner in
    let? same := same_text packet (packet_json (fst built) (snd built)) in
    require same "packet_mismatch" ;? Ok built).

(** ** Snapshots *)

Section Texts.
Context (sha256 : string → string).

Definition text_digest (value : json) : string := sha256 (dumps value).
(** [baseline_snapshot(case)] *)
Definition baseline_snapshot (c : Case) : json :=
  JObj [("activeVersion", JStr (cs_baseline c)); ("weights", JObj [(cs_baseline c, JInt 100)]);
        ("moduleDigest", JStr (text_digest (JObj [("module", JStr "synthetic_baseline_v1")])));
        ("bindings", JObj (dict_of (("type", JStr (cs_secret_type c)) :: map (λ kv, (kv.1, JStr kv.2)) (cs_resources c))));
        ("resources", texts_json (cs_resources c));
        ("configuration", JObj [("compatibilityDate", JStr "2026-10-16"); ("intake", JBool false); ("dispatch", JBool false); ("routes", JArr []);
                                ("customDomains", JArr []); ("outbound", JBool false); ("scheduled", JBool false)]);
        ("data", JObj [("schema", JStr "synthetic_v1");
                       ("rows", JArr [JArr [JStr "permanent_suppression"; JInt 1]; JArr [JStr "credential_generation"; JInt 1];
                                      JArr [JStr "admission"; JInt 0]; JArr [JStr "intent"; JInt 0]; JArr [JStr "dispatch"; JInt 0]])]);
        ("gates", JObj [("deployment", JObj [("enabled", JBool false); ("revision", JInt 7)]);
                        ("user", JObj [("enabled", JBool false); ("revision", JInt 11)])]);
        ("secretMatchesBaseline", JBool true)].

Definition is_bool (value : json) : bool := match value with JBool _ => true | _ => false end.
Definition is_int (value : json) : bool := match value with JInt _ => true | _ => false end.
Definition gate_ok (gate : json) : bool :=
  match gate with
  | JObj g => same_keys g ["enabled"; "revision"] && is_bool (field "enabled" g) && is_int (field "revision" g)
  | _ => false
  end.
(** [_validate_snapshot(snapshot)]: its members. *)
Definition _validate_snapshot (snapshot : json) : res (list (string * json)) :=
  let? s := closed snapshot SNAPSHOT_KEYS "snapshot_shape" in
  require (is_bool (field "secretMatchesBaseline" s)) "snapshot_marker" ;?
  require (hex_text 64 (field "moduleDigest" s)) "snapshot_digest" ;?
  require (match field "weights" s with JObj w => forallb (λ kv, is_int kv.2) w | _ => false end) "snapshot_weights" ;?
  let? gates := closed (field "gates" s) ["deployment"; "user"] "snapshot_gates" in
  require (forallb (λ kv, gate_ok kv.2) gates) "snapshot_gates" ;?
  let? _ := canonical_text snapshot in Ok s.

Definition paused (gate : json) : bool := match gate with JObj g => match field "enabled" g with JBool false => true | _ => false end | _ => false end.
(** [classify(case, before, after, outcome, pre_restore=...)] *)
Definition classify (case : string) (before after : json) (outcome : string) (pre_restore : option json) : res string :=
  require (str_in case ["A"; "B"] && str_in outcome ["accepted"; "refused"; "unknown"]) "classification_input" ;?
  let? b := _validate_snapshot before in
  let? _ := _validate_snapshot after in
  require (match field "gates" b with JObj g => forallb (λ kv, paused kv.2) g | _ => false end) "baseline_not_paused" ;?
  require (match field "secretMatchesBaseline" b with JBool true => true | _ => false end) "baseline_marker" ;?
  if bool_decide (outcome = "unknown") then Ok "unknown_cleanup_unconfirmed" else
  let? same := same_text before after in
  if bool_decide (case = "A") then Ok (if bool_decide (outcome = "accepted") && same then "preserved" else "drift") else
  let? pre := match pre_restore with Some p => Ok p | None => Err (Refusal "changed_snapshot_required") end in
  let? p := _validate_snapshot pre in
  require (match field "secretMatchesBaseline" p with JBool false => true | _ => false end) "secret_change_not_measured" ;?
  if bool_decide (outcome = "refused") then
    let? unchanged := same_text after pre in Ok (if unchanged then "refusal_accounted" else "refusal_with_drift")
  else if same then Ok "accepted_baseline_observed" else
  let? changed := same_text (JObj (dict_set "secretMatchesBaseline" (JBool false) b)) after in
  Ok (if changed then "accepted_changed_value_drift" else "accepted_configuration_or_data_drift").
End Texts.

(** ** The journal *)

(** A row of [attempts]. *)
Record Attempt := mkAttempt { at_case : string; at_operation : string; at_acknowledged : bool }.
(** The tables: the digest of the packet and the attempts in rowid order. *)
Record RDb := mkRDb { rd_packet : option string; rd_attempts : list Attempt }.
Definition empty_rdb : RDb := mkRDb None [].
(** [operation LIKE 'reconcile_%']: in LIKE the underscore is any character, and the
    operations of a packet agree with the prefix. *)
Definition reconciles (operation : string) : bool := startswith "reconcile_" operation.

Section Journal.
Context (fate : nat → commit_io) (packet_digest : string) (start_ms : Z) (cases : list Case).
Notation R := (M (Conn RDb)).

Definition case_of (case_id : string) : option Case := List.find (λ c, bool_decide (cs_id c = case_id)) cases.
Definition rows_of_case (case_id : string) (d : RDb) : list Attempt := List.filter (λ a, bool_decide (at_case a = case_id)) (rd_attempts d).
(** [PRIMARY KEY(case_id, operation)] *)
Definition insert_attempt (case_id operation : string) (acknowledged : bool) : M RDb unit := λ d,
  if existsb (λ a, bool_decide (at_case a = case_id) && bool_decide (at_operation a = operation)) (rd_attempts d)
  then integrity_error d
  else (Ok tt, mkRDb (rd_packet d) (rd_attempts d ++ [mkAttempt case_id operation acknowledged])).

(** What [__init__] does once the marker is its own. *)
Definition open_tables : R unit :=
  let* stored := select rd_packet in
  lift (require (match stored with Some p => bool_decide (p = packet_digest) | None => true end) "journal_packet_mismatch") ;*
  write (modify (λ d, mkRDb (Some packet_digest) (rd_attempts d))) ;*
  commit fate.

(** The body of the [try] of [latch]. *)
Definition latch_body (c : Case) (operation : string) : R unit :=
  begin_immediate ;*
  let* unacknowledged := select (λ d, existsb (λ a, negb (at_acknowledged a)) (rd_attempts d)) in
  lift (require (negb unacknowledged) "unacknowledged_operation") ;*
  let* previous := select (λ d, List.filter (λ a, negb (reconciles (at_operation a))) (rows_of_case (cs_id c) d)) in
  lift (require (bool_decide (map (λ a, (at_operation a, at_acknowledged a)) previous
                              = map (λ o, (o, true)) (take (length previous) (cs_operations c)))) "unacknowledged_operation") ;*
  lift (require (match nth_error (cs_operations c) (length previous) with Some o => bool_decide (o = operation) | None => false end)
          "operation_order_or_replay") ;*
  write (insert_attempt (cs_id c) operation false) ;*
  commit fate.
(** [latch(case_id, operation, now_ms)] *)
Definition latch (case_id operation : string) (now_ms : Z) : R unit :=
  let* c := lift (match case_of case_id with
                  | Some c => require (str_in operation (cs_operations c)) "operation_outside_packet" ;? Ok c
                  | None => Err (Refusal "operation_outside_packet") end) in
  lift (require (start_ms <=? now_ms) "operation_time") ;*
  lift (require (startswith "delete_" operation || (now_ms <? start_ms + WORK_MS)) "scope_expired") ;*
  try (latch_body c operation)
    (λ e, rollback ;* raise (if bool_decide (e = External "IntegrityError") then Refusal "operation_already_attempted" else e)).

Definition acknowledges (case_id operation : string) (a : Attempt) : bool :=
  bool_decide (at_case a = case_id) && bool_decide (at_operation a = operation) && negb (at_acknowledged a).
(** [acknowledge(case_id, operation)] *)
Definition acknowledge (case_id operation : string) : R unit :=
  let hit := acknowledges case_id operation in
  let* count := select (λ d, length (List.filter hit (rd_attempts d))) in
  write (modify (λ d, mkRDb (rd_packet d)
           (map (λ a, if hit a then mkAttempt (at_case a) (at_operation a) true else a) (rd_attempts d)))) ;*
  commit fate ;*
  lift (require (bool_decide (count = 1%nat)) "acknowledgment_without_pending_attempt").

(** [reconcile(case_id)] *)
Definition reconcile (case_id : string) : R unit :=
  lift (require (match case_of case_id with Some _ => true | None => false end) "case_outside_packet") ;*
  let* pending := select (λ d, map at_operation (List.filter (λ a, negb (at_acknowledged a)) (rows_of_case case_id d))) in
  lift (require (bool_decide (pending = ["restore_retained"])) "ambiguous_restore_required") ;*
  let* count := select (λ d, length (List.filter (λ a, reconciles (at_operation a)) (rows_of_case case_id d))) in
  lift (require (count <? 2)%nat "reconciliation_exhausted") ;*
  write (insert_attempt case_id ("reconcile_" +:+ str_of_int (Z.of_nat count + 1)) true) ;*
  commit fate.
End Journal.

(** ** The rehearsal *)

(** The locals of the loop over the operations of a case. *)
Record Turn := mkTurn {
  tn_classification : string;
  tn_attempted : Z;
  tn_acknowledged : list (string * string);
  tn_current : json;
  tn_outcome : string;
}.
Record CaseResult := mkCaseResult { cr_case : string; cr_secret_type : string; cr_classification : string; cr_attempted : Z; cr_cleanup : string }.

Definition set_member (k : string) (v : json) (value : json) : json := match value with JObj d => JObj (dict_set k v d) | _ => value end.
(** [s.removeprefix(p)] of a text that starts with [p] *)
Definition after (p s : string) : string := String.substring (String.length p) (String.length s) s.

Section Rehearsal.
Context (sha256 : string → string) (fate : nat → commit_io).
Context (run : string) (start_ms : Z) (secret_outcome delete_outcome : string) (operation_time : Z).
Notation R := (M (Conn RDb)).
Notation latch := (latch fate start_ms (build_cases run)).
Notation acknowledge := (acknowledge fate).
Notation reconcile := (reconcile fate (build_cases run)).

Definition temporary_snapshot (c : Case) : json :=
  let changed := set_member "moduleDigest" (JStr (text_digest sha256 (JObj [("module", JStr "synthetic_temporary_v1")])))
                   (set_member "weights" (JObj [(cs_temporary c, JInt 100)])
                      (set_member "activeVersion" (JStr (cs_temporary c)) (baseline_snapshot sha256 c))) in
  if bool_decide (cs_case c = "B") then set_member "secretMatchesBaseline" (JBool false) changed else changed.

(** What [restore_retained] leaves: the outcome and the snapshot. *)
Definition restored (c : Case) : string * json :=
  let before := baseline_snapshot sha256 c in
  if bool_decide (cs_case c = "B") then
    if str_in secret_outcome ["refused"; "unknown"] then (secret_outcome, temporary_snapshot c)
    else if str_in secret_outcome ["changed_value"; "resource_drift"] then
      let current := set_member "secretMatchesBaseline" (JBool false) before in
      ("accepted", if bool_decide (secret_outcome = "resource_drift")
                   then set_member "resources" (set_member "d1" (JStr "synthetic_unexpected") (member "resources" current)) current
                   else current)
    else ("accepted", before)
  else ("accepted", before).

(** The body of the loop after the latch, and whether it breaks. *)
Definition perform (c : Case) (operation : string) (t : Turn) : R (Turn * bool) :=
  let t := mkTurn (tn_classification t) (tn_attempted t + 1) (tn_acknowledged t) (tn_current t) (tn_outcome t) in
  let current j := mkTurn (tn_classification t) (tn_attempted t) (tn_acknowledged t) j (tn_outcome t) in
  if startswith "create_" operation then
    let name := after "create_" operation in
    let* resource := lift (some_or (dict_get name (cs_resources c)) "KeyError") in
    ret (mkTurn (tn_classification t) (tn_attempted t) (dict_set name resource (tn_acknowledged t)) (tn_current t) (tn_outcome t), false)
  else if bool_decide (operation = "deploy_temporary") then
    ret (current (set_member "secretMatchesBaseline" (JBool true) (temporary_snapshot c)), false)
  else if bool_decide (operation = "change_synthetic_secret") then
    ret (current (set_member "secretMatchesBaseline" (JBool false) (tn_current t)), false)
  else if bool_decide (operation = "restore_retained") then
    let (outcome, snapshot) := restored c in
    if bool_decide (outcome = "unknown") then
      reconcile (cs_id c) ;* reconcile (cs_id c) ;*
      ret (mkTurn (tn_classification t) (tn_attempted t + 2) (tn_acknowledged t) snapshot outcome, true)
    else ret (mkTurn (tn_classification t) (tn_attempted t) (tn_acknowledged t) snapshot outcome, false)
  else if bool_decide (operation = "snapshot_restored") then
    let* classification := lift (classify (cs_case c) (baseline_snapshot sha256 c) (tn_current t) (tn_outcome t) (Some (temporary_snapshot c))) in
    ret (mkTurn classification (tn_attempted t) (tn_acknowledged t) (tn_current t) (tn_outcome t), false)
  else if startswith "delete_" operation then
    let name := after "delete_" operation in
    let* resource := lift (some_or (dict_get name (cs_resources c)) "KeyError") in
    lift (require (match dict_get name (tn_acknowledged t) with Some r => bool_decide (r = resource) | None => false end) "unowned_resource") ;*
    if bool_decide (delete_outcome = "unknown") then ret (t, true)
    else ret (mkTurn (tn_classification t) (tn_attempted t) (List.filter (λ kv, negb (bool_decide (kv.1 = name))) (tn_acknowledged t))
                (tn_current t) (tn_outcome t), false)
  else ret (t, false).

(** The loop over the operations of a case. *)
Fixpoint run_operations (c : Case) (operations : list string) (t : Turn) : R Turn :=
  match operations with
  | [] => ret t
  | operation :: rest =>
      if startswith "delete_" operation && negb (bool_decide (tn_classification t = "preserved")) then ret t else
      latch (cs_id c) operation operation_time ;*
      let* tb := perform c operation t in
      if snd tb then ret (fst tb) else
      acknowledge (cs_id c) operation ;*
      run_operations c rest (fst tb)
  end.
Definition run_case (c : Case) : R CaseResult :=
  let* t := run_operations c (cs_operations c) (mkTurn "unknown_cleanup_unconfirmed" 0 [] (baseline_snapshot sha256 c) "unknown") in
  let confirmed := bool_decide (tn_classification t = "preserved") && bool_decide (tn_acknowledged t = []) in
  ret (mkCaseResult (cs_case c) (cs_secret_type c) (tn_classification t) (tn_attempted t)
         (if confirmed then "confirmed_offline" else "cleanup_unconfirmed")).
Fixpoint run_cases (cases : list Case) : R (list CaseResult) :=
  match cases with
  | [] => ret []
  | c :: rest =>
      let* r := run_case c in
      if bool_decide (cr_case r = "A") && negb (bool_decide (cr_cleanup r = "confirmed_offline")) then ret [r] else
      let* rs := run_cases rest in
      ret (r :: rs)
  end.
End Rehearsal.

Definition result_json (r : CaseResult) : json :=
  JObj [("case", JStr (cr_case r)); ("secretType", JStr (cr_secret_type r)); ("classification", JStr (cr_classification r));
        ("operationsAttempted", JInt (cr_attempted r)); ("cleanup", JStr (cr_cleanup r))].

(** [rehearse(packet, journal, secret_outcome, now_ms=..., delete_outcome=...)]: the
    results, and the receipt. [journal_packet] is the journal's own copy. *)
Definition rehearse (sha256 : string → string) (fate : nat → commit_io) (packet journal_packet : json)
    (secret_outcome delete_outcome : string) (now_ms : option Z) : M (Conn RDb) (list CaseResult * json) :=
  let* rs := lift (validate_packet packet) in
  let (run, start_ms) := rs : string * Z in
  let* same := lift (same_text packet journal_packet) in
  lift (require same "journal_packet_mismatch") ;*
  lift (require (str_in secret_outcome ["refused"; "changed_value"; "baseline"; "unknown"; "resource_drift"]) "synthetic_outcome") ;*
  lift (require (str_in delete_outcome ["acknowledged"; "unknown"]) "synthetic_delete_outcome") ;*
  let* results := run_cases sha256 fate run start_ms secret_outcome delete_outcome (default start_ms now_ms) (build_cases run) in
  ret (results,
       JObj ([("schemaVersion", JInt 1); ("kind", JStr "offline_synthetic_restoration_receipt"); ("packetSha256", JStr (text_digest sha256 packet));
              ("results", JArr (map result_json results));
              ("notAttemptedCases", JArr (map (λ c, JStr (cs_id c)) (drop (length results) (build_cases run))))]
             ++ unqualified ["providerRestorationVerified"; "changedSecretSemanticsVerified"; "productionStateVerified"; "deploymentAllowed"])).
