(* ===== verification/RestorationFacts.v ===== *)
(** The journal of the restoration packet: whatever is asked of it, whichever commits
    fail and wherever the process ends, each case has run a prefix of its sequence and
    at most one operation waits for its acknowledgment. *)
From S2P Require Import Prelude Json JsonParse JsonRoundTrip Oracle Evidence Delta OfflineJournal Restoration Triples.

Lemma startswith_app p s : startswith p (p +:+ s) = true.
Proof. unfold startswith. induction p as [|a p IH]; [by destruct s|]. change (String a p +:+ s) with (String a (p +:+ s)). cbn [String.prefix]. by destruct (ascii_dec a a). Qed.

(** ** What is in order *)

Definition waiting (d : RDb) : list Attempt := List.filter (λ a, negb (at_acknowledged a)) (rd_attempts d).
Definition progress (c : Case) (d : RDb) : list Attempt := List.filter (λ a, negb (reconciles (at_operation a))) (rows_of_case (cs_id c) d).
Definition reconciliations (c : Case) (d : RDb) : list Attempt := List.filter (λ a, reconciles (at_operation a)) (rows_of_case (cs_id c) d).
Record in_order (cases : list Case) (d : RDb) : Prop := {
  io_prefix : ∀ c, c ∈ cases → ∃ n, map at_operation (progress c d) = take n (cs_operations c);
  io_waiting : (length (waiting d) ≤ 1)%nat;
  io_reads : ∀ c, c ∈ cases → (length (reconciliations c d) ≤ 2)%nat }.

Section Journal.
Context (fate : nat → commit_io) (packet_digest : string) (start_ms : Z) (cases : list Case).
Context (Hids : ∀ c c', c ∈ cases → c' ∈ cases → cs_id c = cs_id c' → c = c').
Context (Hplain : ∀ c o, c ∈ cases → o ∈ cs_operations c → reconciles o = false).
Notation ordered := (in_order cases).
(** Of a connection: what is durable and what is visible are in order. *)
Definition kept (c : Conn RDb) : Prop := ordered (cn_durable c) ∧ ordered (visible c).

Lemma rows_snoc id d a : rows_of_case id (mkRDb (rd_packet d) (rd_attempts d ++ [a])) = rows_of_case id d ++ (if bool_decide (at_case a = id) then [a] else []).
Proof. unfold rows_of_case. cbn [rd_attempts]. rewrite List.filter_app. cbn. by destruct (bool_decide (at_case a = id)). Qed.
Lemma lookup_nth_error {A} (l : list A) n : nth_error l n = l !! n.
Proof. revert n. induction l as [|x l IH]; intros [|n]; try done. apply IH. Qed.
Lemma latched_ordered c operation d : c ∈ cases → ordered d → waiting d = [] →
  map (λ a, (at_operation a, at_acknowledged a)) (progress c d) = map (λ o, (o, true)) (take (length (progress c d)) (cs_operations c)) →
  nth_error (cs_operations c) (length (progress c d)) = Some operation →
  ordered (mkRDb (rd_packet d) (rd_attempts d ++ [mkAttempt (cs_id c) operation false])).
Proof.
  intros Hc [Hp Hw Hr] Hnone Hprev Hnth.
  assert (Hop : reconciles operation = false) by (apply (Hplain c); [done|]; apply nth_error_In in Hnth; by apply list_elem_of_In).
  split.
  - intros c' Hc'. unfold progress. rewrite rows_snoc. cbn [at_case]. destruct (bool_decide_reflect (cs_id c = cs_id c')) as [E|E].
    + apply (Hids _ _ Hc Hc') in E as <-. rewrite List.filter_app. cbn [List.filter at_operation]. rewrite Hop. cbn [negb].
      exists (S (length (progress c d))). rewrite map_app. fold (progress c d). apply (f_equal (map fst)) in Hprev. rewrite !map_map in Hprev. cbn in Hprev.
      rewrite map_id in Hprev. change (map at_operation (progress c d) = take (length (progress c d)) (cs_operations c)) in Hprev. rewrite Hprev. cbn [map at_operation]. symmetry. apply take_S_r. by rewrite <- lookup_nth_error.
    + rewrite app_nil_r. by apply Hp.
  - unfold waiting in *. cbn [rd_attempts]. rewrite List.filter_app, Hnone. cbn. lia.
  - intros c' Hc'. unfold reconciliations. rewrite rows_snoc. cbn [at_case]. destruct (bool_decide (cs_id c = cs_id c')); rewrite ?app_nil_r; [|by apply Hr].
    rewrite List.filter_app. cbn [List.filter at_operation]. rewrite Hop, app_nil_r. by apply Hr.
Qed.
Lemma acknowledged_ordered (hit : Attempt → bool) d : ordered d →
  ordered (mkRDb (rd_packet d) (map (λ a, if hit a then mkAttempt (at_case a) (at_operation a) true else a) (rd_attempts d))).
Proof.
  intros [Hp Hw Hr]. set (g := λ a : Attempt, if hit a then mkAttempt (at_case a) (at_operation a) true else a).
  assert (Hg : ∀ a, at_case (g a) = at_case a ∧ at_operation (g a) = at_operation a) by (intros a; unfold g; by destruct (hit a)).
  assert (Hf : ∀ (f : Attempt → bool) l, (∀ a, f (g a) = f a) → List.filter f (map g l) = map g (List.filter f l)).
  { intros f l Hfg. induction l as [|a l IH]; cbn; [done|]. rewrite Hfg, IH. by destruct (f a). }
  assert (Hrows : ∀ id, rows_of_case id (mkRDb (rd_packet d) (map g (rd_attempts d))) = map g (rows_of_case id d)).
  { intros id. unfold rows_of_case. apply Hf. intros a. by destruct (Hg a) as [-> _]. }
  assert (Hop : ∀ l, map at_operation (map g l) = map at_operation l) by (intros l; rewrite map_map; apply map_ext; intros a; by destruct (Hg a) as [_ ->]).
  split.
  - intros c Hc. unfold progress. rewrite Hrows, Hf, Hop; [by apply Hp|]. intros a. by destruct (Hg a) as [_ ->].
  - etrans; [|exact Hw]. unfold waiting. cbn [rd_attempts]. clear. induction (rd_attempts d) as [|a l IH]; cbn; [done|]. unfold g at 1.
    destruct (hit a); cbn; [destruct (negb (at_acknowledged a)); cbn; lia|]. destruct (negb (at_acknowledged a)); cbn; lia.
  - intros c Hc. unfold reconciliations. rewrite Hrows, Hf, length_map; [by apply Hr|]. intros a. by destruct (Hg a) as [_ ->].
Qed.
Lemma reconciled_ordered c n d : c ∈ cases → ordered d → (length (reconciliations c d) < 2)%nat →
  ordered (mkRDb (rd_packet d) (rd_attempts d ++ [mkAttempt (cs_id c) ("reconcile_" +:+ str_of_int n) true])).
Proof.
  intros Hc [Hp Hw Hr] Hlt.
  assert (Hop : reconciles ("reconcile_" +:+ str_of_int n) = true) by apply startswith_app.
  split.
  - intros c' Hc'. unfold progress. rewrite rows_snoc. cbn [at_case]. destruct (bool_decide (cs_id c = cs_id c')); rewrite ?app_nil_r; [|by apply Hp].
    rewrite List.filter_app. cbn [List.filter at_operation]. rewrite Hop. cbn [negb]. rewrite app_nil_r. by apply Hp.
  - unfold waiting in *. cbn [rd_attempts]. rewrite List.filter_app. cbn. by rewrite app_nil_r.
  - intros c' Hc'. unfold reconciliations. rewrite rows_snoc. cbn [at_case]. destruct (bool_decide_reflect (cs_id c = cs_id c')) as [E|E]; [|rewrite app_nil_r; by apply Hr].
    apply (Hids _ _ Hc Hc') in E as <-. rewrite List.filter_app. cbn [List.filter at_operation]. rewrite Hop, length_app. cbn. unfold reconciliations in Hlt. lia.
Qed.

(** ** The operations of the journal *)

Notation keeps m := (triple kept m (λ _, kept) kept).
Lemma rollback_kept : keeps rollback.
Proof. intros c [Hd Hv]. by split. Qed.
Lemma write_kept {A} (m : M RDb A) c : kept c → (∀ x d, m (visible c) = (Ok x, d) → ordered d) →
  match write m c with (Ok x, c') => kept c' ∧ m (visible c) = (Ok x, visible c') | (Err _, c') => kept c' end.
Proof. intros [Hd Hv] Hm. unfold write. destruct (m (visible c)) as [[x|e] d] eqn:E; [|by split]. by split; [split; [|by eapply Hm]|]. Qed.
Lemma commit_kept : keeps (commit fate).
Proof. intros c [Hd Hv]. unfold commit. by destruct (fate (cn_commits c)). Qed.
Lemma inserted case operation acknowledged d x d' : insert_attempt case operation acknowledged d = (Ok x, d') →
  d' = mkRDb (rd_packet d) (rd_attempts d ++ [mkAttempt case operation acknowledged]).
Proof. unfold insert_attempt. case_match; [done|]. by intros [= _ <-]. Qed.
Lemma case_of_in case c : case_of cases case = Some c → c ∈ cases ∧ cs_id c = case.
Proof. intros H. apply find_some in H as [H1' H2']. split; [by apply list_elem_of_In|by apply bool_decide_eq_true in H2']. Qed.

Lemma latch_body_kept c operation : c ∈ cases → keeps (latch_body fate c operation).
Proof.
  intros Hc. unfold latch_body.
  eapply triple_bind with (Q := λ _, kept). { intros s [Hd Hv]. unfold begin_immediate. by destruct (cn_open s). }
  intros ?; cbv beta. unfold select. eapply triple_bind with (Q := λ u s, kept s ∧ u = existsb (λ a, negb (at_acknowledged a)) (rd_attempts (visible s))); [by apply triple_gets|intros u; cbv beta].
  eapply triple_bind; [apply triple_lift with (Q := λ _ s, kept s ∧ waiting (visible s) = []); [|by intros s [Hs _]]|intros ?; cbv beta].
  { intros s [] [Hs ->] Hu%require_ok. split; [done|]. apply negb_true_iff in Hu. unfold waiting. induction (rd_attempts (visible s)) as [|a l IH]; [done|]. cbn in *.
    apply orb_false_iff in Hu as [-> Hu]. by apply IH. }
  eapply triple_bind with (Q := λ l s, (kept s ∧ waiting (visible s) = []) ∧ l = progress c (visible s)); [by apply triple_gets|intros l; cbv beta].
  eapply triple_bind; [apply triple_lift with (Q := λ _ s, ((kept s ∧ waiting (visible s) = []) ∧ l = progress c (visible s))
    ∧ map (λ a, (at_operation a, at_acknowledged a)) l = map (λ o, (o, true)) (take (length l) (cs_operations c))); [|by intros s [[Hs _] _]]|intros ?; cbv beta].
  { intros s [] Hs Hu%require_ok. split; [done|]. by apply bool_decide_eq_true in Hu. }
  eapply triple_bind; [apply triple_lift with (Q := λ _ s, (((kept s ∧ waiting (visible s) = []) ∧ l = progress c (visible s))
    ∧ map (λ a, (at_operation a, at_acknowledged a)) l = map (λ o, (o, true)) (take (length l) (cs_operations c))) ∧ nth_error (cs_operations c) (length l) = Some operation);
    [|by intros s [[[Hs _] _] _]]|intros ?; cbv beta].
  { intros s [] Hs Hu%require_ok. split; [done|]. destruct (nth_error _ _) as [o|]; [|done]. by apply bool_decide_eq_true in Hu as ->. }
  eapply triple_bind with (Q := λ _, kept); [|intros ?; apply commit_kept].
  intros s ((((Hs & Hw) & ->) & Hprev) & Hnth). pose proof (write_kept (insert_attempt (cs_id c) operation false) s Hs) as H.
  destruct (write _ s) as [[y|e] s']; [apply H|apply H]; intros z d ->%inserted; apply latched_ordered; try done; apply Hs.
Qed.
Lemma latch_kept case operation now : keeps (latch fate start_ms cases case operation now).
Proof.
  unfold latch. eapply triple_bind; [apply triple_lift with (Q := λ c s, kept s ∧ c ∈ cases); [|by intros s Hs]|intros c; cbv beta].
  { intros s c Hs H. destruct (case_of cases case) as [c'|] eqn:E; [|done]. inv_check. split; [done|]. by eapply case_of_in. }
  apply triple_pure_r. intros Hc.
  eapply triple_bind; [apply triple_lift with (Q := λ _, kept); by intros|intros ?; cbv beta]. eapply triple_bind; [apply triple_lift with (Q := λ _, kept); by intros|intros ?; cbv beta].
  eapply triple_try; [by apply latch_body_kept|intros e; cbv beta]. eapply triple_bind; [apply rollback_kept|intros ?]. by intros s Hs.
Qed.
Lemma acknowledge_kept case operation : keeps (acknowledge fate case operation).
Proof.
  unfold acknowledge, select. eapply triple_bind; [apply triple_gets with (Q := λ _, kept); by intros|intros n; cbv beta].
  eapply triple_bind with (Q := λ _, kept).
  { intros s Hs. match goal with |- context [write ?m s] => pose proof (write_kept m s Hs) as H; destruct (write m s) as [[y|e] s'] end; apply H;
      intros z d [= _ <-]; apply acknowledged_ordered; apply Hs. }
  intros ?; cbv beta. eapply triple_bind; [apply commit_kept|intros ?; cbv beta]. apply triple_lift; by intros.
Qed.
Lemma reconcile_kept case : keeps (reconcile fate cases case).
Proof.
  unfold reconcile, select. eapply triple_bind; [apply triple_lift with (Q := λ _ s, kept s ∧ ∃ c, c ∈ cases ∧ cs_id c = case); [|by intros s Hs]|intros ?; cbv beta].
  { intros s [] Hs H%require_ok. destruct (case_of cases case) as [c|] eqn:E; [|done]. split; [done|]. exists c. by apply case_of_in. }
  apply triple_pure_r. intros (c & Hc & <-).
  eapply triple_bind; [apply triple_gets with (Q := λ _, kept); by intros|intros l; cbv beta].
  eapply triple_bind; [apply triple_lift with (Q := λ _, kept); by intros|intros ?; cbv beta].
  eapply triple_bind with (Q := λ n s, kept s ∧ n = length (reconciliations c (visible s))); [by apply triple_gets|intros n; cbv beta].
  eapply triple_bind; [apply triple_lift with (Q := λ _ s, (kept s ∧ n = length (reconciliations c (visible s))) ∧ (n < 2)%nat); [|by intros s [Hs _]]|intros ?; cbv beta].
  { intros s [] Hs H%require_ok. split; [done|]. by apply Nat.ltb_lt. }
  eapply triple_bind with (Q := λ _, kept); [|intros ?; apply commit_kept].
  intros s ((Hs & ->) & Hlt). match goal with |- context [write ?m s] => pose proof (write_kept m s Hs) as H; destruct (write m s) as [[y|e] s'] end; apply H;
    intros z d ->%inserted; apply reconciled_ordered; try done; apply Hs.
Qed.
Lemma open_kept : keeps (open_tables fate packet_digest).
Proof.
  unfold open_tables, select. eapply triple_bind; [apply triple_gets with (Q := λ _, kept); by intros|intros l; cbv beta].
  eapply triple_bind; [apply triple_lift with (Q := λ _, kept); by intros|intros ?; cbv beta]. eapply triple_bind with (Q := λ _, kept); [|intros ?; apply commit_kept].
  intros s Hs. match goal with |- context [write ?m s] => pose proof (write_kept m s Hs) as H; destruct (write m s) as [[y|e] s'] end; apply H;
    intros z d [= _ <-]; destruct (proj2 Hs); by split.
Qed.
End Journal.

(** ** The rehearsal, and every history of a journal *)

Lemma packet_ids run c c' : c ∈ build_cases run → c' ∈ build_cases run → cs_id c = cs_id c' → c = c'.
Proof. unfold build_cases. cbn [SUPPORTED_SECRET_TYPES map concat app]. intros H H' E. set_unfold. naive_solver. Qed.
Lemma packet_plain run c o : c ∈ build_cases run → o ∈ cs_operations c → reconciles o = false.
Proof.
  unfold build_cases. cbn [SUPPORTED_SECRET_TYPES map concat app]. intros Hc Ho.
  assert (H : forallb (λ o, negb (reconciles o)) (cs_operations c) = true).
  { apply elem_of_cons in Hc as [->|[->|Hc%elem_of_nil]%elem_of_cons]; [reflexivity|reflexivity|done]. }
  rewrite forallb_forall in H. apply list_elem_of_In, H in Ho. by apply negb_true_iff in Ho.
Qed.

Section Histories.
Context (sha256 : string → string) (run : string) (start_ms : Z).
Notation cases := (build_cases run).
Notation keeps m := (triple (kept cases) m (λ _, kept cases) (kept cases)).

Section Rehearsal.
Context (fate : nat → commit_io) (secret_outcome delete_outcome : string) (operation_time : Z).
Lemma lift_kept {A} (x : res A) : keeps (lift x).
Proof. apply triple_lift; by intros. Qed.
Lemma perform_kept c operation t : keeps (perform sha256 fate run secret_outcome delete_outcome c operation t).
Proof.
  unfold perform. cbv zeta.
  repeat match goal with
  | |- triple _ (if ?b then _ else _) _ _ => destruct b
  | |- triple _ (let (_, _) := ?x in _) _ _ => destruct x
  | |- triple _ (ret _) _ _ => by apply triple_ret
  | |- triple _ (bind _ _) _ _ => eapply triple_bind; [|intros ?; cbv beta]
  | |- triple _ (lift _) _ _ => apply lift_kept
  | |- triple _ (reconcile _ _ _) _ _ => apply reconcile_kept, packet_ids
  end.
Qed.
Lemma operations_kept c operations : ∀ t, keeps (run_operations sha256 fate run start_ms secret_outcome delete_outcome operation_time c operations t).
Proof.
  induction operations as [|operation rest IH]; intros t; cbn [run_operations]; [by apply triple_ret|]. destruct (_ && _); [by apply triple_ret|].
  eapply triple_bind; [apply latch_kept; [apply packet_ids|apply packet_plain]|intros ?; cbv beta].
  eapply triple_bind; [apply perform_kept|intros [t' []]; cbn [fst snd]; [by apply triple_ret|]]. eapply triple_bind; [apply acknowledge_kept|intros ?; apply IH].
Qed.
Lemma cases_kept l : keeps (run_cases sha256 fate run start_ms secret_outcome delete_outcome operation_time l).
Proof.
  induction l as [|c l IH]; cbn [run_cases]; [by apply triple_ret|]. unfold run_case.
  eapply triple_bind with (Q := λ _, kept cases); [eapply triple_bind; [apply operations_kept|intros t; by apply triple_ret]|intros r; cbv beta].
  destruct (_ && _); [by apply triple_ret|]. eapply triple_bind; [apply IH|intros rs; by apply triple_ret].
Qed.
End Rehearsal.

(** What may happen to the journal of a packet: its operations in any order and with
    any arguments, a whole rehearsal, and the end of the process or a close, which the
    next connection follows. *)
Inductive journal_step : Conn RDb → Conn RDb → Prop :=
| step_open fate digest r c c' : open_tables fate digest c = (r, c') → journal_step c c'
| step_latch fate case operation now r c c' : latch fate start_ms cases case operation now c = (r, c') → journal_step c c'
| step_acknowledge fate case operation r c c' : acknowledge fate case operation c = (r, c') → journal_step c c'
| step_reconcile fate case r c c' : reconcile fate cases case c = (r, c') → journal_step c c'
| step_rehearse fate packet journal_packet secret_outcome delete_outcome now r c c' : validate_packet packet = Ok (run, start_ms) →
    rehearse sha256 fate packet journal_packet secret_outcome delete_outcome now c = (r, c') → journal_step c c'
| step_end c : journal_step c (close_connection c).

Lemma kept_of {A} (m : M (Conn RDb) A) r c c' : keeps m → kept cases c → m c = (r, c') → kept cases c'.
Proof. intros H Hc E. specialize (H c Hc). rewrite E in H. by destruct r. Qed.
Lemma step_kept c c' : journal_step c c' → kept cases c → kept cases c'.
Proof.
  destruct 1 as [fate digest r c c' H|fate case operation now r c c' H|fate case operation r c c' H|fate case r c c' H|fate packet jp so d now r c c' Hp H|c];
    intros Hc; [..|by destruct Hc]; (eapply kept_of; [|exact Hc|exact H]).
  - apply open_kept.
  - apply latch_kept; [apply packet_ids|apply packet_plain].
  - apply acknowledge_kept.
  - apply reconcile_kept, packet_ids.
  - unfold rehearse. rewrite Hp. eapply triple_bind with (Q := λ rs s, kept cases s ∧ rs = (run, start_ms)); [apply triple_lift; [by intros s x Hs [= <-]|by intros s Hs]|intros rs; cbv beta].
    apply triple_pure_r. intros ->.
    do 4 (eapply triple_bind; [apply triple_lift with (Q := λ _, kept cases); by intros|intros ?; cbv beta]). eapply triple_bind; [apply cases_kept|intros rs; by apply triple_ret].
Qed.

Definition new_journal : Conn RDb := mkConn empty_rdb None 0.
(** C24: In every history of the journal of a packet, each case has durably run a prefix of
    its sequence in order, at most one operation of the whole packet waits for its
    acknowledgment, and a case has at most two reconciliation reads. *)
Theorem restoration_in_order c : rtc journal_step new_journal c → in_order cases (cn_durable c).
Proof.
  intros H. enough (kept cases c) as [Hd _] by done. assert (Hnew : kept cases new_journal).
  { assert (in_order cases empty_rdb) by (split; [intros c' _; by exists 0%nat|cbn; lia|intros c' _; cbn; lia]). by split. }
  revert Hnew. induction H as [|c1 c2 c3 Hstep _ IH]; intros Hc; [done|]. by eapply IH, step_kept.
Qed.
End Histories.
