(* ===== verification/Composition.v ===== *)
(** scripts/temporary_composition_lifecycle.py, the complete composition: its plan,
    the journal of non-replayable dispatch markers, the finite synthetic provider, and
    the rehearsal that applies the temporary composition, restores and cleans up.

    A plan is a document; what a validated plan fixes is read from it once. *)
From S2P Require Import Prelude Json JsonParse JsonRoundTrip Oracle Evidence Delta OfflineJournal Restoration.

(** ** Plans *)

Definition FAULTS : list string :=
  ["refused"; "unknown"; "exception"; "malformed"; "identity_drift"; "data_drift"; "typed_data_drift"; "schema_drift"; "secret_drift"; "gate_drift";
   "reference_drift"; "version_drift"; "weights_drift"; "stop"].
Definition COMPOSITION_FAULTS : list string := FAULTS ++ ["ownership_drift"; "configuration_drift"; "module_drift"].
Definition numbered (name : string) (n : nat) : string := name +:+ str_of_int (Z.of_nat n).
Definition COMPOSITION_OPERATIONS : list string :=
  ["read_baseline"]
  ++ concat (map (λ n, [numbered "create_resource_" n; numbered "read_resource_" n]) (seq 0 3))
  ++ ["initialize_synthetic"; "read_initialized"; "upload_version"; "read_version"; "apply_temporary"; "read_temporary"; "disable_temporary";
      "read_disabled"; "restore_retained"; "read_restored"]
  ++ concat (map (λ n, [numbered "delete_resource_" n; numbered "read_absent_" n]) (rev (seq 0 3))).
Definition RECONCILIATIONS : list string := ["reconcile_1"; "reconcile_2"].

(** What the rehearsal reads of a plan and its delta. *)
Record Plan := mkPlan {
  pl_run : string;
  pl_start : Z;
  pl_baseline : json;
  pl_temporary : json;
  pl_version : json;
  pl_resources : list json;
  pl_receiver : json;
  pl_restore : json;
}.
Definition pl_work (p : Plan) : Z := pl_start p + WORK_MS.
Definition pl_outer (p : Plan) : Z := pl_start p + OUTER_MS.
Definition plan_operations : list string := COMPOSITION_OPERATIONS.
Definition operation_cap : nat := length COMPOSITION_OPERATIONS + 2.

Definition gates_closed : list string :=
  ["deploymentAllowed"; "providerRestorationVerified"; "changedSecretSemanticsVerified"; "productionStateVerified"; "nativeQualified";
   "transportQualified"].

Section Composition.
Context (sha256 : string → string) (integral : string → option Z).
Notation eqb := (py_eqb integral).

Definition plan_parts (run start : json) (delta : list (string * json)) : Plan :=
  let additions := match field "additions" delta with JObj a => a | _ => [] end in
  mkPlan (text_of run) (int_of start) (field "baseline" delta) (field "temporary" delta) (field "temporaryVersion" additions)
    (match field "resources" additions with JArr l => l | _ => [] end) (field "receiver" additions) (field "restore" delta).
(** [build_composition_plan(delta, start_ms)] *)
Definition build_composition_plan (delta start : json) : res json :=
  validate_delta sha256 delta ;?
  require (int_where (λ s, (0 <=? s) && (s <=? 2 ^ 53 - OUTER_MS)) start) "operation_time" ;?
  let? additions := item_of "additions" delta in
  let? scope := item_of "scope" additions in
  let? starts := item_of "startsAt" scope in
  require (eqb start starts) "composition_start_mismatch" ;?
  let? run := item_of "run" additions in
  Ok (JObj ([("schemaVersion", JInt 1); ("kind", JStr "offline_complete_composition_lifecycle"); ("run", run); ("startMs", start);
             ("workExpiresMs", JInt (int_of start + WORK_MS)); ("outerExpiresMs", JInt (int_of start + OUTER_MS)); ("delta", delta);
             ("operations", JArr (map JStr COMPOSITION_OPERATIONS)); ("operationCap", JInt (Z.of_nat operation_cap));
             ("reconciliationReadCap", JInt 2)] ++ unqualified gates_closed)).
(** [validate_plan(plan)] of a composition plan: its parts. *)
Definition validate_composition_plan (plan : json) : res Plan :=
  shape_error "closed_plan_mismatch" (
    let? delta := item_of "delta" plan in
    let? start := item_of "startMs" plan in
    let? expected := build_composition_plan delta start in
    let? same := same_text plan expected in
    require same "closed_plan_mismatch" ;?
    let? run := item_of "run" expected in
    Ok (plan_parts run start (match delta with JObj d => d | _ => [] end))).

(** ** The state of the provider, and the state that is expected *)

(** [admission] without its run; the quota scope is that of the run with [enabled]. *)
Record State := mkState {
  st_snapshot : json;
  st_enabled : bool;
  st_revision : Z;
  st_initialized : bool;
  st_owned : list json;
  st_receiver : option json;
  st_quota : option bool;
  st_uploaded : option json;
}.
(** [_quota_scope(plan, enabled=...)] *)
Definition _quota_scope (p : Plan) (enabled : bool) : json :=
  JObj [("run", JStr (pl_run p)); ("startsAt", JInt (pl_start p)); ("expiresAt", JInt (pl_outer p)); ("enabled", JBool enabled); ("fga", JInt 0);
        ("receiver", JInt 0); ("arrivals", JInt 0); ("authorizationPresent", JBool false); ("canaryMatch", JBool false);
        ("initialized", JBool true); ("limits", JObj [("fga", JInt 96); ("receiver", JInt 16); ("lifetimeMs", JInt OUTER_MS)])].
Definition or_null (o : option json) : json := default JNull o.
(** [snapshot()] *)
Definition state_json (p : Plan) (s : State) : json :=
  JObj [("snapshot", st_snapshot s);
        ("admission", JObj [("run", JStr (pl_run p)); ("enabled", JBool (st_enabled s)); ("revision", JInt (st_revision s))]);
        ("initialized", JBool (st_initialized s)); ("ownedResources", JArr (st_owned s)); ("receiverArtifact", or_null (st_receiver s));
        ("quotaScope", or_null (_quota_scope p <$> st_quota s)); ("uploadedVersion", or_null (st_uploaded s))].
Definition initial_state (p : Plan) : State := mkState (pl_baseline p) false 1 false [] None None None.

Definition with_snapshot (j : json) (s : State) : State :=
  mkState j (st_enabled s) (st_revision s) (st_initialized s) (st_owned s) (st_receiver s) (st_quota s) (st_uploaded s).
Definition with_owned (l : list json) (s : State) : State :=
  mkState (st_snapshot s) (st_enabled s) (st_revision s) (st_initialized s) l (st_receiver s) (st_quota s) (st_uploaded s).
Definition with_receiver (r : option json) (s : State) : State :=
  mkState (st_snapshot s) (st_enabled s) (st_revision s) (st_initialized s) (st_owned s) r (st_quota s) (st_uploaded s).
Definition with_quota (q : option bool) (s : State) : State :=
  mkState (st_snapshot s) (st_enabled s) (st_revision s) (st_initialized s) (st_owned s) (st_receiver s) q (st_uploaded s).
Definition with_uploaded (u : option json) (s : State) : State :=
  mkState (st_snapshot s) (st_enabled s) (st_revision s) (st_initialized s) (st_owned s) (st_receiver s) (st_quota s) u.
Definition with_admission (enabled : bool) (revision : Z) (s : State) : State :=
  mkState (st_snapshot s) enabled revision (st_initialized s) (st_owned s) (st_receiver s) (st_quota s) (st_uploaded s).
Definition with_initialized (s : State) : State :=
  mkState (st_snapshot s) (st_enabled s) (st_revision s) true (st_owned s) (st_receiver s) (st_quota s) (st_uploaded s).

(** ** The provider *)

Record Provider := mkProvider { pv_state : State; pv_elapsed : Z; pv_stop : bool; pv_calls : list string }.
Definition new_provider (p : Plan) : Provider := mkProvider (initial_state p) 0 false [].

(** The constructor's guard on its faults and its tick. *)
Definition provider_guard (faults : list (string * string)) (tick_ms : Z) : res unit :=
  require (forallb (λ kv, str_in kv.1 (COMPOSITION_OPERATIONS ++ RECONCILIATIONS) && str_in kv.2 COMPOSITION_FAULTS) faults) "synthetic_fault" ;?
  require ((0 <=? tick_ms) && (tick_ms <=? OUTER_MS)) "synthetic_tick".

(** A path of a snapshot is set; a missing part raises. *)
Fixpoint set_path (path : list string) (v : json) (value : json) : res json :=
  match path, value with
  | [], _ => Ok v
  | [k], JObj d => Ok (JObj (dict_set k v d))
  | k :: rest, JObj d => let? inner := at_key k d in let? changed := set_path rest v inner in Ok (JObj (dict_set k changed d))
  | _, _ => Err (External "TypeError")
  end.

Definition upload_request (p : Plan) : json :=
  JObj [("version", pl_version p); ("moduleSha256", member "moduleSha256" (pl_temporary p));
        ("configurationSha256", JStr (text_digest sha256 (member "configuration" (pl_temporary p))))].
Definition create_request (p : Plan) (n : nat) : json :=
  let resource := nth n (pl_resources p) JNull in
  if Nat.eqb n 2 then JObj [("resource", resource); ("artifact", pl_receiver p)] else resource.
Definition keep_production (production : json) (snapshot : json) : json := set_member "productionState" production snapshot.

(** What an operation does to the state, before any fault: [None] refuses. *)
Inductive operation_kind := OCreate (n : nat) | OInitialize | OUpload | OApply | ODisable | ORestore | ODelete (n : nat) | ORead.
Definition kind_of (operation : string) : operation_kind :=
  let number prefix := match List.find (λ n, bool_decide (operation = numbered prefix n)) (seq 0 3) with Some n => n | None => 0%nat end in
  if startswith "create_resource_" operation then OCreate (number "create_resource_")
  else if bool_decide (operation = "initialize_synthetic") then OInitialize
  else if bool_decide (operation = "upload_version") then OUpload
  else if bool_decide (operation = "apply_temporary") then OApply
  else if bool_decide (operation = "disable_temporary") then ODisable
  else if bool_decide (operation = "restore_retained") then ORestore
  else if startswith "delete_resource_" operation then ODelete (number "delete_resource_")
  else ORead.
Definition last_of {A} (l : list A) : option A := List.hd_error (rev l).
Definition act (p : Plan) (operation : string) (request : json) (s : State) : option State :=
  let resource n := nth n (pl_resources p) JNull in
  match kind_of operation with
  | OCreate n =>
      if negb (bool_decide (dumps request = dumps (create_request p n)))
         || existsb (λ item, eqb (member "identity" item) (member "identity" (resource n))) (st_owned s) then None
      else Some ((if Nat.eqb n 2 then with_receiver (Some (pl_receiver p)) else id) (with_owned (st_owned s ++ [resource n]) s))
  | OInitialize =>
      if negb (eqb request (JObj [("run", JStr (pl_run p)); ("startsAt", JInt (pl_start p))]))
         || negb (bool_decide (dumps (JArr (st_owned s)) = dumps (JArr (pl_resources p)))) || st_initialized s then None
      else Some (with_quota (Some true) (with_admission true (st_revision s) (with_initialized s)))
  | OUpload =>
      if negb (eqb request (upload_request p)) || match st_uploaded s with Some _ => true | None => false end then None
      else Some (with_uploaded (Some (upload_request p)) s)
  | OApply =>
      if negb (eqb request (selection (pl_version p))) || match st_uploaded s with Some _ => false | None => true end then None
      else Some (with_snapshot (keep_production (member "productionState" (st_snapshot s)) (pl_temporary p)) s)
  | ODisable =>
      if negb (eqb request (JObj [("run", JStr (pl_run p))])) then None
      else Some (with_quota ((λ _, false) <$> st_quota s) (with_admission false 2 s))
  | ORestore =>
      if negb (eqb request (pl_restore p)) || st_enabled s then None
      else Some (with_snapshot (keep_production (member "productionState" (st_snapshot s)) (pl_baseline p)) s)
  | ODelete n =>
      if negb (eqb request (resource n))
         || negb (match last_of (st_owned s) with Some item => bool_decide (dumps item = dumps request) | None => false end)
         || negb (bool_decide (dumps (st_snapshot s) = dumps (pl_baseline p))) || st_enabled s then None
      else Some ((if Nat.eqb n 2 then with_receiver None else if Nat.eqb n 1 then with_quota None else id)
                   (with_owned (removelast (st_owned s)) s))
  | ORead => if eqb request (JObj []) then Some s else None
  end.

(** The drifts of a fault. *)
Definition drift (fault : string) (s : State) : res State :=
  let on_snapshot path v := let? j := set_path path v (st_snapshot s) in Ok (with_snapshot j s) in
  if str_in fault ["identity_drift"; "configuration_drift"; "reference_drift"] then on_snapshot ["configuration"; "runtime"; "syntheticDrift"] (JBool true)
  else if str_in fault ["data_drift"; "typed_data_drift"; "schema_drift"; "secret_drift"; "gate_drift"]
  then on_snapshot ["productionState"; "syntheticDrift"] (JStr fault)
  else if bool_decide (fault = "ownership_drift") then
    match last_of (st_owned s) with
    | Some item => Ok (with_owned (removelast (st_owned s) ++ [set_member "run" (JStr "bbbbbbbbbbbbbbbbbbbbbbbbbbbbbbbb") item]) s)
    | None => Ok s
    end
  else if bool_decide (fault = "version_drift") then on_snapshot ["retainedVersion"] (JStr "synthetic-foreign-version")
  else if bool_decide (fault = "weights_drift") then
    on_snapshot ["deploymentWeights"] (JObj [(text_of (member "retainedVersion" (st_snapshot s)), JInt 99)])
  else if bool_decide (fault = "module_drift") then on_snapshot ["moduleSha256"] (JStr (String.concat EmptyString (repeat "0" 64)))
  else Ok s.

(** A reply of [_call]: [{"outcome": ...}], with the state when it is accepted. *)
Inductive reply := RRefused | RUnknown | RMalformed | RAccepted (state : json).
(** [_call(operation, request)] *)
Definition provider_call (p : Plan) (faults : list (string * string)) (tick_ms : Z) (operation : string) (request : json) : M Provider reply := λ v,
  if negb (str_in operation (COMPOSITION_OPERATIONS ++ RECONCILIATIONS)) then (Err (Refusal "operation_outside_plan"), v) else
  let called s stop := mkProvider s (pv_elapsed v + tick_ms) (pv_stop v || stop) (pv_calls v ++ [operation]) in
  let fault := default EmptyString (dict_get operation faults) in
  if bool_decide (fault = "refused") then (Ok RRefused, called (pv_state v) false) else
  match act p operation request (pv_state v) with
  | None => (Ok RRefused, called (pv_state v) false)
  | Some s =>
      match drift fault s with
      | Err e => (Err e, called s false)
      | Ok s' =>
          if bool_decide (fault = "stop") then (Ok (RAccepted (state_json p s')), called s' true)
          else if bool_decide (fault = "exception") then (Err (External "OSError"), called s' false)
          else if bool_decide (fault = "unknown") then (Ok RUnknown, called s' false)
          else if bool_decide (fault = "malformed") then (Ok RMalformed, called s' false)
          else (Ok (RAccepted (state_json p s')), called s' false)
      end
  end.

(** ** The journal *)

(** The tables: the digest of the plan, the singleton of [started], the attempts with
    their dispositions in rowid order. *)
Record LDb := mkLDb { ld_plan : option string; ld_started : bool; ld_attempts : list (string * string) }.
Definition empty_ldb : LDb := mkLDb None false [].
(** The ownership marker's content, the connection, and whether the journal object
    is closed. *)
Record Site := mkSite { si_marker : option string; si_conn : Conn LDb; si_closed : bool }.

Section Journal.
Context (fate : nat → commit_io) (token plan_digest : string) (operations : list string) (cap : nat).
Notation J := (M Site).

Definition on_conn {A} (m : M (Conn LDb) A) : J A := λ s,
  let (r, c) := m (si_conn s) in (r, mkSite (si_marker s) c (si_closed s)).
Definition insert_started : M LDb unit := λ d,
  if ld_started d then integrity_error d else (Ok tt, mkLDb (ld_plan d) true (ld_attempts d)).
Definition insert_pending (operation : string) : M LDb unit := λ d,
  if str_in operation (map fst (ld_attempts d)) then integrity_error d
  else (Ok tt, mkLDb (ld_plan d) (ld_started d) (ld_attempts d ++ [(operation, "pending")])).
(** A write and its commit; an [IntegrityError] is rolled back and refused. *)
Definition insert_once (m : M LDb unit) (label : string) : J unit :=
  on_conn (try (write m ;* commit fate)
             (λ e, if bool_decide (e = External "IntegrityError") then rollback ;* raise (Refusal label) else raise e)).

(** [_release_marker()] *)
Definition release_marker (s : Site) : Site :=
  mkSite (if bool_decide (si_marker s = Some token) then None else si_marker s) (si_conn s) (si_closed s).
Definition close_site (s : Site) : Site := release_marker (mkSite (si_marker s) (close_connection (si_conn s)) true).
(** [__init__]: exclusive creation of the marker, then the tables. *)
Definition open_tables : M (Conn LDb) unit :=
  let* stored := select ld_plan in
  lift (require (match stored with Some d => bool_decide (d = plan_digest) | None => true end) "journal_plan_mismatch") ;*
  write (modify (λ d, mkLDb (Some plan_digest) (ld_started d) (ld_attempts d))) ;*
  commit fate.
Definition journal_open : J unit := λ s,
  match si_marker s with
  | Some _ => (Err (External "FileExistsError"), s)
  | None =>
      let s := mkSite (Some token) (close_connection (si_conn s)) false in
      match on_conn open_tables s with
      | (Ok _, s) => (Ok tt, s)
      | (Err e, s) => (Err e, close_site s)
      end
  end.
(** [close()] *)
Definition journal_close : J unit := λ s, (Ok tt, if si_closed s then s else close_site s).

(** [_assert_owner()] *)
Definition assert_owner : J unit :=
  let* s := Prelude.get in
  lift (require (negb (si_closed s)) "journal_closed") ;*
  lift (require (bool_decide (si_marker s = Some token)) "journal_owner_mismatch").
Definition start_once : J unit := assert_owner ;* insert_once insert_started "run_already_attempted".
Definition records : J (list (string * string)) :=
  let* s := Prelude.get in if si_closed s then raise (External "ProgrammingError") else on_conn (select ld_attempts).
Definition latch (operation : string) : J unit :=
  assert_owner ;*
  lift (require (str_in operation (operations ++ RECONCILIATIONS)) "operation_outside_plan") ;*
  let* rows := records in
  lift (require (length rows <? cap)%nat "operation_cap") ;*
  insert_once (insert_pending operation) "operation_replay".
Definition is_pending (operation : string) (row : string * string) : bool := bool_decide (row = (operation, "pending")).
Definition finish (operation disposition : string) : J unit :=
  assert_owner ;*
  lift (require (str_in disposition ["accepted"; "refused"]) "invalid_disposition") ;*
  let* rows := records in
  on_conn (write (modify (λ d, mkLDb (ld_plan d) (ld_started d)
             (map (λ row, if is_pending operation row then (operation, disposition) else row) (ld_attempts d))))) ;*
  on_conn (commit fate) ;*
  lift (require (bool_decide (length (List.filter (is_pending operation) rows) = 1%nat)) "no_pending_attempt").
End Journal.

(** ** The rehearsal *)

(** The journal's site, the provider, and the locals of [rehearse_composition]. *)
Record Run := mkRun {
  rn_site : Site;
  rn_provider : Provider;
  rn_expected : State;
  rn_reason : string;
  rn_halted : bool;
  rn_cleanup : string;
  rn_applied : bool;
  rn_initialized : bool;
  rn_uploaded : bool;
  rn_created : list nat;
  rn_absent : list nat;
}.
Definition new_run (p : Plan) (s : Site) (v : Provider) : Run :=
  mkRun s v (initial_state p) "not_started" false "cleanup_unconfirmed" false false false [] [].
Notation R := (M Run).

Definition on_site {A} (m : M Site A) : R A := λ r,
  let (x, s) := m (rn_site r) in
  (x, mkRun s (rn_provider r) (rn_expected r) (rn_reason r) (rn_halted r) (rn_cleanup r) (rn_applied r) (rn_initialized r) (rn_uploaded r)
        (rn_created r) (rn_absent r)).
Definition on_provider {A} (m : M Provider A) : R A := λ r,
  let (x, v) := m (rn_provider r) in
  (x, mkRun (rn_site r) v (rn_expected r) (rn_reason r) (rn_halted r) (rn_cleanup r) (rn_applied r) (rn_initialized r) (rn_uploaded r)
        (rn_created r) (rn_absent r)).
Definition expect (f : State → State) : R unit := modify (λ r,
  mkRun (rn_site r) (rn_provider r) (f (rn_expected r)) (rn_reason r) (rn_halted r) (rn_cleanup r) (rn_applied r) (rn_initialized r) (rn_uploaded r)
    (rn_created r) (rn_absent r)).
Definition because (reason : string) (halted : bool) : R unit := modify (λ r,
  mkRun (rn_site r) (rn_provider r) (rn_expected r) reason (rn_halted r || halted) (rn_cleanup r) (rn_applied r) (rn_initialized r) (rn_uploaded r)
    (rn_created r) (rn_absent r)).
Definition set_cleanup (cleanup : string) : R unit := modify (λ r,
  mkRun (rn_site r) (rn_provider r) (rn_expected r) (rn_reason r) (rn_halted r) cleanup (rn_applied r) (rn_initialized r) (rn_uploaded r)
    (rn_created r) (rn_absent r)).
Definition set_applied : R unit := modify (λ r,
  mkRun (rn_site r) (rn_provider r) (rn_expected r) (rn_reason r) (rn_halted r) (rn_cleanup r) true (rn_initialized r) (rn_uploaded r)
    (rn_created r) (rn_absent r)).
Definition set_initialized : R unit := modify (λ r,
  mkRun (rn_site r) (rn_provider r) (rn_expected r) (rn_reason r) (rn_halted r) (rn_cleanup r) (rn_applied r) true (rn_uploaded r)
    (rn_created r) (rn_absent r)).
Definition set_uploaded : R unit := modify (λ r,
  mkRun (rn_site r) (rn_provider r) (rn_expected r) (rn_reason r) (rn_halted r) (rn_cleanup r) (rn_applied r) (rn_initialized r) true
    (rn_created r) (rn_absent r)).
Definition add_created (n : nat) : R unit := modify (λ r,
  mkRun (rn_site r) (rn_provider r) (rn_expected r) (rn_reason r) (rn_halted r) (rn_cleanup r) (rn_applied r) (rn_initialized r) (rn_uploaded r)
    (rn_created r ++ [n]) (rn_absent r)).
Definition add_absent (n : nat) : R unit := modify (λ r,
  mkRun (rn_site r) (rn_provider r) (rn_expected r) (rn_reason r) (rn_halted r) (rn_cleanup r) (rn_applied r) (rn_initialized r) (rn_uploaded r)
    (rn_created r) (rn_absent r ++ [n])).

Section Rehearse.
Context (fate : nat → commit_io) (token : string) (p : Plan) (plan_digest : string) (faults : list (string * string)) (tick_ms : Z).
Context (base : Z) (stop_requested : bool).
Notation latch := (latch fate token plan_operations operation_cap).
Notation finish := (finish fate token).
Notation perform := (provider_call p faults tick_ms).

Definition now : R Z := gets (λ r, base + pv_elapsed (rn_provider r)).
Definition outer_expired : R bool := let* t := now in ret (pl_outer p <=? t).

(** One of the two reconciliation reads; [true] breaks the loop. *)
Definition reconcile_read (name : string) : R bool :=
  let* expired := outer_expired in
  if expired : bool then ret true else
  on_site (latch name) ;*
  try (let* observation := on_provider (perform name (JObj [])) in
       match observation with
       | RAccepted _ => on_site (finish name "accepted")
       | RRefused => on_site (finish name "refused")
       | _ => ret tt
       end) (λ _, ret tt) ;*
  ret false.
(** No answer that can be believed: the marker stays, and two reads are made. *)
Definition ambiguous : R (option json) :=
  because "ambiguous_dispatch" true ;*
  let* stopped := reconcile_read "reconcile_1" in
  (if stopped : bool then ret tt else let* _ := reconcile_read "reconcile_2" in ret tt) ;*
  ret None.
(** [call(operation, request)] *)
Definition call (operation : string) (request : json) : R (option json) :=
  let* halted := gets rn_halted in
  if halted : bool then ret None else
  let* expired := outer_expired in
  if expired : bool then because "outer_expired" true ;* ret None else
  on_site (latch operation) ;*
  let* reply := try (on_provider (perform operation request)) (λ _, ret RUnknown) in
  match reply with
  | RRefused =>
      on_site (finish operation "refused") ;*
      because "operation_refused" true ;*
      ret None
  | RAccepted state =>
      if all_finite state then
        on_site (finish operation "accepted") ;*
        let* expired := outer_expired in
        if expired : bool then because "outer_expired" true ;* ret None else ret (Some state)
      else ambiguous
  | _ => ambiguous
  end.
Definition called (operation : string) (request : json) : R bool :=
  let* state := call operation request in ret (match state with Some _ => true | None => false end).
(** [observed(operation)] *)
Definition observed (operation : string) : R bool :=
  let* state := call operation (JObj []) in
  match state with
  | None => ret false
  | Some state =>
      let* expected := gets rn_expected in
      if bool_decide (dumps state = dumps (state_json p expected)) then ret true
      else because "independent_state_mismatch" false ;* ret false
  end.
(** [work_open()] *)
Definition work_open : R bool :=
  let* stop := gets (λ r, pv_stop (rn_provider r)) in
  if stop_requested || stop then because "stopped_before_apply" false ;* ret false else
  let* t := now in
  if pl_work p <=? t then because "work_expired_before_apply" false ;* ret false else ret true.
(** [ready and work_open()] *)
Definition and_open (ready : bool) : R bool := if ready then work_open else ret false.

(** The loop that creates the resources: what [ready] is after it. *)
Fixpoint create_all (numbers : list nat) : R bool :=
  match numbers with
  | [] => ret true
  | n :: rest =>
      let* go := work_open in
      if negb go then ret false else
      let* made := called (numbered "create_resource_" n) (create_request p n) in
      if negb made then ret false else
      add_created n ;*
      expect (λ s, (if Nat.eqb n 2 then with_receiver (Some (pl_receiver p)) else id) (with_owned (st_owned s ++ [nth n (pl_resources p) JNull]) s)) ;*
      let* seen := observed (numbered "read_resource_" n) in
      if negb seen then ret false else create_all rest
  end.
Definition initialize (ready : bool) : R bool :=
  let* go := and_open ready in
  if negb go then ret false else
  let* done := called "initialize_synthetic" (JObj [("run", JStr (pl_run p)); ("startsAt", JInt (pl_start p))]) in
  if negb done then ret false else
  set_initialized ;*
  expect (λ s, with_quota (Some true) (with_admission true (st_revision s) (with_initialized s))) ;*
  observed "read_initialized".
Definition upload (ready : bool) : R bool :=
  let* go := and_open ready in
  if negb go then ret false else
  let* done := called "upload_version" (upload_request p) in
  if negb done then ret false else
  set_uploaded ;*
  expect (with_uploaded (Some (upload_request p))) ;*
  observed "read_version".
Definition apply_temporary (ready : bool) : R unit :=
  let* go := and_open ready in
  if negb go then ret tt else
  let* done := called "apply_temporary" (selection (pl_version p)) in
  if negb done then ret tt else
  set_applied ;*
  expect (with_snapshot (pl_temporary p)) ;*
  let* _ := observed "read_temporary" in ret tt.
(** Admission off: what [stopped] is. *)
Definition disable : R bool :=
  let* initialized := gets rn_initialized in
  if negb initialized then ret true else
  let* done := called "disable_temporary" (JObj [("run", JStr (pl_run p))]) in
  if negb done then ret false else
  expect (λ s, with_quota (Some false) (with_admission false 2 s)) ;*
  observed "read_disabled".
Definition restore : R bool :=
  let* applied := gets rn_applied in
  if negb applied then ret true else
  let* done := called "restore_retained" (pl_restore p) in
  if negb done then ret false else
  expect (with_snapshot (pl_baseline p)) ;*
  ret true.
(** The loop that deletes what was created, last first; [false] breaks it. *)
Fixpoint delete_all (numbers : list nat) : R bool :=
  match numbers with
  | [] => ret true
  | n :: rest =>
      let* done := called (numbered "delete_resource_" n) (nth n (pl_resources p) JNull) in
      if negb done then ret false else
      expect (λ s, (if Nat.eqb n 2 then with_receiver None else if Nat.eqb n 1 then with_quota None else id)
                     (with_owned (removelast (st_owned s)) s)) ;*
      let* seen := observed (numbered "read_absent_" n) in
      if negb seen then ret false else
      add_absent n ;*
      delete_all rest
  end.
Definition clean_up : R unit :=
  let* stopped := disable in
  let* halted := gets rn_halted in
  if negb stopped || halted then ret tt else
  let* restored := restore in
  if negb restored then ret tt else
  let* seen := observed "read_restored" in
  if negb seen then ret tt else
  let* created := gets rn_created in
  let* absent := delete_all (rev created) in
  if absent : bool then set_cleanup "confirmed_offline" ;* because "restored_and_absent" false else ret tt.
Definition attempt : R unit :=
  let* ready := create_all (seq 0 (length (pl_resources p))) in
  let* ready := initialize ready in
  let* ready := upload ready in
  apply_temporary ready ;*
  clean_up.
(** From the first [work_open()] to the last observation. *)
Definition rehearsal : R unit :=
  let* go := work_open in
  if negb go then set_cleanup "not_applied" else
  let* seen := observed "read_baseline" in
  if negb seen then ret tt else
  let* go := work_open in
  if negb go then set_cleanup "not_applied" else attempt.

(** The fields of the receipt that the run decides. *)
Record Receipt := mkReceipt {
  rc_cleanup : string;
  rc_reason : string;
  rc_stop : bool;
  rc_attempted : nat;
  rc_pending : list string;
  rc_retained_version : option json;
  rc_disposition : string;
  rc_requiring : list json;
  rc_unacknowledged : list string;
}.
Definition pending_of (rows : list (string * string)) : list string := map fst (List.filter (λ row, bool_decide (row.2 = "pending")) rows).
Definition receipt (r : Run) (rows : list (string * string)) : Receipt :=
  mkReceipt (rn_cleanup r) (if bool_decide (rn_reason r = "not_started") then "independent_state_mismatch" else rn_reason r)
    (stop_requested || pv_stop (rn_provider r)) (length rows) (pending_of rows)
    (if rn_uploaded r then Some (pl_version p) else None)
    (if rn_uploaded r then "acknowledged_retained"
     else if existsb (λ row, bool_decide (row = ("upload_version", "pending"))) rows then "unknown" else "not_uploaded")
    (map (λ n, nth n (pl_resources p) JNull) (List.filter (λ n, negb (existsb (Nat.eqb n) (rn_absent r))) (rn_created r)))
    (List.filter (startswith "create_resource_") (pending_of rows)).
Definition receipt_json (c : Receipt) : json :=
  JObj ([("schemaVersion", JInt 1); ("kind", JStr "offline_complete_composition_receipt"); ("planSha256", JStr plan_digest);
         ("cleanup", JStr (rc_cleanup c)); ("reason", JStr (rc_reason c)); ("stopObserved", JBool (rc_stop c));
         ("operationsAttempted", JInt (Z.of_nat (rc_attempted c))); ("pendingOperations", JArr (map JStr (rc_pending c)));
         ("retainedTemporaryVersion", or_null (rc_retained_version c)); ("temporaryVersionDisposition", JStr (rc_disposition c));
         ("ownedResourcesRequiringReconciliation", JArr (rc_requiring c));
         ("unacknowledgedCreationOperations", JArr (map JStr (rc_unacknowledged c)))] ++ unqualified gates_closed).

(** [rehearse_composition] after its plans were compared. *)
Definition rehearse_run : R Receipt :=
  lift (require ((pl_start p <=? base) && (base <=? 2 ^ 53)) "operation_time") ;*
  let* rows := on_site records in
  let* calls := gets (λ r, pv_calls (rn_provider r)) in
  lift (require (match rows, calls with [], [] => true | _, _ => false end) "run_already_attempted") ;*
  on_site (start_once fate token) ;*
  rehearsal ;*
  let* rows := on_site records in
  let* r := Prelude.get in
  ret (receipt r rows).
End Rehearse.

(** [rehearse_composition(plan, journal, provider, now_ms=..., stop_requested=...)]:
    the plan is also the provider's, and the journal's own copy is beside it. *)
Definition rehearse_composition (fate : nat → commit_io) (token : string) (plan journal_plan provider_plan : json) (faults : list (string * string))
    (tick_ms : Z) (now_ms : option Z) (stop_requested : bool) : M (Site * Provider) Receipt := λ sv,
  match (let? p := validate_composition_plan plan in
         let? same_journal := same_text plan journal_plan in
         let? same_provider := same_text plan provider_plan in
         require (same_journal && same_provider) "plan_identity_mismatch" ;? Ok p) with
  | Err e => (Err e, sv)
  | Ok p =>
      let (c, r) := rehearse_run fate token p faults tick_ms (default (pl_start p) now_ms) stop_requested (new_run p (fst sv) (snd sv)) in
      (c, (rn_site r, rn_provider r))
  end.
End Composition.
