(* ===== verification/CompositionJournal.v ===== *)
(** The journal of the composition rehearsal: over any history of sessions on one
    journal file, each with its own failures of commits and ends of the process, no
    operation is dispatched twice, and every dispatch has a durable marker. *)
From S2P Require Import Prelude Json JsonParse JsonRoundTrip Oracle Evidence Delta OfflineJournal Restoration Composition Triples.

(** ** The journal *)

Section Journal.
Context (fate : nat → commit_io) (token : string) (operations : list string) (cap : nat).

Definition names (d : LDb) : list string := map fst (ld_attempts d).
Definition durable_names (s : Site) : list string := names (cn_durable (si_conn s)).
Definition rows (s : Site) : list (string * string) := ld_attempts (visible (si_conn s)).
Definition covered (s : Site) : Prop := durable_names s ⊆ names (visible (si_conn s)).

Definition resolve (operation disposition : string) : list (string * string) → list (string * string) :=
  map (λ row, if is_pending operation row then (operation, disposition) else row).
Lemma resolve_names operation disposition l : map fst (resolve operation disposition l) = map fst l.
Proof.
  unfold resolve. induction l as [|row l IH]; cbn; [done|]. rewrite IH. f_equal. unfold is_pending. by destruct (bool_decide_reflect (row = (operation, "pending"))) as [->|].
Qed.

Local Ltac step_cases := repeat match goal with
  | |- context [match require ?b ?l with Ok _ => _ | Err _ => _ end] => destruct (require b l) eqn:?; cbn [fst snd si_conn cn_durable cn_open visible]
  | |- context [if ?b then _ else _] => destruct b eqn:?; cbn
  | |- context [match fate ?n with _ => _ end] => destruct (fate n); cbn
  end.
(** A marker that is written is new, and durable before anything else happens. *)
Lemma latch_spec operation s : covered s → match latch fate token operations cap operation s with
  | (Ok _, s') => operation ∉ names (visible (si_conn s)) ∧ rows s' = rows s ++ [(operation, "pending")] ∧ operation ∈ durable_names s'
                  ∧ durable_names s ⊆ durable_names s' ∧ covered s'
  | (Err _, s') => durable_names s ⊆ durable_names s' ∧ covered s'
  end.
Proof.
  unfold covered, durable_names, rows, latch, assert_owner, records, insert_once, on_conn, write, commit, rollback, insert_pending, integrity_error, select, gets, Prelude.get,
    bind, try, lift, raise. intros Hc. step_cases; cbn in *; subst; try (split; [done|done]); unfold names in *; rewrite ?map_app; cbn [map fst].
  - match goal with H : str_in _ _ = false |- _ => apply bool_decide_eq_false in H end. split_and!; try done; set_solver.
  - set_solver.
  - set_solver.
Qed.
(** A disposition keeps every marker. *)
Lemma finish_spec operation disposition s : covered s → match finish fate token operation disposition s with
  | (r, s') => durable_names s ⊆ durable_names s' ∧ covered s' ∧ (rows s' = rows s ∨ rows s' = resolve operation disposition (rows s))
      ∧ (r = Ok tt → rows s' = resolve operation disposition (rows s))
  end.
Proof.
  unfold covered, durable_names, rows, finish, assert_owner, records, on_conn, write, commit, select, gets, modify, Prelude.get, bind, lift. intros Hc.
  step_cases; cbn in *; subst; unfold names in *; cbn [ld_attempts]; fold (resolve operation disposition); rewrite ?resolve_names; split_and!; auto; done.
Qed.
Lemma start_spec s : covered s → let (_, s') := start_once fate token s in durable_names s ⊆ durable_names s' ∧ covered s'.
Proof.
  unfold covered, durable_names, start_once, assert_owner, insert_once, on_conn, write, commit, rollback, insert_started, integrity_error, Prelude.get, bind, try, lift, raise.
  intros Hc. step_cases; cbn in *; subst; unfold names in *; cbn [ld_attempts]; done.
Qed.
Lemma open_spec digest s : let (_, s') := journal_open fate token digest s in durable_names s ⊆ durable_names s' ∧ (covered s → covered s').
Proof.
  unfold covered, durable_names, journal_open, open_tables, on_conn, write, commit, modify, select, gets, bind, lift, close_site, release_marker.
  destruct (si_marker s); [done|]. cbn. step_cases; done.
Qed.
Lemma opened_covered digest s s' : journal_open fate token digest s = (Ok tt, s') → covered s'.
Proof.
  unfold covered, durable_names, journal_open, open_tables, on_conn, write, commit, modify, select, gets, bind, lift.
  destruct (si_marker s); [done|]. cbn. step_cases; by intros [= <-].
Qed.
End Journal.

(** ** The rehearsal *)

Section Rehearsal.
Context (sha256 : string → string) (integral : string → option Z).
Context (fate : nat → commit_io) (token : string) (p : Plan) (faults : list (string * string)) (tick_ms base : Z) (stop_requested : bool).
(** The operations dispatched before this run. *)
Context (earlier : list string).

(** No dispatch twice, and a durable marker of each. *)
Definition journaled (calls : list string) (s : Site) : Prop := NoDup calls ∧ calls ⊆ durable_names s ∧ covered s.
Definition held (r : Run) : Prop := journaled (earlier ++ pv_calls (rn_provider r)) (rn_site r).
(** [operation] has its marker and is not dispatched yet. *)
Definition marked (operation : string) (r : Run) : Prop :=
  held r ∧ operation ∈ durable_names (rn_site r) ∧ operation ∉ earlier ++ pv_calls (rn_provider r).
Definition keeps {A} (m : M Run A) : Prop := triple held m (λ _, held) held.

Lemma keeps_held_bind {A B} (m : M Run A) (f : A → M Run B) : keeps m → (∀ x, keeps (f x)) → keeps (bind m f).
Proof. intros Hm Hf. by eapply triple_bind. Qed.
Lemma keeps_held_ret {A} (x : A) : keeps (ret x).
Proof. by apply triple_ret. Qed.
Lemma keeps_gets {A} (f : Run → A) : keeps (gets f).
Proof. by apply triple_gets. Qed.
Lemma keeps_if {A} (b : bool) (m n : M Run A) : keeps m → keeps n → keeps (if b then m else n).
Proof. by destruct b. Qed.
Lemma keeps_held_lift {A} (x : res A) : keeps (lift x).
Proof. by apply triple_lift. Qed.
Lemma keeps_local f : (∀ r, rn_site (f r) = rn_site r ∧ rn_provider (f r) = rn_provider r) → keeps (modify f).
Proof. intros H. apply triple_modify. intros r Hr. unfold held in *. by destruct (H r) as [-> ->]. Qed.
Lemma keeps_site {A} (m : M Site A) :
  (∀ s, covered s → let (_, s') := m s in durable_names s ⊆ durable_names s' ∧ covered s') → keeps (on_site m).
Proof.
  intros H r (Hn & Hd & Hc). specialize (H _ Hc). unfold on_site. destruct (m (rn_site r)) as [x s']. destruct H as [H1 H2].
  assert (journaled (earlier ++ pv_calls (rn_provider r)) s') by (split_and!; [done|set_solver|done]). by destruct x.
Qed.
Lemma records_spec s : covered s → let (_, s') := records s in durable_names s ⊆ durable_names s' ∧ covered s'.
Proof. intros H. unfold records, bind, Prelude.get, raise, on_conn, select, gets. destruct (si_closed s); done. Qed.
Lemma marked_latch operation : triple held (on_site (latch fate token plan_operations operation_cap operation)) (λ _, marked operation) held.
Proof.
  intros r (Hn & Hd & Hc). pose proof (latch_spec fate token plan_operations operation_cap operation _ Hc) as H. unfold on_site.
  destruct (latch _ _ _ _ _ _) as [[[]|e] s'].
  - destruct H as (Hnew & _ & Hin & Hsub & Hc'). unfold marked, held, journaled. cbn. split_and!; try done; [set_solver|]. unfold covered in Hc. set_solver.
  - destruct H as [Hsub Hc']. unfold held, journaled. cbn. split_and!; [done|set_solver|done].
Qed.
Lemma call_counts operation request v : let (_, v') := provider_call sha256 integral p faults tick_ms operation request v in
  pv_calls v' = pv_calls v ∨ pv_calls v' = pv_calls v ++ [operation].
Proof. unfold provider_call. destruct (negb _); [by left|]. cbn zeta. repeat case_match; simplify_eq/=; by right. Qed.
Lemma marked_perform operation request :
  triple (marked operation) (on_provider (provider_call sha256 integral p faults tick_ms operation request)) (λ _, held) held.
Proof.
  intros r ((Hn & Hd & Hc) & Hin & Hnew). pose proof (call_counts operation request (rn_provider r)) as H. unfold on_provider.
  destruct (provider_call _ _ _ _ _ _ _ _) as [x v]. enough (journaled (earlier ++ pv_calls v) (rn_site r)) by (by destruct x).
  destruct H as [->| ->]; [done|]. rewrite app_assoc. split_and!; [|set_solver|done]. apply NoDup_app. split; [done|]. split; [set_solver|apply NoDup_singleton].
Qed.
Lemma keeps_finish operation disposition : keeps (on_site (finish fate token operation disposition)).
Proof. apply keeps_site. intros s Hs. pose proof (finish_spec fate token operation disposition _ Hs) as H. destruct (finish _ _ _ _ _) as [r s']. naive_solver. Qed.

Local Ltac keep := repeat match goal with
  | |- keeps (bind _ _) => apply keeps_held_bind; [|intros ?; cbv beta]
  | |- keeps (ret _) => apply keeps_held_ret
  | |- keeps (gets _) => apply keeps_gets
  | |- keeps Prelude.get => apply keeps_gets
  | |- keeps (lift _) => apply keeps_held_lift
  | |- keeps (modify _) => apply keeps_local; done
  | |- keeps (on_site (finish _ _ _ _)) => apply keeps_finish
  | |- keeps (match ?x with _ => _ end) => destruct x
  | |- _ => progress unfold now, outer_expired, because, set_cleanup, set_applied, set_initialized, set_uploaded, add_created, add_absent, expect
  end.

Local Ltac as_keeps := match goal with |- triple held ?m _ held => change (keeps m) end.

Lemma keeps_reconcile name : keeps (reconcile_read sha256 integral fate token p faults tick_ms base name).
Proof.
  unfold reconcile_read. apply keeps_held_bind; [keep|intros expired; cbv beta]. apply keeps_if; [keep|]. unfold keeps. eapply triple_bind; [apply marked_latch|intros ?; cbv beta]. eapply triple_bind; [|intros ?; apply keeps_held_ret].
  eapply triple_try; [|intros e; apply keeps_held_ret]. eapply triple_bind; [apply marked_perform|intros o; cbv beta]. as_keeps. keep.
Qed.
Lemma keeps_ambiguous : keeps (ambiguous sha256 integral fate token p faults tick_ms base).
Proof. unfold ambiguous. keep; try apply keeps_reconcile; keep. Qed.
Lemma keeps_call operation request : keeps (call sha256 integral fate token p faults tick_ms base operation request).
Proof.
  unfold call. apply keeps_held_bind; [keep|intros halted; cbv beta]. apply keeps_if; [keep|]. apply keeps_held_bind; [keep|intros expired; cbv beta].
  apply keeps_if; [keep|]. unfold keeps. eapply triple_bind; [apply marked_latch|intros ?; cbv beta].
  eapply triple_bind; [eapply triple_try; [apply marked_perform|intros e; apply keeps_held_ret]|intros o; cbv beta]. destruct o; try apply keeps_ambiguous; as_keeps.
  - keep.
  - apply keeps_if; [keep|apply keeps_ambiguous].
Qed.
Local Ltac kept := unfold called, observed, and_open, work_open; repeat (keep; try apply keeps_call).
Lemma keeps_called operation request : keeps (called sha256 integral fate token p faults tick_ms base operation request).
Proof. kept. Qed.
Lemma keeps_observed operation : keeps (observed sha256 integral fate token p faults tick_ms base operation).
Proof. kept. Qed.
Lemma keeps_create numbers : keeps (create_all sha256 integral fate token p faults tick_ms base stop_requested numbers).
Proof. induction numbers as [|n numbers IH]; cbn [create_all]; kept. apply IH. Qed.
Lemma keeps_delete numbers : keeps (delete_all sha256 integral fate token p faults tick_ms base numbers).
Proof. induction numbers as [|n numbers IH]; cbn [delete_all]; kept. apply IH. Qed.
Lemma keeps_attempt : keeps (attempt sha256 integral fate token p faults tick_ms base stop_requested).
Proof.
  unfold attempt, initialize, upload, apply_temporary, clean_up, disable, restore. keep; try apply keeps_create; try apply keeps_delete; kept. 
Qed.
Lemma keeps_rehearsal : keeps (rehearsal sha256 integral fate token p faults tick_ms base stop_requested).
Proof. unfold rehearsal. kept; apply keeps_attempt. Qed.
Lemma keeps_run : keeps (rehearse_run sha256 integral fate token p faults tick_ms base stop_requested).
Proof.
  unfold rehearse_run. keep; try apply keeps_rehearsal; try (apply keeps_site; apply records_spec); try (apply keeps_site; apply start_spec).
Qed.
End Rehearsal.

(** ** Sessions *)

(** One session: the commits and the token of its journal, the plan of the journal and
    of the provider, the arguments of the rehearsal, whether someone removed a stale
    marker before it, and whether it closes its journal or the process ends. *)
Record Session := mkSession {
  ss_fate : nat → commit_io; ss_token : string; ss_plan : json; ss_journal_plan : json; ss_provider_plan : json;
  ss_faults : list (string * string); ss_tick : Z; ss_now : option Z; ss_stop : bool; ss_cleared : bool; ss_closes : bool }.

Section Sessions.
Context (sha256 : string → string) (integral : string → option Z).

(** What a session leaves of the journal, and what it dispatched. *)
Definition session (x : Session) (s : Site) : Site * list string :=
  let s := if ss_cleared x then mkSite None (si_conn s) (si_closed s) else s in
  match journal_open (ss_fate x) (ss_token x) (text_digest sha256 (ss_journal_plan x)) s with
  | (Err _, s) => (s, [])
  | (Ok _, s) =>
      match validate_composition_plan sha256 integral (ss_provider_plan x) with
      | Err _ => (s, [])
      | Ok p =>
          let '(_, (s, v)) := rehearse_composition sha256 integral (ss_fate x) (ss_token x) (ss_plan x) (ss_journal_plan x) (ss_provider_plan x)
            (ss_faults x) (ss_tick x) (ss_now x) (ss_stop x) (s, new_provider p) in
          (if ss_closes x then snd (journal_close (ss_token x) s) else mkSite (si_marker s) (close_connection (si_conn s)) (si_closed s), pv_calls v)
      end
  end.
Fixpoint history (sessions : list Session) (s : Site) : Site * list string :=
  match sessions with
  | [] => (s, [])
  | x :: rest => let (s, calls) := session x s in let (s, later) := history rest s in (s, calls ++ later)
  end.

Lemma session_spec x s earlier : journaled earlier s → let (s', calls) := session x s in journaled (earlier ++ calls) s'.
Proof.
  intros (Hn & Hd & Hc). unfold session. set (s0 := if ss_cleared x then _ else s).
  assert (durable_names s0 = durable_names s ∧ covered s0) as [Hd0 Hc0] by (unfold s0; by destruct (ss_cleared x)).
  pose proof (open_spec (ss_fate x) (ss_token x) (text_digest sha256 (ss_journal_plan x)) s0) as Ho.
  destruct (journal_open _ _ _ s0) as [r1 s1]. destruct Ho as [Hsub Hcov]. specialize (Hcov Hc0).
  assert (J1 : journaled earlier s1) by (split_and!; [done|rewrite Hd0 in Hsub; set_solver|done]).
  assert (J2 : ∀ s2 s3, si_conn s2 = close_connection (si_conn s3) → ∀ calls, journaled calls s3 → journaled calls s2).
  { intros s2 s3 E calls (H1 & H2 & _). unfold journaled, covered, durable_names in *. rewrite E. by split_and!. }
  destruct r1; [|by rewrite app_nil_r]. destruct (validate_composition_plan _ _ (ss_provider_plan x)) as [p'|]; [|by rewrite app_nil_r].
  unfold rehearse_composition. cbv zeta.
  match goal with |- context [match ?g with Ok _ => _ | Err _ => _ end] => destruct g as [p|e] end.
  - cbn [fst snd].
    match goal with |- context [rehearse_run ?a ?b ?c ?d ?e ?f ?g ?h ?i ?j] =>
      assert (held earlier j) as Hj by (unfold held; cbn; by rewrite app_nil_r); pose proof (keeps_run a b c d e f g h i earlier j Hj) as Hk;
      destruct (rehearse_run a b c d e f g h i j) as [c' r] end.
    assert (Hr : held earlier r) by (by destruct c').
    destruct (ss_closes x); [|by eapply J2]. cbn. destruct (si_closed (rn_site r)) eqn:?; [done|]. eapply (J2 _ (rn_site r)); [|done]. done.
  - cbn. rewrite app_nil_r. destruct (ss_closes x); [|by eapply J2]. cbn. destruct (si_closed s1); [done|]. eapply (J2 _ s1); [|done]. done.
Qed.
Lemma history_spec sessions : ∀ s earlier, journaled earlier s → let (s', calls) := history sessions s in journaled (earlier ++ calls) s'.
Proof.
  induction sessions as [|x rest IH]; intros s earlier Hs; cbn [history]; [by rewrite app_nil_r|]. pose proof (session_spec x s earlier Hs) as Hx.
  destruct (session x s) as [s1 calls]. specialize (IH s1 _ Hx). destruct (history rest s1) as [s2 later]. by rewrite app_assoc.
Qed.

Definition new_file : Site := mkSite None (mkConn empty_ldb None 0) false.

(** C14: Over any history of sessions on one journal file, whatever their plans, faults and
    commits and wherever their processes end, no operation is dispatched twice and
    each dispatched operation has a durable marker. *)
Theorem composition_no_replay sessions :
  let (s, calls) := history sessions new_file in NoDup calls ∧ ∀ operation, operation ∈ calls → operation ∈ durable_names s.
Proof.
  assert (journaled [] new_file) as H0 by (split; [apply NoDup_nil_2|split; [set_solver|intros x Hx; exact Hx]]). pose proof (history_spec sessions new_file [] H0) as H.
  destruct (history sessions new_file) as [s calls]. destruct H as (Hn & Hd & _). split; [done|]. intros operation Ho. by apply Hd.
Qed.
End Sessions.
