(* ===== verification/CompositionFacts.v ===== *)
(** The rehearsal and the provider's resources: a receipt accounts for everything that
    the provider still owns, and a confirmed one leaves the retained baseline and
    nothing else. *)
From S2P Require Import Prelude Json JsonParse JsonRoundTrip Oracle Evidence Documents Delta DeltaFacts OfflineJournal Restoration Composition Triples CompositionJournal.

(** ** Plans *)

(** What an accepted plan is made of. *)
Record plan_ok (p : Plan) : Prop := {
  po_three : length (pl_resources p) = 3%nat;
  po_baseline : regular (pl_baseline p);
  po_temporary : regular (pl_temporary p);
  po_resources : Forall regular (pl_resources p);
  po_receiver : regular (pl_receiver p);
  po_artifact : pl_receiver p ≠ JNull;
  po_version : regular (pl_version p);
  po_restore : regular (pl_restore p);
  po_production : ∃ b t u v, pl_baseline p = JObj b ∧ pl_temporary p = JObj t ∧ dict_get "productionState" b = Some u
    ∧ dict_get "productionState" t = Some v ∧ canon u = canon v;
  po_texts : Forall (λ x, ∃ s, member "identity" x = JStr s) (pl_resources p);
  po_identities : NoDup (texts_of "identity" (pl_resources p)) }.

Lemma shape_error_ok {A} label (r : res A) x : shape_error label r = Ok x → r = Ok x.
Proof. destruct r as [|[]]; cbn; try done. by case_match. Qed.
Lemma item_of_ok k value v : item_of k value = Ok v → ∃ d, value = JObj d ∧ dict_get k d = Some v.
Proof. destruct value as [| | | | | |d]; try done. unfold item_of, at_key. intros H. exists d. by destruct (dict_get k d); simplify_eq. Qed.
Lemma distinct_get k d v : distinct (JObj d) → dict_get k d = Some v → distinct v.
Proof. rewrite distinct_obj, Forall_forall. intros [_ H] Hk%dict_get_in. exact (H _ Hk). Qed.

Lemma validate_plan_ok sha256 integral plan p : distinct plan → validate_composition_plan sha256 integral plan = Ok p → plan_ok p.
Proof.
  intros Hdis H. apply shape_error_ok in H. apply rbind_ok in H as (delta & (pd & -> & Hd)%item_of_ok & H). apply (distinct_get _ _ _ Hdis) in Hd.
  apply rbind_ok in H as (start & _ & H). apply rbind_ok in H as (expected & Hb & H). apply rbind_ok in H as (same & _ & H).
  apply rbind_ok in H as ([] & _ & H). apply rbind_ok in H as (run & _ & [= <-]).
  apply rbind_ok in Hb as ([] & Hb & _).
  apply delta_canon in Hb as (d & b & config & a & bs & rs & h1 & h2 & -> & R & Hbase & Ea & Hproper & Rt & Hcanon); [|done].
  apply baseline_ok in Hbase as (Eb & _ & Hbk & _). pose proof (regular_field "additions" _ R) as Ra. rewrite Ea in Ra.
  pose proof (regular_field "resources" _ Ra) as Rr. pose proof (pa_resources _ _ _ _ _ Hproper) as Er. rewrite Er in Rr. apply regular_arr in Rr.
  unfold plan_parts. rewrite Ea, Er. constructor; cbn; try done; try by apply regular_field.
  - pose proof (pa_kinds _ _ _ _ _ Hproper) as Hk. by rewrite <- (length_map (λ x, text_of (member "kind" x)) rs), Hk.
  - by destruct (pa_receiver _ _ _ _ _ Hproper) as [r ->].
  - destruct (same_keys_get _ _ "productionState" Hbk) as [u Hu]; [set_solver|]. pose proof (Hcanon "temporary") as Ht.
    pose proof (regular_field "temporary" _ R) as Rf. destruct (field "temporary" d) as [| | | | | |t]; try done. pose proof (canon_get "productionState" _ _ Rf Rt Ht) as Hv.
    rewrite !dict_get_set_other, Hu in Hv by done. destruct (dict_get "productionState" t) as [v|] eqn:Et; [|done]. injection Hv as Hv.
    by exists b, t, u, v.
  - apply (pa_texts _ _ _ _ _ Hproper).
  - apply (pa_identities _ _ _ _ _ Hproper).
Qed.

(** ** The provider *)

Lemma member_canon k x y s : regular x → regular y → canon x = canon y → member k y = JStr s → member k x = JStr s.
Proof.
  destruct y as [| | | | | |e]; try done. destruct x as [| | | | | |d]; try done. cbn [member]. unfold got. intros Hx Hy E Hk.
  pose proof (canon_get k _ _ Hx Hy E) as H. destruct (dict_get k e) as [v|]; [|done]. cbn in Hk. subst v. destruct (dict_get k d) as [w|]; [|done].
  injection H as H. by apply canon_str in H.
Qed.

Section Provider.
Context (sha256 : string → string) (integral : string → option Z) (p : Plan) (Hp : plan_ok p) (faults : list (string * string)) (tick_ms : Z).
Notation resource n := (nth n (pl_resources p) JNull).
Notation perform := (provider_call sha256 integral p faults tick_ms).

(** The provider owns the resources of these numbers, up to drift. *)
Definition owns (idx : list nat) (s : State) : Prop :=
  NoDup idx ∧ Forall (λ n, (n < 3)%nat) idx ∧ Forall2 (λ n x, regular x ∧ member "identity" x = member "identity" (resource n)) idx (st_owned s).

Lemma resource_named n : (n < 3)%nat → ∃ s, texts_of "identity" (pl_resources p) !! n = Some s ∧ member "identity" (resource n) = JStr s ∧ regular (resource n).
Proof.
  intros Hn. destruct (lookup_lt_is_Some_2 (pl_resources p) n) as [x Hx]; [by rewrite (po_three _ Hp)|].
  rewrite (nth_lookup_Some _ _ JNull _ Hx). pose proof (proj1 (Forall_lookup _ _) (po_texts _ Hp) _ _ Hx) as [s Hs].
  exists s. split_and!; [|done|by apply (proj1 (Forall_lookup _ _) (po_resources _ Hp) _ _ Hx)]. etrans; [apply (list_lookup_fmap (λ x, text_of (member "identity" x)))|]. rewrite Hx. cbn [fmap option_fmap option_map]. by rewrite Hs.
Qed.
Lemma resource_apart n m : (n < 3)%nat → (m < 3)%nat → member "identity" (resource n) = member "identity" (resource m) → n = m.
Proof.
  intros Hn Hm E. destruct (resource_named n Hn) as (s & Hs & Ns & _), (resource_named m Hm) as (t & Ht & Nt & _).
  eapply (NoDup_lookup _ _ _ s); [apply (po_identities _ Hp)|done|]. by rewrite Ns, Nt in E; simplify_eq.
Qed.

Lemma last_split {A} (l : list A) x : last_of l = Some x → l = removelast l ++ [x].
Proof.
  unfold last_of. intros H. destruct (rev l) as [|y t] eqn:E; [done|]. injection H as ->. apply (f_equal (@rev A)) in E. rewrite rev_involutive in E. cbn in E.
  by rewrite E, removelast_last.
Qed.
Lemma set_member_regular k v x : regular x → regular v → regular (set_member k v x).
Proof. destruct x; try done. cbn [set_member]. apply regular_set. Qed.
Lemma set_member_other k k' v x : k ≠ k' → member k (set_member k' v x) = member k x.
Proof. destruct x; try done. intros Hk. cbn [set_member member]. unfold got. by rewrite dict_get_set_other. Qed.

(** Drift changes no identity, and no ownership but the last resource's run. *)
Lemma drift_owns fault s s' idx : owns idx s → drift fault s = Ok s' → owns idx s'.
Proof.
  intros (Hn & Hl & Ho). unfold drift. intros H. repeat case_match; inv_check; try done.
  unfold owns. cbn. split_and!; [done|done|].
  match goal with H : last_of _ = Some _ |- _ => apply last_split in H as Hs; rewrite Hs in Ho end.
  apply Forall2_app_inv_r in Ho as (i1 & i2 & Hfst & (n & i3 & [Hr Hid] & Hi & ->)%Forall2_cons_inv_r & ->). apply Forall2_nil_inv_r in Hi as ->.
  apply Forall2_app; [done|]. apply Forall2_cons. split; [|constructor]. split; [by apply set_member_regular|by rewrite set_member_other].
Qed.
Lemma existsb_false {A} (f : A → bool) l x : existsb f l = false → x ∈ l → f x = false.
Proof. intros H Hx%list_elem_of_In. apply not_true_iff_false. intros Hf. apply not_true_iff_false in H. apply H, existsb_exists. eauto. Qed.
Local Ltac guarded H Hg := match type of H with (if ?g then _ else _) = _ => destruct g eqn:Hg; [done|] end.
(** What an operation does to the numbers that are owned. *)
Lemma act_owns operation request s s' idx : owns idx s → act sha256 integral p operation request s = Some s' →
  match kind_of operation with
  | OCreate n => (n < 3)%nat → owns (idx ++ [n]) s'
  | ODelete n => (n < 3)%nat → request = resource n → ∃ rest, idx = rest ++ [n] ∧ owns rest s'
  | _ => owns idx s'
  end.
Proof.
  intros (Hn & Hl & Ho). unfold act. destruct (kind_of operation) as [n| | | | | |n|] eqn:Hk; intros H;
    try (match type of H with (if ?g then _ else _) = _ => destruct g; try done end; by injection H as <-).
  - intros Hlt. guarded H Hg. injection H as <-. apply orb_false_iff in Hg as [_ Hg].
    assert (n ∉ idx) as Hnew.
    { intros [i Hi]%list_elem_of_lookup. destruct (Forall2_lookup_l _ _ _ _ _ Ho Hi) as (x & Hx & _ & Hid). apply list_elem_of_lookup_2 in Hx.
      apply (existsb_false _ _ _ Hg) in Hx. rewrite Hid in Hx. destruct (resource_named n Hlt) as (t & _ & -> & _) in Hx. cbn in Hx. by apply bool_decide_eq_false in Hx. }
    split_and!.
    + apply NoDup_app. split; [done|]. split; [set_solver|apply NoDup_singleton].
    + apply Forall_app. split; [done|]. by apply Forall_singleton.
    + destruct (resource_named n Hlt) as (t & _ & _ & Hr). destruct (Nat.eqb n 2); cbn [st_owned with_receiver with_owned id]; apply Forall2_app; try done; by repeat constructor.
  - intros Hlt ->. guarded H Hg. injection H as <-. inv_bool. destruct (last_of (st_owned s)) as [item|] eqn:El; [|done].
    apply last_split in El. rewrite El in Ho. apply Forall2_app_inv_r in Ho as (rest & i2 & Hrest & (m & i3 & [Hr Hid] & Hi & ->)%Forall2_cons_inv_r & ->).
    apply Forall2_nil_inv_r in Hi as ->. apply Forall_app in Hl as [Hl [Hm _]%Forall_cons].
    match goal with H : bool_decide (dumps _ = _) = true |- _ => apply bool_decide_eq_true in H; rename H into Ht end.
    destruct (resource_named n Hlt) as (t & _ & Nt & Rn). apply text_canon in Ht; [|done..].
    assert (m = n) as -> by (apply resource_apart; [done..|]; rewrite <- Hid, Nt; by apply (member_canon _ item (resource n))).
    exists rest. split; [done|]. apply NoDup_app in Hn as (Hn & _).
    assert (owns rest (with_owned (removelast (st_owned s)) s)) by (unfold owns; cbn; by split_and!). destruct (n =? 2)%nat; [done|]. by destruct (n =? 1)%nat.
Qed.

(** A dispatch of [operation] may add the numbers of [new], and removes those of
    [gone] when it is accepted. *)
Definition moves (operation : string) (request : json) (new gone : nat → Prop) : Prop :=
  match kind_of operation with
  | OCreate n => (n < 3)%nat ∧ new = (λ m, m = n) ∧ gone = (λ _, False)
  | ODelete n => (n < 3)%nat ∧ request = resource n ∧ new = (λ _, False) ∧ gone = (λ m, m = n)
  | _ => new = (λ _, False) ∧ gone = (λ _, False)
  end.
Lemma perform_owns operation request new gone v idx : moves operation request new gone → owns idx (pv_state v) →
  match perform operation request v with
  | (r, v') => (pv_elapsed v' = pv_elapsed v ∨ pv_elapsed v' = pv_elapsed v + tick_ms)
      ∧ ((∃ state, r = Ok (RAccepted state)) → pv_elapsed v' = pv_elapsed v + tick_ms)
      ∧ ∃ idx', owns idx' (pv_state v') ∧ (∀ m, m ∈ idx' → m ∈ idx ∨ new m) ∧ (r = Ok RRefused → idx' = idx)
          ∧ ((∃ state, r = Ok (RAccepted state)) → ∀ m, m ∈ idx' → ¬ gone m)
  end.
Proof.
  intros Hm Ho. unfold provider_call. destruct (negb _); [split_and!; [by left|by intros [? ?]|exists idx; naive_solver]|]. cbn zeta.
  case_bool_decide; [cbn; split_and!; [by right|done|exists idx; naive_solver]|].
  destruct (act _ _ _ _ _ _) as [s|] eqn:Ha; [|cbn; split_and!; [by right|done|exists idx; naive_solver]].
  assert (∃ idx', owns idx' s ∧ (∀ m, m ∈ idx' → m ∈ idx ∨ new m) ∧ (∀ m, m ∈ idx' → ¬ gone m)) as (idx' & Ho' & Hnew & Hgone).
  { apply (act_owns _ _ _ _ idx Ho) in Ha. unfold moves in Hm. destruct (kind_of operation) as [n| | | | | |n|].
    2-6,8: destruct Hm as [-> ->]; exists idx; naive_solver.
    - destruct Hm as (Hlt & -> & ->). exists (idx ++ [n]). split_and!; [by apply Ha|set_solver|naive_solver].
    - destruct Hm as (Hlt & -> & -> & ->). destruct (Ha Hlt eq_refl) as (rest & -> & Hrest). exists rest. split_and!; [done|set_solver|].
      intros m Hin ->. destruct Ho as (Hn & _). apply NoDup_app in Hn as (_ & Hn & _). by apply (Hn n), list_elem_of_singleton. }
  destruct (drift _ s) as [s'|e] eqn:Hd; [|cbn; split_and!; [by right|by intros [? ?]|exists idx'; naive_solver]].
  pose proof (drift_owns _ _ _ _ Ho' Hd) as Hs'. repeat case_bool_decide; cbn; (split_and!; [by right|done|exists idx'; naive_solver]).
Qed.

(** ** The run *)

Context (fate : nat → commit_io) (token : string) (base : Z) (stop_requested : bool) (Htick : 0 ≤ tick_ms) (Hbase : pl_start p ≤ base).
Notation latch := (latch fate token plan_operations operation_cap).
Notation finish := (finish fate token).
Notation call := (call sha256 integral fate token p faults tick_ms base).
Notation observed := (observed sha256 integral fate token p faults tick_ms base).

Definition create (n : nat) : string := numbered "create_resource_" n.
Definition pending (n : nat) (s : Site) : Prop := (create n, "pending") ∈ rows s.

(** Every number that the provider owns satisfies [Q], or its creation is pending (and
    is not [except]). *)
Definition holds (except : option string) (Q : nat → Prop) (r : Run) : Prop :=
  ∃ idx, owns idx (pv_state (rn_provider r)) ∧ ∀ m, m ∈ idx → Q m ∨ (pending m (rn_site r) ∧ except ≠ Some (create m)).
Definition shape (c a : list nat) (lo : Z) (r : Run) : Prop :=
  covered (rn_site r) ∧ rn_created r = c ∧ rn_absent r = a ∧ lo ≤ pv_elapsed (rn_provider r).
Definition inv (Q : nat → Prop) (c a : list nat) (lo : Z) (r : Run) : Prop := shape c a lo r ∧ holds None Q r.

Lemma rows_kept operation disposition s s' : rows s' = rows s ∨ rows s' = resolve operation disposition (rows s) →
  ∀ m, pending m s → operation ≠ create m → pending m s'.
Proof.
  unfold pending. intros [-> | ->] m Hm Hne; [done|]. unfold resolve. apply list_elem_of_fmap. exists (create m, "pending"). split; [|done].
  unfold is_pending. by rewrite bool_decide_false by congruence.
Qed.
Lemma latch_holds operation Q c a lo X : 
  triple (λ r, inv Q c a lo r ∧ X (rn_provider r)) (on_site (latch operation))
    (λ _ r, shape c a lo r ∧ holds (Some operation) Q r ∧ (operation, "pending") ∈ rows (rn_site r) ∧ X (rn_provider r)) (λ _, True).
Proof.
  intros r (((Hc & ? & ? & ?) & idx & Ho & Hi) & HX). pose proof (latch_spec fate token plan_operations operation_cap operation _ Hc) as Hspec. unfold on_site.
  destruct (Composition.latch _ _ _ _ _ _) as [[[]|e] s']; [|done]. destruct Hspec as (Hnew & Hrows & _ & _ & Hc'). unfold shape, holds. cbn. split_and!; try done.
  - exists idx. split; [done|]. intros m Hm. destruct (Hi m Hm) as [HQ|[Hpend _]]; [by left|right]. unfold pending in *. rewrite Hrows. split; [set_solver|].
    intros [= ->]. apply Hnew. unfold names. apply list_elem_of_fmap. by exists (create m, "pending").
  - rewrite Hrows. set_solver.
Qed.
Lemma finish_holds operation disposition except Q c a lo : except = Some operation →
  triple (λ r, shape c a lo r ∧ holds except Q r) (on_site (finish operation disposition)) (λ _, inv Q c a lo) (inv Q c a lo).
Proof.
  intros -> r ((Hc & ? & ? & ?) & idx & Ho & Hi). pose proof (finish_spec fate token operation disposition _ Hc) as Hspec. unfold on_site.
  destruct (Composition.finish _ _ _ _ _) as [x s']. destruct Hspec as (_ & Hc' & Hrows & _).
  assert (inv Q c a lo (mkRun s' (rn_provider r) (rn_expected r) (rn_reason r) (rn_halted r) (rn_cleanup r) (rn_applied r) (rn_initialized r)
    (rn_uploaded r) (rn_created r) (rn_absent r))); [|by destruct x].
  split; [done|]. exists idx. split; [done|]. intros m Hm. destruct (Hi m Hm) as [HQ|[Hpend Hne]]; [by left|right]. split; [|done].
  eapply rows_kept; [exact Hrows|done|]. intros ->. by apply Hne.
Qed.

Definition timely (new : nat → Prop) (v : Provider) : Prop := (∃ m, new m) → base + pv_elapsed v < pl_work p ∧ tick_ms ≤ pv_elapsed v.
(** What a reply says of the numbers, before its marker is resolved. *)
Definition replied (operation : string) (new gone Q : nat → Prop) c a lo (X : Provider → Prop) (reply : reply) (r : Run) : Prop :=
  (operation, "pending") ∈ rows (rn_site r) ∧
  match reply with
  | RAccepted _ => shape c a (lo + tick_ms) r ∧ holds (Some operation) (λ m, (Q m ∨ new m) ∧ ¬ gone m) r
                   ∧ ∃ v, X v ∧ pv_elapsed (rn_provider r) = pv_elapsed v + tick_ms
  | RRefused => shape c a lo r ∧ holds (Some operation) Q r
  | _ => inv Q c a lo r
  end.
Lemma perform_holds operation request new gone Q c a lo X :
  moves operation request new gone → (∀ m, new m → operation = create m) →
  triple (λ r, shape c a lo r ∧ holds (Some operation) Q r ∧ (operation, "pending") ∈ rows (rn_site r) ∧ X (rn_provider r))
    (on_provider (perform operation request)) (λ o r, replied operation new gone Q c a lo X o r)
    (λ r, (operation, "pending") ∈ rows (rn_site r) ∧ inv Q c a lo r).
Proof.
  intros Hm Hnew r ((Hc & Hcr & Hab & Hlo) & (idx & Ho & Hi) & Hrow & HX). pose proof (perform_owns operation request new gone (rn_provider r) idx Hm Ho) as H'.
  unfold on_provider. destruct (perform operation request (rn_provider r)) as [x v]. destruct H' as (Hel & Hacc & idx' & Ho' & Hsub & Href & Hgone).
  assert (Hinv : inv Q c a lo (mkRun (rn_site r) v (rn_expected r) (rn_reason r) (rn_halted r) (rn_cleanup r) (rn_applied r) (rn_initialized r)
    (rn_uploaded r) (rn_created r) (rn_absent r))).
  { split; [unfold shape; cbn; split_and!; [done..|lia]|]. exists idx'. split; [done|]. intros m Hin. destruct (Hsub m Hin) as [Hold|Hn].
    - destruct (Hi m Hold) as [?|[? _]]; [by left|by right].
    - right. split; [|done]. unfold pending. cbn. by rewrite <- (Hnew m Hn). }
  destruct x as [o|e]; [|done]. split; [done|]. destruct o; try done.
  - split; [unfold shape; cbn; split_and!; [done..|lia]|]. exists idx. rewrite <- (Href eq_refl). split; [done|]. by rewrite (Href eq_refl).
  - specialize (Hacc ltac:(eauto)). split; [unfold shape; cbn; split_and!; [done..|lia]|]. split; [|by exists (rn_provider r)].
    exists idx'. split; [done|]. intros m Hin. specialize (Hgone ltac:(eauto) m Hin). destruct (Hsub m Hin) as [Hold|Hn]; [|by left; auto].
    destruct (Hi m Hold) as [?|?]; [left; auto|by right].
Qed.

Lemma inv_weaken Q Q' c a lo lo' r : inv Q c a lo r → (∀ m, Q m → Q' m) → lo' ≤ lo → inv Q' c a lo' r.
Proof.
  intros ((? & ? & ? & ?) & idx & Ho & Hi) HQ Hlo. split; [unfold shape; split_and!; [done..|lia]|]. exists idx. split; [done|].
  intros m Hm. destruct (Hi m Hm) as [?|?]; [left; auto|by right].
Qed.
Lemma holds_some except Q r : holds except Q r → holds None Q r.
Proof. intros (idx & Ho & Hi). exists idx. split; [done|]. intros m Hm. destruct (Hi m Hm) as [?|[? _]]; [by left|by right]. Qed.
Lemma inv_local Q c a lo f : (∀ r, rn_site (f r) = rn_site r ∧ rn_provider (f r) = rn_provider r ∧ rn_created (f r) = rn_created r ∧ rn_absent (f r) = rn_absent r) →
  ∀ r, inv Q c a lo r → inv Q c a lo (f r).
Proof. intros Hf r. destruct (Hf r) as (E1 & E2 & E3 & E4). unfold inv, shape, holds. by rewrite E1, E2, E3, E4. Qed.
Lemma triple_because P reason halted : (∀ r r', rn_site r' = rn_site r → rn_provider r' = rn_provider r → rn_created r' = rn_created r → rn_absent r' = rn_absent r →
    P r → P r') → triple P (because reason halted) (λ _, P) (λ _, True).
Proof. intros H. apply triple_modify. intros r. by apply H. Qed.
Lemma inv_ext Q c a lo r r' : rn_site r' = rn_site r → rn_provider r' = rn_provider r → rn_created r' = rn_created r → rn_absent r' = rn_absent r →
  inv Q c a lo r → inv Q c a lo r'.
Proof. intros E1 E2 E3 E4. unfold inv, shape, holds. by rewrite E1, E2, E3, E4. Qed.
Lemma triple_same {A} P (f : Run → A) E : triple P (gets f) (λ _, P) E.
Proof. by apply triple_gets. Qed.

Lemma triple_expired P E : triple P (outer_expired p base) (λ x r, P r ∧ x = (pl_outer p <=? base + pv_elapsed (rn_provider r))) E.
Proof. by intros r Hr. Qed.

Lemma reconcile_holds name Q c a lo : name ∈ RECONCILIATIONS →
  triple (inv Q c a lo) (reconcile_read sha256 integral fate token p faults tick_ms base name) (λ _, inv Q c a lo) (λ _, True).
Proof.
  intros Hname. assert (moves name (JObj []) (λ _, False) (λ _, False)) as Hm by (apply elem_of_cons in Hname as [->|Hname%list_elem_of_singleton]; [|subst]; done).
  assert (∀ m, name ≠ create m) as Hc by (intros m ->; set_solver).
  unfold reconcile_read. eapply triple_bind; [apply triple_expired|intros x; cbv beta].
  destruct x; [apply triple_ret; by intros r [Hr _]|].
  eapply triple_bind; [eapply triple_pre; [|apply (latch_holds name Q c a lo (λ _, True))]; by intros r [Hr _]|intros ?; cbv beta].
  eapply triple_bind with (Q := λ _, inv Q c a lo); [|intros ?; apply triple_ret; by intros r Hr].
  eapply triple_try with (E := inv Q c a lo); [|intros e; apply triple_ret; by intros r Hr].
  eapply triple_bind; [eapply triple_weaken; [by apply (perform_holds name (JObj []) (λ _, False) (λ _, False) Q c a lo (λ _, True))|done|by intros o r Hr|by intros r [_ Hr]]|].
  intros o; cbv beta. destruct o.
  - eapply triple_pre; [|by eapply finish_holds]. by intros r [_ Hr].
  - apply triple_ret. by intros r [_ Hr].
  - apply triple_ret. by intros r [_ Hr].
  - eapply triple_pre; [|by eapply finish_holds]. intros r (_ & (? & ? & ? & ?) & (idx & Ho & Hi) & _). split; [unfold shape; split_and!; [done..|lia]|].
    exists idx. split; [done|]. intros m Hin. destruct (Hi m Hin) as [[[?|[]] _]|?]; [by left|by right].
Qed.
Lemma ambiguous_holds Q c a lo : triple (inv Q c a lo) (ambiguous sha256 integral fate token p faults tick_ms base) (λ o r, o = None ∧ inv Q c a lo r) (λ _, True).
Proof.
  unfold ambiguous. eapply triple_bind; [apply triple_because; intros r r'; apply inv_ext|intros ?; cbv beta].
  eapply triple_bind; [apply reconcile_holds; by left|intros stopped; cbv beta]. eapply triple_bind with (Q := λ _, inv Q c a lo); [|intros ?; by apply triple_ret].
  destruct stopped; [by apply triple_ret|]. eapply triple_bind; [apply reconcile_holds; by right; left|intros ?; by apply triple_ret].
Qed.

Lemma finish_after operation disposition Q c a lo X (P : Run → Prop) :
  (∀ r, P r → (shape c a lo r ∧ holds (Some operation) Q r) ∧ X (rn_provider r)) →
  triple P (on_site (finish operation disposition)) (λ _ r, inv Q c a lo r ∧ X (rn_provider r)) (λ _, True).
Proof.
  intros HP r [Hr HX]%HP. pose proof (finish_holds operation disposition _ Q c a lo eq_refl r Hr) as H. unfold on_site in *.
  destruct (Composition.finish _ _ _ _ _) as [[x|e] s']; [|done]. by split.
Qed.

Hypothesis Hlate : pl_work p + pl_work p ≤ pl_outer p + base.
Lemma call_holds operation request new gone Q c a lo :
  moves operation request new gone → (∀ m, new m → operation = create m) →
  triple (λ r, inv Q c a lo r ∧ timely new (rn_provider r)) (call operation request)
    (λ o, match o with Some _ => inv (λ m, (Q m ∨ new m) ∧ ¬ gone m) c a (lo + tick_ms) | None => inv Q c a lo end) (λ _, True).
Proof.
  intros Hm Hnew. unfold call. eapply triple_bind; [apply triple_same|intros halted; cbv beta]. destruct halted; [apply triple_ret; by intros r [Hr _]|].
  eapply triple_bind; [apply triple_expired|intros x; cbv beta]. destruct x.
  { eapply triple_bind with (Q := λ _, inv Q c a lo); [|intros ?; by apply triple_ret].
    eapply triple_pre; [|apply triple_because; intros r r'; apply inv_ext]. by intros r [[Hr _] _]. }
  eapply triple_bind; [eapply triple_pre; [|apply (latch_holds operation Q c a lo (timely new))]; by intros r [Hr _]|intros ?; cbv beta].
  eapply triple_bind; [eapply triple_try; [by apply perform_holds|intros e; apply triple_ret; by intros r Hr]|intros o; cbv beta].
  assert (Hamb : ∀ P : Run → Prop, (∀ r, P r → inv Q c a lo r) → triple P (ambiguous sha256 integral fate token p faults tick_ms base)
    (λ o, match o with Some _ => inv (λ m, (Q m ∨ new m) ∧ ¬ gone m) c a (lo + tick_ms) | None => inv Q c a lo end) (λ _, True)).
  { intros P HP. eapply triple_weaken; [apply ambiguous_holds|exact HP| |done]. by intros y r [-> Hr]. }
  destruct o as [| | |state].
  - eapply triple_bind; [apply (finish_after operation _ Q c a lo (λ _, True)); by intros r [_ Hr]|intros ?; cbv beta].
    eapply triple_bind with (Q := λ _, inv Q c a lo); [|intros ?; by apply triple_ret].
    eapply triple_pre; [|apply triple_because; intros r r'; apply inv_ext]. by intros r [Hr _].
  - apply Hamb. by intros r [_ Hr].
  - apply Hamb. by intros r [_ Hr].
  - destruct (all_finite state).
    + eapply triple_bind; [apply (finish_after operation _ (λ m, (Q m ∨ new m) ∧ ¬ gone m) c a (lo + tick_ms)
        (λ v, ∃ v0, timely new v0 ∧ pv_elapsed v = pv_elapsed v0 + tick_ms)); by intros r (_ & Hs & Hh & Hx)|intros ?; cbv beta].
      eapply triple_bind; [apply triple_expired|intros x'; cbv beta]. destruct x'; [|apply triple_ret; by intros r [[Hr _] _]].
      eapply triple_bind with (Q := λ _, inv Q c a lo); [|intros ?; by apply triple_ret].
      eapply triple_pre; [|apply triple_because; intros r r'; apply inv_ext]. intros r [[Hr (v0 & Ht & Hv)] He%eq_sym%Z.leb_le].
      apply (inv_weaken _ Q _ _ _ lo r Hr); [|lia]. intros m [[HQ|Hn] _]; [done|]. exfalso. destruct (Ht (ex_intro _ m Hn)). lia.
    + apply Hamb. intros r (Hrow & (? & ? & ? & ?) & (idx & Ho & Hi) & _). split; [unfold shape; split_and!; [done..|lia]|]. exists idx. split; [done|].
      intros m Hin. destruct (Hi m Hin) as [[[?|Hn] _]|[? _]]; [by left| |by right]. right. split; [|done]. unfold pending. by rewrite <- (Hnew m Hn).
Qed.

(** An operation that neither creates nor deletes. *)
Definition plain (operation : string) : Prop := match kind_of operation with OCreate _ | ODelete _ => False | _ => True end.
Lemma plain_call operation request Q c a lo : plain operation →
  triple (inv Q c a lo) (call operation request) (λ o, match o with Some _ => inv Q c a (lo + tick_ms) | None => inv Q c a lo end) (λ _, True).
Proof.
  intros Hpl. eapply triple_weaken; [apply (call_holds operation request (λ _, False) (λ _, False) Q c a lo)| | |done].
  - unfold moves, plain in *. by destruct (kind_of operation).
  - done.
  - intros r Hr. split; [done|]. by intros [? []].
  - intros [state|] r Hr; [|done]. apply (inv_weaken _ _ _ _ _ _ _ Hr); [|lia]. intuition.
Qed.
Lemma called_holds operation request Q Q' c a lo P :
  triple P (call operation request) (λ o, match o with Some _ => inv Q' c a (lo + tick_ms) | None => inv Q c a lo end) (λ _, True) →
  triple P (called sha256 integral fate token p faults tick_ms base operation request) (λ ok : bool, if ok then inv Q' c a (lo + tick_ms) else inv Q c a lo) (λ _, True).
Proof. intros H. unfold called. eapply triple_bind; [exact H|intros o; cbv beta]. apply triple_ret. by destruct o. Qed.
Lemma observed_holds operation Q c a lo : plain operation →
  triple (inv Q c a lo) (observed operation) (λ ok : bool, if ok then inv Q c a (lo + tick_ms) else inv Q c a lo) (λ _, True).
Proof.
  intros Hpl. unfold Composition.observed. eapply triple_bind; [by apply plain_call|intros o; cbv beta]. destruct o as [state|]; [|by apply triple_ret].
  eapply triple_bind; [apply triple_same|intros e; cbv beta]. case_bool_decide; [by apply triple_ret|].
  eapply triple_bind with (Q := λ _, inv Q c a lo); [|intros ?; by apply triple_ret].
  eapply triple_pre; [|apply triple_because; intros r r'; apply inv_ext]. intros r Hr. by apply (inv_weaken _ _ _ _ _ _ _ Hr); [|lia].
Qed.
Lemma open_holds Q c a lo : triple (inv Q c a lo) (work_open p base stop_requested)
  (λ ok r, inv Q c a lo r ∧ (ok = true → base + pv_elapsed (rn_provider r) < pl_work p)) (λ _, True).
Proof.
  unfold work_open, now. eapply triple_bind; [apply triple_same|intros stop; cbv beta]. destruct (stop_requested || stop).
  { eapply triple_bind; [apply triple_because; intros r r'; apply inv_ext|intros ?; by apply triple_ret]. }
  eapply triple_bind with (Q := λ t r, inv Q c a lo r ∧ t = base + pv_elapsed (rn_provider r)); [by apply triple_gets|intros t; cbv beta].
  destruct (Z.leb_spec (pl_work p) t) as [Ht|Ht]; [|apply triple_ret; intros r [Hr ->]; by split].
  eapply triple_bind with (Q := λ _, inv Q c a lo); [|intros ?; by apply triple_ret].
  eapply triple_pre; [|apply triple_because; intros r r'; apply inv_ext]. by intros r [Hr _].
Qed.

(** ** The phases *)

Definition live (c a : list nat) (m : nat) : Prop := m ∈ c ∧ m ∉ a.
(** The numbers that are created and not seen absent account for what is owned. *)
Definition accounted (a : list nat) (r : Run) : Prop := ∃ c, Forall (λ n, (n < 3)%nat) c ∧ inv (live c a) c a tick_ms r.
Lemma inv_plus Q c a lo r : lo = tick_ms ∨ lo = tick_ms + tick_ms → inv Q c a lo r → inv Q c a tick_ms r.
Proof. intros Hlo Hr. apply (inv_weaken _ _ _ _ _ _ _ Hr); [done|lia]. Qed.
Lemma expect_holds Q c a lo f : triple (inv Q c a lo) (expect f) (λ _, inv Q c a lo) (λ _, True).
Proof. apply triple_modify. intros r. by apply inv_ext. Qed.
Lemma create_moves n : (n < 3)%nat → moves (create n) (create_request p n) (λ m, m = n) (λ _, False).
Proof. intros Hn. by destruct n as [|[|[|n]]]; [..|lia]. Qed.
Lemma delete_moves n : (n < 3)%nat → moves (numbered "delete_resource_" n) (resource n) (λ _, False) (λ m, m = n).
Proof. intros Hn. by destruct n as [|[|[|n]]]; [..|lia]. Qed.
Lemma plain_numbered n : (n < 3)%nat → plain (numbered "read_resource_" n) ∧ plain (numbered "read_absent_" n).
Proof. intros Hn. by destruct n as [|[|[|n]]]; [..|lia]. Qed.

Lemma create_holds numbers : Forall (λ n, (n < 3)%nat) numbers →
  triple (accounted []) (create_all sha256 integral fate token p faults tick_ms base stop_requested numbers) (λ _, accounted []) (λ _, True).
Proof.
  induction 1 as [|n numbers Hn _ IH]; cbn [create_all]; [by apply triple_ret|]. apply triple_exists. intros c. apply triple_pure. intros Hc3.
  eapply triple_bind; [apply open_holds|intros go; cbv beta]. destruct go; cbn [negb]; [|apply triple_ret; intros r [Hr _]; by exists c].
  eapply triple_bind.
  { apply called_holds with (Q := live c []) (Q' := λ m, (live c [] m ∨ m = n) ∧ ¬ False).
    eapply triple_pre; [|apply (call_holds (create n)); [by apply create_moves|by intros m ->]]. intros r [Hr Ht]. split; [done|]. intros _.
    split; [by apply Ht|]. by destruct Hr as ((_ & _ & _ & ?) & _). }
  intros made; cbv beta. destruct made; cbn [negb]; [|apply triple_ret; intros r Hr; by exists c].
  eapply triple_bind with (Q := λ _, inv (live (c ++ [n]) []) (c ++ [n]) [] tick_ms).
  { apply triple_modify. intros r ((? & Hc & ? & ?) & idx & Ho & Hi). split; [unfold shape; cbn; rewrite Hc; split_and!; [done..|lia]|].
    exists idx. split; [done|]. intros m Hm. destruct (Hi m Hm) as [[Hl _]|?]; [left|by right]. unfold live in *. set_solver. }
  intros ?; cbv beta. eapply triple_bind; [apply expect_holds|intros ?; cbv beta].
  eapply triple_bind; [apply observed_holds; by apply plain_numbered|intros seen; cbv beta]. destruct seen; cbn [negb].
  - eapply triple_pre; [|exact IH]. intros r Hr. exists (c ++ [n]). split; [by apply Forall_app_2; [|apply Forall_singleton]|]. apply (inv_plus _ _ _ _ _ (or_intror eq_refl) Hr).
  - apply triple_ret. intros r Hr. exists (c ++ [n]). split; [by apply Forall_app_2; [|apply Forall_singleton]|done].
Qed.
Lemma delete_holds c numbers : Forall (λ n, (n < 3)%nat) numbers → ∀ a,
  triple (inv (live c a) c a tick_ms) (delete_all sha256 integral fate token p faults tick_ms base numbers)
    (λ _ r, ∃ a, inv (live c a) c a tick_ms r) (λ _, True).
Proof.
  induction 1 as [|n numbers Hn _ IH]; intros a; cbn [delete_all]; [apply triple_ret; by exists a|].
  eapply triple_bind.
  { apply called_holds with (Q := live c a) (Q' := λ m, (live c a m ∨ False) ∧ m ≠ n).
    eapply triple_pre; [|apply (call_holds (numbered "delete_resource_" n)); [by apply delete_moves|done]]. intros r Hr. split; [done|]. by intros [? []]. }
  intros done; cbv beta. destruct done; cbn [negb]; [|apply triple_ret; intros r Hr; by exists a].
  eapply triple_bind; [apply expect_holds|intros ?; cbv beta].
  eapply triple_bind; [apply observed_holds; by apply plain_numbered|intros seen; cbv beta]. destruct seen; cbn [negb].
  - eapply triple_bind with (Q := λ _, inv (live c (a ++ [n])) c (a ++ [n]) tick_ms); [|intros ?; apply IH].
    apply triple_modify. intros r ((? & ? & Ha & ?) & idx & Ho & Hi). split; [unfold shape; cbn; rewrite Ha; split_and!; [done..|lia]|].
    exists idx. split; [done|]. intros m Hm. destruct (Hi m Hm) as [[[Hl|[]] Hne]|?]; [left|by right]. unfold live in *. set_solver.
  - apply triple_ret. intros r Hr. exists a. apply (inv_weaken _ _ _ _ _ _ _ Hr); [|lia]. unfold live. intuition.
Qed.

(** The other phases change no number. *)
Definition quiet {A} (m : M Run A) : Prop := ∀ Q c a, triple (inv Q c a tick_ms) m (λ _, inv Q c a tick_ms) (λ _, True).
Lemma quiet_run_bind {A B} (m : M Run A) (f : A → M Run B) : quiet m → (∀ x, quiet (f x)) → quiet (bind m f).
Proof. intros Hm Hf Q c a. eapply triple_bind; [apply Hm|intros x; apply Hf]. Qed.
Lemma quiet_run_ret {A} (x : A) : quiet (ret x).
Proof. intros Q c a. by apply triple_ret. Qed.
Lemma quiet_run_gets {A} (f : Run → A) : quiet (gets f).
Proof. intros Q c a. by apply triple_gets. Qed.
Lemma quiet_local f : (∀ r, rn_site (f r) = rn_site r ∧ rn_provider (f r) = rn_provider r ∧ rn_created (f r) = rn_created r ∧ rn_absent (f r) = rn_absent r) →
  quiet (modify f).
Proof. intros Hf Q c a. apply triple_modify. intros r Hr. by apply inv_local. Qed.
Lemma quiet_open : quiet (work_open p base stop_requested).
Proof. intros Q c a. eapply triple_weaken; [apply open_holds|done| |done]. by intros ok r [Hr _]. Qed.
Lemma quiet_observed operation : plain operation → quiet (observed operation).
Proof.
  intros Hpl Q c a. eapply triple_weaken; [by apply (observed_holds operation Q c a tick_ms)|done| |done]. intros [] r Hr; [|done].
  by apply (inv_plus _ _ _ _ _ (or_intror eq_refl) Hr).
Qed.
Lemma quiet_called operation request : plain operation → quiet (called sha256 integral fate token p faults tick_ms base operation request).
Proof.
  intros Hpl Q c a. eapply triple_weaken; [by eapply (called_holds operation request Q Q c a tick_ms), plain_call|done| |done]. intros [] r Hr; [|done].
  by apply (inv_plus _ _ _ _ _ (or_intror eq_refl) Hr).
Qed.
Local Ltac quiet := repeat match goal with
  | |- quiet (bind _ _) => apply quiet_run_bind; [|intros ?; cbv beta]
  | |- quiet (ret _) => apply quiet_run_ret
  | |- quiet (gets _) => apply quiet_run_gets
  | |- quiet (modify _) => apply quiet_local; done
  | |- quiet (work_open _ _ _) => apply quiet_open
  | |- quiet (Composition.observed _ _ _ _ _ _ _ _ _) => apply quiet_observed; done
  | |- quiet (called _ _ _ _ _ _ _ _ _ _) => apply quiet_called; done
  | |- quiet (if ?x then _ else _) => destruct x
  | |- _ => progress unfold and_open, because, set_cleanup, set_applied, set_initialized, set_uploaded, expect
  end.
Lemma quiet_initialize ready : quiet (initialize sha256 integral fate token p faults tick_ms base stop_requested ready).
Proof. unfold initialize. quiet. Qed.
Lemma quiet_upload ready : quiet (upload sha256 integral fate token p faults tick_ms base stop_requested ready).
Proof. unfold upload. quiet. Qed.
Lemma quiet_apply ready : quiet (apply_temporary sha256 integral fate token p faults tick_ms base stop_requested ready).
Proof. unfold apply_temporary. quiet. Qed.
Lemma quiet_disable : quiet (disable sha256 integral fate token p faults tick_ms base).
Proof. unfold disable. quiet. Qed.
Lemma quiet_restore : quiet (restore sha256 integral fate token p faults tick_ms base).
Proof. unfold restore. quiet. Qed.

Lemma clean_holds : triple (accounted []) (clean_up sha256 integral fate token p faults tick_ms base) (λ _ r, ∃ a, accounted a r) (λ _, True).
Proof.
  apply triple_exists. intros c. apply triple_pure. intros Hc3. assert (Hend : ∀ r, inv (live c []) c [] tick_ms r → ∃ a, accounted a r) by (intros r Hr; exists [], c; done).
  unfold clean_up. eapply triple_bind; [apply quiet_disable|intros stopped; cbv beta]. eapply triple_bind; [apply triple_same|intros halted; cbv beta].
  destruct (negb stopped || halted); [by apply triple_ret|].
  eapply triple_bind; [apply quiet_restore|intros restored; cbv beta]. destruct restored; cbn [negb]; [|by apply triple_ret].
  eapply triple_bind; [by apply (quiet_observed "read_restored")|intros seen; cbv beta]. destruct seen; cbn [negb]; [|by apply triple_ret].
  eapply triple_bind with (Q := λ created r, inv (live c []) c [] tick_ms r ∧ created = c); [apply triple_gets; intros r Hr; split; [done|by destruct Hr as ((_ & ? & _) & _)]|].
  intros created; cbv beta. apply triple_pure_r. intros ->.
  eapply triple_bind; [apply delete_holds; by apply Forall_rev|intros absent; cbv beta].
  assert (Hq : ∀ r, (∃ a, inv (live c a) c a tick_ms r) → ∃ a, accounted a r) by (intros r [a Hr]; by exists a, c).
  destruct absent; [|by apply triple_ret]. apply triple_exists. intros a.
  eapply triple_bind with (Q := λ _, inv (live c a) c a tick_ms); [apply triple_modify; intros r; by apply inv_ext|intros ?; cbv beta].
  apply triple_modify. intros r Hr. apply Hq. exists a. revert Hr. by apply inv_ext.
Qed.
Lemma attempt_holds : triple (accounted []) (attempt sha256 integral fate token p faults tick_ms base stop_requested) (λ _ r, ∃ a, accounted a r) (λ _, True).
Proof.
  unfold attempt. eapply triple_bind; [apply create_holds; rewrite (po_three _ Hp); by apply Forall_forall; intros x Hx%elem_of_seq; lia|intros ready; cbv beta].
  assert (Hq : ∀ A (m : M Run A), quiet m → triple (accounted []) m (λ _, accounted []) (λ _, True)).
  { intros A m Hm. apply triple_exists. intros c. apply triple_pure. intros Hc3. eapply triple_weaken; [apply Hm|done| |done]. intros ? r Hr. by exists c. }
  eapply triple_bind; [apply Hq, quiet_initialize|intros ready1; cbv beta]. eapply triple_bind; [apply Hq, quiet_upload|intros ready2; cbv beta].
  eapply triple_bind; [apply Hq, quiet_apply|intros ?; apply clean_holds].
Qed.
Lemma rehearsal_holds : triple (inv (live [] []) [] [] 0) (rehearsal sha256 integral fate token p faults tick_ms base stop_requested)
  (λ _ r, ∃ c a, inv (live c a) c a 0 r) (λ _, True).
Proof.
  assert (Hend : ∀ r, inv (live [] []) [] [] 0 r → ∃ c a, inv (live c a) c a 0 r) by (intros r Hr; by exists [], []).
  unfold rehearsal. eapply triple_bind; [apply open_holds|intros go; cbv beta].
  assert (Hset : ∀ P label, (∀ r, P r → inv (live [] []) [] [] 0 r) → triple P (set_cleanup label) (λ _ r, ∃ c a, inv (live c a) c a 0 r) (λ _, True)).
  { intros P label HP. apply triple_modify. intros r Hr%HP. apply Hend. revert Hr. by apply inv_ext. }
  destruct go; cbn [negb]; [|by apply Hset; intros r [Hr _]].
  eapply triple_bind; [eapply triple_pre; [|by apply (observed_holds "read_baseline" (live [] []) [] [] 0)]; by intros r [Hr _]|intros seen; cbv beta].
  destruct seen; cbn [negb]; [|by apply triple_ret].
  eapply triple_bind; [apply open_holds|intros go'; cbv beta]. destruct go'; cbn [negb]; [|apply Hset; intros r [Hr _]; apply (inv_weaken _ _ _ _ _ 0 _ Hr); [done|lia]].
  eapply triple_weaken; [apply attempt_holds| | |done].
  - intros r [Hr _]. exists []. by split.
  - intros ? r (a & c & _ & Hr). exists c, a. apply (inv_weaken _ _ _ _ _ 0 _ Hr); [done|lia].
Qed.
End Provider.

Lemma rehearse_ok sha256 integral fate token plan journal_plan provider_plan faults tick_ms now_ms stop_requested sv p c sv' :
  validate_composition_plan sha256 integral plan = Ok p →
  rehearse_composition sha256 integral fate token plan journal_plan provider_plan faults tick_ms now_ms stop_requested sv = (Ok c, sv') →
  ∃ r, rehearse_run sha256 integral fate token p faults tick_ms (default (pl_start p) now_ms) stop_requested (new_run p (fst sv) (snd sv)) = (Ok c, r)
    ∧ sv' = (rn_site r, rn_provider r).
Proof.
  intros Hplan H. unfold rehearse_composition in H. rewrite Hplan in H. cbn [rbind] in H.
  match type of H with match ?g with Ok _ => _ | Err _ => _ end = _ => destruct g as [p'|e] eqn:Hg; [|done] end.
  assert (p' = p) as -> by (clear H; by inv_check). destruct (rehearse_run _ _ _ _ _ _ _ _ _ _) as [c' r]. exists r. by injection H as -> <-.
Qed.
Lemma on_site_records r l r' : on_site records r = (Ok l, r') → r' = r ∧ l = rows (rn_site r).
Proof. unfold on_site, records, bind, Prelude.get, raise, on_conn, select, gets, rows. destruct (si_closed (rn_site r)); [done|]. cbn. destruct r as [[? ? ?]]. by intros [= <- <-]. Qed.
Lemma run_steps sha256 integral fate token p faults tick_ms base stop_requested r0 c r :
  rehearse_run sha256 integral fate token p faults tick_ms base stop_requested r0 = (Ok c, r) →
  pl_start p ≤ base ∧ ∃ s, start_once fate token (rn_site r0) = (Ok tt, s)
    ∧ (∃ r1, rehearsal sha256 integral fate token p faults tick_ms base stop_requested (mkRun s (rn_provider r0) (rn_expected r0) (rn_reason r0) (rn_halted r0)
        (rn_cleanup r0) (rn_applied r0) (rn_initialized r0) (rn_uploaded r0) (rn_created r0) (rn_absent r0)) = (Ok tt, r1)
        ∧ r = r1 ∧ c = receipt p stop_requested r (rows (rn_site r))).
Proof.
  intros H. unfold rehearse_run in H.
  apply bind_ok in H as ([] & t0 & Hs0 & H). unfold lift in Hs0. injection Hs0 as Hs0 <-. apply require_ok in Hs0. apply andb_true_iff in Hs0 as [Hs0%Z.leb_le _].
  apply bind_ok in H as (l & t1 & Hs1 & H). apply on_site_records in Hs1 as [-> _].
  apply bind_ok in H as (calls & t2 & Hs2 & H). injection Hs2 as <- <-.
  apply bind_ok in H as ([] & t3 & Hs3 & H). unfold lift in Hs3. injection Hs3 as Hs3 <-.
  apply bind_ok in H as ([] & t4 & Hs4 & H). unfold on_site in Hs4. destruct (start_once fate token (rn_site r0)) as [x s]. injection Hs4 as -> <-.
  apply bind_ok in H as ([] & r1 & Hs5 & H). apply bind_ok in H as (l' & t6 & Hs6 & H).
  apply on_site_records in Hs6 as [-> ->].
  unfold Prelude.get, bind, ret in H. injection H as <- <-. split; [done|]. exists s. split; [done|]. by exists r1.
Qed.
Lemma run_holds sha256 integral fate token p faults tick_ms base stop_requested site c r :
  plan_ok p → 0 ≤ tick_ms → covered site →
  rehearse_run sha256 integral fate token p faults tick_ms base stop_requested (new_run p site (new_provider p)) = (Ok c, r) →
  (∃ created absent, inv p (live created absent) created absent 0 r) ∧ c = receipt p stop_requested r (rows (rn_site r)).
Proof.
  intros Hp Htick Hcov (Hbase & s & Hs & r1 & Hr & -> & ->)%run_steps. split; [|done].
  pose proof (start_spec fate token site Hcov) as Hsc. cbn in Hs. rewrite Hs in Hsc. destruct Hsc as [_ Hsc].
  eassert (triple _ (rehearsal sha256 integral fate token p faults tick_ms base stop_requested) _ _) as H by (apply rehearsal_holds; try done; unfold pl_work, pl_outer, WORK_MS, OUTER_MS; lia).
  match type of Hr with rehearsal _ _ _ _ _ _ _ _ _ ?r0 = _ => assert (H0 : inv p (live [] []) [] [] 0 r0) end.
  { split; [done|]. exists []. split; [|by intros m ?%elem_of_nil]. split; [apply NoDup_nil_2|]. by split. }
  specialize (H _ H0). by rewrite Hr in H.
Qed.

(** C12: Whatever the provider answers and whichever commits of the journal fail, every
    resource that it owns when a receipt is returned is one of the plan's, and the
    receipt names it: as a resource that requires reconciliation, or by its creation,
    which was not acknowledged. *)
Theorem composition_accounts sha256 integral fate token plan journal_plan provider_plan faults tick_ms now_ms stop_requested s0 site p c site' v' :
  distinct plan → validate_composition_plan sha256 integral plan = Ok p → provider_guard faults tick_ms = Ok tt →
  journal_open fate token (text_digest sha256 journal_plan) s0 = (Ok tt, site) →
  rehearse_composition sha256 integral fate token plan journal_plan provider_plan faults tick_ms now_ms stop_requested (site, new_provider p)
    = (Ok c, (site', v')) →
  ∀ x, x ∈ st_owned (pv_state v') → ∃ n, (n < 3)%nat ∧ member "identity" x = member "identity" (nth n (pl_resources p) JNull)
    ∧ (nth n (pl_resources p) JNull ∈ rc_requiring c ∨ numbered "create_resource_" n ∈ rc_unacknowledged c).
Proof.
  intros Hdis Hplan Hguard Hopen%opened_covered H x Hx. pose proof (validate_plan_ok _ _ _ _ Hdis Hplan) as Hp.
  assert (Htick : 0 ≤ tick_ms) by (clear -Hguard; unfold provider_guard in Hguard; inv_check; inv_bool; done).
  destruct (rehearse_ok _ _ _ _ _ _ _ _ _ _ _ _ _ _ _ Hplan H) as (r & Hrun & [= -> ->]).
  cbn [fst snd] in Hrun. apply run_holds in Hrun as ((created & absent & (_ & Hc & Ha & _) & idx & (_ & Hlt & Ho) & Hi) & ->); [|done..].
  apply list_elem_of_lookup in Hx as [i Hx]. destruct (Forall2_lookup_r _ _ _ _ _ Ho Hx) as (n & Hn & _ & Hid).
  exists n. apply list_elem_of_lookup_2 in Hn. rewrite Forall_forall in Hlt. split; [by apply Hlt|]. split; [done|]. destruct (Hi n Hn) as [[Hin Hnot]|[Hpend _]]; [left|right].
  - cbn. apply list_elem_of_fmap. exists n. split; [done|]. apply list_elem_of_In, filter_In. rewrite Hc, Ha. split; [by apply list_elem_of_In|].
    apply negb_true_iff, not_true_iff_false. rewrite existsb_exists. intros (m & Hm%list_elem_of_In & <-%Nat.eqb_eq). done.
  - cbn. apply list_elem_of_In, filter_In. split; [apply list_elem_of_In|pose proof (Hlt n Hn) as Hn3; destruct n as [|[|[|n]]]; [done..|lia]]. unfold pending_of. apply list_elem_of_fmap. exists (create n, "pending"). split; [done|].
    apply list_elem_of_In, filter_In. split; [by apply list_elem_of_In|done].
Qed.
