(* ===== verification/CompositionOutcome.v ===== *)
(** A confirmed rehearsal of the composition: the provider holds the retained baseline
    and nothing else. *)
From S2P Require Import Prelude Json JsonParse JsonRoundTrip Oracle Evidence Documents Delta DeltaFacts OfflineJournal Restoration Composition Triples CompositionJournal CompositionFacts.

Local Ltac keys := apply (bool_decide_unpack (NoDup _)); vm_compute; exact I.

Section Outcome.
Context (sha256 : string → string) (integral : string → option Z) (p : Plan) (Hp : plan_ok p) (faults : list (string * string)) (tick_ms : Z).
Notation resource n := (nth n (pl_resources p) JNull).
Notation perform := (provider_call sha256 integral p faults tick_ms).

(** ** Regular states *)

Definition sound (s : State) : Prop :=
  regular (st_snapshot s) ∧ Forall regular (st_owned s) ∧ (∀ r, st_receiver s = Some r → regular r ∧ r ≠ JNull) ∧ (∀ u, st_uploaded s = Some u → regular u).

Lemma member_regular k v : regular v → regular (member k v).
Proof. destruct v; try done. cbn [member]. rewrite got_field. apply regular_field. Qed.
Lemma resource_regular n : regular (resource n).
Proof. destruct (nth_in_or_default n (pl_resources p) JNull) as [H| ->]; [|done]. apply list_elem_of_In in H. pose proof (po_resources _ Hp) as Hr. rewrite Forall_forall in Hr. by apply Hr. Qed.
Lemma set_path_regular path v j j' : regular v → regular j → set_path path v j = Ok j' → regular j'.
Proof.
  intros Hv. revert j j'. induction path as [|k [|k' path] IH]; intros j j' Hj H; [by injection H as <-| |].
  - destruct j; try done. injection H as <-. by apply regular_set.
  - destruct j as [| | | | | |d]; try done. apply rbind_ok in H as (inner & Hin & H). apply rbind_ok in H as (changed & Hc & [= <-]).
    apply regular_set; [done|]. eapply IH; [|exact Hc]. unfold at_key in Hin. destruct (dict_get k d) eqn:E; simplify_eq. by eapply regular_get.
Qed.
Lemma Forall_removelast {A} (P : A → Prop) l : Forall P l → Forall P (removelast l).
Proof. induction 1 as [|x l Hx Hl IH]; [done|]. cbn. destruct l; [by apply Forall_nil|]. by apply Forall_cons. Qed.
Lemma drift_sound fault s s' : sound s → drift fault s = Ok s' → sound s'.
Proof.
  intros (Hs & Ho & Hr & Hu). unfold drift. intros H.
  repeat case_match; inv_check; try done; unfold sound;
    try (cbn [with_snapshot st_snapshot st_owned st_receiver st_uploaded]; split_and!; [|done..]; eapply set_path_regular; [|exact Hs|eassumption];
         first [exact I|split; [apply NoDup_singleton|by split]]).
  cbn [with_owned st_snapshot st_owned st_receiver st_uploaded]. split_and!; [done| |done..].
  match goal with H : last_of _ = Some _ |- _ => apply last_split in H; rewrite H in Ho end. apply Forall_app in Ho as [H1' [H2' _]%Forall_cons].
  apply Forall_app_2; [done|]. apply Forall_cons. split; [by apply set_member_regular|by apply Forall_nil].
Qed.
Lemma upload_regular : regular (upload_request sha256 p).
Proof.
  split; [keys|]. cbn [foldr snd]. split_and!; try done; [apply (po_version _ Hp)|]. apply (member_regular "moduleSha256"), (po_temporary _ Hp).
Qed.
Lemma act_sound operation request s s' : sound s → act sha256 integral p operation request s = Some s' → sound s'.
Proof.
  intros (Hs & Ho & Hr & Hu). unfold act. intros H.
  assert (Hkeep : ∀ a b, regular a → regular b → regular (keep_production (member "productionState" a) b))
    by (intros a b Ha Hb; apply set_member_regular; [done|by apply member_regular]).
  destruct (kind_of operation) as [n| | | | | |n|]; match type of H with (if ?g then _ else _) = _ => destruct g; try done end; injection H as <-.
  - assert (Forall regular (st_owned s ++ [resource n])) by (apply Forall_app_2; [done|by apply Forall_singleton, resource_regular]).
    destruct (Nat.eqb n 2); unfold sound; cbn [with_receiver with_owned id st_snapshot st_owned st_receiver st_uploaded]; split_and!; try done.
    intros r [= <-]. split; [apply (po_receiver _ Hp)|apply (po_artifact _ Hp)].
  - done.
  - unfold sound. cbn [with_uploaded st_snapshot st_owned st_receiver st_uploaded]. split_and!; try done. intros u [= <-]. apply upload_regular.
  - unfold sound. cbn [with_snapshot st_snapshot st_owned st_receiver st_uploaded]. split_and!; try done. apply Hkeep; [done|apply (po_temporary _ Hp)].
  - done.
  - unfold sound. cbn [with_snapshot st_snapshot st_owned st_receiver st_uploaded]. split_and!; try done. apply Hkeep; [done|apply (po_baseline _ Hp)].
  - assert (Forall regular (removelast (st_owned s))).
    { by apply Forall_removelast. }
    destruct (Nat.eqb n 2); [|destruct (Nat.eqb n 1)]; unfold sound; cbn [with_receiver with_quota with_owned id st_snapshot st_owned st_receiver st_uploaded]; by split_and!.
  - done.
Qed.
Lemma sound_owned l s : sound s → Forall regular l → sound (with_owned l s).
Proof. intros (Hs1 & Hs2 & Hs3 & Hs4) H. by split_and!. Qed.
Lemma sound_receiver o s : sound s → (∀ r, o = Some r → regular r ∧ r ≠ JNull) → sound (with_receiver o s).
Proof. intros (Hs1 & Hs2 & Hs3 & Hs4) H. by split_and!. Qed.
(** A dispatch keeps the state regular, and an accepted reply is the state. *)
Lemma perform_sound operation request v : sound (pv_state v) → match perform operation request v with
  | (r, v') => sound (pv_state v') ∧ ∀ state, r = Ok (RAccepted state) → state = state_json p (pv_state v')
  end.
Proof.
  intros Hs. unfold provider_call. destruct (negb _); [done|]. cbn zeta. case_bool_decide; [done|].
  destruct (act _ _ _ _ _ _) as [s|] eqn:Ha; [|done]. apply act_sound in Ha; [|done].
  destruct (drift _ s) as [s'|e] eqn:Hd; [|done]. apply drift_sound in Hd; [|done].
  repeat case_bool_decide; cbn; split; try done; by intros state [= <-].
Qed.

(** ** States told apart by their texts *)

Lemma state_regular s : sound s → regular (state_json p s).
Proof.
  intros (Hs & Ho & Hr & Hu). unfold state_json. apply regular_obj. split; [apply (bool_decide_unpack (NoDup _)); vm_compute; exact I|].
  repeat (apply Forall_cons; split; cbn [snd]); try exact I; try done.
  - split; [keys|by split_and!].
  - by apply regular_arr.
  - unfold or_null. destruct (st_receiver s) as [r|]; [by apply Hr|done].
  - unfold or_null. destruct (st_quota s) as [enabled|]; [|done]. apply regular_obj. split; [keys|].
    repeat (apply Forall_cons; split; cbn [snd]); try exact I; [|by apply Forall_nil]. split; [keys|by split_and!].
  - unfold or_null. destruct (st_uploaded s) as [u|]; [by apply Hu|done].
Qed.
(** What a believed observation fixes of the provider's state. *)
Lemma same_provider_state s e : sound s → sound e → dumps (state_json p s) = dumps (state_json p e) →
  canon (st_snapshot s) = canon (st_snapshot e) ∧ st_enabled s = st_enabled e ∧ (st_owned e = [] → st_owned s = [])
  ∧ (st_receiver e = None → st_receiver s = None) ∧ (st_quota e = None → st_quota s = None).
Proof.
  intros Hs He E. pose proof (state_regular _ Hs) as Rs. pose proof (state_regular _ He) as Re. apply (text_canon _ _ Rs Re) in E.
  assert (Hf : ∀ k, canon (member k (state_json p s)) = canon (member k (state_json p e))).
  { intros k. unfold state_json in *. cbn [member]. rewrite !got_field. by apply canon_field. }
  split_and!.
  - apply (Hf "snapshot").
  - pose proof (Hf "admission") as H. assert (∀ x, regular (member "admission" (state_json p x))) as Hr by (intros x; split; [keys|by split_and!]).
    pose proof (canon_field "enabled" _ _ (Hr s) (Hr e) H) as H'. by injection H'.
  - intros E'. pose proof (Hf "ownedResources") as H. cbn in H. rewrite E' in H. injection H as H. by destruct (st_owned s).
  - intros E'. pose proof (Hf "receiverArtifact") as H. cbn in H. rewrite E' in H. destruct Hs as (_ & _ & Hr & _). destruct (st_receiver s) as [r|]; [|done].
    destruct (Hr r eq_refl) as [_ Hn]. cbn in H. by destruct r.
  - intros E'. pose proof (Hf "quotaScope") as H. cbn in H. rewrite E' in H. by destruct (st_quota s).
Qed.

(** ** Calls keep the locals *)

Context (fate : nat → commit_io) (token : string) (base : Z) (stop_requested : bool).
Notation call := (call sha256 integral fate token p faults tick_ms base).
Notation called := (called sha256 integral fate token p faults tick_ms base).
Notation observed := (observed sha256 integral fate token p faults tick_ms base).

Record Locals := mkLocals { lc_expected : State; lc_applied : bool; lc_initialized : bool; lc_created : list nat; lc_absent : list nat; lc_cleanup : string }.
Definition locals (r : Run) : Locals := mkLocals (rn_expected r) (rn_applied r) (rn_initialized r) (rn_created r) (rn_absent r) (rn_cleanup r).
Definition good (L : Locals → Prop) (r : Run) : Prop := L (locals r) ∧ sound (pv_state (rn_provider r)).
Definition current (v : Provider) (state : json) : Prop := state = state_json p (pv_state v).

Lemma site_good {A} (m : M Site A) L X : triple (λ r, good L r ∧ X (rn_provider r)) (on_site m) (λ _ r, good L r ∧ X (rn_provider r)) (λ r, good L r ∧ X (rn_provider r)).
Proof. intros r Hr. unfold on_site. by destruct (m (rn_site r)) as [[x|e] s]. Qed.
Lemma because_good reason halted L X : triple (λ r, good L r ∧ X (rn_provider r)) (because reason halted) (λ _ r, good L r ∧ X (rn_provider r)) (λ _, True).
Proof. by apply triple_modify. Qed.
Lemma perform_good operation request L :
  triple (good L) (on_provider (perform operation request)) (λ o r, good L r ∧ ∀ state, o = RAccepted state → current (rn_provider r) state) (good L).
Proof.
  intros r [Hl Hs]. pose proof (perform_sound operation request _ Hs) as H. unfold on_provider. destruct (perform operation request (rn_provider r)) as [x v]. destruct H as [Hv Hcur].
  destruct x as [o|e]; [|by split]. split; [by split|]. intros state ->. by apply Hcur.
Qed.
Definition answered (L : Locals → Prop) (o : option json) (r : Run) : Prop := good L r ∧ ∀ state, o = Some state → current (rn_provider r) state.
Lemma answered_none L (P : Run → Prop) : (∀ r, P r → good L r) → triple P (ret None) (answered L) (λ _, True).
Proof. intros H. apply triple_ret. intros r Hr. split; [by apply H|done]. Qed.
Lemma expired_same P E : triple P (outer_expired p base) (λ _, P) E.
Proof. by intros r Hr. Qed.
Lemma reconcile_good name L : triple (good L) (reconcile_read sha256 integral fate token p faults tick_ms base name) (λ _, good L) (λ _, True).
Proof.
  assert (Hsite : ∀ A (m : M Site A) E, (∀ r, good L r → E r) → triple (good L) (on_site m) (λ _, good L) E).
  { intros A m E HE. eapply triple_weaken; [apply (site_good m L (λ _, True))|by split|by intros ? r [Hr _]|intros r [Hr _]; by apply HE]. }
  unfold reconcile_read. eapply triple_bind; [apply expired_same|intros x; cbv beta]. destruct x; [by apply triple_ret|].
  eapply triple_bind; [by apply Hsite|intros ?; cbv beta].
  eapply triple_bind with (Q := λ _, good L); [|intros ?; by apply triple_ret]. eapply triple_try with (E := good L); [|intros e; by apply triple_ret].
  eapply triple_bind; [apply perform_good|intros o; cbv beta]. eapply triple_pre; [by intros r [Hr _]; exact Hr|].
  destruct o; try by apply triple_ret. all: by apply Hsite.
Qed.
Lemma ambiguous_good L : triple (good L) (ambiguous sha256 integral fate token p faults tick_ms base) (answered L) (λ _, True).
Proof.
  unfold ambiguous. eapply triple_bind with (Q := λ _, good L); [by apply triple_modify|intros ?; cbv beta].
  eapply triple_bind; [apply reconcile_good|intros stopped; cbv beta]. eapply triple_bind with (Q := λ _, good L); [|intros ?; by apply answered_none].
  destruct stopped; [by apply triple_ret|]. eapply triple_bind; [apply reconcile_good|intros ?; by apply triple_ret].
Qed.
Lemma call_good operation request L : triple (good L) (call operation request) (answered L) (λ _, True).
Proof.
  unfold Composition.call. eapply triple_bind; [apply triple_same|intros halted; cbv beta]. destruct halted; [by apply answered_none|].
  assert (Hout : ∀ reason, triple (good L) (because reason true ;* ret None) (answered L) (λ _, True)).
  { intros reason. eapply triple_bind with (Q := λ _, good L); [by apply triple_modify|intros ?; by apply answered_none]. }
  eapply triple_bind; [apply expired_same|intros x; cbv beta]. destruct x; [apply Hout|].
  eapply triple_bind; [eapply triple_weaken; [apply (site_good _ L (λ _, True))|by split|by intros ? r [Hr _]; exact Hr|done]|intros ?; cbv beta].
  eapply triple_bind; [eapply triple_try; [apply perform_good|intros e; by apply triple_ret]|intros o; cbv beta].
  assert (Hamb : ∀ P : Run → Prop, (∀ r, P r → good L r) → triple P (ambiguous sha256 integral fate token p faults tick_ms base) (answered L) (λ _, True)).
  { intros P HP. eapply triple_pre; [exact HP|apply ambiguous_good]. }
  destruct o as [| | |state]; try by apply Hamb; intros r [Hr _].
  - eapply triple_bind with (Q := λ _, good L); [|intros ?; apply Hout].
    eapply triple_weaken; [apply (site_good _ L (λ _, True))|by intros r [Hr _]|by intros ? r [Hr _]|done].
  - destruct (all_finite state); [|by apply Hamb; intros r [Hr _]].
    eapply triple_bind; [eapply triple_weaken; [apply (site_good _ L (λ v, current v state))| |intros ? r Hr; exact Hr|done]; intros r [Hr Hs]; split; [done|by apply Hs]|intros ?; cbv beta].
    eapply triple_bind; [apply expired_same|intros x'; cbv beta]. destruct x'.
    + eapply triple_pre; [|apply Hout]. by intros r [Hr _].
    + apply triple_ret. intros r [Hr Hs]. split; [done|]. by intros ? [= <-].
Qed.
Lemma called_good operation request L : triple (good L) (called operation request) (λ _, good L) (λ _, True).
Proof. unfold Composition.called. eapply triple_bind; [apply call_good|intros o; cbv beta]. apply triple_ret. by intros r [Hr _]. Qed.
(** A believed observation is the expected state. *)
Definition matched (r : Run) : Prop := dumps (state_json p (pv_state (rn_provider r))) = dumps (state_json p (rn_expected r)).
Lemma observed_good operation L : triple (good L) (observed operation) (λ ok r, good L r ∧ (ok = true → matched r)) (λ _, True).
Proof.
  unfold Composition.observed. eapply triple_bind; [apply call_good|intros o; cbv beta]. destruct o as [state|]; [|apply triple_ret; by intros r [Hr _]].
  eapply triple_bind with (Q := λ e r, (good L r ∧ current (rn_provider r) state) ∧ e = rn_expected r); [apply triple_gets; intros r [Hr Hs]; split; [split; [done|by apply Hs]|done]|intros e; cbv beta].
  case_bool_decide as He.
  - apply triple_ret. intros r [[Hr Hs] ->]. split; [done|]. intros _. unfold matched. by rewrite <- Hs.
  - eapply triple_bind with (Q := λ _, good L); [apply triple_modify; by intros r [[Hr _] _]|intros ?; by apply triple_ret].
Qed.

(** ** What is expected, phase by phase *)

(** Before the clean-up: the resources that were created are expected, and what else
    was acknowledged. *)
Record working (created : list nat) (l : Locals) : Prop := {
  wk_sound : sound (lc_expected l);
  wk_snapshot : lc_applied l = false → st_snapshot (lc_expected l) = pl_baseline p;
  wk_owned : st_owned (lc_expected l) = map (λ n, resource n) created;
  wk_receiver : 2%nat ∉ created → st_receiver (lc_expected l) = None;
  wk_quota : 1%nat ∉ created → st_quota (lc_expected l) = None;
  wk_enabled : lc_initialized l = false → st_enabled (lc_expected l) = false;
  wk_initialized : lc_initialized l = true → 1%nat ∈ created;
  wk_created : lc_created l = created;
  wk_absent : lc_absent l = [];
  wk_cleanup : lc_cleanup l = "cleanup_unconfirmed" }.
(** Once admission is off and the baseline is back: [numbers] remain to be deleted. *)
Record deleting (numbers : list nat) (l : Locals) : Prop := {
  dl_sound : sound (lc_expected l);
  dl_snapshot : st_snapshot (lc_expected l) = pl_baseline p;
  dl_owned : st_owned (lc_expected l) = map (λ n, resource n) (rev numbers);
  dl_receiver : 2%nat ∉ numbers → st_receiver (lc_expected l) = None;
  dl_quota : 1%nat ∉ numbers → st_quota (lc_expected l) = None;
  dl_enabled : st_enabled (lc_expected l) = false;
  dl_absent : ∀ n, n ∈ lc_created l → n ∈ lc_absent l ∨ n ∈ numbers;
  dl_cleanup : lc_cleanup l = "cleanup_unconfirmed" }.
(** What [confirmed_offline] says of a run. *)
Definition outcome (r : Run) : Prop := rn_cleanup r = "confirmed_offline" →
  sound (pv_state (rn_provider r)) ∧ sound (rn_expected r) ∧ st_snapshot (rn_expected r) = pl_baseline p ∧ st_owned (rn_expected r) = []
  ∧ st_receiver (rn_expected r) = None ∧ st_quota (rn_expected r) = None ∧ st_enabled (rn_expected r) = false ∧ matched r
  ∧ ∀ n, n ∈ rn_created r → n ∈ rn_absent r.

Lemma expect_good f (L L' : Locals → Prop) :
  (∀ l, L l → L' (mkLocals (f (lc_expected l)) (lc_applied l) (lc_initialized l) (lc_created l) (lc_absent l) (lc_cleanup l))) →
  triple (good L) (expect f) (λ _, good L') (λ _, True).
Proof. intros H. apply triple_modify. intros r [Hl Hs]. split; [by apply (H _ Hl)|done]. Qed.
Lemma open_good L : triple (good L) (work_open p base stop_requested) (λ _, good L) (λ _, True).
Proof.
  unfold work_open, now. eapply triple_bind; [apply triple_same|intros stop; cbv beta].
  assert (Hout : ∀ reason, triple (good L) (because reason false ;* ret false) (λ _, good L) (λ _, True)).
  { intros reason. eapply triple_bind with (Q := λ _, good L); [by apply triple_modify|intros ?; by apply triple_ret]. }
  destruct (stop_requested || stop); [apply Hout|]. eapply triple_bind; [apply triple_same|intros t; cbv beta]. destruct (pl_work p <=? t); [apply Hout|by apply triple_ret].
Qed.
Lemma and_open_good ready L : triple (good L) (and_open p base stop_requested ready) (λ go r, good L r ∧ (go = true → ready = true)) (λ _, True).
Proof. destruct ready; cbn [and_open]; [|by apply triple_ret]. eapply triple_weaken; [apply open_good|done|by intros go r Hr|done]. Qed.
Lemma seen_good operation L : triple (good L) (observed operation) (λ _, good L) (λ _, True).
Proof. eapply triple_weaken; [apply observed_good|done|by intros ok r [Hr _]|done]. Qed.

Lemma create_good numbers : ∀ created,
  triple (good (λ l, working created l ∧ lc_applied l = false ∧ lc_initialized l = false))
    (create_all sha256 integral fate token p faults tick_ms base stop_requested numbers)
    (λ ok r, ∃ created', good (λ l, working created' l) r ∧ (ok = true → created' = created ++ numbers)) (λ _, True).
Proof.
  induction numbers as [|n numbers IH]; intros created; cbn [create_all].
  { apply triple_ret. intros r [[Hw _] Hs]. exists created. by rewrite app_nil_r. }
  assert (Hend : ∀ cr r, good (λ l, working cr l ∧ lc_applied l = false ∧ lc_initialized l = false) r →
    ∃ created', good (λ l, working created' l) r ∧ (false = true → created' = created ++ n :: numbers)) by (intros cr r [[Hw _] Hs]; by exists cr).
  eapply triple_bind; [apply open_good|intros go; cbv beta]. destruct go; cbn [negb]; [|apply triple_ret; apply Hend].
  eapply triple_bind; [apply called_good|intros made; cbv beta]. destruct made; cbn [negb]; [|apply triple_ret; apply Hend].
  eapply triple_bind with (Q := λ _, good (λ l, (working created (mkLocals (lc_expected l) (lc_applied l) (lc_initialized l) created (lc_absent l) (lc_cleanup l))
    ∧ lc_created l = created ++ [n]) ∧ lc_applied l = false ∧ lc_initialized l = false)).
  { apply triple_modify. intros r [[[] Hf] Hs]. split; [|done]. cbn in *. split; [|done]. split; [by constructor|congruence]. }
  intros ?; cbv beta. eapply triple_bind; [apply expect_good with (L' := λ l, working (created ++ [n]) l ∧ lc_applied l = false ∧ lc_initialized l = false)|intros ?; cbv beta].
  { intros l [[[] Hc] Hf]. cbn in *. split; [|done]. 
    assert (Hso : sound (with_owned (st_owned (lc_expected l) ++ [resource n]) (lc_expected l))).
    { apply sound_owned; [done|]. apply Forall_app_2; [by apply wk_sound0|by apply Forall_singleton, resource_regular]. }
    constructor; cbn [lc_expected lc_applied lc_initialized lc_created lc_absent lc_cleanup]; try done.
    - destruct (Nat.eqb n 2); [apply sound_receiver; [done|]; intros r [= <-]; split; [apply (po_receiver _ Hp)|apply (po_artifact _ Hp)]|done].
    - intros Ha. by destruct (Nat.eqb n 2); apply wk_snapshot0.
    - destruct (Nat.eqb n 2); cbn; by rewrite wk_owned0, map_app.
    - intros Hn. destruct (Nat.eqb_spec n 2) as [->|]; [set_solver|]. apply wk_receiver0. set_solver.
    - intros Hn. destruct (Nat.eqb n 2); apply wk_quota0; set_solver.
    - intros Hi. destruct (Nat.eqb n 2); by apply wk_enabled0.
    - destruct Hf as [_ Hf]. congruence. }
  eapply triple_bind; [apply seen_good|intros seen; cbv beta]. destruct seen; cbn [negb]; [|apply triple_ret; apply Hend].
  eapply triple_weaken; [apply IH|done| |done]. intros ok r (cr & Hr & Heq). exists cr. split; [done|]. intros ->. rewrite (Heq eq_refl), <- app_assoc. done.
Qed.
Lemma initialize_good created ready : (ready = true → 1%nat ∈ created) →
  triple (good (working created)) (initialize sha256 integral fate token p faults tick_ms base stop_requested ready) (λ _, good (working created)) (λ _, True).
Proof.
  intros Hready. unfold initialize. eapply triple_bind; [apply and_open_good|intros go; cbv beta]. destruct go; cbn [negb]; [|apply triple_ret; by intros r [Hr _]].
  apply triple_pure_r. intros Hgo. specialize (Hready (Hgo eq_refl)).
  eapply triple_bind; [apply called_good|intros made; cbv beta]. destruct made; cbn [negb]; [|by apply triple_ret].
  eapply triple_bind with (Q := λ _, good (λ l, working created l ∧ lc_initialized l = true)).
  { apply triple_modify. intros r [[] Hs]. split; [|done]. split; [|done]. by constructor. }
  intros ?; cbv beta. eapply triple_bind; [apply expect_good with (L' := working created)|intros ?; apply seen_good].
  intros l [[] Hi]. constructor; cbn [lc_expected lc_applied lc_initialized lc_created lc_absent lc_cleanup]; try done. intros Hf. congruence.
Qed.
Lemma upload_good created ready :
  triple (good (working created)) (upload sha256 integral fate token p faults tick_ms base stop_requested ready) (λ _, good (working created)) (λ _, True).
Proof.
  unfold upload. eapply triple_bind; [apply and_open_good|intros go; cbv beta]. eapply triple_pre with (P := good (working created)); [by intros r [Hr _]|].
  destruct go; cbn [negb]; [|by apply triple_ret]. eapply triple_bind; [apply called_good|intros made; cbv beta]. destruct made; cbn [negb]; [|by apply triple_ret].
  eapply triple_bind with (Q := λ _, good (working created)); [apply triple_modify; intros r [[] Hs]; split; [by constructor|done]|].
  intros ?; cbv beta. eapply triple_bind; [apply expect_good with (L' := working created)|intros ?; apply seen_good].
  intros l []. constructor; cbn [lc_expected lc_applied lc_initialized lc_created lc_absent lc_cleanup]; try done.
  destruct wk_sound0 as (Hs1 & Hs2 & Hs3 & _). split_and!; try done. intros u [= <-]. apply upload_regular.
Qed.
Lemma apply_good created ready :
  triple (good (working created)) (apply_temporary sha256 integral fate token p faults tick_ms base stop_requested ready) (λ _, good (working created)) (λ _, True).
Proof.
  unfold apply_temporary. eapply triple_bind; [apply and_open_good|intros go; cbv beta]. eapply triple_pre with (P := good (working created)); [by intros r [Hr _]|].
  destruct go; cbn [negb]; [|by apply triple_ret]. eapply triple_bind; [apply called_good|intros made; cbv beta]. destruct made; cbn [negb]; [|by apply triple_ret].
  eapply triple_bind with (Q := λ _, good (λ l, working created l ∧ lc_applied l = true)); [apply triple_modify; intros r [[] Hs]; split; [split; [by constructor|done]|done]|].
  intros ?; cbv beta. eapply triple_bind; [apply expect_good with (L' := working created)|intros ?; cbv beta].
  - intros l [[] Ha]. constructor; cbn [lc_expected lc_applied lc_initialized lc_created lc_absent lc_cleanup]; try done; [|congruence].
    destruct wk_sound0 as (_ & Hs2 & Hs3 & Hs4). split_and!; try done. apply (po_temporary _ Hp).
  - eapply triple_bind; [apply seen_good|intros ?; by apply triple_ret].
Qed.
(** Off: admission is disabled in what is expected, or was never enabled. *)
Lemma disable_good created :
  triple (good (working created)) (disable sha256 integral fate token p faults tick_ms base)
    (λ ok, good (λ l, working created l ∧ (ok = true → st_enabled (lc_expected l) = false))) (λ _, True).
Proof.
  unfold disable. eapply triple_bind with (Q := λ i, good (λ l, working created l ∧ lc_initialized l = i)); [by apply triple_gets; intros r [Hw Hs]|intros i; cbv beta].
  destruct i; cbn [negb]; [|apply triple_ret; intros r [[[] Hi] Hs]; split; [|done]; split; [by constructor|intros _; by apply wk_enabled0]].
  eapply triple_bind; [apply called_good|intros made; cbv beta]. destruct made; cbn [negb]; [|apply triple_ret; by intros r [[Hw _] Hs]].
  eapply triple_bind; [apply expect_good with (L' := λ l, working created l ∧ (true = true → st_enabled (lc_expected l) = false))|intros ?; cbv beta].
  - intros l [[] Hi]. split; [|done]. constructor; cbn [lc_expected lc_applied lc_initialized lc_created lc_absent lc_cleanup]; try done.
    intros Hn. exfalso. by apply Hn, wk_initialized0.
  - eapply triple_weaken; [apply seen_good|done| |done]. intros ok r [[Hw He] Hs]. split; [|done]. split; [done|]. intros _. by apply He.
Qed.
Lemma restore_good created :
  triple (good (λ l, working created l ∧ st_enabled (lc_expected l) = false)) (restore sha256 integral fate token p faults tick_ms base)
    (λ ok, good (λ l, working created l ∧ st_enabled (lc_expected l) = false ∧ (ok = true → st_snapshot (lc_expected l) = pl_baseline p))) (λ _, True).
Proof.
  unfold restore. eapply triple_bind with (Q := λ a, good (λ l, (working created l ∧ st_enabled (lc_expected l) = false) ∧ lc_applied l = a));
    [by apply triple_gets; intros r [Hw Hs]|intros ap; cbv beta].
  destruct ap; cbn [negb]; [|apply triple_ret; intros r [[[[] He] Ha] Hs]; split; [|done]; split; [by constructor|]; split; [done|]; intros _; by apply wk_snapshot0].
  eapply triple_bind; [apply called_good|intros made; cbv beta]. destruct made; cbn [negb]; [|apply triple_ret; intros r [[[Hw He] _] Hs]; by split].
  eapply triple_bind; [eapply expect_good|intros ?; by apply triple_ret].
  intros l [[[] He] Ha]. split; [|done]. constructor; cbn [lc_expected lc_applied lc_initialized lc_created lc_absent lc_cleanup]; try done.
  destruct wk_sound0 as (_ & Hs2 & Hs3 & Hs4). split_and!; try done. apply (po_baseline _ Hp).
Qed.

(** ** The clean-up *)

Lemma delete_good numbers :
  triple (λ r, good (deleting numbers) r ∧ matched r) (delete_all sha256 integral fate token p faults tick_ms base numbers)
    (λ ok r, (ok = true → good (deleting []) r ∧ matched r) ∧ rn_cleanup r = "cleanup_unconfirmed") (λ _, True).
Proof.
  induction numbers as [|n numbers IH]; cbn [delete_all]; [apply triple_ret; intros r [Hg Hm]; split; [done|]; by destruct Hg as [[] _]|].
  assert (Hend : ∀ ns r, good (deleting ns) r → (false = true → good (deleting []) r ∧ matched r) ∧ rn_cleanup r = "cleanup_unconfirmed") by (intros ns r [[] Hs]; done).
  eapply triple_bind; [eapply triple_pre; [|apply called_good]; by intros r [Hr _]|intros made; cbv beta]. destruct made; cbn [negb]; [|apply triple_ret; apply Hend].
  eapply triple_bind; [apply expect_good with (L' := λ l, deleting numbers (mkLocals (lc_expected l) (lc_applied l) (lc_initialized l) (lc_created l)
    (lc_absent l ++ [n]) (lc_cleanup l)))|intros ?; cbv beta].
  { intros l []. cbn [lc_expected lc_applied lc_initialized lc_created lc_absent lc_cleanup].
    assert (Hrm : removelast (st_owned (lc_expected l)) = map (λ m, resource m) (rev numbers)) by (rewrite dl_owned0; cbn [rev]; rewrite map_app; apply removelast_last).
    assert (Hso : sound (with_owned (removelast (st_owned (lc_expected l))) (lc_expected l))) by (apply sound_owned; [done|]; by apply Forall_removelast, dl_sound0).
    constructor; cbn [lc_expected lc_applied lc_initialized lc_created lc_absent lc_cleanup]; try done.
    - destruct (Nat.eqb n 2); [by apply sound_receiver|]. by destruct (Nat.eqb n 1).
    - destruct (Nat.eqb n 2); [done|]. by destruct (Nat.eqb n 1).
    - destruct (Nat.eqb n 2); [done|]. by destruct (Nat.eqb n 1).
    - intros Hn. destruct (Nat.eqb_spec n 2); [done|]. destruct (Nat.eqb n 1); apply dl_receiver0; set_solver.
    - intros Hn. destruct (Nat.eqb_spec n 2); [apply dl_quota0; set_solver|]. destruct (Nat.eqb_spec n 1); [done|]. apply dl_quota0. set_solver.
    - destruct (Nat.eqb n 2); [done|]. by destruct (Nat.eqb n 1).
    - intros m Hm. destruct (dl_absent0 m Hm) as [?|?]; set_solver. }
  eapply triple_bind; [apply observed_good|intros seen; cbv beta]. destruct seen; cbn [negb].
  - eapply triple_bind with (Q := λ _ r, good (deleting numbers) r ∧ matched r); [|intros ?; exact IH].
    apply triple_modify. intros r [[[] Hs] Hm]. split; [|by apply Hm]. split; [|done]. by constructor.
  - apply triple_ret. intros r [[[] Hs] _]. done.
Qed.
Lemma rev_elem {A} (x : A) l : x ∈ rev l ↔ x ∈ l.
Proof. by rewrite !list_elem_of_In, <- in_rev. Qed.
Lemma unconfirmed_outcome r : rn_cleanup r = "cleanup_unconfirmed" → outcome r.
Proof. intros E H. congruence. Qed.
Lemma clean_good created : triple (good (working created)) (clean_up sha256 integral fate token p faults tick_ms base) (λ _, outcome) (λ _, True).
Proof.
  assert (Hend : ∀ (P : Run → Prop), (∀ r, P r → rn_cleanup r = "cleanup_unconfirmed") → triple P (ret tt) (λ _, outcome) (λ _, True)).
  { intros P HP. apply triple_ret. intros r Hr. by apply unconfirmed_outcome, HP. }
  unfold clean_up. eapply triple_bind; [apply disable_good|intros stopped; cbv beta]. eapply triple_bind; [apply triple_same|intros halted; cbv beta].
  destruct stopped, halted; cbn [negb orb]; try (apply Hend; by intros r [[[] _] _]).
  eapply triple_bind; [eapply triple_pre; [|apply restore_good]; by intros r [[Hw He] Hs]; split; [split; [|apply He]|]|intros restored; cbv beta].
  destruct restored; cbn [negb]; [|apply Hend; by intros r [[[] _] _]].
  eapply triple_bind; [apply observed_good|intros seen; cbv beta]. destruct seen; cbn [negb]; [|apply Hend; by intros r [[[[] _] _] _]].
  eapply triple_bind with (Q := λ cs r, (good (deleting (rev cs)) r ∧ matched r)).
  { apply triple_gets. intros r [[[[] [He Hsn]] Hs] Hm]. cbn in *. split; [|by apply Hm]. split; [|done]. specialize (Hsn eq_refl).
    constructor; cbn; rewrite ?rev_involutive, ?wk_created0; try done.
    - intros Hn. apply wk_receiver0. by rewrite rev_elem in Hn.
    - intros Hn. apply wk_quota0. by rewrite rev_elem in Hn.
    - intros n Hn. right. by rewrite rev_elem. }
  intros cs; cbv beta. eapply triple_bind; [apply delete_good|intros absent; cbv beta]. destruct absent; [|apply Hend; by intros r [_ Hr]].
  eapply triple_bind with (Q := λ _ r, good (λ l, deleting [] (mkLocals (lc_expected l) (lc_applied l) (lc_initialized l) (lc_created l) (lc_absent l) "cleanup_unconfirmed")) r ∧ matched r).
  { apply triple_modify. intros r [Hr _]. destruct (Hr eq_refl) as [[[] Hs] Hm]. split; [|done]. split; [by constructor|done]. }
  intros ?; cbv beta. apply triple_modify. intros r [[[] Hs] Hm] _. cbn in *. split_and!; try done.
  - apply dl_receiver0. by intros ?%elem_of_nil.
  - apply dl_quota0. by intros ?%elem_of_nil.
  - intros n Hn. destruct (dl_absent0 n Hn) as [?|?%elem_of_nil]; done.
Qed.
Lemma attempt_good : triple (good (λ l, working [] l ∧ lc_applied l = false ∧ lc_initialized l = false))
  (attempt sha256 integral fate token p faults tick_ms base stop_requested) (λ _, outcome) (λ _, True).
Proof.
  unfold attempt. rewrite (po_three _ Hp). eapply triple_bind; [apply create_good|intros ready; cbv beta]. apply triple_exists. intros created.
  apply triple_pure_r. intros Hready.
  eapply triple_bind; [apply initialize_good; intros ->; rewrite Hready by done; set_solver|intros ready1; cbv beta].
  eapply triple_bind; [apply upload_good|intros ready2; cbv beta]. eapply triple_bind; [apply apply_good|intros ?; apply clean_good].
Qed.
Lemma rehearsal_good : triple (good (λ l, working [] l ∧ lc_applied l = false ∧ lc_initialized l = false))
  (rehearsal sha256 integral fate token p faults tick_ms base stop_requested) (λ _, outcome) (λ _, True).
Proof.
  assert (Hset : triple (good (λ l, working [] l ∧ lc_applied l = false ∧ lc_initialized l = false)) (set_cleanup "not_applied") (λ _, outcome) (λ _, True)) by (by apply triple_modify).
  unfold rehearsal. eapply triple_bind; [apply open_good|intros go; cbv beta]. destruct go; cbn [negb]; [|exact Hset].
  eapply triple_bind; [apply seen_good|intros seen; cbv beta]. destruct seen; cbn [negb]; [|apply triple_ret; intros r [[[] _] _]; by apply unconfirmed_outcome].
  eapply triple_bind; [apply open_good|intros go'; cbv beta]. destruct go'; cbn [negb]; [apply attempt_good|exact Hset].
Qed.
Lemma initial_state_sound : sound (initial_state p).
Proof. split_and!; cbn; [apply (po_baseline _ Hp)|by apply Forall_nil|done..]. Qed.
End Outcome.

Lemma filter_nothing {A} (f : A → bool) l : (∀ x, x ∈ l → f x = false) → List.filter f l = [].
Proof. induction l as [|x l IH]; intros H; cbn; [done|]. rewrite (H x) by left. apply IH. intros y Hy. apply H. by right. Qed.

(** C13: A receipt says [confirmed_offline] only when the provider's state, up to the order
    of keys, holds the retained baseline, no resource, no receiver and no quota scope,
    admission is off, and no created resource requires reconciliation. *)
Theorem composition_confirmed sha256 integral fate token plan journal_plan provider_plan faults tick_ms now_ms stop_requested site p c site' v' :
  distinct plan → validate_composition_plan sha256 integral plan = Ok p →
  rehearse_composition sha256 integral fate token plan journal_plan provider_plan faults tick_ms now_ms stop_requested (site, new_provider p)
    = (Ok c, (site', v')) →
  rc_cleanup c = "confirmed_offline" →
  canon (st_snapshot (pv_state v')) = canon (pl_baseline p) ∧ st_owned (pv_state v') = [] ∧ st_receiver (pv_state v') = None
  ∧ st_quota (pv_state v') = None ∧ st_enabled (pv_state v') = false ∧ rc_requiring c = [].
Proof.
  intros Hdis Hplan H Hc. pose proof (validate_plan_ok _ _ _ _ Hdis Hplan) as Hp.
  destruct (rehearse_ok _ _ _ _ _ _ _ _ _ _ _ _ _ _ _ Hplan H) as (r & Hrun & [= -> ->]).
  apply run_steps in Hrun as (_ & s & _ & r1 & Hr & -> & ->). cbn in Hc.
  match type of Hr with rehearsal _ _ _ _ _ _ ?t ?b ?st ?r0 = _ => assert (H0 : good (λ l, working p [] l ∧ lc_applied l = false ∧ lc_initialized l = false) r0);
    [|pose proof (rehearsal_good sha256 integral p Hp faults t fate token b st _ H0) as Hout] end.
  { pose proof (initial_state_sound _ Hp) as Hi. split; [|done]. split; [|done]. by constructor. }
  rewrite Hr in Hout. destruct (Hout Hc) as (Hs & He & E1 & E2 & E3 & E4 & E5 & Hm & Hab).
  destruct (same_provider_state _ _ _ Hs He Hm) as (S1 & S2 & S3 & S4 & S5). rewrite <- E1, S2, E5. split_and!; try by auto.
  cbn. rewrite filter_nothing; [done|]. intros n Hn. apply negb_false_iff, existsb_exists. exists n. rewrite <- list_elem_of_In. split; [by apply Hab|apply Nat.eqb_refl].
Qed.
