(* ===== verification/CompositionRuns.v ===== *)
(** A rehearsal of the composition that meets no fault runs every operation of the
    plan once, in order, and is confirmed. *)
From S2P Require Import Prelude Json JsonParse JsonRoundTrip Oracle Evidence Documents Delta DeltaFacts OfflineJournal Restoration Composition Triples CompositionJournal CompositionFacts CompositionOutcome.

Lemma bind_runs {S A B} (m : M S A) (f : A → M S B) s x s' : m s = (Ok x, s') → bind m f s = f x s'.
Proof. intros H. unfold bind. by rewrite H. Qed.

Section Runs.
Context (sha256 : string → string) (integral : string → option Z) (p : Plan) (Hp : plan_ok p) (tick_ms : Z) (Htick : 0 ≤ tick_ms).
Context (fate : nat → commit_io) (Hfate : ∀ n, fate n = Durable) (token : string) (base : Z).
Notation resource n := (nth n (pl_resources p) JNull).
Notation call := (call sha256 integral fate token p [] tick_ms base).
Notation observed := (observed sha256 integral fate token p [] tick_ms base).

(** ** One operation *)

Definition accepted (n : nat) : list (string * string) := map (λ o, (o, "accepted")) (take n COMPOSITION_OPERATIONS).
(** An open journal that holds these rows. *)
Record journal_at (l : list (string * string)) (s : Site) : Prop := {
  ja_marker : si_marker s = Some token;
  ja_closed : si_closed s = false;
  ja_open : cn_open (si_conn s) = None;
  ja_rows : ld_attempts (cn_durable (si_conn s)) = l }.
(** [n] operations were accepted, and the provider's state is [s]. *)
Record at_operation (n : nat) (s : State) (r : Run) : Prop := {
  ao_journal : journal_at (accepted n) (rn_site r);
  ao_halted : rn_halted r = false;
  ao_state : pv_state (rn_provider r) = s;
  ao_elapsed : pv_elapsed (rn_provider r) = Z.of_nat n * tick_ms;
  ao_stop : pv_stop (rn_provider r) = false }.

Lemma operations_nodup : NoDup COMPOSITION_OPERATIONS.
Proof. apply (bool_decide_unpack (NoDup _)). vm_compute. exact I. Qed.
Lemma accepted_names n : map fst (accepted n) = take n COMPOSITION_OPERATIONS.
Proof. unfold accepted. rewrite map_map. apply map_id. Qed.
Lemma accepted_next n o : COMPOSITION_OPERATIONS !! n = Some o → accepted (S n) = accepted n ++ [(o, "accepted")] ∧ o ∉ map fst (accepted n).
Proof.
  intros Ho. unfold accepted. rewrite (take_S_r _ _ _ Ho), map_app. split; [done|]. fold (accepted n). rewrite accepted_names.
  intros [i Hi]%list_elem_of_lookup. apply lookup_take_Some in Hi as [Hi Hlt]. pose proof (NoDup_lookup _ _ _ _ operations_nodup Ho Hi). lia.
Qed.
Lemma accepted_length n : (n ≤ 23)%nat → length (accepted n) = n.
Proof. intros Hn. unfold accepted. rewrite length_map, length_take. change (length COMPOSITION_OPERATIONS) with 23%nat. lia. Qed.

Lemma latch_runs n o s : journal_at (accepted n) s → COMPOSITION_OPERATIONS !! n = Some o →
  ∃ s', latch fate token plan_operations operation_cap o s = (Ok tt, s') ∧ journal_at (accepted n ++ [(o, "pending")]) s'.
Proof.
  intros [Hm Hc Ho Hr] Hn. destruct (accepted_next n o Hn) as [_ Hnew].
  assert (Hlen : (n < 23)%nat) by (apply lookup_lt_Some in Hn; exact Hn).
  assert (Hin : str_in o (plan_operations ++ RECONCILIATIONS) = true).
  { apply bool_decide_eq_true, elem_of_app. left. by eapply list_elem_of_lookup_2. }
  assert (Hcap : (length (accepted n) <? operation_cap)%nat = true).
  { apply Nat.ltb_lt. rewrite accepted_length by lia. change operation_cap with 25%nat. lia. }
  assert (Hfresh : str_in o (map fst (accepted n)) = false) by (by apply bool_decide_eq_false).
  destruct s as [marker [durable opened commits] closed]. cbn in Hm, Hc, Ho, Hr. subst.
  eexists. split.
  - unfold latch, assert_owner, bind, Prelude.get, lift. cbn [si_closed si_marker negb require]. rewrite bool_decide_true by done. cbn [require]. rewrite Hin. cbn [require].
    unfold records, bind, Prelude.get, on_conn, select, gets, visible. cbn [si_closed si_conn cn_open cn_durable default]. rewrite Hr, Hcap. cbn [require].
    unfold insert_once, on_conn, try, bind, write, visible, insert_pending. cbn [si_conn cn_open cn_durable default]. rewrite Hr, Hfresh.
    unfold commit. cbn [cn_commits]. rewrite Hfate. reflexivity.
  - by split; cbn.
Qed.
Lemma finish_runs n o s : journal_at (accepted n ++ [(o, "pending")]) s → COMPOSITION_OPERATIONS !! n = Some o →
  ∃ s', finish fate token o "accepted" s = (Ok tt, s') ∧ journal_at (accepted (S n)) s'.
Proof.
  intros [Hm Hc Ho Hr] Hn. destruct (accepted_next n o Hn) as [Hnext Hnew].
  assert (Hnone : List.filter (is_pending o) (accepted n) = []).
  { apply filter_nothing. intros [x y] Hx. unfold is_pending. apply bool_decide_eq_false. intros [= -> ->]. apply Hnew. apply list_elem_of_fmap. by exists (o, "pending"). }
  assert (Hkeep : map (λ row, if is_pending o row then (o, "accepted") else row) (accepted n) = accepted n).
  { rewrite <- (map_id (accepted n)) at 2. apply map_ext_in. intros row Hrow%list_elem_of_In. destruct (is_pending o row) eqn:E; [|done]. 
    apply bool_decide_eq_true in E as ->. destruct Hnew. apply list_elem_of_fmap. by exists (o, "pending"). }
  destruct s as [marker [durable opened commits] closed]. cbn in Hm, Hc, Ho, Hr. subst.
  assert (Hcount : bool_decide (length (List.filter (is_pending o) (ld_attempts durable)) = 1%nat) = true).
  { rewrite Hr, List.filter_app, Hnone. apply bool_decide_eq_true. cbn. unfold is_pending. by rewrite bool_decide_true. }
  eexists. split.
  - unfold finish, assert_owner, bind, Prelude.get, lift. cbn [si_closed si_marker negb require]. rewrite bool_decide_true by done. cbn [require].
    replace (str_in "accepted" ["accepted"; "refused"]) with true by reflexivity. cbn [require].
    unfold records, bind, Prelude.get, on_conn, select, gets, visible. cbn [si_closed si_conn cn_open cn_durable default]. 
    unfold on_conn, write, modify, commit, visible. cbn [si_conn si_marker si_closed cn_open cn_durable cn_commits default]. rewrite Hfate. cbn [si_conn si_marker si_closed cn_open cn_durable cn_commits default].
    rewrite Hcount. reflexivity.
  - split; cbn [si_marker si_closed si_conn cn_open cn_durable ld_attempts id]; try done. rewrite Hr, map_app, Hkeep, Hnext. cbn [map app]. unfold is_pending. by rewrite bool_decide_true.
Qed.

(** An operation that the provider accepts runs, and its reply is the new state. *)
Lemma call_runs n s s' o request r : at_operation n s r → COMPOSITION_OPERATIONS !! n = Some o → act sha256 integral p o request s = Some s' → sound s' →
  base + Z.of_nat (S n) * tick_ms < pl_outer p →
  ∃ r', call o request r = (Ok (Some (state_json p s')), r') ∧ at_operation (S n) s' r' ∧ locals r' = locals r.
Proof.
  intros [Hj Hh Hs He Hst] Hn Hact Hsound Hlate. destruct (latch_runs n o _ Hj Hn) as (s1 & Hl & Hj1). destruct (finish_runs n o _ Hj1 Hn) as (s2 & Hf & Hj2).
  set (v' := mkProvider s' (pv_elapsed (rn_provider r) + tick_ms) false (pv_calls (rn_provider r) ++ [o])).
  assert (Hperf : provider_call sha256 integral p [] tick_ms o request (rn_provider r) = (Ok (RAccepted (state_json p s')), v')).
  { unfold provider_call. assert (Hin : str_in o (COMPOSITION_OPERATIONS ++ RECONCILIATIONS) = true).
    { apply bool_decide_eq_true, elem_of_app. left. by eapply list_elem_of_lookup_2. }
    rewrite Hin, Hs, Hact, Hst. reflexivity. }
  assert (Hout : (pl_outer p <=? base + pv_elapsed (rn_provider r)) = false) by (apply Z.leb_gt; lia).
  assert (Hout' : (pl_outer p <=? base + pv_elapsed v') = false) by (apply Z.leb_gt; cbn; lia).
  eexists. split; [|split].
  - unfold Composition.call, outer_expired, now, bind, gets, ret. rewrite Hh, Hout. unfold on_site at 1. rewrite Hl. cbn [rn_provider rn_site]. unfold try, on_provider. cbn [rn_provider].
    rewrite Hperf. rewrite regular_finite by (by apply state_regular). unfold on_site. cbn [rn_site]. rewrite Hf. cbn [rn_provider]. rewrite Hout'. reflexivity.
  - split; cbn; try done. rewrite He. lia.
  - done.
Qed.

(** ** What each operation does, when nothing is wrong *)

Definition created_by (n : nat) (s : State) : State :=
  (if Nat.eqb n 2 then with_receiver (Some (pl_receiver p)) else id) (with_owned (st_owned s ++ [resource n]) s).
Definition initialized_by (s : State) : State := with_quota (Some true) (with_admission true (st_revision s) (with_initialized s)).
Definition deleted_by (n : nat) (s : State) : State :=
  (if Nat.eqb n 2 then with_receiver None else if Nat.eqb n 1 then with_quota None else id) (with_owned (removelast (st_owned s)) s).
Definition first (n : nat) : list json := map (λ m, resource m) (seq 0 n).

Lemma eqb_refl x : regular x → py_eqb integral x x = true.
Proof. apply py_eqb_refl. Qed.
Lemma act_create n s : (n < 3)%nat → st_owned s = first n →
  act sha256 integral p (numbered "create_resource_" n) (create_request p n) s = Some (created_by n s).
Proof.
  intros Hn Ho. unfold act. replace (kind_of (numbered "create_resource_" n)) with (OCreate n) by (destruct n as [|[|[|n]]]; [done..|lia]).
  rewrite bool_decide_true by done. cbn [negb orb].
  destruct (existsb _ (st_owned s)) eqn:E; [|done]. apply existsb_exists in E as (x & Hx & He). rewrite Ho in Hx. apply in_map_iff in Hx as (m & <- & Hm%in_seq).
  destruct (resource_named p Hp n Hn) as (t & _ & Nt & _), (resource_named p Hp m ltac:(lia)) as (u & _ & Nu & _). rewrite Nt, Nu in He. cbn in He.
  apply bool_decide_eq_true in He as ->. pose proof (resource_apart p Hp n m Hn ltac:(lia) ltac:(congruence)). lia.
Qed.
Lemma first_all : first 3 = pl_resources p.
Proof. pose proof (po_three _ Hp) as H. destruct (pl_resources p) as [|x [|y [|z [|w l]]]] eqn:E; try done. unfold first. by rewrite E. Qed.
Lemma act_initialize s : st_owned s = first 3 → st_initialized s = false →
  act sha256 integral p "initialize_synthetic" (JObj [("run", JStr (pl_run p)); ("startsAt", JInt (pl_start p))]) s = Some (initialized_by s).
Proof.
  intros Ho Hi. unfold act. change (kind_of "initialize_synthetic") with OInitialize. cbv iota. rewrite eqb_refl, Ho, first_all, Hi, bool_decide_true by first [done|split; [|by split]; apply (bool_decide_unpack (NoDup _)); vm_compute; exact I].
  done.
Qed.
Lemma act_upload s : st_uploaded s = None → act sha256 integral p "upload_version" (upload_request sha256 p) s = Some (with_uploaded (Some (upload_request sha256 p)) s).
Proof. intros Hu. unfold act. change (kind_of "upload_version") with OUpload. cbv iota. by rewrite eqb_refl, Hu by by apply upload_regular. Qed.
Lemma act_apply s u : st_uploaded s = Some u → act sha256 integral p "apply_temporary" (selection (pl_version p)) s
  = Some (with_snapshot (keep_production (member "productionState" (st_snapshot s)) (pl_temporary p)) s).
Proof. intros Hu. unfold act. change (kind_of "apply_temporary") with OApply. cbv iota. by rewrite eqb_refl, Hu by apply selection_regular, (po_version _ Hp). Qed.
Lemma act_disable s : act sha256 integral p "disable_temporary" (JObj [("run", JStr (pl_run p))]) s = Some (with_quota ((λ _, false) <$> st_quota s) (with_admission false 2 s)).
Proof. unfold act. change (kind_of "disable_temporary") with ODisable. cbv iota. rewrite eqb_refl; [done|]. split; [apply NoDup_singleton|by split]. Qed.
Lemma act_restore s : st_enabled s = false → act sha256 integral p "restore_retained" (pl_restore p) s
  = Some (with_snapshot (keep_production (member "productionState" (st_snapshot s)) (pl_baseline p)) s).
Proof. intros He. unfold act. change (kind_of "restore_retained") with ORestore. cbv iota. by rewrite eqb_refl, He by apply (po_restore _ Hp). Qed.
Lemma last_snoc {A} (l : list A) x : last_of (l ++ [x]) = Some x.
Proof. unfold last_of. by rewrite rev_app_distr. Qed.
Lemma first_S n : first (S n) = first n ++ [resource n].
Proof. unfold first. rewrite seq_S, map_app. done. Qed.
Lemma act_delete n s : (n < 3)%nat → st_owned s = first (S n) → canon (st_snapshot s) = canon (pl_baseline p) → st_enabled s = false →
  act sha256 integral p (numbered "delete_resource_" n) (resource n) s = Some (deleted_by n s).
Proof.
  intros Hn Ho Hs He. unfold act. replace (kind_of (numbered "delete_resource_" n)) with (ODelete n) by (destruct n as [|[|[|n]]]; [done..|lia]).
  rewrite eqb_refl by (by apply resource_regular). rewrite Ho, first_S, last_snoc, bool_decide_true by done. rewrite bool_decide_true by (by apply canon_text). by rewrite He, <- first_S, <- Ho.
Qed.
Lemma act_read o s : kind_of o = ORead → act sha256 integral p o (JObj []) s = Some s.
Proof. intros Hk. unfold act. by rewrite Hk. Qed.

(** ** Runs of operations *)

(** Up to the order of keys, the provider holds what is expected after [n] operations. *)
Definition agrees (n : nat) (e : State) (r : Run) : Prop :=
  ∃ j, at_operation n (with_snapshot j e) r ∧ regular j ∧ canon j = canon (st_snapshot e) ∧ sound e.
Definition phase (n : nat) (l : Locals) (r : Run) : Prop := agrees n (lc_expected l) r ∧ locals r = l.

Lemma sound_snapshot j s : sound s → regular j → sound (with_snapshot j s).
Proof. intros (Hs1 & Hs2 & Hs3 & Hs4) Hj. by split_and!. Qed.
Lemma snapshot_sound j s : sound (with_snapshot j s) → regular (st_snapshot s) → sound s.
Proof. intros (Hs1 & Hs2 & Hs3 & Hs4) Hj. by split_and!. Qed.
Lemma agreed_text j e : canon j = canon (st_snapshot e) → dumps (state_json p (with_snapshot j e)) = dumps (state_json p e).
Proof. intros Hj. apply canon_text. unfold state_json. cbn [st_snapshot with_snapshot]. cbn. by rewrite Hj. Qed.

Lemma observed_runs n o l r : phase n l r → COMPOSITION_OPERATIONS !! n = Some o → kind_of o = ORead → base + Z.of_nat (S n) * tick_ms < pl_outer p →
  ∃ r', observed o r = (Ok true, r') ∧ phase (S n) l r'.
Proof.
  intros [(j & Hat & Hr & Hj & He) Hl] Hn Hk Ht.
  destruct (call_runs n _ _ o (JObj []) r Hat Hn (act_read o _ Hk) (sound_snapshot _ _ He Hr) Ht) as (r' & Hcall & Hat' & Hl').
  exists r'. split; [|split; [by exists j|congruence]]. unfold Composition.observed. rewrite (bind_runs _ _ _ _ _ Hcall). unfold bind, gets.
  assert (rn_expected r' = lc_expected l) as -> by (rewrite <- Hl, <- Hl'; done). by rewrite bool_decide_true by by apply agreed_text.
Qed.
(** An operation is called, the locals follow, and an observation confirms it. *)
Lemma called_runs n o request l e' r : phase n l r → COMPOSITION_OPERATIONS !! n = Some o →
  (∀ j, regular j → canon j = canon (st_snapshot (lc_expected l)) →
     ∃ j', act sha256 integral p o request (with_snapshot j (lc_expected l)) = Some (with_snapshot j' e') ∧ canon j' = canon (st_snapshot e')) →
  regular (st_snapshot e') → base + Z.of_nat (S n) * tick_ms < pl_outer p →
  ∃ r', called sha256 integral fate token p [] tick_ms base o request r = (Ok true, r') ∧ agrees (S n) e' r' ∧ locals r' = l.
Proof.
  intros [(j & Hat & Hr & Hj & He) Hl] Hn Hact He' Ht. destruct (Hact j Hr Hj) as (j' & Ha & Hj').
  pose proof (act_sound sha256 integral p Hp o request _ _ (sound_snapshot _ _ He Hr) Ha) as Hs.
  destruct (call_runs n _ _ o request r Hat Hn Ha Hs Ht) as (r' & Hcall & Hat' & Hl'). exists r'. split; [|split; [|congruence]].
  - unfold called. by rewrite (bind_runs _ _ _ _ _ Hcall).
  - assert (Hj2 : regular j') by (destruct Hs as [Hs _]; exact Hs). exists j'. split; [done|]. split; [done|]. split; [done|]. by apply (snapshot_sound j').
Qed.
Lemma agrees_local n e r r' : agrees n e r → rn_site r' = rn_site r → rn_provider r' = rn_provider r → rn_halted r' = rn_halted r → agrees n e r'.
Proof. intros (j & [] & Hj) E1 E2 E3. exists j. split; [|done]. split; congruence. Qed.
Lemma open_runs n l r : phase n l r → base + Z.of_nat n * tick_ms < pl_work p → work_open p base false r = (Ok true, r).
Proof.
  intros [(j & [] & _) _] Ht. unfold work_open, now, bind, gets, ret. rewrite ao_stop0. cbn [orb].
  destruct (Z.leb_spec (pl_work p) (base + pv_elapsed (rn_provider r))) as [H|H]; [lia|done].
Qed.

(** The updates of the locals. *)
Definition sets (m : M Run unit) (f : Locals → Locals) : Prop := ∀ n e r, agrees n e r → ∃ r', m r = (Ok tt, r') ∧ agrees n e r' ∧ locals r' = f (locals r).
Local Ltac local_update := intros n e r Hr; eexists; split; [reflexivity|]; split; [by eapply agrees_local|reflexivity].
Lemma sets_created k : sets (add_created k) (λ l, mkLocals (lc_expected l) (lc_applied l) (lc_initialized l) (lc_created l ++ [k]) (lc_absent l) (lc_cleanup l)).
Proof. local_update. Qed.
Lemma sets_absent k : sets (add_absent k) (λ l, mkLocals (lc_expected l) (lc_applied l) (lc_initialized l) (lc_created l) (lc_absent l ++ [k]) (lc_cleanup l)).
Proof. local_update. Qed.
Lemma sets_expected f : sets (expect f) (λ l, mkLocals (f (lc_expected l)) (lc_applied l) (lc_initialized l) (lc_created l) (lc_absent l) (lc_cleanup l)).
Proof. local_update. Qed.
Lemma sets_initialized : sets set_initialized (λ l, mkLocals (lc_expected l) (lc_applied l) true (lc_created l) (lc_absent l) (lc_cleanup l)).
Proof. local_update. Qed.
Lemma sets_applied : sets set_applied (λ l, mkLocals (lc_expected l) true (lc_initialized l) (lc_created l) (lc_absent l) (lc_cleanup l)).
Proof. local_update. Qed.
Lemma sets_uploaded : sets set_uploaded id.
Proof. local_update. Qed.
(** [m] then [k], where [m] sets the locals. *)
Lemma sets_then {A} m f (k : M Run A) n e l r : sets m f → agrees n e r → locals r = l → ∃ r', (m ;* k) r = k r' ∧ agrees n e r' ∧ locals r' = f l.
Proof. intros Hm Hr <-. destruct (Hm n e r Hr) as (r' & H & Hr' & Hl). exists r'. by rewrite (bind_runs _ _ _ _ _ H). Qed.

Context (Hwork : base + 11 * tick_ms < pl_work p) (Houter : base + 23 * tick_ms < pl_outer p).
Lemma in_time n : (n ≤ 23)%nat → base + Z.of_nat n * tick_ms < pl_outer p.
Proof. intros Hn. assert (Z.of_nat n * tick_ms ≤ 23 * tick_ms) by (apply Z.mul_le_mono_nonneg_r; lia). lia. Qed.
Lemma in_work n : (n ≤ 11)%nat → base + Z.of_nat n * tick_ms < pl_work p.
Proof. intros Hn. assert (Z.of_nat n * tick_ms ≤ 11 * tick_ms) by (apply Z.mul_le_mono_nonneg_r; lia). lia. Qed.

(** What the locals are along a run. *)
Definition expected_of (k : nat) : State := foldl (λ s n, created_by n s) (initial_state p) (seq 0 k).
Definition creating (k : nat) : Locals := mkLocals (expected_of k) false false (seq 0 k) [] "cleanup_unconfirmed".
Lemma expected_S k : expected_of (S k) = created_by k (expected_of k).
Proof. unfold expected_of. by rewrite seq_S, foldl_app. Qed.
Lemma created_snapshot n s j : created_by n (with_snapshot j s) = with_snapshot j (created_by n s) ∧ st_snapshot (created_by n s) = st_snapshot s
  ∧ st_owned (created_by n s) = st_owned s ++ [resource n] ∧ st_enabled (created_by n s) = st_enabled s ∧ st_initialized (created_by n s) = st_initialized s
  ∧ st_uploaded (created_by n s) = st_uploaded s.
Proof. unfold created_by. by destruct (Nat.eqb n 2). Qed.
Lemma expected_first k : st_owned (expected_of k) = first k ∧ st_snapshot (expected_of k) = pl_baseline p ∧ st_enabled (expected_of k) = false
  ∧ st_initialized (expected_of k) = false ∧ st_uploaded (expected_of k) = None.
Proof.
  induction k as [|k (IH1 & IH2 & IH3 & IH4 & IH5)]; [done|]. rewrite expected_S. destruct (created_snapshot k (expected_of k) JNull) as (_ & -> & -> & -> & -> & ->).
  by rewrite IH1, first_S.
Qed.
Lemma create_runs k r : phase (1 + 2 * k) (creating k) r → (k < 3)%nat → ∀ rest,
  ∃ r', create_all sha256 integral fate token p [] tick_ms base false (k :: rest) r = create_all sha256 integral fate token p [] tick_ms base false rest r'
    ∧ phase (3 + 2 * k) (creating (S k)) r'.
Proof.
  intros Hph Hk rest. destruct (expected_first k) as (Eo & Es & _).
  assert (Hn : COMPOSITION_OPERATIONS !! (1 + 2 * k)%nat = Some (numbered "create_resource_" k) ∧ COMPOSITION_OPERATIONS !! (2 + 2 * k)%nat = Some (numbered "read_resource_" k)
    ∧ kind_of (numbered "read_resource_" k) = ORead) by (destruct k as [|[|[|k]]]; [by split_and!..|lia]). destruct Hn as (Hn1 & Hn2 & Hkind).
  cbn [create_all]. rewrite (bind_runs _ _ _ _ _ (open_runs _ _ _ Hph (in_work (1 + 2 * k) ltac:(lia)))). cbn [negb].
  destruct (called_runs _ _ (create_request p k) _ (created_by k (expected_of k)) _ Hph Hn1) as (r1 & Hcall & Hag & Hl1).
  { intros j Hj Hc. exists j. destruct (created_snapshot k (expected_of k) j) as (<- & -> & _). split; [|done]. by apply act_create. }
  { destruct (created_snapshot k (expected_of k) JNull) as (_ & -> & _). rewrite Es. apply (po_baseline _ Hp). }
  { apply in_time. lia. }
  rewrite (bind_runs _ _ _ _ _ Hcall). cbn [negb].
  match goal with |- context [bind (add_created k) (λ _, ?m) r1] => destruct (sets_then _ _ m _ _ _ r1 (sets_created k) Hag Hl1) as (r2 & -> & Hag2 & Hl2) end.
  match goal with |- context [bind (expect ?f) (λ _, ?m) r2] => destruct (sets_then _ _ m _ _ _ r2 (sets_expected f) Hag2 Hl2) as (r3 & -> & Hag3 & Hl3) end.
  assert (Hph3 : phase (2 + 2 * k) (creating (S k)) r3).
  { cbn in Hl3. split; [unfold creating; cbn [lc_expected]; by rewrite expected_S|]. rewrite Hl3. unfold creating. by rewrite expected_S, seq_S. }
  destruct (observed_runs _ _ _ _ Hph3 Hn2 Hkind (in_time (3 + 2 * k) ltac:(lia))) as (r4 & Hob & Hph4). exists r4. rewrite (bind_runs _ _ _ _ _ Hob). by split.
Qed.

(** *** The middle phases *)

Definition after_init : State := initialized_by (expected_of 3).
Definition after_upload : State := with_uploaded (Some (upload_request sha256 p)) after_init.
Definition after_apply : State := with_snapshot (pl_temporary p) after_upload.
Definition after_disable : State := with_quota (Some false) (with_admission false 2 after_apply).
Definition after_restore : State := with_snapshot (pl_baseline p) after_disable.
Definition middle (e : State) (applied initialized : bool) (absent : list nat) : Locals := mkLocals e applied initialized (seq 0 3) absent "cleanup_unconfirmed".

Lemma canon_set_same k v w d : dict_get k d = Some w → canon v = canon w → canon (JObj (dict_set k v d)) = canon (JObj d).
Proof.
  intros Hk Hv. cbn [canon]. do 2 f_equal. revert Hk. induction d as [|[x y] d IH]; cbn; [done|]. destruct (bool_decide_reflect (k = x)) as [->|]; cbn.
  - intros [= ->]. by rewrite Hv.
  - intros Hk. by rewrite IH.
Qed.
Lemma production_kept j d w : regular j → regular (JObj d) → dict_get "productionState" d = Some w → canon (member "productionState" j) = canon w →
  canon (keep_production (member "productionState" j) (JObj d)) = canon (JObj d).
Proof. intros Hj Hd Hk Hv. unfold keep_production. cbn [set_member]. by apply (canon_set_same _ _ w). Qed.
Lemma production_of j d w : regular j → regular (JObj d) → dict_get "productionState" d = Some w → canon j = canon (JObj d) → canon (member "productionState" j) = canon w.
Proof.
  intros Hj Hd Hk E. destruct j as [| | | | | |l]; try done. pose proof (canon_get "productionState" _ _ Hj Hd E) as H. rewrite Hk in H. cbn [member]. unfold got.
  destruct (dict_get "productionState" l) as [v|]; [by injection H|done].
Qed.
Lemma temporary_kept j : regular j → canon j = canon (pl_baseline p) → canon (keep_production (member "productionState" j) (pl_temporary p)) = canon (pl_temporary p).
Proof.
  intros Hj E. destruct (po_production _ Hp) as (b & t & u & v & Eb & Et & Hu & Hv & Huv). pose proof (po_baseline _ Hp) as Rb. pose proof (po_temporary _ Hp) as Rt.
  rewrite Eb in *. rewrite Et in *. apply (production_kept _ _ v); try done. rewrite <- Huv. by apply (production_of _ b).
Qed.
Lemma baseline_kept j : regular j → canon j = canon (pl_temporary p) → canon (keep_production (member "productionState" j) (pl_baseline p)) = canon (pl_baseline p).
Proof.
  intros Hj E. destruct (po_production _ Hp) as (b & t & u & v & Eb & Et & Hu & Hv & Huv). pose proof (po_baseline _ Hp) as Rb. pose proof (po_temporary _ Hp) as Rt.
  rewrite Eb in *. rewrite Et in *. apply (production_kept _ _ u); try done. rewrite Huv. by apply (production_of _ t).
Qed.

Lemma initialize_runs r : phase 7 (creating 3) r → ∃ r', initialize sha256 integral fate token p [] tick_ms base false true r = (Ok true, r') ∧ phase 9 (middle after_init false true []) r'.
Proof.
  intros Hph. destruct (expected_first 3) as (Eo & Es & Ee & Ei & Eu). unfold initialize. cbn [and_open]. rewrite (bind_runs _ _ _ _ _ (open_runs _ _ _ Hph (in_work 7 ltac:(lia)))). cbn [negb].
  destruct (called_runs 7 "initialize_synthetic" (JObj [("run", JStr (pl_run p)); ("startsAt", JInt (pl_start p))]) _ after_init _ Hph eq_refl) as (r1 & Hcall & Hag & Hl1).
  { intros j Hj Hc. exists j. split; [|done]. by apply act_initialize. }
  { change (regular (st_snapshot (expected_of 3))). rewrite Es. apply (po_baseline _ Hp). }
  { apply (in_time 8). lia. }
  rewrite (bind_runs _ _ _ _ _ Hcall). cbn [negb].
  match goal with |- context [bind set_initialized (λ _, ?m) r1] => destruct (sets_then _ _ m _ _ _ r1 sets_initialized Hag Hl1) as (r2 & -> & Hag2 & Hl2) end.
  match goal with |- context [bind (expect ?f) (λ _, ?m) r2] => destruct (sets_then _ _ m _ _ _ r2 (sets_expected f) Hag2 Hl2) as (r3 & -> & Hag3 & Hl3) end.
  apply (observed_runs 8); [by split|done|done|apply (in_time 9); lia].
Qed.
Lemma upload_runs r : phase 9 (middle after_init false true []) r → ∃ r', upload sha256 integral fate token p [] tick_ms base false true r = (Ok true, r') ∧ phase 11 (middle after_upload false true []) r'.
Proof.
  intros Hph. destruct (expected_first 3) as (Eo & Es & Ee & Ei & Eu). unfold upload. cbn [and_open]. rewrite (bind_runs _ _ _ _ _ (open_runs _ _ _ Hph (in_work 9 ltac:(lia)))). cbn [negb].
  destruct (called_runs 9 "upload_version" (upload_request sha256 p) _ after_upload _ Hph eq_refl) as (r1 & Hcall & Hag & Hl1).
  { intros j Hj Hc. exists j. split; [|done]. by apply act_upload. }
  { change (regular (st_snapshot (expected_of 3))). rewrite Es. apply (po_baseline _ Hp). }
  { apply (in_time 10). lia. }
  rewrite (bind_runs _ _ _ _ _ Hcall). cbn [negb].
  match goal with |- context [bind set_uploaded (λ _, ?m) r1] => destruct (sets_then _ _ m _ _ _ r1 sets_uploaded Hag Hl1) as (r2 & -> & Hag2 & Hl2) end.
  match goal with |- context [bind (expect ?f) (λ _, ?m) r2] => destruct (sets_then _ _ m _ _ _ r2 (sets_expected f) Hag2 Hl2) as (r3 & -> & Hag3 & Hl3) end.
  apply (observed_runs 10); [by split|done|done|apply (in_time 11); lia].
Qed.
Lemma apply_runs r : phase 11 (middle after_upload false true []) r →
  ∃ r', apply_temporary sha256 integral fate token p [] tick_ms base false true r = (Ok tt, r') ∧ phase 13 (middle after_apply true true []) r'.
Proof.
  intros Hph. destruct (expected_first 3) as (Eo & Es & Ee & Ei & Eu). unfold apply_temporary. cbn [and_open]. rewrite (bind_runs _ _ _ _ _ (open_runs _ _ _ Hph (in_work 11 ltac:(lia)))). cbn [negb].
  destruct (called_runs 11 "apply_temporary" (selection (pl_version p)) _ after_apply _ Hph eq_refl) as (r1 & Hcall & Hag & Hl1).
  { intros j Hj Hc. exists (keep_production (member "productionState" j) (pl_temporary p)). split; [exact (act_apply (with_snapshot j after_upload) (upload_request sha256 p) eq_refl)|]. change (canon j = canon (st_snapshot (expected_of 3))) in Hc. rewrite Es in Hc. by apply temporary_kept. }
  { apply (po_temporary _ Hp). }
  { apply (in_time 12). lia. }
  rewrite (bind_runs _ _ _ _ _ Hcall). cbn [negb].
  match goal with |- context [bind set_applied (λ _, ?m) r1] => destruct (sets_then _ _ m _ _ _ r1 sets_applied Hag Hl1) as (r2 & -> & Hag2 & Hl2) end.
  match goal with |- context [bind (expect ?f) (λ _, ?m) r2] => destruct (sets_then _ _ m _ _ _ r2 (sets_expected f) Hag2 Hl2) as (r3 & -> & Hag3 & Hl3) end.
  destruct (observed_runs 12 "read_temporary" (middle after_apply true true []) r3) as (r4 & Hob & Hph4); [by split|done|done|apply (in_time 13); lia|].
  exists r4. by rewrite (bind_runs _ _ _ _ _ Hob).
Qed.
Lemma disable_runs r : phase 13 (middle after_apply true true []) r → ∃ r', disable sha256 integral fate token p [] tick_ms base r = (Ok true, r') ∧ phase 15 (middle after_disable true true []) r'.
Proof.
  intros Hph. unfold disable. assert (Hi : rn_initialized r = true) by (destruct Hph as [_ Hl]; by apply (f_equal lc_initialized) in Hl). unfold bind at 1, gets. rewrite Hi. cbn [negb].
  destruct (called_runs 13 "disable_temporary" (JObj [("run", JStr (pl_run p))]) _ after_disable _ Hph eq_refl) as (r1 & Hcall & Hag & Hl1).
  { intros j Hj Hc. exists j. split; [|done]. by rewrite act_disable. }
  { apply (po_temporary _ Hp). }
  { apply (in_time 14). lia. }
  rewrite (bind_runs _ _ _ _ _ Hcall). cbn [negb].
  match goal with |- context [bind (expect ?f) (λ _, ?m) r1] => destruct (sets_then _ _ m _ _ _ r1 (sets_expected f) Hag Hl1) as (r2 & -> & Hag2 & Hl2) end.
  apply (observed_runs 14); [by split|done|done|apply (in_time 15); lia].
Qed.
Lemma restore_runs r : phase 15 (middle after_disable true true []) r → ∃ r', restore sha256 integral fate token p [] tick_ms base r = (Ok true, r') ∧ phase 16 (middle after_restore true true []) r'.
Proof.
  intros Hph. unfold restore. assert (Hi : rn_applied r = true) by (destruct Hph as [_ Hl]; by apply (f_equal lc_applied) in Hl). unfold bind at 1, gets. rewrite Hi. cbn [negb].
  destruct (called_runs 15 "restore_retained" (pl_restore p) _ after_restore _ Hph eq_refl) as (r1 & Hcall & Hag & Hl1).
  { intros j Hj Hc. exists (keep_production (member "productionState" j) (pl_baseline p)). split; [exact (act_restore (with_snapshot j after_disable) eq_refl)|]. by apply baseline_kept. }
  { apply (po_baseline _ Hp). }
  { apply (in_time 16). lia. }
  rewrite (bind_runs _ _ _ _ _ Hcall). cbn [negb].
  match goal with |- context [bind (expect ?f) (λ _, ?m) r1] => destruct (sets_then _ _ m _ _ _ r1 (sets_expected f) Hag Hl1) as (r2 & -> & Hag2 & Hl2) end.
  exists r2. split; [done|]. by split.
Qed.

(** *** The deletions, and the whole rehearsal *)

Fixpoint removed (m : nat) : State := match m with O => after_restore | S m => deleted_by (2 - m) (removed m) end.
Lemma deleted_snapshot n s j : deleted_by n (with_snapshot j s) = with_snapshot j (deleted_by n s) ∧ st_snapshot (deleted_by n s) = st_snapshot s
  ∧ st_owned (deleted_by n s) = removelast (st_owned s) ∧ st_enabled (deleted_by n s) = st_enabled s.
Proof. unfold deleted_by. destruct (Nat.eqb n 2); [done|]. by destruct (Nat.eqb n 1). Qed.
Lemma removed_facts m : (m ≤ 3)%nat → st_owned (removed m) = first (3 - m) ∧ st_snapshot (removed m) = pl_baseline p ∧ st_enabled (removed m) = false.
Proof.
  induction m as [|m IH]; intros Hm; [cbn [removed Nat.sub]; destruct (expected_first 3) as (Eo & _); by split|].
  destruct (IH ltac:(lia)) as (E1 & E2 & E3). cbn [removed]. destruct (deleted_snapshot (2 - m) (removed m) JNull) as (_ & -> & -> & ->).
  split; [|done]. rewrite E1. replace (3 - m)%nat with (S (3 - S m)) by lia. by rewrite first_S, removelast_last.
Qed.
Lemma delete_runs m absent r : phase (17 + 2 * m) (middle (removed m) true true absent) r → (m < 3)%nat → ∀ rest,
  ∃ r', delete_all sha256 integral fate token p [] tick_ms base ((2 - m)%nat :: rest) r = delete_all sha256 integral fate token p [] tick_ms base rest r'
    ∧ phase (19 + 2 * m) (middle (removed (S m)) true true (absent ++ [(2 - m)%nat])) r'.
Proof.
  intros Hph Hm rest. destruct (removed_facts m ltac:(lia)) as (Eo & Es & Ee). set (k := (2 - m)%nat).
  assert (Hn : COMPOSITION_OPERATIONS !! (17 + 2 * m)%nat = Some (numbered "delete_resource_" k) ∧ COMPOSITION_OPERATIONS !! (18 + 2 * m)%nat = Some (numbered "read_absent_" k)
    ∧ kind_of (numbered "read_absent_" k) = ORead) by (subst k; destruct m as [|[|[|m]]]; [by split_and!..|lia]). destruct Hn as (Hn1 & Hn2 & Hkind).
  cbn [delete_all].
  destruct (called_runs _ _ (resource k) _ (deleted_by k (removed m)) _ Hph Hn1) as (r1 & Hcall & Hag & Hl1).
  { intros j Hj Hc. exists j. destruct (deleted_snapshot k (removed m) j) as (<- & -> & _). split; [|done]. apply act_delete; [subst k; lia| | |].
    - etrans; [exact Eo|]. unfold k. f_equal. lia.
    - etrans; [exact Hc|]. change (canon (st_snapshot (removed m)) = canon (pl_baseline p)). by rewrite Es.
    - done. }
  { destruct (deleted_snapshot k (removed m) JNull) as (_ & -> & _). rewrite Es. apply (po_baseline _ Hp). }
  { apply in_time. lia. }
  rewrite (bind_runs _ _ _ _ _ Hcall). cbn [negb].
  match goal with |- context [bind (expect ?f) (λ _, ?m) r1] => destruct (sets_then _ _ m _ _ _ r1 (sets_expected f) Hag Hl1) as (r2 & -> & Hag2 & Hl2) end.
  assert (Hph2 : phase (18 + 2 * m) (middle (removed (S m)) true true absent) r2) by by split.
  destruct (observed_runs _ _ _ _ Hph2 Hn2 Hkind (in_time (19 + 2 * m) ltac:(lia))) as (r3 & Hob & Hag3 & Hl3). rewrite (bind_runs _ _ _ _ _ Hob). cbn [negb].
  match goal with |- context [bind (add_absent k) (λ _, ?m) r3] => destruct (sets_then _ _ m _ _ _ r3 (sets_absent k) Hag3 Hl3) as (r4 & -> & Hag4 & Hl4) end.
  exists r4. split; [done|]. by split.
Qed.
Lemma clean_runs r : phase 13 (middle after_apply true true []) r → ∃ r', clean_up sha256 integral fate token p [] tick_ms base r = (Ok tt, r')
  ∧ agrees 23 (removed 3) r' ∧ rn_cleanup r' = "confirmed_offline" ∧ rn_reason r' = "restored_and_absent".
Proof.
  intros Hph. unfold clean_up. destruct (disable_runs r Hph) as (r1 & Hd & Hph1). rewrite (bind_runs _ _ _ _ _ Hd).
  unfold bind at 1, gets at 1. assert (Hh : rn_halted r1 = false) by (by destruct Hph1 as [(j & [] & _) _]). rewrite Hh. cbn [negb orb].
  destruct (restore_runs r1 Hph1) as (r2 & Hr & Hph2). rewrite (bind_runs _ _ _ _ _ Hr). cbn [negb].
  destruct (observed_runs 16 "read_restored" _ r2 Hph2 eq_refl eq_refl (in_time 17 ltac:(lia))) as (r3 & Hob & Hph3). rewrite (bind_runs _ _ _ _ _ Hob). cbn [negb].
  unfold bind at 1, gets at 1. assert (Hc : rn_created r3 = seq 0 3) by (destruct Hph3 as [_ Hl]; apply (f_equal lc_created) in Hl; exact Hl). rewrite Hc.
  destruct (delete_runs 0 [] r3 Hph3 ltac:(lia) [1%nat; 0%nat]) as (r4 & H4 & Hph4). destruct (delete_runs 1 _ r4 Hph4 ltac:(lia) [0%nat]) as (r5 & H5 & Hph5).
  destruct (delete_runs 2 _ r5 Hph5 ltac:(lia) []) as (r6 & H6 & Hag6 & _).
  assert (Hall : delete_all sha256 integral fate token p [] tick_ms base (rev (seq 0 3)) r3 = (Ok true, r6)) by (etrans; [exact H4|]; etrans; [exact H5|]; exact H6).
  rewrite (bind_runs _ _ _ _ _ Hall). eexists. split; [reflexivity|]. split; [apply (agrees_local 23 (removed 3) r6); [exact Hag6|done|done|apply orb_false_r]|done].
Qed.
Lemma rehearsal_runs r : phase 0 (creating 0) r → ∃ r', rehearsal sha256 integral fate token p [] tick_ms base false r = (Ok tt, r')
  ∧ agrees 23 (removed 3) r' ∧ rn_cleanup r' = "confirmed_offline" ∧ rn_reason r' = "restored_and_absent".
Proof.
  intros Hph. unfold rehearsal. rewrite (bind_runs _ _ _ _ _ (open_runs _ _ _ Hph (in_work 0 ltac:(lia)))). cbn [negb].
  destruct (observed_runs 0 "read_baseline" _ r Hph eq_refl eq_refl (in_time 1 ltac:(lia))) as (r1 & Hob & Hph1). rewrite (bind_runs _ _ _ _ _ Hob). cbn [negb].
  rewrite (bind_runs _ _ _ _ _ (open_runs _ _ _ Hph1 (in_work 1 ltac:(lia)))). cbn [negb]. unfold attempt. rewrite (po_three _ Hp).
  destruct (create_runs 0 r1 Hph1 ltac:(lia) [1%nat; 2%nat]) as (r2 & H2 & Hph2). destruct (create_runs 1 r2 Hph2 ltac:(lia) [2%nat]) as (r3 & H3 & Hph3).
  destruct (create_runs 2 r3 Hph3 ltac:(lia) []) as (r4 & H4 & Hph4).
  assert (Hall : create_all sha256 integral fate token p [] tick_ms base false (seq 0 3) r1 = (Ok true, r4)) by (etrans; [exact H2|]; etrans; [exact H3|]; exact H4).
  rewrite (bind_runs _ _ _ _ _ Hall). destruct (initialize_runs r4 Hph4) as (r5 & H5 & Hph5). rewrite (bind_runs _ _ _ _ _ H5).
  destruct (upload_runs r5 Hph5) as (r6 & H6 & Hph6). rewrite (bind_runs _ _ _ _ _ H6). destruct (apply_runs r6 Hph6) as (r7 & H7 & Hph7). rewrite (bind_runs _ _ _ _ _ H7).
  by apply clean_runs.
Qed.
End Runs.

Lemma start_runs fate (Hfate : ∀ n, fate n = Durable) token s : si_marker s = Some token → si_closed s = false → cn_open (si_conn s) = None →
  ld_started (cn_durable (si_conn s)) = false → ld_attempts (cn_durable (si_conn s)) = [] →
  ∃ s1, start_once fate token s = (Ok tt, s1) ∧ journal_at token [] s1.
Proof.
  destruct s as [marker [durable opened commits] closed]. cbn. intros -> -> -> Hs Hn. eexists. split.
  - unfold start_once, assert_owner, bind, Prelude.get, lift. cbn [si_closed si_marker negb require]. rewrite bool_decide_true by done. cbn [require].
    unfold insert_once, on_conn, try, bind, write, visible, insert_started. cbn [si_conn cn_open cn_durable default id]. rewrite Hs. unfold commit. cbn [cn_commits].
    rewrite Hfate. reflexivity.
  - by split.
Qed.

(** C22: Without faults, with commits that work and an open journal of the same plan that
    holds nothing, a rehearsal that starts in time for its eleven steps of work and its
    twenty-three operations is confirmed: every operation of the plan was dispatched
    once, in order, and acknowledged. *)
Theorem composition_completes sha256 integral fate token plan provider_plan journal_plan tick_ms now_ms p s :
  distinct plan → validate_composition_plan sha256 integral plan = Ok p →
  same_text plan journal_plan = Ok true → same_text plan provider_plan = Ok true →
  (∀ n, fate n = Durable) → si_marker s = Some token → si_closed s = false → cn_open (si_conn s) = None →
  ld_started (cn_durable (si_conn s)) = false → ld_attempts (cn_durable (si_conn s)) = [] →
  0 ≤ tick_ms → let base := default (pl_start p) now_ms in
  pl_start p ≤ base ≤ 2 ^ 53 → base + 11 * tick_ms < pl_work p → base + 23 * tick_ms < pl_outer p →
  ∃ c s' v', rehearse_composition sha256 integral fate token plan journal_plan provider_plan [] tick_ms now_ms false (s, new_provider p) = (Ok c, (s', v'))
    ∧ rc_cleanup c = "confirmed_offline" ∧ rc_reason c = "restored_and_absent" ∧ rc_pending c = []
    ∧ ld_attempts (cn_durable (si_conn s')) = map (λ o, (o, "accepted")) COMPOSITION_OPERATIONS.
Proof.
  intros Hdis Hplan Hj Hpr Hfate Hmarker Hclosed Hopen Hstarted Hnone Htick base [Hb1 Hb2] Hwork Houter. pose proof (validate_plan_ok _ _ _ _ Hdis Hplan) as Hp.
  unfold rehearse_composition. rewrite Hplan, Hj, Hpr. cbn [rbind andb require fst snd]. fold base.
  destruct (start_runs fate Hfate token s) as (s1 & Hstart & Hj1); [done..|].
  set (r1 := mkRun s1 (new_provider p) (initial_state p) "not_started" false "cleanup_unconfirmed" false false false [] []).
  assert (Hph : phase tick_ms token 0 (creating p 0) r1).
  { split; [|done]. exists (pl_baseline p). split; [by split|]. split; [apply (po_baseline _ Hp)|]. split; [done|]. by apply initial_state_sound. }
  destruct (rehearsal_runs sha256 integral p Hp tick_ms Htick fate Hfate token base Hwork Houter r1 Hph) as (r2 & Hrun & (j & Hat & _) & Hclean & Hreason).
  destruct Hat as [[Hm2 Hc2 Ho2 Hr2] _ _ _ _].
  assert (Hrun2 : rehearse_run sha256 integral fate token p [] tick_ms base false (new_run p s (new_provider p)) = (Ok (receipt p false r2 (accepted 23)), r2)).
  { unfold rehearse_run. assert (Htime : (pl_start p <=? base) && (base <=? 2 ^ 53) = true) by (apply andb_true_iff; split; by apply Z.leb_le).
    assert (Hrec : ∀ r, si_closed (rn_site r) = false → cn_open (si_conn (rn_site r)) = None → on_site records r = (Ok (ld_attempts (cn_durable (si_conn (rn_site r)))), r)).
    { intros [[m0 [d0 o0 c0] cl0]] H1 H2. cbn in H1, H2. by subst. }
    rewrite (bind_runs _ _ _ tt (new_run p s (new_provider p))) by (unfold lift; by rewrite Htime).
    rewrite (bind_runs _ _ _ _ _ (Hrec (new_run p s (new_provider p)) Hclosed Hopen)). change (rn_site (new_run p s (new_provider p))) with s. rewrite Hnone.
    rewrite (bind_runs _ _ _ [] (new_run p s (new_provider p))) by done. rewrite (bind_runs _ _ _ tt (new_run p s (new_provider p))) by done.
    rewrite (bind_runs _ _ _ tt r1) by (unfold on_site; change (rn_site (new_run p s (new_provider p))) with s; by rewrite Hstart).
    rewrite (bind_runs _ _ _ _ _ Hrun). rewrite (bind_runs _ _ _ _ _ (Hrec r2 Hc2 Ho2)). by rewrite Hr2. }
  rewrite Hrun2. exists (receipt p false r2 (accepted 23)), (rn_site r2), (rn_provider r2). split; [done|]. split; [done|].
  split; [cbn; rewrite Hreason; done|]. split; [|exact Hr2]. cbn [receipt rc_pending]. vm_compute. reflexivity.
Qed.
