(* ===== verification/CompositionExample.v ===== *)
(** A delta over a small complete baseline, its rehearsals with and without a fault,
    and the restoration of a packet: the theorems on concrete inputs. *)
From S2P Require Import Prelude Json JsonParse JsonRoundTrip Oracle Evidence Documents Delta DeltaFacts OfflineJournal Restoration Composition Triples CompositionJournal CompositionFacts CompositionOutcome CompositionRuns RestorationFacts.

Definition lab_digest (text : string) : string := String.concat EmptyString (repeat (if Z.even (slen text) then "0" else "1") 64).
Definition no_float (_ : string) : option Z := None.
Definition lab_run : string := "0123456789abcdef0123456789abcdef".
Definition ones (n : nat) : string := String.concat EmptyString (repeat "1" n).
Definition empty_sections : list (string * json) :=
  [("runtime", JObj []); ("assets", JObj []); ("classLifecycle", JObj []); ("secretReferences", JObj []); ("attachment", JObj []);
   ("routes", JArr []); ("domains", JArr []); ("effectiveEdge", JObj []);
   ("capabilities", JObj [("intake", JBool false); ("dispatch", JBool false); ("thumbnail", JBool false)])].
Definition configuration (bindings resources : list json) : json := JObj ([("bindings", JArr bindings); ("resources", JArr resources)] ++ empty_sections).
Definition lab_baseline : json :=
  JObj [("schemaVersion", JInt 1); ("kind", JStr "temporary_composition_baseline");
        ("target", JObj [("accountId", JStr "account"); ("scriptName", JStr "worker")]); ("retainedVersion", JStr "retained-1");
        ("deploymentWeights", JObj [("retained-1", JInt 100)]); ("moduleSha256", JStr (ones 64));
        ("configuration", configuration [JObj [("name", JStr "DB"); ("type", JStr "d1"); ("database_id", JStr "production")]]
                            [JObj [("kind", JStr "d1"); ("identity", JStr "production")]]);
        ("productionState", JObj [("rows", JInt 7)])].
Definition owned (kind identity : string) : json := JObj [("kind", JStr kind); ("identity", JStr identity); ("run", JStr lab_run)].
Definition lab_resources : list json := [owned "d1" "temporary-db"; owned "d1" "temporary-quota"; owned "worker" "temporary-receiver"].
Definition quota_binding : json := JObj [("name", JStr "QUOTA"); ("type", JStr "d1"); ("database_id", JStr "temporary-quota")].
Definition capability_binding : json := JObj [("name", JStr "CAPABILITY"); ("type", JStr "plain_text"); ("text", JStr (ones 64))].
Definition lab_bindings : list json :=
  [JObj [("name", JStr "SYNTHETIC"); ("type", JStr "d1"); ("database_id", JStr "temporary-db")]; quota_binding;
   JObj [("name", JStr "RECEIVER"); ("type", JStr "service"); ("service", JStr "temporary-receiver")]; capability_binding].
Definition lab_additions : json :=
  JObj [("run", JStr lab_run); ("temporaryVersion", JStr "temporary-1"); ("moduleSha256", JStr (ones 64)); ("bindings", JArr lab_bindings);
        ("resources", JArr lab_resources);
        ("receiver", JObj [("binding", JStr "RECEIVER"); ("identity", JStr "temporary-receiver"); ("run", JStr lab_run);
                           ("target", JObj [("accountId", JStr "account"); ("scriptName", JStr "temporary-receiver")]);
                           ("configuration", configuration [quota_binding; capability_binding] [owned "d1" "temporary-quota"]);
                           ("moduleSha256", JStr (ones 64))]);
        ("scope", JObj [("run", JStr lab_run); ("startsAt", JInt 1000); ("expiresAt", JInt 601000); ("canary", JStr (ones 64));
                        ("bindingKeys", JObj [("syntheticDb", JStr "SYNTHETIC"); ("quotaDb", JStr "QUOTA"); ("receiver", JStr "RECEIVER");
                                              ("capability", JStr "CAPABILITY")])])].
Definition lab_delta : json := Eval vm_compute in match build_delta lab_digest lab_baseline lab_additions with Ok d => d | Err e => JNull end.
Definition lab_plan : json := Eval vm_compute in match build_composition_plan lab_digest no_float lab_delta (JInt 1000) with Ok d => d | Err e => JNull end.
Definition durable (_ : nat) : commit_io := Durable.
Definition parts : res Plan := Eval vm_compute in validate_composition_plan lab_digest no_float lab_plan.
Definition lab_parts : Plan := Eval vm_compute in match parts with Ok p => p | _ => mkPlan "" 0 JNull JNull JNull [] JNull JNull end.
Definition lab_site : Site := snd (journal_open durable "owner" (text_digest lab_digest lab_plan) new_file).
Notation lab_rehearsal faults tick :=
  (rehearse_composition lab_digest no_float durable "owner" lab_plan lab_plan lab_plan faults tick None false (lab_site, new_provider lab_parts)).

Lemma lab_distinct : distinct lab_plan.
Proof. apply distinct_b_ok. vm_compute. reflexivity. Qed.
Lemma lab_accepted : validate_composition_plan lab_digest no_float lab_plan = Ok lab_parts.
Proof. vm_compute. reflexivity. Qed.
Lemma lab_same : same_text lab_plan lab_plan = Ok true.
Proof. vm_compute. reflexivity. Qed.
(** The creation of the second resource is done, and its answer lost. *)
Definition lost_creation : list (string * string) := [("create_resource_1", "unknown")].
(** How a rehearsal ends, and how many resources are left. *)
Definition summary (o : res Receipt * (Site * Provider)) : option (string * nat) :=
  match o with (Ok c, (_, v)) => Some (rc_cleanup c, length (st_owned (pv_state v))) | _ => None end.
Lemma lost_summary : summary (lab_rehearsal lost_creation 1000) = Some ("cleanup_unconfirmed", 2%nat).
Proof. vm_compute. reflexivity. Qed.
Lemma lab_summary : summary (lab_rehearsal [] 1000) = Some ("confirmed_offline", 0%nat).
Proof. vm_compute. reflexivity. Qed.
Lemma summary_ok o cleanup n : summary o = Some (cleanup, n) → ∃ c s v, o = (Ok c, (s, v)) ∧ rc_cleanup c = cleanup ∧ length (st_owned (pv_state v)) = n.
Proof. destruct o as [[c|] [s v]]; [|done]. intros [= <- <-]. by exists c, s, v. Qed.

(** The delta of the lab is sound. *)
Theorem delta_sound_witness : ∃ b config a bindings resources,
  canon (member "baseline" lab_delta) = canon (JObj b) ∧ canon (member "additions" lab_delta) = canon (JObj a)
  ∧ proper_additions b config a bindings resources.
Proof.
  destruct (delta_sound lab_digest lab_delta) as (b & config & a & bs & rs & t & H1 & _ & H2 & _ & H3 & _).
  - apply distinct_b_ok. vm_compute. reflexivity.
  - vm_compute. reflexivity.
  - exists b, config, a, bs, rs. split; [exact H1|]. split; [exact H2|exact H3].
Defined.

(** The answer of a creation is lost: what the provider owns is in the receipt. *)
Theorem composition_accounts_witness : ∃ c s v, lab_rehearsal lost_creation 1000 = (Ok c, (s, v)) ∧ length (st_owned (pv_state v)) = 2%nat
  ∧ ∀ x, x ∈ st_owned (pv_state v) → ∃ n, (n < 3)%nat ∧ member "identity" x = member "identity" (nth n (pl_resources lab_parts) JNull)
    ∧ (nth n (pl_resources lab_parts) JNull ∈ rc_requiring c ∨ numbered "create_resource_" n ∈ rc_unacknowledged c).
Proof.
  destruct (summary_ok _ _ _ lost_summary) as (c & s & v & H & _ & Hn). exists c, s, v. split; [exact H|]. split; [exact Hn|].
  apply (composition_accounts lab_digest no_float durable "owner" lab_plan lab_plan lab_plan lost_creation 1000 None false new_file lab_site lab_parts c s v).
  - exact lab_distinct.
  - exact lab_accepted.
  - vm_compute. reflexivity.
  - vm_compute. reflexivity.
  - exact H.
Defined.

(** A rehearsal without a fault: nothing is left. *)
Theorem composition_confirmed_witness : ∃ c s v, lab_rehearsal [] 1000 = (Ok c, (s, v)) ∧ rc_cleanup c = "confirmed_offline"
  ∧ canon (st_snapshot (pv_state v)) = canon (pl_baseline lab_parts) ∧ st_owned (pv_state v) = [] ∧ st_receiver (pv_state v) = None
  ∧ st_quota (pv_state v) = None ∧ st_enabled (pv_state v) = false ∧ rc_requiring c = [].
Proof.
  destruct (summary_ok _ _ _ lab_summary) as (c & s & v & H & Hc & _). exists c, s, v. split; [exact H|]. split; [exact Hc|].
  exact (composition_confirmed lab_digest no_float durable "owner" lab_plan lab_plan lab_plan [] 1000 None false lab_site lab_parts c s v
    lab_distinct lab_accepted H Hc).
Defined.

(** The latest start at which the work of a one-second provider ends in time. *)
Theorem composition_completes_witness : ∃ c s v,
  rehearse_composition lab_digest no_float durable "owner" lab_plan lab_plan lab_plan [] 1000 (Some 589999) false (lab_site, new_provider lab_parts) = (Ok c, (s, v))
  ∧ rc_cleanup c = "confirmed_offline" ∧ rc_reason c = "restored_and_absent" ∧ rc_pending c = []
  ∧ ld_attempts (cn_durable (si_conn s)) = map (λ o, (o, "accepted")) COMPOSITION_OPERATIONS.
Proof.
  apply (composition_completes lab_digest no_float durable "owner" lab_plan lab_plan lab_plan 1000 (Some 589999) lab_parts lab_site).
  - exact lab_distinct.
  - exact lab_accepted.
  - exact lab_same.
  - exact lab_same.
  - by intros n.
  - vm_compute. reflexivity.
  - vm_compute. reflexivity.
  - vm_compute. reflexivity.
  - vm_compute. reflexivity.
  - vm_compute. reflexivity.
  - lia.
  - cbn. lia.
  - cbn. unfold pl_work, WORK_MS. cbn. lia.
  - cbn. unfold pl_outer, OUTER_MS. cbn. lia.
Defined.

Definition lab_packet : json := packet_json lab_run 0.
(** The journal of the packet after a rehearsal whose secret restore has no answer, and
    the end of its process. *)
Definition lab_journal : Conn RDb := Eval vm_compute in snd (Restoration.rehearse lab_digest durable lab_packet lab_packet "unknown" "acknowledged" None new_journal).
Theorem restoration_in_order_witness : length (rd_attempts (cn_durable lab_journal)) = 51%nat ∧ in_order (build_cases lab_run) (cn_durable lab_journal).
Proof.
  split; [vm_compute; reflexivity|]. change (cn_durable lab_journal) with (cn_durable (close_connection lab_journal)). apply (restoration_in_order lab_digest lab_run 0).
  eapply rtc_l; [|apply rtc_once, step_end].
  apply (step_rehearse lab_digest lab_run 0 durable lab_packet lab_packet "unknown" "acknowledged" None
    (fst (Restoration.rehearse lab_digest durable lab_packet lab_packet "unknown" "acknowledged" None new_journal))).
  - vm_compute. reflexivity.
  - vm_compute. reflexivity.
Defined.
