(* ===== verification/Lifecycle.v ===== *)
(** scripts/temporary_composition_lifecycle.py, the rehearsal of one receiver: its
    plan, its provider over a synthetic snapshot, and the rehearsal on the journal of
    non-replayable markers. *)
From S2P Require Import Prelude Json JsonParse JsonRoundTrip Oracle Evidence Delta OfflineJournal Restoration Composition.

Definition OPERATIONS : list string :=
  ["read_baseline"; "create_receiver"; "read_receiver_created"; "apply_temporary"; "read_temporary"; "disable_temporary"; "read_disabled";
   "restore_retained"; "read_restored"; "delete_receiver"; "read_receiver_absent"].

Section Lifecycle.
Context (sha256 : string → string) (integral : string → option Z).
Notation eqb := (py_eqb integral).

(** ** The plan *)

(** What the rehearsal reads of a plan. *)
Record LPlan := mkLPlan { lp_run : string; lp_start : Z; lp_retained : json; lp_version : string; lp_receiver : string; lp_restore : json }.
Definition lp_work (p : LPlan) : Z := lp_start p + WORK_MS.
Definition lp_outer (p : LPlan) : Z := lp_start p + OUTER_MS.
Definition lplan_json (p : LPlan) : json :=
  JObj ([("schemaVersion", JInt 1); ("kind", JStr "offline_temporary_composition_lifecycle"); ("run", JStr (lp_run p)); ("startMs", JInt (lp_start p));
         ("workExpiresMs", JInt (lp_work p)); ("outerExpiresMs", JInt (lp_outer p)); ("retained", lp_retained p);
         ("temporaryVersion", JStr (lp_version p)); ("receiver", JStr (lp_receiver p)); ("receiverOwner", JStr (lp_run p)); ("restore", lp_restore p);
         ("operations", JArr (map JStr OPERATIONS)); ("operationCap", JInt (Z.of_nat (length OPERATIONS) + 2)); ("reconciliationReadCap", JInt 2)]
        ++ unqualified gates_closed).
(** [build_plan(run, start_ms)] *)
Definition build_plan (run start_ms : json) : res LPlan :=
  let? rs := build_packet run start_ms (JStr "bot") in
  let (r, s) := rs : string * Z in
  let c := build_case r "secrets_store_secret" "A" in
  let retained := baseline_snapshot sha256 c in
  Ok (mkLPlan r s retained ("synthetic-temporary-" +:+ r) ("synthetic-receiver-" +:+ r) (selection (member "activeVersion" retained))).
(** [validate_plan(plan)] of any other plan than a composition. *)
Definition validate_lplan (plan : json) : res LPlan :=
  shape_error "closed_plan_mismatch" (
    match plan with
    | JObj _ =>
        let? run := item_of "run" plan in
        let? start := item_of "startMs" plan in
        let? p := build_plan run start in
        let? same := same_text plan (lplan_json p) in
        require same "closed_plan_mismatch" ;? Ok p
    | _ => Err (Refusal "closed_plan_mismatch")
    end).

(** ** The provider *)

Record LState := mkLState { ls_snapshot : json; ls_off : bool; ls_receiver : option json }.
Definition receiver_json (p : LPlan) : json := JObj [("id", JStr (lp_receiver p)); ("owner", JStr (lp_run p))].
Definition lstate_json (snapshot : json) (off : bool) (receiver : option json) : json :=
  JObj [("snapshot", snapshot); ("admissionOff", JBool off); ("receiver", or_null receiver)].
Record LProvider := mkLProvider { lv_state : LState; lv_elapsed : Z; lv_stop : bool; lv_calls : list string }.
Definition new_lprovider (p : LPlan) : LProvider := mkLProvider (mkLState (lp_retained p) true None) 0 false [].
Definition lprovider_guard (faults : list (string * string)) (tick_ms : Z) : res unit :=
  require (forallb (λ kv, str_in kv.1 OPERATIONS && str_in kv.2 FAULTS) faults) "synthetic_fault" ;?
  require ((0 <=? tick_ms) && (tick_ms <=? OUTER_MS)) "synthetic_tick".
(** [_temporary(plan)] of the snapshot that [apply_temporary] changes, too. *)
Definition as_temporary (p : LPlan) (snapshot : json) : json :=
  set_member "moduleDigest" (JStr (text_digest sha256 (JStr "synthetic-temporary-module")))
    (set_member "weights" (JObj [(lp_version p, JInt 100)]) (set_member "activeVersion" (JStr (lp_version p)) snapshot)).

(** What an operation does to the state, before any fault: [None] refuses. *)
Definition lact (p : LPlan) (operation : string) (request : json) (s : LState) : option LState :=
  if bool_decide (operation = "create_receiver") then
    match ls_receiver s with Some _ => None | None => Some (mkLState (ls_snapshot s) (ls_off s) (Some (receiver_json p))) end
  else if bool_decide (operation = "apply_temporary") then Some (mkLState (as_temporary p (ls_snapshot s)) false (ls_receiver s))
  else if bool_decide (operation = "disable_temporary") then Some (mkLState (ls_snapshot s) true (ls_receiver s))
  else if bool_decide (operation = "restore_retained") then
    if negb (eqb request (lp_restore p)) || negb (ls_off s) then None else Some (mkLState (lp_retained p) (ls_off s) (ls_receiver s))
  else if bool_decide (operation = "delete_receiver") then
    if negb (eqb request (or_null (ls_receiver s))) then None else Some (mkLState (ls_snapshot s) (ls_off s) None)
  else Some s.

(** A change of a member, and of an item of a list. *)
Definition change (k : string) (f : json → res json) (value : json) : res json :=
  match value with JObj d => let? v := at_key k d in let? w := f v in Ok (JObj (dict_set k w d)) | _ => Err (External "TypeError") end.
Definition change_first (f : json → res json) (value : json) : res json :=
  match value with JArr (x :: l) => let? y := f x in Ok (JArr (y :: l)) | JArr [] => Err (External "IndexError") | _ => Err (External "TypeError") end.
Definition change_second (v value : json) : res json :=
  match value with JArr (x :: _ :: l) => Ok (JArr (x :: v :: l)) | JArr _ => Err (External "IndexError") | _ => Err (External "TypeError") end.
Definition append_to (v value : json) : res json := match value with JArr l => Ok (JArr (l ++ [v])) | _ => Err (External "AttributeError") end.
(** The drifts of a fault. *)
Definition ldrift (p : LPlan) (fault : string) (j : json) : res json :=
  if bool_decide (fault = "identity_drift") then set_path ["resources"; "d1"] (JStr "synthetic-foreign-database") j
  else if bool_decide (fault = "data_drift") then change "data" (change "rows" (append_to (JArr [JStr "synthetic-drift"; JInt 1]))) j
  else if bool_decide (fault = "typed_data_drift") then change "data" (change "rows" (change_first (change_second (JStr "1")))) j
  else if bool_decide (fault = "schema_drift") then set_path ["data"; "schema"] (JStr "synthetic_v2") j
  else if bool_decide (fault = "secret_drift") then set_path ["secretMatchesBaseline"] (JBool false) j
  else if bool_decide (fault = "gate_drift") then set_path ["gates"; "deployment"; "enabled"] (JBool true) j
  else if bool_decide (fault = "reference_drift") then set_path ["bindings"; "secret"] (JStr "synthetic-foreign-secret") j
  else if bool_decide (fault = "version_drift") then set_path ["activeVersion"] (JStr "synthetic-foreign-version") j
  else if bool_decide (fault = "weights_drift") then
    set_path ["weights"] (JObj [(text_of (member "activeVersion" (lp_retained p)), JInt 99)]) j
  else Ok j.
(** [_call(operation, request)] *)
Definition lprovider_call (p : LPlan) (faults : list (string * string)) (tick_ms : Z) (operation : string) (request : json) : M LProvider reply := λ v,
  let called s stop := mkLProvider s (lv_elapsed v + tick_ms) (lv_stop v || stop) (lv_calls v ++ [operation]) in
  let fault := default EmptyString (dict_get operation faults) in
  if bool_decide (fault = "refused") then (Ok RRefused, called (lv_state v) false) else
  match lact p operation request (lv_state v) with
  | None => (Ok RRefused, called (lv_state v) false)
  | Some s =>
      match ldrift p fault (ls_snapshot s) with
      | Err e => (Err e, called s false)
      | Ok j =>
          let s' := mkLState j (ls_off s) (ls_receiver s) in
          let state := lstate_json (ls_snapshot s') (ls_off s') (ls_receiver s') in
          if bool_decide (fault = "stop") then (Ok (RAccepted state), called s' true)
          else if bool_decide (fault = "exception") then (Err (External "OSError"), called s' false)
          else if bool_decide (fault = "unknown") then (Ok RUnknown, called s' false)
          else if bool_decide (fault = "malformed") then (Ok RMalformed, called s' false)
          else (Ok (RAccepted state), called s' false)
      end
  end.

(** ** The rehearsal *)

(** The journal's site, the provider, and the locals of [rehearse]. *)
Record LRun := mkLRun { lr_site : Site; lr_provider : LProvider; lr_reason : string; lr_attempted : Z }.
Notation R := (M LRun).
Definition at_site {A} (m : M Site A) : R A := λ r, let (x, s) := m (lr_site r) in (x, mkLRun s (lr_provider r) (lr_reason r) (lr_attempted r)).
Definition at_provider {A} (m : M LProvider A) : R A := λ r, let (x, v) := m (lr_provider r) in (x, mkLRun (lr_site r) v (lr_reason r) (lr_attempted r)).
Definition give_reason (reason : string) : R unit := modify (λ r, mkLRun (lr_site r) (lr_provider r) reason (lr_attempted r)).
Definition count_attempt : R unit := modify (λ r, mkLRun (lr_site r) (lr_provider r) (lr_reason r) (lr_attempted r + 1)).

Section Rehearse.
Context (fate : nat → commit_io) (token : string) (p : LPlan) (plan : json) (faults : list (string * string)) (tick_ms : Z).
Context (base : Z) (stop_requested : bool).
Definition loperation_cap : nat := length OPERATIONS + 2.
Notation latch := (latch fate token OPERATIONS loperation_cap).
Notation finish := (finish fate token).

Definition lnow : R Z := gets (λ r, base + lv_elapsed (lr_provider r)).
Definition lexpired (deadline : Z) : R bool := let* t := lnow in ret (deadline <=? t).
(** [provider.elapsed_ms += provider.tick_ms; provider.snapshot()] *)
Definition wait_and_look : M LProvider unit := modify (λ v, mkLProvider (lv_state v) (lv_elapsed v + tick_ms) (lv_stop v) (lv_calls v)).
(** The loop over the two reconciliation reads. *)
Fixpoint reconcile_all (names : list string) : R unit :=
  match names with
  | [] => ret tt
  | name :: rest =>
      let* expired := lexpired (lp_outer p) in
      if expired : bool then ret tt else
      at_site (latch name) ;*
      count_attempt ;*
      at_provider wait_and_look ;*
      at_site (finish name "accepted") ;*
      reconcile_all rest
  end.
(** [call(operation, request)] *)
Definition lcall (operation : string) (request : json) : R (option json) :=
  let* expired := lexpired (lp_outer p) in
  if expired : bool then give_reason "outer_expired" ;* ret None else
  at_site (latch operation) ;*
  count_attempt ;*
  let* reply := try (at_provider (lprovider_call p faults tick_ms operation request)) (λ _, ret RUnknown) in
  match reply with
  | RRefused => at_site (finish operation "refused") ;* give_reason "operation_refused" ;* ret None
  | RAccepted state =>
      at_site (finish operation "accepted") ;*
      let* expired := lexpired (lp_outer p) in
      if expired : bool then give_reason "outer_expired" ;* ret None else ret (Some state)
  | _ => give_reason "ambiguous_dispatch" ;* reconcile_all RECONCILIATIONS ;* ret None
  end.
(** [x is not None and matches(x, expected, admission_off, receiver_present)] *)
Definition matches (state : option json) (expected : json) (off present : bool) : R bool :=
  match state with
  | None => ret false
  | Some s => lift (same_text s (lstate_json expected off (if present then Some (receiver_json p) else None)))
  end.
Definition lread (operation : string) (expected : json) (off present : bool) : R bool :=
  let* state := lcall operation (JObj []) in matches state expected off present.
Definition stopped : R bool := gets (λ r, stop_requested || lv_stop (lr_provider r)).

(** After the application was changed: what [stop_seen] and [restored_ok] are. *)
Definition after_apply : R (bool * bool) :=
  let* _ := lcall "read_temporary" (JObj []) in
  let* stop_seen := stopped in
  let* reason := gets lr_reason in
  if bool_decide (reason = "ambiguous_dispatch") then ret (stop_seen, false) else
  let* disabled := lcall "disable_temporary" (JObj [("receiver", JStr (lp_receiver p))]) in
  match disabled with
  | None => ret (stop_seen, false)
  | Some _ =>
      let* off := lread "read_disabled" (as_temporary p (lp_retained p)) true true in
      if negb off then ret (stop_seen, false) else
      let* restored := lcall "restore_retained" (lp_restore p) in
      match restored with
      | None => ret (stop_seen, false)
      | Some _ => let* ok := lread "read_restored" (lp_retained p) true true in ret (stop_seen, ok)
      end
  end.
(** Once the receiver is there. *)
Definition with_the_receiver : R (bool * bool) :=
  let* stop_seen := stopped in
  let* work_expired := lexpired (lp_work p) in
  if stop_seen || work_expired then let* ok := lread "read_restored" (lp_retained p) true true in ret (stop_seen, ok) else
  let* applied := lcall "apply_temporary" (JObj [("version", JStr (lp_version p))]) in
  match applied with
  | Some _ => after_apply
  | None =>
      let* reason := gets lr_reason in
      if bool_decide (reason = "operation_refused") then let* ok := lread "read_restored" (lp_retained p) true true in ret (stop_seen, ok)
      else ret (stop_seen, false)
  end.
(** The body of [rehearse]: the status and [stop_seen]. *)
Definition lrehearsal : R (string * bool) :=
  let unconfirmed := "cleanup_unconfirmed" in
  if stop_requested || (lp_work p <=? base) then
    give_reason (if stop_requested then "stopped_before_apply" else "work_expired_before_apply") ;* ret ("not_applied", stop_requested)
  else
  let* before := lread "read_baseline" (lp_retained p) true false in
  if negb before then ret (unconfirmed, stop_requested) else
  let* stop := gets (λ r, lv_stop (lr_provider r)) in
  let* work_expired := lexpired (lp_work p) in
  if work_expired || stop then
    give_reason (if stop : bool then "stopped_before_apply" else "work_expired_before_apply") ;* ret ("not_applied", stop_requested)
  else
  let* created := lcall "create_receiver" (receiver_json p) in
  let* there := match created with Some _ => lread "read_receiver_created" (lp_retained p) true true | None => ret false end in
  if negb there then ret (unconfirmed, stop_requested) else
  let* sr := with_the_receiver in
  let (stop_seen, restored_ok) := sr : bool * bool in
  if negb restored_ok then ret (unconfirmed, stop_seen) else
  let* deleted := lcall "delete_receiver" (receiver_json p) in
  match deleted with
  | None => ret (unconfirmed, stop_seen)
  | Some _ =>
      let* absent := lread "read_receiver_absent" (lp_retained p) true false in
      if absent : bool then give_reason "restored_and_absent" ;* ret ("confirmed_offline", stop_seen) else ret (unconfirmed, stop_seen)
  end.

(** The fields of the receipt that the run decides. *)
Record LReceipt := mkLReceipt { lc_status : string; lc_reason : string; lc_stop : bool; lc_attempted : Z; lc_pending : list string }.
Definition lreceipt_json (c : LReceipt) : json :=
  JObj ([("schemaVersion", JInt 1); ("kind", JStr "offline_lifecycle_receipt"); ("planSha256", JStr (text_digest sha256 plan)); ("cleanup", JStr (lc_status c));
         ("reason", JStr (lc_reason c)); ("stopObserved", JBool (lc_stop c)); ("operationsAttempted", JInt (lc_attempted c));
         ("pendingOperations", JArr (map JStr (lc_pending c)))] ++ unqualified gates_closed).
(** [rehearse] after its plans were compared. *)
Definition lrehearse_run : R LReceipt :=
  lift (require ((lp_start p <=? base) && (base <=? 2 ^ 53)) "operation_time") ;*
  let* rows := at_site records in
  let* calls := gets (λ r, lv_calls (lr_provider r)) in
  lift (require (match rows, calls with [], [] => true | _, _ => false end) "run_already_attempted") ;*
  at_site (start_once fate token) ;*
  let* ss := lrehearsal in
  let* rows := at_site records in
  let* r := Prelude.get in
  ret (mkLReceipt (fst ss) (if bool_decide (lr_reason r = "not_started") then "independent_state_mismatch" else lr_reason r)
         (snd ss || lv_stop (lr_provider r)) (lr_attempted r) (pending_of rows)).
End Rehearse.

(** [rehearse(plan, journal, provider, now_ms=..., stop_requested=...)] *)
Definition lrehearse (fate : nat → commit_io) (token : string) (plan journal_plan provider_plan : json) (faults : list (string * string)) (tick_ms : Z)
    (now_ms : option Z) (stop_requested : bool) : M (Site * LProvider) LReceipt := λ sv,
  match (let? p := validate_lplan plan in
         let? same_journal := same_text plan journal_plan in
         let? same_provider := same_text plan provider_plan in
         require (same_journal && same_provider) "plan_identity_mismatch" ;? Ok p) with
  | Err e => (Err e, sv)
  | Ok p =>
      let (c, r) := lrehearse_run fate token p faults tick_ms (default (lp_start p) now_ms) stop_requested (mkLRun (fst sv) (snd sv) "not_started" 0) in
      (c, (lr_site r, lr_provider r))
  end.
End Lifecycle.
