(* ===== verification/LifecycleFacts.v ===== *)
(** A confirmed rehearsal of one receiver: the provider holds the retained snapshot,
    admission is off, and the receiver is gone. *)
From S2P Require Import Prelude Triples Json JsonParse JsonRoundTrip Oracle Evidence Delta OfflineJournal Restoration Composition Lifecycle.

Section Facts.
Context (sha256 : string → string) (integral : string → option Z) (fate : nat → commit_io) (token : string) (p : LPlan).
Context (faults : list (string * string)) (tick_ms base : Z) (stop_requested : bool).
Notation lprovider_call := (lprovider_call sha256 integral p faults tick_ms).
Notation lcall := (lcall sha256 integral fate token p faults tick_ms base).
Notation lread := (lread sha256 integral fate token p faults tick_ms base).
Notation lrehearsal := (lrehearsal sha256 integral fate token p faults tick_ms base stop_requested).

Definition text_of_state (s : LState) : json := lstate_json (ls_snapshot s) (ls_off s) (ls_receiver s).
Definition any : LRun → Prop := λ _, True.
(** What the provider holds now is [state]. *)
Definition held (state : json) (r : LRun) : Prop := text_of_state (lv_state (lr_provider r)) = state.
Definition answered (o : option json) (r : LRun) : Prop := ∀ state, o = Some state → held state r.
Definition shows (expected : json) (off present : bool) (r : LRun) : Prop :=
  same_text (text_of_state (lv_state (lr_provider r))) (lstate_json expected off (if present then Some (receiver_json p) else None)) = Ok true.

(** An accepted answer is the state of the provider. *)
Lemma lprovider_accepted operation request v v' state :
  lprovider_call operation request v = (Ok (RAccepted state), v') → text_of_state (lv_state v') = state.
Proof.
  unfold Lifecycle.lprovider_call. cbn zeta. intros H. repeat case_match; try done; by injection H as <- <-.
Qed.
Lemma lcall_answered operation request : triple any (lcall operation request) answered any.
Proof.
  assert (Hnone : triple any (ret None) answered any) by (by apply triple_ret).
  assert (Hany : ∀ A (m : M LRun A) Q, (∀ x, triple any (Q x) answered any) → triple any (bind m Q) answered any).
  { intros A m Q HQ. eapply triple_bind with (Q := λ _, any); [|exact HQ]. intros r _. destruct (m r) as [[x|e] r']; done. }
  unfold Lifecycle.lcall. apply Hany. intros expired. destruct expired; [by apply Hany|].
  apply Hany. intros ?. apply Hany. intros ?.
  eapply triple_bind with (Q := λ o r, ∀ state, o = RAccepted state → held state r).
  - intros r _. unfold try, at_provider. destruct (lprovider_call operation request (lr_provider r)) as [[o|e] v] eqn:E; [|done].
    intros state ->. by apply lprovider_accepted in E.
  - intros o. destruct o as [| | |state]; [by apply triple_pre with (P := any); [|repeat (apply Hany; intros ?)]..|].
    eapply triple_bind with (Q := λ _, held state).
    { intros r Hr. unfold at_site. destruct (finish _ _ _ _ _) as [[?|?] ?]; [|done]. by apply Hr. }
    intros ?. eapply triple_bind with (Q := λ _, held state); [by intros r Hr|]. intros expired. destruct expired.
    + by apply triple_pre with (P := any), Hany.
    + apply triple_ret. by intros r Hr ? [= <-].
Qed.
Lemma lread_shows operation expected off present :
  triple any (lread operation expected off present) (λ b r, b = true → shows expected off present r) any.
Proof.
  unfold Lifecycle.lread. eapply triple_bind; [apply lcall_answered|]. intros state. unfold matches. destruct state as [state|]; [|by apply triple_ret].
  apply triple_lift; [|done]. intros r x Hr Hx ->. unfold shows. by rewrite (Hr state eq_refl).
Qed.
Lemma any_bind {A B} (m : M LRun A) (f : A → M LRun B) Q : (∀ x, triple any (f x) Q any) → triple any (bind m f) Q any.
Proof. intros H. eapply triple_bind with (Q := λ _, any); [|exact H]. intros r _. by destruct (m r) as [[x|e] r']. Qed.

Definition confirms (ss : string * bool) (r : LRun) : Prop := fst ss = "confirmed_offline" → shows (lp_retained p) true false r.
Lemma lrehearsal_confirms : triple any lrehearsal confirms any.
Proof.
  assert (Hret : ∀ ss, fst ss ≠ "confirmed_offline" → triple any (ret ss) confirms any) by (intros ss Hss; apply triple_ret; by intros r _ ?).
  assert (Hunconfirmed : ∀ b, triple any (ret ("cleanup_unconfirmed", b)) confirms any) by (intros b; by apply Hret).
  assert (Hnot : ∀ b, triple any (ret ("not_applied", b)) confirms any) by (intros b; by apply Hret).
  unfold Lifecycle.lrehearsal. cbn zeta. destruct (stop_requested || _); [apply any_bind; intros ?; apply Hnot|].
  apply any_bind. intros before. destruct before; cbn [negb]; [|apply Hunconfirmed].
  apply any_bind. intros stop. apply any_bind. intros work_expired.
  destruct (work_expired || stop); [apply any_bind; intros ?; apply Hnot|].
  apply any_bind. intros created. apply any_bind. intros there. destruct there; cbn [negb]; [|apply Hunconfirmed].
  apply any_bind. intros [stop_seen restored_ok]. destruct restored_ok; cbn [negb]; [|apply Hunconfirmed].
  apply any_bind. intros deleted. destruct deleted; [|apply Hunconfirmed].
  eapply triple_bind; [apply lread_shows|]. intros absent. destruct absent.
  - eapply triple_bind with (Q := λ _, shows (lp_retained p) true false); [|intros ?; apply triple_ret; by intros r Hr _].
    apply triple_modify. intros r Hr. by apply Hr.
  - by apply triple_pre with (P := any).
Qed.
End Facts.

(** A receipt says [confirmed_offline] only when the state of the provider has the text
    of the retained snapshot with admission off and without a receiver. *)
Theorem lifecycle_confirmed sha256 integral fate token plan journal_plan provider_plan faults tick_ms now_ms stop_requested sv p c site v :
  validate_lplan sha256 plan = Ok p →
  lrehearse sha256 integral fate token plan journal_plan provider_plan faults tick_ms now_ms stop_requested sv = (Ok c, (site, v)) →
  lc_status c = "confirmed_offline" →
  same_text (text_of_state (lv_state v)) (lstate_json (lp_retained p) true None) = Ok true.
Proof.
  intros Hp H Hc. unfold lrehearse in H. rewrite Hp in H. cbn [rbind] in H.
  match type of H with match ?g with Ok _ => _ | Err _ => _ end = _ => destruct g as [p'|e] eqn:Hg; [|done] end.
  assert (p' = p) as -> by (clear H; by inv_check). clear Hg.
  destruct (lrehearse_run _ _ _ _ _ _ _ _ _ _) as [x r] eqn:Hrun. injection H as -> <- <-.
  assert (triple any (lrehearse_run sha256 integral fate token p faults tick_ms (default (lp_start p) now_ms) stop_requested)
            (λ c r, confirms p (lc_status c, false) r) any) as Ht.
  { unfold lrehearse_run. apply any_bind. intros ?. apply any_bind. intros rows. apply any_bind. intros calls. apply any_bind. intros ?. apply any_bind. intros ?.
    eapply triple_bind; [apply lrehearsal_confirms|]. intros [status stop_seen].
    eapply triple_bind with (Q := λ _, confirms p (status, stop_seen)).
    { intros r1 Hr1. unfold at_site. destruct (records _) as [[?|?] ?]; [|done]. by apply Hr1. }
    intros rows'. intros r1 Hr1. cbn. by apply Hr1. }
  specialize (Ht (mkLRun (fst sv) (snd sv) "not_started" 0) I). rewrite Hrun in Ht. by apply Ht.
Qed.

(** Without faults the rehearsal is confirmed, and a lost answer leaves it unconfirmed,
    its operation pending. *)
Definition example_digest (_ : string) : string := String.concat EmptyString (repeat "0" 64).
Definition example_run : json := JStr "0123456789abcdef0123456789abcdef".
Definition example_summary (faults : list (string * string)) : option (string * string * Z * list string) :=
  match build_plan example_digest example_run (JInt 1000) with
  | Ok p =>
      let plan := lplan_json p in
      let site := snd (journal_open (λ _, Durable) "owner" (text_digest example_digest plan) (mkSite None (mkConn empty_ldb None 0) false)) in
      match lrehearse example_digest (λ _, None) (λ _, Durable) "owner" plan plan plan faults 1000 None false (site, new_lprovider p) with
      | (Ok c, _) => Some (lc_status c, lc_reason c, lc_attempted c, lc_pending c)
      | _ => None
      end
  | _ => None
  end.
Example lifecycle_runs : example_summary [] = Some ("confirmed_offline", "restored_and_absent", 11, []).
Proof. vm_compute. reflexivity. Qed.
Example lifecycle_lost : example_summary [("apply_temporary", "unknown")] = Some ("cleanup_unconfirmed", "ambiguous_dispatch", 6, ["apply_temporary"]).
Proof. vm_compute. reflexivity. Qed.
