(* ===== verification/NativeBinding.v ===== *)
(** probes/pmb1-native-d1-binding/binding.py: the operator's D1 HTTP binding - its
    retained packet, activation, guard and the historical read query - over arbitrary
    ports: clock, files, source check and credential delivery.

    Thread locks are not modelled (a call is one step), nor the loading of the frozen
    module graph: [source_pins()] is a port that answers the pins or raises. The
    address of the endpoint goes through an arbitrary [address] check. *)
From S2P Require Import Prelude Json JsonParse JsonRoundTrip Oracle Evidence Control D1Port D1Journal D1Adapter D1Campaign ExactCount.

(** ** Bounds and values *)

Definition MAX_PACKET_BYTES : Z := 2 * 1024 * 1024.
Definition MAX_RESPONSE_BYTES : Z := 512 * 1024.
Definition MAX_TOTAL_BYTES : Z := 16 * 1024 * 1024.
Definition MAX_QUERIES : Z := 2048.

Definition packet_keys : list string :=
  ["kind"; "accountId"; "databaseId"; "endpointAddress"; "targetId"; "candidate"; "sourcePins"; "credentialSha2_256"; "starts"; "ends";
   "clockDomain"; "timeoutSeconds"; "maxResponseBytes"; "maxTotalBytes"; "queries"; "independentEvidence"; "profileSha2_256"].
Definition evidence_keys : list string :=
  ["review"; "grant"; "custody"; "primaryAndCommitSemantics"; "sourceOracle"; "allWriterInterval"; "allocation"].

(** [re.fullmatch(r"[a-f0-9]{n}", s)] *)
Definition hex_run (n : Z) (s : string) : bool := (slen s =? n) && str_forall is_hex s.
(** [[a-f0-9]{8}(?:-[a-f0-9]{4}){3}-[a-f0-9]{12}] *)
Definition database_grammar (s : string) : bool :=
  match split_on "-" s with
  | [a; b; c; d; e] => hex_run 8 a && hex_run 4 b && hex_run 4 c && hex_run 4 d && hex_run 12 e
  | _ => false
  end.
Definition is_alpha (c : ascii) : bool := ((97 <=? code c) && (code c <=? 122)) || ((65 <=? code c) && (code c <=? 90)).
(** [re.fullmatch(r"[A-Za-z0-9_.-]{16,4096}", s)] *)
Definition token_char (c : ascii) : bool := is_alpha c || is_digit c || mem_char c "_.-".
Definition token_grammar (s : string) : bool := (16 <=? slen s) && (slen s <=? 4096) && str_forall token_char s.

Definition digest_of (j : json) : bool := match j with JStr s => is_digest s | _ => false end.

(** [sub in s] *)
Fixpoint contains (sub s : string) : bool :=
  startswith sub s || match s with String _ s' => contains sub s' | EmptyString => false end.

(** [l[k]]: a negative index counts from the end. *)
Definition item {A} (k : Z) (l : list A) : res A :=
  let k' := if k <? 0 then Z.of_nat (length l) + k else k in
  if k' <? 0 then Err (External "IndexError") else
  match nth_error l (Z.to_nat k') with Some a => Ok a | None => Err (External "IndexError") end.

(** A query of the packet: its parameters are texts once it is validated. *)
Record Query := mkQuery { q_role : string; q_sql : string; q_params : list string }.
#[export] Instance Query_eq_dec : EqDecision Query.
Proof. solve_decision. Defined.

(** A validated packet, with its document. *)
Record Packet := mkPacket {
  p_document : json;
  p_account : string;
  p_database : string;
  p_target : string;
  p_candidate : string;
  p_starts : Z;
  p_ends : Z;
  p_timeout : Z;
  p_max_response : Z;
  p_max_total : Z;
  p_queries : list Query;
  p_evidence : list (string * json);
}.
Definition packet_part (k : string) (p : Packet) : json :=
  match p_document p with JObj d => field k d | _ => JNull end.

(** [Request] and [Response] of scripts/hosted_publisher_finite_client.py *)
Record HttpRequest := mkHttpRequest {
  rq_url : string;
  rq_headers : list (string * string);
  rq_timeout : Z;
  rq_max_response : Z;
  rq_deadline : Z;
  rq_wire : string;
}.
Record Response := mkResponse {
  rs_status : Z;
  rs_headers : list (string * string);
  rs_body : string;
  rs_wire_bytes : option Z;
}.

(** The visible effects of an instance, in order. *)
Inductive event :=
| Delivered
| Sent (ordinal : Z) (batch : option string) (body wire : string)
| Accounted (ordinal bytes : Z).

(** ** Ports *)

Record NativePorts (C : Type) := mkNativePorts {
  np_adapter : Ports C;
  np_plain_path : string → M C bool;
  np_read : string → M C string;
  np_source_pins : M C json;
  np_https : HttpRequest → M C unit → M C Response;
}.
Arguments np_adapter {C}. Arguments np_plain_path {C}. Arguments np_read {C}. Arguments np_source_pins {C}. Arguments np_https {C}.

(** The configuration of an instance. *)
Record Settings := mkSettings { c_packet_path : string; c_packet_pin : string; c_source : SourceDescriptor }.

(** An activated binding: the packet and the token. *)
Record Active := mkActive { a_packet : Packet; a_token : string; a_address : string }.

(** ** Reading the packet *)

Section Packet.
Context (integral : string → option Z) (address : json → res string).
Notation eqb := (py_eqb integral).

Definition json_pyval (j : json) : pyval := match j with JStr s => PStr s | _ => POther end.

(** One element of [packet["queries"]]; [writers] are [_fixed_writer_sqls(fixed)]
    and [fixed] the verified source files. *)
Definition query_shape (query : json) : res (list (string * json)) :=
  match query with
  | JObj q =>
      require (same_keys q ["role"; "sql"; "params"] && str_among ["writer"; "observer"; "snapshot"] (field "role" q)
               && match field "sql" q with
                  | JStr s => (0 <? slen (utf8_encode s)) && (slen (utf8_encode s) <=? 32768)
                  | _ => false
                  end
               && match field "params" q with JArr _ => true | _ => false end) "native_d1_query_manifest" ;?
      Ok q
  | _ => Err (Refusal "native_d1_query_manifest")
  end.
Definition snapshot_select (sql : string) : bool :=
  startswith "SELECT " sql && negb (existsb (λ mark, contains mark sql) [";"; "--"; "/*"]).
Definition writer_query (writers : list string) (sql : string) (params : list json) : res Query :=
  match params with
  | [value] =>
      require (str_in sql writers) "native_d1_fixed_write" ;?
      let? g := generation (json_pyval value) true in
      Ok (mkQuery "writer" sql [g])
  | _ => Err (Refusal "native_d1_fixed_write")
  end.
Definition read_query (role sql : string) (reads : list string) (params : list json) : res Query :=
  require (bool_decide (length params = 0%nat)) "native_d1_read_params" ;?
  (if bool_decide (role = "observer") then require (str_in sql reads) "native_d1_fixed_read"
   else require (snapshot_select sql) "native_d1_snapshot_fixed_select") ;?
  Ok (mkQuery role sql []).

Definition identity_ok (packet : list (string * json)) : res unit :=
  require (match field "accountId" packet with JStr s => hex_run 32 s | _ => false end) "native_d1_exact_identity" ;?
  require (match field "databaseId" packet with JStr s => database_grammar s | _ => false end) "native_d1_exact_identity" ;?
  require (eqb (field "targetId" packet)
             (JStr (text_of (field "accountId" packet) +:+ "/" +:+ text_of (field "databaseId" packet)))) "native_d1_target_binding" ;?
  let? found := address (field "endpointAddress" packet) in
  require (eqb (JStr found) (field "endpointAddress" packet)) "native_d1_numeric_address".
Definition limits_ok (packet : list (string * json)) : res unit :=
  forR (λ kc, require (int_where (λ z, (1 <=? z) && (z <=? snd kc)) (field (fst kc) packet)) "native_d1_limits")
    [("maxResponseBytes", MAX_RESPONSE_BYTES); ("maxTotalBytes", MAX_TOTAL_BYTES); ("timeoutSeconds", 60)].
(** A time is an integer, as everywhere in this model. *)
Definition window_ok (packet : list (string * json)) : res unit :=
  require (match field "starts" packet, field "ends" packet with
           | JInt s, JInt e => (0 <=? s) && (s <? e) && (e <=? s + 300)
           | _, _ => false
           end) "native_d1_window" ;?
  require (match field "clockDomain" packet with JStr s => (1 <=? slen s) && (slen s <=? 128) | _ => false end)
    "native_d1_clock_domain".
(** One record of [packet["independentEvidence"]]. *)
Definition evidence_record (record : json) : res (json * json) :=
  match record with
  | JObj r => require (same_keys r ["path"; "sha2_256"]) "native_d1_evidence_record" ;? Ok (field "path" r, field "sha2_256" r)
  | _ => Err (Refusal "native_d1_evidence_record")
  end.
Definition evidence_inventory (packet : list (string * json)) : res (list (string * json)) :=
  match field "independentEvidence" packet with
  | JObj e => require (same_keys e evidence_keys) "native_d1_evidence_inventory" ;? Ok e
  | _ => Err (Refusal "native_d1_evidence_inventory")
  end.
Definition query_inventory (packet : list (string * json)) : res (list json) :=
  match field "queries" packet with
  | JArr l =>
      require ((1 <=? Z.of_nat (length l)) && (Z.of_nat (length l) <=? MAX_QUERIES)) "native_d1_query_inventory" ;? Ok l
  | _ => Err (Refusal "native_d1_query_inventory")
  end.
Definition packet_of (d : list (string * json)) (queries : list Query) (evidence : list (string * json)) : Packet :=
  mkPacket (JObj d) (text_of (field "accountId" d)) (text_of (field "databaseId" d)) (text_of (field "targetId" d))
    (text_of (field "candidate" d)) (int_of (field "starts" d)) (int_of (field "ends" d)) (int_of (field "timeoutSeconds" d))
    (int_of (field "maxResponseBytes" d)) (int_of (field "maxTotalBytes" d)) queries evidence.
End Packet.

(** ** The strict reading of an answer

    [_rows(response, limit)] of scripts/private_d1_snapshot_reader.py, whose refusals
    are [SnapshotError]s. *)
Definition lower_text (s : string) : string := lower s.
Definition header (k : string) (headers : list (string * string)) : option string :=
  dict_get k (map (λ kv, (lower_text (fst kv), snd kv)) headers).
Definition headers_ok (headers : list (string * string)) : bool :=
  bool_decide (NoDup (map (λ kv, lower_text (fst kv)) headers))
  && negb (bool_decide (is_Some (header "location" headers)))
  && bool_decide (lower_text (default "identity" (header "content-encoding" headers)) = "identity")
  && bool_decide (lower_text (strip (hd EmptyString (split_on ";" (default EmptyString (header "content-type" headers))))) = "application/json").
Definition one_result (payload : json) : res (list (string * json)) :=
  let? p := closed payload ["success"; "errors"; "messages"; "result"] "snapshot_fields" in
  require (is_true (dict_get "success" p) && is_empty (dict_get "errors" p) && is_empty (dict_get "messages" p)
           && match field "result" p with JArr [_] => true | _ => false end) "snapshot_provider_result" ;?
  closed (match field "result" p with JArr [r] => r | _ => JNull end) ["success"; "results"; "meta"] "snapshot_fields".
Definition _rows (response : Response) (limit : Z) : res (list json) :=
  require ((rs_status response =? 200) && (slen (rs_body response) <=? limit)) "snapshot_response" ;?
  require (headers_ok (rs_headers response)) "snapshot_response_metadata" ;?
  let? payload := strict_json (rs_body response) in
  let? r := one_result payload in
  require (is_true (dict_get "success" r)
           && match field "results" r with JArr rows => forallb (λ row, match row with JObj _ => true | _ => false end) rows | _ => false end
           && match field "meta" r with JObj _ => true | _ => false end) "snapshot_query_result" ;?
  require (match field "meta" r with JObj m => forallb (λ k, negb (bool_decide (is_Some (dict_get k m)))) completion_keys | _ => true end)
    "snapshot_incomplete_response" ;?
  list_of (field "results" r) "snapshot_query_result".

(** [payload["result"][0]["meta"]], and the signals of an incomplete answer. *)
Definition meta_of (payload : json) : json :=
  match payload with
  | JObj p => match field "result" p with JArr (JObj r :: _) => field "meta" r | _ => JNull end
  | _ => JNull
  end.
Definition served_by_primary (meta : json) : bool := match meta with JObj m => is_true (dict_get "served_by_primary" m) | _ => false end.
Definition incomplete_keys : list string := ["result_info"; "cursor"; "has_more"; "next"; "truncated"].
Definition complete_payload (payload : json) : bool :=
  match payload with JObj p => forallb (λ k, negb (bool_decide (is_Some (dict_get k p)))) incomplete_keys | _ => true end.

(** ** An instance *)

(** What an instance holds beside its settings, over a journal file and ports with
    state [C]: the activated binding, the sender's allocation, the read evidence and
    the visible effects. *)
Record NState (C Extra : Type) := mkNState {
  n_world : State C;
  n_active : option Active;
  n_extra : option Extra;
  n_evidence : list json;
  n_trace : list event;
}.
Arguments mkNState {C Extra}. Arguments n_world {C Extra}. Arguments n_active {C Extra}. Arguments n_extra {C Extra}.
Arguments n_evidence {C Extra}. Arguments n_trace {C Extra}.

Section Instance.
Context {C Extra : Type} (ports : NativePorts C) (fate : nat → io) (sha256 : string → string).
Context (integral : string → option Z) (address : json → res string).
Context (self : Settings).
Notation N := (M (NState C Extra)).
Notation clock := (p_now (np_adapter ports)).
Notation eqb := (py_eqb integral).

Definition on_journal {T} (m : M (State C) T) : N T := λ s,
  let (r, w) := m (n_world s) in (r, mkNState w (n_active s) (n_extra s) (n_evidence s) (n_trace s)).
Definition on_ports {T} (m : M C T) : N T := on_journal (outside m).
(** A codec call: it reads the source files through the adapter's ports. *)
Definition on_codec {T} (m : M (AState (State C)) T) : N T := λ s,
  let (r, a) := m (mkAState (n_world s) 0 false []) in
  (r, mkNState (a_world a) (n_active s) (n_extra s) (n_evidence s) (n_trace s)).
Definition record_event (e : event) : N unit :=
  modify (λ s, mkNState (n_world s) (n_active s) (n_extra s) (n_evidence s) (n_trace s ++ [e])).
Definition set_active_ (a : Active) : N unit :=
  modify (λ s, mkNState (n_world s) (Some a) (n_extra s) (n_evidence s) (n_trace s)).

(** *** Files and the guard *)

(** [pinned_file(path, expected, limit)]: the first [limit + 1] bytes are the whole
    file exactly when it is at most [limit] long. *)
Definition pinned_file (path expected : json) (limit : Z) : M C string :=
  lift (require (digest_of expected) "native_d1_pin") ;*
  match path with
  | JStr p =>
      let* plain := np_plain_path ports p in
      lift (require plain "native_d1_custody_path") ;*
      let* raw := np_read ports p in
      lift (require ((slen raw <=? limit) && eqb (JStr (sha256 raw)) expected) "native_d1_retained_pin") ;*
      ret raw
  | _ => raise (External "TypeError")
  end.
Definition packet_file : M C string := pinned_file (JStr (c_packet_path self)) (JStr (c_packet_pin self)) MAX_PACKET_BYTES.
Fixpoint evidence_files (evidence : list (string * json)) : M C unit :=
  match evidence with
  | [] => ret tt
  | (_, record) :: evidence' =>
      let* pp := lift (evidence_record record) in
      pinned_file (fst pp) (snd pp) MAX_PACKET_BYTES ;* evidence_files evidence'
  end.

(** [active()] *)
Definition active : N Active := λ s,
  match n_active s with Some a => (Ok a, s) | None => (Err (Refusal "native_d1_inert"), s) end.

(** [Binding.guard(deadline)] once the binding is active *)
Definition guard_packet (p : Packet) (deadline : stamp) : M C unit :=
  let* now := clock in
  match now, deadline with
  | At n, At d =>
      lift (require ((p_starts p <=? n) && (n <? d) && (d <=? p_ends p)) "native_d1_deadline") ;*
      packet_file ;*
      let* pins := np_source_pins ports in
      lift (require (eqb (packet_part "sourcePins" p) pins) "native_d1_source_drift") ;*
      p_recheck (np_adapter ports) ;*
      evidence_files (p_evidence p) ;*
      let* after := clock in
      lift (require (match after with At a => (n <=? a) && (a <? d) | Unusable => false end) "native_d1_deadline_after_source")
  | _, _ => raise (Refusal "native_d1_deadline")
  end.
Definition guard (deadline : stamp) : N unit :=
  let* a := active in on_ports (guard_packet (a_packet a) deadline).

(** *** Activation *)

(** The loop over [packet["queries"]]; the writer statements are computed anew for
    every writer query. *)
Definition check_query (writer_sqls : N (list string)) (reads : list string) (query : json) : N Query :=
  let* q := lift (query_shape query) in
  let role := text_of (field "role" q) in
  let sql := text_of (field "sql" q) in
  let params := match field "params" q with JArr l => l | _ => [] end in
  if bool_decide (role = "writer")
  then let* writers := writer_sqls in lift (writer_query writers sql params)
  else lift (read_query role sql reads params).
Fixpoint check_queries (writer_sqls : N (list string)) (reads : list string) (queries : list json) : N (list Query) :=
  match queries with
  | [] => ret []
  | query :: queries' =>
      let* q := check_query writer_sqls reads query in
      let* qs := check_queries writer_sqls reads queries' in
      ret (q :: qs)
  end.

(** The packet of [activate], validated up to the credential. *)
Definition read_packet (writer_sqls : N (list string)) : N Packet :=
  let* raw := on_ports packet_file in
  let* document := lift (strict_json raw) in
  let* d := lift (closed document packet_keys "native_d1_packet_fields") in
  lift (require (eqb (field "kind" d) (JStr "pmb1-finite-native-d1-operator-v1")) "native_d1_packet_kind") ;*
  lift (require (eqb (field "candidate" d) (JStr (sd_candidate (c_source self)))) "native_d1_source_binding") ;*
  let* pins := on_ports (np_source_pins ports) in
  lift (require (eqb (field "sourcePins" d) pins) "native_d1_source_binding") ;*
  lift (identity_ok integral address d) ;*
  lift (limits_ok d) ;*
  lift (window_ok d) ;*
  let* evidence := lift (evidence_inventory d) in
  on_ports (evidence_files evidence) ;*
  lift (require (digest_of (field "profileSha2_256" d)) "native_d1_profile_pin") ;*
  let* queries := lift (query_inventory d) in
  let* fixed := on_codec (verify_source (outside_ports (np_adapter ports)) sha256) in
  let* readback := lift (text_of_file "readback.sql" fixed) in
  let* schema := lift (text_of_file "schema.sql" fixed) in
  let* checked := check_queries writer_sqls [readback; schema] queries in
  ret (packet_of d checked evidence).

(** [Binding.activate(credential_loader)]; a loader is a callable or something else. *)
Definition activate (writer_sqls : N (list string)) (credential_loader : option (M C pyval)) : N unit :=
  let* a := gets n_active in
  lift (require (negb (bool_decide (is_Some a))) "native_d1_already_active") ;*
  let* p := read_packet writer_sqls in
  lift (require (digest_of (packet_part "credentialSha2_256" p)) "native_d1_credential_pin") ;*
  on_ports (p_recheck (np_adapter ports)) ;*
  let* now := on_ports clock in
  lift (require (match now with At n => (p_starts p <=? n) && (n <? p_ends p) | Unusable => false end) "native_d1_deadline") ;*
  on_journal (remaining clock fate (p_target p) (c_packet_pin self) (p_max_total p) (At (p_ends p))) ;*
  let* load := lift (some_or credential_loader "native_d1_credential_delivery") in
  record_event Delivered ;*
  let* token := on_ports load in
  match token with
  | PStr t =>
      lift (require (token_grammar t && eqb (JStr (sha256 t)) (packet_part "credentialSha2_256" p)) "native_d1_credential_binding") ;*
      set_active_ (mkActive p t (text_of (packet_part "endpointAddress" p))) ;*
      guard (At (p_ends p))
  | _ => raise (Refusal "native_d1_credential_binding")
  end.

(** *** One request *)

Definition CRLF : string := String (chr 13) newline.
(** [f"/client/v4/accounts/{...}/d1/database/{...}/query"] and the framed request *)
Definition query_path (p : Packet) : string :=
  "/client/v4/accounts/" +:+ p_account p +:+ "/d1/database/" +:+ p_database p +:+ "/query".
Definition request_headers (token body : string) : list (string * string) :=
  [("Host", "api.cloudflare.com"); ("Connection", "close"); ("Content-Length", str_of_int (slen body));
   ("Accept", "application/json"); ("Content-Type", "application/json"); ("Accept-Encoding", "identity");
   ("Authorization", "Bearer " +:+ token)].
Definition framed (path : string) (headers : list (string * string)) (body : string) : string :=
  "POST " +:+ path +:+ " HTTP/1.1" +:+ CRLF
  +:+ joined "" (map (λ kv, fst kv +:+ ": " +:+ snd kv +:+ CRLF) headers) +:+ CRLF +:+ body.
Definition http_request (a : Active) (body : string) (cap : Z) (deadline now1 now2 : Z) : HttpRequest :=
  let p := a_packet a in
  let headers := request_headers (a_token a) body in
  mkHttpRequest ("https://api.cloudflare.com" +:+ query_path p) headers (Z.min (p_timeout p) (deadline - now1)) cap
    (Z.min deadline (now2 + p_timeout p)) (framed (query_path p) headers body).
Definition read_body (sql : string) (params : list string) : string :=
  canonical (JObj [("sql", JStr sql); ("params", JArr (map JStr params))]).
Definition descriptor_json (q : Query) : json :=
  JObj [("role", JStr (q_role q)); ("sql", JStr (q_sql q)); ("params", JArr (map JStr (q_params q)))].

(** A clock value and a deadline in arithmetic: a value that is not a finite number
    ends the call here, before anything is sent. *)
Definition finite (t : stamp) : res Z := match t with At z => Ok z | Unusable => Err (External "TypeError") end.

(** [Binding.query(role, sql, params, deadline)]: [min(timeout, deadline - clock())]
    and [min(deadline, clock() + timeout)] read the clock twice. *)
Definition query (role sql : string) (params : list string) (deadline : stamp) : N (list json * json) :=
  lift (require (str_in role ["observer"; "snapshot"]) "native_d1_exact_commit_receipt_unavailable") ;*
  try (
    guard deadline ;*
    let* a := active in
    let p := a_packet a in
    let target := p_target p in
    let pin := c_packet_pin self in
    let* orr := on_journal (remaining clock fate target pin (p_max_total p) deadline) in
    let ordinal := fst orr in
    lift (require (ordinal <? Z.of_nat (length (p_queries p))) "native_d1_query_manifest_mismatch") ;*
    let* planned := lift (item ordinal (p_queries p)) in
    lift (require (bool_decide (planned = mkQuery role sql params)) "native_d1_query_manifest_mismatch") ;*
    let cap := Z.min (p_max_response p) (snd orr) in
    lift (require (0 <? cap) "native_d1_budget_exhausted") ;*
    let body := read_body sql params in
    let* claimed := on_journal (reserve_request clock fate target pin (dumps (descriptor_json planned)) cap (p_max_total p)
                                  (Z.of_nat (length (p_queries p))) deadline) in
    lift (require (claimed =? ordinal) "native_d1_concurrent_ordinal") ;*
    guard deadline ;*
    let* now1 := on_ports clock in let* t1 := lift (finite now1) in
    let* now2 := on_ports clock in let* t2 := lift (finite now2) in
    let* d := lift (finite deadline) in
    let request := http_request a body cap d t1 t2 in
    record_event (Sent ordinal None body (rq_wire request)) ;*
    let* response := on_ports (np_https ports request (guard_packet p (At (rq_deadline request)))) in
    guard deadline ;*
    let* rows := lift (_rows response cap) in
    let* wire := lift (some_or (rs_wire_bytes response) "native_d1_wire_bytes") in
    lift (require ((slen (rs_body response) <=? wire) && (wire <=? cap)) "native_d1_wire_bytes") ;*
    let* payload := lift (strict_json (rs_body response)) in
    lift (require (served_by_primary (meta_of payload)) "native_d1_primary_unproved") ;*
    lift (require (complete_payload payload) "native_d1_incomplete") ;*
    on_journal (received clock fate target pin ordinal wire deadline) ;*
    record_event (Accounted ordinal wire) ;*
    guard deadline ;*
    ret (rows, meta_of payload))
  (λ _, raise (Refusal "native_d1_refused_or_unknown_no_replay")).

(** [Provider.dispatch]: no single update can be dispatched through this binding. *)
Definition provider_dispatch (u : FixedUpdate) (deadline : stamp) : N reply :=
  raise (Refusal "native_d1_exact_commit_receipt_unavailable").
(** [Observer.read]; the cells of a row that are not texts are kept apart. *)
Definition cell_value (j : json) : pyval :=
  match j with JNull => PNone | JBool b => PBool b | JInt z => PInt z | JStr s => PStr s | _ => POther end.
Definition row_dict (j : json) : DictRow := match j with JObj d => map (λ kv, (fst kv, cell_value (snd kv))) d | _ => [] end.
Definition observer_read (sql : string) (deadline : stamp) : N CompleteRows :=
  let* rm := query "observer" sql [] deadline in ret (mkCompleteRows (map row_dict (fst rm)) true).
End Instance.
