(* ===== verification/NativeSender.v ===== *)
(** probes/pmb1-native-d1-binding/native_sender.py: the positional D1 sender over the
    binding - the reviewed admission, the exact allocation, the guard and the one
    request it sends per reserved ordinal.

    An admission is a value of its class; the protected credential is an interface of
    native_custody.py ([Credential]): its review pins, its own binding check and its
    delivery. The comparison of the admission with its own canonical text is of an
    immutable value with itself. *)
From S2P Require Import Prelude Json JsonParse JsonRoundTrip Oracle Evidence Control D1Port D1Journal D1Adapter D1Campaign ExactCount NativeBinding.

(** ** [json_media_type] *)

Definition blank (c : ascii) : bool := (code c =? 32) || (code c =? 9).
Fixpoint skip_blanks (s : string) : string :=
  match s with String c s' => if blank c then skip_blanks s' else s | EmptyString => s end.
(** [value.strip(" \t")] *)
Fixpoint trim_blanks (s : string) : string :=
  match s with
  | String c s' => let t := trim_blanks s' in if blank c && bool_decide (t = EmptyString) then EmptyString else String c t
  | EmptyString => s
  end.
Definition media_token_char (c : ascii) : bool := is_alpha c || is_digit c || mem_char c "!#$%&'*+.^_`|~-".
Fixpoint take_token (s : string) : string * string :=
  match s with
  | String c s' => if media_token_char c then let (t, rest) := take_token s' in (String c t, rest) else (EmptyString, s)
  | EmptyString => (EmptyString, s)
  end.
Definition printable (c : ascii) : bool := (32 <=? code c) && (code c <=? 126).
Definition quoted_char (c : ascii) : bool := printable c && negb (code c =? 34) && negb (code c =? 92).
(** The rest of a quoted string after its opening quote: its unescaped value and
    what follows the closing quote. *)
Fixpoint take_quoted (s : string) : option (string * string) :=
  match s with
  | EmptyString => None
  | String c s' =>
      if code c =? 34 then Some (EmptyString, s')
      else if code c =? 92 then
        match s' with
        | String e s'' => if printable e then match take_quoted s'' with Some (v, r) => Some (String e v, r) | None => None end else None
        | EmptyString => None
        end
      else if quoted_char c then match take_quoted s' with Some (v, r) => Some (String c v, r) | None => None end
      else None
  end.
Definition starts_with_char (n : Z) (s : string) : bool := match s with String c _ => code c =? n | EmptyString => false end.
Definition tail_of (s : string) : string := match s with String _ s' => s' | EmptyString => s end.
(** [parameter.match(value, position)]: name, value and the rest. *)
Definition media_parameter (s : string) : option (string * string * string) :=
  let s := skip_blanks s in
  if negb (starts_with_char 59 s) then None else
  let (name, s) := take_token (skip_blanks (tail_of s)) in
  if bool_decide (name = EmptyString) then None else
  let s := skip_blanks s in
  if negb (starts_with_char 61 s) then None else
  let s := skip_blanks (tail_of s) in
  if starts_with_char 34 s
  then match take_quoted (tail_of s) with Some (v, rest) => Some (name, v, rest) | None => None end
  else let (v, rest) := take_token s in if bool_decide (v = EmptyString) then None else Some (name, v, rest).
Fixpoint media_parameters (fuel : nat) (seen : list string) (s : string) : bool :=
  if bool_decide (trim_blanks (skip_blanks s) = EmptyString) then true else
  match fuel with
  | O => false
  | S fuel =>
      match media_parameter s with
      | None => false
      | Some (name, v, rest) =>
          let name := lower_text name in
          if str_in name seen then false
          else if bool_decide (name = "charset") && negb (bool_decide (lower_text v = "utf-8")) then false
          else media_parameters fuel (name :: seen) rest
      end
  end.
Definition MEDIA : string := "application/json".
Definition media_type_end (rest : string) : bool :=
  let rest := skip_blanks rest in bool_decide (rest = EmptyString) || bool_decide (rest = newline) || starts_with_char 59 rest.
Definition json_media_type (value : option string) : bool :=
  match value with
  | None => false
  | Some value =>
      let value := trim_blanks (skip_blanks value) in
      let rest := String.substring (String.length MEDIA) (String.length value) value in
      bool_decide (lower_text (String.substring 0 (String.length MEDIA) value) = MEDIA) && media_type_end rest
      && media_parameters (S (String.length rest)) [] rest
  end.

(** ** Admission *)

(** [EvidenceRef] *)
Record EvidenceRef := mkEvidenceRef { er_path : string; er_pin : string }.
Record ReviewedAdmission := mkReviewedAdmission {
  ad_reviewer : string;
  ad_packet_pin : string;
  ad_protocol : string;
  ad_source_pins : json;
  ad_target : string;
  ad_clock_domain : string;
  ad_starts : Z;
  ad_ends : Z;
  ad_credential : string;
  ad_review : EvidenceRef;
  ad_facts : list (string * EvidenceRef);
}.
Definition fact_keys : list string :=
  ["sameConnection"; "orderedTransactionRollbackCommit"; "noInterleaving"; "textBinding"; "primaryCompleteness"; "protectedDelivery";
   "durableCustody"; "clockAndWindow"; "targetCurrentGrant"; "allWriterInterval"; "sourceOracle"; "allocation"].
(** The evidence of the packet each fact is bound to. *)
Definition fact_binding : list (string * string) :=
  [("sameConnection", "primaryAndCommitSemantics"); ("orderedTransactionRollbackCommit", "primaryAndCommitSemantics");
   ("noInterleaving", "primaryAndCommitSemantics"); ("textBinding", "primaryAndCommitSemantics");
   ("primaryCompleteness", "primaryAndCommitSemantics"); ("durableCustody", "custody"); ("targetCurrentGrant", "grant");
   ("allWriterInterval", "allWriterInterval"); ("sourceOracle", "sourceOracle"); ("allocation", "allocation")].

(** [Path(a) == Path(b)] of POSIX paths *)
Definition path_root (s : string) : string :=
  if startswith "///" s then "/" else if startswith "//" s then "//" else if startswith "/" s then "/" else EmptyString.
Definition path_parts (s : string) : list string :=
  path_root s :: filter (λ part, part ≠ EmptyString ∧ part ≠ ".") (split_on "/" s).
Definition same_path (a b : string) : bool := bool_decide (path_parts a = path_parts b).

Definition ref_json (r : EvidenceRef) : json := JObj [("path", JStr (er_path r)); ("sha2_256", JStr (er_pin r))].

(** [native_custody.ProtectedCredential] *)
Record Credential (C : Type) := mkCredential {
  cr_review_path : string;
  cr_review_pin : string;
  cr_validate_binding : string → string → json → string → json → json → M C unit;
  cr_load : M C pyval;
}.
Arguments cr_review_path {C}. Arguments cr_review_pin {C}. Arguments cr_validate_binding {C}. Arguments cr_load {C}.

(** ** Allocation *)

Record Allocation := mkAllocation {
  al_document : json;
  al_intents : list json;
  al_requests : list json;
  al_limits : list (string * Z);
}.
(** What the sender keeps once it is active. *)
Record Sender := mkSender { sn_packet_raw : string; sn_allocation_raw : string; sn_allocation : Allocation; sn_admission : ReviewedAdmission }.

Definition limit_keys : list string := ["requests"; "statements"; "requestBytes"; "responseBytes"].
Definition allocation_keys : list string := ["kind"; "protocol"; "intents"; "requests"; "limits"].

(** [value[k]] and [value.values()] of a document of any type *)
Definition need (k : string) (value : json) : res json :=
  match value with
  | JObj d => match dict_get k d with Some v => Ok v | None => Err (External "KeyError") end
  | _ => Err (External "TypeError")
  end.
Definition dict_values (value : json) : res (list json) :=
  match value with JObj d => Ok (map snd d) | _ => Err (External "AttributeError") end.

Section Sender.
Context {C : Type} (ports : NativePorts C) (fate : nat → io) (sha256 : string → string).
Context (integral : string → option Z) (address : json → res string).
Context (self : Settings).
Notation N := (M (NState C Sender)).
Notation clock := (p_now (np_adapter ports)).
Notation eqb := (py_eqb integral).
Notation codec_ports := (outside_ports (np_adapter ports)).
Notation pinned_file := (pinned_file ports sha256 integral).
Notation packet_file := (packet_file ports sha256 integral self).
Notation build := (positional_build codec_ports sha256).

(** *** [ReviewedAdmission.recheck(core)] *)

Definition admission_label : string := "native_sender_independent_admission_binding".
(** [text == packet[k]] in a chain of conditions *)
Definition bound_to (packet : json) (k : string) (v : json) (label : string) : res unit :=
  let? found := need k packet in require (eqb v found) label.
Definition admission_binding (ad : ReviewedAdmission) (packet pins : json) : res unit :=
  require ((1 <=? slen (ad_reviewer ad)) && (slen (ad_reviewer ad) <=? 128) && bool_decide (ad_protocol ad = POSITIONAL_BOUNDARY)
           && bool_decide (ad_packet_pin ad = c_packet_pin self) && eqb (ad_source_pins ad) pins) admission_label ;?
  bound_to packet "targetId" (JStr (ad_target ad)) admission_label ;?
  bound_to packet "clockDomain" (JStr (ad_clock_domain ad)) admission_label ;?
  bound_to packet "starts" (JInt (ad_starts ad)) admission_label ;?
  bound_to packet "ends" (JInt (ad_ends ad)) admission_label ;?
  bound_to packet "credentialSha2_256" (JStr (ad_credential ad)) admission_label.
(** The review is retained apart from the packet and its evidence. *)
Definition review_apart (ad : ReviewedAdmission) (packet : json) : res unit :=
  require (negb (same_path (er_path (ad_review ad)) (c_packet_path self))) "native_sender_independent_admission_path" ;?
  let? evidence := need "independentEvidence" packet in
  let? records := dict_values evidence in
  forR (λ record, let? path := need "path" record in
          match path with
          | JStr p => require (negb (same_path (er_path (ad_review ad)) p)) "native_sender_independent_admission_path"
          | _ => Err (External "TypeError")
          end) records.
Definition fact_bound (ad : ReviewedAdmission) (packet : json) (fe : string * string) : res unit :=
  let? r := some_or (dict_get (fst fe) (ad_facts ad)) "KeyError" in
  let? evidence := need "independentEvidence" packet in
  bound_to evidence (snd fe) (ref_json r) "native_sender_fact_packet_binding".
Fixpoint check_references (refs : list EvidenceRef) : M C unit :=
  match refs with
  | [] => ret tt
  | r :: refs' => pinned_file (JStr (er_path r)) (JStr (er_pin r)) MAX_PACKET_BYTES ;* check_references refs'
  end.
Definition recheck (ad : ReviewedAdmission) : M C unit :=
  let* raw := packet_file in
  let* packet := lift (strict_json raw) in
  let* pins := np_source_pins ports in
  lift (admission_binding ad packet pins) ;*
  lift (review_apart ad packet) ;*
  lift (require (same_keys (ad_facts ad) fact_keys) "native_sender_actual_fact_inventory") ;*
  check_references (ad_review ad :: map snd (ad_facts ad)) ;*
  lift (forR (fact_bound ad packet) fact_binding).

(** *** [_validate_allocation(packet, allocation)] *)

Definition read_manifest (sql params : json) : json :=
  JObj [("protocol", JStr "independent_primary_read"); ("statementCount", JInt 1);
        ("requestBodySha2_256", JStr (sha256 (canonical (JObj [("sql", sql); ("params", params)]))));
        ("statements", JArr [JObj [("sql", sql); ("params", params)]])].

(** The loop over the intents: the one before, and the keys seen. *)
Fixpoint check_intents (root : Intent) (prior : option Intent) (keys : list string) (intents : list Intent) : N unit :=
  match intents with
  | [] => ret tt
  | i :: intents' =>
      on_codec (build i) ;*
      lift (require (bool_decide (i_target_id i = i_target_id root) && bool_decide (i_candidate i = i_candidate root)
                     && bool_decide (i_window i = i_window root) && (i_transition_limit i =? i_transition_limit root)
                     && negb (str_in (i_key i) keys)
                     && match prior with
                        | None => true
                        | Some p => bool_decide (i_expected i = next_generation_of p) && negb (bool_decide (i_operation i = i_operation p))
                        end) "native_sender_campaign_binding") ;*
      check_intents root (Some i) (keys ++ [i_key i]) intents'
  end.

(** [len(value)] of a list or dict *)
Definition length_of (value : json) : res Z :=
  match value with
  | JArr l => Ok (Z.of_nat (length l)) | JObj d => Ok (Z.of_nat (length d)) | JStr s => Ok (slen s)
  | _ => Err (External "TypeError")
  end.
(** [limits]: four positive integers. *)
Definition read_limits (packet limits : json) : res (list (string * Z)) :=
  match limits with
  | JObj l =>
      require (same_keys l limit_keys && forallb (λ kv, int_where (λ z, 0 <? z) (snd kv)) l) "native_sender_finite_limits" ;?
      let zs := map (λ kv, (fst kv, int_of (snd kv))) l in
      let? queries := need "queries" packet in
      let? count := length_of queries in
      require ((limit_of "requests" zs =? count) && (limit_of "requests" zs <=? limit_of "statements" zs)
               && (limit_of "statements" zs <=? 2048) && (limit_of "requestBytes" zs <=? 16 * 1024 * 1024)) "native_sender_finite_limits" ;?
      bound_to packet "maxTotalBytes" (JInt (limit_of "responseBytes" zs)) "native_sender_finite_limits" ;?
      Ok zs
  | _ => Err (Refusal "native_sender_finite_limits")
  end.

(** The loop over queries and requests: how many writers were seen. *)
Definition check_request (intents : list Intent) (writers : nat) (query request : json) : N nat :=
  let* role := lift (need "role" query) in
  if eqb role (JStr "writer") then
    match nth_error intents writers with
    | None => raise (Refusal "native_sender_extra_writer")
    | Some i =>
        let* batch := on_codec (build i) in
        lift (require (eqb query (JObj [("role", JStr "writer"); ("sql", JStr (fb_update_sql batch)); ("params", JArr [JStr (i_expected i)])]))
                "native_sender_writer_intent") ;*
        let* expected := on_codec (positional_manifest codec_ports sha256 batch) in
        lift (require (eqb request expected) "native_sender_exact_manifest") ;*
        ret (S writers)
    end
  else
    let* sql := lift (need "sql" query) in
    let* params := lift (need "params" query) in
    lift (require (eqb request (read_manifest sql params)) "native_sender_exact_manifest") ;*
    ret writers.
Fixpoint check_requests (intents : list Intent) (writers : nat) (l : list (json * json)) : N nat :=
  match l with
  | [] => ret writers
  | (query, request) :: l' => let* n := check_request intents writers query request in check_requests intents n l'
  end.
(** [request["statementCount"]] of a checked request, as a number *)
Definition count_of (request : json) : Z :=
  match request with
  | JObj d => match field "statementCount" d with
              | JInt z => z | JBool b => Z.b2z b | JFloat t => default 0 (integral t) | _ => 0 end
  | _ => 0
  end.

Definition root_binding (packet : json) (root : Intent) (n : nat) : res unit :=
  let label := "native_sender_root_binding" in
  bound_to packet "targetId" (JStr (i_target_id root)) label ;?
  bound_to packet "candidate" (JStr (i_candidate root)) label ;?
  bound_to packet "starts" (stamp_json (starts_at (i_window root))) label ;?
  bound_to packet "ends" (stamp_json (reconcile_until (i_window root))) label ;?
  require (Z.of_nat n <=? i_transition_limit root) label.
Definition validate_allocation (packet allocation : json) : N Allocation :=
  let* d := lift (closed allocation allocation_keys "native_sender_allocation_selection") in
  lift (require (eqb (field "kind" d) (JStr "pmb1-native-positional-allocation-v1") && eqb (field "protocol" d) (JStr POSITIONAL_BOUNDARY))
          "native_sender_allocation_selection") ;*
  let* documents := lift (list_of (field "intents" d) "native_sender_intent_inventory") in
  lift (require ((1 <=? Z.of_nat (length documents)) && (Z.of_nat (length documents) <=? 3)) "native_sender_intent_inventory") ;*
  let* intents := lift (mapR intent_from documents) in
  let* root := lift (match intents with i :: _ => Ok i | [] => Err (External "IndexError") end) in
  on_codec (positional_build_root codec_ports sha256 root) ;*
  lift (root_binding packet root (length intents)) ;*
  check_intents root None [] intents ;*
  let* limits := lift (read_limits packet (field "limits" d)) in
  let* requests := lift (list_of (field "requests" d) "native_sender_request_inventory") in
  let* queries := lift (need "queries" packet) in
  let* queries := lift (match queries with JArr l => Ok l | _ => Err (External "TypeError") end) in
  lift (require (bool_decide (length requests = length queries)) "native_sender_request_inventory") ;*
  let* writers := check_requests intents 0%nat (combine queries requests) in
  lift (require (bool_decide (writers = length intents)) "native_sender_missing_writer") ;*
  lift (require (foldr (λ r n, count_of r + n) 0 requests <=? limit_of "statements" limits) "native_sender_full_statement_budget") ;*
  ret (mkAllocation allocation documents requests limits).

(** *** Activation and guard *)

(** [_fixed_writer_sqls] of the positional binding *)
Definition positional_writers : N (list string) :=
  let* close := on_codec (source_sql codec_ports sha256 "close") in
  let* reopen := on_codec (source_sql codec_ports sha256 "reopen") in
  ret [close; reopen].

Definition sender : N Sender := λ s,
  match n_extra s with Some e => (Ok e, s) | None => (Err (Refusal "native_sender_inert"), s) end.
Definition set_sender (e : Sender) : N unit :=
  modify (λ s, mkNState (n_world s) (n_active s) (Some e) (n_evidence s) (n_trace s)).

(** [NativePositionalSender.guard(deadline)] of an active sender *)
Definition guard_sender (a : Active) (e : Sender) (deadline : stamp) : M C unit :=
  guard_packet ports sha256 integral self (a_packet a) deadline ;*
  recheck (sn_admission e) ;*
  lift (require (bool_decide (canonical (p_document (a_packet a)) = sn_packet_raw e)
                 && bool_decide (canonical (al_document (sn_allocation e)) = sn_allocation_raw e)) "native_sender_memory_drift").
Definition guard_native (deadline : stamp) : N unit :=
  let* e := sender in
  let* a := active in
  on_ports (guard_sender a e deadline).

(** A time of a document *)
Definition stamp_of (j : json) : stamp := match j with JInt z => At z | _ => Unusable end.

Definition activate_native (credential : option (Credential C)) (admission : option ReviewedAdmission) : N unit :=
  let* x := gets n_extra in
  lift (require (negb (bool_decide (is_Some x))) "native_sender_already_active") ;*
  let* ad := lift (some_or admission "native_sender_admission_required") in
  on_ports (recheck ad) ;*
  let* delivery := lift (some_or (dict_get "protectedDelivery" (ad_facts ad)) "KeyError") in
  let* grant := lift (some_or (dict_get "targetCurrentGrant" (ad_facts ad)) "KeyError") in
  let* custody := lift (some_or (dict_get "durableCustody" (ad_facts ad)) "KeyError") in
  let* credential := lift (some_or credential "native_sender_reviewed_protected_delivery") in
  lift (require (bool_decide (cr_review_path credential = er_path delivery) && bool_decide (cr_review_pin credential = er_pin delivery))
          "native_sender_reviewed_protected_delivery") ;*
  on_ports (cr_validate_binding credential (ad_packet_pin ad) (ad_target ad) (ad_source_pins ad) (ad_credential ad)
              (ref_json grant) (ref_json custody)) ;*
  let* raw := on_ports packet_file in
  let* packet := lift (strict_json raw) in
  let* evidence := lift (need "independentEvidence" packet) in
  let* record := lift (need "allocation" evidence) in
  let* path := lift (need "path" record) in
  let* pin := lift (need "sha2_256" record) in
  let* allocation_raw := on_ports (pinned_file path pin MAX_PACKET_BYTES) in
  let* allocation := lift (strict_json allocation_raw) in
  let* al := validate_allocation packet allocation in
  activate ports fate sha256 integral address self positional_writers (Some (cr_load credential)) ;*
  set_sender (mkSender raw allocation_raw al ad) ;*
  let* ends := lift (need "ends" packet) in
  guard_native (stamp_of ends).

(** *** One request *)

Definition add_evidence (j : json) : N unit :=
  modify (λ s, mkNState (n_world s) (n_active s) (n_extra s) (n_evidence s ++ [j]) (n_trace s)).
Definition read_evidence (ordinal : Z) (manifest : json) (body : string) (wire : Z) : json :=
  JObj [("requestOrdinal", JInt ordinal); ("request", manifest); ("responseBodySha2_256", JStr (sha256 body));
        ("wireBytes", JInt wire); ("primary", JBool true); ("complete", JBool true)].

(** The answer: a batch is only decoded, a read must be complete and of the primary. *)
Definition native_answer (batch : option Batch) (response : Response) (cap : Z) : res (list json * json) :=
  match batch with
  | Some _ => let? _ := decode_ordered_body (rs_body response) in Ok ([], JObj [])
  | None =>
      let? rows := _rows response cap in
      let? payload := strict_json (rs_body response) in
      require (served_by_primary (meta_of payload) && complete_payload payload) "native_sender_complete_primary" ;?
      Ok (rows, meta_of payload)
  end.
Definition manifest_digest (manifest : json) : json := match manifest with JObj m => field "requestBodySha2_256" m | _ => JNull end.

(** [native_sender._request] before the reservation: what will be sent. *)
Definition plan_request (role sql : string) (params : list string) (deadline : stamp) (batch : option Batch)
    : N (Active * Sender * Z * json * Z * string) :=
  guard_native deadline ;*
  let* e := sender in
  let* a := active in
  let p := a_packet a in
  let* orr := on_journal (remaining clock fate (p_target p) (c_packet_pin self) (p_max_total p) deadline) in
  let ordinal := fst orr in
  lift (require (ordinal <? Z.of_nat (length (p_queries p))) "native_sender_query_order") ;*
  let* planned := lift (item ordinal (p_queries p)) in
  lift (require (bool_decide (planned = mkQuery role sql params)) "native_sender_query_order") ;*
  let* body := match batch with
               | Some b => on_codec (positional_request_body codec_ports sha256 b)
               | None => ret (read_body sql params)
               end in
  let* manifest := lift (item ordinal (al_requests (sn_allocation e))) in
  lift (require (eqb (JStr (sha256 body)) (manifest_digest manifest)) "native_sender_body_binding") ;*
  let cap := Z.min (p_max_response p) (snd orr) in
  lift (require (0 <? cap) "native_sender_response_budget") ;*
  ret (a, e, ordinal, manifest, cap, body).

(** From the reservation to the answer of the transport. *)
Definition send_request (a : Active) (e : Sender) (ordinal : Z) (manifest : json) (cap : Z) (body : string) (deadline : stamp)
    (batch : option Batch) : N (HttpRequest * Response) :=
  let p := a_packet a in
  let wire := framed (query_path p) (request_headers (a_token a) body) body in
  let* claimed := on_journal (reserve_exact_request clock fate (p_target p) (c_packet_pin self) manifest cap (slen wire)
                                (al_limits (sn_allocation e)) deadline (fb_intent <$> batch)) in
  lift (require (claimed =? ordinal) "native_sender_concurrent_ordinal") ;*
  guard_native deadline ;*
  let* now := on_ports clock in
  let* t := lift (finite now) in
  let* d := lift (finite deadline) in
  let request := http_request a body cap d t t in
  record_event (Sent ordinal ((λ b, i_key (fb_intent b)) <$> batch) body wire) ;*
  let* response := on_ports (np_https ports request (guard_sender a e (At (rq_deadline request)))) in
  ret (request, response).

(** The checks of the answer and its accounting. *)
Definition accept_response (a : Active) (ordinal : Z) (manifest : json) (cap : Z) (request : HttpRequest) (response : Response)
    (batch : option Batch) : N (list json * json * string) :=
  let p := a_packet a in
  let deadline := At (rq_deadline request) in
  guard_native deadline ;*
  lift (require ((rs_status response =? 200) && json_media_type (dict_get "content-type" (rs_headers response))) "native_sender_complete_http_response") ;*
  let* wire := lift (some_or (rs_wire_bytes response) "native_sender_complete_http_response") in
  lift (require ((slen (rs_body response) <=? wire) && (wire <=? cap)) "native_sender_complete_http_response") ;*
  let* rm := lift (native_answer batch response cap) in
  on_journal (received clock fate (p_target p) (c_packet_pin self) ordinal wire deadline) ;*
  record_event (Accounted ordinal wire) ;*
  guard_native deadline ;*
  (match batch with
   | None => add_evidence (read_evidence ordinal manifest (rs_body response) wire)
   | Some _ => ret tt
   end) ;*
  ret (fst rm, snd rm, rs_body response).

Definition request_ (role sql : string) (params : list string) (deadline : stamp) (batch : option Batch) : N (list json * json * string) :=
  try (
    let* '(a, e, ordinal, manifest, cap, body) := plan_request role sql params deadline batch in
    let* '(request, response) := send_request a e ordinal manifest cap body deadline batch in
    accept_response a ordinal manifest cap request response batch)
  (λ _, raise (Refusal "native_sender_refused_or_unknown_no_replay")).

(** [NativePositionalSender.query(role, sql, params, deadline)] *)
Definition query_native (role sql : string) (params : list string) (deadline : stamp) : N (list json * json) :=
  lift (require (str_in role ["observer"; "snapshot"]) "native_sender_read_role") ;*
  let* '(rows, meta, _) := request_ role sql params deadline None in
  ret (rows, meta).

(** [NativeBatchReceipt] *)
Record NativeBatchReceipt := mkNativeBatchReceipt { nr_batch : Batch; nr_count : Z; nr_evidence : string }.

Definition dispatch_batch (batch : Batch) (deadline : stamp) : N NativeBatchReceipt :=
  guard_native deadline ;*
  let i := fb_intent batch in
  let* again := on_codec (build i) in
  lift (require (bool_decide (batch = again)) "native_sender_fixed_batch") ;*
  let* e := sender in
  lift (require (existsb (eqb (intent_json i)) (al_intents (sn_allocation e))) "native_sender_unretained_intent") ;*
  let* a := active in
  let* entry := on_journal (get clock fate (p_target (a_packet a)) (c_packet_pin self) (i_key i) deadline) in
  lift (require (bool_decide (je_intent entry = i) && je_dispatch_claimed entry && bool_decide (je_phase entry = "dispatching"))
          "native_sender_durable_dispatch") ;*
  let* '(_, _, body) := request_ "writer" (fb_update_sql batch) [i_expected i] deadline (Some batch) in
  let* count := lift (decode_ordered_body body) in
  let* receipt := on_codec (positional_receipt_manifest codec_ports sha256 batch body) in
  ret (mkNativeBatchReceipt batch count
         (canonical (JObj [("scope", JStr "NATIVE_RETURNED_HTTP_EVIDENCE"); ("target", JStr (p_target (a_packet a)));
                           ("packet", JStr (c_packet_pin self)); ("intent", intent_json i); ("receipt", receipt)]))).
End Sender.
