(* ===== verification/NativeSenderFacts.v ===== *)
(** No replay through the sender: whatever the ports, the connections and the
    transport do, over any history of instances on one journal every request has its
    own reserved ordinal, every batch is of a claimed intent and is sent once, and the
    bytes accepted are within the packet's total. *)
From S2P Require Import Prelude Json JsonParse JsonRoundTrip Oracle Evidence Control D1Port D1Journal D1JournalFacts D1Adapter D1AdapterFacts D1Campaign ExactCount NativeBinding NativeSender.

(** ** What a journal file grants *)

Inductive grant := Reserved (ordinal : Z) | Batched (key : string) | Charged (ordinal bytes : Z).
#[export] Instance grant_eq_dec : EqDecision grant.
Proof. solve_decision. Defined.

Definition charges (l : list D1Journal.Request) : list grant := omap (λ q, Charged (D1Journal.q_ordinal q) <$> q_received q) l.
Definition granted_db (d : Db) : list grant :=
  map (λ q, Reserved (D1Journal.q_ordinal q)) (requests d) ++ map (λ kb, Batched kb.1) (batches d) ++ charges (requests d).
Definition granted {C} (w : State C) : list grant := match s_file w with Provisioned d => granted_db d | _ => [] end.
Definition target_of (d : Db) : option string := b_target <$> binding d.

(** The file is the sound journal of the target it is bound to. *)
Definition journal_ok {C} (w : State C) : Prop :=
  ∃ d t, s_file w = Provisioned d ∧ target_of d = Some t ∧ sound t d.

Definition event_grants (e : event) : list grant :=
  match e with
  | Sent o b _ _ => Reserved o :: option_list (Batched <$> b)
  | Accounted o n => [Charged o n]
  | Delivered => []
  end.
Definition grants (evs : list event) : list grant := concat (map event_grants evs).
Lemma grants_app l1 l2 : grants (l1 ++ l2) = grants l1 ++ grants l2.
Proof. unfold grants. by rewrite map_app, concat_app. Qed.

(** *** One transaction *)

Lemma target_kept t c d a d' : call_tx t c d = (Ok a, d') → target_of d' = target_of d.
Proof.
  assert (∀ (f : Binding → Binding) (o : option Binding), (∀ b, b_target (f b) = b_target b) → b_target <$> (f <$> o) = b_target <$> o) as Hf.
  { intros f [b|] Hb; simpl; [by rewrite Hb|done]. }
  intros H. unfold target_of. destruct c; simpl in H.
  - unfold latch_tx in H. destruct (entries d); [|by injection H as _ <-]. inv_tx. simpl. by rewrite Hf.
  - unfold advance_tx in H. inv_tx. destruct (advance_bad _ _ _ _ _ _); inv_tx; [done|]. simpl. by rewrite Hf.
  - unfold get_tx in H. inv_tx. done.
  - unfold spend_read_tx in H. inv_tx. destruct (_ <=? _); inv_tx; done.
  - unfold claim_dispatch_tx in H. inv_tx. destruct (negb _ || _ || _); inv_tx; done.
  - unfold claim_reconcile_tx in H. inv_tx. destruct (_ || _); inv_tx; done.
  - unfold settle_tx in H. inv_tx. done.
  - inv_tx. apply reserve_request_ok in Hx as (b & Hb & _ & _ & _ & ->). by rewrite Hb.
  - inv_tx. apply received_tx_ok in Hx as (q & _ & _ & _ & ->). simpl. by rewrite Hf.
  - inv_tx. apply reserve_exact_ok in Hx as (b & bt & Hb & _ & _ & _ & _ & _ & _ & -> & _). by rewrite Hb.
Qed.

Lemma charges_app l1 l2 : charges (l1 ++ l2) = charges l1 ++ charges l2.
Proof. apply omap_app. Qed.

Lemma granted_reserve b es rs k q n al bt bt0 d new :
  requests d = rs → batches d = bt0 → map (λ kb : string * Z, Batched kb.1) bt ≡ₚ new ++ map (λ kb : string * Z, Batched kb.1) bt0 →
  granted_db (mkDb b es (rs ++ [mkRequest k q n None]) al bt) ≡ₚ Reserved k :: new ++ granted_db d.
Proof.
  intros <- <- Hb. unfold granted_db. cbn [requests batches]. rewrite map_app, charges_app, Hb. cbn [map charges omap list_omap].
  cbn [D1Journal.q_ordinal q_received fmap option_fmap option_map]. rewrite app_nil_r. solve_Permutation.
Qed.

(** Receiving an answer grants its charge and forgets nothing. *)
Lemma granted_receive b es rs al bt o n q :
  NoDup (map D1Journal.q_ordinal rs) → List.find (λ q, D1Journal.q_ordinal q =? o) rs = Some q → q_received q = None →
  granted_db (mkDb b es (map (λ q, if D1Journal.q_ordinal q =? o then mkRequest (D1Journal.q_ordinal q) (q_query q) (q_reserved q) (Some n) else q) rs) al bt)
  ≡ₚ Charged o n :: granted_db (mkDb b es rs al bt).
Proof.
  intros Hn Hq Hr. unfold granted_db. cbn [requests batches]. rewrite map_map.
  assert (map (λ x, Reserved (D1Journal.q_ordinal (if D1Journal.q_ordinal x =? o
    then mkRequest (D1Journal.q_ordinal x) (q_query x) (q_reserved x) (Some n) else x))) rs = map (λ q, Reserved (D1Journal.q_ordinal q)) rs) as ->
    by (apply map_ext; intros x; by destruct (_ =? _)).
  enough (charges (map (λ q, if D1Journal.q_ordinal q =? o then mkRequest (D1Journal.q_ordinal q) (q_query q) (q_reserved q) (Some n) else q) rs)
    ≡ₚ Charged o n :: charges rs) as -> by solve_Permutation.
  revert Hn Hq. induction rs as [|x rs IH]; [done|]. cbn [map List.find]. intros [Hx Hn]%NoDup_cons.
  destruct (Z.eqb_spec (D1Journal.q_ordinal x) o) as [E|E].
  - intros [= ->]. subst o.
    assert (map (λ q0, if D1Journal.q_ordinal q0 =? D1Journal.q_ordinal q then mkRequest (D1Journal.q_ordinal q0) (q_query q0) (q_reserved q0) (Some n) else q0) rs = rs) as ->.
    { clear -Hx. induction rs as [|y rs IH]; [done|]. cbn [map] in *. rewrite not_elem_of_cons in Hx. destruct Hx as [Hy Hx].
      destruct (Z.eqb_spec (D1Journal.q_ordinal y) (D1Journal.q_ordinal q)); [congruence|]. by rewrite IH. }
    unfold charges. cbn [omap list_omap]. rewrite Hr. done.
  - intros Hq. specialize (IH Hn Hq). unfold charges in *. cbn [omap list_omap]. destruct (q_received x); cbn [fmap option_fmap option_map]; [|exact IH].
    rewrite IH. solve_Permutation.
Qed.

Lemma granted_kept t c d a d' : call_tx t c d = (Ok a, d') → sound t d → granted_db d ⊆+ granted_db d'.
Proof.
  intros H (_ & _ & b & Hb & Ha).
  assert (match c with CReserve _ _ _ _ | CReceived _ _ | CReserveExact _ _ _ _ _ => False | _ => True end → granted_db d ⊆+ granted_db d') as Hentries.
  { intros Hk. destruct (entries_frame _ _ _ _ _ Hk H) as (Hr & Hbt & _). unfold granted_db. by rewrite Hr, Hbt. }
  destruct c; try (by apply Hentries); clear Hentries; simpl in H; inv_tx.
  - apply reserve_request_ok in Hx as (b0 & _ & _ & _ & _ & ->). rewrite (granted_reserve _ _ _ _ _ _ _ _ (batches d) d []) by done.
    by apply submseteq_cons.
  - apply received_tx_ok in Hx as (q & Hq & Hr & _ & ->). rewrite granted_receive; [by apply submseteq_cons| |exact Hq|exact Hr].
    rewrite (ac_ordinals _ _ Ha). apply NoDup_seqZ.
  - apply reserve_exact_ok in Hx as (b0 & bt & _ & _ & _ & _ & _ & _ & _ & -> & Hbt).
    destruct Hbt as [(_ & _ & ->)|(_ & i & row & _ & _ & _ & _ & _ & _ & _ & ->)].
    + rewrite (granted_reserve _ _ _ _ _ _ _ _ (batches d) d []) by done. by apply submseteq_cons.
    + rewrite (granted_reserve _ _ _ _ _ _ _ _ (batches d) d [Batched (i_key i)]); [|done|done|rewrite map_app; cbn [map fst]; solve_Permutation].
      by do 2 apply submseteq_cons.
Qed.

(** *** Journal operations *)

(** [m] keeps a sound journal and its grants; an answer [a] grants [new a] more. *)
Definition grants_more {C T} (new : T → list grant) (m : M (State C) T) : Prop := ∀ w, journal_ok w →
  journal_ok (m w).2 ∧ match (m w).1 with Ok a => new a | Err _ => [] end ++ granted w ⊆+ granted (m w).2.

Lemma grants_same {C T} (new : T → list grant) (m : M (State C) T) :
  (∀ w, s_file (m w).2 = s_file w ∧ ∀ a, (m w).1 = Ok a → new a = []) → grants_more new m.
Proof.
  intros Hm w Hw. destruct (Hm w) as [Hf Hn]. unfold journal_ok, granted in *. rewrite Hf. split; [done|].
  destruct (m w).1 as [a|e] eqn:E; [|done]. by rewrite (Hn a).
Qed.

Section Operations.
Context {C : Type} (clock : M C stamp) (fate : nat → io) (target packet : string).
Notation transaction := (transaction clock fate target packet).

(** A transaction on a file of another target does nothing. *)
Lemma tx_bound {A} dl (body : M Db A) w r w' d t :
  transaction dl body w = (r, w') → s_file w = Provisioned d → target_of d = Some t →
  t = target ∨ (s_file w' = s_file w ∧ ∀ a, r ≠ Ok a).
Proof.
  intros H Hf Ht. destruct (decide (t = target)) as [|Hne]; [by left|]. right. revert H. unfold D1Journal.transaction, bind.
  destruct (D1Journal.guard clock dl w) as [r1 w1] eqn:E1. pose proof (guard_file clock dl w) as [F1 _]. rewrite E1 in F1. simpl in F1.
  destruct r1 as [[]|e1]; [|intros [= <- <-]; done]. unfold begin_. rewrite F1, Hf.
  destruct (binding d) as [b|] eqn:Eb.
  2:{ destruct (fate (s_calls w1)); intros [= <- <-]; (split; [simpl; congruence|done]). }
  assert (bound target packet b = false) as ->.
  { unfold target_of in Ht. rewrite Eb in Ht. injection Ht as Ht. unfold bound. by rewrite bool_decide_false by congruence. }
  destruct (fate (s_calls w1)); intros [= <- <-]; (split; [simpl; congruence|done]).
Qed.

Lemma grants_tx {A} (new : A → list grant) dl (body : M Db A) :
  (∀ d a d', body d = (Ok a, d') → sound target d → target_of d = Some target →
    sound target d' ∧ target_of d' = target_of d ∧ new a ++ granted_db d ⊆+ granted_db d') →
  grants_more new (transaction dl body).
Proof.
  intros Hb w (d & t & Hf & Ht & Hs). destruct (transaction dl body w) as [r w'] eqn:E. cbn [fst snd].
  assert (∀ a, s_file w' = s_file w → (∀ a, r ≠ Ok a) → journal_ok w' ∧ match r with Ok a => new a | Err _ => a end ++ granted w ⊆+ a ++ granted w') as Hsame.
  { intros l F Hr. unfold journal_ok, granted. rewrite F. split; [by exists d, t|]. destruct r; [by destruct (Hr a)|done]. }
  destruct (tx_bound _ _ _ _ _ _ _ E Hf Ht) as [->|[F Hr]]; [|exact (Hsame [] F Hr)].
  apply tx_cases in E as [[F Hr]|(d0 & a & d' & Hf0 & Hbody & Hf' & Hr)]; [exact (Hsame [] F Hr)|].
  rewrite Hf in Hf0. injection Hf0 as <-. destruct (Hb d a d' Hbody Hs Ht) as (Hs' & Ht' & Hg).
  split; [exists d', target; split_and!; [done|congruence|done]|]. unfold granted. rewrite Hf, Hf'.
  destruct r as [b|e]; [by rewrite (Hr b eq_refl)|]. etransitivity; [|exact Hg]. by apply submseteq_inserts_l.
Qed.

Lemma grants_lift {A} (new : A → list grant) (x : res unit) (m : M (State C) A) :
  (x = Ok tt → grants_more new m) → grants_more new (lift x ;* m).
Proof.
  intros Hm w Hw. unfold bind, lift. destruct x as [[]|e]; [by apply Hm|]. done.
Qed.

Lemma grants_discard {A} (new : A → list grant) (m : M (State C) A) f : grants_more new m → grants_more (λ _, []) (discard m f).
Proof.
  intros Hm w Hw. destruct (Hm w Hw) as [Hk Hg]. unfold discard, bind, ret. destruct (m w) as [[a|e] w']; cbn [fst snd] in *; (split; [done|]); [|done].
  etransitivity; [|exact Hg]. by apply submseteq_inserts_l.
Qed.

(** The transaction of any call. *)
Lemma grants_call_tx {A} c (body : M Db A) f dl :
  precheck target c = Ok tt → (∀ d, call_tx target c d = discard body f d) → grants_more (λ _, []) (transaction dl body).
Proof.
  intros Hp Hb. apply grants_tx. intros d a d' H Hs Ht.
  assert (call_tx target c d = (Ok (f a), d')) as Hc by (rewrite Hb; unfold discard, bind; by rewrite H).
  split_and!; [by eapply call_sound|by eapply target_kept|by eapply granted_kept].
Qed.
Lemma discard_id {S} (m : M S bool) d : m d = discard m id d.
Proof. unfold discard, bind, ret. by destruct (m d) as [[]]. Qed.

Lemma grants_call c dl : grants_more (λ _, []) (run_call clock fate target packet c dl).
Proof.
  destruct c; cbn [run_call]; try (eapply grants_discard with (new := λ _, []));
    unfold latch, advance, D1Journal.get, spend_read, claim_dispatch, claim_reconcile, settle, reserve_request, received, reserve_exact_request;
    repeat (apply grants_lift; intros ?).
  - apply (grants_call_tx (CLatch i) _ id); [simpl; rewrite H; exact H0|intros d; apply discard_id].
  - apply (grants_call_tx (CAdvance pred_ succ_ receipt) _ id); [simpl; rewrite H; exact H0|intros d; apply discard_id].
  - by apply (grants_call_tx (CGet key) _ (λ _, true)).
  - apply (grants_call_tx (CSpendRead key) _ id); [done|intros d; apply discard_id].
  - apply (grants_call_tx (CClaimDispatch key) _ id); [done|intros d; apply discard_id].
  - apply (grants_call_tx (CClaimReconcile key) _ id); [done|intros d; apply discard_id].
  - by apply (grants_call_tx (CSettle key phase) _ (λ _, true)).
  - by apply (grants_call_tx (CReserve query allowance max_total max_queries) _ (λ _, true)).
  - by apply (grants_call_tx (CReceived ordinal count) _ (λ _, true)).
  - by apply (grants_call_tx (CReserveExact descriptor allowance request_bytes limits intent) _ (λ _, true)).
Qed.

Lemma grants_get k dl : grants_more (λ _, []) (D1Journal.get clock fate target packet k dl).
Proof. by apply (grants_call_tx (CGet k) _ (λ _, true)). Qed.
Lemma grants_remaining n dl : grants_more (λ _, []) (remaining clock fate target packet n dl).
Proof. apply grants_tx. intros d a d' H Hs Ht. inv_tx. done. Qed.
Lemma grants_received o n dl : grants_more (λ _, [Charged o n]) (received clock fate target packet o n dl).
Proof.
  apply grants_tx. intros d a d' H Hs Ht.
  assert (call_tx target (CReceived o n) d = (Ok true, d')) as Hc by (simpl; unfold discard, bind; by rewrite H).
  split_and!; [by apply (call_sound _ (CReceived o n) d true)|by eapply target_kept|].
  destruct Hs as (_ & _ & b & Hb & Ha). apply received_tx_ok in H as (q & Hq & Hr & _ & ->).
  rewrite granted_receive; [done| |exact Hq|exact Hr]. rewrite (ac_ordinals _ _ Ha). apply NoDup_seqZ.
Qed.
Lemma grants_reserve q n mt mq dl : grants_more (λ o, [Reserved o]) (reserve_request clock fate target packet q n mt mq dl).
Proof.
  apply grants_lift. intros Hp. apply grants_tx. intros d a d' H Hs Ht.
  assert (call_tx target (CReserve q n mt mq) d = (Ok true, d')) as Hc by (simpl; unfold discard, bind; by rewrite H).
  split_and!; [by apply (call_sound _ (CReserve q n mt mq) d true)|by eapply target_kept|].
  apply reserve_request_ok in H as (b0 & _ & -> & _ & _ & ->). by rewrite (granted_reserve _ _ _ _ _ _ _ _ (batches d) d []).
Qed.
Lemma grants_reserve_exact desc n rb l dl intent :
  grants_more (λ o, Reserved o :: option_list (Batched ∘ i_key <$> intent)) (reserve_exact_request clock fate target packet desc n rb l dl intent).
Proof.
  apply grants_lift. intros Hp. apply grants_tx. intros d a d' H Hs Ht.
  assert (call_tx target (CReserveExact desc n rb l intent) d = (Ok true, d')) as Hc by (simpl; unfold discard, bind; by rewrite H).
  split_and!; [by apply (call_sound _ (CReserveExact desc n rb l intent) d true)|by eapply target_kept|].
  apply reserve_exact_ok in H as (b0 & bt & _ & -> & _ & _ & _ & _ & _ & -> & [(_ & -> & ->)|(_ & i & row & -> & _ & _ & _ & _ & _ & _ & ->)]).
  - by rewrite (granted_reserve _ _ _ _ _ _ _ _ (batches d) d []).
  - rewrite (granted_reserve _ _ _ _ _ _ _ _ (batches d) d [Batched (i_key i)]); [done|done|done|rewrite map_app; cbn [map fst]; solve_Permutation].
Qed.
End Operations.

(** ** Statements of an instance *)

Section Records.
Context {C Extra : Type}.
Notation N := (M (NState C Extra)).

(** [m] keeps the journal sound, and its events are granted by the journal or [l]. *)
Definition records (l : list grant) {T} (m : N T) : Prop := ∀ s, journal_ok (n_world s) →
  journal_ok (n_world (m s).2)
  ∧ ∃ evs, n_trace (m s).2 = n_trace s ++ evs ∧ grants evs ++ granted (n_world s) ⊆+ l ++ granted (n_world (m s).2).

Lemma records_still {T} (m : N T) l :
  (∀ s, s_file (n_world (m s).2) = s_file (n_world s) ∧ n_trace (m s).2 = n_trace s) → records l m.
Proof.
  intros Hm s Hs. destruct (Hm s) as [Hf Ht]. unfold journal_ok, granted in *. rewrite Hf. split; [done|].
  exists []. rewrite app_nil_r. split; [done|]. by apply submseteq_inserts_l.
Qed.
Lemma records_ret {T} (x : T) l : records l (ret x).
Proof. by apply records_still. Qed.
Lemma records_lift {T} (x : res T) l : records l (lift x).
Proof. by apply records_still. Qed.
Lemma records_raise {T} e l : records l (raise (A:=T) e).
Proof. by apply records_still. Qed.
Lemma records_gets {T} (f : NState C Extra → T) l : records l (gets f).
Proof. by apply records_still. Qed.
Lemma records_ports {T} (m : M C T) l : records l (on_ports m).
Proof. apply records_still. intros s. unfold on_ports, on_journal, outside. by destruct (m (s_clock (n_world s))). Qed.
Lemma records_active l : records l active.
Proof. apply records_still. intros s. unfold active. by destruct (n_active s). Qed.
Lemma records_event e : records (event_grants e) (record_event e).
Proof.
  intros s Hs. split; [done|]. exists [e]. split; [done|]. unfold grants. cbn [map concat]. by rewrite app_nil_r.
Qed.

Lemma records_weaken {T} (m : N T) l : records [] m → records l m.
Proof.
  intros Hm s Hs. destruct (Hm s Hs) as (Hk & evs & Ht & Hg). split; [done|]. exists evs. split; [done|].
  etransitivity; [exact Hg|]. by apply submseteq_inserts_l.
Qed.
Lemma records_bind {T U} (m : N T) (f : T → N U) l1 l2 : records l1 m → (∀ x, records l2 (f x)) → records (l1 ++ l2) (bind m f).
Proof.
  intros Hm Hf s Hs. unfold bind. destruct (Hm s Hs) as (Hk & evs & Ht & Hg). destruct (m s) as [[x|e] s1]; cbn [fst snd] in *.
  - destruct (Hf x s1 Hk) as (Hk2 & evs2 & Ht2 & Hg2). split; [done|]. exists (evs ++ evs2). split; [by rewrite Ht2, Ht, app_assoc|].
    rewrite grants_app, (Permutation_app_comm (grants evs)), <- app_assoc.
    etransitivity; [by apply submseteq_app; [|exact Hg]|].
    assert (grants evs2 ++ l1 ++ granted (n_world s1) ≡ₚ l1 ++ grants evs2 ++ granted (n_world s1)) as -> by solve_Permutation.
    rewrite <- app_assoc. by apply submseteq_app.
  - split; [done|]. exists evs. split; [done|]. etransitivity; [exact Hg|]. rewrite <- app_assoc. apply submseteq_app; [done|]. by apply submseteq_inserts_l.
Qed.
Lemma records_then {T U} (m : N T) (f : T → N U) l : records [] m → (∀ x, records l (f x)) → records l (bind m f).
Proof. apply (records_bind m f [] l). Qed.
Lemma records_event_then {U} e (f : unit → N U) : (∀ x, records [] (f x)) → records (event_grants e) (bind (record_event e) f).
Proof. intros Hf. rewrite <- (app_nil_r (event_grants e)). apply records_bind; [apply records_event|exact Hf]. Qed.
Lemma records_try {T} (m : N T) (h : exn → N T) : records [] m → (∀ e, records [] (h e)) → records [] (try m h).
Proof.
  intros Hm Hh s Hs. unfold try. destruct (Hm s Hs) as (Hk & evs & Ht & Hg). destruct (m s) as [[x|e] s1]; cbn [fst snd] in *.
  - split; [done|]. by exists evs.
  - destruct (Hh e s1 Hk) as (Hk2 & evs2 & Ht2 & Hg2). split; [done|]. exists (evs ++ evs2). split; [by rewrite Ht2, Ht, app_assoc|].
    rewrite grants_app, (Permutation_app_comm (grants evs)), <- app_assoc. etransitivity; [by apply submseteq_app; [|exact Hg]|]. exact Hg2.
Qed.

(** The answer of a journal operation grants what follows. *)
Lemma records_journal {T U} (new : T → list grant) (m : M (State C) T) (f : T → N U) :
  grants_more new m → (∀ x, records (new x) (f x)) → records [] (bind (on_journal m) f).
Proof.
  intros Hm Hf s Hs. unfold bind, on_journal. destruct (Hm (n_world s) Hs) as [Hk Hg]. destruct (m (n_world s)) as [[x|e] w]; cbn [fst snd n_world n_trace] in *.
  - destruct (Hf x (mkNState w (n_active s) (n_extra s) (n_evidence s) (n_trace s)) Hk) as (Hk2 & evs & Ht & Hg2). cbn [n_world n_trace] in *. split; [done|].
    exists evs. split; [done|]. cbn [app]. apply (submseteq_app_inv_l _ _ (new x)). etransitivity; [|exact Hg2].
    rewrite app_assoc, (Permutation_app_comm (new x)), <- app_assoc. by apply submseteq_app.
  - split; [done|]. exists []. by rewrite app_nil_r.
Qed.
Lemma records_journal_still {T U} (m : M (State C) T) (f : T → N U) :
  grants_more (λ _, []) m → (∀ x, records [] (f x)) → records [] (bind (on_journal m) f).
Proof. apply records_journal. Qed.

(** A codec call that leaves the file alone. *)
Definition file_still {T} (m : M (AState (State C)) T) : Prop := ∀ a, s_file (a_world (m a).2) = s_file (a_world a).
Lemma records_codec {T} (m : M (AState (State C)) T) l : file_still m → records l (on_codec m).
Proof.
  intros Hm. apply records_still. intros s. unfold on_codec. pose proof (Hm (mkAState (n_world s) 0 false [])) as H.
  destruct (m _) as [r a]. cbn [fst snd n_world n_trace a_world] in *. done.
Qed.
Lemma still_bind {T U} (m : M (AState (State C)) T) (f : T → M (AState (State C)) U) : file_still m → (∀ x, file_still (f x)) → file_still (bind m f).
Proof. intros Hm Hf a. unfold bind. pose proof (Hm a) as H. destruct (m a) as [[x|e] a1]; cbn [fst snd] in *; [by rewrite Hf|done]. Qed.
Lemma still_lift {T} (x : res T) : file_still (lift x).
Proof. done. Qed.
Lemma still_ret {T} (x : T) : file_still (ret x).
Proof. done. Qed.
Lemma still_raise {T} e : file_still (raise (A:=T) e).
Proof. done. Qed.
Lemma still_world {T} (m : M C T) : file_still (on_world (outside m)).
Proof. intros a. unfold on_world, outside. by destruct (m (s_clock (a_world a))). Qed.
End Records.

Create HintDb sender discriminated.
#[export] Hint Resolve records_ret records_lift records_raise records_gets records_ports records_active : sender.
#[export] Hint Resolve still_bind still_lift still_ret still_raise : sender.
#[export] Hint Extern 1 (file_still (on_world _)) => apply still_world : sender.

(** The codec reads its source files and nothing else. *)
Section Codec.
Context {C : Type} (ports : NativePorts C) (sha256 : string → string).
Notation codec_ports := (outside_ports (np_adapter ports)).

Lemma still_read_files names : file_still (read_files codec_ports names).
Proof. induction names as [|n names IH]; cbn [read_files]; auto with sender. Qed.
#[local] Hint Resolve still_read_files : sender.
Lemma still_verify_source : file_still (verify_source codec_ports sha256).
Proof. unfold verify_source, refuse. auto with sender. Qed.
#[local] Hint Resolve still_verify_source : sender.
Lemma still_source_sql op : file_still (source_sql codec_ports sha256 op).
Proof. unfold source_sql, refuse. auto 10 with sender. Qed.
#[local] Hint Resolve still_source_sql : sender.
Lemma still_codec_build i : file_still (ExactCount.build codec_ports sha256 i).
Proof. unfold ExactCount.build. auto 10 with sender. Qed.
#[local] Hint Resolve still_codec_build : sender.
Lemma still_build i : file_still (positional_build codec_ports sha256 i).
Proof. unfold positional_build. auto 10 with sender. Qed.
#[local] Hint Resolve still_build : sender.
Lemma still_build_root i : file_still (positional_build_root codec_ports sha256 i).
Proof. unfold positional_build_root, ExactCount.build_root. auto 10 with sender. Qed.
Lemma still_request_body b : file_still (positional_request_body codec_ports sha256 b).
Proof. unfold positional_request_body, refuse. auto 10 with sender. Qed.
#[local] Hint Resolve still_request_body : sender.
Lemma still_manifest b : file_still (positional_manifest codec_ports sha256 b).
Proof. unfold positional_manifest. auto 10 with sender. Qed.
#[local] Hint Resolve still_manifest : sender.
Lemma still_receipt_manifest b body : file_still (positional_receipt_manifest codec_ports sha256 b body).
Proof. unfold positional_receipt_manifest. auto 10 with sender. Qed.
End Codec.
#[export] Hint Resolve still_verify_source still_source_sql still_build still_build_root still_request_body still_manifest
  still_receipt_manifest : sender.

(** ** The sender *)

Section Sender.
Context {C : Type} (ports : NativePorts C) (fate : nat → io) (sha256 : string → string).
Context (integral : string → option Z) (address : json → res string) (self : Settings).
Notation N := (M (NState C Sender)).
Notation clock := (p_now (np_adapter ports)).

#[local] Hint Resolve records_then records_journal_still grants_remaining grants_get : sender.
#[local] Hint Extern 1 (records _ (on_codec _)) => apply records_codec; auto with sender : sender.
#[local] Hint Extern 2 (records _ (match ?x with _ => _ end)) => destruct x : sender.
#[local] Hint Extern 2 (records _ (bind (ret _) _)) => apply records_then : sender.

(** Steps over statements that are granted nothing. *)
Ltac record_steps :=
  repeat first [apply records_then; [solve [auto with sender]|intros ?] | apply records_journal_still; [solve [auto with sender]|intros ?]].

Lemma records_sender l : records l (sender (C:=C)).
Proof. apply records_still. intros s. unfold sender. by destruct (n_extra s). Qed.
#[local] Hint Resolve records_sender : sender.
Lemma records_set_active a l : records l (set_active_ (C:=C) (Extra:=Sender) a).
Proof. by apply records_still. Qed.
Lemma records_set_sender e l : records l (set_sender (C:=C) e).
Proof. by apply records_still. Qed.
Lemma records_add_evidence j l : records l (add_evidence (C:=C) j).
Proof. by apply records_still. Qed.
#[local] Hint Resolve records_set_active records_set_sender records_add_evidence : sender.
Lemma records_delivered l : records l (record_event (C:=C) (Extra:=Sender) Delivered).
Proof. apply records_weaken, (records_event Delivered). Qed.
#[local] Hint Resolve records_delivered : sender.

Lemma records_guard_native dl l : records l (guard_native ports sha256 integral self dl).
Proof. unfold guard_native. auto with sender. Qed.
Lemma records_guard dl l : records l (guard (Extra:=Sender) ports sha256 integral self dl).
Proof. unfold guard. auto with sender. Qed.
#[local] Hint Resolve records_guard_native records_guard : sender.

Lemma records_check_intents root prior keys intents : records [] (check_intents ports sha256 root prior keys intents).
Proof. revert prior keys. induction intents as [|i intents IH]; intros; cbn [check_intents]; auto 10 with sender. Qed.
Lemma records_check_requests intents n l : records [] (check_requests ports sha256 integral intents n l).
Proof.
  revert n. induction l as [|[query request] l IH]; intros; cbn [check_requests]; [auto with sender|].
  apply records_then; [|auto]. unfold check_request. apply records_then; [auto with sender|]. intros role.
  destruct (py_eqb _ _ _); [destruct (nth_error _ _)|]; auto 10 with sender.
Qed.
#[local] Hint Resolve records_check_intents records_check_requests : sender.
Lemma records_validate packet allocation : records [] (validate_allocation ports sha256 integral packet allocation).
Proof. unfold validate_allocation. record_steps. auto with sender. Qed.
#[local] Hint Resolve records_validate : sender.

Lemma records_check_queries writers reads queries : records [] writers → records [] (check_queries (C:=C) (Extra:=Sender) writers reads queries).
Proof.
  intros Hw. induction queries as [|q queries IH]; cbn [check_queries]; [auto with sender|]. apply records_then; [|auto with sender].
  unfold check_query. apply records_then; [auto with sender|]. intros d. case_bool_decide; auto with sender.
Qed.
Lemma records_writers : records [] (positional_writers ports sha256).
Proof. unfold positional_writers. auto 10 with sender. Qed.
#[local] Hint Resolve records_check_queries records_writers : sender.
Lemma records_read_packet : records [] (read_packet ports sha256 integral address self (positional_writers ports sha256)).
Proof. unfold read_packet. record_steps. auto with sender. Qed.
#[local] Hint Resolve records_read_packet : sender.
Lemma records_activate load : records [] (activate ports fate sha256 integral address self (positional_writers ports sha256) load).
Proof.
  unfold activate. record_steps.
  match goal with |- records [] (match ?x with _ => _ end) => destruct x end; auto 10 with sender.
Qed.
#[local] Hint Resolve records_activate : sender.
Lemma records_activate_native credential admission : records [] (activate_native ports fate sha256 integral address self credential admission).
Proof. unfold activate_native. record_steps. auto with sender. Qed.

Lemma records_plan role sql params dl batch : records [] (plan_request ports fate sha256 integral self role sql params dl batch).
Proof.
  unfold plan_request. record_steps; auto with sender.
Qed.
Lemma records_send a e o manifest cap body dl batch :
  records [] (send_request ports fate sha256 integral self a e o manifest cap body dl batch).
Proof.
  unfold send_request. eapply records_journal; [apply grants_reserve_exact|]. intros claimed.
  destruct (Z.eqb_spec claimed o) as [->|Hne]; [|by apply records_still]. cbn [require].
  record_steps.
  assert (option_list (Batched ∘ i_key <$> (fb_intent <$> batch)) = option_list (Batched <$> ((λ b, i_key (fb_intent b)) <$> batch))) as ->
    by by destruct batch.
  refine (records_event_then (Sent _ _ _ _) _ _). intros _. auto 10 with sender.
Qed.
Lemma records_accept a o manifest cap request response batch :
  records [] (accept_response ports fate sha256 integral self a o manifest cap request response batch).
Proof.
  unfold accept_response. record_steps.
  eapply records_journal; [apply grants_received|]. intros []. cbv beta.
  refine (records_event_then (Accounted _ _) _ _). intros _. record_steps. auto with sender.
Qed.
#[local] Hint Resolve records_plan records_send records_accept : sender.
Lemma records_request role sql params dl batch : records [] (request_ ports fate sha256 integral self role sql params dl batch).
Proof.
  unfold request_. apply records_try; [|auto with sender]. apply records_then; [auto with sender|]. intros [[[[[a e] o] manifest] cap] body].
  apply records_then; [auto with sender|]. intros [request response]. auto with sender.
Qed.
#[local] Hint Resolve records_request : sender.
Lemma records_query_native role sql params dl : records [] (query_native ports fate sha256 integral self role sql params dl).
Proof. unfold query_native. apply records_then; [auto with sender|]. intros _. apply records_then; [auto with sender|]. intros [[rows meta] body]. auto with sender. Qed.
Lemma records_dispatch batch dl : records [] (dispatch_batch ports fate sha256 integral self batch dl).
Proof.
  unfold dispatch_batch. record_steps.
  match goal with |- records [] (match ?x with _ => _ end) => destruct x as [[rows meta] body] end. auto 10 with sender.
Qed.
End Sender.

(** ** Histories *)

(** What an operator does with one instance, and what happens to the journal file:
    the life of an instance, or a call of an adapter of any binding. *)
Inductive deed (C : Type) :=
| Activate (credential : option (Credential C)) (admission : option ReviewedAdmission)
| Query_ (role sql : string) (params : list string) (deadline : stamp)
| Dispatch (batch : Batch) (deadline : stamp).
Arguments Activate {C}. Arguments Query_ {C}. Arguments Dispatch {C}.
Inductive happening (C : Type) :=
| Life (self : Settings) (deeds : list (deed C))
| Adapter (target packet : string) (c : call) (deadline : stamp).
Arguments Life {C}. Arguments Adapter {C}.

Section Histories.
Context {C : Type} (ports : NativePorts C) (fate : nat → io) (sha256 : string → string).
Context (integral : string → option Z) (address : json → res string).
Notation clock := (p_now (np_adapter ports)).

Definition perform (self : Settings) (d : deed C) : M (NState C Sender) unit :=
  match d with
  | Activate credential admission => activate_native ports fate sha256 integral address self credential admission
  | Query_ role sql params dl => query_native ports fate sha256 integral self role sql params dl ;* ret tt
  | Dispatch batch dl => dispatch_batch ports fate sha256 integral self batch dl ;* ret tt
  end.
Definition fresh (w : State C) : NState C Sender := mkNState w None None [] [].
Definition life (self : Settings) (deeds : list (deed C)) (s : NState C Sender) : NState C Sender :=
  foldl (λ s d, (perform self d s).2) s deeds.
(** The world after a history, and all its effects in order. *)
Fixpoint history_of (h : list (happening C)) (w : State C) : State C * list event :=
  match h with
  | [] => (w, [])
  | Life self deeds :: h' =>
      let s := life self deeds (fresh w) in
      let (w', evs) := history_of h' (n_world s) in (w', n_trace s ++ evs)
  | Adapter target packet c dl :: h' => history_of h' (run_call clock fate target packet c dl w).2
  end.

Lemma records_perform self d : records [] (perform self d).
Proof.
  destruct d; cbn [perform].
  - apply records_activate_native.
  - apply records_then; [apply records_query_native|intros; apply records_ret].
  - apply records_then; [apply records_dispatch|intros; apply records_ret].
Qed.

Lemma life_granted self deeds s : journal_ok (n_world s) →
  journal_ok (n_world (life self deeds s)) ∧ ∃ evs, n_trace (life self deeds s) = n_trace s ++ evs
  ∧ grants evs ++ granted (n_world s) ⊆+ granted (n_world (life self deeds s)).
Proof.
  revert s. induction deeds as [|d deeds IH]; intros s Hs; cbn [life foldl]; [split; [done|]; exists []; by rewrite app_nil_r|].
  destruct (records_perform self d s Hs) as (Hs1 & evs1 & Ht1 & Hg1). destruct (IH _ Hs1) as (Hs2 & evs2 & Ht2 & Hg2). cbn [app] in Hg1.
  split; [exact Hs2|]. exists (evs1 ++ evs2). split; [by rewrite app_assoc, <- Ht1|].
  rewrite grants_app, (Permutation_app_comm (grants evs1)), <- app_assoc. etransitivity; [by apply submseteq_app; [|exact Hg1]|]. exact Hg2.
Qed.

Lemma history_granted h : ∀ w, journal_ok w →
  let (w', evs) := history_of h w in journal_ok w' ∧ grants evs ++ granted w ⊆+ granted w'.
Proof.
  induction h as [|[self deeds|target packet c dl] h IH]; intros w Hw; cbn [history_of]; [done|..].
  - destruct (life_granted self deeds (fresh w) Hw) as (Hs & evs & Ht & Hg). cbn [fresh n_trace n_world app] in Ht, Hg.
    specialize (IH _ Hs). destruct (history_of h _) as [w' evs']. destruct IH as [Hw' Hg']. split; [done|]. rewrite Ht.
    rewrite grants_app, (Permutation_app_comm (grants evs)), <- app_assoc. etransitivity; [by apply submseteq_app; [|exact Hg]|]. exact Hg'.
  - destruct (grants_call clock fate target packet c dl w Hw) as [Hw1 Hg1]. specialize (IH _ Hw1).
    destruct (history_of h _) as [w' evs']. destruct IH as [Hw' Hg']. split; [done|].
    assert (granted w ⊆+ granted (run_call clock fate target packet c dl w).2) as Hg by (by destruct (run_call _ _ _ _ _ _ w).1).
    etransitivity; [by apply submseteq_app; [|exact Hg]|]. exact Hg'.
Qed.

(** *** What the grants bound *)

Definition ordinals (evs : list event) : list Z := omap (λ e, match e with Sent o _ _ _ => Some o | _ => None end) evs.
Definition batched (evs : list event) : list string := omap (λ e, match e with Sent _ b _ _ => b | _ => None end) evs.
Definition accepted (evs : list event) : Z := foldr (λ e n, match e with Accounted _ b => b | _ => 0 end + n) 0 evs.

Definition ordinal_of (g : grant) : option Z := match g with Reserved o => Some o | _ => None end.
Definition key_of (g : grant) : option string := match g with Batched k => Some k | _ => None end.
Definition charge_of (g : grant) : Z := match g with Charged _ n => n | _ => 0 end.

Lemma grants_ordinals evs : omap ordinal_of (grants evs) = ordinals evs.
Proof.
  unfold grants, ordinals. induction evs as [|[|o [k|] b w|o n] evs IH]; [done|..]; cbn [map concat event_grants option_list fmap option_fmap option_map app omap list_omap ordinal_of]; by rewrite <- ?IH.
Qed.
Lemma grants_batched evs : omap key_of (grants evs) = batched evs.
Proof.
  unfold grants, batched. induction evs as [|[|o [k|] b w|o n] evs IH]; [done|..]; cbn [map concat event_grants option_list fmap option_fmap option_map app omap list_omap key_of]; by rewrite <- ?IH.
Qed.
Lemma grants_accepted evs : foldr (λ g n, charge_of g + n) 0 (grants evs) = accepted evs.
Proof.
  unfold grants, accepted. induction evs as [|[|o [k|] b w|o n] evs IH]; [done|..]; cbn [map concat event_grants option_list fmap option_fmap option_map app foldr charge_of]; by rewrite <- ?IH.
Qed.

Lemma nodup_sub {A} (l k : list A) : l ⊆+ k → NoDup k → NoDup l.
Proof. intros (r & ->)%submseteq_Permutation [H _]%NoDup_app. exact H. Qed.
Lemma omap_sub {A B} (f : A → option B) l k : l ⊆+ k → omap f l ⊆+ omap f k.
Proof. intros (r & ->)%submseteq_Permutation. rewrite omap_app. by apply submseteq_inserts_r. Qed.
Lemma omap_map {A B D} (f : B → option D) (g : A → B) l : omap f (map g l) = omap (λ x, f (g x)) l.
Proof. induction l as [|x l IH]; [done|]. cbn. destruct (f (g x)); by rewrite IH. Qed.
Lemma omap_none {A B} (f : A → option B) l : (∀ x, f x = None) → omap f l = [].
Proof. intros H. induction l as [|x l IH]; [done|]. cbn. by rewrite H. Qed.
Lemma omap_all {A B} (f : A → option B) (g : A → B) l : (∀ x, f x = Some (g x)) → omap f l = map g l.
Proof. intros H. induction l as [|x l IH]; [done|]. cbn. by rewrite H, IH. Qed.

Lemma file_ordinals d : omap ordinal_of (granted_db d) = map D1Journal.q_ordinal (requests d).
Proof.
  unfold granted_db. rewrite !omap_app, !omap_map, (omap_all _ D1Journal.q_ordinal), (omap_none _ (batches d)) by done.
  assert (omap ordinal_of (charges (requests d)) = []) as ->; [|by rewrite app_nil_r].
  unfold charges. induction (requests d) as [|q l IH]; [done|]. cbn. by destruct (q_received q).
Qed.
Lemma file_keys d : omap key_of (granted_db d) = map fst (batches d).
Proof.
  unfold granted_db. rewrite !omap_app, !omap_map, (omap_none _ (requests d)), (omap_all _ fst) by done.
  assert (omap key_of (charges (requests d)) = []) as ->; [|by rewrite app_nil_r].
  unfold charges. induction (requests d) as [|q l IH]; [done|]. cbn. by destruct (q_received q).
Qed.
Lemma charge_sub l k : l ⊆+ k → Forall (λ g, 0 <= charge_of g) k → foldr (λ g n, charge_of g + n) 0 l <= foldr (λ g n, charge_of g + n) 0 k.
Proof.
  intros (r & Hr)%submseteq_Permutation Hk. rewrite (sum_perm charge_of k (l ++ r) Hr), (sum_app charge_of). rewrite Hr in Hk.
  apply Forall_app in Hk as [_ Hk]. assert (0 <= foldr (λ g n, charge_of g + n) 0 r); [|lia]. clear -Hk. induction Hk; cbn [foldr]; cbn beta in *; lia.
Qed.
Lemma file_charges d b : accounts b d →
  Forall (λ g, 0 <= charge_of g) (granted_db d) ∧ foldr (λ g n, charge_of g + n) 0 (granted_db d) <= b_response_bytes b.
Proof.
  intros Ha. destruct Ha as [_ Htot Hrows _ _]. rewrite Htot. clear Htot. unfold granted_db. rewrite !Forall_app, !(sum_app charge_of).
  assert (∀ l : list D1Journal.Request, foldr (λ g n, charge_of g + n) 0 (map (λ q, Reserved (D1Journal.q_ordinal q)) l) = 0) as -> by (intros l; induction l; simpl; lia).
  assert (∀ l : list (string * Z), foldr (λ g n, charge_of g + n) 0 (map (λ kb, Batched kb.1) l) = 0) as -> by (intros l; induction l; simpl; lia).
  split.
  - split_and!; [by apply Forall_map, Forall_true|by apply Forall_map, Forall_true|]. unfold charges.
    induction Hrows as [|q l [Hq _] _ IH]; [constructor|]. cbn. unfold charged in Hq. destruct (q_received q); cbn in *; [constructor; [cbn; lia|exact IH]|exact IH].
  - enough (foldr (λ g n, charge_of g + n) 0 (charges (requests d)) <= charged_total (requests d)) by lia.
    unfold charges. induction Hrows as [|q l [Hq _] _ IH]; [done|]. change (charged_total (q :: l)) with (charged q + charged_total l).
    unfold charged in *. cbn [omap list_omap]. destruct (q_received q) as [z|]; cbn [fmap option_fmap option_map foldr default from_option] in *; [|lia].
    change (charge_of (Charged (D1Journal.q_ordinal q) z)) with z. unfold id in *. lia.
Qed.

(** C3: No request is replayed: over any history of instances - activated, crashing,
    failing at any call, reopened with any packet - and of adapter calls on one
    journal, over any ports and any transport, every request sent has its own
    ordinal and there are at most 2048; every batch sent is of its own intent, one of
    the journal's single chain whose dispatch is claimed, so at most three; and the
    response bytes accepted are at most 16 MiB in all. *)
Theorem sender_no_replay target packet h w :
  D1JournalFacts.provisioned target packet w →
  let (w', evs) := history_of h w in
  NoDup (ordinals evs) ∧ Z.of_nat (length (ordinals evs)) <= MAX_QUERIES
  ∧ NoDup (batched evs)
  ∧ (batched evs ≠ [] → ∃ t r l d, s_file w' = Provisioned d ∧ chain t r l d ∧ batched evs ⊆ dispatched_keys (entries d)
       ∧ batched evs ⊆ map i_key (r :: l) ∧ Z.of_nat (length (batched evs)) <= i_transition_limit r <= 3)
  ∧ accepted evs <= MAX_TOTAL_BYTES.
Proof.
  intros Hp. assert (journal_ok w) as Hw by (exists (empty_db target packet), target; split_and!; [exact Hp|done|apply sound_empty]).
  pose proof (history_granted h w Hw) as H. destruct (history_of h w) as [w' evs]. destruct H as [(d & t & Hf & _ & Hs) Hg].
  assert (grants evs ⊆+ granted_db d) as Hsub.
  { unfold granted in Hg at 2. rewrite Hf in Hg. etransitivity; [|exact Hg]. by apply submseteq_inserts_r. }
  destruct Hs as (_ & Hch & b & Hb & Ha).
  pose proof (omap_sub ordinal_of _ _ Hsub) as Ho. rewrite grants_ordinals, file_ordinals, (ac_ordinals _ _ Ha) in Ho.
  pose proof (omap_sub key_of _ _ Hsub) as Hk. rewrite grants_batched, file_keys in Hk.
  destruct (file_charges d b Ha) as [Hpos Htot]. pose proof (charge_sub _ _ Hsub Hpos) as Hc. rewrite grants_accepted in Hc.
  destruct (ac_bounds _ _ Ha) as [Hord Hbytes]. destruct (ac_batches _ _ Ha) as [Hnk Hdk].
  pose proof (nodup_sub _ _ Hk Hnk) as Hnb.
  assert (∀ k, k ∈ batched evs → k ∈ dispatched_keys (entries d)) as Hin.
  { intros k Hk'. apply (elem_of_submseteq _ _ _ Hk') in Hk. apply list_elem_of_fmap in Hk as (kb & -> & Hkb). by apply Hdk. }
  split_and!; [by apply (nodup_sub _ _ Ho), NoDup_seqZ| |done| |unfold MAX_TOTAL_BYTES; lia].
  - apply submseteq_length in Ho. rewrite length_seqZ in Ho. unfold MAX_QUERIES. lia.
  - intros Hne. destruct (dispatched_within t d (batched evs) Hch) as [_ Hl]; [by apply NoDup_submseteq|].
    destruct (Hl Hne) as (r & l & H1 & H2 & H3). by exists t, r, l, d.
Qed.
End Histories.
