(* ===== verification/NativeAllocation.v ===== *)
(** What an allocation that validates says, and that the sender sends nothing else:
    every request of every life of an instance is the request its pinned packet and
    its reviewed allocation plan at that ordinal, under the credential of the packet. *)
From S2P Require Import Prelude Json JsonParse JsonRoundTrip Oracle Evidence Control D1Port D1Journal D1JournalFacts D1Adapter D1AdapterFacts D1Campaign ExactCount ExactCountFacts NativeBinding NativeSender NativeSenderFacts.

(** ** The plan of an allocation *)

Section Plan.
Context {C : Type} (ports : NativePorts C) (sha256 : string → string) (integral : string → option Z).
Notation eqb := (py_eqb integral).
Notation codec_ports := (outside_ports (np_adapter ports)).

(** The intents of one campaign: one target, candidate, window and limit, distinct
    keys, and each the next generation and the other operation. *)
Record campaign (root : Intent) (l : list Intent) : Prop := {
  cg_root : l !! 0%nat = Some root;
  cg_same : ∀ i, i ∈ l → i_target_id i = i_target_id root ∧ i_candidate i = i_candidate root ∧ i_window i = i_window root
                         ∧ i_transition_limit i = i_transition_limit root;
  cg_keys : NoDup (map i_key l);
  cg_steps : ∀ n p i, l !! n = Some p → l !! S n = Some i → i_expected i = next_generation_of p ∧ i_operation i ≠ i_operation p;
  cg_length : Z.of_nat (length l) <= i_transition_limit root;
  cg_headroom : int_of_str (i_expected root) + i_transition_limit root <= Control.MAX_GENERATION;
}.

(** The requests planned for the queries: a writer is the batch of the next intent,
    anything else its own read. *)
Inductive planned : list Intent → list json → list json → Prop :=
| planned_end : planned [] [] []
| planned_read intents query request queries requests role sql params :
    need "role" query = Ok role → eqb role (JStr "writer") = false → need "sql" query = Ok sql → need "params" query = Ok params →
    eqb request (read_manifest sha256 sql params) = true →
    planned intents queries requests → planned intents (query :: queries) (request :: requests)
| planned_write batch intents query request queries requests :
    from_source sha256 Positional (fb_intent batch) (fb_update_sql batch) →
    eqb query (JObj [("role", JStr "writer"); ("sql", JStr (fb_update_sql batch)); ("params", JArr [JStr (i_expected (fb_intent batch))])]) = true →
    eqb request (manifest_of sha256 POSITIONAL_BOUNDARY (body_of batch)
                   (batch_statements (fb_update_sql batch) (i_expected (fb_intent batch)))) = true →
    planned intents queries requests → planned (fb_intent batch :: intents) (query :: queries) (request :: requests).

Record allocated (packet : json) (al : Allocation) (root : Intent) (intents : list Intent) (queries : list json) : Prop := {
  ad_document_intents : mapR intent_from (al_intents al) = Ok intents;
  ad_queries : need "queries" packet = Ok (JArr queries);
  ad_campaign : campaign root intents;
  ad_target_bound : ∀ t, need "targetId" packet = Ok t → t = JStr (i_target_id root);
  ad_plan : planned intents queries (al_requests al);
  ad_limits : limit_of "requests" (al_limits al) = Z.of_nat (length queries)
              ∧ limit_of "requests" (al_limits al) <= limit_of "statements" (al_limits al) <= 2048
              ∧ limit_of "requestBytes" (al_limits al) <= 16 * 1024 * 1024;
  ad_statements : foldr (λ r n, count_of integral r + n) 0 (al_requests al) <= limit_of "statements" (al_limits al);
  ad_intents : (1 <= length intents <= 3)%nat;
}.

Lemma check_intents_ok root prior keys l s s' : check_intents ports sha256 root prior keys l s = (Ok tt, s') →
  (∀ i, i ∈ l → i_target_id i = i_target_id root ∧ i_candidate i = i_candidate root ∧ i_window i = i_window root
               ∧ i_transition_limit i = i_transition_limit root)
  ∧ (NoDup keys → NoDup (keys ++ map i_key l))
  ∧ ∀ n p i, (option_list prior ++ l) !! n = Some p → (option_list prior ++ l) !! S n = Some i →
      i_expected i = next_generation_of p ∧ i_operation i ≠ i_operation p.
Proof.
  revert prior keys s. induction l as [|i l IH]; intros prior keys s H; cbn [check_intents] in H.
  { split; [by intros i ?%not_elem_of_nil|]. split; [by rewrite app_nil_r|]. intros [|n] p q; destruct prior; try done. }
  inv_tx. apply require_ok in Hl. inv_bool. apply IH in H as (Hsame & Hkeys & Hsteps).
  split_and!.
  - intros j [->|Hj]%elem_of_cons; [done|by apply Hsame].
  - intros Hk. rewrite <- app_assoc in Hkeys. apply Hkeys. apply NoDup_app. split; [done|]. split; [|apply NoDup_singleton].
    intros k Hk' ->%list_elem_of_singleton. match goal with H : str_in _ keys = false |- _ => by apply bool_decide_eq_false in H end.
  - intros [|n] p q Hp Hq.
    + destruct prior as [j|]; cbn in Hp, Hq; [|by apply (Hsteps 0%nat)]. injection Hp as ->. injection Hq as ->. inv_bool. done.
    + destruct prior as [j|]; cbn in Hp, Hq; [by apply (Hsteps n)|by apply (Hsteps (S n))].
Qed.

Lemma on_codec_ok {T} (m : M (AState (State C)) T) (s : NState C Sender) x s' : on_codec m s = (Ok x, s') → ∃ a a', m a = (Ok x, a').
Proof. unfold on_codec. destruct (m _) as [r a'] eqn:E. intros [= -> _]. by eexists _, a'. Qed.
Lemma batch_source i (s : NState C Sender) batch s' : on_codec (positional_build codec_ports sha256 i) s = (Ok batch, s') →
  fb_intent batch = i ∧ from_source sha256 Positional i (fb_update_sql batch).
Proof. intros (a & a' & H)%on_codec_ok. by apply positional_build_ok in H as (_ & sql & -> & Hs). Qed.
Lemma batch_manifest batch (s : NState C Sender) m s' : on_codec (positional_manifest codec_ports sha256 batch) s = (Ok m, s') →
  m = manifest_of sha256 POSITIONAL_BOUNDARY (body_of batch) (batch_statements (fb_update_sql batch) (i_expected (fb_intent batch))).
Proof.
  intros (a & a' & H)%on_codec_ok. unfold positional_manifest in H. apply bind_ok in H as (body & a1 & Hb & H).
  apply (body_for_ok _ _ Positional) in Hb as (-> & _). by injection H as <- _.
Qed.

Lemma check_requests_ok intents m l n s s' : check_requests ports sha256 integral intents n l s = (Ok m, s') →
  (n <= m)%nat ∧ planned (take (m - n) (drop n intents)) (map fst l) (map snd l).
Proof.
  revert n s. induction l as [|[query request] l IH]; intros n s H; cbn [check_requests] in H.
  { injection H as <- _. split; [lia|]. rewrite Nat.sub_diag. constructor. }
  apply bind_ok in H as (k & s1 & Hq & H). apply IH in H as [Hle Hp]. clear IH. unfold check_request in Hq. cbn [map fst snd].
  apply bind_ok in Hq as (role & s2 & [Hrole ->]%lift_ok & Hq). destruct (py_eqb integral role (JStr "writer")) eqn:Er.
  - destruct (nth_error intents n) as [i|] eqn:Ei; [|done]. inv_tx.
    match goal with H : require (py_eqb integral query _) _ = _ |- _ => apply require_ok in H; rename H into Hwq end.
    match goal with H : require (py_eqb integral request _) _ = _ |- _ => apply require_ok in H; rename H into Hwr end.
    match goal with H : on_codec (positional_build _ _ _) _ = _ |- _ => apply batch_source in H as [Hi Hs] end.
    match goal with H : on_codec (positional_manifest _ _ _) _ = _ |- _ => apply batch_manifest in H as -> end.
    split; [lia|]. assert (drop n intents = i :: drop (S n) intents) as ->.
    { clear -Ei. revert intents Ei. induction n as [|n IH]; intros [|j l] E; try done; [by injection E as ->|]. by apply IH. }
    replace (m - n)%nat with (S (m - S n)) by lia. cbn [take]. rewrite <- Hi in Hs, Hwq |- *. by apply planned_write.
  - inv_tx. match goal with H : require _ _ = _ |- _ => apply require_ok in H end. split; [done|]. by eapply planned_read.
Qed.

Lemma read_limits_ok packet limits zs : read_limits integral packet limits = Ok zs →
  (∃ queries, need "queries" packet = Ok queries ∧ length_of queries = Ok (limit_of "requests" zs))
  ∧ limit_of "requests" zs <= limit_of "statements" zs <= 2048 ∧ limit_of "requestBytes" zs <= 16 * 1024 * 1024.
Proof.
  unfold read_limits. destruct limits; try done. intros H. inv_check. inv_bool.
  rewrite Ha0. split; [|done]. exists a. split; [done|]. congruence.
Qed.
Lemma root_room i (s : NState C Sender) batch s' : on_codec (positional_build_root codec_ports sha256 i) s = (Ok batch, s') →
  int_of_str (i_expected i) + i_transition_limit i <= Control.MAX_GENERATION.
Proof.
  intros (a & a' & H)%on_codec_ok. unfold positional_build_root in H. apply bind_ok in H as (b & a1 & H & _). unfold build_root in H. inv_tx.
  match goal with H : root_headroom _ = _ |- _ => apply refuse_if_ok in H end. inv_bool. done.
Qed.
Lemma bound_ok packet k v l : bound_to integral packet k v l = Ok tt → ∃ found, need k packet = Ok found ∧ eqb v found = true.
Proof. unfold bound_to. intros H. inv_check. eauto. Qed.

Lemma allocation_valid packet allocation s al s' :
  validate_allocation ports sha256 integral packet allocation s = (Ok al, s') →
  al_document al = allocation ∧ ∃ root intents queries, allocated packet al root intents queries.
Proof.
  unfold validate_allocation. intros H. inv_tx.
  rename x0 into documents, x1 into intents, x2 into root, x4 into zs, x5 into requests, x7 into queries.
  apply root_room in Hx5. apply check_intents_ok in Hx7 as (Hsame & Hkeys & Hsteps). apply check_requests_ok in Hx13 as [_ Hplan].
  apply read_limits_ok in Hl5 as ((qs & Hqs & Hcount) & Hst & Hbytes). rewrite Hl3 in Hqs. injection Hqs as <-.
  destruct x6; try done. injection Hl2 as ->. rewrite <- (mapR_length _ _ _ Hl8) in Hl9.
  unfold root_binding in Hl6. inv_check. inv_bool. subst x8.
  destruct intents as [|i intents]; [done|]. injection Hl7 as ->.
  match goal with H : bound_to _ _ "targetId" _ _ = _ |- _ => apply bound_ok in H as (t & Ht & Het) end.
  split; [done|]. exists root, (root :: intents), queries. split; cbn [al_intents al_requests al_limits]; try done.
  - split; try done. by apply Hkeys, NoDup_nil.
  - intros t' Ht'. assert (t' = t) as -> by congruence. destruct t; try done. cbn in Het. apply bool_decide_eq_true in Het. by subst.
  - rewrite Nat.sub_0_r, drop_0, firstn_all in Hplan.
    assert (∀ l k : list json, length l = length k → map fst (combine k l) = k ∧ map snd (combine k l) = l) as Hc.
    { clear. induction l as [|x l IH]; intros [|y k] H; try done. injection H as H. destruct (IH k H) as [H1 H2]. cbn. by rewrite H1, H2. }
    destruct (Hc requests queries) as [H1' H2']; [done|]. by rewrite H1', H2' in Hplan.
  - injection Hcount as Hcount. by split.
  - cbn [length] in *. lia.
Qed.

(** The statements of a planned request. *)
Definition distinct_keys (j : json) : Prop := match j with JObj d => NoDup (map fst d) | _ => True end.
Lemma eqb_dict_get request (m : list (string * json)) k v : distinct_keys request → eqb request (JObj m) = true → dict_get k m = Some v →
  ∃ d w, request = JObj d ∧ dict_get k d = Some w ∧ eqb w v = true.
Proof.
  intros Hn He Hk. destruct request as [|b|z|t|t|l|d]; [by cbn in He; unfold number_eqb in He; try destruct (integral _)..|]. exists d. cbn [distinct_keys] in Hn.
  pose proof He as He'. cbn in He. apply andb_true_iff in He as [Hlen Hall]. apply bool_decide_eq_true in Hlen. rewrite forallb_forall in Hall.
  assert (k ∈ map fst d) as Hin.
  { assert (map fst d ⊆+ map fst m) as Hsub.
    { apply NoDup_submseteq; [done|]. intros x Hx. apply list_elem_of_fmap in Hx as ((x' & w) & -> & Hx%list_elem_of_In). specialize (Hall _ Hx). cbn in Hall.
      destruct (dict_get x' m) as [u|] eqn:Eu; [|done]. apply dict_get_in in Eu. apply list_elem_of_fmap. by exists (x', u). }
    assert (map fst d ≡ₚ map fst m) as Hp by (apply submseteq_length_Permutation; [done|rewrite !length_map; lia]).
    rewrite Hp. apply dict_get_in in Hk. apply list_elem_of_fmap. by exists (k, v). }
  apply list_elem_of_fmap in Hin as ((k' & w) & -> & Hin). assert (dict_get k' d = Some w) as Hw by (by apply dict_get_elem). exists w. split; [done|]. split; [done|].
  destruct (py_eqb_obj _ _ _ _ _ He' Hw) as (u & Hu & E). assert (u = v) as -> by (cbn in *; congruence). done.
Qed.
Lemma count_planned request m n : distinct_keys request → eqb request (JObj m) = true → dict_get "statementCount" m = Some (JInt n) → count_of integral request = n.
Proof.
  intros Hn He Hm. destruct (eqb_dict_get request m "statementCount" (JInt n) Hn He Hm) as (d & w & -> & Hw & E). unfold count_of, field. rewrite Hw.
  destruct w as [|b|z|t| | |]; try done; cbn in E.
  - by apply Z.eqb_eq in E.
  - by apply Z.eqb_eq in E.
  - unfold number_eqb in E. destruct (integral t) as [z|]; [|done]. by apply Z.eqb_eq in E.
Qed.
Lemma planned_count intents queries requests : planned intents queries requests → Forall distinct_keys requests →
  foldr (λ r n, count_of integral r + n) 0 requests = Z.of_nat (length queries + length intents).
Proof.
  induction 1 as [|intents query request queries requests role sql params _ _ _ _ Hr Hp IH|batch intents query request queries requests _ _ Hr Hp IH];
    [done|intros [Hn Hd]%Forall_cons..]; cbn [foldr length]; rewrite IH by done.
  - rewrite (count_planned request _ 1 Hn Hr eq_refl). lia.
  - rewrite (count_planned request _ 2 Hn Hr eq_refl). lia.
Qed.

(** C30: An allocation that validates plans one campaign: at most three intents, each the
    batch of exactly one writer of the packet, in order, and every other query exactly
    its own read; with as many requests as its limit says, and a statement for each
    request and one more for each write, within the limit of statements. *)
Theorem allocation_sound packet allocation s al s' :
  validate_allocation ports sha256 integral packet allocation s = (Ok al, s') → Forall distinct_keys (al_requests al) →
  ∃ root intents queries, allocated packet al root intents queries
  ∧ Z.of_nat (length queries) = limit_of "requests" (al_limits al)
  ∧ Z.of_nat (length queries + length intents) <= limit_of "statements" (al_limits al) <= 2048.
Proof.
  intros (_ & root & intents & queries & Ha)%allocation_valid Hd. exists root, intents, queries. split; [done|].
  destruct (ad_limits _ _ _ _ _ Ha) as (H1 & H2 & _). pose proof (ad_statements _ _ _ _ _ Ha) as H3.
  rewrite (planned_count _ _ _ (ad_plan _ _ _ _ _ Ha) Hd) in H3. lia.
Qed.
End Plan.

(** ** Statements that keep the instance *)

Section Quiet.
Context {C Extra : Type}.
Notation N := (M (NState C Extra)).

(** [m] leaves the binding, the sender and the effects alone. *)
Definition quiet {T} (m : N T) : Prop := ∀ s,
  n_active (m s).2 = n_active s ∧ n_extra (m s).2 = n_extra s ∧ n_trace (m s).2 = n_trace s.

Lemma unsent_lift {T} (x : res T) : quiet (lift x).
Proof. done. Qed.
Lemma unsent_ret {T} (x : T) : quiet (ret x).
Proof. done. Qed.
Lemma unsent_raise {T} e : quiet (raise (A:=T) e).
Proof. done. Qed.
Lemma unsent_gets {T} (f : NState C Extra → T) : quiet (gets f).
Proof. done. Qed.
Lemma quiet_journal {T} (m : M (State C) T) : quiet (on_journal m).
Proof. intros s. unfold on_journal. by destruct (m (n_world s)). Qed.
Lemma quiet_ports {T} (m : M C T) : quiet (on_ports m).
Proof. apply quiet_journal. Qed.
Lemma quiet_codec {T} (m : M (AState (State C)) T) : quiet (on_codec m).
Proof. intros s. unfold on_codec. by destruct (m _). Qed.
Lemma quiet_active : quiet active.
Proof. intros s. unfold active. by destruct (n_active s) eqn:E; cbn [fst snd]. Qed.
Lemma unsent_bind {T U} (m : N T) (f : T → N U) : quiet m → (∀ x, quiet (f x)) → quiet (bind m f).
Proof.
  intros Hm Hf s. unfold bind. destruct (Hm s) as (H1 & H2 & H3). destruct (m s) as [[x|e] s1]; cbn [fst snd] in *; [|done].
  destruct (Hf x s1) as (H4 & H5 & H6). by rewrite H4, H5, H6.
Qed.
Lemma unsent_step {T} (m : N T) s x s' : quiet m → m s = (x, s') → n_active s' = n_active s ∧ n_extra s' = n_extra s ∧ n_trace s' = n_trace s.
Proof. intros Hm E. specialize (Hm s). by rewrite E in Hm. Qed.
End Quiet.
Create HintDb quiet discriminated.
#[export] Hint Resolve unsent_lift unsent_ret unsent_raise unsent_gets quiet_journal quiet_ports quiet_codec quiet_active unsent_bind : quiet.

Section Life.
Context {C : Type} (ports : NativePorts C) (fate : nat → io) (sha256 : string → string).
Context (integral : string → option Z) (address : json → res string) (self : Settings).
Notation N := (M (NState C Sender)).
Notation eqb := (py_eqb integral).

Lemma quiet_sender : quiet (sender (C:=C)).
Proof. intros s. unfold sender. by destruct (n_extra s) eqn:E; cbn [fst snd]. Qed.
#[local] Hint Resolve quiet_sender : quiet.
#[local] Hint Extern 2 (quiet (match ?x with _ => _ end)) => destruct x : quiet.
Lemma quiet_guard dl : quiet (guard (Extra:=Sender) ports sha256 integral self dl).
Proof. unfold guard. auto with quiet. Qed.
Lemma quiet_guard_native dl : quiet (guard_native ports sha256 integral self dl).
Proof. unfold guard_native. auto with quiet. Qed.
#[local] Hint Resolve quiet_guard quiet_guard_native : quiet.
Lemma quiet_check_intents root prior keys intents : quiet (check_intents ports sha256 root prior keys intents).
Proof. revert prior keys. induction intents as [|i intents IH]; intros; cbn [check_intents]; auto 10 with quiet. Qed.
Lemma quiet_check_requests intents n l : quiet (check_requests ports sha256 integral intents n l).
Proof.
  revert n. induction l as [|[query request] l IH]; intros; cbn [check_requests]; [auto with quiet|].
  apply unsent_bind; [|auto]. unfold check_request. apply unsent_bind; [auto with quiet|]. intros role.
  destruct (py_eqb _ _ _); [destruct (nth_error _ _)|]; auto 10 with quiet.
Qed.
#[local] Hint Resolve quiet_check_intents quiet_check_requests : quiet.
Lemma quiet_validate packet allocation : quiet (validate_allocation ports sha256 integral packet allocation).
Proof. unfold validate_allocation. repeat (apply unsent_bind; [solve [auto with quiet]|intros ?]). auto with quiet. Qed.
Lemma quiet_writers : quiet (positional_writers ports sha256).
Proof. unfold positional_writers. auto 10 with quiet. Qed.
Lemma quiet_check_queries writers reads queries : quiet writers → quiet (check_queries (C:=C) (Extra:=Sender) writers reads queries).
Proof.
  intros Hw. induction queries as [|q queries IH]; cbn [check_queries]; [auto with quiet|]. apply unsent_bind; [|auto with quiet].
  unfold check_query. apply unsent_bind; [auto with quiet|]. intros d. case_bool_decide; auto with quiet.
Qed.
#[local] Hint Resolve quiet_validate quiet_check_queries quiet_writers : quiet.
Lemma quiet_read_packet : quiet (read_packet ports sha256 integral address self (positional_writers ports sha256)).
Proof. unfold read_packet. repeat (apply unsent_bind; [solve [auto with quiet]|intros ?]). auto with quiet. Qed.
#[local] Hint Resolve quiet_read_packet : quiet.
Lemma quiet_plan role sql params dl batch : quiet (plan_request ports fate sha256 integral self role sql params dl batch).
Proof. unfold plan_request. repeat (apply unsent_bind; [solve [auto with quiet]|intros ?]). auto with quiet. Qed.

(** *** What an instance is licensed to send *)

(** A binding activated with the credential its packet pins. *)
Definition credentialed (a : Active) : Prop :=
  (∃ d queries evidence, a_packet a = packet_of d queries evidence)
  ∧ eqb (JStr (sha256 (a_token a))) (packet_part "credentialSha2_256" (a_packet a)) = true ∧ token_grammar (a_token a) = true.
(** A sender with the allocation that its pinned packet retains. *)
Definition admitted (e : Sender) : Prop :=
  sha256 (sn_packet_raw e) = c_packet_pin self
  ∧ ∃ packet root intents queries, strict_json (sn_packet_raw e) = Ok packet ∧ allocated sha256 integral packet (sn_allocation e) root intents queries.
(** The request at ordinal [o] of the plan: a read of the packet, or the batch of an
    intent of the allocation. *)
Definition as_planned (a : Active) (e : Sender) (o : Z) (b : option string) (body wire : string) : Prop :=
  canonical (p_document (a_packet a)) = sn_packet_raw e
  ∧ wire = framed (query_path (a_packet a)) (request_headers (a_token a) body) body
  ∧ ∃ q m, item o (p_queries (a_packet a)) = Ok q ∧ item o (al_requests (sn_allocation e)) = Ok m
    ∧ eqb (JStr (sha256 body)) (manifest_digest m) = true
    ∧ match b with
      | None => q_role q ∈ ["observer"; "snapshot"] ∧ body = read_body (q_sql q) (q_params q)
      | Some k => ∃ batch, k = i_key (fb_intent batch) ∧ body = body_of batch
          ∧ q = mkQuery "writer" (fb_update_sql batch) [i_expected (fb_intent batch)]
          ∧ from_source sha256 Positional (fb_intent batch) (fb_update_sql batch)
          ∧ existsb (eqb (intent_json (fb_intent batch))) (al_intents (sn_allocation e)) = true
      end.
Definition licensed (s : NState C Sender) : Prop := (∀ a, n_active s = Some a → credentialed a) ∧ ∀ e, n_extra s = Some e → admitted e.
Definition keeps {T} (m : N T) : Prop := ∀ s, licensed s → licensed (m s).2.

Lemma keeps_quiet {T} (m : N T) : quiet m → keeps m.
Proof. intros Hm s Hs. destruct (Hm s) as (H1 & H2 & H3). unfold licensed in *. by rewrite H1, H2. Qed.
Lemma licensed_bind_keeps {T U} (m : N T) (f : T → N U) : keeps m → (∀ s x s', m s = (Ok x, s') → keeps (f x)) → keeps (bind m f).
Proof.
  intros Hm Hf s Hs. unfold bind. specialize (Hm s Hs). destruct (m s) as [[x|e] s1] eqn:E; cbn [fst snd] in *; [|done]. by eapply Hf.
Qed.
Lemma keeps_event ev : keeps (record_event ev).
Proof. by intros s Hs. Qed.
Lemma keeps_set_active a : credentialed a → keeps (set_active_ a).
Proof. intros Ha s [H1 H2]. split; [|done]. intros a'. cbn. by intros [= <-]. Qed.
Lemma keeps_set_sender e : admitted e → keeps (set_sender e).
Proof. intros He s [H1 H2]. split; [done|]. intros e'. cbn. by intros [= <-]. Qed.

(** Steps over statements that keep the instance, with what they returned. *)
Ltac keeps_steps := repeat (apply licensed_bind_keeps; [solve [apply keeps_quiet; auto with quiet]|intros ? ? ? ?]);
  repeat match goal with u : unit |- _ => destruct u end.

Lemma read_packet_ok (writers : N (list string)) s p s' : read_packet ports sha256 integral address self writers s = (Ok p, s') →
  ∃ d queries evidence, p = packet_of d queries evidence.
Proof. unfold read_packet. intros H. inv_tx. by eexists _, _, _. Qed.
Lemma keeps_activate load : keeps (activate ports fate sha256 integral address self (positional_writers ports sha256) load).
Proof.
  unfold activate. keeps_steps. match goal with H : read_packet _ _ _ _ _ _ _ = _ |- _ => apply read_packet_ok in H end.
  apply licensed_bind_keeps; [by apply keeps_event|]. intros _ _ _ _. keeps_steps.
  match goal with |- keeps (match ?x with _ => _ end) => destruct x; try (by apply keeps_quiet; auto with quiet) end.
  keeps_steps. match goal with H : lift (require (token_grammar _ && _) _) _ = _ |- _ => apply lift_ok in H as [H _]; apply require_ok in H end. inv_bool.
  apply licensed_bind_keeps; [by apply keeps_set_active|]. intros. apply keeps_quiet. auto with quiet.
Qed.
Lemma packet_file_ok (s : NState C Sender) raw s' : on_ports (packet_file ports sha256 integral self) s = (Ok raw, s') → sha256 raw = c_packet_pin self.
Proof.
  unfold on_ports, on_journal, outside. destruct (packet_file _ _ _ _ _) as [r c] eqn:E. intros [= -> _].
  unfold packet_file, pinned_file in E. inv_tx. apply require_ok in Hl. inv_bool. match goal with H : eqb _ _ = true |- _ => by injection (proj1 (py_eqb_str _ _ _) H) end.
Qed.
Lemma keeps_activate_native credential admission :
  keeps (activate_native ports fate sha256 integral address self credential admission).
Proof.
  unfold activate_native. keeps_steps.
  repeat match goal with
  | H : on_ports (packet_file _ _ _ _) _ = _ |- _ => apply packet_file_ok in H
  | H : lift (strict_json _) _ = _ |- _ => apply lift_ok in H as [H _]
  | H : validate_allocation _ _ _ _ _ _ = _ |- _ => apply allocation_valid in H as (? & ? & ? & ? & ?)
  end.
  apply licensed_bind_keeps; [apply keeps_activate|]. intros. keeps_steps. apply licensed_bind_keeps; [|intros; apply keeps_quiet; auto with quiet].
  apply keeps_set_sender. split; [done|]. by do 4 eexists.
Qed.

(** *** Requests *)

Lemma guard_native_ok dl s s' : guard_native ports sha256 integral self dl s = (Ok tt, s') →
  ∃ a e, n_active s = Some a ∧ n_extra s = Some e ∧ canonical (p_document (a_packet a)) = sn_packet_raw e.
Proof.
  unfold guard_native, sender, active. intros H. apply bind_ok in H as (e & s1 & He & H). apply bind_ok in H as (a & s2 & Ha & H).
  destruct (n_extra s) as [e'|] eqn:Ee; [|done]. injection He as -> <-. destruct (n_active s) as [a'|] eqn:Ea; [|done]. injection Ha as -> <-.
  exists a, e. split; [done|]. split; [done|]. unfold on_ports, on_journal, outside in H.
  destruct (guard_sender _ _ _ _ _ _ _ _) as [r c] eqn:Eg. injection H as -> _. unfold guard_sender in Eg. inv_tx.
  apply require_ok in Hl. by inv_bool.
Qed.

Lemma plan_ok role sql params dl batch s a e o m cap body s' :
  plan_request ports fate sha256 integral self role sql params dl batch s = (Ok (a, e, o, m, cap, body), s') →
  n_active s = Some a ∧ n_extra s = Some e ∧ canonical (p_document (a_packet a)) = sn_packet_raw e
  ∧ item o (p_queries (a_packet a)) = Ok (mkQuery role sql params) ∧ item o (al_requests (sn_allocation e)) = Ok m
  ∧ eqb (JStr (sha256 body)) (manifest_digest m) = true
  ∧ body = match batch with Some b => body_of b | None => read_body sql params end.
Proof.
  unfold plan_request. intros H. apply bind_ok in H as ([] & s1 & Hg & H). pose proof (unsent_step _ _ _ _ (quiet_guard_native dl) Hg) as (Qa & Qe & _).
  apply guard_native_ok in Hg as (a' & e' & Ha & He & Hraw).
  apply bind_ok in H as (e2 & s2 & Hse & H). unfold sender in Hse. rewrite Qe, He in Hse. injection Hse as <- <-.
  apply bind_ok in H as (a2 & s3 & Hac & H). unfold active in Hac. rewrite Qa, Ha in Hac. injection Hac as <- <-.
  apply bind_ok in H as (orr & s4 & _ & H). apply bind_ok in H as ([] & s5 & _ & H).
  apply bind_ok in H as (q & s6 & [Hq ->]%lift_ok & H). apply bind_ok in H as ([] & s7 & [Hpl ->]%lift_ok & H). apply require_ok, bool_decide_eq_true in Hpl as ->.
  apply bind_ok in H as (body' & s8 & Hbody & H). apply bind_ok in H as (m' & s9 & [Hm ->]%lift_ok & H).
  apply bind_ok in H as ([] & s10 & [Hd ->]%lift_ok & H). apply require_ok in Hd. apply bind_ok in H as ([] & s11 & _ & H).
  injection H as <- <- <- <- <- <- _. split_and!; try done.
  destruct batch as [b|]; [|by injection Hbody as <- _]. apply on_codec_ok in Hbody as (x & x' & Hb). by apply (body_for_ok _ _ Positional) in Hb as [-> _].
Qed.

(** The batch of a request is what [as_planned] asks, of the standing sender. *)
Definition batch_fits (e : Sender) (role sql : string) (params : list string) (batch : option Batch) : Prop :=
  match batch with
  | None => role ∈ ["observer"; "snapshot"]
  | Some b => mkQuery role sql params = mkQuery "writer" (fb_update_sql b) [i_expected (fb_intent b)]
      ∧ from_source sha256 Positional (fb_intent b) (fb_update_sql b)
      ∧ existsb (eqb (intent_json (fb_intent b))) (al_intents (sn_allocation e)) = true
  end.

(** *** Rechecks *)

(** What a recheck of an admission establishes: it is of the pinned packet as it is read
    now, its own binding and its facts are that packet's, it is retained apart from the
    packet and its evidence, and each text it refers to is read with its pinned digest. *)
Definition reviewed (ad : ReviewedAdmission) : Prop :=
  ∃ raw packet pins, sha256 raw = c_packet_pin self ∧ strict_json raw = Ok packet
  ∧ admission_binding integral self ad packet pins = Ok tt ∧ review_apart self ad packet = Ok tt
  ∧ same_keys (ad_facts ad) fact_keys = true ∧ forR (fact_bound integral ad packet) fact_binding = Ok tt
  ∧ ∀ r, r ∈ ad_review ad :: map snd (ad_facts ad) → ∃ text, sha256 text = er_pin r.
(** The guard's recheck succeeded: its ports went from [w] over the guard of the packet
    to [c], and from there the recheck answered. *)
Definition rechecked (a : Active) (e : Sender) (dl : stamp) (w : State C) : Prop :=
  ∃ c c', guard_packet ports sha256 integral self (a_packet a) dl (s_clock w) = (Ok tt, c)
  ∧ recheck ports sha256 integral self (sn_admission e) c = (Ok tt, c') ∧ reviewed (sn_admission e).

Lemma pinned_ok path pin limit (c : C) raw c' : pinned_file ports sha256 integral path (JStr pin) limit c = (Ok raw, c') → sha256 raw = pin.
Proof.
  unfold pinned_file. intros (_ & c0 & _ & E)%bind_ok. destruct path as [| | | |p| |]; try done. inv_tx. apply require_ok in Hl. inv_bool.
  match goal with H : eqb _ _ = true |- _ => by injection (proj1 (py_eqb_str _ _ _) H) end.
Qed.
Lemma references_ok refs (c : C) c' : check_references ports sha256 integral refs c = (Ok tt, c') → ∀ r, r ∈ refs → ∃ text, sha256 text = er_pin r.
Proof.
  revert c. induction refs as [|r refs IH]; intros c H x Hx; [by apply not_elem_of_nil in Hx|]. cbn [check_references] in H.
  apply bind_ok in H as (raw & c1 & Hr & H). apply pinned_ok in Hr. apply elem_of_cons in Hx as [->|Hx]; [eauto|by eapply IH].
Qed.
Lemma recheck_ok ad (c : C) c' : recheck ports sha256 integral self ad c = (Ok tt, c') → reviewed ad.
Proof.
  unfold recheck. intros H. apply bind_ok in H as (raw & c1 & Hraw & H). apply bind_ok in H as (packet & c2 & [Hp ->]%lift_ok & H).
  apply bind_ok in H as (pins & c3 & _ & H). apply bind_ok in H as ([] & c4 & [Hb ->]%lift_ok & H). apply bind_ok in H as ([] & c5 & [Hap ->]%lift_ok & H).
  apply bind_ok in H as ([] & c6 & [Hk%require_ok ->]%lift_ok & H). apply bind_ok in H as ([] & c7 & Href & H). apply lift_ok in H as [Hf ->].
  exists raw, packet, pins. split_and!; try done; [|by eapply references_ok].
  unfold packet_file in Hraw. by apply pinned_ok in Hraw.
Qed.
Lemma guard_rechecks dl s s' a e : n_active s = Some a → n_extra s = Some e → guard_native ports sha256 integral self dl s = (Ok tt, s') →
  rechecked a e dl (n_world s).
Proof.
  unfold guard_native, sender, active. intros Ha He H. apply bind_ok in H as (e' & s1 & Hs & H). rewrite He in Hs. injection Hs as <- <-.
  apply bind_ok in H as (a' & s2 & Hs & H). rewrite Ha in Hs. injection Hs as <- <-. unfold on_ports, on_journal, outside in H.
  destruct (guard_sender _ _ _ _ _ _ _ _) as [r c'] eqn:Eg. injection H as -> _. unfold guard_sender in Eg.
  apply bind_ok in Eg as ([] & c1 & Hg & Eg). apply bind_ok in Eg as ([] & c2 & Hr & _). exists c1, c2. split; [done|]. split; [done|by eapply recheck_ok].
Qed.

(** *** What is sent *)

(** [m] adds events of [E] only. *)
Definition says (E : event → Prop) {T} (m : N T) : Prop := ∀ s ev, ev ∈ n_trace (m s).2 → ev ∈ n_trace s ∨ E ev.
Definition unsent (ev : event) : Prop := match ev with Sent _ _ _ _ => False | _ => True end.
Lemma says_quiet E {T} (m : N T) : quiet m → says E m.
Proof. intros Hm s ev. destruct (Hm s) as (_ & _ & ->). by left. Qed.
Lemma says_bind (E : event → Prop) {T U} (m : N T) (f : T → N U) : says E m → (∀ x, says E (f x)) → says E (bind m f).
Proof.
  intros Hm Hf s ev. unfold bind. specialize (Hm s ev). destruct (m s) as [[x|e] s1]; cbn [snd] in *; [|done]. intros [H|H]%Hf; [by apply Hm|by right].
Qed.
Lemma says_event (E : event → Prop) ev : E ev → says E (record_event (C:=C) (Extra:=Sender) ev).
Proof. intros H s ev'. cbn. rewrite elem_of_app, list_elem_of_singleton. intros [?| ->]; [by left|by right]. Qed.
Ltac says_steps := repeat (apply says_bind; [solve [apply says_quiet; auto with quiet]|intros ?]).
Lemma says_activate credential admission : says unsent (activate_native ports fate sha256 integral address self credential admission).
Proof.
  unfold activate_native. says_steps. apply says_bind; [|intros _; apply says_bind; [by intros ? ?; left|intros _]; says_steps; apply says_quiet; auto with quiet].
  unfold activate. says_steps. apply says_bind; [by apply says_event|intros _]. says_steps.
  match goal with |- says _ (match ?x with _ => _ end) => destruct x; try (by apply says_quiet; auto with quiet) end.
  says_steps. apply says_bind; [by intros ? ?; left|intros _]. apply says_quiet. auto with quiet.
Qed.
Lemma says_accept a o m cap request response batch : says unsent (accept_response ports fate sha256 integral self a o m cap request response batch).
Proof.
  unfold accept_response. says_steps. apply says_bind; [by apply says_event|intros _]. says_steps.
  apply says_bind; [destruct batch; [by apply says_quiet|by intros ? ?; left]|intros _]. by apply says_quiet.
Qed.

(** The reservation of a planned request. *)
Definition reserves (a : Active) (e : Sender) (m : json) (cap : Z) (body : string) (dl : stamp) (batch : option Batch) : N Z :=
  on_journal (reserve_exact_request (p_now (np_adapter ports)) fate (p_target (a_packet a)) (c_packet_pin self) m cap
    (slen (framed (query_path (a_packet a)) (request_headers (a_token a) body) body)) (al_limits (sn_allocation e)) dl (fb_intent <$> batch)).
(** A request that starts from [r] is sent: it was planned, its reservation was
    acknowledged at the planned ordinal, and then the guard rechecked the admission. *)
Definition sends (role sql : string) (params : list string) (dl : stamp) (batch : option Batch) (r : NState C Sender)
    (a : Active) (e : Sender) (o : Z) (body : string) : Prop :=
  ∃ m cap r1 r2, plan_request ports fate sha256 integral self role sql params dl batch r = (Ok (a, e, o, m, cap, body), r1)
  ∧ reserves a e m cap body dl batch r1 = (Ok o, r2) ∧ rechecked a e dl (n_world r2).
Lemma send_says a e o m cap body dl batch r1 o' b' body' wire' : n_active r1 = Some a → n_extra r1 = Some e →
  Sent o' b' body' wire' ∈ n_trace (send_request ports fate sha256 integral self a e o m cap body dl batch r1).2 →
  Sent o' b' body' wire' ∈ n_trace r1 ∨ (∃ r2, reserves a e m cap body dl batch r1 = (Ok o, r2) ∧ rechecked a e dl (n_world r2))
    ∧ Sent o' b' body' wire' = Sent o ((λ b, i_key (fb_intent b)) <$> batch) body (framed (query_path (a_packet a)) (request_headers (a_token a) body) body).
Proof.
  intros Ha He. unfold send_request. cbv zeta. fold (reserves a e m cap body dl batch). unfold bind at 1.
  destruct (reserves a e m cap body dl batch r1) as [[claimed|x] r2] eqn:Er; pose proof (unsent_step _ _ _ _ (quiet_journal _) Er) as (Q1 & Q2 & Q3); [|cbn [snd]; rewrite Q3; by left].
  unfold bind at 1, lift at 1. destruct (require (claimed =? o) _) as [[]|x] eqn:Eo; [|cbn [snd]; rewrite Q3; by left].
  apply require_ok, Z.eqb_eq in Eo as ->. unfold bind at 1. destruct (guard_native _ _ _ _ _ r2) as [[[]|x] r3] eqn:Eg; pose proof (unsent_step _ _ _ _ (quiet_guard_native dl) Eg) as (Q4 & Q5 & Q6); [|cbn [snd]; rewrite Q6, Q3; by left].
  set (ev := Sent o _ body _). set (rest := bind (on_ports (p_now (np_adapter ports))) _).
  assert (says (eq ev) rest) as Hs.
  { unfold rest. says_steps. apply says_bind; [by apply says_event|intros _]. apply says_quiet. auto with quiet. }
  intros [H| <-]%Hs; [left; by rewrite <- Q3, <- Q6|right]. split; [|done]. exists r2. split; [done|]. eapply guard_rechecks; [| |exact Eg]; congruence.
Qed.
Lemma request_sends role sql params dl batch r o b body wire :
  Sent o b body wire ∈ n_trace (request_ ports fate sha256 integral self role sql params dl batch r).2 →
  Sent o b body wire ∈ n_trace r ∨ ∃ a e, n_active r = Some a ∧ n_extra r = Some e ∧ sends role sql params dl batch r a e o body
    ∧ b = (λ b, i_key (fb_intent b)) <$> batch ∧ (batch_fits e role sql params batch → as_planned a e o b body wire).
Proof.
  unfold request_, try. unfold bind at 1. destruct (plan_request _ _ _ _ _ _ _ _ _ _ r) as [[[[[[[a e] o'] m] cap] body']|x] r1] eqn:E; pose proof (unsent_step _ _ _ _ (quiet_plan role sql params dl batch) E) as (Q1 & Q2 & Q3); [|unfold raise; cbn [snd]; rewrite Q3; by left].
  pose proof (plan_ok _ _ _ _ _ _ _ _ _ _ _ _ _ E) as (Ha & He & Hraw & Hq & Hm & Hd & Hbody).
  assert (Hsend : ∀ ev, ev ∈ n_trace (bind (send_request ports fate sha256 integral self a e o' m cap body' dl batch)
      (λ rr, let '(request, response) := rr in accept_response ports fate sha256 integral self a o' m cap request response batch) r1).2 →
    ev ∈ n_trace (send_request ports fate sha256 integral self a e o' m cap body' dl batch r1).2 ∨ unsent ev).
  { intros ev. unfold bind at 1. destruct (send_request _ _ _ _ _ _ _ _ _ _ _ _ _ r1) as [[[request response]|x] r2]; [apply says_accept|by left]. }
  intros Hin. assert (Sent o b body wire ∈ n_trace (send_request ports fate sha256 integral self a e o' m cap body' dl batch r1).2) as H.
  { destruct (bind _ _ r1) as [[v|x] r2] eqn:Eb; cbn [snd raise] in Hin; destruct (Hsend (Sent o b body wire)) as [H|[]]; try done; by rewrite Eb. }
  apply send_says in H as [H|[(r2 & Hr & Hc) [= -> -> -> ->]]]; [left; by rewrite <- Q3| |congruence|congruence].
  right. exists a, e. split_and!; try done; [by exists m, cap, r1, r2|]. intros Hfit. split; [done|]. split; [done|].
  exists (mkQuery role sql params), m. split_and!; try done.
  destruct batch as [bt|]; cbn [fmap option_fmap option_map]; [|done]. exists bt. destruct Hfit as (H1 & H2 & H3). done.
Qed.

(** *** Deeds *)

Lemma keeps_send a e o m cap body dl batch : keeps (send_request ports fate sha256 integral self a e o m cap body dl batch).
Proof. unfold send_request. keeps_steps. apply licensed_bind_keeps; [|intros; apply keeps_quiet; auto with quiet]. apply keeps_event. Qed.
Lemma keeps_accept a o m cap request response batch : keeps (accept_response ports fate sha256 integral self a o m cap request response batch).
Proof.
  unfold accept_response. keeps_steps. apply licensed_bind_keeps; [apply keeps_event|]. intros. keeps_steps.
  apply licensed_bind_keeps; [destruct batch; [by apply keeps_quiet|intros ?; done]|]. intros. by apply keeps_quiet.
Qed.
Lemma keeps_request role sql params dl batch : keeps (request_ ports fate sha256 integral self role sql params dl batch).
Proof.
  unfold request_. intros s Hs. unfold try.
  assert (keeps (let* '(a, e, ordinal, manifest, cap, body) := plan_request ports fate sha256 integral self role sql params dl batch in
    let* '(request, response) := send_request ports fate sha256 integral self a e ordinal manifest cap body dl batch in
    accept_response ports fate sha256 integral self a ordinal manifest cap request response batch)) as Hk.
  { apply licensed_bind_keeps; [apply keeps_quiet, quiet_plan|]. intros ? [[[[[a e] o] m] cap] body] ? _.
    apply licensed_bind_keeps; [apply keeps_send|]. intros ? [request response] ? _. apply keeps_accept. }
  specialize (Hk s Hs). destruct (bind _ _ s) as [[r|x] s2]; exact Hk.
Qed.
Lemma keeps_deed d : keeps (perform ports fate sha256 integral address self d).
Proof.
  destruct d as [credential admission|role sql params dl|batch dl]; cbn [perform].
  - apply keeps_activate_native.
  - apply licensed_bind_keeps; [|intros; by apply keeps_quiet]. unfold query_native. keeps_steps.
    apply licensed_bind_keeps; [apply keeps_request|]. intros ? [[rows meta] body] ? _. by apply keeps_quiet.
  - apply licensed_bind_keeps; [|intros; by apply keeps_quiet]. unfold dispatch_batch. cbv zeta. keeps_steps.
    apply licensed_bind_keeps; [apply keeps_request|]. intros ? [[rows meta] body] ? _. keeps_steps. apply keeps_quiet. auto with quiet.
Qed.
Lemma life_licensed deeds w : licensed (life ports fate sha256 integral address self deeds (fresh w)).
Proof.
  assert (∀ s, licensed s → licensed (life ports fate sha256 integral address self deeds s)) as H; [|by apply H].
  induction deeds as [|d deeds IH]; intros s Hs; [done|]. apply IH. by apply keeps_deed.
Qed.

(** The deed [d], performed at [s], starts this request from [r]: a query is a request of
    a read; a dispatch starts one after its guard, for a batch rebuilt from the pinned
    source, of a retained intent whose durable entry is claimed for dispatch. *)
Definition starts (d : deed C) (s r : NState C Sender) (role sql : string) (params : list string) (dl : stamp) (batch : option Batch) : Prop :=
  match d with
  | Activate _ _ => False
  | Query_ role' sql' params' dl' => r = s ∧ (role, sql, params, dl, batch) = (role', sql', params', dl', None) ∧ role ∈ ["observer"; "snapshot"]
  | Dispatch b dl' =>
      (role, sql, params, dl, batch) = ("writer", fb_update_sql b, [i_expected (fb_intent b)], dl', Some b)
      ∧ ∃ s1 s2 a e entry, guard_native ports sha256 integral self dl' s = (Ok tt, s1)
        ∧ on_codec (positional_build (outside_ports (np_adapter ports)) sha256 (fb_intent b)) s1 = (Ok b, s2)
        ∧ n_active s2 = Some a ∧ n_extra s2 = Some e ∧ existsb (eqb (intent_json (fb_intent b))) (al_intents (sn_allocation e)) = true
        ∧ on_journal (get (p_now (np_adapter ports)) fate (p_target (a_packet a)) (c_packet_pin self) (i_key (fb_intent b)) dl') s2 = (Ok entry, r)
        ∧ je_intent entry = fb_intent b ∧ je_dispatch_claimed entry = true ∧ je_phase entry = "dispatching"
  end.
Lemma starts_same d s r role sql params dl batch : starts d s r role sql params dl batch →
  n_active r = n_active s ∧ n_extra r = n_extra s ∧ n_trace r = n_trace s.
Proof.
  destruct d as [credential admission|role' sql' params' dl'|b dl']; cbn [starts]; [done|by intros [-> _]|].
  intros (_ & s1 & s2 & a & e & entry & H1 & H2 & _ & _ & _ & H3 & _).
  pose proof (unsent_step _ _ _ _ (quiet_guard_native dl') H1) as (A1 & A2 & A3). pose proof (unsent_step _ _ _ _ (quiet_codec _) H2) as (B1 & B2 & B3).
  pose proof (unsent_step _ _ _ _ (quiet_journal _) H3) as (C1 & C2 & C3). split_and!; congruence.
Qed.
Lemma starts_fit d s r role sql params dl batch e : starts d s r role sql params dl batch → n_extra r = Some e → batch_fits e role sql params batch.
Proof.
  intros Hst He. pose proof (starts_same _ _ _ _ _ _ _ _ Hst) as (_ & Hx & _). destruct d as [credential admission|role' sql' params' dl'|b dl']; cbn [starts] in Hst; [done| |].
  - by destruct Hst as (_ & [= -> -> -> -> ->] & H).
  - destruct Hst as ([= -> -> -> -> ->] & s1 & s2 & a & e' & entry & H1 & H2 & _ & He' & Hin & H3 & _). split; [done|].
    pose proof (unsent_step _ _ _ _ (quiet_journal _) H3) as (_ & C2 & _). assert (e' = e) as -> by congruence. split; [by apply batch_source in H2 as [_ H2]|done].
Qed.
(** A dispatch either starts its request, and adds nothing after it, or sends nothing. *)
Lemma dispatch_starts batch dl s x s' : dispatch_batch ports fate sha256 integral self batch dl s = (x, s') →
  (∃ r, starts (Dispatch batch dl) s r "writer" (fb_update_sql batch) [i_expected (fb_intent batch)] dl (Some batch)
        ∧ n_trace s' = n_trace (request_ ports fate sha256 integral self "writer" (fb_update_sql batch) [i_expected (fb_intent batch)] dl (Some batch) r).2)
  ∨ n_trace s' = n_trace s.
Proof.
  unfold dispatch_batch. unfold bind at 1. destruct (guard_native _ _ _ _ dl s) as [[[]|y] s1] eqn:H1;
    pose proof (unsent_step _ _ _ _ (quiet_guard_native dl) H1) as (A1 & A2 & A3); [|intros [= _ <-]; by right].
  cbv zeta. unfold bind at 1. destruct (on_codec _ s1) as [[again|y] s2] eqn:H2; pose proof (unsent_step _ _ _ _ (quiet_codec _) H2) as (B1 & B2 & B3); [|intros [= _ <-]; right; congruence].
  unfold bind at 1, lift at 1. destruct (require (bool_decide (batch = again)) _) as [[]|y] eqn:Eb; [apply require_ok, bool_decide_eq_true in Eb as <-|intros [= _ <-]; right; congruence].
  unfold bind at 1, sender at 1. destruct (n_extra s2) as [e|] eqn:He; [|intros [= _ <-]; right; congruence].
  unfold bind at 1, lift at 1. destruct (require (existsb _ _) _) as [[]|y] eqn:Ei; [apply require_ok in Ei|intros [= _ <-]; right; congruence].
  unfold bind at 1, active at 1. destruct (n_active s2) as [a|] eqn:Ha; [|intros [= _ <-]; right; congruence].
  unfold bind at 1. destruct (on_journal _ s2) as [[entry|y] r] eqn:H3; pose proof (unsent_step _ _ _ _ (quiet_journal _) H3) as (C1 & C2 & C3); [|intros [= _ <-]; right; congruence].
  unfold bind at 1, lift at 1. destruct (require (bool_decide (je_intent entry = fb_intent batch) && _ && _) _) as [[]|y] eqn:Ec;
    [apply require_ok in Ec; inv_bool|intros [= _ <-]; right; congruence].
  intros E. left. exists r. split; [split; [done|]; by exists s1, s2, a, e, entry|]. unfold bind at 1 in E.
  destruct (request_ _ _ _ _ _ _ _ _ _ _ r) as [[[[rows meta] body]|y] r']; [|by injection E as _ <-].
  match type of E with ?m _ = _ => assert (quiet m) as Hq by auto with quiet end.
  destruct (Hq r') as (_ & _ & Ht). by rewrite E in Ht.
Qed.
Lemma deed_sends d s o b body wire : Sent o b body wire ∈ n_trace (perform ports fate sha256 integral address self d s).2 →
  Sent o b body wire ∈ n_trace s ∨ ∃ r role sql params dl batch, starts d s r role sql params dl batch
    ∧ ∃ a e, n_active s = Some a ∧ n_extra s = Some e ∧ sends role sql params dl batch r a e o body ∧ as_planned a e o b body wire.
Proof.
  assert (Hgo : ∀ d r role sql params dl batch, starts d s r role sql params dl batch →
    Sent o b body wire ∈ n_trace (request_ ports fate sha256 integral self role sql params dl batch r).2 →
    Sent o b body wire ∈ n_trace s ∨ ∃ r role sql params dl batch, starts d s r role sql params dl batch
      ∧ ∃ a e, n_active s = Some a ∧ n_extra s = Some e ∧ sends role sql params dl batch r a e o body ∧ as_planned a e o b body wire).
  { intros d' r role sql params dl batch Hst H. pose proof (starts_same _ _ _ _ _ _ _ _ Hst) as (S1 & S2 & S3).
    apply request_sends in H as [H|(a & e & Ha & He & Hs & -> & Hp)]; [left; congruence|right].
    exists r, role, sql, params, dl, batch. split; [done|]. exists a, e. split_and!; [congruence|congruence|done|]. apply Hp. by eapply starts_fit. }
  destruct d as [credential admission|role sql params dl|batch dl]; cbn [perform].
  - by intros [H|[]]%says_activate; left.
  - unfold query_native. unfold bind at 1. unfold bind at 1, lift at 1. destruct (require _ _) as [[]|x] eqn:Er; [|by left].
    apply require_ok, bool_decide_eq_true in Er. intros Hin. apply (Hgo (Query_ role sql params dl) s role sql params dl None); [done|].
    unfold bind in Hin. by destruct (request_ _ _ _ _ _ _ _ _ _ _ s) as [[[[? ?] ?]|]].
  - unfold bind. destruct (dispatch_batch _ _ _ _ _ _ _ s) as [x s'] eqn:Ed. intros Hin.
    assert (Sent o b body wire ∈ n_trace s') as Hin' by (by destruct x). apply dispatch_starts in Ed as [(r & Hst & E)|E]; [|left; by rewrite <- E].
    apply (Hgo _ _ _ _ _ _ _ Hst). by rewrite <- E.
Qed.

(** C6: Nothing else is sent. In every life of an instance, over any ports and whatever
    fails, each request sent is started by one of its deeds, a query of a read or the
    dispatch of a claimed batch, and is the one that the instance's pinned packet and its
    retained, validated allocation plan at that ordinal - the read of that query, or
    the batch of an intent of the allocation from the pinned source - under the
    credential the packet pins, with a body whose digest the allocation names. After its
    own reservation was acknowledged, and before it was sent, the independent admission
    of the instance was rechecked against the packet as it is then, its review, and its
    evidence. *)
Theorem sender_sends_planned deeds w o b body wire :
  Sent o b body wire ∈ n_trace (life ports fate sha256 integral address self deeds (fresh w)) →
  ∃ before d after r role sql params dl batch a e, deeds = before ++ d :: after
  ∧ starts d (life ports fate sha256 integral address self before (fresh w)) r role sql params dl batch
  ∧ credentialed a ∧ admitted e ∧ as_planned a e o b body wire
  ∧ sends role sql params dl batch r a e o body.
Proof.
  induction deeds as [|d deeds IH] using rev_ind; [by intros ?%not_elem_of_nil|].
  unfold life. rewrite foldl_app. cbn [foldl]. fold (life ports fate sha256 integral address self deeds (fresh w)).
  intros [H|(r & role & sql & params & dl & batch & Hst & a & e & Ha & He & Hs & Hp)]%deed_sends.
  - destruct (IH H) as (before & d' & after & r & role & sql & params & dl & batch & a & e & -> & H').
    exists before, d', (after ++ [d]), r, role, sql, params, dl, batch, a, e. by rewrite <- app_assoc.
  - destruct (life_licensed deeds w) as [Hc Had].
    exists deeds, d, [], r, role, sql, params, dl, batch, a, e. split_and!; [done|done|by apply Hc|by apply Had|done|done].
Qed.
End Life.
