(* ===== verification/NativeLiveness.v ===== *)
(** A healthy read is answered: over ports that keep their files and a clock inside
    one timeout, a sender whose guard passes sends the next read of its plan, accepts
    the complete answer of the primary, and is ready for the next. *)
From S2P Require Import Prelude Json JsonParse JsonRoundTrip Oracle Evidence Control D1Port D1Journal D1JournalFacts D1Adapter D1AdapterFacts D1Campaign ExactCount ExactCountFacts NativeBinding NativeSender NativeSenderFacts.

(** ** Complete answers *)

(** The answer of the primary to one read, complete. *)
Definition read_payload (meta : list (string * json)) (rows : list json) : json :=
  JObj [("success", JBool true); ("errors", JArr []); ("messages", JArr []); ("result", JArr [result_of meta rows])].
Definition row_objects (rows : list json) : Prop := Forall (λ r, match r with JObj _ => regular r | _ => False end) rows.
(** The answer fits under the cap, with the bytes of its headers. *)
Record complete_answer (response : Response) (cap : Z) (meta : list (string * json)) (rows : list json) : Prop := {
  ca_status : rs_status response = 200;
  ca_headers : rs_headers response = [("content-type", "application/json")];
  ca_body : rs_body response = canonical (read_payload meta rows);
  ca_wire : ∃ w, rs_wire_bytes response = Some w ∧ slen (rs_body response) <= w <= cap;
  ca_meta : primary_meta meta;
  ca_rows : row_objects rows;
}.

Lemma read_payload_regular meta rows : primary_meta meta → row_objects rows → regular (read_payload meta rows).
Proof.
  intros [Hm _] Hr. unfold read_payload, result_of. cbn [regular map fst snd foldr] in *. rewrite foldr_and_forall.
  split_and!; try done; try solve_distinct. eapply Forall_impl; [exact Hr|]. by intros [].
Qed.
Lemma row_objects_canon rows : row_objects rows → forallb (λ row, match row with JObj _ => true | _ => false end) (map canon rows) = true.
Proof. intros Hr. apply forallb_forall. intros x (y & <- & Hy)%in_map_iff. unfold row_objects in Hr. rewrite List.Forall_forall in Hr. specialize (Hr y Hy). by destruct y. Qed.

(** The rows and the metadata of a complete answer are returned. *)
Lemma complete_read response cap meta rows : complete_answer response cap meta rows →
  native_answer None response cap = Ok (map canon rows, canon (JObj meta)).
Proof.
  intros [Hst Hh Hb (w & _ & Hw) Hm Hr]. unfold native_answer, _rows.
  rewrite Hst, Hh, Hb, (proj2 (Z.leb_le _ cap)) by (rewrite Hb in Hw; lia). cbn [Z.eqb Pos.eqb andb require rbind].
  assert (headers_ok [("content-type", "application/json")] = true) as -> by reflexivity. cbn [require rbind].
  rewrite strict_json_canonical by by apply read_payload_regular.
  destruct Hm as ([Hn _] & Hp & Hc). cbn [rbind].
  set (m' := sort_keys (map (λ kv, (kv.1, canon kv.2)) meta)).
  assert (canon (read_payload meta rows) = JObj [("errors", JArr []); ("messages", JArr []);
    ("result", JArr [JObj [("meta", JObj m'); ("results", JArr (map canon rows)); ("success", JBool true)]]); ("success", JBool true)]) as -> by reflexivity.
  assert (∀ k, dict_get k m' = canon <$> dict_get k meta) as Hm' by (intros k; by apply dict_get_canon).
  change (canon (JObj meta)) with (JObj m'). clearbody m'.
  assert (forallb (λ k, negb (bool_decide (is_Some (dict_get k m')))) completion_keys = true) as Hck.
  { apply forallb_forall. intros k Hk%list_elem_of_In. by rewrite Hm', (Hc k Hk). }
  transitivity (let? rs := require (forallb (λ row, match row with JObj _ => true | _ => false end) (map canon rows) && true) "snapshot_query_result" ;?
      require (forallb (λ k, negb (bool_decide (is_Some (dict_get k m')))) completion_keys) "snapshot_incomplete_response" ;? Ok (map canon rows) in
    require (is_true (dict_get "served_by_primary" m') && true) "native_sender_complete_primary" ;? Ok (rs, JObj m')); [reflexivity|].
  rewrite row_objects_canon, Hck, Hm', Hp by done. reflexivity.
Qed.

(** ** Computations that return *)

(** [m] returns from [s], in a state and with a value of [Q]. *)
Definition returns {S T} (m : M S T) (s : S) (Q : T → S → Prop) : Prop := ∃ x s', m s = (Ok x, s') ∧ Q x s'.
Lemma returns_bind {S T U} (m : M S T) (f : T → M S U) s Q :
  returns m s (λ x s', returns (f x) s' Q) → returns (bind m f) s Q.
Proof. intros (x & s' & E & y & s'' & E' & H). exists y, s''. unfold bind. by rewrite E. Qed.
Lemma returns_mono {S T} (m : M S T) s (P Q : T → S → Prop) : returns m s P → (∀ x s', P x s' → Q x s') → returns m s Q.
Proof. intros (x & s' & E & H) HPQ. exists x, s'. auto. Qed.
Lemma returns_ret {S T} (x : T) (s : S) (Q : T → S → Prop) : Q x s → returns (ret x) s Q.
Proof. intros H. by exists x, s. Qed.
Lemma returns_lift {S T} (r : res T) (x : T) (s : S) (Q : T → S → Prop) : r = Ok x → Q x s → returns (lift r) s Q.
Proof. intros -> H. by exists x, s. Qed.
Lemma returns_try {S T} (m : M S T) h s Q : returns m s Q → returns (try m h) s Q.
Proof. intros (x & s' & E & H). exists x, s'. unfold try. by rewrite E. Qed.

(** ** Ports that keep still

    While the world is [calm] files and pins stay what they are, and the clock goes
    forward without leaving [lo, hi). *)
Section Calm.
Context {C : Type} (ports : NativePorts C) (calm : C → Prop) (time : C → Z) (lo hi : Z).
Notation clock := (p_now (np_adapter ports)).

(** From the instant [n] on, [m] always answers [r]. *)
Definition settled (n : Z) {T} (r : res T) (m : M C T) : Prop :=
  ∀ c, calm c → n <= time c → ∃ c', m c = (r, c') ∧ calm c' ∧ time c <= time c'.
Definition steady {T} (m : M C T) : Prop := ∃ r, settled lo r m.
Record calm_ports : Prop := {
  cp_time : ∀ c, calm c → lo <= time c < hi;
  cp_clock : ∀ c, calm c → ∃ c', clock c = (Ok (At (time c)), c') ∧ calm c' ∧ time c <= time c';
  cp_plain : ∀ p, steady (np_plain_path ports p);
  cp_read : ∀ p, steady (np_read ports p);
  cp_pins : steady (np_source_pins ports);
  cp_recheck : steady (p_recheck (np_adapter ports));
}.

Lemma settled_lift n {T} (r : res T) : settled n r (lift r).
Proof. intros c Hc Hn. exists c. split; [done|]. split; [done|lia]. Qed.
Lemma settled_bind n {T U} (x : T) (r : res U) (m : M C T) (f : T → M C U) : settled n (Ok x) m → settled n r (f x) → settled n r (bind m f).
Proof.
  intros Hm Hf c Hc Hn. destruct (Hm c Hc Hn) as (c1 & E & H1 & T1). destruct (Hf c1 H1) as (c2 & E2 & H2 & T2); [lia|].
  exists c2. unfold bind. rewrite E. split; [done|]. split; [done|lia].
Qed.
Lemma settled_raise n {T U} (e : exn) (m : M C T) (f : T → M C U) : settled n (Err e) m → settled n (Err e) (bind m f).
Proof. intros Hm c Hc Hn. destruct (Hm c Hc Hn) as (c1 & E & H1 & T1). exists c1. unfold bind. by rewrite E. Qed.
Lemma settled_later n n' {T} (r : res T) (m : M C T) : n <= n' → settled n r m → settled n' r m.
Proof. intros Hn Hm c Hc Hn'. apply Hm; [done|lia]. Qed.
Lemma steady_lift {T} (r : res T) : steady (lift (S:=C) r).
Proof. exists r. apply settled_lift. Qed.
Lemma steady_ret {T} (x : T) : steady (ret (S:=C) x).
Proof. exact (steady_lift (Ok x)). Qed.
Lemma steady_raise {T} e : steady (raise (S:=C) (A:=T) e).
Proof. exact (steady_lift (Err e)). Qed.
Lemma steady_bind {T U} (m : M C T) (f : T → M C U) : steady m → (∀ x, steady (f x)) → steady (bind m f).
Proof.
  intros [[x|e] Hm] Hf; [|exists (Err e); by apply settled_raise]. destruct (Hf x) as [r Hr]. exists r. by apply (settled_bind lo x).
Qed.
Create HintDb calm discriminated.
#[local] Hint Resolve steady_lift steady_ret steady_raise steady_bind : calm.

Context (Hp : calm_ports) (sha256 : string → string) (integral : string → option Z) (self : Settings).
Lemma steady_pinned path pin limit : steady (pinned_file ports sha256 integral path pin limit).
Proof.
  destruct Hp as [_ _ Hplain Hread _ _]. unfold pinned_file. apply steady_bind; [auto with calm|]. intros _. destruct path; auto 8 with calm.
Qed.
#[local] Hint Resolve steady_pinned : calm.
Lemma steady_packet : steady (packet_file ports sha256 integral self).
Proof. apply steady_pinned. Qed.
#[local] Hint Resolve steady_packet : calm.
Lemma steady_evidence evidence : steady (evidence_files ports sha256 integral evidence).
Proof. induction evidence as [|[k r] l IH]; cbn [evidence_files]; auto with calm. Qed.
#[local] Hint Resolve steady_evidence : calm.
Lemma steady_references refs : steady (check_references ports sha256 integral refs).
Proof. induction refs as [|r l IH]; cbn [check_references]; auto with calm. Qed.
#[local] Hint Resolve steady_references : calm.
Lemma steady_recheck ad : steady (recheck ports sha256 integral self ad).
Proof. destruct Hp as [_ _ _ _ Hpins _]. unfold recheck. auto 12 with calm. Qed.

Lemma steady_replays {T} (m : M C T) c x c' : steady m → calm c → m c = (Ok x, c') → settled lo (Ok x) m ∧ calm c'.
Proof.
  intros [r Hr] Hc E. destruct (Hr c Hc) as (c1 & E1 & Hc1 & _); [by apply Hp|]. assert (r = Ok x ∧ c1 = c') as [-> ->] by (split; congruence). done.
Qed.
Lemma clock_then n {T} (r : res T) (f : stamp → M C T) : (∀ t, n <= t < hi → settled t r (f (At t))) → settled n r (bind clock f).
Proof.
  intros Hf c Hc Hn. destruct (cp_clock Hp c Hc) as (c1 & E & Hc1 & T1). pose proof (cp_time Hp c Hc).
  destruct (Hf (time c)) with c1 as (c2 & E2 & Hc2 & T2); [lia|done|lia|]. exists c2. unfold bind. rewrite E. split; [done|]. split; [done|lia].
Qed.

(** A guard that passed once passes at every calm instant, whatever the deadline
    within the window. *)
Lemma guard_again a e dl c c' : calm c → p_starts (a_packet a) <= lo → guard_sender ports sha256 integral self a e (At dl) c = (Ok tt, c') →
  ∀ dl', hi <= dl' <= p_ends (a_packet a) → settled lo (Ok tt) (guard_sender ports sha256 integral self a e (At dl')).
Proof.
  intros Hc Hlo E dl' Hdl'. unfold guard_sender in *. set (p := a_packet a) in *. unfold guard_packet in *.
  apply bind_ok in E as ([] & c1 & Eg & E). apply bind_ok in E as ([] & c2 & Er & E).
  apply bind_ok in Eg as (now & ca & En & Eg). destruct (cp_clock Hp c Hc) as (cb & En' & Hcb & _). rewrite En' in En. injection En as <- <-.
  apply bind_ok in Eg as ([] & c3 & [_ ->]%lift_ok & Eg).
  apply bind_ok in Eg as (raw & c4 & Epk & Eg). destruct (steady_replays _ _ _ _ steady_packet Hcb Epk) as [Hpk Hc4].
  apply bind_ok in Eg as (pins & c5 & Epi & Eg). destruct (steady_replays _ _ _ _ (cp_pins Hp) Hc4 Epi) as [Hpi Hc5].
  apply bind_ok in Eg as ([] & c6 & [Hso ->]%lift_ok & Eg).
  apply bind_ok in Eg as (b & c7 & Erc & Eg). destruct (steady_replays _ _ _ _ (cp_recheck Hp) Hc5 Erc) as [Hrc Hc7].
  apply bind_ok in Eg as ([] & c8 & Eev & Eg). destruct (steady_replays _ _ _ _ (steady_evidence _) Hc7 Eev) as [Hev Hc8].
  apply bind_ok in Eg as (later & c9 & El & Eg). destruct (cp_clock Hp c8 Hc8) as (c10 & El' & Hc10 & _). rewrite El' in El. injection El as <- <-.
  apply lift_ok in Eg as [_ <-].
  destruct (steady_replays _ _ _ _ (steady_recheck _) Hc10 Er) as [Hre _]. apply lift_ok in E as [Hme _].
  apply (settled_bind _ tt); [|apply (settled_bind _ tt); [done|rewrite Hme; apply settled_lift]].
  apply clock_then. intros n Hn.
  assert ((p_starts p <=? n) && (n <? dl') && (dl' <=? p_ends p) = true) as -> by (apply andb_true_iff; split; [apply andb_true_iff; split|]; lia).
  do 3 (eapply settled_bind; [first [apply settled_lift|apply (settled_later lo); [lia|eassumption]]|]). rewrite Hso.
  do 3 (eapply settled_bind; [first [apply settled_lift|apply (settled_later lo); [lia|eassumption]]|]).
  apply clock_then. intros n' Hn'. assert ((n <=? n') && (n' <? dl') = true) as -> by (apply andb_true_iff; lia). apply settled_lift.
Qed.
End Calm.

(** ** One read *)

(** The bytes of the request of an activated binding with [body]. *)
Definition wire_of (a : Active) (body : string) : string := framed (query_path (a_packet a)) (request_headers (a_token a) body) body.

Section Reads.
Context {C : Type} (ports : NativePorts C) (fate : nat → io) (sha256 : string → string).
Context (integral : string → option Z) (self : Settings).
Context (calm : C → Prop) (time : C → Z) (lo hi : Z) (a : Active) (e : Sender).
Notation clock := (p_now (np_adapter ports)).
Notation p := (a_packet a).
Notation target := (p_target p).
Notation pin := (c_packet_pin self).
Notation settled := (settled calm time lo).

(** The instance [a], [e] over the journal [d], with its effects and evidence. *)
Definition stands (d : Db) (tr : list event) (ev : list json) (s : NState C Sender) : Prop :=
  n_active s = Some a ∧ n_extra s = Some e ∧ n_trace s = tr ∧ n_evidence s = ev ∧ s_file (n_world s) = Provisioned d ∧ calm (s_clock (n_world s)).

(** A sound journal of this target and packet, every request of it exact. *)
Record ready (d : Db) (b : Binding) : Prop := {
  rd_binding : binding d = Some b;
  rd_bound : bound target pin b = true;
  rd_sound : sound target d;
  rd_exact : map a_ordinal (allocations d) = map D1Journal.q_ordinal (requests d);
}.
(** What the budgets leave for one read of [bytes] on the wire. *)
Record affords (manifest : json) (cap bytes : Z) (d : Db) (b : Binding) : Prop := {
  af_statements : statement_count manifest = Some 1;
  af_shape : allocation_shape_bad manifest cap bytes (al_limits (sn_allocation e)) = false;
  af_requests : b_ordinal b < limit_of "requests" (al_limits (sn_allocation e));
  af_all : b_ordinal b + extra_statements (allocations d) + 1 <= limit_of "statements" (al_limits (sn_allocation e));
  af_bytes : allocated_bytes (allocations d) + bytes <= limit_of "requestBytes" (al_limits (sn_allocation e));
  af_response : b_response_bytes b + cap <= limit_of "responseBytes" (al_limits (sn_allocation e));
}.

Lemma ready_ordinals d b : ready d b → map D1Journal.q_ordinal (requests d) = seqZ 0 (b_ordinal b) ∧ 0 <= b_ordinal b.
Proof.
  intros [Hb _ (_ & _ & b' & Hb' & Ha) _]. assert (b' = b) as -> by congruence. split; [apply Ha|]. apply (ac_bounds _ _ Ha).
Qed.
Lemma fresh_ordinal d b : ready d b → b_ordinal b ∉ map D1Journal.q_ordinal (requests d).
Proof. intros Hr. destruct (ready_ordinals _ _ Hr) as [-> ?]. rewrite elem_of_seqZ. lia. Qed.

Lemma reserve_read d b manifest cap bytes : ready d b → affords manifest cap bytes d b → ∃ d1 b1,
  reserve_exact_tx target manifest 1 cap bytes (al_limits (sn_allocation e)) None d = (Ok (b_ordinal b), d1)
  ∧ ready d1 b1 ∧ b_ordinal b1 = b_ordinal b + 1 ∧ b_response_bytes b1 = b_response_bytes b + cap
  ∧ request_of (b_ordinal b) d1 = Some (mkRequest (b_ordinal b) (dumps manifest) cap None).
Proof.
  intros Hr [Hst Hsh H1 H2 H3 H4]. pose proof (fresh_ordinal _ _ Hr) as Hf. pose proof Hr as [Hb Hbd Hs He].
  set (b1 := mkBinding (b_target b) (b_packet b) (b_active b) (b_ordinal b + 1) (b_response_bytes b + cap)).
  set (d1 := mkDb (Some b1) (entries d) (requests d ++ [mkRequest (b_ordinal b) (dumps manifest) cap None])
    (allocations d ++ [D1Journal.mkAllocation (b_ordinal b) 1 bytes]) (batches d)).
  assert (reserve_exact_tx target manifest 1 cap bytes (al_limits (sn_allocation e)) None d = (Ok (b_ordinal b), d1)) as E.
  { unfold reserve_exact_tx, bind, the_binding, Prelude.get, lift. rewrite Hb.
    assert (length (requests d) = length (allocations d)) as Hlen by (apply (f_equal length) in He; rewrite !length_map in He; done).
    rewrite bool_decide_true by done. cbn [negb refuse_if].
    rewrite (proj2 (Z.leb_gt _ _)), !(proj2 (Z.ltb_ge _ _)) by lia. cbn [orb refuse_if Z.eqb Pos.eqb]. rewrite bool_decide_false by (by intros []). cbn [refuse_if].
    unfold insert_request. rewrite bool_decide_false by done. unfold insert_allocation. cbn [allocations]. rewrite He, bool_decide_false by done.
    unfold charge_request, update_binding, modify, ret. cbn [binding entries requests allocations batches]. rewrite Hb. reflexivity. }
  exists d1, b1. split; [done|]. split_and!; [split|done|done|].
  - done.
  - done.
  - apply (call_sound target (CReserveExact manifest cap bytes (al_limits (sn_allocation e)) None) d true d1); [simpl; by rewrite Hsh| |done].
    simpl. unfold discard, bind. rewrite Hst. cbn [default from_option id]. rewrite E. done.
  - cbn [allocations requests d1]. rewrite !map_app, He. done.
  - unfold request_of. cbn [requests d1]. clear -Hf. induction (requests d) as [|q l IH]; cbn [List.find app]; [by rewrite Z.eqb_refl|].
    cbn [map] in Hf. apply not_elem_of_cons in Hf as [Hq Hf]. rewrite (proj2 (Z.eqb_neq _ _)) by done. auto.
Qed.

Lemma receive_read d b o q w : ready d b → request_of o d = Some q → q_received q = None → 0 <= w <= q_reserved q → ∃ d1 b1,
  received_tx o w d = (Ok tt, d1) ∧ ready d1 b1 ∧ b_ordinal b1 = b_ordinal b ∧ b_response_bytes b1 = b_response_bytes b - (q_reserved q - w).
Proof.
  intros Hr Hq Hn Hw. pose proof Hr as [Hb Hbd Hs He].
  set (b1 := mkBinding (b_target b) (b_packet b) (b_active b) (b_ordinal b) (b_response_bytes b - (q_reserved q - w))).
  set (rs := map (λ x, if D1Journal.q_ordinal x =? o then mkRequest (D1Journal.q_ordinal x) (q_query x) (q_reserved x) (Some w) else x) (requests d)).
  set (d1 := mkDb (Some b1) (entries d) rs (allocations d) (batches d)).
  assert (received_tx o w d = (Ok tt, d1)) as E.
  { unfold received_tx. rewrite Hq. unfold bind, lift. rewrite Hn. rewrite bool_decide_false by (by intros []).
    rewrite !(proj2 (Z.leb_le _ _)) by lia. cbn [andb negb orb refuse_if]. unfold mark_received, update_binding, modify. cbn [binding]. rewrite Hb. reflexivity. }
  exists d1, b1. split; [done|]. split_and!; [split|done|done]; [done|done| |].
  - apply (call_sound target (CReceived o w) d true d1); [done| |done]. simpl. unfold discard, bind. by rewrite E.
  - cbn [allocations requests d1]. rewrite He. unfold rs. rewrite map_map. apply map_ext. intros x. by destruct (_ =? _).
Qed.

(** *** Steps of a standing instance *)

Context (Hp : calm_ports ports calm time lo hi) (Hfate : ∀ n, fate n = Healthy) (Hlo : 0 <= lo).

Lemma stands_ports {T} (m : M C T) x d tr ev s Q : settled (Ok x) m → stands d tr ev s → (∀ s', stands d tr ev s' → Q x s') → returns (on_ports m) s Q.
Proof.
  intros Hm (H1 & H2 & H3 & H4 & H5 & H6) HQ. destruct (Hm _ H6) as (c & E & Hc & _); [by apply Hp|].
  eexists x, _. unfold on_ports, on_journal, outside. rewrite E. split; [reflexivity|]. apply HQ. by repeat split.
Qed.
Lemma stands_clock d tr ev s Q : stands d tr ev s → (∀ t s', lo <= t < hi → stands d tr ev s' → Q (At t) s') → returns (on_ports clock) s Q.
Proof.
  intros (H1 & H2 & H3 & H4 & H5 & H6) HQ. destruct (cp_clock _ _ _ _ _ Hp _ H6) as (c & E & Hc & _). pose proof (cp_time _ _ _ _ _ Hp _ H6).
  eexists _, _. unfold on_ports, on_journal, outside. rewrite E. split; [reflexivity|]. by apply HQ.
Qed.

Lemma calm_guard dl w : hi <= dl → calm (s_clock w) → ∃ c, D1Journal.guard clock (At dl) w = (Ok tt, mkState (s_file w) (s_calls w) c) ∧ calm c.
Proof.
  intros Hdl Hc. destruct (cp_clock _ _ _ _ _ Hp _ Hc) as (c & E & Hc' & _). pose proof (cp_time _ _ _ _ _ Hp _ Hc). exists c. split; [|done].
  unfold D1Journal.guard. rewrite E. by rewrite (proj2 (Z.leb_le _ _)), (proj2 (Z.ltb_lt _ _)) by lia.
Qed.
Lemma stands_journal {A} dl (body : M Db A) x d b d' tr ev s Q : hi <= dl → ready d b → body d = (Ok x, d') → stands d tr ev s →
  (∀ s', stands d' tr ev s' → Q x s') → returns (on_journal (transaction clock fate target pin (At dl) body)) s Q.
Proof.
  intros Hdl [Hb Hbd _ _] Hbody (H1 & H2 & H3 & H4 & H5 & H6) HQ.
  enough (∃ w, transaction clock fate target pin (At dl) body (n_world s) = (Ok x, w) ∧ s_file w = Provisioned d' ∧ calm (s_clock w)) as (w & E & Hf & Hc).
  { eexists x, _. unfold on_journal. rewrite E. split; [reflexivity|]. apply HQ. by repeat split. }
  unfold D1Journal.transaction, bind. destruct (calm_guard dl (n_world s) Hdl H6) as (c1 & -> & Hc1).
  unfold begin_. cbn [s_file s_calls s_clock]. rewrite H5, Hfate, Hb, Hbd.
  destruct (calm_guard dl (mkState (Provisioned d) (S (s_calls (n_world s))) c1) Hdl Hc1) as (c2 & -> & Hc2). cbn [s_file s_calls s_clock].
  rewrite Hbody. destruct (calm_guard dl (mkState (Provisioned d) (S (s_calls (n_world s))) c2) Hdl Hc2) as (c3 & -> & Hc3). cbn [s_file s_calls s_clock].
  rewrite Hfate. destruct (calm_guard dl (mkState (Provisioned d') (S (s_calls (n_world s))) c3) Hdl Hc3) as (c4 & -> & Hc4). cbn [s_file s_calls s_clock].
  eexists. split; [reflexivity|]. done.
Qed.
Lemma stands_sender d tr ev s Q : stands d tr ev s → Q e s → returns (sender (C:=C)) s Q.
Proof. intros (_ & H & _) HQ. exists e, s. unfold sender. by rewrite H. Qed.
Lemma stands_active d tr ev s Q : stands d tr ev s → Q a s → returns (active (C:=C)) s Q.
Proof. intros (H & _) HQ. exists a, s. unfold active. by rewrite H. Qed.
Lemma stands_event d tr ev s g Q : stands d tr ev s → (∀ s', stands d (tr ++ [g]) ev s' → Q tt s') → returns (record_event g) s Q.
Proof. intros (H1 & H2 & H3 & H4 & H5 & H6) HQ. eexists tt, _. split; [reflexivity|]. apply HQ. repeat split; cbn; congruence. Qed.
Lemma stands_evidence d tr ev s j Q : stands d tr ev s → (∀ s', stands d tr (ev ++ [j]) s' → Q tt s') → returns (add_evidence j) s Q.
Proof. intros (H1 & H2 & H3 & H4 & H5 & H6) HQ. eexists tt, _. split; [reflexivity|]. apply HQ. repeat split; cbn; congruence. Qed.

(** *** The read *)

(** A provider that answers the request of [wire] within [answer_bytes], once the
    sender's check passes. *)
Definition answers (wire : string) (answer_bytes : Z) : Prop := ∀ request check,
  rq_wire request = wire → answer_bytes <= rq_max_response request → settled (Ok tt) check →
  ∀ c, calm c → ∃ response c' meta rows, np_https ports request check c = (Ok response, c') ∧ calm c'
    ∧ complete_answer response (rq_max_response request) meta rows.

(** The calm interval is inside the packet's window and shorter than its timeout; the
    guard has passed in it. *)
Context (Hstart : p_starts p <= lo) (Hshort : hi <= lo + p_timeout p).
Context (dl0 : Z) (c0 c1 : C) (Hcalm : calm c0) (Hguard : guard_sender ports sha256 integral self a e (At dl0) c0 = (Ok tt, c1)).

Lemma guard_settled dl : hi <= dl <= p_ends p → settled (Ok tt) (guard_sender ports sha256 integral self a e (At dl)).
Proof. apply (guard_again ports calm time lo hi Hp sha256 integral self a e dl0 c0 c1 Hcalm Hstart Hguard). Qed.
Lemma stands_guard dl d tr ev s Q : hi <= dl <= p_ends p → stands d tr ev s → (∀ s', stands d tr ev s' → Q tt s') →
  returns (guard_native ports sha256 integral self (At dl)) s Q.
Proof.
  intros Hdl Hs HQ. unfold guard_native. apply returns_bind. apply (stands_sender d tr ev); [done|].
  apply returns_bind. apply (stands_active d tr ev); [done|].
  eapply stands_ports; [by apply guard_settled|done|exact HQ].
Qed.

Context (role sql : string) (params : list string) (dl : Z) (d : Db) (b : Binding) (manifest : json).
Notation cap := (Z.min (p_max_response p) (p_max_total p - b_response_bytes b)).
Notation body := (read_body sql params).
Notation wire := (wire_of a body).
Context (Hdl : hi <= dl <= p_ends p) (Hready : ready d b) (Hafford : affords manifest cap (slen wire) d b) (answer_bytes : Z)
  (Hanswers : answers wire answer_bytes) (Hcap : 0 < answer_bytes <= cap).
Context (Hplan : p_queries p !! Z.to_nat (b_ordinal b) = Some (mkQuery role sql params)).
Context (Hmanifest : al_requests (sn_allocation e) !! Z.to_nat (b_ordinal b) = Some manifest).
Context (Hdigest : manifest_digest manifest = JStr (sha256 body)).

Lemma item_planned {A} o (l : list A) x : 0 <= o → l !! Z.to_nat o = Some x → item o l = Ok x ∧ o < Z.of_nat (length l).
Proof.
  intros Ho Hx. pose proof (lookup_lt_Some _ _ _ Hx). split; [|lia]. unfold item. rewrite (proj2 (Z.ltb_ge o 0)) by lia. cbv zeta. rewrite (proj2 (Z.ltb_ge o 0)) by lia.
  assert (nth_error l (Z.to_nat o) = Some x) as ->; [|done]. clear -Hx. revert Hx. generalize (Z.to_nat o) as n. induction l as [|y l IH]; intros [|n] Hx; try done. by apply IH.
Qed.

Lemma plan_returns tr ev s Q : stands d tr ev s → (∀ s', stands d tr ev s' → Q (a, e, b_ordinal b, manifest, cap, body) s') →
  returns (plan_request ports fate sha256 integral self role sql params (At dl) None) s Q.
Proof.
  intros Hs HQ. destruct (ready_ordinals _ _ Hready) as [_ Ho]. unfold plan_request.
  apply returns_bind. apply (stands_guard dl d tr ev); [done|done|]. clear s Hs. intros s Hs.
  apply returns_bind. apply (stands_sender d tr ev); [done|]. apply returns_bind. apply (stands_active d tr ev); [done|].
  apply returns_bind. apply (stands_journal dl _ (b_ordinal b, p_max_total p - b_response_bytes b) d b d tr ev); [lia|done| |done|].
  { unfold bind, the_binding. by rewrite (rd_binding _ _ Hready). }
  clear s Hs. intros s Hs. cbn [fst snd]. destruct (item_planned _ _ _ Ho Hplan) as [Eq Hlt]. destruct (item_planned _ _ _ Ho Hmanifest) as [Em _].
  apply returns_bind. apply (returns_lift _ tt); [by rewrite (proj2 (Z.ltb_lt _ _))|].
  apply returns_bind. apply (returns_lift _ _ _ _ Eq). apply returns_bind. apply (returns_lift _ tt); [by rewrite bool_decide_true|].
  apply returns_bind. apply returns_ret. apply returns_bind. apply (returns_lift _ _ _ _ Em).
  apply returns_bind. apply (returns_lift _ tt); [rewrite Hdigest; cbn; by rewrite bool_decide_true|].
  apply returns_bind. apply (returns_lift _ tt); [by rewrite (proj2 (Z.ltb_lt _ _)) by lia|].
  apply returns_ret. by apply HQ.
Qed.

Lemma send_returns tr ev s Q : stands d tr ev s → (∀ request response d1 b1 meta rows s',
    hi <= rq_deadline request <= p_ends p → complete_answer response cap meta rows → ready d1 b1 → b_ordinal b1 = b_ordinal b + 1 →
    b_response_bytes b1 = b_response_bytes b + cap → request_of (b_ordinal b) d1 = Some (mkRequest (b_ordinal b) (dumps manifest) cap None) →
    stands d1 (tr ++ [Sent (b_ordinal b) None body wire]) ev s' → Q (request, response) s') →
  returns (send_request ports fate sha256 integral self a e (b_ordinal b) manifest cap body (At dl) None) s Q.
Proof.
  intros Hs HQ. destruct (reserve_read d b manifest cap (slen wire) Hready Hafford) as (d1 & b1 & E & Hr1 & Ho1 & Hb1 & Hq1).
  unfold send_request. fold (wire_of a body). apply returns_bind. unfold reserve_exact_request.
  rewrite (af_shape _ _ _ _ _ Hafford). cbn [refuse_if]. rewrite (af_statements _ _ _ _ _ Hafford).
  apply (stands_journal dl _ (b_ordinal b) d b d1 tr ev); [lia|done|exact E|done|]. clear s Hs. intros s Hs.
  apply returns_bind. apply (returns_lift _ tt); [by rewrite Z.eqb_refl|].
  apply returns_bind. apply (stands_guard dl d1 tr ev); [done|done|]. clear s Hs. intros s Hs.
  apply returns_bind. apply (stands_clock d1 tr ev); [done|]. clear s Hs. intros t s Ht Hs.
  apply returns_bind. apply (returns_lift _ t); [done|]. apply returns_bind. apply (returns_lift _ dl); [done|].
  set (request := http_request a body cap dl t t).
  assert (hi <= rq_deadline request <= p_ends p) as Hrq by (cbn; lia).
  apply returns_bind. apply (stands_event d1 tr ev); [done|]. clear s Hs. intros s Hs.
  pose proof Hs as (H1 & H2 & H3 & H4 & H5 & H6).
  destruct (Hanswers request (guard_sender ports sha256 integral self a e (At (rq_deadline request))) eq_refl (proj2 Hcap)
    (guard_settled _ Hrq) _ H6) as (response & c' & meta & rows & Er & Hc' & Hans).
  apply returns_bind. eexists response, _. unfold on_ports, on_journal, outside. rewrite Er. split; [reflexivity|].
  apply returns_ret. by apply (HQ request response d1 b1 meta rows).
Qed.

Lemma accept_returns request response d1 b1 meta rows w tr ev s Q :
  hi <= rq_deadline request <= p_ends p → complete_answer response cap meta rows → rs_wire_bytes response = Some w →
  ready d1 b1 → request_of (b_ordinal b) d1 = Some (mkRequest (b_ordinal b) (dumps manifest) cap None) → stands d1 tr ev s →
  (∀ d2 b2 s', ready d2 b2 → b_ordinal b2 = b_ordinal b1 → b_response_bytes b2 = b_response_bytes b1 - (cap - w) →
    stands d2 (tr ++ [Accounted (b_ordinal b) w]) (ev ++ [read_evidence sha256 (b_ordinal b) manifest (rs_body response) w]) s' →
    Q (map canon rows, canon (JObj meta), rs_body response) s') →
  returns (accept_response ports fate sha256 integral self a (b_ordinal b) manifest cap request response None) s Q.
Proof.
  intros Hrq Hans Hw Hr1 Hq1 Hs HQ. pose proof (complete_read _ _ _ _ Hans) as Hread. destruct Hans as [Hst Hh Hbody (w' & Hw' & Hcapw) _ _].
  assert (w' = w) as -> by congruence. assert (0 <= slen (rs_body response)) by apply slen_nonneg.
  destruct (receive_read d1 b1 _ _ w Hr1 Hq1 eq_refl) as (d2 & b2 & E & Hr2 & Ho2 & Hb2); [cbn; lia|].
  unfold accept_response. apply returns_bind. apply (stands_guard (rq_deadline request) d1 tr ev); [done|done|]. clear s Hs. intros s Hs.
  apply returns_bind. apply (returns_lift _ tt); [by rewrite Hst, Hh|].
  apply returns_bind. apply (returns_lift _ w); [by rewrite Hw|].
  apply returns_bind. apply (returns_lift _ tt); [by rewrite !(proj2 (Z.leb_le _ _)) by lia|].
  apply returns_bind. apply (returns_lift _ _ _ _ Hread).
  apply returns_bind. apply (stands_journal (rq_deadline request) _ tt d1 b1 d2 tr ev); [lia|done|exact E|done|]. clear s Hs. intros s Hs.
  apply returns_bind. apply (stands_event d2 tr ev); [done|]. clear s Hs. intros s Hs.
  apply returns_bind. eapply stands_guard; [done|exact Hs|]. clear s Hs. intros s Hs.
  apply returns_bind. eapply stands_evidence; [exact Hs|]. clear s Hs. intros s Hs.
  apply returns_ret. by apply (HQ d2 b2).
Qed.

Lemma read_returns tr ev s :
  str_in role ["observer"; "snapshot"] = true → stands d tr ev s →
  ∃ rows meta response w d' b' s',
    query_native ports fate sha256 integral self role sql params (At dl) s = (Ok (map canon rows, canon (JObj meta)), s')
    ∧ complete_answer response cap meta rows ∧ rs_wire_bytes response = Some w
    ∧ stands d' (tr ++ [Sent (b_ordinal b) None body wire; Accounted (b_ordinal b) w])
        (ev ++ [read_evidence sha256 (b_ordinal b) manifest (rs_body response) w]) s'
    ∧ ready d' b' ∧ b_ordinal b' = b_ordinal b + 1 ∧ b_response_bytes b' = b_response_bytes b + w.
Proof.
  intros Hrole Hs.
  enough (returns (query_native ports fate sha256 integral self role sql params (At dl)) s (λ rm s', ∃ rows meta response w d' b',
    rm = (map canon rows, canon (JObj meta)) ∧ complete_answer response cap meta rows ∧ rs_wire_bytes response = Some w
    ∧ stands d' (tr ++ [Sent (b_ordinal b) None body wire; Accounted (b_ordinal b) w])
        (ev ++ [read_evidence sha256 (b_ordinal b) manifest (rs_body response) w]) s'
    ∧ ready d' b' ∧ b_ordinal b' = b_ordinal b + 1 ∧ b_response_bytes b' = b_response_bytes b + w)) as H.
  { destruct H as (rm & s' & E & rows & meta & response & w & d' & b' & -> & H). by exists rows, meta, response, w, d', b', s'. }
  unfold query_native. apply returns_bind. apply (returns_lift _ tt); [by rewrite Hrole|]. apply returns_bind.
  unfold request_. apply returns_try. apply returns_bind. apply (plan_returns tr ev); [done|]. clear s Hs. intros s Hs.
  apply returns_bind. apply (send_returns tr ev); [done|]. clear s Hs.
  intros request response d1 b1 meta rows s Hrq Hans Hr1 Ho1 Hb1 Hq1 Hs. pose proof (ca_wire _ _ _ _ Hans) as (w & Hw & _).
  eapply (accept_returns request response d1 b1 meta rows w); try done. clear s Hs. intros d2 b2 s Hr2 Ho2 Hb2 Hs.
  apply returns_ret. exists rows, meta, response, w, d2, b2. rewrite <- app_assoc in Hs. split_and!; try done; lia.
Qed.
End Reads.

(** A sender in a calm interval inside its packet's window and shorter than its
    timeout, over a sound file system, whose guard has passed once. *)
Record healthy {C} (ports : NativePorts C) (fate : nat → io) (sha256 : string → string) (integral : string → option Z) (self : Settings)
    (calm : C → Prop) (time : C → Z) (lo hi : Z) (a : Active) (e : Sender) : Prop := {
  h_calm : calm_ports ports calm time lo hi;
  h_fate : ∀ n, fate n = Healthy;
  h_window : 0 <= lo ∧ p_starts (a_packet a) <= lo ∧ hi <= lo + p_timeout (a_packet a);
  h_guard : ∃ dl c c', calm c ∧ guard_sender ports sha256 integral self a e (At dl) c = (Ok tt, c');
}.
(** The next request of the plan is the read [role], [sql], [params], which the
    budgets afford; the provider answers it within the cap. *)
Record next_read {C} (ports : NativePorts C) (sha256 : string → string) (calm : C → Prop) (time : C → Z) (lo : Z) (a : Active) (e : Sender)
    (d : Db) (b : Binding) (role sql : string) (params : list string) (manifest : json) (cap : Z) : Prop := {
  nr_role : str_in role ["observer"; "snapshot"] = true;
  nr_cap : cap = Z.min (p_max_response (a_packet a)) (p_max_total (a_packet a) - b_response_bytes b);
  nr_plan : p_queries (a_packet a) !! Z.to_nat (b_ordinal b) = Some (mkQuery role sql params);
  nr_manifest : al_requests (sn_allocation e) !! Z.to_nat (b_ordinal b) = Some manifest;
  nr_digest : manifest_digest manifest = JStr (sha256 (read_body sql params));
  nr_affords : affords e manifest cap (slen (wire_of a (read_body sql params))) d b;
  nr_answers : ∃ n, 0 < n <= cap ∧ answers ports calm time lo (wire_of a (read_body sql params)) n;
}.

(** C7: A planned read is answered, when the sender is healthy (files and pins stay as
    they are, the clock stays inside one timeout and the window of the packet, the
    journal's connections hold, and the guard has passed once in that interval), the
    journal is sound and stands at this ordinal, its budgets have room for the request
    ([affords]), and the provider answers it completely within the cap: the read returns
    the rows and the metadata of that answer, sends exactly its own request once and
    records its evidence, and leaves the journal sound and ready at the next ordinal,
    charged the bytes of the answer. *)
Theorem read_answered {C} ports fate sha256 integral self (calm : C → Prop) time lo hi a e d b role sql params manifest cap dl tr ev s :
  healthy ports fate sha256 integral self calm time lo hi a e →
  ready self a d b → next_read ports sha256 calm time lo a e d b role sql params manifest cap →
  hi <= dl <= p_ends (a_packet a) → stands calm a e d tr ev s →
  ∃ rows meta response w d' b' s',
    query_native ports fate sha256 integral self role sql params (At dl) s = (Ok (map canon rows, canon (JObj meta)), s')
    ∧ complete_answer response cap meta rows ∧ rs_wire_bytes response = Some w
    ∧ stands calm a e d' (tr ++ [Sent (b_ordinal b) None (read_body sql params) (wire_of a (read_body sql params)); Accounted (b_ordinal b) w])
        (ev ++ [read_evidence sha256 (b_ordinal b) manifest (rs_body response) w]) s'
    ∧ ready self a d' b' ∧ b_ordinal b' = b_ordinal b + 1 ∧ b_response_bytes b' = b_response_bytes b + w.
Proof.
  intros [Hp Hf (H0 & H1 & H2) (dl0 & c0 & c1 & Hc & Hg)] Hr [Hrole -> Hplan Hman Hdig Haff (n & Hn & Hans)] Hdl Hs.
  exact (read_returns ports fate sha256 integral self calm time lo hi a e Hp Hf H0 H1 H2 dl0 c0 c1 Hc Hg role sql params dl d b manifest
    Hdl Hr Haff n Hans Hn Hplan Hman Hdig tr ev s Hrole Hs).
Qed.
