(* ===== verification/NativeExample.v ===== *)
(** The positional sender run: a packet, its evidence, an allocation of one write
    between two reads, and a provider over the control table. *)
From S2P Require Import Prelude Json JsonParse JsonRoundTrip Binary64 Oracle Evidence Control D1Port D1Journal D1JournalFacts D1Adapter D1Campaign D1Target D1Rehearsal ExactCount ExactCountFacts NativeBinding NativeSender NativeSenderFacts NativeAllocation NativeLiveness.

(** ** Retained documents *)

(** A digest that tells texts of different lengths apart; the source files have
    their pinned digests. *)
Definition lab_sha256 (bytes : string) : string :=
  let pinned := site_sha256 bytes in
  if bool_decide (pinned = EmptyString) then hex_digits 64 (slen bytes) else pinned.

Definition lab_account : string := "0123456789abcdef0123456789abcdef".
Definition lab_database : string := "00000000-1111-2222-3333-444444444444".
Definition lab_target : string := lab_account +:+ "/" +:+ lab_database.
Definition lab_token : string := "a-token-of-the-lab".
Definition lab_pins : json := JObj [("probes/pmb1-native-d1-binding/binding.py", JStr (lab_sha256 "binding"))].
Definition lab_intent : Intent := mkIntent "close-1" "close" "41" five_minutes lab_target CANDIDATE 1.
Definition lab_select : string := "SELECT COUNT(*) AS n FROM maintenance_control".
Definition lab_close : string := Eval vm_compute in match variant_of CLOSE_SQL with Ok s => s | Err _ => EmptyString end.
Definition lab_batch : Batch := mkBatch lab_intent lab_close POSITIONAL_BOUNDARY.

(** The planned requests, in order: a read, the write, a read. *)
Definition lab_queries : list Query := [mkQuery "observer" READBACK_SQL []; mkQuery "writer" lab_close ["41"]; mkQuery "snapshot" lab_select []].
Definition lab_requests : list json :=
  [read_manifest lab_sha256 (JStr READBACK_SQL) (JArr []);
   manifest_of lab_sha256 POSITIONAL_BOUNDARY (body_of lab_batch) (batch_statements lab_close "41");
   read_manifest lab_sha256 (JStr lab_select) (JArr [])].
Definition limits_json (requests statements : Z) : json :=
  JObj [("requests", JInt requests); ("statements", JInt statements); ("requestBytes", JInt 65536); ("responseBytes", JInt 65536)].
Definition allocation_json (requests : list json) (limits : json) : json :=
  JObj [("kind", JStr "pmb1-native-positional-allocation-v1"); ("protocol", JStr POSITIONAL_BOUNDARY);
        ("intents", JArr [intent_json lab_intent]); ("requests", JArr requests); ("limits", limits)].
Definition allocation_text : string := Eval vm_compute in canonical (allocation_json lab_requests (limits_json 3 4)).

(** The files beside the packet: the allocation, and texts that are only pinned. *)
Definition retained_text (path : string) : string := if bool_decide (path = "/allocation") then allocation_text else path.
Definition evidence_path (k : string) : string := "/" +:+ k.
Definition ref_of (retained : string → string) (k : string) : EvidenceRef := mkEvidenceRef (evidence_path k) (lab_sha256 (retained (evidence_path k))).
Notation lab_ref := (ref_of retained_text).
Definition packet_json (ref : string → EvidenceRef) (queries : list Query) : json :=
  JObj [("kind", JStr "pmb1-finite-native-d1-operator-v1"); ("accountId", JStr lab_account); ("databaseId", JStr lab_database);
    ("endpointAddress", JStr "192.0.2.1"); ("targetId", JStr lab_target); ("candidate", JStr CANDIDATE); ("sourcePins", lab_pins);
    ("credentialSha2_256", JStr (lab_sha256 lab_token)); ("starts", JInt 0); ("ends", JInt 300); ("clockDomain", JStr "monotonic");
    ("timeoutSeconds", JInt 60); ("maxResponseBytes", JInt 4096); ("maxTotalBytes", JInt 65536);
    ("queries", JArr (map descriptor_json queries));
    ("independentEvidence", JObj (map (λ k, (k, ref_json (ref k))) evidence_keys));
    ("profileSha2_256", JStr (lab_sha256 "profile"))].
Definition packet_text : string := Eval vm_compute in canonical (packet_json lab_ref lab_queries).
Definition packet_pin : string := Eval vm_compute in lab_sha256 packet_text.
Definition lab_file (path : string) : string := if bool_decide (path = "/packet") then packet_text else retained_text path.

Definition admission_of (ref : string → EvidenceRef) (pin : string) : ReviewedAdmission :=
  mkReviewedAdmission "reviewer" pin POSITIONAL_BOUNDARY lab_pins lab_target "monotonic" 0 300 (lab_sha256 lab_token) (ref "packet-review")
    (map (λ k, (k, ref (default k (dict_get k fact_binding)))) fact_keys).
Definition lab_admission : ReviewedAdmission := admission_of lab_ref packet_pin.
Definition lab_self : Settings := mkSettings "/packet" packet_pin (mkSourceDescriptor CANDIDATE site_manifest).

(** ** Ports *)

(** The control table behind the provider, and a clock that gains [step] at every
    reading. *)
Record Lab := mkLab { lab_now : Z; lab_rows : list ControlRow }.

Section Lab_.
Context (step : Z).

Definition lab_clock : M Lab stamp := λ s, (Ok (At (lab_now s)), mkLab (lab_now s + step) (lab_rows s)).

Definition lab_result (rows : list json) : json :=
  JObj [("success", JBool true); ("results", JArr rows); ("meta", JObj primary_only)].
Definition lab_answer (results : list json) : Response :=
  let body := canonical (JObj [("success", JBool true); ("errors", JArr []); ("messages", JArr []); ("result", JArr results)]) in
  mkResponse 200 [("content-type", "application/json")] body (Some (slen body + 100)).
Definition cell_json (v : pyval) : json := match v with PStr s => JStr s | _ => JNull end.
Definition row_json (r : DictRow) : json := JObj (map (λ kv, (fst kv, cell_json (snd kv))) r).
(** The provider runs the write of the batch and answers the readback; any other
    select counts the rows. *)
Definition lab_provider (wire : string) (t : list ControlRow) : list json * list ControlRow :=
  if contains (dumps (JStr lab_close)) wire then
    match fixed no_real (mkFixedUpdate CLOSE_SQL "41") t with
    | Ok (n, t') => ([lab_result []; lab_result [JObj [("exact_change_count", JStr (str_of_int n))]]], t')
    | Err _ => ([], t)
    end
  else if contains (dumps (JStr READBACK_SQL)) wire then ([lab_result (map row_json (readback no_real t))], t)
  else ([lab_result [JObj [("n", JInt (Z.of_nat (length t)))]]], t).
Definition lab_https (request : HttpRequest) (check : M Lab unit) : M Lab Response :=
  check ;*
  (λ s, let (results, t) := lab_provider (rq_wire request) (lab_rows s) in (Ok (lab_answer results), mkLab (lab_now s) t)).

Definition lab_adapter : Ports Lab := {|
  p_now := lab_clock;
  p_read_bytes name := ret (site_file name);
  p_recheck := ret true;
  p_read _ _ := raise (External "unused");
  p_dispatch _ _ := raise (External "unused");
  p_confirmation _ _ := raise (External "unused");
|}.
Definition lab_ports : NativePorts Lab := {|
  np_adapter := lab_adapter;
  np_plain_path _ := ret true;
  np_read path := ret (lab_file path);
  np_source_pins := ret lab_pins;
  np_https := lab_https;
|}.
Definition lab_address (j : json) : res string :=
  match j with JStr s => Ok s | _ => Err (Refusal "execution_provider_address") end.
Definition lab_credential : Credential Lab :=
  mkCredential _ (er_path (lab_ref "protectedDelivery")) (er_pin (lab_ref "protectedDelivery")) (λ _ _ _ _ _ _, ret tt) (ret (PStr lab_token)).
Definition no_integral (_ : string) : option Z := None.

Definition lab_at : State Lab := mkState (Provisioned (empty_db lab_target packet_pin)) 0 (mkLab 0 [control_at 41 "open"]).
Definition activated : NState Lab Sender :=
  (activate_native lab_ports sound_io lab_sha256 no_integral lab_address lab_self (Some lab_credential) (Some lab_admission) (fresh lab_at)).2.
End Lab_.

(** ** A history *)

(** The first instance reads; the adapter latches and claims its intent; a second
    instance dispatches, repeats the dispatch, and reads twice. *)
Definition first_life : list (deed Lab) :=
  [Activate (Some lab_credential) (Some lab_admission); Query_ "observer" READBACK_SQL [] (At 300)].
Definition second_life : list (deed Lab) :=
  [Activate (Some lab_credential) (Some lab_admission); Dispatch lab_batch (At 300); Dispatch lab_batch (At 300);
   Query_ "snapshot" lab_select [] (At 300); Query_ "snapshot" lab_select [] (At 300)].
Definition lab_history : list (happening Lab) :=
  [Life lab_self first_life; Adapter lab_target packet_pin (CLatch lab_intent) (At 250);
   Adapter lab_target packet_pin (CClaimDispatch "close-1") (At 250); Life lab_self second_life].
Notation lab_run := (history_of (lab_ports 1) sound_io lab_sha256 no_integral lab_address lab_history lab_at).

(** Every request is sent once, in the order of the plan, and the table is closed. *)
Lemma lab_outcome : let (w, evs) := lab_run in
  (ordinals evs, batched evs, lab_rows (s_clock w)) = ([0; 1; 2], ["close-1"], [control_at 42 "closed"]).
Proof. vm_compute. reflexivity. Qed.

Lemma sender_no_replay_witness :
  let (w, evs) := lab_run in ordinals evs = [0; 1; 2] ∧ NoDup (ordinals evs) ∧ batched evs = ["close-1"] ∧ accepted evs <= MAX_TOTAL_BYTES.
Proof.
  pose proof (sender_no_replay (lab_ports 1) sound_io lab_sha256 no_integral lab_address lab_target packet_pin lab_history lab_at eq_refl) as H.
  pose proof lab_outcome as E. destruct lab_run as [w evs]. destruct H as (Hn & _ & _ & _ & Ha).
  assert (ordinals evs = [0; 1; 2] ∧ batched evs = ["close-1"]) as [Ho Hb] by (split; congruence).
  exact (conj Ho (conj Hn (conj Hb Ha))).
Defined.

(** ** A read with a clock that stands still *)

Definition still_lab : Lab := mkLab 0 [control_at 41 "open"].
Definition idle : NState Lab Sender := Eval vm_compute in activated 0.
Definition idle_active : Active := Eval vm_compute in
  match n_active idle with Some a => a | None => mkActive (mkPacket JNull "" "" "" "" 0 0 0 0 0 [] []) "" "" end.
Definition idle_sender : Sender := Eval vm_compute in
  match n_extra idle with Some e => e | None => mkSender "" "" (mkAllocation JNull [] [] []) lab_admission end.
Definition lab_db : Db := empty_db lab_target packet_pin.
Notation is_still := (λ c, c = still_lab).

Lemma idle_stands : stands is_still idle_active idle_sender lab_db [Delivered] [] idle.
Proof. unfold stands. split_and!; vm_compute; reflexivity. Qed.

Lemma settled_still {T} (r : res T) (m : M Lab T) : m still_lab = (r, still_lab) → settled is_still (λ _, 0) 0 r m.
Proof. intros E c -> _. exists still_lab. split; [done|]. split; [done|lia]. Qed.
Lemma lab_calm : calm_ports (lab_ports 0) is_still (λ _, 0) 0 1.
Proof.
  split.
  - intros c ->. lia.
  - intros c ->. exists still_lab. split; [reflexivity|]. split; [done|lia].
  - intros p. exists (Ok true). by apply settled_still.
  - intros p. exists (Ok (lab_file p)). by apply settled_still.
  - exists (Ok lab_pins). by apply settled_still.
  - exists (Ok true). by apply settled_still.
Qed.
Lemma lab_healthy : healthy (lab_ports 0) sound_io lab_sha256 no_integral lab_self is_still (λ _, 0) 0 1 idle_active idle_sender.
Proof.
  split; [apply lab_calm|done|vm_compute; done|].
  exists 300, still_lab, still_lab. split; [done|]. vm_compute. reflexivity.
Qed.

Definition lab_binding : Binding := mkBinding lab_target packet_pin None 0 0.
Lemma lab_ready : ready lab_self idle_active lab_db lab_binding.
Proof. split; [reflexivity|vm_compute; reflexivity| |reflexivity]. exact (sound_empty lab_target packet_pin). Qed.

Definition readback_manifest : json := Eval vm_compute in canon (read_manifest lab_sha256 (JStr READBACK_SQL) (JArr [])).
Definition readback_rows : list json := Eval vm_compute in map row_json (readback no_real [control_at 41 "open"]).
Definition readback_answer : Response := lab_answer [lab_result readback_rows].

Lemma readback_objects : row_objects readback_rows.
Proof. constructor; [|constructor]. split; [apply (bool_decide_unpack (NoDup _)); vm_compute; exact I|repeat split]. Qed.

Lemma readback_answered : answers (lab_ports 0) is_still (λ _, 0) 0 (wire_of idle_active (read_body READBACK_SQL [])) 2048.
Proof.
  intros request check Hw Hcap Hcheck c ->. destruct (Hcheck still_lab eq_refl) as (c' & E & -> & _); [done|].
  exists readback_answer, still_lab, primary_only, readback_rows.
  assert (lab_provider (wire_of idle_active (read_body READBACK_SQL [])) [control_at 41 "open"] = ([lab_result readback_rows], [control_at 41 "open"])) as Ep
    by (vm_compute; reflexivity).
  split_and!; [|done|].
  - cbn [np_https lab_ports]. unfold lab_https, bind. rewrite E, Hw. cbn [lab_rows still_lab]. rewrite Ep. reflexivity.
  - assert (slen (rs_body readback_answer) <= slen (rs_body readback_answer) + 100 <= 2048) as Hlen by (split; vm_compute; discriminate).
    split; [reflexivity|reflexivity|reflexivity| | |].
    + exists (slen (rs_body readback_answer) + 100). split; [reflexivity|]. cbn [rq_max_response] in *. lia.
    + exact primary_only_meta.
    + exact readback_objects.
Qed.

Lemma readback_next : next_read (lab_ports 0) lab_sha256 is_still (λ _, 0) 0 idle_active idle_sender lab_db lab_binding "observer" READBACK_SQL []
  readback_manifest 4096.
Proof.
  split; [reflexivity|reflexivity|reflexivity|reflexivity|vm_compute; reflexivity| |exists 2048; split; [lia|apply readback_answered]].
  split; [reflexivity|vm_compute; reflexivity|vm_compute; done..].
Qed.

Lemma read_answered_witness : ∃ rows meta s',
  query_native (lab_ports 0) sound_io lab_sha256 no_integral lab_self "observer" READBACK_SQL [] (At 300) idle = (Ok (map canon rows, canon (JObj meta)), s').
Proof.
  destruct (read_answered (lab_ports 0) sound_io lab_sha256 no_integral lab_self is_still (λ _, 0) 0 1 idle_active idle_sender lab_db lab_binding
    "observer" READBACK_SQL [] readback_manifest 4096 300 [Delivered] [] idle lab_healthy lab_ready readback_next
    ltac:(vm_compute; done) idle_stands) as (rows & meta & response & w & d' & b' & s' & E & _).
  exists rows, meta, s'. exact E.
Defined.

(** ** What was sent, and what was allocated *)

Definition lab_first : list event := Eval vm_compute in n_trace (life (lab_ports 1) sound_io lab_sha256 no_integral lab_address lab_self first_life (fresh lab_at)).
Definition lab_sent : event := Eval vm_compute in nth 1 lab_first Delivered.

Lemma sender_sends_planned_witness : match lab_sent with
  | Sent o b body wire => (o, b, body) = (0, None, read_body READBACK_SQL [])
      ∧ ∃ before d after r role sql params dl batch a e, first_life = before ++ d :: after
          ∧ starts (lab_ports 1) sound_io lab_sha256 no_integral lab_self d
              (life (lab_ports 1) sound_io lab_sha256 no_integral lab_address lab_self before (fresh lab_at)) r role sql params dl batch
          ∧ credentialed lab_sha256 no_integral a ∧ admitted lab_sha256 no_integral lab_self e
          ∧ as_planned lab_sha256 no_integral a e o b body wire
          ∧ sends (lab_ports 1) sound_io lab_sha256 no_integral lab_self role sql params dl batch r a e o body
  | _ => False
  end.
Proof.
  assert (n_trace (life (lab_ports 1) sound_io lab_sha256 no_integral lab_address lab_self first_life (fresh lab_at)) = lab_first) as E
    by (vm_compute; reflexivity).
  split; [vm_compute; reflexivity|].
  apply (sender_sends_planned (lab_ports 1) sound_io lab_sha256 no_integral lab_address lab_self first_life lab_at). rewrite E.
  right. left.
Defined.

Definition document_of (text : string) : json := match strict_json text with Ok j => j | Err _ => JNull end.
Definition lab_packet : json := Eval vm_compute in document_of packet_text.
Definition lab_document : json := Eval vm_compute in document_of allocation_text.
Lemma lab_requests_distinct : Forall distinct_keys (al_requests (sn_allocation idle_sender)).
Proof. repeat (apply List.Forall_cons; [apply (bool_decide_unpack (NoDup _)); vm_compute; exact I|]). apply List.Forall_nil. Qed.
Lemma allocation_sound_witness : ∃ root intents queries,
  allocated lab_sha256 no_integral lab_packet (sn_allocation idle_sender) root intents queries ∧ Z.of_nat (length queries) = 3
  ∧ Z.of_nat (length queries + length intents) <= 4.
Proof.
  destruct (fst_is (validate_allocation (lab_ports 1) lab_sha256 no_integral lab_packet lab_document (fresh lab_at)) (Ok (sn_allocation idle_sender)))
    as [s' E]; [vm_compute; reflexivity|].
  destruct (allocation_sound _ _ _ _ _ _ _ _ E lab_requests_distinct) as (root & intents & queries & H & Hq & Hs & _).
  exists root, intents, queries. split; [exact H|]. split; [exact Hq|exact Hs].
Defined.
