(* ===== verification/NativeCustody.v ===== *)
(** probes/pmb1-native-d1-binding/native_custody.py: the one-use protected credential,
    the native controller - the adapter over the positional sender - and the
    append-only custodian of its invocations.

    The controller overrides [_dispatch_reserved] of the adapter: [check], [observe]
    and the reservations are those of D1Adapter. A custodian has a clock of its own.
    The rows of its file hold what [invoke] wrote. *)
From S2P Require Import Prelude Json JsonParse JsonRoundTrip Oracle Evidence Control D1Port D1Journal D1Adapter D1Campaign ExactCount NativeBinding NativeSender.

Definition EVIDENCE_BYTES : Z := 2 * 1024 * 1024.

(** [json.loads(raw)] of bytes in UTF-8 without a byte order mark: the encodings that
    it would detect, UTF-16 and UTF-32, are refused here. *)
Definition loads_bytes (raw : string) : res json := let? text := utf8_decode raw in loads text.
(** [value == ...] of [value.get(k)] *)
Definition get_or_none (k : string) (d : list (string * json)) : json := default JNull (dict_get k d).

(** ** Protected delivery *)

(** What a [ProtectedCredential] is made of, and what changes in it. *)
Record Protected := mkProtected {
  pc_review_path : string;
  pc_review_pin : string;
  pc_packet_pin : string;
  pc_target : string;
  pc_source_pins : json;
  pc_deadline : stamp;
}.
Record Delivery := mkDelivery { dv_used : bool; dv_last_time : Z }.
Definition new_delivery : Delivery := mkDelivery false (-1).
Definition review_keys : list string := ["kind"; "packetSha2_256"; "target"; "sourcePins"; "credential"; "grant"; "custody"].

Section Credential.
(** Ports over a world that holds the credential object. *)
Context {C : Type} (clock : M C stamp) (plain_file : string → M C bool) (read_file : string → M C string).
Context (sha256 : string → string) (integral : string → option Z).
Context (delivery : C → Delivery) (set_delivery : Delivery → C → C) (pc : Protected).
Notation eqb := (py_eqb integral).

(** [_pin(path, expected, limit)] *)
Definition _pin (path expected : json) (limit : Z) : M C string :=
  match path with
  | JStr p =>
      let* plain := plain_file p in
      lift (require plain "native_custody_exact_path") ;*
      lift (require (digest_of expected) "native_custody_pin") ;*
      let* raw := read_file p in
      lift (require ((slen raw <=? limit) && eqb (JStr (sha256 raw)) expected) "native_custody_retained_pin") ;*
      ret raw
  | _ => raise (External "TypeError")
  end.

(** [self._guard()] *)
Definition credential_guard : M C unit :=
  let* now := clock in
  let* d := gets delivery in
  match now, pc_deadline pc with
  | At n, At e =>
      lift (require ((0 <=? n) && (n <? e) && (dv_last_time d <=? n)) "native_credential_deadline") ;*
      modify (λ c, set_delivery (mkDelivery (dv_used (delivery c)) n) c)
  | _, _ => raise (Refusal "native_credential_deadline")
  end.

Definition review_file : M C string := _pin (JStr (pc_review_path pc)) (JStr (pc_review_pin pc)) EVIDENCE_BYTES.
(** A pinned item of the record, [{"path", "sha2_256"}]. *)
Definition review_item (name : string) (record : list (string * json)) : res (json * json) :=
  match field name record with
  | JObj r => require (same_keys r ["path"; "sha2_256"]) "native_credential_review_record" ;? Ok (field "path" r, field "sha2_256" r)
  | _ => Err (Refusal "native_credential_review_record")
  end.
Definition check_provenance (grant custody : json * json) : M C unit :=
  _pin (fst grant) (snd grant) EVIDENCE_BYTES ;* _pin (fst custody) (snd custody) EVIDENCE_BYTES ;* ret tt.

(** [self()]: spent before anything is read. *)
Definition deliver : M C pyval :=
  let* d := gets delivery in
  modify (λ c, set_delivery (mkDelivery true (dv_last_time (delivery c))) c) ;*
  lift (require (negb (dv_used d)) "native_credential_delivery_spent") ;*
  credential_guard ;*
  let* raw := review_file in
  let* document := lift (loads_bytes raw) in
  let* record := lift (closed document review_keys "native_credential_review_shape") in
  lift (require (eqb (field "kind" record) (JStr "pmb1-reviewed-protected-delivery-v1")
                 && eqb (field "packetSha2_256" record) (JStr (pc_packet_pin pc))
                 && eqb (field "target" record) (JStr (pc_target pc))
                 && eqb (field "sourcePins" record) (pc_source_pins pc)) "native_credential_review_binding") ;*
  let* credential := lift (review_item "credential" record) in
  let* grant := lift (review_item "grant" record) in
  let* custody := lift (review_item "custody" record) in
  check_provenance grant custody ;*
  credential_guard ;*
  let* token := _pin (fst credential) (snd credential) 4096 in
  lift (require (token_grammar token) "native_credential_exact_bytes") ;*
  review_file ;*
  check_provenance grant custody ;*
  credential_guard ;*
  ret (PStr token).

Definition validate_binding (packet_pin target : string) (source_pins : json) (credential_pin : string) (grant custody : json) : M C unit :=
  credential_guard ;*
  lift (require (bool_decide (pc_packet_pin pc = packet_pin) && bool_decide (pc_target pc = target) && eqb (pc_source_pins pc) source_pins)
          "native_credential_admission_binding") ;*
  let* raw := review_file in
  let* document := lift (loads_bytes raw) in
  lift (require (match document with
                 | JObj record =>
                     match get_or_none "credential" record with
                     | JObj c => eqb (get_or_none "sha2_256" c) (JStr credential_pin)
                     | _ => false
                     end && eqb (get_or_none "grant" record) grant && eqb (get_or_none "custody" record) custody
                 | _ => false
                 end) "native_credential_admission_evidence").

(** The credential as the sender sees it. *)
Definition protected_credential : Credential C :=
  mkCredential _ (pc_review_path pc) (pc_review_pin pc) validate_binding deliver.
End Credential.

(** ** The controller's world *)

(** The custodian's file: its binding, the watermark of its clock, the invocations -
    reference, key, text of the intent, time - and the returned results - reference,
    texts of the result and the evidence, time. *)
Record Invocation := mkInvocation { iv_reference : string; iv_key : string; iv_intent : string; iv_at : Z }.
Record Returned := mkReturned { rt_reference : string; rt_result : string; rt_evidence : string; rt_at : Z }.
Record CDb := mkCDb {
  cd_packet : string;
  cd_target : string;
  cd_candidate : string;
  cd_watermark : Z;
  cd_invocations : list Invocation;
  cd_returned : list Returned;
}.
(** Absent, left without its tables by a failed [provision], or provisioned. *)
Inductive cfile := CAbsent | CTombstone | CProvisioned (d : CDb).

(** What the producer was asked and what it returned, in order. *)
Inductive kevent :=
| KCalled (reference : string) (i : Intent)
| KReturned (reference : string) (i : Intent) (r : Result) (evidence : string).

(** The sender's instance, the custodian's file and instance, the rows the observer
    returned, and the controller's [evidence]. *)
Record KState (C : Type) := mkKState {
  k_native : NState C Sender;
  k_file : cfile;
  k_calls : nat;
  k_last : Z;
  k_returned : list json;
  k_evidence : option string;
  k_trace : list kevent;
}.
Arguments mkKState {C}. Arguments k_native {C}. Arguments k_file {C}. Arguments k_calls {C}. Arguments k_last {C}.
Arguments k_returned {C}. Arguments k_evidence {C}. Arguments k_trace {C}.

(** ** Results as documents *)

(** [asdict(result)] and [Result( **value)] *)
Definition result_json (r : Result) : json :=
  let text (o : option string) := match o with Some s => JStr s | None => JNull end in
  JObj [("status", JStr (r_status r)); ("reason", JStr (r_reason r)); ("observed_generation", text (r_generation r));
        ("observed_state", text (r_state r)); ("confirmed_at", match r_confirmed_at r with Some t => stamp_json t | None => JNull end)].
Definition text_or_none (k : string) (d : list (string * json)) : res (option string) :=
  match dict_get k d with None | Some JNull => Ok None | Some (JStr s) => Ok (Some s) | Some _ => type_error end.
Definition result_from (value : json) : res Result :=
  match value with
  | JObj d =>
      if negb (forallb (λ kv, str_in kv.1 ["status"; "reason"; "observed_generation"; "observed_state"; "confirmed_at"]) d) then type_error else
      let? status := str_field "status" d in
      let? reason := str_field "reason" d in
      let? generation := text_or_none "observed_generation" d in
      let? state := text_or_none "observed_state" d in
      let? at_ := match dict_get "confirmed_at" d with
                  | None | Some JNull => Ok None | Some (JInt t) => Ok (Some (At t)) | Some _ => type_error end in
      Ok (mkResult status reason generation state at_)
  | _ => type_error
  end.

(** ** The controller *)

Section Controller.
Context {C : Type} (ports : NativePorts C) (fate : nat → io) (sha256 : string → string).
Context (integral : string → option Z) (self : Settings) (target : string).
Notation K := (M (KState C)).
Notation A := (M (AState (KState C))).
Notation eqb := (py_eqb integral).
Notation clock := (p_now (np_adapter ports)).
Notation pin := (c_packet_pin self).

Definition on_native {T} (m : M (NState C Sender) T) : K T := λ k,
  let (r, s) := m (k_native k) in (r, mkKState s (k_file k) (k_calls k) (k_last k) (k_returned k) (k_evidence k) (k_trace k)).
Definition set_evidence (e : option string) : K unit :=
  modify (λ k, mkKState (k_native k) (k_file k) (k_calls k) (k_last k) (k_returned k) e (k_trace k)).
Definition add_returned (j : json) : K unit :=
  modify (λ k, mkKState (k_native k) (k_file k) (k_calls k) (k_last k) (k_returned k ++ [j]) (k_evidence k) (k_trace k)).

(** The journal of the binding, [core.journal]. *)
Definition core {T} (m : M (State C) T) : K T := on_native (on_journal m).
#[export] Instance core_journal : D1Journal (KState C) := {|
  dj_latch i t := core (latch clock fate target pin i t);
  dj_advance p q r t := core (D1Journal.advance clock fate target pin p q r t);
  dj_get k t := core (D1Journal.get clock fate target pin k t);
  dj_spend_read k t := core (spend_read clock fate target pin k t);
  dj_claim_dispatch k t := core (claim_dispatch clock fate target pin k t);
  dj_claim_reconcile k t := core (claim_reconcile clock fate target pin k t);
  dj_settle k p t := core (D1Journal.settle clock fate target pin k p t);
|}.

(** [_read_manifest(sql)] *)
Definition custody_manifest (sql : string) : json := read_manifest sha256 (JStr sql) (JArr []).
(** What [_Observer.read] asks of the one new item of the sender's evidence. *)
Definition receipt_of_read (sql : string) (item : json) : bool :=
  match item with
  | JObj d => is_true (dict_get "primary" d) && is_true (dict_get "complete" d) && eqb (get_or_none "request" d) (custody_manifest sql)
  | _ => false
  end.
(** [_Observer.read(sql, deadline)] *)
Definition primary_read (sql : string) (deadline : stamp) : K CompleteRows :=
  let* start := gets (λ k, length (n_evidence (k_native k))) in
  let* rm := on_native (query_native ports fate sha256 integral self "observer" sql [] deadline) in
  let* evidence := gets (λ k, drop start (n_evidence (k_native k))) in
  let* item := lift (match evidence with [item] => Ok item | _ => Err (Refusal "native_primary_receipt_missing") end) in
  lift (require (receipt_of_read sql item) "native_primary_receipt_binding") ;*
  let* copy := lift (loads (dumps (JObj [("receipt", item); ("rows", JArr (fst rm))]))) in
  add_returned copy ;*
  ret (mkCompleteRows (map row_dict (fst rm)) true).

(** The ports of the adapter; the custodian's port is joined below. *)
Definition controller_ports (confirmation : string → stamp → K ConfirmedReceipt) : Ports (KState C) := {|
  p_now := on_native (on_ports clock);
  p_read_bytes name := on_native (on_ports (p_read_bytes (np_adapter ports) name));
  p_recheck := on_native (on_ports (p_recheck (np_adapter ports)));
  p_read := primary_read;
  p_dispatch _ _ := raise (External "AttributeError");
  p_confirmation := confirmation;
|}.
Definition no_confirmation (_ : string) (_ : stamp) : K ConfirmedReceipt := raise (External "AttributeError").
Notation source_ports := (controller_ports no_confirmation).
Definition controller_config : Config := mkConfig target true (Some (c_source self)).

(** [writer.guard], [writer.dispatch_batch] *)
Definition writer_guard (deadline : stamp) : K unit := on_native (guard_native ports sha256 integral self deadline).
Definition writer_dispatch (batch : Batch) (deadline : stamp) : K NativeBatchReceipt :=
  on_native (dispatch_batch ports fate sha256 integral self batch deadline).
Definition retained_intents : K (list json) := on_native (let* e := sender in ret (al_intents (sn_allocation e))).

Section Dispatch.
Context (confirmation : string → stamp → K ConfirmedReceipt).
Notation kports := (controller_ports confirmation).
Notation check := (check kports sha256 controller_config).
Notation observe := (observe kports sha256 controller_config).

(** The [try] body of [_dispatch_reserved], up to the claim. *)
Definition native_claim (i : Intent) : A unit :=
  let* _ := check i false in
  let* before := observe i false in
  lift (require (bool_decide (before = (i_expected i, from_state i))) "native_stale_or_wrong_state") ;*
  set_claimed true ;*
  let* end_ := check i false in
  let* claimed := on_world (dj_claim_dispatch (i_key i) end_) in
  lift (require claimed "native_dispatch_claim_unconfirmed") ;*
  emit (EvClaimed (i_key i)).

(** The batch and its answer. *)
Definition native_send (i : Intent) : A NativeBatchReceipt :=
  let* batch := positional_build kports sha256 i in
  let* again := positional_build kports sha256 i in
  lift (require (bool_decide (batch = again)) "native_exact_positional_batch_required") ;*
  let* end_ := check i false in
  let* receipt := on_world (writer_dispatch batch end_) in
  let* _ := check i false in
  lift (require (bool_decide (nr_batch receipt = batch) && ((nr_count receipt =? 0) || (nr_count receipt =? 1))
                 && negb (bool_decide (nr_evidence receipt = EmptyString))) "native_exact_returned_batch_required") ;*
  ret receipt.

(** [self.evidence] of a confirmed return *)
Definition returned_evidence (i : Intent) (manifest batch : json) (reads : list json) (at_ : Z) : string :=
  dumps (JObj [("kind", JStr "pmb1-native-returned-invocation-v1"); ("packetSha2_256", JStr pin); ("target", JStr (i_target_id i));
               ("intent", intent_json i); ("sourceManifest", manifest); ("batch", batch); ("independentPrimaryReads", JArr reads);
               ("finalJournalAcknowledgedAt", JInt at_)]).
Definition native_conclude (i : Intent) (start : nat) (receipt : NativeBatchReceipt) : A Result :=
  if nr_count receipt =? 0 then
    let* end_ := check i false in
    settle (i_key i) "refused" end_ ;*
    let* _ := check i false in
    ret (plain_result "refused" "zero_affected_rows")
  else
    let* observed := observe i false in
    lift (require (bool_decide (observed = (next_generation_of i, D1Port.target i))) "native_transition_readback_mismatch") ;*
    let* reads := on_world (gets (λ k, drop start (k_returned k))) in
    lift (require (bool_decide (length reads = 4%nat)) "native_four_complete_primary_reads_required") ;*
    let* end_ := check i false in
    settle (i_key i) "confirmed" end_ ;*
    let* _ := check i false in
    on_world (writer_guard (dispatch_until (i_window i))) ;*
    let* _ := check i false in
    let* last := gets a_last_time in
    let* manifest := lift (loads_bytes (sd_manifest (c_source self))) in
    let* batch := lift (loads_bytes (nr_evidence receipt)) in
    on_world (set_evidence (Some (returned_evidence i manifest batch reads last))) ;*
    ret (mkResult "confirmed" "one_row_and_independent_readback" (Some observed.1) (Some observed.2) (Some (At last))).

(** [NativeController._dispatch_reserved] *)
Definition native_dispatch_reserved (i : Intent) : A Result :=
  set_claimed false ;*
  on_world (set_evidence None) ;*
  let* start := on_world (gets (λ k, length (k_returned k))) in
  try (native_claim i ;* let* receipt := native_send i in native_conclude i start receipt)
    (λ _, on_failure kports sha256 controller_config i).

(** [NativeController.execute] and [advance]: those of the adapter with this
    dispatch. *)
Definition native_execute (i : Intent) : A Result :=
  let* intents := on_world retained_intents in
  let* first := lift (match intents with j :: _ => Ok j | [] => Err (External "IndexError") end) in
  lift (require (eqb (intent_json i) first) "native_unretained_root") ;*
  let* reserved := try (let* b := reserve_root kports sha256 controller_config i in ret (Some b)) (λ _, ret None) in
  match reserved with
  | None => ret (plain_result "refused" "reservation_unconfirmed")
  | Some false => ret (plain_result "refused" "intent_already_latched_or_unconfirmed")
  | Some true => native_dispatch_reserved i
  end.
Definition native_advance (p q : Intent) (reference : string) : A Result :=
  let* intents := on_world retained_intents in
  lift (require (existsb (eqb (intent_json q)) intents) "native_unretained_successor") ;*
  let* reserved := try (reserve_successor kports sha256 controller_config p q reference ;* ret true) (λ _, ret false) in
  if reserved then native_dispatch_reserved q
  else ret (plain_result "refused" "successor_reservation_unconfirmed").
End Dispatch.

(** ** The custodian *)

Section Custodian.
(** Its clock, its connection, and its binding. *)
Context (custody_clock : M C stamp) (custody_fate : nat → io) (packet_pin custody_target custody_candidate : string).

(** [ReturnedInvocations._guard(deadline)] *)
Definition custody_guard (deadline : stamp) : K Z :=
  let* now := on_native (on_ports custody_clock) in
  let* last := gets k_last in
  match now, deadline with
  | At n, At d =>
      lift (require ((0 <=? n) && (n <? d) && (last <=? n)) "native_custodian_deadline") ;*
      modify (λ k, mkKState (k_native k) (k_file k) (k_calls k) n (k_returned k) (k_evidence k) (k_trace k)) ;*
      ret n
  | _, _ => raise (Refusal "native_custodian_deadline")
  end.

Definition set_file (f : cfile) : K unit :=
  modify (λ k, mkKState (k_native k) f (k_calls k) (k_last k) (k_returned k) (k_evidence k) (k_trace k)).
(** One use of the connection. *)
Definition connection : K io := λ k,
  (Ok (custody_fate (k_calls k)), mkKState (k_native k) (k_file k) (S (k_calls k)) (k_last k) (k_returned k) (k_evidence k) (k_trace k)).

(** [provision(deadline)]: an exclusive creation. *)
Definition custody_provision (deadline : stamp) : K unit :=
  let* now := custody_guard deadline in
  let* f := gets k_file in
  match f with
  | CAbsent =>
      let fresh := CProvisioned (mkCDb packet_pin custody_target custody_candidate now [] []) in
      let* c := connection in
      match c with
      | Healthy => set_file fresh
      | FailBefore => set_file CTombstone ;* raise (External "OperationalError")
      | LostAck => set_file fresh ;* raise (External "OperationalError")
      end ;*
      let* _ := custody_guard deadline in ret tt
  | _ => raise (External "FileExistsError")
  end.

(** [with self._transaction(deadline) as db: body], the body over the time of its
    first guard; nothing of a transaction that raises before its commit remains. *)
Definition custody_open : K CDb :=
  let* f := gets k_file in
  match f with
  | CAbsent => raise (Refusal "native_custodian_missing")
  | CTombstone => let* _ := connection in raise (External "OperationalError")
  | CProvisioned d =>
      let* c := connection in
      match c with FailBefore => raise (External "OperationalError") | _ => ret d end
  end.
Definition custody_bound (d : CDb) : bool :=
  bool_decide (cd_packet d = packet_pin) && bool_decide (cd_target d = custody_target) && bool_decide (cd_candidate d = custody_candidate).
Definition with_watermark (now : Z) (d : CDb) : CDb :=
  mkCDb (cd_packet d) (cd_target d) (cd_candidate d) now (cd_invocations d) (cd_returned d).
Definition custody_transaction {T} (deadline : stamp) (body : Z → M CDb T) : K T :=
  let* now := custody_guard deadline in
  let* d := custody_open in
  lift (require (custody_bound d) "native_custodian_binding") ;*
  lift (require (cd_watermark d <=? now) "native_custodian_clock_rollback") ;*
  match body now d with
  | (Err e, _) => raise e
  | (Ok x, d') =>
      let* now := custody_guard deadline in
      set_file (CProvisioned (with_watermark now d')) ;*
      let* lost := gets (λ k, match custody_fate (pred (k_calls k)) with LostAck => true | _ => false end) in
      lift (if lost then Err (External "OperationalError") else Ok tt) ;*
      let* _ := custody_guard deadline in
      ret x
  end.

(** [INSERT INTO invocations VALUES(?,?,?,?)] and [INSERT INTO returned VALUES(?,?,?,?)] *)
Definition insert_invocation (reference : string) (i : Intent) (at_ : Z) : M CDb unit := λ d,
  if existsb (λ v, bool_decide (iv_reference v = reference) || bool_decide (iv_key v = i_key i)) (cd_invocations d) then integrity d
  else (Ok tt, mkCDb (cd_packet d) (cd_target d) (cd_candidate d) (cd_watermark d)
                 (cd_invocations d ++ [mkInvocation reference (i_key i) (intent_text i) at_]) (cd_returned d)).
Definition insert_returned (reference : string) (r : Result) (evidence : string) (at_ : Z) : M CDb unit := λ d,
  if existsb (λ v, bool_decide (rt_reference v = reference)) (cd_returned d)
     || negb (existsb (λ v, bool_decide (iv_reference v = reference)) (cd_invocations d)) then integrity d
  else (Ok tt, mkCDb (cd_packet d) (cd_target d) (cd_candidate d) (cd_watermark d) (cd_invocations d)
                 (cd_returned d ++ [mkReturned reference (dumps (result_json r)) evidence at_])).
(** The join of [read]. *)
Definition returned_row (reference : string) (d : CDb) : option (string * string * string) :=
  match List.find (λ v, bool_decide (iv_reference v = reference)) (cd_invocations d),
        List.find (λ v, bool_decide (rt_reference v = reference)) (cd_returned d) with
  | Some v, Some r => Some (iv_intent v, rt_result r, rt_evidence r)
  | _, _ => None
  end.

(** *** [_validate_returned(intent, result, raw, packet_pin)] *)

Definition evidence_fields : list string :=
  ["kind"; "packetSha2_256"; "target"; "intent"; "batch"; "sourceManifest"; "independentPrimaryReads"; "finalJournalAcknowledgedAt"].
Definition retained_binding (i : Intent) (r : Result) (evidence : list (string * json)) : bool :=
  eqb (field "kind" evidence) (JStr "pmb1-native-returned-invocation-v1")
  && eqb (field "packetSha2_256" evidence) (JStr packet_pin)
  && eqb (field "target" evidence) (JStr (i_target_id i))
  && eqb (field "intent" evidence) (intent_json i)
  && bool_decide (r_status r = "confirmed") && bool_decide (r_reason r = "one_row_and_independent_readback")
  && bool_decide (r_generation r = Some (next_generation_of i)) && bool_decide (r_state r = Some (D1Port.target i))
  && match r_confirmed_at r with
     | Some (At t) => within i t (dispatch_until (i_window i)) && eqb (field "finalJournalAcknowledgedAt" evidence) (JInt t)
     | _ => false
     end.
Definition retained_batch (i : Intent) (batch : list (string * json)) : bool :=
  eqb (get_or_none "scope" batch) (JStr "NATIVE_RETURNED_HTTP_EVIDENCE") && eqb (get_or_none "target" batch) (JStr (i_target_id i))
  && eqb (get_or_none "packet" batch) (JStr packet_pin) && eqb (get_or_none "intent" batch) (intent_json i).
Definition retained_receipt (manifest : list (string * json)) (request : json) : bool :=
  eqb (get_or_none "protocol" manifest) (JStr POSITIONAL_BOUNDARY) && eqb (get_or_none "request" manifest) request
  && eqb (get_or_none "exactChangeCountText" manifest) (JStr "1") && digest_of (get_or_none "responseBodySha2_256" manifest).
(** One of the four reads: its ordinal. *)
Definition retained_read (i : Intent) (files : list (string * string)) (index : nat) (item : json) : res Z :=
  let control := Nat.even index in
  let? d := match item with
            | JObj d => require (same_keys d ["receipt"; "rows"]) "native_retained_read_shape" ;? Ok d
            | _ => Err (Refusal "native_retained_read_shape") end in
  let? sql := text_of_file (if control then "readback.sql" else "schema.sql") files in
  let? receipt := match field "receipt" d with
                  | JObj r => require (receipt_of_read sql (JObj r)) "native_retained_read_request" ;? Ok r
                  | _ => Err (Refusal "native_retained_read_request") end in
  require (int_where (λ z, 0 <=? z) (get_or_none "requestOrdinal" receipt) && int_where (λ z, 0 <? z) (get_or_none "wireBytes" receipt)
           && digest_of (get_or_none "responseBodySha2_256" receipt)) "native_retained_read_receipt" ;?
  let? rows := match field "rows" d with
               | JArr l => Ok (mkCompleteRows (map row_dict l) true)
               | _ => Err (Refusal (if control then "incomplete_control" else "incomplete_schema")) end in
  (if control
   then let? seen := validate_control rows in
        require (bool_decide (seen = if Nat.eqb index 0 then (i_expected i, from_state i) else (next_generation_of i, D1Port.target i)))
          "native_retained_readback"
   else let? manifest := file_of "manifest.json" files in validate_schema sha256 rows manifest) ;?
  Ok (int_of (get_or_none "requestOrdinal" receipt)).
Fixpoint retained_reads (i : Intent) (files : list (string * string)) (index : nat) (reads : list json) : res (list Z) :=
  match reads with
  | [] => Ok []
  | item :: reads' => let? o := retained_read i files index item in let? os := retained_reads i files (S index) reads' in Ok (o :: os)
  end.
(** [ordinals == sorted(set(ordinals))] *)
Fixpoint increasing (l : list Z) : bool :=
  match l with x :: (y :: _) as l' => (x <? y) && increasing l' | _ => true end.
Definition validate_returned (i : Intent) (r : Result) (raw : string) : A unit :=
  lift (require ((0 <? slen raw) && (slen raw <=? 4 * 1024 * 1024)) "native_retained_evidence_bound") ;*
  let* document := lift (loads_bytes raw) in
  let* evidence := lift (closed document evidence_fields "native_retained_evidence_shape") in
  lift (require (retained_binding i r evidence) "native_retained_confirmation_binding") ;*
  let* reads := lift (match field "independentPrimaryReads" evidence with
                      | JArr l => require (bool_decide (length l = 4%nat)) "native_retained_primary_reads" ;? Ok l
                      | _ => Err (Refusal "native_retained_primary_reads") end) in
  let* files := verify_source source_ports sha256 in
  let files := dict_set "manifest.json" (dumps (field "sourceManifest" evidence)) files in
  let* batch := lift (match field "batch" evidence with
                      | JObj b => require (retained_batch i b) "native_retained_batch_binding" ;? Ok b
                      | _ => Err (Refusal "native_retained_batch_binding") end) in
  let* receipt := lift (some_or (dict_get "receipt" batch) "KeyError") in
  let* manifest := lift (match receipt with JObj m => Ok m | _ => Err (Refusal "native_retained_batch_receipt") end) in
  lift (require (eqb (get_or_none "protocol" manifest) (JStr POSITIONAL_BOUNDARY)) "native_retained_batch_receipt") ;*
  let* again := positional_build source_ports sha256 i in
  let* request := positional_manifest source_ports sha256 again in
  lift (require (retained_receipt manifest request) "native_retained_batch_receipt") ;*
  let* ordinals := lift (retained_reads i files 0 reads) in
  lift (require (increasing ordinals) "native_retained_independent_read_order").
(** The same where no adapter is at hand. *)
Definition without_adapter {T} (m : A T) : K T := λ k, let (r, a) := m (new_adapter k) in (r, a_world a).

(** *** [read] and [invoke] *)

(** [ReturnedInvocations.read(reference, deadline)] *)
Definition custody_read (reference : string) (deadline : stamp) : K ConfirmedReceipt :=
  let* row := custody_transaction deadline (λ _, gets (returned_row reference)) in
  let* row := lift (some_or row "native_returned_confirmation_missing") in
  let* i := lift (let? j := loads row.1.1 in intent_from j) in
  let* r := lift (let? j := loads row.1.2 in result_from j) in
  without_adapter (validate_returned i r row.2) ;*
  let* last := gets k_last in
  lift (require (bool_decide (i_target_id i = custody_target) && bool_decide (i_candidate i = custody_candidate)
                 && match r_confirmed_at r with Some (At t) => t <=? last | _ => false end) "native_returned_binding") ;*
  ret (mkConfirmedReceipt reference i r "CONFIRMED").

Definition reference_char (c : ascii) : bool := token_char c || (code c =? 58).
(** [re.fullmatch(r"native:[A-Za-z0-9_.:-]{1,120}", reference)] *)
Definition reference_grammar (s : string) : bool :=
  startswith "native:" s && (8 <=? slen s) && (slen s <=? 127) && str_forall reference_char (String.substring 7 (String.length s) s).
Definition log (e : kevent) : K unit :=
  modify (λ k, mkKState (k_native k) (k_file k) (k_calls k) (k_last k) (k_returned k) (k_evidence k) (k_trace k ++ [e])).

(** [invoke(controller, intent, reference, predecessor=..., previous=...)]; [origin]
    is the predecessor and the previous reference of a successor. *)
Definition produce (i : Intent) (origin : option (Intent * string)) : A Result :=
  match origin with
  | None => native_execute custody_read i
  | Some (p, previous) => native_advance custody_read p i previous
  end.
Definition invoke (i : Intent) (reference : string) (origin : option (Intent * string)) : A Result :=
  let end_ := dispatch_until (i_window i) in
  let* _ := on_world (custody_guard end_) in
  lift (require (bool_decide (i_target_id i = custody_target) && bool_decide (i_candidate i = custody_candidate)
                 && bool_decide (pin = packet_pin) && reference_grammar reference) "native_invocation_binding") ;*
  on_world (writer_guard end_) ;*
  on_world (custody_transaction end_ (insert_invocation reference i)) ;*
  on_world (log (KCalled reference i)) ;*
  let* r := produce i origin in
  let* _ := on_world (custody_guard end_) in
  on_world (writer_guard end_) ;*
  if bool_decide (r_status r = "confirmed") then
    let* evidence := on_world (gets k_evidence) in
    let* evidence := lift (some_or evidence "native_returned_evidence_missing") in
    lift (require (negb (bool_decide (evidence = EmptyString))) "native_returned_evidence_missing") ;*
    on_world (log (KReturned reference i r evidence)) ;*
    validate_returned i r evidence ;*
    on_world (custody_transaction end_ (insert_returned reference r evidence)) ;*
    on_world (writer_guard end_) ;*
    ret r
  else ret r.
End Custodian.
End Controller.
