(* ===== verification/NativeCustodyFacts.v ===== *)
(** What the custodian guarantees: over any history of its instances and of
    controllers on one file, an intent and a reference are handed to the producer at
    most once, and a receipt that can be read is exactly what the producer returned. *)
From S2P Require Import Prelude Triples Json JsonParse JsonRoundTrip Oracle Evidence Control D1Port D1Journal D1JournalFacts D1Adapter D1AdapterFacts D1Campaign ExactCount ExactCountFacts NativeBinding NativeSender NativeCustody.

(** ** What the steps leave alone *)

Section Stays.
Context {C : Type}.
Notation K := (M (KState C)).
Notation A := (M (AState (KState C))).

(** The tables of the file, and the calls and returns of the producer. *)
Definition tables (f : cfile) : option (list Invocation * list Returned) :=
  match f with CProvisioned d => Some (cd_invocations d, cd_returned d) | _ => None end.
Definition view (k : KState C) : option (list Invocation * list Returned) * list kevent := (tables (k_file k), k_trace k).
Definition stays {T} (m : K T) : Prop := ∀ k, view (m k).2 = view k.
Definition astays {T} (m : A T) : Prop := ∀ a, view (a_world (m a).2) = view (a_world a).

Lemma stays_native {T} (m : M (NState C Sender) T) : stays (on_native m).
Proof. intros k. unfold on_native. by destruct (m (k_native k)). Qed.
Lemma stays_lift {T} (x : res T) : stays (lift x).
Proof. done. Qed.
Lemma stays_ret {T} (x : T) : stays (ret x).
Proof. done. Qed.
Lemma stays_raise {T} e : stays (raise (A:=T) e).
Proof. done. Qed.
Lemma stays_gets {T} (f : KState C → T) : stays (gets f).
Proof. done. Qed.
Lemma stays_set_evidence e : stays (set_evidence (C:=C) e).
Proof. done. Qed.
Lemma stays_add_returned j : stays (add_returned (C:=C) j).
Proof. done. Qed.
Lemma stays_bind {T U} (m : K T) (f : T → K U) : stays m → (∀ x, stays (f x)) → stays (bind m f).
Proof. intros Hm Hf k. unfold bind. specialize (Hm k). destruct (m k) as [[x|e] k1]; cbn [snd] in *; [|done]. by rewrite Hf. Qed.
Lemma astays_world {T} (m : K T) : stays m → astays (on_world m).
Proof. intros Hm a. unfold on_world. specialize (Hm (a_world a)). by destruct (m (a_world a)). Qed.
Lemma astays_lift {T} (x : res T) : astays (lift x).
Proof. done. Qed.
Lemma astays_ret {T} (x : T) : astays (ret x).
Proof. done. Qed.
Lemma astays_raise {T} e : astays (raise (A:=T) e).
Proof. done. Qed.
Lemma astays_gets {T} (f : AState (KState C) → T) : astays (gets f).
Proof. done. Qed.
Lemma astays_emit e : astays (emit (W:=KState C) e).
Proof. done. Qed.
Lemma astays_last t : astays (set_last (W:=KState C) t).
Proof. done. Qed.
Lemma astays_claimed b : astays (set_claimed (W:=KState C) b).
Proof. done. Qed.
Lemma astays_bind {T U} (m : A T) (f : T → A U) : astays m → (∀ x, astays (f x)) → astays (bind m f).
Proof. intros Hm Hf a. unfold bind. specialize (Hm a). destruct (m a) as [[x|e] a1]; cbn [snd] in *; [|done]. by rewrite Hf. Qed.
Lemma astays_try {T} (m : A T) h : astays m → (∀ e, astays (h e)) → astays (try m h).
Proof. intros Hm Hf a. unfold try. specialize (Hm a). destruct (m a) as [[x|e] a1]; cbn [snd] in *; [done|]. by rewrite Hf. Qed.
Lemma stays_without {T} (m : A T) : astays m → stays (without_adapter m).
Proof. intros Hm k. unfold without_adapter. specialize (Hm (new_adapter k)). by destruct (m (new_adapter k)). Qed.
End Stays.

Create HintDb stays discriminated.
#[export] Hint Resolve stays_native stays_lift stays_ret stays_raise stays_gets stays_set_evidence stays_add_returned stays_bind stays_without : stays.
#[export] Hint Resolve astays_world astays_lift astays_ret astays_raise astays_gets astays_emit astays_last astays_claimed astays_bind astays_try : stays.

Section Custody.
Context {C : Type} (ports : NativePorts C) (fate : nat → io) (sha256 : string → string).
Context (integral : string → option Z) (self : Settings) (target : string).
Notation K := (M (KState C)).
Notation A := (M (AState (KState C))).
Context (custody_clock : M C stamp) (custody_fate : nat → io).

#[local] Hint Extern 2 (stays (match ?x with _ => _ end)) => destruct x : stays.
#[local] Hint Extern 2 (astays (match ?x with _ => _ end)) => destruct x : stays.

Section Adapter.
Context (confirmation : string → stamp → K ConfirmedReceipt) (Hconfirmation : ∀ r t, stays (confirmation r t)).
Notation kports := (controller_ports ports fate sha256 integral self confirmation).
Notation cfg := (controller_config self target).
#[local] Instance journal_here : D1Journal (KState C) := core_journal ports fate self target.

Lemma stays_primary_read sql dl : stays (primary_read ports fate sha256 integral self sql dl).
Proof. unfold primary_read. auto 12 with stays. Qed.
#[local] Hint Resolve stays_primary_read : stays.
Lemma stays_now : stays (p_now kports).
Proof. apply stays_native. Qed.
Lemma stays_read_bytes n : stays (p_read_bytes kports n).
Proof. apply stays_native. Qed.
Lemma stays_recheck : stays (p_recheck kports).
Proof. apply stays_native. Qed.
Lemma stays_read sql dl : stays (p_read kports sql dl).
Proof. apply stays_primary_read. Qed.
Lemma stays_confirmation r dl : stays (p_confirmation kports r dl).
Proof. apply Hconfirmation. Qed.
#[local] Hint Resolve stays_now stays_read_bytes stays_recheck stays_read stays_confirmation : stays.
Lemma stays_latch i t : stays (dj_latch i t).
Proof. apply stays_native. Qed.
Lemma stays_advance p q r t : stays (dj_advance p q r t).
Proof. apply stays_native. Qed.
Lemma stays_spend k t : stays (dj_spend_read k t).
Proof. apply stays_native. Qed.
Lemma stays_claim k t : stays (dj_claim_dispatch k t).
Proof. apply stays_native. Qed.
Lemma stays_settle k p t : stays (dj_settle k p t).
Proof. apply stays_native. Qed.
#[local] Hint Resolve stays_latch stays_advance stays_spend stays_claim stays_settle : stays.

Lemma astays_read_files names : astays (read_files kports names).
Proof. induction names as [|n names IH]; cbn [read_files]; auto with stays. Qed.
#[local] Hint Resolve astays_read_files : stays.
Lemma astays_verify_source : astays (verify_source kports sha256).
Proof. unfold verify_source, refuse. auto with stays. Qed.
#[local] Hint Resolve astays_verify_source : stays.
Lemma astays_source_files : astays (source_files kports sha256 cfg).
Proof. unfold source_files, refuse. cbn [c_source controller_config]. auto 8 with stays. Qed.
#[local] Hint Resolve astays_source_files : stays.
Lemma astays_check i b : astays (check kports sha256 cfg i b).
Proof. unfold check, refuse. auto 20 with stays. Qed.
#[local] Hint Resolve astays_check : stays.
Lemma astays_observe_one i b files n : astays (observe_one kports sha256 cfg i b files n).
Proof. unfold observe_one, refuse. auto 20 with stays. Qed.
#[local] Hint Resolve astays_observe_one : stays.
Lemma astays_observe i b : astays (observe kports sha256 cfg i b).
Proof. unfold observe. auto 20 with stays. Qed.
#[local] Hint Resolve astays_observe : stays.
Lemma astays_settle k p t : astays (settle k p t).
Proof. unfold settle. auto with stays. Qed.
#[local] Hint Resolve astays_settle : stays.
Lemma astays_source_sql op : astays (source_sql kports sha256 op).
Proof. unfold source_sql, refuse. auto 10 with stays. Qed.
#[local] Hint Resolve astays_source_sql : stays.
Lemma astays_build i : astays (positional_build kports sha256 i).
Proof. unfold positional_build, ExactCount.build. auto 20 with stays. Qed.
#[local] Hint Resolve astays_build : stays.
Lemma astays_manifest b : astays (positional_manifest kports sha256 b).
Proof. unfold positional_manifest, positional_request_body, refuse. auto 20 with stays. Qed.

Lemma astays_dispatch_reserved i : astays (native_dispatch_reserved ports fate sha256 integral self target confirmation i).
Proof.
  unfold native_dispatch_reserved. apply astays_bind; [auto with stays|intros _]. apply astays_bind; [auto with stays|intros _].
  apply astays_bind; [auto with stays|intros start]. apply astays_try.
  - apply astays_bind; [unfold native_claim; auto 20 with stays|intros _].
    apply astays_bind; [unfold native_send, writer_dispatch; auto 20 with stays|intros receipt].
    unfold native_conclude, writer_guard. destruct (_ =? 0); auto 40 with stays.
  - intros _. unfold on_failure. auto 12 with stays.
Qed.
#[local] Hint Resolve astays_dispatch_reserved : stays.
Lemma astays_execute i : astays (native_execute ports fate sha256 integral self target confirmation i).
Proof.
  unfold native_execute, retained_intents. do 3 (apply astays_bind; [auto with stays|intros ?]).
  apply astays_bind; [|intros [[]|]; auto with stays]. apply astays_try; [|auto with stays].
  unfold reserve_root, refuse. auto 20 with stays.
Qed.
Lemma astays_native_advance p q r : astays (native_advance ports fate sha256 integral self target confirmation p q r).
Proof.
  unfold native_advance, retained_intents. do 2 (apply astays_bind; [auto with stays|intros ?]).
  apply astays_bind; [|intros []; auto with stays]. apply astays_try; [|auto with stays].
  unfold reserve_successor, refuse. auto 30 with stays.
Qed.
End Adapter.

(** ** The custodian's steps *)

Section Custodian.
Context (packet_pin custody_target custody_candidate : string).
Notation guard := (custody_guard custody_clock).
Notation transaction := (custody_transaction custody_clock custody_fate packet_pin custody_target custody_candidate).
Notation validate := (validate_returned ports fate sha256 integral self packet_pin).
Notation read := (custody_read ports fate sha256 integral self custody_clock custody_fate packet_pin custody_target custody_candidate).
Notation call := (invoke ports fate sha256 integral self target custody_clock custody_fate packet_pin custody_target custody_candidate).

Lemma guard_frame dl k r k' : guard dl k = (r, k') → k_file k' = k_file k ∧ k_trace k' = k_trace k.
Proof.
  unfold custody_guard, bind, on_native, gets, lift, modify, ret, raise. destruct (on_ports custody_clock (k_native k)) as [[[n|]|e] s]; cbn;
    [|by intros [= <- <-]..]. destruct dl as [d|]; [|by intros [= <- <-]]. destruct (require _ _) as [[]|e]; by intros [= <- <-].
Qed.
Lemma open_frame k r k' : custody_open (C:=C) custody_fate k = (r, k') →
  k_file k' = k_file k ∧ k_trace k' = k_trace k ∧ ∀ d, r = Ok d → k_file k = CProvisioned d.
Proof.
  unfold custody_open, bind, gets, connection, raise, ret. destruct (k_file k) as [| |d] eqn:E; cbn.
  - intros [= <- <-]. done.
  - intros [= <- <-]. done.
  - destruct (custody_fate (k_calls k)); intros [= <- <-]; cbn; split_and!; try done; by intros d' [= ->].
Qed.
Lemma stays_guard dl : stays (guard dl).
Proof. intros k. destruct (guard dl k) as [r k'] eqn:E. apply guard_frame in E as [H1 H2]. unfold view. cbn [snd]. by rewrite H1, H2. Qed.
#[local] Hint Resolve stays_guard : stays.

(** A transaction changes nothing, or commits what its body did. *)
Lemma custody_transaction_cases {T} dl (body : Z → M CDb T) k r k' : transaction dl body k = (r, k') →
  k_trace k' = k_trace k ∧
  ((k_file k' = k_file k ∧ ∀ x, r ≠ Ok x)
   ∨ ∃ now d x d' n, k_file k = CProvisioned d ∧ body now d = (Ok x, d') ∧ k_file k' = CProvisioned (with_watermark n d') ∧ ∀ y, r = Ok y → y = x).
Proof.
  unfold custody_transaction, bind, lift, set_file, modify, gets, ret, raise.
  destruct (guard dl k) as [[now|e] k1] eqn:E1; apply guard_frame in E1 as [F1 T1]; [|intros [= <- <-]; split; [done|left; split; congruence]].
  destruct (custody_open custody_fate k1) as [[d|e] k2] eqn:E2; apply open_frame in E2 as (F2 & T2 & Hd);
    [|intros [= <- <-]; split; [congruence|left; split; congruence]].
  destruct (require (custody_bound _ _ _ d) _) as [[]|e]; [|intros [= <- <-]; split; [congruence|left; split; congruence]].
  destruct (require (cd_watermark d <=? now) _) as [[]|e]; [|intros [= <- <-]; split; [congruence|left; split; congruence]].
  destruct (body now d) as [[x|e] d'] eqn:Eb; [|intros [= <- <-]; split; [congruence|left; split; congruence]].
  destruct (guard dl k2) as [[n|e] k3] eqn:E3; apply guard_frame in E3 as [F3 T3]; [|intros [= <- <-]; split; [congruence|left; split; congruence]].
  intros H. assert (k_file k' = CProvisioned (with_watermark n d') ∧ k_trace k' = k_trace k3 ∧ ∀ y, r = Ok y → y = x) as (F4 & T4 & Hr).
  { cbn in H. destruct (custody_fate _); cbn in H.
    1, 2: destruct (guard dl _) as [[m|e] k5] eqn:E5; apply guard_frame in E5 as [F5 T5]; injection H as <- <-; cbn in *; split_and!; congruence.
    injection H as <- <-. done. }
  split; [congruence|]. right. exists now, d, x, d', n. split_and!; try done. rewrite <- F1. by apply Hd.
Qed.

Lemma stays_transaction {T} dl (body : Z → M CDb T) : (∀ now d x d', body now d = (Ok x, d') → d' = d) → stays (transaction dl body).
Proof.
  intros Hb k. destruct (transaction dl body k) as [r k'] eqn:E. apply custody_transaction_cases in E as [T1 [[F1 _]|(now & d & x & d' & n & F1 & Hbody & F2 & _)]];
    unfold view; cbn [snd]; rewrite T1; [by rewrite F1|]. apply Hb in Hbody as ->. by rewrite F1, F2.
Qed.
Lemma astays_validate i r raw : astays (validate i r raw).
Proof.
  pose proof (astays_verify_source no_confirmation). pose proof (astays_build no_confirmation). pose proof (astays_manifest no_confirmation).
  unfold validate_returned. auto 40 with stays.
Qed.
#[local] Hint Resolve astays_validate : stays.
Lemma stays_custody_read reference dl : stays (read reference dl).
Proof.
  unfold custody_read. apply stays_bind; [apply stays_transaction; by intros now d x d' [= _ ->]|intros row]. auto 12 with stays.
Qed.
Lemma astays_produce i origin : astays (produce ports fate sha256 integral self target custody_clock custody_fate packet_pin custody_target custody_candidate i origin).
Proof.
  unfold produce. destruct origin as [[p previous]|]; [apply astays_native_advance|apply astays_execute]; intros; apply stays_custody_read.
Qed.

(** *** What the file says of the producer *)

(** A confirmed result of the intent, inside its window. *)
Definition genuine (i : Intent) (r : Result) : Prop :=
  intent_bad i = Ok tt ∧ r_status r = "confirmed" ∧ r_reason r = "one_row_and_independent_readback"
  ∧ r_generation r = Some (next_generation_of i) ∧ r_state r = Some (D1Port.target i)
  ∧ ∃ t, r_confirmed_at r = Some (At t) ∧ within i t (dispatch_until (i_window i)) = true.

Definition row : Type := string * string * string.
Definition rows_of (inv : list Invocation) : list row := map (λ v, (iv_reference v, iv_key v, iv_intent v)) inv.
Definition row_of (ri : string * Intent) : row := (ri.1, i_key ri.2, intent_text ri.2).
Definition calls (evs : list kevent) : list (string * Intent) := omap (λ e, match e with KCalled r i => Some (r, i) | _ => None end) evs.
Definition returned_by (evs : list kevent) (inv : list Invocation) (v : Returned) : Prop :=
  ∃ i r, KReturned (rt_reference v) i r (rt_evidence v) ∈ evs ∧ rt_result v = dumps (result_json r) ∧ genuine i r
  ∧ ∃ w, w ∈ inv ∧ iv_reference w = rt_reference v ∧ iv_intent w = intent_text i.

(** Every call of the producer has its own row, with a reference and a key of its
    own, and [slack] more rows may still be called; every returned row is what the
    producer returned. *)
Record logged (slack : list row) (inv : list Invocation) (ret : list Returned) (evs : list kevent) : Prop := {
  lg_references : NoDup (map iv_reference inv);
  lg_keys : NoDup (map iv_key inv);
  lg_called : slack ++ map row_of (calls evs) ⊆+ rows_of inv;
  lg_returned : Forall (returned_by evs inv) ret;
}.
Definition logs (slack : list row) (k : KState C) : Prop :=
  match tables (k_file k) with
  | Some (inv, ret) => logged slack inv ret (k_trace k)
  | None => slack = [] ∧ calls (k_trace k) = []
  end.

Lemma logs_view slack k k' : view k' = view k → logs slack k → logs slack k'.
Proof. unfold view, logs. intros [= -> ->]. done. Qed.
Lemma logs_slack x slack k : logs (x :: slack) k → logs slack k.
Proof.
  unfold logs. destruct (tables (k_file k)) as [[inv ret]|]; [|by intros [H _]]. intros [H1 H2 H3 H4]. split; try done.
  etransitivity; [|exact H3]. by apply submseteq_cons.
Qed.
Lemma calls_app l1 l2 : calls (l1 ++ l2) = calls l1 ++ calls l2.
Proof. apply omap_app. Qed.
Lemma calls_return evs reference i r evidence : calls (evs ++ [KReturned reference i r evidence]) = calls evs.
Proof. rewrite calls_app. apply app_nil_r. Qed.
Lemma calls_elem reference i evs : KCalled reference i ∈ evs → (reference, i) ∈ calls evs.
Proof. intros H. apply list_elem_of_omap. by exists (KCalled reference i). Qed.
Lemma returned_more evs evs' inv v : returned_by evs inv v → returned_by (evs ++ evs') inv v.
Proof. intros (i & r & H & H1). exists i, r. split; [set_solver|done]. Qed.

(** ** Triples over the adapter's state *)

Lemma triple_stays {T} (P : option (list Invocation * list Returned) * list kevent → Prop) (m : A T) : astays m →
  triple (λ a, P (view (a_world a))) m (λ _ a, P (view (a_world a))) (λ a, P (view (a_world a))).
Proof. intros Hm a Ha. specialize (Hm a). destruct (m a) as [[x|e] a1]; cbn [snd] in Hm; by rewrite Hm. Qed.

Notation log_ok slack := (λ a : AState (KState C), logs slack (a_world a)).

(** A row is inserted: it may be called. *)
Lemma triple_insert reference i dl :
  triple (log_ok []) (on_world (transaction dl (insert_invocation reference i))) (λ _, log_ok [(reference, i_key i, intent_text i)]) (log_ok []).
Proof.
  intros a Ha. unfold on_world. destruct (transaction dl _ (a_world a)) as [r k'] eqn:E. apply custody_transaction_cases in E as [T1 [[F1 Hr]|(now & d & x & d' & n & F1 & Hb & F2 & _)]].
  - destruct r as [x|e]; [by destruct (Hr x)|]. cbn [a_world]. revert Ha. apply logs_view. unfold view. by rewrite F1, T1.
  - assert (logs [(reference, i_key i, intent_text i)] k') as H; [|destruct r; cbn [a_world]; [done|by apply logs_slack in H]].
    unfold logs in *. rewrite F2, T1. rewrite F1 in Ha. cbn [tables with_watermark cd_invocations cd_returned] in *. unfold insert_invocation in Hb.
    destruct (existsb _ _) eqn:Ex; [done|]. injection Hb as _ <-. cbn [cd_invocations cd_returned]. destruct Ha as [H1 H2 H3 H4].
    assert (∀ v, v ∈ cd_invocations d → iv_reference v ≠ reference ∧ iv_key v ≠ i_key i) as Hf.
    { intros v Hv. apply not_true_iff_false in Ex. rewrite existsb_exists in Ex. split; intros Hq; apply Ex; exists v; (split; [by apply list_elem_of_In|]);
        apply orb_true_iff; [left|right]; by apply bool_decide_eq_true. }
    split.
    + rewrite map_app. apply NoDup_app. split; [done|]. split; [|apply NoDup_singleton]. intros y Hy ->%list_elem_of_singleton.
      apply list_elem_of_fmap in Hy as (v & Hq & Hv). by destruct (Hf v Hv).
    + rewrite map_app. apply NoDup_app. split; [done|]. split; [|apply NoDup_singleton]. intros y Hy ->%list_elem_of_singleton.
      apply list_elem_of_fmap in Hy as (v & Hq & Hv). by destruct (Hf v Hv).
    + unfold rows_of. rewrite map_app. cbn [map app iv_reference iv_key iv_intent] in *. rewrite <- Permutation_cons_append. by apply submseteq_skip.
    + eapply Forall_impl; [exact H4|]. intros v (j & q & Hin & Hq & Hg & w & Hw & Hw'). exists j, q. split_and!; try done. exists w. set_solver.
Qed.
Lemma triple_called reference i :
  triple (log_ok [(reference, i_key i, intent_text i)]) (on_world (log (KCalled reference i)))
    (λ _ a, logs [] (a_world a) ∧ KCalled reference i ∈ k_trace (a_world a)) (log_ok []).
Proof.
  intros a Ha. cbn. split; [|set_solver]. unfold logs in *. cbn [k_file k_trace a_world] in *. destruct (tables (k_file (a_world a))) as [[inv ret]|]; [|by destruct Ha].
  destruct Ha as [H1 H2 H3 H4]. split; try done.
  - rewrite calls_app, map_app. cbn [calls omap list_omap map app row_of fst snd] in *. by rewrite <- Permutation_cons_append.
  - eapply Forall_impl; [exact H4|]. intros v. apply returned_more.
Qed.

Lemma logs_returned reference i r evidence k : logs [] k → logs [] (log (KReturned reference i r evidence) k).2.
Proof.
  unfold logs. cbn [log modify snd k_file k_trace]. destruct (tables (k_file k)) as [[inv rets]|]; [|by rewrite calls_return].
  intros [H1 H2 H3 H4]. split; try done; [by rewrite calls_return|]. eapply Forall_impl; [exact H4|]. intros v. apply returned_more.
Qed.

Lemma validate_genuine i r raw a a' : validate i r raw a = (Ok tt, a') → genuine i r.
Proof.
  unfold validate_returned. intros H. inv_tx.
  match goal with H : require (retained_binding _ _ _ _ _) _ = _ |- _ => apply require_ok in H; rename H into Hb end.
  match goal with H : positional_build _ _ _ _ = _ |- _ => apply positional_build_ok in H as [Hi _] end.
  unfold retained_binding in Hb. destruct (r_confirmed_at r) as [[t|]|] eqn:Et; inv_bool; try done.
  split_and!; try done. by exists t.
Qed.
Lemma triple_validate (P : option (list Invocation * list Returned) * list kevent → Prop) i r raw :
  triple (λ a, P (view (a_world a))) (validate i r raw) (λ _ a, P (view (a_world a)) ∧ genuine i r) (λ a, P (view (a_world a))).
Proof.
  intros a Ha. pose proof (astays_validate i r raw a) as V. destruct (validate i r raw a) as [[[]|e] a'] eqn:E; cbn [snd] in V; rewrite V; [|done].
  split; [done|]. by apply validate_genuine in E.
Qed.
Lemma triple_return reference i r evidence dl : genuine i r →
  triple (λ a, logs [] (a_world a) ∧ KCalled reference i ∈ k_trace (a_world a) ∧ KReturned reference i r evidence ∈ k_trace (a_world a))
    (on_world (transaction dl (insert_returned reference r evidence))) (λ _, log_ok []) (log_ok []).
Proof.
  intros Hg a (Ha & Hc & Hr). unfold on_world. destruct (transaction dl _ (a_world a)) as [res_ k'] eqn:E.
  assert (logs [] k') as H; [|by destruct res_].
  apply custody_transaction_cases in E as [T1 [[F1 _]|(now & d & x & d' & n & F1 & Hb & F2 & _)]]; [revert Ha; apply logs_view; unfold view; by rewrite F1, T1|].
  unfold logs in *. rewrite F2, T1. rewrite F1 in Ha. cbn [tables with_watermark cd_invocations cd_returned] in *. unfold insert_returned in Hb.
  destruct (_ || _); [done|]. injection Hb as _ <-. cbn [cd_invocations cd_returned]. destruct Ha as [H1 H2 H3 H4]. split; try done.
  apply Forall_app. split; [done|]. constructor; [|done]. exists i, r. cbn [rt_reference rt_result rt_evidence]. split_and!; try done.
  assert ((reference, i_key i, intent_text i) ∈ rows_of (cd_invocations d)) as Hin.
  { apply (elem_of_submseteq (map row_of (calls (k_trace (a_world a))))); [|exact H3]. apply list_elem_of_fmap. exists (reference, i). split; [done|by apply calls_elem]. }
  apply list_elem_of_fmap in Hin as (v & Hv & Hin). injection Hv as Hv1 Hv2 Hv3. exists v. done.
Qed.

Lemma invoke_logs i reference origin a : logs [] (a_world a) → logs [] (a_world (call i reference origin a).2).
Proof.
  intros Ha. enough (triple (log_ok []) (call i reference origin) (λ _, log_ok []) (log_ok [])) as H.
  { specialize (H a Ha). by destruct (call i reference origin a) as [[x|e] a']. }
  assert (∀ {T} (m : A T), astays m → triple (log_ok []) m (λ _, log_ok []) (log_ok [])) as Hst.
  { intros T m Hm b Hb. specialize (Hm b). destruct (m b) as [[x|e] b']; cbn [snd] in Hm; by apply (logs_view [] (a_world b)). }
  set (called a := logs [] (a_world a) ∧ KCalled reference i ∈ k_trace (a_world a)).
  assert (∀ {T} (m : A T), astays m → triple called m (λ _, called) (log_ok [])) as Hct.
  { intros T m Hm b [Hb Hc]. specialize (Hm b). destruct (m b) as [[x|e] b']; cbn [snd] in Hm; [|by apply (logs_view [] (a_world b))].
    split; [by apply (logs_view [] (a_world b))|]. injection Hm as _ Ht. by rewrite Ht. }
  unfold invoke.
  eapply triple_bind; [apply Hst; auto with stays|intros ?; cbv beta]. eapply triple_bind; [apply Hst; auto with stays|intros ?; cbv beta].
  eapply triple_bind; [apply Hst; unfold writer_guard; auto with stays|intros ?; cbv beta]. eapply triple_bind; [apply triple_insert|intros ?; cbv beta].
  eapply triple_bind; [apply triple_called|intros ?; cbv beta]. eapply triple_bind; [apply Hct, astays_produce|intros r].
  eapply triple_bind; [apply Hct; auto with stays|intros ?; cbv beta]. eapply triple_bind; [apply Hct; unfold writer_guard; auto with stays|intros ?; cbv beta].
  case_bool_decide; [|intros b [Hb _]; exact Hb].
  eapply triple_bind; [apply Hct; auto with stays|intros evidence]. eapply triple_bind; [apply Hct; auto with stays|intros text].
  eapply triple_bind; [apply Hct; auto with stays|intros ?; cbv beta].
  set (returned a := called a ∧ KReturned reference i r text ∈ k_trace (a_world a)).
  eapply triple_bind with (Q := λ _, returned).
  { intros b [Hb Hc]. cbn. split; [split|]; cbn [a_world k_trace]; [by apply logs_returned|set_solver|set_solver]. }
  intros ?; cbv beta. eapply triple_bind with (Q := λ _ b, returned b ∧ genuine i r).
  { intros b [[Hb Hc] Hr]. pose proof (astays_validate i r text b) as V. destruct (validate i r text b) as [[[]|e] b'] eqn:E; cbn [snd] in V;
      [|by apply (logs_view [] (a_world b))]. split; [split; [split|]|by apply validate_genuine in E].
    - by apply (logs_view [] (a_world b)).
    - injection V as _ Ht. by rewrite Ht.
    - injection V as _ Ht. by rewrite Ht. }
  intros ?; cbv beta. intros b [[[Hb Hc] Hr] Hg].
  assert (triple (λ a, logs [] (a_world a) ∧ KCalled reference i ∈ k_trace (a_world a) ∧ KReturned reference i r text ∈ k_trace (a_world a))
    (on_world (transaction (dispatch_until (i_window i)) (insert_returned reference r text)) ;*
     on_world (writer_guard ports sha256 integral self (dispatch_until (i_window i))) ;* ret r) (λ _, log_ok []) (log_ok [])) as Hlast;
    [|exact (Hlast b (conj Hb (conj Hc Hr)))].
  eapply triple_bind; [by apply triple_return|intros ?; cbv beta]. eapply triple_bind; [apply Hst; unfold writer_guard; auto with stays|intros ?; cbv beta].
  by intros c Hw.
Qed.

(** *** A history of one file *)

(** What happens to the file: custodians are provisioned, invoked, read and started
    again with a controller of their own, and anything at all may happen to the
    sender and its world. *)
Inductive custody_deed :=
| Provision (deadline : stamp)
| Invoke (i : Intent) (reference : string) (origin : option (Intent * string))
| ReadBack (reference : string) (deadline : stamp)
| Start
| Elsewhere (f : NState C Sender → NState C Sender).
Definition started (k : KState C) : KState C := mkKState (k_native k) (k_file k) (k_calls k) (-1) [] None (k_trace k).
Definition elsewhere (f : NState C Sender → NState C Sender) (k : KState C) : KState C :=
  mkKState (f (k_native k)) (k_file k) (k_calls k) (k_last k) (k_returned k) (k_evidence k) (k_trace k).
Definition custody_step (a : AState (KState C)) (d : custody_deed) : AState (KState C) :=
  match d with
  | Provision dl => (on_world (custody_provision custody_clock custody_fate packet_pin custody_target custody_candidate dl) a).2
  | Invoke i reference origin => (call i reference origin a).2
  | ReadBack reference dl => (on_world (read reference dl) a).2
  | Start => new_adapter (started (a_world a))
  | Elsewhere f => (on_world (modify (elsewhere f)) a).2
  end.
Definition custody_history (ds : list custody_deed) (a : AState (KState C)) : AState (KState C) := fold_left custody_step ds a.

Lemma provision_logs dl k : logs [] k → logs [] (custody_provision custody_clock custody_fate packet_pin custody_target custody_candidate dl k).2.
Proof.
  intros Hk. unfold custody_provision, bind. destruct (guard dl k) as [[now|e] k1] eqn:E1; apply guard_frame in E1 as [F1 T1]; cbn [snd];
    assert (logs [] k1) as H1 by (revert Hk; apply logs_view; unfold view; by rewrite F1, T1); [|done].
  unfold gets. destruct (k_file k1) as [| |d] eqn:Ef; [|done..].
  assert (∀ k2, tables (k_file k2) = Some ([], []) ∨ tables (k_file k2) = None → k_trace k2 = k_trace k1 → logs [] k2) as Hf.
  { intros k2 Hf T2. unfold logs in *. rewrite Ef in H1. rewrite T2. destruct H1 as [_ H1]. destruct Hf as [-> | ->]; [|done].
    split; [constructor..| |constructor]. by rewrite H1. }
  assert (∀ k2, logs [] k2 → logs [] ((let* _ := guard dl in ret tt) k2).2) as Hg.
  { intros k2. apply logs_view. unfold bind, ret. destruct (guard dl k2) as [[n|e] k3] eqn:E2; apply guard_frame in E2 as [F2 T2]; unfold view; cbn [snd]; by rewrite F2, T2. }
  unfold connection. destruct (custody_fate (k_calls k1)); cbn -[custody_guard bind logs].
  - apply Hg, Hf; [by left|done].
  - apply Hf; [by right|done].
  - apply Hf; [by left|done].
Qed.
Lemma step_logs d a : logs [] (a_world a) → logs [] (a_world (custody_step a d)).
Proof.
  intros Ha. destruct d as [dl|i reference origin|reference dl| |f]; cbn [custody_step].
  - unfold on_world. pose proof (provision_logs dl _ Ha) as H. by destruct (custody_provision _ _ _ _ _ dl (a_world a)).
  - by apply invoke_logs.
  - revert Ha. apply logs_view, astays_world, stays_custody_read.
  - done.
  - done.
Qed.
Lemma history_logs ds : ∀ a, logs [] (a_world a) → logs [] (a_world (custody_history ds a)).
Proof. induction ds as [|d ds IH]; intros a Ha; [done|]. by apply IH, step_logs. Qed.
Lemma new_file_logs k : k_file k = CAbsent → k_trace k = [] → logs [] k.
Proof. intros Hf Ht. unfold logs. by rewrite Hf, Ht. Qed.

(** Rows with references of their own give calls with references of their own. *)
Lemma called_once {A} (f : row → A) (g : Invocation → A) slack inv ret evs : (∀ v, f (iv_reference v, iv_key v, iv_intent v) = g v) →
  NoDup (map g inv) → logged slack inv ret evs → NoDup (map (f ∘ row_of) (calls evs)).
Proof.
  intros Hf Hn [_ _ Hc _]. apply submseteq_Permutation in Hc as [rest Hp]. replace (map g inv) with (map f (rows_of inv)) in Hn
    by (unfold rows_of; rewrite map_map; by apply map_ext).
  rewrite Hp, !map_app, map_map in Hn. apply NoDup_app in Hn as [Hn _]. by apply NoDup_app in Hn as (_ & _ & Hn).
Qed.

(** C4: An intent and a reference are handed to the producer at most once, whatever fails. *)
Theorem custody_once ds a : k_file (a_world a) = CAbsent → k_trace (a_world a) = [] →
  let evs := k_trace (a_world (custody_history ds a)) in
  NoDup (map fst (calls evs)) ∧ NoDup (map (λ ri, i_key (snd ri)) (calls evs)).
Proof.
  intros Hf Ht. pose proof (history_logs ds a (new_file_logs _ Hf Ht)) as H. unfold logs in H.
  destruct (tables _) as [[inv rets]|]; cbv zeta; [|destruct H as [_ ->]; split; constructor]. split.
  - apply (called_once (λ x : row, x.1.1) iv_reference) in H; [done..|apply H].
  - apply (called_once (λ x : row, x.1.2) iv_key) in H; [done..|apply H].
Qed.

(** *** Receipts *)

Lemma genuine_read_intent i r : genuine i r → (let? j := loads (intent_text i) in intent_from j) = Ok i.
Proof.
  intros (Hi & _). unfold intent_bad in Hi. inv_check.
  match goal with H : window_validate _ = Ok _ |- _ => apply window_validate_ok in H as (s & d & u & E & _) end. by eapply intent_from_text.
Qed.
Lemma genuine_read_result i r : genuine i r → (let? j := loads (dumps (result_json r)) in result_from j) = Ok r.
Proof.
  intros (_ & Hs & Hr & Hg & Ht & t & Hc & _). destruct r as [s q g st c]. cbn [r_status r_reason r_generation r_state r_confirmed_at] in *. subst s q g st c. unfold result_json. cbn [r_status r_reason r_generation r_state r_confirmed_at stamp_json].
  rewrite loads_back; [reflexivity|]. simpl. split_and!; try done; repeat constructor; set_solver.
Qed.
Lemma find_nodup {A B} `{EqDecision B} (f : A → B) l x w : NoDup (map f l) → w ∈ l → List.find (λ v, bool_decide (f v = f w)) l = Some x → x = w.
Proof.
  induction l as [|y l IH]; intros Hn Hw Hx; [set_solver|]. cbn in *. apply NoDup_cons in Hn as [Hy Hn]. case_bool_decide as Ey.
  - injection Hx as <-. apply elem_of_cons in Hw as [->|Hw]; [done|]. destruct Hy. rewrite Ey. by apply list_elem_of_fmap_2.
  - apply elem_of_cons in Hw as [->|Hw]; [done|]. by apply IH.
Qed.
(** A row that is found is what the producer returned. *)
Lemma returned_row_ok reference d evs x : logged [] (cd_invocations d) (cd_returned d) evs → returned_row reference d = Some x →
  ∃ i r evidence, KReturned reference i r evidence ∈ evs ∧ genuine i r ∧ x = (intent_text i, dumps (result_json r), evidence).
Proof.
  intros [Hn _ _ Hr] Hx. unfold returned_row in Hx. destruct (List.find _ (cd_invocations d)) as [v|] eqn:Ev; [|done].
  destruct (List.find _ (cd_returned d)) as [w|] eqn:Ew; [|done]. injection Hx as <-.
  apply find_some in Ew as [Hw Ew]. apply bool_decide_eq_true in Ew. subst reference. apply list_elem_of_In in Hw. rewrite Forall_forall in Hr.
  destruct (Hr w Hw) as (i & r & Hin & Hq & Hg & y & Hy & Ey & Ei). exists i, r, (rt_evidence w). split; [done|]. split; [done|].
  rewrite <- Ey in Ev. apply (find_nodup iv_reference) in Ev as ->; [|done..]. by rewrite Ei, Hq.
Qed.

(** C5: A receipt that can be read is exactly a confirmed result the producer returned
    for the intent it was called with. *)
Theorem custody_receipt_genuine ds a reference dl receipt k' : k_file (a_world a) = CAbsent → k_trace (a_world a) = [] →
  let k := a_world (custody_history ds a) in
  read reference dl k = (Ok receipt, k') →
  ∃ i r evidence, receipt = mkConfirmedReceipt reference i r "CONFIRMED" ∧ KReturned reference i r evidence ∈ k_trace k ∧ genuine i r
    ∧ i_target_id i = custody_target ∧ i_candidate i = custody_candidate.
Proof.
  intros Hf Ht k H. pose proof (history_logs ds a (new_file_logs _ Hf Ht)) as L. fold k in L. unfold custody_read in H.
  apply bind_ok in H as (row & k1 & Htx & H). apply custody_transaction_cases in Htx as [_ [[_ Hn]|(now & d & x & d' & n & F1 & Hb & _ & Hx)]]; [by destruct (Hn row)|].
  specialize (Hx _ eq_refl) as ->. injection Hb as <- <-. unfold logs in L. rewrite F1 in L. cbn [tables] in L.
  destruct (returned_row reference d) as [x|] eqn:Er; [|done].
  apply (returned_row_ok _ _ _ _ L) in Er as (i & r & evidence & Hin & Hg & ->).
  pose proof (genuine_read_intent i r Hg) as Ri. pose proof (genuine_read_result i r Hg) as Rr.
  revert Ri Rr H. generalize (intent_text i) (dumps (result_json r)). intros intent_row result_row Ri Rr H.
  inv_tx. cbn [fst snd some_or] in *. simplify_eq.
  match goal with H : require _ _ = Ok _ |- _ => apply require_ok in H end. inv_bool.
  cbn [fst snd] in *. rewrite Ri in *. rewrite Rr in *. simplify_eq. by exists x0, x1, evidence.
Qed.
End Custodian.
End Custody.
