(* ===== verification/NativeCredential.v ===== *)
(** The protected credential over its life: one delivery at most, inside its deadline,
    of the exact token the pinned review names for this packet. *)
From S2P Require Import Prelude Json JsonParse Oracle Evidence Control D1Port D1Journal D1JournalFacts ExactCount ExactCountFacts NativeBinding NativeSender NativeCustody.

Section Delivered.
Context {C : Type} (clock : M C stamp) (plain_file : string → M C bool) (read_file : string → M C string).
Context (sha256 : string → string) (integral : string → option Z).
Context (delivery : C → Delivery) (set_delivery : Delivery → C → C) (pc : Protected).
Notation eqb := (py_eqb integral).
Notation guard := (credential_guard clock delivery set_delivery pc).
Notation pin := (_pin plain_file read_file sha256 integral).
Notation deliver := (deliver clock plain_file read_file sha256 integral delivery set_delivery pc).
Notation validate := (validate_binding clock plain_file read_file sha256 integral delivery set_delivery pc).

(** The clock and the files do not touch the credential object. *)
Definition keeps_used {T} (m : M C T) : Prop := ∀ c, dv_used (delivery (m c).2) = dv_used (delivery c).
Record apart := {
  ap_set d c : delivery (set_delivery d c) = d;
  ap_clock : keeps_used clock;
  ap_plain p : keeps_used (plain_file p);
  ap_read p : keeps_used (read_file p);
}.
Context (Hapart : apart).

Lemma used_bind {T U} (m : M C T) (f : T → M C U) : keeps_used m → (∀ x, keeps_used (f x)) → keeps_used (bind m f).
Proof. intros Hm Hf c. unfold bind. specialize (Hm c). destruct (m c) as [[x|e] c1]; cbn [snd] in *; [|done]. by rewrite Hf. Qed.
Lemma used_lift {T} (r : res T) : keeps_used (lift r).
Proof. done. Qed.
Lemma used_pin path expected limit : keeps_used (pin path expected limit).
Proof.
  unfold _pin. destruct path as [| | | |p| |]; try done.
  apply used_bind; [apply Hapart|intros ?]. do 2 (apply used_bind; [apply used_lift|intros ?]).
  apply used_bind; [apply Hapart|intros raw]. by apply used_bind; [apply used_lift|].
Qed.
Lemma used_guard : keeps_used guard.
Proof.
  unfold credential_guard. apply used_bind; [apply Hapart|intros now]. apply used_bind; [done|intros d].
  destruct now, (pc_deadline pc); try done. apply used_bind; [apply used_lift|intros _ c]. unfold modify. cbn [snd]. by rewrite (ap_set Hapart).
Qed.
Lemma used_provenance grant custody : keeps_used (check_provenance plain_file read_file sha256 integral grant custody).
Proof. unfold check_provenance. apply used_bind; [apply used_pin|intros _]. by apply used_bind; [apply used_pin|]. Qed.
Lemma used_validate a b j c g k : keeps_used (validate a b j c g k).
Proof.
  unfold validate_binding. apply used_bind; [apply used_guard|intros _]. apply used_bind; [apply used_lift|intros _].
  apply used_bind; [apply used_pin|intros raw]. by apply used_bind; [apply used_lift|intros ?].
Qed.

(** What a pinned read returned. *)
Lemma pin_ok path expected limit c raw c' : pin path expected limit c = (Ok raw, c') →
  ∃ p d, path = JStr p ∧ expected = JStr d ∧ is_digest d = true ∧ sha256 raw = d ∧ slen raw <= limit.
Proof.
  unfold _pin. destruct path as [| | | |p| |]; try done. intros H. inv_tx.
  repeat match goal with H : require _ _ = Ok _ |- _ => apply require_ok in H end. inv_bool.
  match goal with H : digest_of expected = true |- _ => unfold digest_of in H; destruct expected as [| | | |digest| |]; try done end.
  match goal with H : py_eqb _ _ _ = true |- _ => apply py_eqb_str in H; injection H as H end.
  by exists p, digest.
Qed.

(** What a delivered token is: the token the pinned review names for this packet,
    target and source. *)
Definition delivered_token (token : string) : Prop :=
  ∃ review record path item,
    token_grammar token = true ∧ sha256 review = pc_review_pin pc ∧ loads_bytes review = Ok (JObj record)
    ∧ dict_get "packetSha2_256" record = Some (JStr (pc_packet_pin pc)) ∧ dict_get "target" record = Some (JStr (pc_target pc))
    ∧ eqb (field "sourcePins" record) (pc_source_pins pc) = true
    ∧ dict_get "credential" record = Some (JObj item) ∧ dict_get "path" item = Some (JStr path)
    ∧ dict_get "sha2_256" item = Some (JStr (sha256 token)).

Definition in_time (c : C) : Prop := ∃ e, pc_deadline pc = At e ∧ 0 <= dv_last_time (delivery c) < e.
Lemma guard_in_time c x c' : guard c = (Ok x, c') → in_time c'.
Proof.
  unfold credential_guard. intros H. apply bind_ok in H as (now & c1 & _ & H). apply bind_ok in H as (d & c2 & Hd & H). injection Hd as <- <-.
  destruct now as [n|]; [|done]. destruct (pc_deadline pc) as [e|] eqn:He; [|done]. inv_tx.
  match goal with H : require _ _ = Ok _ |- _ => apply require_ok in H end. inv_bool. exists e. split; [done|]. rewrite (ap_set Hapart). cbn. lia.
Qed.
Lemma review_item_ok name record pd : review_item name record = Ok pd → ∃ item, field name record = JObj item ∧ same_keys item ["path"; "sha2_256"] = true
  ∧ pd = (field "path" item, field "sha2_256" item).
Proof. unfold review_item. destruct (field name record) as [| | | | | |item]; try done. intros H. inv_check. exists item. done. Qed.

(** A delivery: the credential was unused, and the token is the reviewed one. *)
Lemma deliver_ok c v c' : deliver c = (Ok v, c') → dv_used (delivery c) = false ∧ in_time c' ∧ ∃ token, v = PStr token ∧ delivered_token token.
Proof.
  unfold NativeCustody.deliver. intros H. inv_tx.
  repeat match goal with
  | H : require _ _ = Ok _ |- _ => apply require_ok in H
  | H : closed _ _ _ = Ok _ |- _ => apply closed_ok in H as [-> ?]
  | H : review_item "credential" _ = Ok _ |- _ => apply review_item_ok in H as (item & Hitem & Hkeys & ->)
  | H : review_file _ _ _ _ _ _ = (Ok ?raw, _) |- _ => unfold review_file in H; apply pin_ok in H as (? & ? & _ & [= <-] & _ & ? & _)
  | H : pin _ _ 4096 _ = (Ok _, _) |- _ => apply pin_ok in H as (path & digest & Hpath & Hdigest & _ & Hsha & _)
  | H : guard _ = (Ok _, c') |- _ => apply guard_in_time in H
  end. inv_bool. split; [done|]. split; [done|]. cbn [fst snd] in *.
  match goal with Hr : same_keys ?record review_keys = true, Ht : token_grammar ?token = true, Hd : loads_bytes ?review = Ok _ |- _ =>
    exists token; split; [done|]; exists review, record, path, item;
    pose proof (λ k, closed_field record review_keys k Hr) as Hfield end.
  assert (∀ k, k ∈ ["path"; "sha2_256"] → dict_get k item = Some (field k item)) as Hf by (intros k; by apply closed_field).
  repeat match goal with H : eqb _ (JStr _) = true |- _ => apply py_eqb_str in H end.
  split_and!; try done; [by rewrite Hfield, H5 by set_solver|by rewrite Hfield, H4 by set_solver|by rewrite Hfield, Hitem by set_solver
    |by rewrite Hf, Hpath by set_solver|by rewrite Hf, Hdigest, Hsha by set_solver].
Qed.
(** Spent by its first call, whatever that call meets. *)
Lemma deliver_spends c : dv_used (delivery (deliver c).2) = true.
Proof.
  unfold NativeCustody.deliver. unfold bind at 1. cbn [gets]. unfold bind at 1. cbn [modify].
  match goal with |- dv_used (delivery (?m ?c1).2) = true => assert (keeps_used m) as Hm; [|rewrite Hm, (ap_set Hapart); done] end.
  repeat first [apply used_lift | apply used_guard | apply used_provenance | apply used_pin | done | apply used_bind; [|intros ?]].
Qed.

(** *** A life of the credential *)

(** It is called, checked against a packet, or something else happens to the world. *)
Inductive use :=
| Deliver
| Validate (packet target : string) (sources : json) (credential : string) (grant custody : json)
| Aside (f : C → C).
Definition apart_use (u : use) : Prop := match u with Aside f => ∀ c, dv_used (delivery (f c)) = dv_used (delivery c) | _ => True end.
(** The credentials delivered, and the world. *)
Fixpoint uses (us : list use) (c : C) : list pyval * C :=
  match us with
  | [] => ([], c)
  | Deliver :: us' => let (r, c1) := deliver c in let (l, c2) := uses us' c1 in (match r with Ok v => v :: l | Err _ => l end, c2)
  | Validate a b j d g k :: us' => uses us' (validate a b j d g k c).2
  | Aside f :: us' => uses us' (f c)
  end.

Lemma spent_delivers_none us : Forall apart_use us → ∀ c, dv_used (delivery c) = true → (uses us c).1 = [].
Proof.
  induction 1 as [|u us Hu Hus IH]; intros c Hc; [done|]. destruct u as [|a b j d g k|f]; cbn [uses].
  - pose proof (deliver_spends c) as Hs. destruct (deliver c) as [[v|e] c1] eqn:E; [apply deliver_ok in E as [E _]; congruence|].
    specialize (IH c1 Hs). by destruct (uses us c1).
  - apply IH. by rewrite (used_validate a b j d g k c).
  - apply IH. by rewrite Hu.
Qed.

(** C31: A credential is delivered once at most over its life, and only the token that the
    pinned review names. *)
Theorem credential_one_use us c : Forall apart_use us →
  (length (uses us c).1 <= 1)%nat ∧ Forall (λ v, ∃ token, v = PStr token ∧ delivered_token token) (uses us c).1.
Proof.
  intros Hus. revert c. induction Hus as [|u us Hu Hus IH]; intros c; [by split; [cbn; lia|constructor]|]. destruct u as [|a b j d g k|f]; cbn [uses]; [|apply IH..].
  pose proof (deliver_spends c) as Hs. destruct (deliver c) as [[v|e] c1] eqn:E; pose proof (spent_delivers_none us Hus c1 Hs) as Hn;
    destruct (uses us c1) as [l c2]; cbn [fst snd] in *; subst l; [|by split; [cbn; lia|constructor]].
  apply deliver_ok in E as (_ & _ & Hv). split; [cbn; lia|]. by constructor.
Qed.
End Delivered.
