(* ===== verification/NativeCustodyExample.v ===== *)
(** The custodian run: a controller closes the table through the positional sender,
    its return is retained, and the receipt is read back; the credential is delivered
    once. *)
From S2P Require Import Prelude Json JsonParse Oracle Evidence Control D1Port D1Journal D1JournalFacts D1Adapter D1AdapterFacts D1Protocol D1Campaign D1Target D1Rehearsal ExactCount NativeBinding NativeSender NativeSenderFacts NativeExample NativeCustody NativeCustodyFacts NativeCredential.

(** ** A packet of five requests: two observations around the write *)

Definition run_queries : list Query :=
  [mkQuery "observer" READBACK_SQL []; mkQuery "observer" SCHEMA_SQL []; mkQuery "writer" lab_close ["41"];
   mkQuery "observer" READBACK_SQL []; mkQuery "observer" SCHEMA_SQL []].
Definition observed_request (sql : string) : json := read_manifest lab_sha256 (JStr sql) (JArr []).
Definition run_requests : list json :=
  [observed_request READBACK_SQL; observed_request SCHEMA_SQL;
   manifest_of lab_sha256 POSITIONAL_BOUNDARY (body_of lab_batch) (batch_statements lab_close "41");
   observed_request READBACK_SQL; observed_request SCHEMA_SQL].
Definition run_allocation : string := Eval vm_compute in canonical (allocation_json run_requests (limits_json 5 6)).
Definition run_retained (path : string) : string := if bool_decide (path = "/allocation") then run_allocation else path.
Definition run_packet : string := Eval vm_compute in canonical (packet_json (ref_of run_retained) run_queries).
Definition run_pin : string := Eval vm_compute in lab_sha256 run_packet.
Definition run_file (path : string) : string := if bool_decide (path = "/packet") then run_packet else run_retained path.
Definition run_self : Settings := mkSettings "/packet" run_pin (mkSourceDescriptor CANDIDATE site_manifest).
Definition run_admission : ReviewedAdmission := admission_of (ref_of run_retained) run_pin.
Definition run_credential : Credential Lab :=
  mkCredential _ (evidence_path "protectedDelivery") (lab_sha256 (evidence_path "protectedDelivery")) (λ _ _ _ _ _ _, ret tt) (ret (PStr lab_token)).

(** The provider of the lab, with an empty schema. *)
Definition run_https (request : HttpRequest) (check : M Lab unit) : M Lab Response :=
  if contains (dumps (JStr SCHEMA_SQL)) (rq_wire request) then check ;* ret (lab_answer [lab_result []]) else lab_https request check.
Definition run_ports : NativePorts Lab := {|
  np_adapter := lab_adapter 0;
  np_plain_path _ := ret true;
  np_read path := ret (run_file path);
  np_source_pins := ret lab_pins;
  np_https := run_https;
|}.

Definition run_at : NState Lab Sender := Eval vm_compute in
  (activate_native run_ports sound_io lab_sha256 no_integral lab_address run_self (Some run_credential) (Some run_admission)
     (fresh (mkState (Provisioned (empty_db lab_target run_pin)) 0 (mkLab 0 [control_at 41 "open"])))).2.
Definition run_start : AState (KState Lab) := new_adapter (mkKState run_at CAbsent 0 (-1) [] None []).

Notation custody_run ds := (custody_history run_ports sound_io lab_sha256 no_integral run_self lab_target (lab_clock 0) sound_io
  run_pin lab_target CANDIDATE ds run_start).
Definition run_deeds : list (custody_deed (C:=Lab)) :=
  [Provision (At 300); Invoke lab_intent "native:close-1" None; Invoke lab_intent "native:close-2" None; Start; Invoke lab_intent "native:close-1" None].
Definition events_of (l : list kevent) : list (string * string) :=
  map (λ e, match e with KCalled r i => (r, i_key i) | KReturned r i x _ => (r, r_status x) end) l.

Lemma custody_once_witness : k_file (a_world run_start) = CAbsent ∧ k_trace (a_world run_start) = []
  ∧ NoDup (map fst (calls (k_trace (a_world (custody_run run_deeds))))).
Proof.
  split; [reflexivity|]. split; [reflexivity|].
  exact (proj1 (custody_once run_ports sound_io lab_sha256 no_integral run_self lab_target (lab_clock 0) sound_io run_pin lab_target CANDIDATE
                  run_deeds run_start eq_refl eq_refl)).
Defined.

Notation run_read := (custody_read run_ports sound_io lab_sha256 no_integral run_self (lab_clock 0) sound_io run_pin lab_target CANDIDATE
  "native:close-1" (At 300)).
Definition run_result : Result :=
  mkResult "confirmed" "one_row_and_independent_readback" (Some "42") (Some "closed") (Some (At 0)).
Definition run_retained_receipt : ConfirmedReceipt := mkConfirmedReceipt "native:close-1" lab_intent run_result "CONFIRMED".
(** A second reference for the same intent, and the reference of a second custodian,
    call nothing; the receipt is read back. *)
Lemma run_outcome : let k := a_world (custody_run run_deeds) in
  (events_of (k_trace k), fst (run_read k)) = ([("native:close-1", "close-1"); ("native:close-1", "confirmed")], Ok run_retained_receipt).
Proof.
  vm_cast_no_check (eq_refl (A:=list (string * string) * res ConfirmedReceipt)
    ([("native:close-1", "close-1"); ("native:close-1", "confirmed")], Ok run_retained_receipt)).
Qed.
Lemma run_receipt : ∃ k', run_read (a_world (custody_run run_deeds)) = (Ok run_retained_receipt, k').
Proof. apply fst_is. pose proof run_outcome as H. cbv zeta in H. apply pair_equal_spec in H as [_ H]. exact H. Qed.
Lemma custody_receipt_genuine_witness : ∃ evidence,
  KReturned "native:close-1" lab_intent run_result evidence ∈ k_trace (a_world (custody_run run_deeds)) ∧ genuine lab_intent run_result.
Proof.
  destruct run_receipt as [k' E].
  destruct (custody_receipt_genuine run_ports sound_io lab_sha256 no_integral run_self lab_target (lab_clock 0) sound_io run_pin lab_target CANDIDATE
              run_deeds run_start "native:close-1" (At 300) _ _ eq_refl eq_refl E) as (i & r & evidence & [= <- <-] & Hin & Hg & _).
  exists evidence. split; [exact Hin|exact Hg].
Defined.

(** ** The credential *)

Definition review_text : string := Eval vm_compute in
  canonical (JObj [("kind", JStr "pmb1-reviewed-protected-delivery-v1"); ("packetSha2_256", JStr run_pin); ("target", JStr lab_target);
    ("sourcePins", lab_pins);
    ("credential", JObj [("path", JStr "/token"); ("sha2_256", JStr (lab_sha256 lab_token))]);
    ("grant", JObj [("path", JStr "/grant"); ("sha2_256", JStr (lab_sha256 "/grant"))]);
    ("custody", JObj [("path", JStr "/custody"); ("sha2_256", JStr (lab_sha256 "/custody"))])]).
Definition protected_file (path : string) : string :=
  if bool_decide (path = "/review") then review_text else if bool_decide (path = "/token") then lab_token else path.
Definition reviewed : Protected := mkProtected "/review" (lab_sha256 review_text) run_pin lab_target lab_pins (At 300).
Definition token_clock : M Delivery stamp := λ d, (Ok (At 7), d).
Lemma token_apart : apart token_clock (λ _, ret true) (λ p, ret (protected_file p)) id (λ d _, d).
Proof. done. Qed.
Notation token_uses := (uses token_clock (λ _, ret true) (λ p, ret (protected_file p)) lab_sha256 no_integral id (λ d _, d) reviewed).
(** The second call delivers nothing. *)
Lemma token_delivered : token_uses [Aside (λ d, d); Deliver; Deliver] new_delivery = ([PStr lab_token], mkDelivery true 7).
Proof. vm_compute. reflexivity. Qed.
Lemma credential_one_use_witness :
  (length (token_uses [Aside (λ d, d); Deliver; Deliver] new_delivery).1 <= 1)%nat
  ∧ ∃ token, PStr lab_token = PStr token
      ∧ delivered_token lab_sha256 no_integral reviewed token.
Proof.
  destruct (credential_one_use token_clock (λ _, ret true) (λ p, ret (protected_file p)) lab_sha256 no_integral id (λ d _, d) reviewed token_apart
              [Aside (λ d, d); Deliver; Deliver] new_delivery ltac:(repeat constructor)) as [H1 H2].
  split; [exact H1|]. rewrite token_delivered in H2. exact (Forall_inv H2).
Defined.
