(* ===== verification/SnapshotCodec.v ===== *)
(** The relational snapshot planner and decoder of scripts/private_d1_snapshot_codec.py
    in its default strict profile ([profile_manifest=None]): which SELECTs are sent,
    how a census becomes a plan, how pages become typed cells, and what is assembled.

    A value of unknown type is a [json] document: what the transport hands over. *)
From S2P Require Import Prelude Json JsonParse Oracle Evidence.

(** ** Bounds and fixed queries *)

Definition MAX_COLUMNS : Z := 256.
Definition MAX_PAGE_ROWS : Z := 256.
Definition MAX_QUERIES : Z := MAX_ROWS + 3 * MAX_TABLES + 3.

Definition SCHEMA_SQL : string :=
  "SELECT type,name,tbl_name,sql FROM main.sqlite_schema ORDER BY type,name,tbl_name LIMIT " +:+ str_of_int (MAX_SCHEMA + 1).
Definition TABLE_LIST_SQL : string :=
  "SELECT schema,name,type,ncol,wr," +:+ dquote +:+ "strict" +:+ dquote
  +:+ " FROM pragma_table_list WHERE schema='main' ORDER BY name LIMIT " +:+ str_of_int (MAX_SCHEMA + 1).
Definition ENCODING_SQL : string := "SELECT hex(CAST('A' AS BLOB)) AS encoding_probe".

(** ** Shapes *)

Definition _keys (value : json) (expected : list string) (category : string) : res (list (string * json)) :=
  closed value expected category.

(** No code point of the model's strings is a surrogate. *)
Definition name_ok (s : string) : bool := (0 <? slen s) && (slen s <=? 4096) && negb (mem_char (chr 0) s).
Definition _name (value : json) : bool := match value with JStr s => name_ok s | _ => false end.

Definition _identifier (value : string) : res string :=
  require (name_ok value) "unsupported_identifier" ;? Ok (quote value).

(** [value.replace("'", "''")] *)
Fixpoint double_apostrophes (s : string) : string :=
  match s with
  | String c s' => if code c =? 39 then String c (String c (double_apostrophes s')) else String c (double_apostrophes s')
  | EmptyString => EmptyString
  end.
Definition columns_sql (name : string) : res string :=
  require (name_ok name) "unsupported_identifier" ;?
  Ok ("SELECT cid,name,type," +:+ dquote +:+ "notnull" +:+ dquote +:+ ",dflt_value,pk,hidden FROM pragma_table_xinfo('"
      +:+ double_apostrophes name +:+ "') ORDER BY cid LIMIT " +:+ str_of_int (MAX_COLUMNS + 1)).

(** ** The plan *)

Record TablePlan := mkTablePlan {
  name : string;
  columns : list string;
  rowid_alias : option string;
  key_columns : list nat;
}.
(** A row of the schema census: type, name, table name, SQL text or null. *)
Record SchemaRow := mkSchemaRow { s_type : string; s_name : string; s_tbl_name : string; s_sql : option string }.
#[export] Instance SchemaRow_eq_dec : EqDecision SchemaRow.
Proof. solve_decision. Defined.
Record SnapshotPlan := mkSnapshotPlan {
  schema : list SchemaRow;
  tables : list TablePlan;
  page_size : Z;
}.

Definition schema_keys : list string := ["type"; "name"; "tbl_name"; "sql"].
Definition storage_keys : list string := ["schema"; "name"; "type"; "ncol"; "wr"; "strict"].
Definition column_keys : list string := ["cid"; "name"; "type"; "notnull"; "dflt_value"; "pk"; "hidden"].

(** The loop over the schema rows: the rows and the objects seen. *)
Definition read_schema_row (acc : list SchemaRow) (row : json) : res (list SchemaRow) :=
  let? d := _keys row schema_keys "invalid_schema" in
  require (str_among ["table"; "index"; "view"; "trigger"] (field "type" d) && _name (field "name" d)
           && _name (field "tbl_name" d) && null_or_text (field "sql" d)) "invalid_schema" ;?
  let r := mkSchemaRow (text_of (field "type" d)) (text_of (field "name" d)) (text_of (field "tbl_name" d))
             (match field "sql" d with JStr s => Some s | _ => None end) in
  require (negb (bool_decide ((s_type r, s_name r) ∈ map (λ x, (s_type x, s_name x)) acc))) "duplicate_schema_object" ;?
  require (negb (bool_decide (s_type r = "table")) || bool_decide (s_name r = s_tbl_name r)) "invalid_table_identity" ;?
  Ok (acc ++ [r]).

(** [schema == sorted(schema, key=lambda row: row[:3])]: tuples compare
    componentwise, and the sort is stable. *)
Definition triple_leb (a b : SchemaRow) : bool :=
  if negb (bool_decide (s_type a = s_type b)) then String.leb (s_type a) (s_type b)
  else if negb (bool_decide (s_name a = s_name b)) then String.leb (s_name a) (s_name b)
  else String.leb (s_tbl_name a) (s_tbl_name b).
Definition names_of (kind : string) (rows : list SchemaRow) : list string :=
  map s_name (filter (λ r, s_type r = kind) rows).

(** A row of the storage census: name, type, column count, without-rowid flag. *)
Record Storage := mkStorage { st_name : string; st_type : string; st_ncol : Z; st_wr : Z }.

Definition bit (z : Z) : bool := (z =? 0) || (z =? 1).
Definition read_storage_row (acc : list Storage) (row : json) : res (list Storage) :=
  let? d := _keys row storage_keys "invalid_storage_census" in
  require (str_among ["main"] (field "schema" d) && _name (field "name" d)
           && str_among ["table"; "view"; "virtual"; "shadow"] (field "type" d)
           && int_where (λ n, (0 <? n) && (n <=? MAX_COLUMNS)) (field "ncol" d)
           && int_where bit (field "wr" d) && int_where bit (field "strict" d)) "invalid_storage_census" ;?
  require (negb (str_among ["virtual"; "shadow"] (field "type" d))) "virtual_table_not_supported" ;?
  let s := mkStorage (text_of (field "name" d)) (text_of (field "type" d)) (int_of (field "ncol" d)) (int_of (field "wr" d)) in
  require (negb (str_in (st_name s) (map st_name acc))) "duplicate_storage_object" ;?
  Ok (acc ++ [s]).

Definition storage_of (name : string) (l : list Storage) : res Storage :=
  match List.find (λ s, bool_decide (st_name s = name)) l with Some s => Ok s | None => Err (External "KeyError") end.

(** The loop over the columns of a table: the names and the primary key, each
    position of the key with the index of its column. *)
Definition read_column (count : Z) (acc : list string * list (Z * nat)) (column : json) : res (list string * list (Z * nat)) :=
  let index := length acc.1 in
  let? d := _keys column column_keys "invalid_column_metadata" in
  require (int_where (λ z, z =? Z.of_nat index) (field "cid" d) && _name (field "name" d) && _text (field "type" d)
           && int_where bit (field "notnull" d) && null_or_text (field "dflt_value" d)
           && int_where (λ z, (0 <=? z) && (z <=? count)) (field "pk" d)
           && int_where (λ z, bool_decide (z ∈ [0; 2; 3])) (field "hidden" d)) "unsupported_column_metadata" ;?
  let pk := int_of (field "pk" d) in
  require ((pk =? 0) || negb (bool_decide (pk ∈ map fst acc.2))) "invalid_primary_key" ;?
  Ok (acc.1 ++ [text_of (field "name" d)], if pk =? 0 then acc.2 else acc.2 ++ [(pk, index)]).

Definition rowid_aliases (names : list string) : list string :=
  filter (λ a, a ∉ map lower names) ["rowid"; "_rowid_"; "oid"].

(** [set(primary) == set(range(1, len(primary) + 1))] and the indexes in order *)
Definition primary_complete (primary : list (Z * nat)) : bool :=
  negb (bool_decide (primary = []))
  && forallb (λ k, bool_decide (k ∈ seqZ 1 (Z.of_nat (length primary)))) (map fst primary)
  && forallb (λ k, bool_decide (k ∈ map fst primary)) (seqZ 1 (Z.of_nat (length primary))).
Definition primary_indexes (primary : list (Z * nat)) : list nat :=
  map snd (sort_by (λ a b, fst a <=? fst b) primary).

(** The body of [for name in table_names]. *)
Definition plan_table (columns_by_table : list (string * json)) (storage : list Storage) (name : string) : res TablePlan :=
  let? info := storage_of name storage in
  require (bool_decide (st_type info = "table")) "unsupported_table_storage" ;?
  let? listed := match dict_get name columns_by_table with Some v => Ok v | None => Err (External "KeyError") end in
  let? listed := list_of listed "column_bound_exceeded" in
  let count := Z.of_nat (length listed) in
  require ((0 <? count) && (count <=? MAX_COLUMNS)) "column_bound_exceeded" ;?
  require (count =? st_ncol info) "column_census_mismatch" ;?
  let? np := foldR (read_column count) ([], []) listed in
  require (bool_decide (NoDup np.1)) "duplicate_column" ;?
  if st_wr info =? 0 then
    match rowid_aliases np.1 with
    | alias :: _ => Ok (mkTablePlan name np.1 (Some alias) [])
    | [] => Err (Refusal "hidden_rowid_inaccessible")
    end
  else
    require (primary_complete np.2) "without_rowid_key_unknown" ;?
    Ok (mkTablePlan name np.1 None (primary_indexes np.2)).

Definition build_plan (schema_rows storage_rows columns_by_table : json) (page_size : Z) : res SnapshotPlan :=
  require ((1 <=? page_size) && (page_size <=? MAX_PAGE_ROWS)) "invalid_page_size" ;?
  let? rows := list_of schema_rows "schema_bound_exceeded" in
  require (Z.of_nat (length rows) <=? MAX_SCHEMA) "schema_bound_exceeded" ;?
  let? listed := list_of storage_rows "invalid_storage_census" in
  require (Z.of_nat (length listed) <=? MAX_SCHEMA) "invalid_storage_census" ;?
  let? columns := match columns_by_table with JObj d => Ok d | _ => Err (Refusal "invalid_column_census") end in
  _json (JArr [schema_rows; storage_rows; columns_by_table]) ;?
  let? schema := foldR read_schema_row [] rows in
  require (bool_decide (schema = sort_by triple_leb schema)) "noncanonical_schema_census" ;?
  let table_names := sort_texts (names_of "table" schema) in
  let view_names := names_of "view" schema in
  require (Z.of_nat (length table_names) <=? MAX_TABLES) "table_bound_exceeded" ;?
  require (same_set (map fst columns) table_names) "column_census_mismatch" ;?
  let? storage := foldR read_storage_row [] listed in
  require (same_set (map st_name storage) (table_names ++ view_names ++ ["sqlite_schema"])) "schema_storage_census_mismatch" ;?
  let? own := storage_of "sqlite_schema" storage in
  require (bool_decide (st_type own = "table")) "invalid_schema_storage" ;?
  let? views := mapR (λ n, storage_of n storage) view_names in
  require (forallb (λ s, bool_decide (st_type s = "view")) views) "invalid_view_storage" ;?
  let? tables := mapR (plan_table columns storage) table_names in
  Ok (mkSnapshotPlan schema tables page_size).

(** ** Queries and pages *)

Definition count_sql (table : TablePlan) : res string :=
  let? q := _identifier (name table) in
  Ok ("SELECT CAST(count(*) AS TEXT) AS row_count FROM main." +:+ q).

(** [re.fullmatch(r"(?:0|-[1-9][0-9]*|[1-9][0-9]*)", value)] *)
Definition positive_text (s : string) : bool := isdecimal s && negb (head_is "0" s).
Definition decimal_grammar (s : string) : bool :=
  bool_decide (s = "0") || (head_is "-" s && positive_text (after_prefix "-" s)) || positive_text s.
Definition _decimal (value : json) : res Z :=
  match value with
  | JStr s =>
      require (decimal_grammar s) "invalid_integer_wire_value" ;?
      require (slen s <=? 20) "invalid_integer_wire_value" ;?
      let number := if head_is "-" s then - int_of_str (after_prefix "-" s) else int_of_str s in
      require ((- 2 ^ 63 <=? number) && (number <? 2 ^ 63)) "integer_range_exceeded" ;?
      Ok number
  | _ => Err (Refusal "invalid_integer_wire_value")
  end.

Definition decode_count (rows : json) : res Z :=
  match rows with
  | JArr [row] =>
      let? d := _keys row ["row_count"] "invalid_row_count" in
      let? count := _decimal (field "row_count" d) in
      require ((0 <=? count) && (count <=? MAX_ROWS)) "row_bound_exceeded" ;?
      Ok count
  | _ => Err (Refusal "invalid_row_count")
  end.

Definition type_key (index : nat) : string := "c" +:+ str_of_int (Z.of_nat index) +:+ "_type".
Definition value_key (index : nat) : string := "c" +:+ str_of_int (Z.of_nat index) +:+ "_value".

Definition column_expressions (index : nat) (name : string) : res (list string) :=
  let? column := _identifier name in
  Ok ["typeof(" +:+ column +:+ ") AS " +:+ type_key index;
      "CASE typeof(" +:+ column +:+ ") WHEN 'integer' THEN CAST(" +:+ column +:+ " AS TEXT) WHEN 'text' THEN hex(CAST("
      +:+ column +:+ " AS BLOB)) WHEN 'blob' THEN hex(" +:+ column +:+ ") ELSE NULL END AS " +:+ value_key index].

Definition key_order (table : TablePlan) (key : nat) : res string :=
  match nth_error (columns table) key with
  | Some c => let? q := _identifier c in Ok (q +:+ " COLLATE BINARY")
  | None => Err (External "IndexError")
  end.

Definition table_page_sql (table : TablePlan) (offset limit : Z) : res string :=
  require ((0 <=? offset) && (offset <=? MAX_ROWS)) "invalid_page_offset" ;?
  require ((1 <=? limit) && (limit <=? MAX_PAGE_ROWS)) "invalid_page_limit" ;?
  let? identity := match rowid_alias table with
                   | Some a => let? q := _identifier a in Ok ["CAST(" +:+ q +:+ " AS TEXT) AS row_identity"]
                   | None => Ok []
                   end in
  let? cells := mapR (λ ic, column_expressions ic.1 ic.2) (combine (seq 0 (length (columns table))) (columns table)) in
  let? order := match rowid_alias table with
                | Some a => _identifier a
                | None => let? ks := mapR (key_order table) (key_columns table) in Ok (joined "," ks)
                end in
  let? q := _identifier (name table) in
  Ok ("SELECT " +:+ joined "," (identity ++ concat cells) +:+ " FROM main." +:+ q
      +:+ " ORDER BY " +:+ order +:+ " LIMIT " +:+ str_of_int limit +:+ " OFFSET " +:+ str_of_int offset).

(** [re.fullmatch(r"(?:[0-9A-F]{2})*", value)] with [bytes.fromhex] *)
Definition is_upper_hex (c : ascii) : bool := is_digit c || ((65 <=? code c) && (code c <=? 70)).
Fixpoint unhex_upper (s : string) : option string :=
  match s with
  | EmptyString => Some EmptyString
  | String a (String b s') =>
      if is_upper_hex a && is_upper_hex b then
        match hex_value a, hex_value b, unhex_upper s' with
        | Some x, Some y, Some t => Some (String (chr (16 * x + y)) t)
        | _, _, _ => None
        end
      else None
  | String _ EmptyString => None
  end.

(** A decoding failure of UTF-8 is refused; text above U+00FF has no [string]
    here and stays apart. *)
Definition decode_text (raw : string) : res string :=
  match utf8_decode raw with
  | Err (External "UnicodeDecodeError") => Err (Refusal "unsupported_text_encoding")
  | r => r
  end.

Definition _decode_cell (tag value : json) : res json :=
  match tag with
  | JStr tag =>
      if bool_decide (tag = "null") then
        match value with JNull => Ok (JArr [JStr "null"; JNull]) | _ => Err (Refusal "invalid_null_wire_value") end
      else if bool_decide (tag = "integer") then
        let? number := _decimal value in Ok (JArr [JStr "integer"; JInt number])
      else if bool_decide (tag = "real") then Err (Refusal "lossless_real_transport_unqualified")
      else
        require (str_in tag ["text"; "blob"]) "unsupported_sqlite_value" ;?
        match value with
        | JStr v =>
            require (slen v <=? MAX_BYTES * 2) "invalid_hex_wire_value" ;?
            match unhex_upper v with
            | Some raw =>
                if bool_decide (tag = "blob") then Ok (JArr [JStr "blob"; JStr (hexs raw)])
                else let? text := decode_text raw in Ok (JArr [JStr "text"; JStr text])
            | None => Err (Refusal "invalid_hex_wire_value")
            end
        | _ => Err (Refusal "invalid_hex_wire_value")
        end
  | _ => Err (Refusal "unsupported_sqlite_value")
  end.

Definition wire_keys (table : TablePlan) : list string :=
  concat (map (λ i, [type_key i; value_key i]) (seq 0 (length (columns table))))
  ++ (match rowid_alias table with Some _ => ["row_identity"] | None => [] end).

(** A decoded row: its cells and its identity. *)
Definition Decoded : Type := list json * option Z.

Definition decode_row (table : TablePlan) (row : json) : res Decoded :=
  let? d := _keys row (wire_keys table) "invalid_wire_row" in
  let? identity := match rowid_alias table with
                   | Some _ => let? z := _decimal (field "row_identity" d) in Ok (Some z)
                   | None => Ok None
                   end in
  let? cells := mapR (λ i, _decode_cell (field (type_key i) d) (field (value_key i) d)) (seq 0 (length (columns table))) in
  Ok (cells, identity).

Definition decode_table_page (table : TablePlan) (rows : json) : res (list Decoded) :=
  let? l := list_of rows "page_bound_exceeded" in
  require (Z.of_nat (length l) <=? MAX_PAGE_ROWS) "page_bound_exceeded" ;?
  _json rows ;?
  mapR (decode_row table) l.

(** ** Assembly *)

Definition decoded_json (r : Decoded) : json := JArr [JArr r.1; JOpt JInt r.2].

Definition key_cells (table : TablePlan) (row : Decoded) : res (list json) :=
  mapR (λ k, match nth_error row.1 k with Some c => Ok c | None => Err (External "IndexError") end) (key_columns table).
Definition is_null_cell (c : json) : bool := match c with JArr (JStr tag :: _) => bool_decide (tag = "null") | _ => false end.

(** The rows and identities of a table in canonical order. *)
Definition canonical_rows (table : TablePlan) (decoded : list Decoded) : res (list (list json) * json) :=
  match rowid_alias table with
  | Some _ =>
      let? ids := match mapM snd decoded with Some ids => Ok ids | None => Err (Refusal "invalid_hidden_rowids") end in
      require (bool_decide (ids = sort_by Z.leb ids) && bool_decide (NoDup ids)) "invalid_hidden_rowids" ;?
      let? canonical := sorted_by_json decoded_json decoded in
      Ok (map fst canonical, JArr (map (λ r, JOpt JInt r.2) canonical))
  | None =>
      let? keys := mapR (λ r, let? k := key_cells table r in let? text := _json (JArr k) in Ok (k, text)) decoded in
      require (bool_decide (NoDup (map snd keys))) "duplicate_without_rowid_key" ;?
      require (forallb (λ kt, forallb (λ c, negb (is_null_cell c)) kt.1) keys) "invalid_without_rowid_key" ;?
      let? rows := sorted_by_json (λ r, JArr r) (map fst decoded) in
      Ok (rows, JNull)
  end.

(** The pages of a table: every page of its exact size, then the empty sentinel. *)
Definition decode_pages (plan : SnapshotPlan) (table : TablePlan) (count : Z) (pages : list json) : res (list Decoded) :=
  let expected_pages := (count + page_size plan - 1) / page_size plan in
  require (Z.of_nat (length pages) =? expected_pages + 1) "incomplete_table_pages" ;?
  foldR (λ decoded ip,
    let index := Z.of_nat ip.1 in
    let expected := if index <? expected_pages then Z.min (page_size plan) (count - index * page_size plan) else 0 in
    let? rows := list_of ip.2 "incomplete_table_page" in
    require (Z.of_nat (length rows) =? expected) "incomplete_table_page" ;?
    let? more := decode_table_page table ip.2 in
    Ok (decoded ++ more)) [] (combine (seq 0 (length pages)) pages).

(** The body of [for table in plan.tables]: the row total and the tables so far. *)
Definition assemble_table (plan : SnapshotPlan) (pages counts : list (string * json))
    (acc : Z * list (string * json)) (table : TablePlan) : res (Z * list (string * json)) :=
  let? count := match field (name table) counts with
                | JInt c => require ((0 <=? c) && (c <=? MAX_ROWS)) "invalid_row_count" ;? Ok c
                | _ => Err (Refusal "invalid_row_count")
                end in
  let total := acc.1 + count in
  require (total <=? MAX_ROWS) "row_bound_exceeded" ;?
  let? listed := list_of (field (name table) pages) "incomplete_table_pages" in
  let? decoded := decode_pages plan table count listed in
  let? ri := canonical_rows table decoded in
  let done := dict_set (name table)
    (JObj [("columns", JArr (map JStr (columns table))); ("rows", JArr (map JArr ri.1)); ("rowids", ri.2)]) acc.2 in
  _json (JObj done) ;?
  Ok (total, done).

Definition schema_row_json (r : SchemaRow) : json :=
  JArr [JStr (s_type r); JStr (s_name r); JStr (s_tbl_name r); JOpt JStr (s_sql r)].

Definition assemble_snapshot (plan : SnapshotPlan) (pages counts : json) : res json :=
  let names := map name (tables plan) in
  let? pages := _keys pages names "incomplete_table_pages" in
  let? counts := _keys counts names "incomplete_table_counts" in
  let? tt_ := foldR (assemble_table plan pages counts) (0, []) (tables plan) in
  let result := JObj [("schema", JArr (map schema_row_json (schema plan))); ("tables", JObj tt_.2)] in
  _json result ;?
  Ok result.

(** ** Collection *)

Section Collect.
Context {W : Type} (query : string → M W json).

(** The closure's variables, around the world of the query callback. *)
Record Capture := mkCapture {
  c_world : W;
  wire_bytes : Z;
  query_count : Z;
  queries : list string;
}.

(** [read]: any exception of the callback is one refusal. *)
Definition send (sql : string) : M Capture json := λ s,
  let r := query sql (c_world s) in
  (match r.1 with Ok rows => Ok rows | Err _ => Err (Refusal "snapshot_query_failed") end,
   mkCapture r.2 (wire_bytes s) (query_count s) (queries s)).
Definition read (sql : string) : M Capture json :=
  modify (λ s, mkCapture (c_world s) (wire_bytes s) (query_count s + 1) (queries s ++ [sql])) ;*
  let* n := gets query_count in
  lift (require (n <=? MAX_QUERIES) "query_bound_exceeded") ;*
  let* rows := send sql in
  lift (list_of rows "invalid_query_response") ;*
  let* text := lift (_json rows) in
  modify (λ s, mkCapture (c_world s) (wire_bytes s + slen text) (query_count s) (queries s)) ;*
  let* bytes := gets wire_bytes in
  lift (require (bytes <=? MAX_BYTES) "evidence_bound_exceeded") ;*
  ret rows.

(** The names of the census, before the plan is built. *)
Definition census_name (acc : list string) (row : json) : res (list string) :=
  let? d := _keys row schema_keys "invalid_schema" in
  if str_among ["table"] (field "type" d)
  then require (_name (field "name" d)) "unsupported_identifier" ;? Ok (acc ++ [text_of (field "name" d)])
  else Ok acc.

Definition columns_of (name : string) : M Capture (string * json) :=
  let* sql := lift (columns_sql name) in
  let* rows := read sql in
  ret (name, rows).
Fixpoint each {A B} (f : A → M Capture B) (l : list A) : M Capture (list B) :=
  match l with
  | [] => ret []
  | x :: l' => let* y := f x in let* ys := each f l' in ret (y :: ys)
  end.

(** [range(0, count, page_size)] *)
Definition offsets (count page_size : Z) : list Z :=
  map (λ i, i * page_size) (seqZ 0 ((count + page_size - 1) / page_size)).

Definition read_page (table : TablePlan) (offset limit : Z) : M Capture json :=
  let* sql := lift (table_page_sql table offset limit) in read sql.

(** The loop over the planned tables: per table its count and its pages. *)
Fixpoint read_tables (page_size total : Z) (l : list TablePlan) : M Capture (list (string * (Z * json))) :=
  match l with
  | [] => ret []
  | table :: l' =>
      let* sql := lift (count_sql table) in
      let* answer := read sql in
      let* count := lift (decode_count answer) in
      lift (require (total + count <=? MAX_ROWS) "row_bound_exceeded") ;*
      let* pages := each (λ offset, read_page table offset page_size) (offsets count page_size) in
      let* sentinel := read_page table count 1 in
      let* rest := read_tables page_size (total + count) l' in
      ret ((name table, (count, JArr (pages ++ [sentinel]))) :: rest)
  end.

Definition utf8_encoding (rows : json) : bool :=
  match rows with
  | JArr [JObj [(k, JStr v)]] => bool_decide (k = "encoding_probe") && bool_decide (v = "41")
  | _ => false
  end.

Definition collect (page_size : Z) : M Capture json :=
  let* schema := read SCHEMA_SQL in
  let* storage := read TABLE_LIST_SQL in
  let* encoding := read ENCODING_SQL in
  lift (require (utf8_encoding encoding) "unsupported_database_text_encoding") ;*
  let* rows := lift (list_of schema "schema_bound_exceeded") in
  lift (require (Z.of_nat (length rows) <=? MAX_SCHEMA) "schema_bound_exceeded") ;*
  let* names := lift (foldR census_name [] rows) in
  lift (require ((Z.of_nat (length names) <=? MAX_TABLES) && bool_decide (NoDup names)) "invalid_table_census") ;*
  let* columns := each columns_of (sort_texts names) in
  let* plan := lift (build_plan schema storage (JObj columns) page_size) in
  let* found := read_tables page_size 0 (tables plan) in
  let* result := lift (assemble_snapshot plan (JObj (map (λ f, (f.1, f.2.2)) found)) (JObj (map (λ f, (f.1, JInt f.2.1)) found))) in
  lift (_json result) ;*
  ret result.

Definition collect_snapshot (page_size : Z) (w : W) : res json * Capture :=
  collect page_size (mkCapture w 0 0 []).
End Collect.
Arguments mkCapture {W}.
Arguments c_world {W}. Arguments wire_bytes {W}. Arguments query_count {W}. Arguments queries {W}.
