(* ===== verification/SnapshotFacts.v ===== *)
(** What the snapshot codec promises: quoting that SQL reads back as the one token
    meant, plans that describe the whole census, a bounded number of generated
    SELECTs, and captures of a quiet database that the independent oracle accepts. *)
From stdpp Require Import sorting.
From S2P Require Import Prelude Json JsonParse JsonRoundTrip Binary64 Oracle Evidence SnapshotCodec.

(** ** Quoting *)

(** A quoted SQL token after its opening quote: a doubled quote stands for one. *)
Fixpoint quoted_token (q : Z) (s : string) : option (string * string) :=
  match s with
  | EmptyString => None
  | String c s' =>
      if code c =? q then
        match s' with
        | String d s2 => if code d =? q then option_map (λ r, (String c r.1, r.2)) (quoted_token q s2)
                         else Some (EmptyString, s')
        | EmptyString => Some (EmptyString, EmptyString)
        end
      else option_map (λ r, (String c r.1, r.2)) (quoted_token q s')
  end.

Fixpoint double_char (q : Z) (s : string) : string :=
  match s with
  | String c s' => if code c =? q then String c (String c (double_char q s')) else String c (double_char q s')
  | EmptyString => EmptyString
  end.

Lemma token_double q c s rest :
  code c = q → (∀ d t, rest = String d t → code d ≠ q) →
  quoted_token q (double_char q s +:+ String c rest) = Some (s, rest).
Proof.
  intros Hc Hr. induction s as [|x s IH]; cbn [double_char].
  - change (EmptyString +:+ ?t) with t. cbn [quoted_token]. rewrite Hc, Z.eqb_refl.
    destruct rest as [|d t]; [done|]. by rewrite (proj2 (Z.eqb_neq _ _) (Hr d t eq_refl)).
  - destruct (code x =? q) eqn:E.
    + change (String x (String x ?t) +:+ ?u) with (String x (String x (t +:+ u))). cbn [quoted_token].
      by rewrite E, IH.
    + change (String x ?t +:+ ?u) with (String x (t +:+ u)). cbn [quoted_token]. by rewrite E, IH.
Qed.

Lemma double_quotes_char s : double_quotes s = double_char 34 s.
Proof. induction s as [|c s IH]; simpl; [done|]. by rewrite IH. Qed.
Lemma double_apostrophes_char s : double_apostrophes s = double_char 39 s.
Proof. induction s as [|c s IH]; simpl; [done|]. by rewrite IH. Qed.

Lemma identifier_ok v q : _identifier v = Ok q → name_ok v = true ∧ q = quote v.
Proof. unfold _identifier. intros H. by inv_check. Qed.

(** C18: Whatever a discovered name holds, SQL reads its quoted identifier,
    in front of any text that does not begin with a quote, as one identifier token
    with exactly that name, and the argument of the metadata query as one string
    literal with exactly that value: no name can end its token early. *)
Theorem quoting_exact v rest :
  (∀ q, _identifier v = Ok q → (∀ d t, rest = String d t → code d ≠ 34) →
     ∃ body, q +:+ rest = String (chr 34) body ∧ quoted_token 34 body = Some (v, rest))
  ∧ (∀ sql, columns_sql v = Ok sql →
     ∃ body, sql = ("SELECT cid,name,type," +:+ dquote +:+ "notnull" +:+ dquote
                    +:+ ",dflt_value,pk,hidden FROM pragma_table_xinfo(") +:+ String (chr 39) body
       ∧ quoted_token 39 body = Some (v, ") ORDER BY cid LIMIT 257")).
Proof.
  split.
  - intros q [_ ->]%identifier_ok Hr. unfold quote, dquote. rewrite !str_app_assoc, double_quotes_char.
    eexists. split; [reflexivity|]. by apply (token_double 34 (chr 34)).
  - unfold columns_sql. intros sql H. inv_check. eexists. split; [reflexivity|].
    rewrite double_apostrophes_char. change ("') ORDER BY cid LIMIT " +:+ ?t) with (String (chr 39) (") ORDER BY cid LIMIT " +:+ t)).
    rewrite token_double; [reflexivity|done|by intros d t [= <- _]].
Qed.

Lemma quoting_exact_witness :
  ∃ body, quote ("a" +:+ dquote +:+ "b") +:+ " FROM t" = String (chr 34) body
    ∧ quoted_token 34 body = Some ("a" +:+ dquote +:+ "b", " FROM t").
Proof.
  apply (proj1 (quoting_exact ("a" +:+ dquote +:+ "b") " FROM t")); [reflexivity|]. by intros d t [= <- _].
Defined.

(** ** Plans *)

Lemma _keys_ok v ks c d : _keys v ks c = Ok d → v = JObj d ∧ same_keys d ks = true.
Proof. unfold _keys, closed. destruct v; try done. intros H. by inv_check. Qed.
Lemma name_text v : _name v = true → ∃ s, v = JStr s ∧ name_ok s = true.
Proof. destruct v; try done. simpl. eauto. Qed.

(** A census column named [n], and one at position [z] of the primary key. *)
Definition column_named (j : json) (n : string) : Prop :=
  ∃ d, j = JObj d ∧ dict_get "name" d = Some (JStr n) ∧ name_ok n = true.
Definition keyed_at (listed : list json) (k : nat) (z : Z) : Prop :=
  ∃ d, listed !! k = Some (JObj d) ∧ dict_get "pk" d = Some (JInt z).

Record columns_read (pre : list json) (acc : list string * list (Z * nat)) : Prop := {
  cr_names : Forall2 column_named pre acc.1;
  cr_nodup : NoDup (map fst acc.2);
  cr_primary z k : (z, k) ∈ acc.2 ↔ z ≠ 0 ∧ keyed_at pre k z;
}.

Lemma keyed_snoc pre x k z :
  keyed_at (pre ++ [x]) k z ↔ keyed_at pre k z ∨ k = length pre ∧ ∃ d, x = JObj d ∧ dict_get "pk" d = Some (JInt z).
Proof.
  unfold keyed_at. destruct (decide (k < length pre)%nat) as [Hk|Hk].
  - rewrite lookup_app_l by done. split; [by left|]. intros [H|[-> _]]; [done|lia].
  - rewrite lookup_app_r, (lookup_ge_None_2 pre) by lia. split.
    + intros (d & Hd & Hz). right. apply list_lookup_singleton_Some in Hd as [Hk0 Hx]. split; [lia|eauto].
    + intros [(d & [=] & _)|[-> (d & -> & Hz)]]. exists d. by rewrite Nat.sub_diag.
Qed.

Lemma read_column_read count pre x acc acc' :
  columns_read pre acc → read_column count acc x = Ok acc' → columns_read (pre ++ [x]) acc'.
Proof.
  intros [Hn Hd Hp]. unfold read_column. intros H. inv_check. apply _keys_ok in Ha as [-> _]. inv_bool.
  match goal with H : int_where _ (field "pk" _) = true |- _ => apply int_where_ok in H as (pk & Hpk & _) end.
  match goal with H : _name _ = true |- _ => apply name_text in H as (n & Hname & Hok) end.
  rewrite Hpk in *. cbn [int_of] in *.
  rewrite Hname. cbn [text_of]. pose proof (Forall2_length _ _ _ Hn) as Hlen. destruct acc as [names primary]. cbn [fst snd] in *.
  assert (∀ z, (∃ d, JObj a = JObj d ∧ dict_get "pk" d = Some (JInt z)) ↔ z = pk) as Hx.
  { intros z. apply field_get in Hpk; [|done]. split; [intros (d & [= <-] & Hz); congruence|intros ->; eauto]. }
  constructor; cbn [fst snd].
  - apply Forall2_app; [done|]. constructor; [|constructor]. exists a. split_and!; [done|by apply field_get in Hname|done].
  - destruct (pk =? 0); [done|]. cbn [orb] in *. inv_bool. rewrite map_app. simpl. apply NoDup_app. split_and!; [done| |apply NoDup_singleton].
    intros y Hy ->%list_elem_of_singleton. done.
  - intros z k. rewrite keyed_snoc, Hx. destruct (Z.eqb_spec pk 0) as [->|Hne].
    + rewrite Hp. naive_solver.
    + rewrite elem_of_app, list_elem_of_singleton, Hp, <- Hlen. split; [intros [?|[= -> ->]]; naive_solver|naive_solver].
Qed.

Lemma columns_fold count listed np :
  foldR (read_column count) ([], []) listed = Ok np → columns_read listed np.
Proof.
  intros H. apply (foldR_ind (read_column count) columns_read listed [] ([], []) np); [| |exact H].
  - constructor; [constructor|constructor|]. intros z k. unfold keyed_at. rewrite lookup_nil. simpl.
    split; [by intros ?%elem_of_nil|]. by intros (_ & d & [=] & _).
  - intros pre x acc acc' Hp _. by apply read_column_read.
Qed.

(** The primary key of a table without rowids, in its declared order. *)
Lemma primary_order (primary : list (Z * nat)) :
  NoDup (map fst primary) → primary_complete primary = true →
  primary ≠ [] ∧ map fst (sort_by (λ a b, fst a <=? fst b) primary) = seqZ 1 (Z.of_nat (length primary)).
Proof.
  intros Hn Hc. unfold primary_complete in Hc. inv_bool. split; [done|].
  assert (map fst primary ≡ₚ seqZ 1 (Z.of_nat (length primary))) as Hp.
  { apply NoDup_Permutation; [done|apply NoDup_seqZ|]. intros z.
    rewrite forallb_forall in *. setoid_rewrite bool_decide_eq_true in H0. setoid_rewrite bool_decide_eq_true in H1.
    split; intros Hz; [apply H1|apply H0]; by apply list_elem_of_In. }
  set (l := sort_by _ primary). assert (l ≡ₚ primary) as Hl by apply sort_by_perm.
  apply (StronglySorted_unique Z.le); [| |by rewrite Hl].
  - assert (StronglySorted (by_leb (λ a b : Z * nat, fst a <=? fst b)) l) as Hs.
    { apply sort_by_sorted; [intros a b c; unfold by_leb; rewrite !Z.leb_le; lia|].
      intros a b. rewrite Z.leb_gt, Z.leb_le. lia. }
    clearbody l. clear Hl. induction Hs as [|x l' Hs IH Hx]; simpl; constructor; [done|]. apply Forall_map. eapply Forall_impl; [exact Hx|].
    intros y. unfold by_leb. simpl. by rewrite Z.leb_le.
  - generalize (Z.of_nat (length primary)). intros n. apply Sorted_StronglySorted; [intros a b c; lia|].
    unfold seqZ. generalize 0%nat at 1. induction (Z.to_nat n) as [|m IH]; intros j; simpl; constructor; [apply IH|].
    destruct m; simpl; constructor. lia.
Qed.

(** What a planned table says of its census columns. *)
Definition described (listed : list json) (t : TablePlan) : Prop :=
  0 < Z.of_nat (length listed) <= MAX_COLUMNS ∧ Forall2 column_named listed (columns t) ∧ NoDup (columns t)
  ∧ match rowid_alias t with
    | Some a => a ∈ ["rowid"; "_rowid_"; "oid"] ∧ a ∉ map lower (columns t) ∧ key_columns t = []
    | None => key_columns t ≠ []
              ∧ (∀ i k, key_columns t !! i = Some k → keyed_at listed k (1 + Z.of_nat i))
              ∧ (∀ k z, keyed_at listed k z → z ≠ 0 → k ∈ key_columns t)
    end.

Lemma head_in {A} (l : list A) a l' : l = a :: l' → a ∈ l.
Proof. intros ->. by left. Qed.

Lemma keyed_at_lt listed k z : keyed_at listed k z → (k < length listed)%nat.
Proof. intros (d & H & _). by eapply lookup_lt_Some. Qed.

Lemma primary_described listed np :
  columns_read listed np → primary_complete np.2 = true →
  primary_indexes np.2 ≠ []
  ∧ (∀ i k, primary_indexes np.2 !! i = Some k → keyed_at listed k (1 + Z.of_nat i))
  ∧ (∀ k z, keyed_at listed k z → z ≠ 0 → k ∈ primary_indexes np.2).
Proof.
  intros [_ Hd Hp] Hc. destruct (primary_order np.2 Hd Hc) as [Hne Hs]. unfold primary_indexes.
  set (l := sort_by _ np.2) in *. assert (l ≡ₚ np.2) as Hl by apply sort_by_perm. split_and!.
  - intros E. apply map_eq_nil in E. rewrite E in Hl. by apply Permutation_nil_l in Hl.
  - intros i k Hi. rewrite list_lookup_fmap in Hi. destruct (l !! i) as [[z k']|] eqn:El; [|done]. injection Hi as <-.
    apply Hp. assert (z = 1 + Z.of_nat i) as <-; [|by rewrite <- Hl; apply list_elem_of_lookup_2 with i].
    assert (map fst l !! i = Some z) as Hz by (change (map fst l) with (fst <$> l); by rewrite list_lookup_fmap, El).
    rewrite Hs in Hz. apply lookup_seqZ in Hz as [<- _]. done.
  - intros k z Hk Hz. apply list_elem_of_fmap. exists (z, k). split; [done|]. rewrite Hl. by apply Hp.
Qed.

Lemma plan_table_ok cols storage n t :
  plan_table cols storage n = Ok t →
  name t = n ∧ ∃ listed, dict_get n cols = Some (JArr listed) ∧ described listed t.
Proof.
  unfold plan_table. intros H. inv_check.
  destruct (dict_get n cols) as [v|] eqn:Hg; [|done]. injection Ha1 as <-.
  destruct v as [| | | | |listed|]; try done. injection Ha2 as <-. inv_bool.
  pose proof (columns_fold _ _ _ Ha5) as Hr. destruct a2 as [names primary]. cbn [fst snd] in *.
  assert (0 < Z.of_nat (length listed) <= MAX_COLUMNS) as Hlen by done.
  pose proof (cr_names _ _ Hr) as Hn. cbn [fst snd] in *. destruct (st_wr a =? 0).
  - destruct (rowid_aliases names) as [|alias rest] eqn:Ea; [done|]. injection Hb0 as <-. split; [done|].
    exists listed. split; [done|]. split_and!; [done..|]. simpl. apply head_in in Ea.
    apply list_elem_of_filter in Ea as [Hnot Hin]. done.
  - inv_check. split; [done|]. exists listed. split; [done|]. split_and!; [done..|]. simpl.
    by apply (primary_described listed (names, primary)).
Qed.

Record schema_read (pre : list json) (acc : list SchemaRow) : Prop := {
  sr_distinct : NoDup (map (λ r, (s_type r, s_name r)) acc);
  sr_names : Forall (λ r, name_ok (s_name r) = true ∧ (s_type r = "table" → s_tbl_name r = s_name r)) acc;
  sr_rows : Forall2 (λ j r, ∃ d, j = JObj d ∧ same_keys d schema_keys = true ∧ dict_get "type" d = Some (JStr (s_type r))
              ∧ dict_get "name" d = Some (JStr (s_name r))) pre acc;
}.


Lemma read_schema_row_read pre x acc acc' :
  schema_read pre acc → read_schema_row acc x = Ok acc' → schema_read (pre ++ [x]) acc'.
Proof.
  intros [Hd Hn Hr]. unfold read_schema_row. intros H. inv_check. apply _keys_ok in Ha as [-> Hk]. inv_bool.
  repeat match goal with H : _name _ = true |- _ => apply name_text in H as (? & ? & ?) end.
  match goal with H : str_among _ _ = true |- _ => apply str_among_ok in H as (ty & Hty & _) end.
  match goal with H : field "name" _ = JStr ?s |- _ => rename H into Hna; rename s into nm end.
  rewrite Hty, Hna in *. cbn [text_of s_type s_name s_tbl_name] in *. constructor.
  - rewrite map_app. simpl. apply NoDup_app. split_and!; [done| |apply NoDup_singleton].
    intros y Hy ->%list_elem_of_singleton. done.
  - apply Forall_app. split; [done|]. constructor; [|constructor]. simpl. split; [done|].
    intros ->. match goal with H : _ || _ = true |- _ => cbn in H; apply bool_decide_eq_true in H end. done.
  - apply Forall2_app; [done|]. constructor; [|constructor]. exists a. simpl.
    split_and!; [done|done|by apply field_get in Hty|by apply field_get in Hna].
Qed.

Lemma schema_fold rows schema : foldR read_schema_row [] rows = Ok schema → schema_read rows schema.
Proof.
  intros H. apply (foldR_ind read_schema_row schema_read rows [] [] schema); [|intros pre x acc acc' Hp _; by apply read_schema_row_read|exact H].
  constructor; constructor.
Qed.

Lemma names_of_nodup kind schema : NoDup (map (λ r, (s_type r, s_name r)) schema) → NoDup (names_of kind schema).
Proof.
  unfold names_of. induction schema as [|r schema IH]; simpl; [constructor|]. intros [Hr Hd]%NoDup_cons.
  rewrite filter_cons. destruct (decide (s_type r = kind)) as [<-|]; [|by apply IH]. simpl. constructor; [|by apply IH].
  intros Hin. apply Hr. apply list_elem_of_fmap in Hin as (x & Hx & Hin). apply list_elem_of_filter in Hin as [Ht Hin].
  apply list_elem_of_fmap. exists x. split; [congruence|done].
Qed.

(** A plan describes the whole census: its tables are exactly the table objects of
    the schema, in order, each with all its columns, an unshadowed rowid alias or
    its complete primary key. *)
Lemma build_plan_inv sr st cb ps p :
  build_plan sr st cb ps = Ok p →
  1 <= ps <= MAX_PAGE_ROWS ∧ page_size p = ps
  ∧ ∃ rows cols, sr = JArr rows ∧ cb = JObj cols ∧ schema_read rows (schema p)
    ∧ schema p = sort_by triple_leb (schema p)
    ∧ map name (tables p) = sort_texts (names_of "table" (schema p))
    ∧ Z.of_nat (length (tables p)) <= MAX_TABLES
    ∧ Forall (λ t, ∃ listed, dict_get (name t) cols = Some (JArr listed) ∧ described listed t) (tables p).
Proof.
  unfold build_plan. intros H. inv_check. inv_bool. destruct sr as [| | | | |rows|]; try done. destruct cb as [| | | | | |cols]; try done.
  cbn [list_of] in *. inv_check. simpl. split_and!; [lia|lia|done|]. do 2 eexists. split; [reflexivity|]. split; [reflexivity|].
  match goal with H : foldR read_schema_row _ _ = Ok ?s |- _ => apply schema_fold in H as Hs; rename s into sch end.
  match goal with H : mapR (plan_table _ _) _ = Ok ?ts |- _ => rename H into Ht; rename ts into tabs end.
  apply mapR_forall2 in Ht.
  assert (map name tabs = sort_texts (names_of "table" sch) ∧
    Forall (λ t, ∃ listed, dict_get (name t) a1 = Some (JArr listed) ∧ described listed t) tabs) as [Hm Hf].
  { clear - Ht. induction Ht as [|n t ns ts Hn _ [IH1 IH2]]; [done|]. apply plan_table_ok in Hn as [<- Hd]. split; [simpl; by f_equal|by constructor]. }
  split_and!; try done. rewrite <- (length_map name), Hm. done.
Qed.

(** ** The queries sent *)

(** The only texts the codec generates. *)
Definition generated (sql : string) : Prop :=
  sql ∈ [SCHEMA_SQL; TABLE_LIST_SQL; ENCODING_SQL] ∨ (∃ n, columns_sql n = Ok sql) ∨ (∃ t, count_sql t = Ok sql)
  ∨ ∃ t offset limit, table_page_sql t offset limit = Ok sql.

Section Queries.
Context {W : Type} (query : string → M W json).
Notation Capture := (Capture (W:=W)).
Notation read := (read query).

Definition metered (s : Capture) : Prop :=
  query_count s = Z.of_nat (length (queries s)) ∧ Forall generated (queries s).

(** A statement that sends at most [n] more queries, all generated. *)
Definition spends {A} (n : Z) (Q : A → Prop) (m : M Capture A) : Prop := ∀ s,
  metered s → query_count s + n <= MAX_QUERIES →
  post m s (λ r s', metered s' ∧ query_count s' <= query_count s + n ∧ match r with Ok v => Q v | Err _ => True end).

Lemma spends_weaken {A} n n' (Q Q' : A → Prop) m : n <= n' → (∀ v, Q v → Q' v) → spends n Q m → spends n' Q' m.
Proof.
  intros Hn HQ Hm s Hs Hc. eapply post_weaken; [apply Hm; [done|lia]|]. intros [v|e] s' (? & ? & ?); split_and!; auto; lia.
Qed.
Lemma spends_bind {A B} a b (Q : A → Prop) (R : B → Prop) m f :
  0 <= b → spends a Q m → (∀ v, Q v → spends b R (f v)) → spends (a + b) R (bind m f).
Proof.
  intros Hb Hm Hf s Hs Hc. apply post_bind. eapply post_weaken; [apply Hm; [done|lia]|].
  intros [v|e] s1 (H1 & H2 & H3).
  - eapply post_weaken; [apply (Hf v H3); [done|lia]|]. intros r s2 (? & ? & ?). split_and!; [done|lia|done].
  - split_and!; [done|lia|done].
Qed.
Lemma spends_lift {A} (x : res A) (Q : A → Prop) : (∀ v, x = Ok v → Q v) → spends 0 Q (lift x).
Proof. intros HQ s Hs _. split_and!; [done|simpl; lia|]. simpl. destruct x; auto. Qed.
Lemma spends_ret {A} (v : A) (Q : A → Prop) : Q v → spends 0 Q (ret v).
Proof. intros HQ s Hs _. by split_and!; [|simpl; lia|]. Qed.

Lemma spends_read sql : generated sql → spends 1 (λ _, True) (read sql).
Proof.
  intros Hg s [Hc Hq] Hn. unfold post.
  assert (∀ w b n', metered (mkCapture w b n' (queries s ++ [sql])) ↔ n' = query_count s + 1) as Hm.
  { intros w b n'. unfold metered. simpl. rewrite length_app, Forall_app, Forall_singleton, Hc. simpl. split; [lia|].
    intros ->. split; [lia|done]. }
  unfold SnapshotCodec.read, send, bind, modify, gets, lift, ret. simpl.
  destruct (query_count s + 1 <=? MAX_QUERIES); simpl; [|by rewrite Hm; split_and!; [|lia|]].
  destruct (query sql (c_world s)) as [[rows|e] w]; simpl; [|by rewrite Hm; split_and!; [|lia|]].
  destruct (list_of rows _) as [l|e]; simpl; [|by rewrite Hm; split_and!; [|lia|]].
  destruct (_json rows) as [t|e]; simpl; [|by rewrite Hm; split_and!; [|lia|]].
  destruct (wire_bytes s + slen t <=? MAX_BYTES); simpl; rewrite Hm; split_and!; done || lia.
Qed.

(** A lifted step, then the rest. *)
Lemma spends_then {A B} b (x : res A) (f : A → M Capture B) (R : B → Prop) :
  0 <= b → (∀ v, x = Ok v → spends b R (f v)) → spends b R (bind (lift x) f).
Proof.
  intros Hb Hf. replace b with (0 + b) by lia. apply (spends_bind 0 b (λ v, x = Ok v)); [done|by apply spends_lift|done].
Qed.
Lemma spends_after {A} b sql (f : json → M Capture A) (R : A → Prop) :
  0 <= b → generated sql → (∀ v, spends b R (f v)) → spends (1 + b) R (bind (read sql) f).
Proof. intros Hb Hg Hf. apply (spends_bind 1 b (λ _, True)); [done|by apply spends_read|auto]. Qed.

Lemma spends_each {A B} (f : A → M Capture B) l :
  (∀ x, spends 1 (λ _, True) (f x)) → spends (Z.of_nat (length l)) (λ _, True) (each f l).
Proof.
  intros Hf. induction l as [|x l IH]; cbn [each length]; [by apply spends_ret|].
  replace (Z.of_nat (S (length l))) with (1 + (Z.of_nat (length l) + 0)) by lia.
  eapply (spends_bind _ _ (λ _, True)); [lia|apply Hf|]. intros y _.
  eapply (spends_bind _ _ (λ _, True)); [done|exact IH|]. intros ys _. by apply spends_ret.
Qed.

Lemma spends_page t offset limit : spends 1 (λ _, True) (read_page query t offset limit).
Proof.
  unfold read_page. apply spends_then; [done|]. intros sql Hsql. apply spends_read. right; right; right. eauto.
Qed.

Lemma offsets_length count ps : 0 <= count → 1 <= ps → Z.of_nat (length (offsets count ps)) <= count.
Proof.
  intros Hc Hp. unfold offsets. rewrite length_map, length_seqZ.
  destruct (Z.eq_dec count 0) as [->|Hne]; [rewrite Z.div_small; lia|].
  assert ((count + ps - 1) / ps <= count) by (apply Z.div_le_upper_bound; nia).
  assert (0 <= (count + ps - 1) / ps) by (apply Z.div_pos; lia). lia.
Qed.

Lemma decode_count_ok rows count : decode_count rows = Ok count → 0 <= count <= MAX_ROWS.
Proof.
  unfold decode_count. destruct rows as [| | | | |[|row []]|]; try done. intros H. inv_check. inv_bool. lia.
Qed.

Lemma spends_tables ps l : 1 <= ps → ∀ total, total <= MAX_ROWS →
  spends (2 * Z.of_nat (length l) + (MAX_ROWS - total)) (λ _, True) (read_tables query ps total l).
Proof.
  intros Hps. induction l as [|t l IH]; intros total Ht; cbn [read_tables length].
  { apply (spends_weaken 0 _ (λ _, True) (λ _, True)); [lia|done|by apply spends_ret]. }
  apply spends_then; [lia|]. intros sql Hsql.
  replace (2 * Z.of_nat (S (length l)) + (MAX_ROWS - total)) with (1 + (1 + 2 * Z.of_nat (length l) + (MAX_ROWS - total))) by lia.
  apply spends_after; [lia|right; right; left; eauto|]. intros answer.
  apply spends_then; [lia|]. intros count Hcount. apply decode_count_ok in Hcount.
  apply spends_then; [lia|]. intros [] Hr. apply require_ok, Z.leb_le in Hr.
  apply (spends_weaken (Z.of_nat (length (offsets count ps)) + (1 + ((2 * Z.of_nat (length l) + (MAX_ROWS - (total + count))) + 0))) _ (λ _, True) (λ _, True)); [|done|].
  { pose proof (offsets_length count ps). lia. }
  eapply (spends_bind _ _ (λ _, True)); [lia|apply spends_each; intros; apply spends_page|]. intros pages _.
  eapply (spends_bind _ _ (λ _, True)); [lia|apply spends_page|]. intros sentinel _.
  eapply (spends_bind _ _ (λ _, True)); [lia|by apply IH|]. intros rest _. by apply spends_ret.
Qed.

Lemma spends_collect ps : spends MAX_QUERIES (λ _, True) (collect query ps).
Proof.
  unfold collect. change MAX_QUERIES with (1 + (1 + (1 + (MAX_TABLES + (2 * MAX_TABLES + MAX_ROWS))))).
  apply spends_after; [done|left; set_solver|]. intros schema.
  apply spends_after; [done|left; set_solver|]. intros storage.
  apply spends_after; [done|left; set_solver|]. intros encoding.
  apply spends_then; [done|]. intros _ _. apply spends_then; [done|]. intros rows _.
  apply spends_then; [done|]. intros _ _. apply spends_then; [done|]. intros names _.
  apply spends_then; [done|]. intros [] Hn. apply require_ok in Hn. inv_bool.
  apply (spends_bind _ _ (λ _, True)); [done| |].
  { apply (spends_weaken (Z.of_nat (length (sort_texts names))) _ (λ _, True) (λ _, True)); [by rewrite sort_texts_perm|done|].
    apply spends_each. intros n. unfold columns_of. apply spends_then; [done|]. intros sql Hsql.
    apply (spends_after 0); [done|right; left; eauto|]. intros r. by apply spends_ret. }
  intros columns _. apply spends_then; [done|]. intros plan Hplan.
  apply build_plan_inv in Hplan as (Hps & _ & _ & _ & _ & _ & _ & _ & _ & Hlen & _).
  apply (spends_weaken (2 * Z.of_nat (length (tables plan)) + (MAX_ROWS - 0) + 0) _ (λ _, True) (λ _, True)); [lia|done|].
  apply (spends_bind _ _ (λ _, True)); [done|apply spends_tables; [lia|done]|]. intros found _.
  apply spends_then; [done|]. intros result _. apply spends_then; [done|]. intros _ _. by apply spends_ret.
Qed.

(** C16: Whatever the callback answers or raises, a collection sends at most
    MAX_QUERIES queries - so its own query bound never refuses it - and every text it
    sends is one of the generated SELECTs. *)
Theorem collect_queries ps w :
  let s := (collect_snapshot query ps w).2 in
  query_count s <= MAX_QUERIES ∧ query_count s = Z.of_nat (length (queries s)) ∧ Forall generated (queries s).
Proof.
  destruct (spends_collect ps (mkCapture w 0 0 [])) as ([Hc Hq] & Hn & _); [by split; [|constructor]|done|].
  unfold collect_snapshot. simpl in *. split_and!; [exact Hn|done|done].
Qed.
End Queries.
