(* ===== verification/SnapshotCapture.v ===== *)
(** Captures: over a quiet database whose reader answers as SQLite does, a collection
    sends exactly the planned queries and answers the whole content, which the
    independent oracle of full_state_oracle.py accepts - or it refuses because that
    content is larger than the bounds. *)
From stdpp Require Import sorting.
From S2P Require Import Prelude Json JsonParse JsonRoundTrip Binary64 Oracle Evidence SnapshotCodec SnapshotFacts.

(** ** What SQLite answers

    [typeof] and the [CASE] expressions of the page queries, per cell; a real
    value has no transported form. *)
Definition upper_digit (n : Z) : ascii := if n <? 10 then chr (48 + n) else chr (55 + n).
Fixpoint hex_upper (s : string) : string :=
  match s with
  | String c s' => String (upper_digit (code c / 16)) (String (upper_digit (code c mod 16)) (hex_upper s'))
  | EmptyString => EmptyString
  end.
Definition wire_cell (c : Cell) : json * json :=
  match c with
  | CNull => (JStr "null", JNull)
  | CInteger z => (JStr "integer", JStr (str_of_int z))
  | CReal _ => (JStr "real", JNull)
  | CText s => (JStr "text", JStr (hex_upper (utf8_encode s)))
  | CBlob s => (JStr "blob", JStr (hex_upper s))
  end.
Definition wire_row (t : TablePlan) (r : Row) : json :=
  JObj (concat (map (λ ic, [(type_key ic.1, (wire_cell ic.2).1); (value_key ic.1, (wire_cell ic.2).2)])
                  (combine (seq 0 (length r.2)) r.2))
        ++ match rowid_alias t, r.1 with Some _, Some z => [("row_identity", JStr (str_of_int z))] | _, _ => [] end).

(** The cells the codec transports, and the rows of a planned table. *)
Definition transported (c : Cell) : Prop :=
  match c with
  | CInteger z => - 2 ^ 63 <= z < 2 ^ 63
  | CReal _ => False
  | CText s => slen (hex_upper (utf8_encode s)) <= MAX_BYTES * 2
  | CBlob s => slen (hex_upper s) <= MAX_BYTES * 2
  | CNull => True
  end.
Definition has_identity (t : TablePlan) : bool := match rowid_alias t with Some _ => true | None => false end.
Record fits (t : TablePlan) (r : Row) : Prop := {
  f_width : length r.2 = length (columns t);
  f_cells : Forall transported r.2;
  f_identity : id_ok (has_identity t) r.1;
}.

(** ** Cells *)

Lemma upper_digit_hex n : 0 <= n < 16 → is_upper_hex (upper_digit n) = true ∧ hex_value (upper_digit n) = Some n.
Proof.
  intros Hn. assert (forallb (λ n, is_upper_hex (upper_digit n) && bool_decide (hex_value (upper_digit n) = Some n)) (seqZ 0 16) = true) as H
    by (vm_compute; reflexivity).
  rewrite forallb_forall in H. specialize (H n). rewrite <- list_elem_of_In, elem_of_seqZ in H.
  specialize (H ltac:(lia)). by inv_bool.
Qed.

Lemma unhex_upper_back s : unhex_upper (hex_upper s) = Some s.
Proof.
  induction s as [|c s IH]; [done|]. cbn [hex_upper unhex_upper].
  pose proof (code_range c) as Hc. pose proof (Z.div_mod (code c) 16 ltac:(lia)) as Hd.
  pose proof (Z.mod_pos_bound (code c) 16 ltac:(lia)) as Hm.
  assert (0 <= code c / 16 < 16) as Hq by (split; [apply Z.div_pos|apply Z.div_lt_upper_bound]; lia).
  destruct (upper_digit_hex _ Hq) as [-> ->], (upper_digit_hex _ Hm) as [-> ->]. rewrite IH. cbn [andb].
  do 2 f_equal. apply code_inj. rewrite code_chr; lia.
Qed.

Lemma utf8_back s : utf8_decode (utf8_encode s) = Ok s.
Proof.
  induction s as [|c s IH]; [done|]. cbn [utf8_encode]. pose proof (code_range c) as Hc.
  destruct (code c <? 128) eqn:E; inv_bool.
  - cbn [utf8_decode]. by rewrite (proj2 (Z.ltb_lt _ _) E), IH.
  - pose proof (Z.div_mod (code c) 64 ltac:(lia)) as Hd. pose proof (Z.mod_pos_bound (code c) 64 ltac:(lia)) as Hm.
    assert (2 <= code c / 64 <= 3) as Hq by lia. cbn [utf8_decode]. rewrite !code_chr by lia.
    rewrite (proj2 (Z.ltb_ge _ 128)), (proj2 (Z.leb_le 194 _)), (proj2 (Z.leb_le _ 244)), (proj2 (Z.leb_le 128 _)),
      (proj2 (Z.ltb_lt _ 192)), (proj2 (Z.leb_le _ 195)), IH by lia. cbn [andb rbind].
    do 2 f_equal. apply code_inj. rewrite code_chr; lia.
Qed.

(** [str] of a 64-bit integer is a wire integer. *)
Lemma decimal_back z : - 2 ^ 63 <= z < 2 ^ 63 → _decimal (JStr (str_of_int z)) = Ok z.
Proof.
  intros Hz. unfold _decimal. destruct (Z.eq_dec z 0) as [->|Hne]; [done|].
  destruct (str_of_int_decimal (Z.abs z)) as [Hd Hh]; [lia|].
  pose proof (decimal_lower _ Hd Hh) as Hl. rewrite int_of_str_of_int in Hl by lia.
  assert (slen (str_of_int (Z.abs z)) <= 19) as H19.
  { destruct (Z.le_gt_cases (slen (str_of_int (Z.abs z))) 19) as [|Hgt]; [done|].
    assert (10 ^ 19 <= 10 ^ (slen (str_of_int (Z.abs z)) - 1)) by (apply Z.pow_le_mono_r; lia). lia. }
  assert (positive_text (str_of_int (Z.abs z)) = true) as Hp by (unfold positive_text; by rewrite Hd, Hh).
  assert (head_is "-" (str_of_int (Z.abs z)) = false) as Hm.
  { destruct (str_of_int (Z.abs z)) as [|c t]; [done|]. unfold isdecimal in Hd. simpl in Hd. inv_bool. simpl.
    apply bool_decide_eq_false. intros <-. done. }
  assert ((- 2 ^ 63 <=? z) && (z <? 2 ^ 63) = true) as Hr by (rewrite andb_true_iff, Z.leb_le, Z.ltb_lt; lia).
  destruct (Z.lt_ge_cases z 0) as [Hneg|Hpos].
  - assert (str_of_int z = "-" +:+ str_of_int (Z.abs z)) as -> by (destruct z; [lia|lia|done]).
    assert (after_prefix "-" ("-" +:+ str_of_int (Z.abs z)) = str_of_int (Z.abs z)) as Ha by apply after_prefix_app.
    unfold decimal_grammar. change (head_is "-" ("-" +:+ ?t)) with true. rewrite Ha, Hp, orb_true_r. cbn [require rbind orb].
    rewrite (proj2 (Z.leb_le _ 20)) by (rewrite slen_app; change (slen "-") with 1; lia). cbn [require rbind].
    rewrite int_of_str_of_int by lia. replace (- Z.abs z) with z by lia. by rewrite Hr.
  - rewrite Z.abs_eq in * by lia. unfold decimal_grammar. rewrite Hm, Hp, orb_true_r. cbn [require rbind].
    rewrite (proj2 (Z.leb_le _ 20)) by lia. cbn [require rbind]. rewrite int_of_str_of_int by lia. by rewrite Hr.
Qed.

Lemma decode_cell_back c : transported c → _decode_cell (wire_cell c).1 (wire_cell c).2 = Ok (cell_json c).
Proof.
  destruct c as [|z|b|s|s]; intros Hc; cbn [wire_cell fst snd]; unfold _decode_cell; try done.
  - rewrite bool_decide_false, bool_decide_true, decimal_back by done. done.
  - do 3 (rewrite bool_decide_false by done). simpl in Hc.
    rewrite (proj2 (Z.leb_le _ _) Hc), unhex_upper_back. cbn. unfold decode_text. by rewrite utf8_back.
  - do 3 (rewrite bool_decide_false by done). simpl in Hc.
    rewrite (proj2 (Z.leb_le _ _) Hc), unhex_upper_back. done.
Qed.

(** ** Rows *)

Lemma index_text i : isdecimal (str_of_int (Z.of_nat i)) = true.
Proof. destruct i as [|i]; [done|]. by destruct (str_of_int_decimal (Z.of_nat (S i))); [lia|]. Qed.

(** A cell key read back: its index and what it names. *)
Definition key_parts (s : string) : string * string := match s with String _ r => take_digits r | EmptyString => (EmptyString, EmptyString) end.
Lemma key_parts_back i u : head_is "_" u = true → key_parts ("c" +:+ str_of_int (Z.of_nat i) +:+ u) = (str_of_int (Z.of_nat i), u).
Proof.
  intros Hu. change (key_parts _) with (take_digits (str_of_int (Z.of_nat i) +:+ u)). apply take_digits_app.
  - pose proof (index_text i) as H. unfold isdecimal in H. by inv_bool.
  - destruct u as [|c u]; [done|]. simpl in Hu. apply bool_decide_eq_true in Hu as <-. done.
Qed.
Lemma type_key_parts i : key_parts (type_key i) = (str_of_int (Z.of_nat i), "_type").
Proof. by apply key_parts_back. Qed.
Lemma value_key_parts i : key_parts (value_key i) = (str_of_int (Z.of_nat i), "_value").
Proof. by apply key_parts_back. Qed.

Definition cell_keys (n : nat) : list string := concat (map (λ i, [type_key i; value_key i]) (seq 0 n)).

Lemma cell_key_inv k n : k ∈ cell_keys n → ∃ i u, (i < n)%nat ∧ key_parts k = (str_of_int (Z.of_nat i), u) ∧ head_is "c" k = true.
Proof.
  unfold cell_keys. rewrite <- flat_map_concat_map. intros H. apply list_elem_of_In, in_flat_map in H as (i & Hi & Hk).
  apply in_seq in Hi. apply list_elem_of_In in Hk. rewrite !elem_of_cons, elem_of_nil in Hk.
  destruct Hk as [->|[->|[]]]; exists i; eexists; (split; [lia|]); (split; [apply type_key_parts || apply value_key_parts|done]).
Qed.

Lemma cell_keys_nodup n : NoDup (cell_keys n).
Proof.
  unfold cell_keys. induction n as [|n IH]; [constructor|]. rewrite seq_S, map_app, concat_app. apply NoDup_app. split_and!; [exact IH| |].
  - intros k Hk Hn. apply cell_key_inv in Hk as (i & u & Hi & Hp & _). cbn [map concat app plus] in Hn.
    assert (∃ u', key_parts k = (str_of_int (Z.of_nat n), u')) as (u' & Hp').
    { rewrite !elem_of_cons, elem_of_nil in Hn. destruct Hn as [->|[->|[]]]; eexists; [apply type_key_parts|apply value_key_parts]. }
    rewrite Hp in Hp'. injection Hp' as Hs _. apply str_of_int_inj in Hs; lia.
  - cbn [map concat app plus]. apply NoDup_cons. split; [|apply NoDup_singleton]. intros H%list_elem_of_singleton.
    apply (f_equal key_parts) in H. rewrite type_key_parts, value_key_parts in H. done.
Qed.

Lemma wire_keys_nodup t : NoDup (wire_keys t).
Proof.
  unfold wire_keys. fold (cell_keys (length (columns t))). apply NoDup_app. split_and!; [apply cell_keys_nodup| |].
  - intros k (i & u & _ & _ & Hh)%cell_key_inv Hid. destruct (rowid_alias t); [|by apply elem_of_nil in Hid].
    apply list_elem_of_singleton in Hid as ->. done.
  - destruct (rowid_alias t); [apply NoDup_singleton|constructor].
Qed.

Definition wire_fields (t : TablePlan) (r : Row) : list (string * json) :=
  match wire_row t r with JObj d => d | _ => [] end.

Lemma cell_fields_keys {A} (f g : Cell → A) cs : ∀ j,
  map fst (concat (map (λ ic, [(type_key ic.1, f ic.2); (value_key ic.1, g ic.2)]) (combine (seq j (length cs)) cs)))
  = concat (map (λ i, [type_key i; value_key i]) (seq j (length cs))).
Proof. induction cs as [|c cs IH]; intros j; [done|]. simpl. do 2 f_equal. apply IH. Qed.

Lemma wire_fields_keys t r : fits t r → map fst (wire_fields t r) = wire_keys t.
Proof.
  intros [Hw _ Hid]. unfold wire_fields, wire_row, wire_keys. rewrite map_app.
  rewrite (cell_fields_keys (λ c, (wire_cell c).1) (λ c, (wire_cell c).2)), Hw. f_equal.
  unfold has_identity, id_ok in Hid. destruct (rowid_alias t), r.1; try done; by destruct Hid.
Qed.

Lemma cell_field t r i c : fits t r → r.2 !! i = Some c →
  field (type_key i) (wire_fields t r) = (wire_cell c).1 ∧ field (value_key i) (wire_fields t r) = (wire_cell c).2.
Proof.
  intros Hf Hi. unfold field.
  assert (NoDup (map fst (wire_fields t r))) as Hn by (rewrite wire_fields_keys by done; apply wire_keys_nodup).
  assert (∀ kv, kv ∈ [(type_key i, (wire_cell c).1); (value_key i, (wire_cell c).2)] → kv ∈ wire_fields t r) as Hin.
  { intros kv Hkv. unfold wire_fields, wire_row. apply elem_of_app. left. rewrite <- flat_map_concat_map.
    apply list_elem_of_In, in_flat_map. exists (i, c). split; [|by apply list_elem_of_In].
    apply list_elem_of_In, list_elem_of_lookup. exists i.
    assert (∀ (cs : list Cell) j, cs !! i = Some c → combine (seq j (length cs)) cs !! i = Some ((j + i)%nat, c)) as H.
    { clear. induction i as [|i IH]; intros [|x cs] j; try done; simpl.
      - intros [= ->]. by rewrite Nat.add_0_r.
      - intros H. rewrite (IH cs (S j) H). do 2 f_equal. lia. }
    by apply H. }
  rewrite (dict_get_elem (type_key i) (wire_cell c).1), (dict_get_elem (value_key i) (wire_cell c).2);
    [done|done|apply Hin; set_solver|done|apply Hin; set_solver].
Qed.

Lemma mapR_seq {A B} (f : nat → res B) (g : A → B) l : ∀ j,
  (∀ i x, l !! i = Some x → f (j + i)%nat = Ok (g x)) → mapR f (seq j (length l)) = Ok (map g l).
Proof.
  induction l as [|x l IH]; intros j Hf; [done|]. cbn [length seq mapR map].
  rewrite <- (Nat.add_0_r j), (Hf 0%nat x) by done. cbn [rbind].
  rewrite (IH (S (j + 0))); [done|]. intros i y Hy. rewrite <- (Hf (S i) y Hy). f_equal. lia.
Qed.

(** The row as the codec keeps it. *)
Definition decoded (r : Row) : Decoded := (map cell_json r.2, r.1).

Lemma decode_row_back t r : fits t r → decode_row t (wire_row t r) = Ok (decoded r).
Proof.
  intros Hf. pose proof Hf as [Hw Hc Hid]. unfold decode_row.
  change (wire_row t r) with (JObj (wire_fields t r)). cbn [_keys closed].
  assert (same_keys (wire_fields t r) (wire_keys t) = true) as ->.
  { rewrite <- wire_fields_keys with (r := r) by done.
    rewrite <- (pairs_id (wire_fields t r)) at 1. apply same_keys_map. rewrite wire_fields_keys by done. apply wire_keys_nodup. }
  cbn [require rbind].
  assert (match rowid_alias t with
          | Some _ => let? z := _decimal (field "row_identity" (wire_fields t r)) in Ok (Some z)
          | None => Ok None
          end = Ok r.1) as ->.
  { unfold id_ok, has_identity in Hid. destruct (rowid_alias t) eqn:Ha, r.1 as [z|] eqn:Hr; try done; [|by destruct Hid].
    unfold field. rewrite (dict_get_elem "row_identity" (JStr (str_of_int z))).
    - by rewrite decimal_back by apply Hid.
    - rewrite wire_fields_keys by done. apply wire_keys_nodup.
    - unfold wire_fields, wire_row. rewrite Ha, Hr. apply elem_of_app. right. by left. }
  cbn [rbind]. rewrite <- Hw, (mapR_seq _ cell_json); [done|]. intros i c Hi. cbn [plus].
  destruct (cell_field t r i c Hf Hi) as [-> ->]. apply decode_cell_back.
  rewrite Forall_forall in Hc. apply Hc. by eapply list_elem_of_lookup_2.
Qed.

(** ** The canonical content *)

Definition row_key (rowid : bool) (r : Row) : string := dumps (ordered_json rowid r).
Definition canonical (t : TablePlan) (rows : list Row) : list Row :=
  sort_by (λ a b, String.leb (row_key (has_identity t) a) (row_key (has_identity t) b)) rows.
Definition identities_json (t : TablePlan) (rows : list Row) : json :=
  if has_identity t then JArr (map (λ r, id_json r.1) rows) else JNull.
Definition table_json (t : TablePlan) (rows : list Row) : json :=
  JObj [("columns", JArr (map JStr (columns t))); ("rows", JArr (map row_json (canonical t rows)));
        ("rowids", identities_json t (canonical t rows))].

(** The values of the primary key of a row. *)
Definition key_values (t : TablePlan) (r : Row) : list Cell := omap (λ k, r.2 !! k) (key_columns t).

(** The rows of a table as SQLite answers them: increasing rowids, or distinct
    primary keys without nulls. *)
Record stored (t : TablePlan) (rows : list Row) : Prop := {
  s_fits : Forall (fits t) rows;
  s_rowids : has_identity t = true → StronglySorted Z.lt (omap fst rows);
  s_keys : has_identity t = false → NoDup (map (key_values t) rows) ∧ Forall (λ r, CNull ∉ key_values t r) rows;
  s_range : Forall (λ k, (k < length (columns t))%nat) (key_columns t) ∧ NoDup (key_columns t);
}.

Lemma canonical_perm t rows : canonical t rows ≡ₚ rows.
Proof. apply sort_by_perm. Qed.

Lemma row_in_table t r rows : r ∈ rows →
  json_len (ordered_json (has_identity t) r) <= json_len (table_json t rows)
  ∧ json_len (row_json r) <= json_len (table_json t rows).
Proof.
  intros Hin. rewrite <- (canonical_perm t) in Hin.
  assert (json_len (row_json r) <= json_len (JArr (map row_json (canonical t rows)))) as H1
    by (apply json_len_in, list_elem_of_fmap; eauto).
  assert (has_identity t = true → json_len (id_json r.1) <= json_len (identities_json t (canonical t rows))) as H2.
  { unfold identities_json. intros ->. apply json_len_in, list_elem_of_fmap. eauto. }
  unfold table_json. rewrite (json_len_members [_; _; _]). cbn [foldr length pred]. unfold member_len. cbn [fst snd].
  change (slen (quoted "columns")) with 9. change (slen (quoted "rows")) with 6. change (slen (quoted "rowids")) with 8.
  pose proof (json_len_nonneg (JArr (map JStr (columns t)))). pose proof (json_len_nonneg (identities_json t (canonical t rows))).
  unfold ordered_json. destruct (has_identity t); [|lia]. specialize (H2 eq_refl).
  rewrite (json_len_arr [_; _]). cbn [foldr length pred]. lia.
Qed.

(** ** Agreement

    A computation agrees with a value when it answers it, or refuses because the
    content is larger than the bounds. *)
Section Agree.
Context (small : Prop).
Notation too_large := (Evidence.too_large small).
Notation agrees := (Evidence.agrees small).

Lemma agrees_keyed {B} (f : Decoded → res B) (g : Row → B) (rows : list Row) :
  (∀ r, r ∈ rows → agrees (f (decoded r)) (g r)) → agrees (mapR f (map decoded rows)) (map g rows).
Proof.
  induction rows as [|r rows IH]; intros Hf; [by left|]. cbn [mapR map]. eapply agrees_bind; [apply Hf; by left|].
  eapply agrees_bind; [apply IH; intros; apply Hf; by right|]. by left.
Qed.



(** *** Pages *)

Definition page (t : TablePlan) (rows : list Row) (offset limit : Z) : json :=
  JArr (map (wire_row t) (take (Z.to_nat limit) (drop (Z.to_nat offset) rows))).

Lemma wire_finite t r : all_finite (wire_row t r) = true.
Proof.
  unfold wire_row. cbn [all_finite]. apply forallb_forall. intros [k v] Hin. apply in_app_iff in Hin as [Hin|Hin].
  - rewrite <- flat_map_concat_map in Hin. apply in_flat_map in Hin as ([i c] & _ & Hin). destruct Hin as [[= <- <-]|[[= <- <-]|[]]]; by destruct c.
  - destruct (rowid_alias t), r.1; try done. by destruct Hin as [[= <- <-]|[]].
Qed.
Lemma page_finite t rows o n : all_finite (page t rows o n) = true.
Proof.
  unfold page. cbn [all_finite]. apply forallb_forall. intros j Hj. apply list_elem_of_In, list_elem_of_fmap in Hj as (r & -> & _).
  apply wire_finite.
Qed.

Lemma decode_page_back t rows :
  Forall (fits t) rows → Z.of_nat (length rows) <= MAX_PAGE_ROWS → (small → json_len (JArr (map (wire_row t) rows)) <= MAX_BYTES) →
  agrees (decode_table_page t (JArr (map (wire_row t) rows))) (map decoded rows).
Proof.
  intros Hf Hl Hb. unfold decode_table_page. cbn [list_of rbind]. apply agrees_require; [rewrite length_map; by apply Z.leb_le|].
  eapply agrees_bind.
  { apply agrees_json; [|exact Hb]. cbn [all_finite]. apply forallb_forall. intros j Hj.
    apply list_elem_of_In, list_elem_of_fmap in Hj as (r & -> & _). apply wire_finite. }
  left. assert (mapR (decode_row t) (map (wire_row t) rows) = Ok (map decoded rows)) as ->; [|done].
  clear -Hf. induction Hf as [|r rows Hr _ IH]; [done|]. cbn [map mapR]. by rewrite decode_row_back, IH by done.
Qed.

Lemma page_length (rows : list Row) ps i :
  1 <= ps → 0 <= i → i * ps <= Z.of_nat (length rows) →
  Z.of_nat (length (take (Z.to_nat ps) (drop (Z.to_nat (i * ps)) rows))) = Z.min ps (Z.of_nat (length rows) - i * ps).
Proof. intros Hp Hi Hle. rewrite length_take, length_drop. nia. Qed.

Lemma take_step (rows : list Row) ps i :
  1 <= ps → 0 <= i →
  take (Z.to_nat (i * ps)) rows ++ take (Z.to_nat ps) (drop (Z.to_nat (i * ps)) rows) = take (Z.to_nat ((i + 1) * ps)) rows.
Proof.
  intros Hp Hi. replace (Z.to_nat ((i + 1) * ps)) with (Z.to_nat (i * ps) + Z.to_nat ps)%nat by nia.
  by rewrite take_take_drop.
Qed.

(** The pages of a table as they are read: one per offset, then the sentinel. *)
Definition table_pages (t : TablePlan) (rows : list Row) (ps : Z) : list json :=
  map (λ o, page t rows o ps) (offsets (Z.of_nat (length rows)) ps) ++ [page t rows (Z.of_nat (length rows)) 1].

(** The first [k] pages of the loop. *)
Lemma decode_first_pages plan t rows k step :
  1 <= page_size plan <= MAX_PAGE_ROWS → Forall (fits t) rows → (k * page_size plan <= Z.of_nat (length rows) + page_size plan - 1) →
  (small → ∀ i, 0 <= i < k → json_len (page t rows (i * page_size plan) (page_size plan)) <= MAX_BYTES) → 0 <= k →
  (∀ i acc, 0 <= i < k → step acc (Z.to_nat i, page t rows (i * page_size plan) (page_size plan))
     = let? more := decode_table_page t (page t rows (i * page_size plan) (page_size plan)) in Ok (acc ++ more)) →
  agrees (foldR step [] (map (λ i, (Z.to_nat i, page t rows (i * page_size plan) (page_size plan))) (seqZ 0 k)))
    (map decoded (take (Z.to_nat (k * page_size plan)) rows)).
Proof.
  intros Hp Hf Hle Hb Hk. revert Hle Hb. pattern k. apply natlike_ind; [|clear k Hk; intros k Hk IH|done].
  { by left. }
  intros Hle Hb Hstep. rewrite seqZ_app with (n1 := k) (n2 := 1) by lia. rewrite map_app, foldR_app.
  eapply agrees_bind; [apply IH; [nia|intros Hs i Hi; apply Hb; [done|lia]|intros i acc Hi; apply Hstep; lia]|].
  replace (0 + k) with k by lia. change (seqZ k 1) with [k].
  cbn [map foldR]. rewrite Hstep by lia. replace (Z.succ k) with (k + 1) by lia.
  rewrite <- take_step by lia. rewrite map_app.
  eapply agrees_bind; [|by left]. eapply agrees_bind; [|by left]. apply decode_page_back.
  - by apply Forall_take, Forall_drop.
  - rewrite length_take. lia.
  - intros Hs. apply Hb; [done|lia].
Qed.

Lemma combine_seq {A} (l : list A) : ∀ j, combine (seq j (length l)) l = imap (λ i x, ((j + i)%nat, x)) l.
Proof.
  induction l as [|x l IH]; intros j; [done|]. cbn [length seq combine]. rewrite IH. cbn [imap]. f_equal; [f_equal; lia|].
  apply imap_ext. intros i y _. simpl. f_equal. lia.
Qed.

Lemma numbered_pages t rows ps :
  1 <= ps →
  let count := Z.of_nat (length rows) in let k := (count + ps - 1) / ps in
  combine (seq 0 (length (table_pages t rows ps))) (table_pages t rows ps)
  = map (λ i, (Z.to_nat i, page t rows (i * ps) ps)) (seqZ 0 k) ++ [(Z.to_nat k, page t rows count 1)].
Proof.
  intros Hp. simpl. rewrite combine_seq. unfold table_pages, offsets. rewrite imap_app, map_map. cbn [imap]. f_equal.
  - generalize ((Z.of_nat (length rows) + ps - 1) / ps). intros k. unfold seqZ. rewrite !map_map.
    change (map ?f ?l) with (f <$> l). rewrite imap_fmap. apply list_eq. intros i. rewrite list_lookup_imap, list_lookup_fmap.
    destruct (seq 0 (Z.to_nat k) !! i) as [x|] eqn:Hx; [|done]. apply lookup_seq in Hx as [-> _]. simpl.
    rewrite Z.add_0_r, Nat2Z.id. done.
  - rewrite length_map, length_seqZ. rewrite Nat.add_0_r. done.
Qed.

Lemma decode_pages_back plan t rows :
  1 <= page_size plan <= MAX_PAGE_ROWS → Forall (fits t) rows →
  (small → ∀ o, o ∈ offsets (Z.of_nat (length rows)) (page_size plan) → json_len (page t rows o (page_size plan)) <= MAX_BYTES) →
  agrees (decode_pages plan t (Z.of_nat (length rows)) (table_pages t rows (page_size plan))) (map decoded rows).
Proof.
  intros Hp Hf Hb. set (ps := page_size plan) in *. set (count := Z.of_nat (length rows)).
  set (k := (count + ps - 1) / ps). pose proof (Z.div_mod (count + ps - 1) ps ltac:(lia)) as Hd.
  pose proof (Z.mod_pos_bound (count + ps - 1) ps ltac:(lia)) as Hm. fold k in Hd.
  assert (0 <= k) as Hk by (apply Z.div_pos; lia).
  unfold decode_pages. apply agrees_require.
  { fold ps count k. apply Z.eqb_eq. unfold table_pages, offsets. rewrite length_app, !length_map, length_seqZ. simpl. fold count k. lia. }
  pose proof (numbered_pages t rows ps ltac:(lia)) as Hn. cbv zeta in Hn. fold count k in Hn. fold ps. rewrite Hn, foldR_app. fold count k.
  assert (take (Z.to_nat (k * ps)) rows = rows) as Hall by (apply take_ge; nia).
  eapply agrees_bind.
  { apply (decode_first_pages plan t rows k); [done|done|nia| |done|].
    { fold ps. intros Hs i Hi. apply Hb; [done|]. fold count. unfold offsets. apply list_elem_of_fmap. exists i. split; [done|].
      apply elem_of_seqZ. fold k. lia. }
    fold ps. intros i acc Hi. cbv beta. cbn [fst snd].
    rewrite Z2Nat.id, (proj2 (Z.ltb_lt i k)) by lia. unfold page at 1. cbn [list_of rbind].
    rewrite length_map, page_length, (proj2 (Z.eqb_eq _ _)) by (try done; nia). done. }
  fold ps. rewrite Hall. cbn [foldR fst snd]. rewrite Z2Nat.id, Z.ltb_irrefl by lia. eapply agrees_bind; [|by left].
  unfold page. replace (Z.to_nat count) with (length rows) by lia. rewrite drop_ge, take_nil by done. cbn [list_of rbind map length].
  left. assert (decode_table_page t (JArr []) = Ok []) as -> by reflexivity. cbn [Z.of_nat Z.eqb require rbind]. by rewrite app_nil_r.
Qed.

(** *** Canonical rows *)

Lemma decoded_ids rows : Forall (λ r : Row, is_Some r.1) rows → mapM snd (map decoded rows) = Some (omap fst rows).
Proof.
  induction 1 as [|r rows [z Hz] _ IH]; [done|]. cbn [map mapM]. cbn [decoded snd]. rewrite Hz, IH. simpl. by rewrite Hz.
Qed.

Lemma sorted_ids ids : StronglySorted Z.lt ids → ids = sort_by Z.leb ids ∧ NoDup ids.
Proof.
  intros Hs. split.
  - symmetry. apply sorted_sort_by. induction Hs as [|x l Hs IH Hx]; constructor; [done|].
    eapply Forall_impl; [exact Hx|]. intros y. unfold by_leb. rewrite Z.leb_le. lia.
  - induction Hs as [|x l Hs IH Hx]; constructor; [|done]. intros Hin. rewrite Forall_forall in Hx. specialize (Hx x Hin). lia.
Qed.

Lemma nth_error_at {A} (l : list A) k : nth_error l k = l !! k.
Proof. revert k. induction l as [|x l IH]; intros [|k]; simpl; auto. Qed.

Lemma key_cells_back t r :
  length r.2 = length (columns t) → Forall (λ k, (k < length (columns t))%nat) (key_columns t) →
  key_cells t (decoded r) = Ok (map cell_json (key_values t r)).
Proof.
  intros Hw Hr. unfold key_cells, key_values. induction Hr as [|k ks Hk _ IH]; [done|]. cbn [mapR decoded fst].
  destruct (lookup_lt_is_Some_2 r.2 k) as [c Hc]; [lia|].
  assert (nth_error (map cell_json r.2) k = Some (cell_json c)) as ->.
  { rewrite nth_error_map, nth_error_at. by rewrite Hc. }
  cbn [rbind]. unfold decoded in IH. cbn [fst] in IH. rewrite IH. cbn. by rewrite Hc.
Qed.

Lemma lookups_sub {A} (l : list A) ks : NoDup ks → omap (λ k, l !! k) ks ⊆+ l.
Proof.
  intros Hn. trans (omap (λ k, l !! k) (seq 0 (length l))).
  - assert (omap (λ k, l !! k) ks = omap (λ k, l !! k) (filter (λ k, (k < length l)%nat) ks)) as ->.
    { clear Hn. induction ks as [|k ks IH]; [done|]. rewrite filter_cons. destruct (decide (k < length l)%nat) as [Hk|Hk]; cbn.
      - by rewrite IH.
      - by rewrite (lookup_ge_None_2 l) by lia. }
    assert (filter (λ k, (k < length l)%nat) ks ⊆+ seq 0 (length l)) as (r & Hr)%submseteq_Permutation.
    { apply NoDup_submseteq; [by apply NoDup_filter|]. intros k [Hk _]%list_elem_of_filter. apply elem_of_seq. lia. }
    rewrite Hr, omap_app. by apply submseteq_inserts_r.
  - assert (omap (λ k, l !! k) (seq 0 (length l)) = l) as ->; [|done]. clear. induction l as [|x l IH]; [done|].
    cbn [length seq]. rewrite <- fmap_S_seq. cbn. f_equal. rewrite <- IH at 2. clear.
    induction (seq 0 (length l)) as [|k ks IH]; [done|]. cbn. destruct (l !! k); [f_equal|]; exact IH.
Qed.

Lemma key_small t r : NoDup (key_columns t) → json_len (JArr (map cell_json (key_values t r))) <= json_len (row_json r).
Proof.
  intros Hn. apply json_len_sub. pose proof (lookups_sub r.2 _ Hn) as (k & Hk)%submseteq_Permutation.
  unfold key_values. change (map cell_json r.2) with (cell_json <$> r.2). rewrite Hk, fmap_app. by apply submseteq_inserts_r.
Qed.

Lemma cells_text_inj a b :
  Forall transported a → Forall transported b → dumps (JArr (map cell_json a)) = dumps (JArr (map cell_json b)) → a = b.
Proof.
  intros Ha Hb E.
  assert (∀ l, Forall transported l → loads (dumps (JArr (map cell_json l))) = Ok (JArr (map cell_json l))) as Hl.
  { intros l Ht. rewrite loads_back.
    - do 2 f_equal. cbn [canon]. f_equal. rewrite map_map. apply map_ext. intros c. by destruct c.
    - cbn [regular]. apply foldr_and_forall, Forall_map, Forall_true. by intros []. }
  pose proof (Hl a Ha) as E1. rewrite E, (Hl b Hb) in E1. injection E1 as E1. clear -Ha Hb E1.
  revert b Hb E1. induction Ha as [|x a Hx Ha IH]; intros [|y b] Hb E; try done. apply Forall_cons in Hb as [Hy Hb].
  cbn [map] in E. injection E as Exy E. f_equal; [|by apply IH].
  destruct x, y; try done; cbn in Exy; injection Exy as Exy; try congruence.
  f_equal. apply (f_equal unhex) in Exy. rewrite !unhex_hexs in Exy. congruence.
Qed.

Definition cells_of (r : Row) : list json := map cell_json r.2.

Lemma canonical_rowids t rows :
  rowid_alias t ≠ None → stored t rows → (small → json_len (table_json t rows) <= MAX_BYTES) →
  agrees (canonical_rows t (map decoded rows)) (map cells_of (canonical t rows), identities_json t (canonical t rows)).
Proof.
  intros Ha Hs Hb. unfold canonical_rows. destruct (rowid_alias t) as [a|] eqn:Hal; [|done].
  assert (has_identity t = true) as Hid by (unfold has_identity; by rewrite Hal).
  rewrite decoded_ids.
  2:{ eapply Forall_impl; [apply Hs|]. intros r [_ _ Hr]. rewrite Hid in Hr. unfold id_ok in Hr. destruct r.1; [done|discriminate Hr]. }
  cbn [rbind]. destruct (sorted_ids _ (s_rowids _ _ Hs Hid)) as [Hsort Hnd].
  apply agrees_require; [by rewrite (bool_decide_true _ Hsort), (bool_decide_true _ Hnd)|].
  eapply agrees_bind.
  { apply agrees_sorted. intros x (r & -> & Hr)%list_elem_of_fmap. split; [apply (ordered_finite true r)|].
    intros Hsm. specialize (Hb Hsm). pose proof (row_in_table t r rows Hr) as [H _]. rewrite Hid in H.
    change (decoded_json (decoded r)) with (ordered_json true r). lia. }
  left. rewrite sort_by_map. unfold identities_json, canonical. rewrite Hid, !map_map. done.
Qed.

Lemma canonical_keys t rows :
  rowid_alias t = None → stored t rows → (small → json_len (table_json t rows) <= MAX_BYTES) →
  agrees (canonical_rows t (map decoded rows)) (map cells_of (canonical t rows), identities_json t (canonical t rows)).
Proof.
  intros Ha Hs Hb. unfold canonical_rows. rewrite Ha.
  assert (has_identity t = false) as Hid by (unfold has_identity; by rewrite Ha).
  destruct (s_keys _ _ Hs Hid) as [Hnd Hnn]. destruct (s_range _ _ Hs) as [Hrange Hkn].
  pose proof (s_fits _ _ Hs) as Hf. rewrite Forall_forall in Hf.
  assert (∀ r, r ∈ rows → small → json_len (row_json r) <= MAX_BYTES) as Hrow.
  { intros r Hr Hsm. specialize (Hb Hsm). pose proof (row_in_table t r rows Hr) as [_ H]. lia. }
  eapply agrees_bind.
  { apply (agrees_keyed _ (λ r, (map cell_json (key_values t r), dumps (JArr (map cell_json (key_values t r)))))). intros r Hr.
    rewrite key_cells_back; [|apply f_width, Hf; done|done]. cbn [rbind]. eapply agrees_bind; [|by left]. apply agrees_json.
    - cbn [all_finite]. apply forallb_forall. intros j Hj. apply list_elem_of_In, list_elem_of_fmap in Hj as (c & -> & _). apply cell_finite.
    - intros Hsm. pose proof (key_small t r Hkn). specialize (Hrow r Hr Hsm). lia. }
  apply agrees_require.
  { apply bool_decide_eq_true. rewrite map_map.
    change (NoDup ((λ r, dumps (JArr (map cell_json (key_values t r)))) <$> rows)).
    apply NoDup_fmap_2_strong; [|by eapply NoDup_fmap_1]. intros x y Hx Hy E.
    assert (∀ r, r ∈ rows → Forall transported (key_values t r)) as Htr.
    { intros r Hr. apply Forall_forall. intros c Hc. apply list_elem_of_omap in Hc as (k & _ & Hk).
      pose proof (f_cells _ _ (Hf r Hr)) as Hc. rewrite Forall_forall in Hc. apply Hc. by eapply list_elem_of_lookup_2. }
    apply cells_text_inj in E; [|by apply Htr..].
    apply list_elem_of_lookup in Hx as [i Hi], Hy as [j Hj].
    assert (i = j) as ->; [|congruence]. eapply NoDup_lookup; [exact Hnd|..]; rewrite list_lookup_fmap; [by rewrite Hi|by rewrite Hj, E]. }
  apply agrees_require.
  { apply forallb_forall. intros kt Hk. apply list_elem_of_In, list_elem_of_fmap in Hk as (r & -> & Hr). apply forallb_forall.
    intros j Hj. apply list_elem_of_In, list_elem_of_fmap in Hj as (c & -> & Hc). rewrite Forall_forall in Hnn.
    specialize (Hnn r Hr). by destruct c. }
  eapply agrees_bind.
  { apply agrees_sorted. rewrite map_map. intros x (r & -> & Hr)%list_elem_of_fmap. split; [apply row_finite|]. intros Hsm. by apply Hrow. }
  left. rewrite map_map. unfold identities_json, canonical. rewrite sort_by_map, Hid. done.
Qed.

Lemma canonical_back t rows :
  stored t rows → (small → json_len (table_json t rows) <= MAX_BYTES) →
  agrees (canonical_rows t (map decoded rows)) (map cells_of (canonical t rows), identities_json t (canonical t rows)).
Proof.
  intros Hs Hb. destruct (rowid_alias t) eqn:Ha; [apply canonical_rowids; [by rewrite Ha|done..]|by apply canonical_keys].
Qed.

(** *** Assembly *)

Section Assemble.
Context (plan : SnapshotPlan) (content : string → list Row).

Definition rows_in (t : TablePlan) : list Row := content (name t).
Definition counted (t : TablePlan) : Z := Z.of_nat (length (rows_in t)).
Definition show_table (t : TablePlan) : string * json := (name t, table_json t (rows_in t)).
(** The whole content in canonical form. *)
Definition snapshot : json :=
  JObj [("schema", JArr (map schema_row_json (schema plan))); ("tables", JObj (map show_table (tables plan)))].

Definition pages_dict : list (string * json) :=
  map (λ t, (name t, JArr (table_pages t (rows_in t) (page_size plan)))) (tables plan).
Definition counts_dict : list (string * json) := map (λ t, (name t, JInt (counted t))) (tables plan).

Context (Hps : 1 <= page_size plan <= MAX_PAGE_ROWS) (Hnames : NoDup (map name (tables plan))).
Context (Hstored : ∀ t, t ∈ tables plan → stored t (rows_in t)).
Context (Htotal : foldr (λ t n, counted t + n) 0 (tables plan) <= MAX_ROWS).
Context (Hsize : small → json_len snapshot <= MAX_BYTES).
Context (Hpages : small → ∀ t o, t ∈ tables plan → o ∈ offsets (counted t) (page_size plan) →
  json_len (page t (rows_in t) o (page_size plan)) <= MAX_BYTES).

Lemma table_finite t rows : all_finite (table_json t rows) = true.
Proof.
  unfold table_json, identities_json. cbn [all_finite forallb snd].
  assert (∀ l, forallb all_finite (map row_json l) = true) as ->
    by (intros l; apply forallb_forall; intros j Hj; apply list_elem_of_In, list_elem_of_fmap in Hj as (r & -> & _); apply row_finite).
  assert (∀ l, forallb all_finite (map JStr l) = true) as -> by (induction l; [done|]; simpl; done).
  destruct (has_identity t); [|done]. cbn [andb]. rewrite andb_true_r. apply forallb_forall.
  intros j Hj. apply list_elem_of_In, list_elem_of_fmap in Hj as (r & -> & _). by destruct r.1.
Qed.
Lemma tables_finite l : all_finite (JObj (map show_table l)) = true.
Proof. cbn [all_finite]. apply forallb_forall. intros kv Hkv. apply list_elem_of_In, list_elem_of_fmap in Hkv as (t & -> & _). apply table_finite. Qed.
Lemma snapshot_finite : all_finite snapshot = true.
Proof.
  unfold snapshot. change (all_finite (JObj [(?a, JArr ?b); (?c, ?d)])) with (forallb all_finite b && (all_finite d && true)).
  rewrite tables_finite, andb_true_r. apply forallb_forall. intros j Hj. apply list_elem_of_In, list_elem_of_fmap in Hj as (r & -> & _).
  unfold schema_row_json. cbn. by destruct (s_sql r).
Qed.

Lemma tables_small l k : tables plan = l ++ k → small → json_len (JObj (map show_table l)) <= MAX_BYTES.
Proof.
  intros E Hs. specialize (Hsize Hs). unfold snapshot in Hsize. rewrite E, map_app in Hsize.
  pose proof (json_len_prefix (map show_table l) (map show_table k)).
  pose proof (json_len_member "tables" (JObj (map show_table l ++ map show_table k))
    [("schema", JArr (map schema_row_json (schema plan))); ("tables", JObj (map show_table l ++ map show_table k))] ltac:(set_solver)). lia.
Qed.

Lemma table_small t : t ∈ tables plan → small → json_len (table_json t (rows_in t)) <= MAX_BYTES.
Proof.
  intros Hin Hs. pose proof (tables_small (tables plan) [] ltac:(by rewrite app_nil_r) Hs).
  pose proof (json_len_member (name t) (table_json t (rows_in t)) (map show_table (tables plan))) as H2.
  specialize (H2 ltac:(apply list_elem_of_fmap; by exists t)). lia.
Qed.

Lemma field_of (f : TablePlan → json) t : t ∈ tables plan → field (name t) (map (λ t, (name t, f t)) (tables plan)) = f t.
Proof.
  intros Hin. unfold field. rewrite (dict_get_elem (name t) (f t)); [done|by rewrite map_map|]. apply list_elem_of_fmap. by exists t.
Qed.

Lemma sum_nonneg_counts l : 0 <= foldr (λ t n, counted t + n) 0 l.
Proof. apply sum_nonneg. intros t. unfold counted. lia. Qed.

Lemma assemble_table_back l t k :
  tables plan = l ++ t :: k →
  agrees (assemble_table plan pages_dict counts_dict (foldr (λ t n, counted t + n) 0 l, map show_table l) t)
    (foldr (λ t n, counted t + n) 0 (l ++ [t]), map show_table (l ++ [t])).
Proof.
  intros E. assert (t ∈ tables plan) as Hin by (rewrite E; set_solver). unfold assemble_table.
  unfold counts_dict, pages_dict. rewrite !field_of by done. cbn [fst snd].
  pose proof Htotal as Ht. rewrite E, sum_app in Ht. cbn [foldr] in Ht. fold foldr in Ht.
  pose proof (sum_nonneg_counts l). pose proof (sum_nonneg_counts k).
  assert (0 <= counted t) by (unfold counted; lia).
  rewrite (proj2 (Z.leb_le 0 _)), (proj2 (Z.leb_le _ MAX_ROWS)) by lia. cbn [andb require rbind].
  rewrite (proj2 (Z.leb_le _ MAX_ROWS)) by lia. cbn [require rbind list_of].
  eapply agrees_bind.
  { apply decode_pages_back; [done|apply Hstored; done|]. intros Hs o Ho. by apply Hpages. }
  eapply agrees_bind.
  { apply canonical_back; [by apply Hstored|]. by apply table_small. }
  cbn [fst snd].
  assert (dict_set (name t) (JObj [("columns", JArr (map JStr (columns t)));
    ("rows", JArr (map JArr (map cells_of (canonical t (rows_in t))))); ("rowids", identities_json t (canonical t (rows_in t)))])
    (map show_table l) = map show_table (l ++ [t])) as ->.
  { rewrite dict_set_new, map_app; [by rewrite map_map|]. rewrite map_map. simpl.
    rewrite E, map_app in Hnames. cbn [map] in Hnames. apply NoDup_app in Hnames as (_ & Hd & _). intros Hx. apply (Hd _ Hx). by left. }
  eapply agrees_bind.
  { apply agrees_json; [apply tables_finite|]. apply (tables_small (l ++ [t]) k). by rewrite <- app_assoc. }
  left. rewrite sum_app. cbn [foldr]. by rewrite Z.add_0_r.
Qed.

Lemma assemble_back : agrees (assemble_snapshot plan (JObj pages_dict) (JObj counts_dict)) snapshot.
Proof.
  unfold assemble_snapshot.
  assert (∀ f : TablePlan → json, _keys (JObj (map (λ t, (name t, f t)) (tables plan))) (map name (tables plan))
    = λ c, Ok (map (λ t, (name t, f t)) (tables plan))) as Hk.
  { intros f. unfold _keys, closed. assert (same_keys (map (λ t, (name t, f t)) (tables plan)) (map name (tables plan)) = true) as ->; [|done].
    pose proof (same_keys_map id (map (λ t, (name t, f t)) (tables plan))) as H. rewrite pairs_id, map_map in H. by apply H. }
  unfold pages_dict, counts_dict. rewrite !Hk. cbn [rbind]. fold pages_dict counts_dict.
  assert (∀ k l, tables plan = l ++ k →
    agrees (foldR (assemble_table plan pages_dict counts_dict) (foldr (λ t n, counted t + n) 0 l, map show_table l) k)
      (foldr (λ t n, counted t + n) 0 (tables plan), map show_table (tables plan))) as Hfold.
  { induction k as [|t k IH]; intros l E; [rewrite app_nil_r in E; rewrite E; by left|]. cbn [foldR].
    eapply agrees_bind; [by eapply assemble_table_back|]. apply IH. by rewrite <- app_assoc. }
  eapply agrees_bind; [by apply (Hfold (tables plan) [])|]. cbn [snd].
  eapply agrees_bind; [apply agrees_json; [apply snapshot_finite|exact Hsize]|]. by left.
Qed.

(** The reference the oracle holds of this content. *)
Definition reference : Reference :=
  mkReference (map (λ r, [Some (s_type r); Some (s_name r); Some (s_tbl_name r); s_sql r]) (schema plan))
    (map (λ t, (name t, mkTable (columns t) (rows_in t) (has_identity t))) (tables plan)).

Lemma snapshot_checked : check reference snapshot = Ok tt.
Proof.
  apply check_shows. unfold snapshot. do 2 eexists. split; [done|]. split_and!; [|done| |].
  - simpl. unfold schema_json. do 3 f_equal. rewrite map_map. done.
  - simpl. rewrite map_map. simpl.
    pose proof (same_keys_map id (map show_table (tables plan))) as H. rewrite pairs_id, map_map in H. by apply H.
  - intros n T Hin. apply list_elem_of_fmap in Hin as (t & [= -> ->] & Hin). destruct (Hstored t Hin) as [Hf Hr Hk [Hrange _]].
    exists (table_json t (rows_in t)), (canonical t (rows_in t)). split.
    { apply dict_get_elem; [by rewrite map_map|]. apply list_elem_of_fmap. by exists t. }
    split; simpl.
    + apply canonical_perm.
    + rewrite canonical_perm. eapply Forall_impl; [exact Hf|]. intros r [Hw Hc Hid]. split_and!; [done| |done].
      eapply Forall_impl; [exact Hc|]. by intros [].
    + intros Hid. rewrite canonical_perm. specialize (Hr Hid). apply sorted_ids in Hr as [_ Hn].
      apply (NoDup_fmap_1 (λ o : option Z, default 0 o)).
      assert ((λ o : option Z, default 0 o) <$> map fst (rows_in t) = omap fst (rows_in t)) as ->; [|done].
      clear -Hf Hid. induction Hf as [|r rows [_ _ Hr] _ IH]; [done|]. cbn. rewrite Hid in Hr. destruct r.1; [|done]. f_equal. exact IH.
    + apply in_order_sorted. rewrite map_map. unfold canonical.
      assert (Transitive (by_leb (λ a b : Row, String.leb (row_key (has_identity t) a) (row_key (has_identity t) b)))) as Htr
        by (intros a b c; unfold by_leb; apply text_le_trans).
      assert (StronglySorted (by_leb (λ a b : Row, String.leb (row_key (has_identity t) a) (row_key (has_identity t) b)))
        (sort_by (λ a b, String.leb (row_key (has_identity t) a) (row_key (has_identity t) b)) (rows_in t))) as Hs.
      { apply sort_by_sorted; [exact Htr|]. intros a b Hab. destruct (text_le_total (row_key (has_identity t) a) (row_key (has_identity t) b)) as [H|H]; [unfold text_le in H; congruence|exact H]. }
      eapply StronglySorted_fmap; [|exact Hs]. done.
    + unfold table_json, identities_json. eexists. split; [done|]. by split_and!.
Qed.
End Assemble.
End Agree.
