(* ===== verification/SnapshotCollect.v ===== *)
(** The whole collection over a quiet database: the queries sent, in order, and the
    answer, composed from the planner, the pages and the assembly. *)
From stdpp Require Import sorting.
From S2P Require Import Prelude Json JsonParse JsonRoundTrip Binary64 Oracle Evidence SnapshotCodec SnapshotFacts SnapshotCapture.

Definition sql_of (r : res string) : string := match r with Ok s => s | Err _ => EmptyString end.

(** ** Planned tables have well-formed queries *)

Lemma identifier_named s : name_ok s = true → _identifier s = Ok (quote s).
Proof. intros H. unfold _identifier. by rewrite H. Qed.

(** A table whose every name can be quoted and whose key columns exist. *)
Record queryable (t : TablePlan) : Prop := {
  q_name : name_ok (name t) = true;
  q_columns : Forall (λ c, name_ok c = true) (columns t);
  q_alias a : rowid_alias t = Some a → name_ok a = true;
  q_keys : Forall (λ k, (k < length (columns t))%nat) (key_columns t);
}.

Lemma count_sql_ok t : queryable t → count_sql t = Ok (sql_of (count_sql t)).
Proof. intros [Hn _ _ _]. unfold count_sql. by rewrite identifier_named. Qed.

Lemma mapR_total {A B} (f : A → res B) l : (∀ x, x ∈ l → ∃ y, f x = Ok y) → ∃ ys, mapR f l = Ok ys.
Proof.
  induction l as [|x l IH]; intros Hf; [by exists []|]. destruct (Hf x) as [y Hy]; [by left|].
  destruct IH as [ys Hys]; [intros; apply Hf; by right|]. exists (y :: ys). cbn [mapR]. by rewrite Hy, Hys.
Qed.

Lemma page_sql_ok t o n :
  queryable t → 0 <= o <= MAX_ROWS → 1 <= n <= MAX_PAGE_ROWS → table_page_sql t o n = Ok (sql_of (table_page_sql t o n)).
Proof.
  intros [Hn Hc Ha Hk] Ho Hl. assert (∃ s, table_page_sql t o n = Ok s) as [s ->]; [|done]. unfold table_page_sql.
  rewrite (proj2 (Z.leb_le 0 o)), (proj2 (Z.leb_le o _)), (proj2 (Z.leb_le 1 n)), (proj2 (Z.leb_le n _)) by lia. cbn [andb require rbind].
  destruct (mapR_total (λ ic, column_expressions ic.1 ic.2) (combine (seq 0 (length (columns t))) (columns t))) as [cells Hcells].
  { intros [i c] Hin. apply list_elem_of_In, in_combine_r, list_elem_of_In in Hin. rewrite Forall_forall in Hc.
    unfold column_expressions. cbn [fst snd]. rewrite identifier_named by auto. cbn [rbind]. eauto. }
  destruct (mapR_total (key_order t) (key_columns t)) as [ks Hks].
  { intros k Hin. rewrite Forall_forall in Hk. specialize (Hk k Hin). unfold key_order. rewrite nth_error_at.
    destruct (lookup_lt_is_Some_2 _ _ Hk) as [c Hcc]. rewrite Hcc. rewrite Forall_forall in Hc.
    rewrite identifier_named by (apply Hc; by eapply list_elem_of_lookup_2). cbn [rbind]. eauto. }
  rewrite identifier_named by done.
  destruct (rowid_alias t) as [a|]; [rewrite identifier_named by auto|]; cbn [rbind]; rewrite Hcells; cbn [rbind];
    rewrite ?identifier_named, ?Hks by auto; cbn [rbind]; eauto.
Qed.

Lemma described_queryable listed t : name_ok (name t) = true → described listed t → queryable t.
Proof.
  intros Hn (_ & Hc & _ & Hid). pose proof (Forall2_length _ _ _ Hc) as Hlen. split; [done| | |].
  - clear -Hc. induction Hc as [|j n l ns (d & _ & _ & H) _ IH]; constructor; done.
  - intros a Ha. rewrite Ha in Hid. destruct Hid as [Hin _]. rewrite !elem_of_cons, elem_of_nil in Hin.
    by destruct Hin as [->|[->|[->|[]]]].
  - destruct (rowid_alias t); [destruct Hid as (_ & _ & ->); constructor|]. destruct Hid as (_ & Hk & _).
    apply Forall_forall. intros k Hin. apply list_elem_of_lookup in Hin as [i Hi]. specialize (Hk i k Hi).
    apply keyed_at_lt in Hk. lia.
Qed.

(** The first pass over the schema finds the names the plan has. *)
Lemma census_names rows schema : schema_read rows schema → foldR census_name [] rows = Ok (names_of "table" schema).
Proof.
  intros [_ Hn Hr]. assert (∀ acc, foldR census_name acc rows = Ok (acc ++ names_of "table" schema)) as H; [|apply H].
  induction Hr as [|j r rows schema (d & -> & Hk & Hty & Hna) _ IH]; intros acc; [by rewrite app_nil_r|].
  apply Forall_cons in Hn as [[Hok _] Hn]. cbn [foldR]. unfold census_name at 1. cbn [_keys closed]. rewrite Hk. cbn [require rbind].
  unfold field. rewrite Hty, Hna. cbn [str_among _name]. unfold names_of in *. rewrite filter_cons.
  unfold str_in. destruct (decide (s_type r = "table")) as [->|Hne].
  - rewrite bool_decide_true by set_solver. rewrite Hok. cbn [require rbind text_of]. rewrite IH by done. by rewrite <- app_assoc.
  - rewrite bool_decide_false by set_solver. cbn [rbind]. by rewrite IH.
Qed.

Lemma planned_name rows p t :
  schema_read rows (schema p) → map name (tables p) = sort_texts (names_of "table" (schema p)) → t ∈ tables p → name_ok (name t) = true.
Proof.
  intros [_ Hn _] Hm Hin. assert (name t ∈ map name (tables p)) as H by (apply list_elem_of_fmap; eauto).
  rewrite Hm, sort_texts_perm in H. unfold names_of in H. apply list_elem_of_fmap in H as (r & -> & Hr).
  apply list_elem_of_filter in Hr as [_ Hr]. rewrite Forall_forall in Hn. by apply Hn.
Qed.

(** ** The queries of a plan, and an honest reader *)

Section Collection.
Context {W : Type} (query : string → M W json) (quiet : W → Prop) (answer : string → json).
Context (plan : SnapshotPlan) (content : string → list Row).
Notation rows_in := (rows_in content).
Notation counted := (counted content).
Notation snapshot := (snapshot plan content).
Notation Capture := (Capture (W:=W)).

Definition census : list string := sort_texts (names_of "table" (schema plan)).
Definition columns_query (n : string) : string := sql_of (columns_sql n).
Definition page_query (t : TablePlan) (o n : Z) : string := sql_of (table_page_sql t o n).
Definition table_queries (t : TablePlan) : list string :=
  sql_of (count_sql t) :: map (λ o, page_query t o (page_size plan)) (offsets (counted t) (page_size plan)) ++ [page_query t (counted t) 1].
Definition planned_queries : list string :=
  [SCHEMA_SQL; TABLE_LIST_SQL; ENCODING_SQL] ++ map columns_query census ++ concat (map table_queries (tables plan)).

Definition answer_bytes (l : list string) : Z := foldr (λ q n, json_len (answer q) + n) 0 l.
(** The answers and the result fit the codec's bounds. *)
Definition small : Prop := answer_bytes planned_queries <= MAX_BYTES ∧ json_len snapshot <= MAX_BYTES.

(** The documented behaviour of the reader while nothing writes: every generated
    SELECT answers its rows - as [typeof], [CAST] and [hex] render them, in rowid or
    key order - and leaves the database quiet; the metadata is what the plan was
    built from. *)
Record honest_reader : Prop := {
  hr_query sql w : quiet w → ∃ w', query sql w = (Ok (answer sql), w') ∧ quiet w';
  hr_rows sql : ∃ l, answer sql = JArr l;
  hr_finite sql : all_finite (answer sql) = true;
  hr_encoding : answer ENCODING_SQL = JArr [JObj [("encoding_probe", JStr "41")]];
  hr_plan : build_plan (answer SCHEMA_SQL) (answer TABLE_LIST_SQL) (JObj (map (λ n, (n, answer (columns_query n))) census))
              (page_size plan) = Ok plan;
  hr_count t : t ∈ tables plan →
    answer (sql_of (count_sql t)) = JArr [JObj [("row_count", JStr (str_of_int (counted t)))]];
  hr_page t o : t ∈ tables plan → o ∈ offsets (counted t) (page_size plan) →
    answer (page_query t o (page_size plan)) = page t (rows_in t) o (page_size plan);
  hr_sentinel t : t ∈ tables plan → answer (page_query t (counted t) 1) = page t (rows_in t) (counted t) 1;
  hr_stored t : t ∈ tables plan → Forall (fits t) (rows_in t)
    ∧ (has_identity t = true → StronglySorted Z.lt (omap fst (rows_in t)))
    ∧ (has_identity t = false → NoDup (map (key_values t) (rows_in t)) ∧ Forall (λ r, CNull ∉ key_values t r) (rows_in t));
  hr_total : foldr (λ t n, counted t + n) 0 (tables plan) <= MAX_ROWS;
}.
Context (honest : honest_reader).

(** *** What the plan gives *)

Lemma plan_facts :
  1 <= page_size plan <= MAX_PAGE_ROWS ∧ NoDup (map name (tables plan)) ∧ map name (tables plan) = census
  ∧ Z.of_nat (length (names_of "table" (schema plan))) <= MAX_TABLES ∧ NoDup (names_of "table" (schema plan))
  ∧ (∃ rows, answer SCHEMA_SQL = JArr rows ∧ Z.of_nat (length rows) <= MAX_SCHEMA ∧ schema_read rows (schema plan))
  ∧ Forall (λ n, name_ok n = true) census
  ∧ ∀ t, t ∈ tables plan → queryable t ∧ stored t (rows_in t).
Proof.
  pose proof (hr_plan honest) as Hp. pose proof (build_plan_inv _ _ _ _ _ Hp) as (Hps & _ & rows & cols & Hr & Hc & Hs & _ & Hm & Hlen & Hf).
  assert (NoDup (names_of "table" (schema plan))) as Hn by (apply names_of_nodup, Hs).
  assert (NoDup census) as Hcn by (unfold census; by rewrite sort_texts_perm).
  assert (Forall (λ n, name_ok n = true) census) as Hok.
  { unfold census. rewrite sort_texts_perm. apply Forall_forall. intros n Hin. unfold names_of in Hin.
    apply list_elem_of_fmap in Hin as (r & -> & Hin). apply list_elem_of_filter in Hin as [_ Hin].
    pose proof (sr_names _ _ Hs) as Hnm. rewrite Forall_forall in Hnm. by destruct (Hnm r Hin). }
  split_and!; [lia|lia|by rewrite Hm|done| |done| |done|].
  - rewrite <- (length_map name), Hm, sort_texts_perm in Hlen. done.
  - exists rows. split; [done|]. split; [|done]. unfold build_plan in Hp. rewrite Hr in Hp. inv_check. cbn [list_of] in *. inv_check. by inv_bool.
  - intros t Hin. rewrite Forall_forall in Hf. destruct (Hf t Hin) as (listed & _ & Hd).
    assert (queryable t) as Hq by (eapply described_queryable; [by eapply planned_name|exact Hd]).
    split; [done|]. destruct (hr_stored honest t Hin) as (H1 & H2 & H3). split; [done..|]. split; [apply Hq|].
    destruct Hd as (_ & _ & _ & Hid). destruct (rowid_alias t); [destruct Hid as (_ & _ & ->); constructor|].
    destruct Hid as (_ & Hk & _). apply NoDup_alt. intros i j k Hi Hj. apply Hk in Hi as (d & Hd1 & Hp1), Hj as (d' & Hd2 & Hp2).
    rewrite Hd1 in Hd2. injection Hd2 as <-. rewrite Hp1 in Hp2. injection Hp2 as Hp2. lia.
Qed.

(** *** Following the planned queries *)

(** A capture that has sent exactly these queries. *)
Record sent (s : Capture) (l : list string) : Prop := {
  se_queries : queries s = l;
  se_count : query_count s = Z.of_nat (length l);
  se_bytes : wire_bytes s = answer_bytes l;
  se_quiet : quiet (c_world s);
}.
(** A statement that sends the next queries [l] of the plan and answers [x], or is
    refused because the content is too large. *)
Definition follows {A} (l : list string) (m : M Capture A) (x : A) : Prop := ∀ s pre,
  sent s pre → (pre ++ l) `prefix_of` planned_queries →
  post m s (λ r s', (r = Ok x ∧ sent s' (pre ++ l)) ∨ ∃ e, r = Err e ∧ too_large small e).

Lemma follows_ret {A} (x : A) : follows [] (ret x) x.
Proof. intros s pre Hs _. left. by rewrite app_nil_r. Qed.
Lemma follows_bind {A B} l k (m : M Capture A) (f : A → M Capture B) x y :
  follows l m x → follows k (f x) y → follows (l ++ k) (bind m f) y.
Proof.
  intros Hm Hf s pre Hs Hp. rewrite (assoc_L (++)) in Hp. apply post_bind.
  eapply post_weaken; [apply (Hm s pre Hs); by eapply prefix_app_l|].
  intros r s' [[-> Hs']|(e & -> & He)]; [|right; eauto]. rewrite (assoc_L (++)). by apply Hf.
Qed.
Lemma follows_lift {A B} l (r : res A) (f : A → M Capture B) x y :
  agrees small r x → follows l (f x) y → follows l (bind (lift r) f) y.
Proof.
  intros Hr Hf. apply (follows_bind [] l _ _ x); [|done]. intros s pre Hs _.
  destruct Hr as [->|(e & -> & He)]; [|right; by exists e]. left. by rewrite app_nil_r.
Qed.
Lemma follows_guard {B} l b label (f : unit → M Capture B) y :
  b = true → follows l (f tt) y → follows l (bind (lift (require b label)) f) y.
Proof. intros ->. apply follows_lift. by left. Qed.
Lemma follows_each {A B} (f : A → M Capture B) (l : A → list string) (g : A → B) xs :
  (∀ x, x ∈ xs → follows (l x) (f x) (g x)) → follows (concat (map l xs)) (each f xs) (map g xs).
Proof.
  induction xs as [|x xs IH]; intros Hf; [apply follows_ret|]. cbn [map concat each].
  eapply follows_bind; [apply Hf; by left|]. rewrite <- (app_nil_r (concat _)).
  eapply follows_bind; [apply IH; intros; apply Hf; by right|]. apply follows_ret.
Qed.

Lemma answer_bytes_nonneg l : 0 <= answer_bytes l.
Proof. apply (sum_nonneg (λ q, json_len (answer q))). intros q. apply json_len_nonneg. Qed.
Lemma answer_bytes_prefix l k : l `prefix_of` k → answer_bytes l <= answer_bytes k.
Proof.
  intros [r ->]. unfold answer_bytes. rewrite (sum_app (λ q, json_len (answer q))).
  pose proof (answer_bytes_nonneg r). unfold answer_bytes in *. lia.
Qed.
Lemma answer_small sql : small → sql ∈ planned_queries → json_len (answer sql) <= MAX_BYTES.
Proof.
  intros [Hs _] (l1 & l2 & E)%list_elem_of_split. rewrite E in Hs. unfold answer_bytes in Hs.
  rewrite (sum_app (λ q, json_len (answer q))) in Hs. cbn [foldr] in Hs.
  pose proof (answer_bytes_nonneg l1). pose proof (answer_bytes_nonneg l2). unfold answer_bytes in *. lia.
Qed.

Lemma prefix_next l sql k : (l ++ sql :: k) `prefix_of` planned_queries → sql ∈ planned_queries.
Proof. intros [r ->]. rewrite !elem_of_app, elem_of_cons. tauto. Qed.

Lemma tables_bound l : 1 <= page_size plan →
  Z.of_nat (length (concat (map table_queries l))) <= 2 * Z.of_nat (length l) + foldr (λ t n, counted t + n) 0 l.
Proof.
  intros Hp. induction l as [|t l IH]; [done|]. cbn [map concat foldr]. rewrite length_app. unfold table_queries at 1.
  cbn [length]. rewrite length_app, length_map. pose proof (offsets_length (counted t) (page_size plan)).
  assert (0 <= counted t) by (unfold SnapshotCapture.counted; lia). simpl. lia.
Qed.

Lemma planned_bound : Z.of_nat (length planned_queries) <= MAX_QUERIES.
Proof.
  destruct plan_facts as (Hps & _ & Hm & Hlen & _). unfold planned_queries. rewrite !length_app, length_map.
  pose proof (tables_bound (tables plan) ltac:(lia)). pose proof (hr_total honest).
  assert (length census = length (names_of "table" (schema plan))) as -> by (unfold census; by rewrite sort_texts_perm).
  assert (length (tables plan) = length (names_of "table" (schema plan))) as Ht
    by (rewrite <- (length_map name), Hm; unfold census; by rewrite sort_texts_perm).
  unfold MAX_QUERIES in *. simpl. lia.
Qed.

Lemma follows_read sql : follows [sql] (read query sql) (answer sql).
Proof.
  intros s pre [Hq Hc Hb Hquiet] Hp. pose proof (prefix_next _ _ _ Hp) as Hin.
  pose proof (prefix_length _ _ Hp) as Hlen. rewrite length_app in Hlen. cbn [length] in Hlen. pose proof planned_bound.
  destruct (hr_query honest sql (c_world s) Hquiet) as (w' & Hw & Hw'). destruct (hr_rows honest sql) as [rows Hrows].
  unfold post, read, send, bind, modify, gets, lift, ret. cbn [fst snd query_count c_world].
  rewrite (proj2 (Z.leb_le _ MAX_QUERIES)) by lia. cbn [require fst snd c_world]. rewrite Hw. cbn [fst snd c_world].
  assert (list_of (answer sql) "invalid_query_response" = Ok rows) as -> by (by rewrite Hrows). pose proof (agrees_json (answer sql) (hr_finite honest sql) ltac:(by intros; apply answer_small)) as [->|(e & -> & He)].
  2:{ right. by exists e. }
  cbn [fst snd wire_bytes c_world query_count queries]. rewrite Hb.
  assert (answer_bytes pre + slen (dumps (answer sql)) = answer_bytes (pre ++ [sql])) as ->.
  { unfold answer_bytes. rewrite (sum_app (λ q, json_len (answer q))). simpl. unfold json_len. lia. }
  destruct (Z.leb_spec (answer_bytes (pre ++ [sql])) MAX_BYTES) as [Hle|Hgt]; cbn [require fst snd].
  - left. split; [done|]. split; cbn; [by rewrite Hq|rewrite Hc, length_app; simpl; lia|done|done].
  - right. eexists. split; [done|]. split; [done|]. intros [Hs _]. pose proof (answer_bytes_prefix _ _ Hp). lia.
Qed.

Lemma follows_query {B} sql l (r : res string) (f : json → M Capture B) y :
  r = Ok sql → follows l (f (answer sql)) y → follows (sql :: l) (bind (lift r) (λ q, bind (read query q) f)) y.
Proof.
  intros -> Hf. apply (follows_lift _ _ _ sql); [by left|]. change (sql :: l) with ([sql] ++ l).
  eapply follows_bind; [apply follows_read|exact Hf].
Qed.

Lemma follows_page t o n :
  queryable t → 0 <= o <= MAX_ROWS → 1 <= n <= MAX_PAGE_ROWS →
  follows [page_query t o n] (read_page query t o n) (answer (page_query t o n)).
Proof.
  intros Hq Ho Hn. unfold read_page. apply (follows_lift _ _ _ (page_query t o n)); [|apply follows_read].
  left. by apply page_sql_ok.
Qed.

Lemma count_within t : t ∈ tables plan → 0 <= counted t <= MAX_ROWS.
Proof.
  intros Hin. split; [unfold SnapshotCapture.counted; lia|]. pose proof (hr_total honest) as Ht.
  apply list_elem_of_split in Hin as (l & k & E). rewrite E, (sum_app (λ t, counted t)) in Ht. cbn [foldr] in Ht.
  pose proof (sum_nonneg_counts content l). pose proof (sum_nonneg_counts content k). unfold counted in *. lia.
Qed.

Lemma offset_within o count : 1 <= page_size plan → o ∈ offsets count (page_size plan) → 0 <= count → 0 <= o < count.
Proof.
  intros Hp Ho Hc. unfold offsets in Ho. apply list_elem_of_fmap in Ho as (i & -> & Hi%elem_of_seqZ).
  pose proof (Z.div_mod (count + page_size plan - 1) (page_size plan) ltac:(lia)).
  pose proof (Z.mod_pos_bound (count + page_size plan - 1) (page_size plan) ltac:(lia)). nia.
Qed.

Lemma decode_counted t : t ∈ tables plan →
  decode_count (JArr [JObj [("row_count", JStr (str_of_int (counted t)))]]) = Ok (counted t).
Proof.
  intros Hin. pose proof (count_within t Hin) as Hc. cbn [decode_count].
  change (_keys _ _ _) with (@Ok (list (string * json)) [("row_count", JStr (str_of_int (counted t)))]). cbn [rbind].
  change (field "row_count" _) with (JStr (str_of_int (counted t))). rewrite decimal_back by (unfold MAX_ROWS in Hc; lia). cbn [rbind].
  rewrite (proj2 (Z.leb_le 0 _)), (proj2 (Z.leb_le _ MAX_ROWS)) by lia. done.
Qed.

Lemma concat_one {A B} (f : A → B) l : concat (map (λ x, [f x]) l) = map f l.
Proof. induction l as [|x l IH]; [done|]. cbn. by rewrite IH. Qed.

Definition found_of (t : TablePlan) : string * (Z * json) := (name t, (counted t, JArr (table_pages t (rows_in t) (page_size plan)))).

Lemma follows_pages t : t ∈ tables plan →
  follows (map (λ o, page_query t o (page_size plan)) (offsets (counted t) (page_size plan)))
    (each (λ o, read_page query t o (page_size plan)) (offsets (counted t) (page_size plan)))
    (map (λ o, page t (rows_in t) o (page_size plan)) (offsets (counted t) (page_size plan))).
Proof.
  intros Hin. destruct plan_facts as (Hps & _ & _ & _ & _ & _ & _ & Ht). destruct (Ht t Hin) as [Hq _].
  pose proof (count_within t Hin). rewrite <- concat_one. apply follows_each. intros o Ho.
  rewrite <- (hr_page honest t o Hin Ho). pose proof (offset_within o (counted t) ltac:(lia) Ho ltac:(lia)).
  apply follows_page; [done|lia|done].
Qed.

Lemma follows_tables k : ∀ l, tables plan = l ++ k →
  follows (concat (map table_queries k)) (read_tables query (page_size plan) (foldr (λ t n, counted t + n) 0 l) k) (map found_of k).
Proof.
  induction k as [|t k IH]; intros l E; [apply follows_ret|]. cbn [map concat read_tables].
  assert (t ∈ tables plan) as Hin by (rewrite E; set_solver). pose proof (count_within t Hin).
  destruct plan_facts as (Hps & _ & _ & _ & _ & _ & _ & Ht). destruct (Ht t Hin) as [Hq _].
  unfold table_queries at 1. cbn [app]. rewrite <- (assoc_L (++)). apply follows_query; [by apply count_sql_ok|].
  rewrite (hr_count honest t Hin). apply (follows_lift _ _ _ (counted t)); [left; by apply decode_counted|].
  apply follows_guard.
  { apply Z.leb_le. pose proof (hr_total honest) as Hsum. rewrite E, (sum_app (λ t, counted t)) in Hsum. cbn [foldr] in Hsum.
    pose proof (sum_nonneg_counts content k). unfold counted in *. lia. }
  eapply follows_bind; [by apply follows_pages|]. change ([?q] ++ ?r) with (q :: r).
  rewrite <- (app_nil_r (concat _)). change (?q :: ?r ++ []) with ([q] ++ (r ++ [])).
  eapply follows_bind; [apply follows_page; [done|lia|done]|]. rewrite (hr_sentinel honest t Hin).
  eapply follows_bind; [|apply follows_ret].
  replace (foldr (λ t n, counted t + n) 0 l + counted t) with (foldr (λ t n, counted t + n) 0 (l ++ [t])).
  - apply IH. by rewrite <- (assoc_L (++)).
  - rewrite (sum_app (λ t, counted t)). simpl. lia.
Qed.

Lemma columns_sql_ok n : name_ok n = true → columns_sql n = Ok (columns_query n).
Proof. intros H. unfold columns_query, columns_sql. by rewrite H. Qed.

Lemma follows_columns :
  follows (map columns_query census) (each (columns_of query) census) (map (λ n, (n, answer (columns_query n))) census).
Proof.
  destruct plan_facts as (_ & _ & _ & _ & _ & _ & Hok & _). rewrite Forall_forall in Hok.
  rewrite <- concat_one. apply follows_each. intros n Hn. unfold columns_of. apply follows_query; [by apply columns_sql_ok, Hok|].
  apply follows_ret.
Qed.

Lemma page_in_plan t o : t ∈ tables plan → o ∈ offsets (counted t) (page_size plan) →
  page_query t o (page_size plan) ∈ planned_queries.
Proof.
  intros Ht Ho. unfold planned_queries. do 2 (apply elem_of_app; right). rewrite <- flat_map_concat_map.
  apply list_elem_of_In, in_flat_map. exists t. split; [by apply list_elem_of_In|]. apply list_elem_of_In.
  unfold table_queries. right. apply elem_of_app. left. apply list_elem_of_fmap. eauto.
Qed.

Lemma assembled :
  agrees small (assemble_snapshot plan (JObj (map (λ f, (f.1, f.2.2)) (map found_of (tables plan))))
    (JObj (map (λ f, (f.1, JInt f.2.1)) (map found_of (tables plan))))) snapshot.
Proof.
  rewrite !map_map. destruct plan_facts as (Hps & Hn & _ & _ & _ & _ & _ & Ht).
  apply assemble_back; [done|done|intros t Hin; by apply Ht|apply (hr_total honest)|by intros []|].
  intros Hs t o Hin Ho. rewrite <- (hr_page honest t o Hin Ho). apply answer_small; [done|by apply page_in_plan].
Qed.

Lemma follows_collect : follows planned_queries (collect query (page_size plan)) snapshot.
Proof.
  destruct plan_facts as (_ & _ & _ & Hlen & Hnd & (rows & Hrows & Hmax & Hread) & _ & _).
  unfold collect, planned_queries.
  change ([SCHEMA_SQL; TABLE_LIST_SQL; ENCODING_SQL] ++ ?r) with ([SCHEMA_SQL] ++ [TABLE_LIST_SQL] ++ [ENCODING_SQL] ++ r).
  eapply follows_bind; [apply follows_read|]. eapply follows_bind; [apply follows_read|].
  eapply follows_bind; [apply follows_read|]. apply follows_guard; [by rewrite (hr_encoding honest)|].
  apply (follows_lift _ _ _ rows); [left; by rewrite Hrows|]. apply follows_guard; [by apply Z.leb_le|].
  apply (follows_lift _ _ _ (names_of "table" (schema plan))); [left; by apply census_names|].
  apply follows_guard; [by rewrite (proj2 (Z.leb_le _ _) Hlen), bool_decide_true|].
  eapply follows_bind; [apply follows_columns|].
  apply (follows_lift _ _ _ plan); [left; apply (hr_plan honest)|].
  rewrite <- (app_nil_r (concat _)). eapply follows_bind; [by apply (follows_tables (tables plan) [])|].
  eapply follows_lift; [apply assembled|].
  eapply follows_lift; [apply agrees_json; [apply snapshot_finite|by intros []]|]. apply follows_ret.
Qed.

Lemma reference_checked : check (reference plan content) snapshot = Ok tt.
Proof.
  destruct plan_facts as (_ & Hn & _ & _ & _ & _ & _ & Ht). apply snapshot_checked; [done|intros t Hin; by apply Ht].
Qed.

(** C15: Over a quiet database within the scope of the codec ([honest_reader]: a schema
    and census the planner accepts, stored cells without any REAL, at most [MAX_ROWS]
    rows in all), whose reader answers as SQLite does, a collection sends exactly the
    planned queries, in order, leaves the database quiet, and answers the whole content
    in the form the independent oracle of full_state_oracle.py accepts - or it refuses,
    and then the answers or the content are larger than the byte bounds. *)
Theorem capture_verified w : quiet w →
  let r := collect_snapshot query (page_size plan) w in
  (r.1 = Ok snapshot ∧ queries r.2 = planned_queries ∧ wire_bytes r.2 = answer_bytes planned_queries ∧ quiet (c_world r.2)
   ∧ check (reference plan content) snapshot = Ok tt)
  ∨ (r.1 = Err (Refusal "evidence_bound_exceeded") ∧ ¬ small).
Proof.
  intros Hw. destruct (follows_collect (mkCapture w 0 0 []) []) as [(Hr & [Hq _ Hb Hs])|(e & Hr & [-> He])]; [done|done|left|by right].
  split_and!; [exact Hr|exact Hq|exact Hb|exact Hs|apply reference_checked].
Qed.
End Collection.

(** ** A small database: a keyed table and one with hidden rowids *)
Module Bench.
Definition text (s : string) : json := JStr s.
Definition schema_row (n sql : string) : json :=
  JObj [("type", JStr "table"); ("name", JStr n); ("tbl_name", JStr n); ("sql", JStr sql)].
Definition storage_row (n : string) (ncol wr : Z) : json :=
  JObj [("schema", JStr "main"); ("name", JStr n); ("type", JStr "table"); ("ncol", JInt ncol); ("wr", JInt wr); ("strict", JInt 0)].
Definition column_row (cid : Z) (n : string) (pk : Z) : json :=
  JObj [("cid", JInt cid); ("name", JStr n); ("type", JStr "TEXT"); ("notnull", JInt 0); ("dflt_value", JNull); ("pk", JInt pk); ("hidden", JInt 0)].
Definition count_row (n : string) : json := JObj [("row_count", JStr n)].

Definition keyed : TablePlan := mkTablePlan "k" ["a"; "b"] None [0%nat].
Definition hidden : TablePlan := mkTablePlan "t" ["v"] (Some "rowid") [].
Definition keyed_rows : list Row := [(None, [CText "x"; CNull])].
Definition hidden_rows : list Row := [(Some 2, [CInteger (-5)]); (Some 7, [CBlob "q"])].
Definition content (n : string) : list Row := if String.eqb n "k" then keyed_rows else hidden_rows.
Definition plan : SnapshotPlan :=
  mkSnapshotPlan [mkSchemaRow "table" "k" "k" (Some "CREATE k"); mkSchemaRow "table" "t" "t" (Some "CREATE t")] [keyed; hidden] 1.

Definition pages_of (t : TablePlan) : list (string * list json) :=
  (sql_of (count_sql t), [count_row (str_of_int (counted content t))])
  :: map (λ o, (page_query t o 1, map (wire_row t) (take 1 (drop (Z.to_nat o) (content (name t)))))) (seqZ 0 2).
Definition answers : list (string * list json) :=
  [(SCHEMA_SQL, [schema_row "k" "CREATE k"; schema_row "t" "CREATE t"]);
   (TABLE_LIST_SQL, [storage_row "k" 2 1; storage_row "sqlite_schema" 5 0; storage_row "t" 1 0]);
   (ENCODING_SQL, [JObj [("encoding_probe", JStr "41")]]);
   (columns_query "k", [column_row 0 "a" 1; column_row 1 "b" 0]);
   (columns_query "t", [column_row 0 "v" 0])] ++ pages_of keyed ++ pages_of hidden.
Definition answer (sql : string) : json := JArr (match dict_get sql answers with Some l => l | None => [] end).
Definition query (sql : string) : M unit json := λ w, (Ok (answer sql), w).

Lemma tables_case t : t ∈ tables plan → t = keyed ∨ t = hidden.
Proof. cbn. rewrite !elem_of_cons, elem_of_nil. naive_solver. Qed.

Lemma answers_finite l : forallb (λ kv, all_finite (JArr kv.2)) l = true →
  ∀ sql, all_finite (JArr (match dict_get sql l with Some r => r | None => [] end)) = true.
Proof.
  intros Hl sql. destruct (dict_get sql l) as [r|] eqn:E; [|done]. apply dict_get_in in E.
  rewrite forallb_forall in Hl. apply (Hl (sql, r)). by apply list_elem_of_In.
Qed.

Lemma honest : honest_reader query (λ _, True) answer plan content.
Proof.
  split.
  - intros sql w _. by exists w.
  - intros sql. eexists. reflexivity.
  - intros sql. apply answers_finite. vm_compute. reflexivity.
  - vm_compute. reflexivity.
  - vm_compute. reflexivity.
  - intros t [-> | ->]%tables_case; vm_compute; reflexivity.
  - intros t o [-> | ->]%tables_case Ho.
    + change (o ∈ [0]) in Ho. apply list_elem_of_singleton in Ho as ->. vm_compute. reflexivity.
    + change (o ∈ [0; 1]) in Ho. rewrite !elem_of_cons, elem_of_nil in Ho. destruct Ho as [->|[->|[]]]; vm_compute; reflexivity.
  - intros t [-> | ->]%tables_case; vm_compute; reflexivity.
  - intros t [-> | ->]%tables_case.
    + split_and!; [|done|]; [repeat constructor|intros _; split]; try (vm_compute; congruence).
      * apply NoDup_singleton.
      * constructor; [|constructor]. change (CNull ∉ [CText "x"]). by intros H%list_elem_of_singleton.
    + split_and!; [|intros _|done]; repeat constructor; vm_compute; congruence.
  - vm_compute. congruence.
Qed.
End Bench.

Lemma capture_verified_witness :
  let r := collect_snapshot Bench.query 1 tt in
  r.1 = Ok (snapshot Bench.plan Bench.content) ∧ queries r.2 = planned_queries Bench.plan Bench.content
  ∧ wire_bytes r.2 = answer_bytes Bench.answer (planned_queries Bench.plan Bench.content) ∧ True
  ∧ check (reference Bench.plan Bench.content) (snapshot Bench.plan Bench.content) = Ok tt.
Proof.
  destruct (capture_verified Bench.query (λ _, True) Bench.answer Bench.plan Bench.content Bench.honest tt I) as [H|[_ H]]; [exact H|].
  exfalso. apply H. split; vm_compute; congruence.
Defined.

(** C17: A plan that is built is sound: its tables are exactly the table objects of the
    schema, in code-point order and at most 128; each has every column of the census
    in order, with either a rowid alias no column shadows or the complete primary
    key; and every count and page query it will need can be generated. *)
Theorem plan_sound sr st cb ps p :
  build_plan sr st cb ps = Ok p →
  page_size p = ps ∧ 1 <= ps <= MAX_PAGE_ROWS
  ∧ map name (tables p) = sort_texts (names_of "table" (schema p)) ∧ NoDup (map name (tables p))
  ∧ Z.of_nat (length (tables p)) <= MAX_TABLES
  ∧ ∃ cols, cb = JObj cols ∧ ∀ t, t ∈ tables p →
      (∃ listed, dict_get (name t) cols = Some (JArr listed) ∧ described listed t)
      ∧ (∃ sql, count_sql t = Ok sql)
      ∧ ∀ o n, 0 <= o <= MAX_ROWS → 1 <= n <= MAX_PAGE_ROWS → ∃ sql, table_page_sql t o n = Ok sql.
Proof.
  intros (Hps & Hsz & rows & cols & _ & Hc & Hs & _ & Hm & Hlen & Hf)%build_plan_inv.
  split_and!; [done|lia|lia|done| |done|].
  { rewrite Hm, sort_texts_perm. apply names_of_nodup, Hs. }
  exists cols. split; [done|]. intros t Hin. rewrite Forall_forall in Hf. destruct (Hf t Hin) as (listed & Hg & Hd).
  assert (queryable t) as Hq by (eapply described_queryable; [by eapply planned_name|exact Hd]).
  split; [eauto|]. split; [eexists; by apply count_sql_ok|]. intros o n Ho Hn. eexists. by apply page_sql_ok.
Qed.

Lemma plan_sound_witness :
  build_plan (Bench.answer SCHEMA_SQL) (Bench.answer TABLE_LIST_SQL)
    (JObj (map (λ n, (n, Bench.answer (columns_query n))) ["k"; "t"])) 1 = Ok Bench.plan
  ∧ page_size Bench.plan = 1.
Proof. split; [vm_compute; reflexivity|]. by eapply plan_sound, (hr_plan _ _ _ _ _ Bench.honest). Defined.
