(* ===== verification/Preservation.v ===== *)
(** The preservation comparator of scripts/fixed_origin_preservation.py in its default
    strict format ([profile_manifest=None]): the capture of one SQLite connection, the
    checks of a snapshot, of an evidence envelope and of the cleanup receipts, and the
    receipt it answers. The pins it imports are those of scripts/fixed_origin_restore.py. *)
From S2P Require Import Prelude Json JsonParse Binary64 Oracle Evidence.

(** ** Pins and bounds *)

Definition INDEX_SHA256 : string := "ea43ba41d7bb5c6ae7fae569f77a8d126cfcfb7a0a550e5f92856c771b9f8202".
Definition MODULE_SHA256 : string := "f1cef97fe6e1e62b5ff2b57f7e11516423974e756011750feb1aebe3abb13e6d".
Definition FILES : list string := split_on " "
  "account_rulesets_page_0.json active_version_0.json active_version_0_modules.json custom_domains.json deployments_after.json deployments_before.json page_rules.json restoration-inputs.json routes.json script_settings.json unversioned_artifact.bin worker_settings.json zone_lookup.json zone_rulesets_page_0.json zone_settings.json".
Definition MAX_AGE_MS : Z := 60000.
Definition LIFETIME_MS : Z := 1200000.
Definition READ_CHECKS : list string := ["installation-auth-refusal"; "discovery-disabled"; "thumbnail-disabled"].
Definition RESOURCE_KINDS : list string := ["d1"; "receiver"; "actions-capability"; "actions-canary"].
Definition LOCAL_KINDS : list string := ["native-target"; "native-cache"; "local-secret"].
Definition MISSING_SOURCE_SEAMS : list string :=
  ["fresh_complete_capture_and_retained_target_readback";
   "current_exact_gate_scope_and_revision_authority";
   "bounded_consistent_production_schema_and_full_data_reader";
   "approved_background_quiescence_and_authenticated_read_checks";
   "resource_secret_reference_and_do_lifecycle_continuity_reader";
   "independent_admission_off_restore_and_exact_absence_receipts";
   "matching_run_native_and_local_cleanup_receipts"].

(** ** Values *)

Definition _keys (value : json) (keys : string) (category : string) : res (list (string * json)) :=
  closed value (split_on " " keys) category.
Definition _integer (value : json) (minimum : Z) : bool := int_where (λ z, (minimum <=? z) && (z <=? 2 ^ 63 - 1)) value.
Definition _hash (value : json) : bool := match value with JStr s => is_digest s | _ => false end.
Definition slug_char (c : ascii) : bool := is_digit c || ((97 <=? code c) && (code c <=? 122)) || (code c =? 45).
Definition identity_ok (s : string) : bool :=
  let rest := after_prefix "synthetic-" s in
  String.prefix "synthetic-" s && str_forall slug_char rest && (1 <=? slen rest) && (slen rest <=? 80).
Definition _identity (value : json) : bool := match value with JStr s => identity_ok s | _ => false end.
(** [re.fullmatch(r"[a-f0-9]{32}", run)] *)
Definition run_ok (value : json) : bool := match value with JStr s => (slen s =? 32) && str_forall is_hex s | _ => false end.
Definition is_true (value : json) : bool := match value with JBool true => true | _ => false end.
Definition is_false (value : json) : bool := match value with JBool false => true | _ => false end.
Definition int64 (value : json) : bool := int_where (λ z, (- 2 ^ 63 <=? z) && (z <? 2 ^ 63)) value.

Definition _cell (value : pyval) : res json :=
  match value with
  | PNone => Ok (JArr [JStr "null"; JNull])
  | PInt z => Ok (JArr [JStr "integer"; JInt z])
  | PFloat b => require (isfinite b) "unsupported_nonfinite_sqlite_value" ;? Ok (JArr [JStr "real"; JStr (float_hex b)])
  | PStr s => Ok (JArr [JStr "text"; JStr s])
  | PBytes s => Ok (JArr [JStr "blob"; JStr (hexs s)])
  | PBool _ | POther => Err (Refusal "unsupported_sqlite_value")
  end.

(** [float.fromhex(value)] whose [hex()] is the same text again. *)
Definition _canonical_real (value : json) : bool :=
  match value with
  | JStr s => match fromhex s with Some b => isfinite b && bool_decide (float_hex b = s) | None => false end
  | _ => false
  end.

(** ** Capturing a connection *)

(** What [connection.execute] answers: the column names, the rows and whether
    fetching ends in a [sqlite3.Error]. *)
Record Cursor := mkCursor { description : list string; fetched : list (list pyval); broken : bool }.
Definition sqlite_error : exn := External "sqlite3.Error".

(** A [for row in cursor] loop. *)
Definition scan {A} (f : A → list pyval → res A) (a : A) (cursor : Cursor) : res A :=
  let? a' := foldR f a (fetched cursor) in if broken cursor then Err sqlite_error else Ok a'.

(** [try: m finally: f] *)
Definition finally {S A} (m : M S A) (f : M S unit) : M S A := λ s,
  let r := m s in match f r.2 with (Ok _, s') => (r.1, s') | (Err e, s') => (Err e, s') end.

(** [storage]: the without-rowid flag of every listed table *)
Definition read_storage (storage : list (string * pyval)) (table : list pyval) : res (list (string * pyval)) :=
  let? kind := cell_at 2 table in
  require (negb (bool_decide (kind ∈ [PStr "virtual"; PStr "shadow"]))) "virtual_table_not_supported" ;?
  require (Z.of_nat (length storage) <=? MAX_TABLES) "table_bound_exceeded" ;?
  let? v := cell_at 1 table in let? name := Oracle.text_of v in
  let? wr := cell_at 4 table in
  Ok (dict_set name wr storage).

(** [sql.upper().startswith("CREATE VIRTUAL TABLE")]: only an ASCII letter has an
    ASCII letter of the prefix as its upper case. *)
Definition upper_char (c : ascii) : ascii := if (97 <=? code c) && (code c <=? 122) then chr (code c - 32) else c.
Fixpoint upper (s : string) : string := match s with String c s' => String (upper_char c) (upper s') | EmptyString => EmptyString end.
Definition virtual_sql (sql : option string) : bool :=
  match sql with Some s => startswith "CREATE VIRTUAL TABLE" (upper s) | None => false end.

Definition cell_or_none (row : list (option string)) (i : nat) : res (option string) :=
  match nth_error row i with Some c => Ok c | None => Err (External "IndexError") end.

(** The loop over the schema: its rows and the encoded bytes; a cell of the
    schema table is a text or null. *)
Definition read_schema (acc : list (list (option string)) * Z) (fetched : list pyval) : res (list (list (option string)) * Z) :=
  let? row := mapR text_cell fetched in
  require (Z.of_nat (length acc.1) <? MAX_SCHEMA) "schema_bound_exceeded" ;?
  let? text := _json (JArr (map (JOpt JStr) row)) in
  let bytes := acc.2 + slen text in
  require (bytes <=? MAX_BYTES) "evidence_bound_exceeded" ;?
  let? kind := cell_or_none row 0 in
  let? sql := (if bool_decide (kind = Some "table") then cell_or_none row 3 else Ok None) in
  require (negb (virtual_sql sql)) "virtual_table_not_supported" ;?
  Ok (acc.1 ++ [row], bytes).

(** [storage[name] in (0, 1)] *)
Definition wr_flag (v : pyval) : option bool :=
  match v with
  | PInt 0 | PBool false => Some false
  | PInt 1 | PBool true => Some true
  | _ => None
  end.

(** The loop over the rows of a table: the encoded rows with their identities,
    the rows counted so far and the encoded bytes. *)
Record Scan := mkScan { s_rows : list (list json * option Z); s_total : Z; s_bytes : Z }.
Definition read_record (has_rowid : bool) (acc : Scan) (row : list pyval) : res Scan :=
  let total := s_total acc + 1 in
  require (total <=? MAX_ROWS) "row_bound_exceeded" ;?
  let? identity := (if has_rowid then
                      let? v := cell_at 0 row in
                      match v with PInt z => Ok (Some z) | _ => Err (Refusal "invalid_hidden_rowid") end
                    else Ok None) in
  let? encoded_row := mapR _cell (if has_rowid then tail row else row) in
  let? text := _json (JArr encoded_row) in
  let? more := match identity with Some z => let? t := _json (JInt z) in Ok (slen t) | None => Ok 0 end in
  let bytes := s_bytes acc + slen text + more in
  require (bytes <=? MAX_BYTES) "evidence_bound_exceeded" ;?
  Ok (mkScan (s_rows acc ++ [(encoded_row, identity)]) total bytes).

(** The rows of a table in canonical order, with their identities. *)
Definition canonical_order (has_rowid : bool) (rows : list (list json * option Z)) : res (list (list json) * json) :=
  if has_rowid then
    let? paired := sorted_by_json (λ r, JArr [JArr r.1; JOpt JInt r.2]) rows in
    Ok (map fst paired, JArr (map (λ r, JOpt JInt r.2) paired))
  else
    let? encoded := sorted_by_json (λ r, JArr r) (map fst rows) in
    Ok (encoded, JNull).

Definition hidden_aliases (columns : list string) : list string :=
  filter (λ a, a ∉ map lower columns) ["rowid"; "_rowid_"; "oid"].

Record Progress := mkProgress { p_tables : list (string * json); p_total : Z; p_bytes : Z }.

Section Capture.
Context {W F : Type}.
(** The operations of a [sqlite3.Connection] the capture uses; [F] are the values
    of its factories. [setlimit] answers the previous limit. *)
Record Connection := mkConnection {
  in_transaction : M W bool;
  row_factory : M W F;
  text_factory : M W F;
  setlimit : Z → M W Z;
  set_row_factory : F → M W unit;
  set_text_factory : F → M W unit;
  set_progress_handler : bool → M W unit;
  execute : string → M W Cursor;
  rollback : M W unit;
}.
Context (connection : Connection) (none_factory str_factory : F).

(** [try: m except sqlite3.Error: raise Refused("synthetic_snapshot_unavailable")] *)
Definition available {A} (m : M W A) : M W A :=
  try m (λ e, if bool_decide (e = sqlite_error) then raise (Refusal "synthetic_snapshot_unavailable") else raise e).

Definition read_table (storage : list (string * pyval)) (p : Progress) (name : string) : M W Progress :=
  let quoted := quote name in
  let* cursor := execute connection ("SELECT * FROM " +:+ quoted +:+ " LIMIT 0") in
  let columns := description cursor in
  lift (require ((0 <? Z.of_nat (length columns)) && (Z.of_nat (length columns) <=? 256)) "column_bound_exceeded") ;*
  let* without := lift (some_or (match dict_get name storage with Some v => wr_flag v | None => None end) "storage_identity_unknown") in
  let has_rowid := negb without in
  let* cursor := (if has_rowid then
                    match hidden_aliases columns with
                    | alias :: _ => execute connection ("SELECT " +:+ dquote +:+ alias +:+ dquote +:+ ",* FROM " +:+ quoted)
                    | [] => raise (Refusal "hidden_rowid_inaccessible")
                    end
                  else execute connection ("SELECT * FROM " +:+ quoted)) in
  let* found := lift (scan (read_record has_rowid) (mkScan [] (p_total p) (p_bytes p)) cursor) in
  let* ri := lift (canonical_order has_rowid (s_rows found)) in
  let tables := dict_set name
    (JObj [("columns", JArr (map JStr columns)); ("rows", JArr (map JArr ri.1)); ("rowids", ri.2)]) (p_tables p) in
  lift (_json (JObj tables)) ;*
  ret (mkProgress tables (s_total found) (s_bytes found)).

Fixpoint read_tables (storage : list (string * pyval)) (p : Progress) (names : list string) : M W Progress :=
  match names with
  | [] => ret p
  | name :: names' => let* p' := read_table storage p name in read_tables storage p' names'
  end.

Definition read_snapshot (run database observed_at_ms : json) : M W json :=
  set_progress_handler connection true ;*
  execute connection "BEGIN" ;*
  let* listed := execute connection "PRAGMA main.table_list" in
  let* storage := lift (scan read_storage [] listed) in
  let* cursor := execute connection "SELECT type,name,tbl_name,sql FROM sqlite_schema ORDER BY type,name,tbl_name" in
  let* schema := lift (scan read_schema ([], 0) cursor) in
  let* names := lift (mapR name_of (filter (λ r, head r = Some (Some "table")) schema.1)) in
  lift (require (Z.of_nat (length names) <=? MAX_TABLES) "table_bound_exceeded") ;*
  let* p := read_tables storage (mkProgress [] 0 schema.2) (sort_texts names) in
  let result := JObj [("mode", JStr "synthetic-offline"); ("run", run); ("database", database); ("observedAtMs", observed_at_ms);
                      ("consistency", JStr "single-sqlite-read-transaction"); ("schema", schema_json schema.1);
                      ("tables", JObj (p_tables p))] in
  lift (_json result) ;*
  ret result.

(** One step of the cleanup: whether it failed. *)
Definition attempt (m : M W unit) : M W bool :=
  try (m ;* ret false) (λ e, if bool_decide (e = sqlite_error) then ret true else raise e).
Definition restore_client (old_factory old_text_factory : F) (old_length_limit : Z) : M W unit :=
  let* f1 := attempt (let* active := in_transaction connection in when active (rollback connection)) in
  let* f2 := attempt (set_progress_handler connection false) in
  let* f3 := attempt (setlimit connection old_length_limit ;* ret tt) in
  let* f4 := attempt (set_row_factory connection old_factory) in
  let* f5 := attempt (set_text_factory connection old_text_factory) in
  lift (require (negb (f1 || f2 || f3 || f4 || f5)) "synthetic_snapshot_cleanup_failed_discard_connection").

Definition capture_sqlite (run database observed_at_ms : json) : M W json :=
  lift (require (_identity database) "synthetic_database_required") ;*
  lift (require (run_ok run) "invalid_run") ;*
  lift (require (_integer observed_at_ms 0) "invalid_observation_time") ;*
  let* old := available (
    let* active := in_transaction connection in
    lift (require (negb active) "caller_transaction_active") ;*
    let* old_factory := row_factory connection in
    let* old_text_factory := text_factory connection in
    let* old_length_limit := setlimit connection MAX_BYTES in
    ret (old_factory, old_text_factory, old_length_limit)) in
  set_row_factory connection none_factory ;*
  set_text_factory connection str_factory ;*
  finally (available (read_snapshot run database observed_at_ms)) (restore_client old.1.1 old.1.2 old.2).
End Capture.
Arguments Connection : clear implicits.

(** ** Checking the evidence *)

Section Check.
Context (integral : string → option Z) (sha256 : string → string).
Notation eqb := (py_eqb integral).

(** [(row[0], row[1])] with the four columns of a schema row. *)
Definition check_schema_row (objects : list (string * string)) (row : json) : res (list (string * string)) :=
  match row with
  | JArr [kind; name; owner; sql] =>
      require (str_among ["table"; "index"; "view"; "trigger"] kind
               && negb (eqb name (JStr EmptyString)) && _text name && _text owner && negb (eqb owner (JStr EmptyString))
               && null_or_text sql) "invalid_schema" ;?
      let object := (text_of kind, text_of name) in
      require (negb (bool_decide (object ∈ objects))) "duplicate_schema_object" ;?
      Ok (objects ++ [object])
  | _ => Err (Refusal "invalid_schema")
  end.

Definition valid_cell (cell : json) : bool :=
  match cell with
  | JArr [tag; value] =>
      (str_among ["null"] tag && eqb value JNull)
      || (str_among ["integer"] tag && int64 value)
      || (str_among ["text"] tag && _text value)
      || (str_among ["blob"] tag && match value with JStr s => bool_decide (is_Some (unhex s)) | _ => false end)
      || (str_among ["real"] tag && _canonical_real value)
  | _ => false
  end.
Definition check_row (width : nat) (row : json) : res unit :=
  match row with
  | JArr cells =>
      require (bool_decide (length cells = width)) "invalid_row" ;?
      forR (λ cell, require (valid_cell cell) "invalid_cell") cells
  | _ => Err (Refusal "invalid_row")
  end.

Definition hidden_rowids_ok (rowids : json) (rows : list json) : bool :=
  match rowids with
  | JNull => true
  | JArr l => bool_decide (length l = length rows) && forallb int64 l && bool_decide (NoDup (map int_of l))
  | _ => false
  end.

(** [list(zip(rows, rowids, strict=True))] *)
Definition paired (rows ids : list json) : list json := map (λ p, JArr [p.1; p.2]) (combine rows ids).

(** The body of [for table in tables.values()]: the rows counted so far. *)
Definition check_table (total : Z) (table : json) : res Z :=
  let? d := _keys table "columns rows rowids" "invalid_table" in
  let? columns := list_of (field "columns" d) "invalid_table" in
  require ((0 <? Z.of_nat (length columns)) && (Z.of_nat (length columns) <=? 256)
           && forallb (λ c, _text c && negb (eqb c (JStr EmptyString))) columns
           && bool_decide (NoDup (map text_of columns))) "invalid_table" ;?
  let? rows := list_of (field "rows" d) "invalid_table" in
  let total := total + Z.of_nat (length rows) in
  require (total <=? MAX_ROWS) "row_bound_exceeded" ;?
  let rowids := field "rowids" d in
  require (hidden_rowids_ok rowids rows) "invalid_hidden_rowids" ;?
  forR (check_row (length columns)) rows ;?
  (match rowids with
   | JArr ids =>
       let pairs := paired rows ids in
       let? sorted := sorted_by_json id pairs in
       require (eqb (JArr pairs) (JArr sorted)) "noncanonical_rows"
   | _ =>
       let? sorted := sorted_by_json id rows in
       require (eqb (JArr rows) (JArr sorted)) "noncanonical_rows"
   end) ;?
  Ok total.

(** [dict(zip(columns, [cell[1] for cell in row], strict=True))] *)
Definition gate_columns : list string := ["scope"; "scope_id"; "enabled"; "revision"].
Definition gate_row (row : json) : json :=
  match row with
  | JArr cells => JObj (combine gate_columns (map (λ cell, match cell with JArr [_; v] => v | _ => JNull end) cells))
  | _ => JNull
  end.

Definition snapshot_keys : string := "mode run database observedAtMs consistency schema tables".

Definition _database (snapshot run identity timestamp : json) : res (list json) :=
  let? d := _keys snapshot snapshot_keys "invalid_snapshot" in
  require (eqb (field "mode" d) (JStr "synthetic-offline") && eqb (field "run" d) run && eqb (field "database" d) identity
           && eqb (field "observedAtMs" d) timestamp
           && eqb (field "consistency" d) (JStr "single-sqlite-read-transaction")) "snapshot_scope_mismatch" ;?
  let? schema := list_of (field "schema" d) "invalid_schema" in
  require (Z.of_nat (length schema) <=? MAX_SCHEMA) "invalid_schema" ;?
  let? tables := dict_fields (field "tables" d) "invalid_census" in
  require (Z.of_nat (length tables) <=? MAX_TABLES) "invalid_census" ;?
  let? objects := foldR check_schema_row [] schema in
  let names := map snd (filter (λ o, o.1 = "table") objects) in
  require (bool_decide (NoDup names) && same_set names (map fst tables)) "schema_census_mismatch" ;?
  foldR (λ total table, check_table total table.2) 0 tables ;?
  let? gate_table := some_or (dict_get "flickr_write_gates" tables) "missing_durable_gates" in
  let? g := dict_fields gate_table "invalid_table" in
  require (eqb (field "columns" g) (JArr (map JStr gate_columns))) "invalid_gate_columns" ;?
  let? rows := list_of (field "rows" g) "invalid_table" in
  Ok (map gate_row rows).

Definition envelope_keys : string :=
  "mode run observedAtMs expiresAtMs admissionRevision captureIndexSha256 moduleSha256 inventory continuity gates database ordinaryReads ownedResources".
Definition continuity_keys : string :=
  "retainedVersion weights bindingsSha256 runtimeSha256 edgeSha256 d1Identity doLifecycleSha256 assetsSha256 secretReferencesSha256 capabilities backgroundQuiescenceSha256".

(** [key.endswith("Sha256")] *)
Definition endswith (suffix s : string) : bool :=
  bool_decide (String.substring (String.length s - String.length suffix) (String.length suffix) s = suffix
               ∧ String.length suffix ≤ String.length s)%nat.

Definition check_continuity (continuity : json) : res (list (string * json)) :=
  let? d := _keys continuity continuity_keys "incomplete_continuity" in
  require (_identity (field "retainedVersion" d) && _identity (field "d1Identity" d)) "invalid_retained_identity" ;?
  let retained := text_of (field "retainedVersion" d) in
  let? weights := dict_fields (field "weights" d) "invalid_retained_weights" in
  require (same_keys weights [retained] && int_where (λ w, w =? 100) (field retained weights)) "invalid_retained_weights" ;?
  require (forallb (λ kv, negb (endswith "Sha256" kv.1) || _hash kv.2) d) "invalid_continuity_digest" ;?
  let? capabilities := _keys (field "capabilities" d) "intake dispatch thumbnail" "incomplete_capabilities" in
  require (forallb (λ kv, is_false kv.2) capabilities) "capability_not_disabled" ;?
  Ok d.

Definition check_gate (gate : json) : res unit :=
  let? d := _keys gate "scope scope_id enabled revision" "invalid_gate" in
  require (int_where (λ z, z =? 0) (field "enabled" d) && _integer (field "revision" d) 1) "gate_not_paused".
Definition gate_scope (gate : json) : json :=
  match gate with JObj d => JArr [field "scope" d; field "scope_id" d] | _ => JNull end.

Definition check_read (run : json) (rcs : json * (string * Z)) : res unit :=
  let '(read, (check, status)) := rcs in
  let? d := _keys read "check run moduleSha256 status boundedNoData noMutation noUpstream" "invalid_read" in
  require (eqb (field "check" d) (JStr check) && eqb (field "run" d) run && eqb (field "moduleSha256" d) (JStr MODULE_SHA256)
           && int_where (λ z, z =? status) (field "status" d)
           && forallb (λ k, is_true (field k d)) ["boundedNoData"; "noMutation"; "noUpstream"]) "ordinary_read_failed".

(** The loop over the owned resources: the identities seen. *)
Definition check_resource (run : json) (identities : list string) (rk : json * string) : res (list string) :=
  let? d := _keys rk.1 "kind identity run" "invalid_resource" in
  require (eqb (field "kind" d) (JStr rk.2) && eqb (field "run" d) run && _identity (field "identity" d)
           && negb (str_in (text_of (field "identity" d)) identities)) "resource_scope_mismatch" ;?
  Ok (identities ++ [text_of (field "identity" d)]).

Definition _envelope (value : json) : res unit :=
  let? d := _keys value envelope_keys "invalid_envelope" in
  _json value ;?
  require (eqb (field "mode" d) (JStr "synthetic-offline")) "synthetic_evidence_required" ;?
  let run := field "run" d in
  require (run_ok run) "invalid_run" ;?
  let observed := field "observedAtMs" d in
  let expires := field "expiresAtMs" d in
  require (_integer observed 0 && _integer expires 0) "invalid_time" ;?
  require (int_of observed <? int_of expires) "expired_snapshot" ;?
  require (_integer (field "admissionRevision" d) 1) "invalid_admission_revision" ;?
  require (eqb (field "captureIndexSha256" d) (JStr INDEX_SHA256) && eqb (field "moduleSha256" d) (JStr MODULE_SHA256))
    "captured_authority_mismatch" ;?
  let? inventory := dict_fields (field "inventory" d) "incomplete_inventory" in
  require (same_keys inventory FILES && forallb (λ kv, _hash kv.2) inventory) "incomplete_inventory" ;?
  let? continuity := check_continuity (field "continuity" d) in
  let? gates := list_of (field "gates" d) "invalid_gate_census" in
  require (bool_decide (length gates = 2%nat)) "invalid_gate_census" ;?
  forR check_gate gates ;?
  require (eqb (JArr (map gate_scope gates))
             (JArr [JArr [JStr "deployment"; JStr "*"]; JArr [JStr "user"; JStr "synthetic-user"]])) "gate_scope_mismatch" ;?
  let? db_gates := _database (field "database" d) run (field "d1Identity" continuity) observed in
  require (eqb (JArr db_gates) (JArr gates)) "gate_snapshot_contradiction" ;?
  let? reads := list_of (field "ordinaryReads" d) "incomplete_ordinary_reads" in
  require (bool_decide (length reads = length READ_CHECKS)) "incomplete_ordinary_reads" ;?
  forR (check_read run) (combine reads (combine READ_CHECKS [401; 404; 404])) ;?
  let? resources := list_of (field "ownedResources" d) "invalid_resources" in
  require (bool_decide (length resources = length RESOURCE_KINDS)) "invalid_resources" ;?
  let? identities := foldR (check_resource run) [] (combine resources RESOURCE_KINDS) in
  require (negb (str_in (text_of (field "d1Identity" continuity)) identities)) "production_resource_in_cleanup".

(** ** Comparing the evidence *)

(** [normalized]: the document at the baseline's observation times. *)
Definition at_start (start : json) (value : json) : json :=
  match value with
  | JObj d =>
      JObj (dict_set "database"
              (match field "database" d with JObj s => JObj (dict_set "observedAtMs" start s) | j => j end)
              (dict_set "observedAtMs" start d))
  | j => j
  end.

Definition local_resource (run : string) (kind : string) : json :=
  JObj [("kind", JStr kind); ("identity", JStr ("synthetic-" +:+ kind +:+ "-" +:+ run)); ("run", JStr run)].

Definition check_receipt (restored_at completed_at : Z) (rr : json * json) : res unit :=
  let? d := _keys rr.1
    "kind identity run createdAcknowledged operationLatched deleteAcknowledged absentVerified observedAtMs"
    "invalid_cleanup_receipt" in
  let resource := match rr.2 with JObj r => r | _ => [] end in
  require (forallb (λ k, eqb (field k d) (field k resource)) ["kind"; "identity"; "run"]
           && forallb (λ k, is_true (field k d))
                ["createdAcknowledged"; "operationLatched"; "deleteAcknowledged"; "absentVerified"])
    "cleanup_absence_unconfirmed" ;?
  require (_integer (field "observedAtMs" d) 0 && (restored_at <=? int_of (field "observedAtMs" d))
           && (int_of (field "observedAtMs" d) <=? completed_at)) "cleanup_order_mismatch".

(** What a checked envelope holds. *)
Definition part (k : string) (value : json) : json := match value with JObj d => field k d | _ => JNull end.
Definition time_of (value : json) : Z := int_of (part "observedAtMs" value).

Definition check_cleanup (baseline refreshed restored cleanup : json) (now_ms : Z) : res unit :=
  let? c := _keys cleanup "mode run stop restore resources local completedAtMs" "incomplete_cleanup" in
  _json cleanup ;?
  let run := part "run" baseline in
  require (eqb (field "mode" c) (JStr "synthetic-offline") && eqb (field "run" c) run) "cleanup_scope_mismatch" ;?
  let? stop := _keys (field "stop" c) "run observedAtMs enabled revision acknowledged independentReadback" "invalid_stop" in
  require (eqb (field "run" stop) run && is_false (field "enabled" stop) && _integer (field "revision" stop) 2
           && (int_of (field "revision" stop) =? int_of (part "admissionRevision" baseline) + 1)
           && is_true (field "acknowledged" stop) && is_true (field "independentReadback" stop)
           && _integer (field "observedAtMs" stop) 0) "admission_off_unconfirmed" ;?
  let? restore := _keys (field "restore" c) "run target force latched acknowledged independentReadback observedAtMs" "invalid_restore" in
  require (eqb (field "run" restore) run
           && eqb (field "target" restore) (part "retainedVersion" (part "continuity" baseline))
           && is_false (field "force" restore)
           && forallb (λ k, is_true (field k restore)) ["latched"; "acknowledged"; "independentReadback"]
           && _integer (field "observedAtMs" restore) 0) "exact_restore_unconfirmed" ;?
  let stopped_at := int_of (field "observedAtMs" stop) in
  let restore_at := int_of (field "observedAtMs" restore) in
  require ((time_of refreshed <=? stopped_at) && (stopped_at <? restore_at) && (restore_at <=? time_of restored))
    "cleanup_order_mismatch" ;?
  let completed := field "completedAtMs" c in
  require (_integer completed 0 && (time_of restored <=? int_of completed) && (int_of completed <=? now_ms))
    "cleanup_time_mismatch" ;?
  let? resources := list_of (field "resources" c) "cleanup_inventory_mismatch" in
  require (bool_decide (length resources = length RESOURCE_KINDS)) "cleanup_inventory_mismatch" ;?
  let? local := list_of (field "local" c) "cleanup_inventory_mismatch" in
  require (bool_decide (length local = length LOCAL_KINDS)) "cleanup_inventory_mismatch" ;?
  let owned := match part "ownedResources" baseline with JArr l => l | _ => [] end in
  let expected := owned ++ map (local_resource (text_of run)) LOCAL_KINDS in
  forR (check_receipt (time_of restored) (int_of completed)) (combine (resources ++ local) expected).

Definition validate_preservation (baseline refreshed restored cleanup now_ms : json) : res json :=
  forR _envelope [baseline; refreshed; restored] ;?
  let start := time_of baseline in
  let end_ := int_of (part "expiresAtMs" baseline) in
  let now := int_of now_ms in
  require (end_ - start =? LIFETIME_MS) "lifecycle_bound_mismatch" ;?
  require (_integer now_ms 0 && (start <=? time_of refreshed) && (time_of refreshed <=? time_of restored)
           && (time_of restored <=? now) && (now <? end_)
           && (time_of refreshed - start <=? MAX_AGE_MS) && (now - time_of restored <=? MAX_AGE_MS))
    "stale_or_invalid_observation" ;?
  forR (λ value, require (eqb (at_start (JInt start) value) baseline) "unexplained_preservation_drift") [refreshed; restored] ;?
  check_cleanup baseline refreshed restored cleanup now ;?
  let? text := _json (JArr [baseline; refreshed; restored; cleanup]) in
  Ok (JObj [("schemaVersion", JInt 1); ("kind", JStr "synthetic_offline_preservation_contract");
            ("comparisonPassed", JBool true); ("cleanupEvidenceComplete", JBool true);
            ("evidenceSha256", JStr (sha256 text));
            ("currentProductionStateVerified", JBool false); ("providerRestorationVerified", JBool false);
            ("changedSecretSemanticsVerified", JBool false); ("authenticatedOrdinaryRoutesVerified", JBool false);
            ("deploymentAllowed", JBool false); ("missingSourceSeams", JArr (map JStr MISSING_SOURCE_SEAMS))]).
End Check.
