(* ===== verification/PreservationFacts.v ===== *)
(** What an accepted comparison means: the three snapshots show one typed state, row
    for row, with its write gates closed; the events are in order; and every owned
    resource has its own confirmed absence. *)
From stdpp Require Import sorting.
From S2P Require Import Prelude Json JsonParse JsonRoundTrip Binary64 Oracle Evidence Preservation.

(** ** Cells and rows *)

Section Database.
Context (integral : string → option Z).
Notation eqb := (py_eqb integral).

Lemma valid_cell_inv j : valid_cell integral j = true → ∃ c, cell_ok c ∧ j = cell_json c.
Proof.
  unfold valid_cell. destruct j as [| | | | |[|tag [|v []]]|]; try done. rewrite !orb_true_iff, !andb_true_iff.
  assert (∀ t, str_among [t] tag = true → tag = JStr t) as Ht
    by (intros t Hs; apply str_among_ok in Hs as (s & -> & ->%list_elem_of_singleton); done).
  intros [[[[[->%Ht Hv]|[->%Ht Hv]]|[->%Ht Hv]]|[->%Ht Hv]]|[->%Ht Hv]].
  - exists CNull. by apply py_eqb_null in Hv as ->.
  - apply int_where_ok in Hv as (z & -> & Hz). inv_bool. exists (CInteger z). split; [simpl; lia|done].
  - apply text_ok in Hv as (s & ->). by exists (CText s).
  - destruct v; try done. inv_bool. destruct Hv as [t Hu]. exists (CBlob t). split; [done|].
    by rewrite (hexs_unhex (String.length s) s t).
  - destruct v; try done. unfold _canonical_real in Hv. destruct (fromhex s) as [b|] eqn:Hf; [|done]. inv_bool.
    destruct (fromhex_range _ _ Hf) as [Hr <-]. exists (CReal b). done.
Qed.

Lemma cell_valid c : cell_ok c → valid_cell integral (cell_json c) = true.
Proof.
  destruct c as [|z|b|s|s]; intros Hc; unfold valid_cell; cbn [cell_json str_among].
  - done.
  - unfold int64. simpl. simpl in Hc. by rewrite (proj2 (Z.leb_le _ _)), (proj2 (Z.ltb_lt _ _)) by lia.
  - destruct Hc as [Hr Hf]. unfold _canonical_real. rewrite float_hex_inverse, Hf by done. rewrite (bool_decide_eq_true_2 (float_hex b = float_hex b)) by done. change (str_in "real" ["real"] && (true && true)) with true. apply orb_true_r.
  - done.
  - rewrite unhex_hexs. done.
Qed.

Lemma cells_of_valid l : forR (λ cell, require (valid_cell integral cell) "invalid_cell") l = Ok tt →
  ∃ cs, l = map cell_json cs ∧ Forall cell_ok cs.
Proof.
  intros H. rewrite forR_ok in H. induction l as [|j l IH]; [by exists []|].
  destruct (valid_cell_inv j) as (c & Hc & ->); [specialize (H j ltac:(by left)); by apply require_ok in H|].
  destruct IH as (cs & -> & Hcs); [intros; apply H; by right|]. exists (c :: cs). split; [done|by constructor].
Qed.

Lemma check_row_inv width j : check_row integral width j = Ok tt →
  ∃ cs, j = JArr (map cell_json cs) ∧ Forall cell_ok cs ∧ length cs = width.
Proof.
  unfold check_row. destruct j as [| | | | |l|]; try done. intros H. inv_check. inv_bool.
  match goal with H : forR _ _ = _ |- _ => apply cells_of_valid in H as (cs & -> & Hc) end.
  exists cs. split_and!; [done|done|by rewrite length_map in *].
Qed.

Lemma check_rows_inv width rows : forR (check_row integral width) rows = Ok tt →
  ∃ css, rows = map (λ cs, JArr (map cell_json cs)) css ∧ Forall (λ cs, Forall cell_ok cs ∧ length cs = width) css.
Proof.
  intros H. rewrite forR_ok in H. induction rows as [|j rows IH]; [by exists []|].
  destruct (check_row_inv width j) as (cs & -> & Hc & Hl); [apply H; by left|].
  destruct IH as (css & -> & Hcs); [intros; apply H; by right|]. exists (cs :: css). split; [done|by constructor].
Qed.

Lemma cell_flat c : flat (cell_json c) = true.
Proof. by destruct c. Qed.
Lemma row_flat r : flat (row_json r) = true.
Proof. unfold row_json. cbn [flat]. apply forallb_forall. intros j Hj. apply list_elem_of_In, list_elem_of_fmap in Hj as (c & -> & _). apply cell_flat. Qed.
Lemma ordered_flat b r : flat (ordered_json b r) = true.
Proof. unfold ordered_json. destruct b; [|apply row_flat]. cbn [flat forallb]. rewrite row_flat. by destruct r.1. Qed.
Lemma flat_map_arr {A} (f : A → json) l : (∀ x, flat (f x) = true) → flat (JArr (map f l)) = true.
Proof. intros Hf. cbn [flat]. apply forallb_forall. intros j Hj. apply list_elem_of_In, list_elem_of_fmap in Hj as (x & -> & _). apply Hf. Qed.

(** ** Tables *)

(** A list equal to its sort is in canonical order. *)
Lemma sorted_equal l s :
  forallb flat l = true → sorted_by_json id l = Ok s → eqb (JArr l) (JArr s) = true → in_order l = true.
Proof.
  intros Hf Hs He. apply sorted_by_json_ok in Hs as ->. apply in_order_sorted.
  assert (l = sort_by (text_order id) l) as E.
  { assert (forallb flat (sort_by (text_order id) l) = true) as Hf'.
    { rewrite forallb_forall in *. intros x Hx. apply Hf. apply list_elem_of_In. apply list_elem_of_In in Hx. by rewrite sort_by_perm in Hx. }
    apply py_eqb_flat in He; [congruence|done|done]. }
  rewrite E. apply (text_order_sorted id).
Qed.

Lemma hidden_rowids_inv rowids rows : hidden_rowids_ok rowids rows = true →
  rowids = JNull ∨ ∃ zs, rowids = JArr (map JInt zs) ∧ length zs = length rows ∧ NoDup zs ∧ Forall (λ z, - 2 ^ 63 <= z < 2 ^ 63) zs.
Proof.
  unfold hidden_rowids_ok. destruct rowids as [| | | | |l|]; try done; [by left|]. intros H. inv_bool. right.
  assert (∃ zs, l = map JInt zs ∧ Forall (λ z, - 2 ^ 63 <= z < 2 ^ 63) zs) as (zs & -> & Hz).
  { match goal with H : forallb int64 l = true |- _ => rewrite forallb_forall in H; rename H into Hi end. clear -Hi.
    induction l as [|j l IH]; [by exists []|]. destruct (int_where_ok _ _ (Hi j ltac:(by left))) as (z & -> & Hz). inv_bool.
    destruct IH as (zs & -> & Hzs); [intros; apply Hi; by right|]. exists (z :: zs). split; [done|]. constructor; [lia|done]. }
  exists zs. rewrite length_map, map_map in *. simpl in *. rewrite map_id in *. done.
Qed.

Lemma shows_self names recs (rid : bool) d :
  same_keys d ["columns"; "rows"; "rowids"] = true → field "columns" d = JArr (map JStr names) →
  field "rows" d = JArr (map row_json recs) → field "rowids" d = (if rid then JArr (map (λ r : Row, id_json r.1) recs) else JNull) →
  Forall (λ r : Row, id_ok rid r.1 ∧ Forall cell_ok r.2 ∧ length r.2 = length names) recs →
  (rid = true → NoDup (map fst recs)) → in_order (map (ordered_json rid) recs) = true →
  shows (mkTable names recs rid) (JObj d) recs.
Proof.
  intros Hk Hc Hr Hi Hf Hn Ho. split; [done..|]. exists d. cbn [columns rows has_rowid].
  pose proof (λ k, closed_field d _ k Hk) as Hg. split_and!; [done|done|rewrite Hg, Hc by set_solver; done|rewrite Hg, Hr by set_solver; done|].
  rewrite Hg, Hi by set_solver. done.
Qed.

Lemma paired_rows (zs : list Z) css : length zs = length css →
  paired (map (λ cs, JArr (map cell_json cs)) css) (map JInt zs) = map (ordered_json true) (combine (map Some zs) css).
Proof.
  unfold paired. revert css. induction zs as [|z zs IH]; intros [|cs css] Hl; try done. simpl. f_equal. by apply IH; injection Hl.
Qed.
Lemma combine_rows (zs : list Z) css : length zs = length css →
  map row_json (combine (map Some zs) css) = map (λ cs, JArr (map cell_json cs)) css
  ∧ map (λ r : Row, id_json r.1) (combine (map Some zs) css) = map JInt zs ∧ map fst (combine (map Some zs) css) = map Some zs.
Proof.
  revert css. induction zs as [|z zs IH]; intros [|cs css] Hl; try done. simpl. destruct (IH css) as (-> & -> & ->); [by injection Hl|done].
Qed.

(** A checked table shows its own typed rows. *)
Lemma check_table_shows total table total' : check_table integral total table = Ok total' →
  ∃ t, shows t table (rows t) ∧ total' = total + Z.of_nat (length (rows t)) ∧ total' <= MAX_ROWS
    ∧ 0 < Z.of_nat (length (columns t)) <= 256 ∧ NoDup (columns t).
Proof.
  unfold check_table. intros H. inv_check. apply closed_ok in Ha as [-> Hk].
  repeat match goal with H : list_of _ _ = Ok _ |- _ => apply list_of_ok in H end. inv_bool.
  match goal with H : field "columns" a = JArr ?l |- _ => rename H into Ec; rename l into cols end.
  match goal with H : field "rows" a = JArr ?l |- _ => rename H into Er; rename l into found end.
  match goal with H : forR (check_row _ _) _ = _ |- _ => apply check_rows_inv in H as (css & -> & Hcs) end.
  match goal with H : hidden_rowids_ok _ _ = true |- _ => apply hidden_rowids_inv in H as Hids end.
  assert (∃ names, cols = map JStr names) as (names & ->).
  { match goal with H : forallb _ cols = true |- _ => rewrite forallb_forall in H; rename H into Hc end. clear -Hc.
    induction cols as [|j cols IH]; [by exists []|]. pose proof (Hc j ltac:(by left)) as Hj. inv_bool.
    match goal with H : _text j = true |- _ => apply text_ok in H as (s & ->) end.
    destruct IH as (names & ->); [intros; apply Hc; by right|]. by exists (s :: names). }
  rewrite map_map in *. cbn [text_of] in *. rewrite map_id in *. rewrite !length_map in *.
  destruct Hids as [Hid|(zs & Hid & Hl & Hnd & Hz)]; rewrite Hid in *.
  - exists (mkTable names (map (λ cs, (None, cs)) css) false). cbn [rows columns]. rewrite length_map.
    split; [|done]. inv_check. inv_bool.
    assert (map row_json (map (λ cs, (None : option Z, cs)) css) = map (λ cs, JArr (map cell_json cs)) css) as E by by rewrite map_map.
    apply shows_self; [done|done|by rewrite E|done| |done|].
    + apply Forall_map. eapply Forall_impl; [exact Hcs|]. done.
    + change (map (ordered_json false)) with (map row_json). rewrite E. eapply sorted_equal; [|done|done].
      rewrite <- E. apply (flat_map_arr row_json _ row_flat).
  - exists (mkTable names (combine (map Some zs) css) true). cbn [rows columns].
    destruct (combine_rows zs css Hl) as (E1 & E2 & E3). assert (length (combine (map Some zs) css : list Row) = length css) as -> by
      (unfold Row; by rewrite length_combine, length_map, Hl, Nat.min_id).
    split; [|done]. inv_check. inv_bool. rewrite paired_rows in * by done.
    apply shows_self; [done|done|by rewrite E1|by rewrite E2| | |].
    + clear -Hcs Hz Hl. revert css Hcs Hl. induction Hz as [|z zs Hz _ IH]; intros [|cs css] Hcs Hl; try done.
      apply Forall_cons in Hcs as [Hc Hcs]. constructor; [done|]. by apply IH; [|injection Hl].
    + intros _. rewrite E3. by apply NoDup_fmap_2; [apply _|].
    + eapply sorted_equal; [|done|done]. apply (flat_map_arr (ordered_json true) _ (ordered_flat true)).
Qed.

(** ** Snapshots *)

Lemma foldR_step {A B} (f : A → B → res A) l : ∀ a b x, foldR f a l = Ok b → x ∈ l → ∃ a1 a2, f a1 x = Ok a2.
Proof.
  induction l as [|y l IH]; intros a b x H Hx; [by apply elem_of_nil in Hx|]. cbn [foldR] in H.
  apply rbind_ok in H as (a' & Hy & Hl). apply elem_of_cons in Hx as [->|Hx]; [eauto|by eapply IH].
Qed.

Lemma choose_all {A} (P : string → A → Prop) names :
  (∀ n, n ∈ names → ∃ a, P n a) → ∃ l, map fst l = names ∧ ∀ n a, (n, a) ∈ l → P n a.
Proof.
  induction names as [|n names IH]; intros H; [exists []; split; [done|set_solver]|].
  destruct (H n ltac:(by left)) as [a Ha]. destruct IH as (l & <- & Hl); [intros; apply H; by right|].
  exists ((n, a) :: l). split; [done|]. intros n' a' [[= -> ->]|Hin]%elem_of_cons; auto.
Qed.

(** The tables of a schema, in its order. *)
Definition table_names (s : list (list (option string))) : list string :=
  omap (λ r, match r with [Some k; Some n; _; _] => if decide (k = "table") then Some n else None | _ => None end) s.

Lemma check_schema_inv schema : ∀ objects objects', foldR (check_schema_row integral) objects schema = Ok objects' →
  ∃ rows, JArr schema = schema_json rows
    ∧ map snd (filter (λ o : string * string, o.1 = "table") objects') = map snd (filter (λ o : string * string, o.1 = "table") objects) ++ table_names rows.
Proof.
  induction schema as [|row schema IH]; intros objects objects' H; cbn [foldR] in H.
  - injection H as <-. exists []. by rewrite app_nil_r.
  - apply rbind_ok in H as (o1 & Hr & Hs). destruct (IH _ _ Hs) as (rows & E & En). unfold check_schema_row in Hr.
    destruct row as [| | | | |[|kind [|nm [|owner [|sql []]]]]|]; try done. inv_check. inv_bool.
    match goal with H : str_among _ kind = true |- _ => apply str_among_ok in H as (k & -> & _) end.
    repeat match goal with H : _text _ = true |- _ => apply text_ok in H as (? & ->) end. cbn [text_of] in *.
    match goal with |- context [JArr (JArr [_; JStr ?a; JStr ?b; _] :: _)] => rename a into n; rename b into o end.
    assert (∃ q, sql = JOpt JStr q) as (q & ->) by (destruct sql; try done; [by exists None|by exists (Some s)]).
    exists ([Some k; Some n; Some o; q] :: rows). split; [unfold schema_json in *; cbn [map]; injection E as ->; done|].
    rewrite En, filter_app, map_app, <- app_assoc. f_equal. rewrite filter_cons. cbn [fst table_names omap list_omap].
    by destruct (decide (k = "table")).
Qed.

(** The value of a cell, and a gate row read as a dict. *)
Definition cell_value (c : Cell) : json :=
  match c with CNull => JNull | CInteger z => JInt z | CReal b => JStr (float_hex b) | CText s => JStr s | CBlob s => JStr (hexs s) end.
Definition gate_json (r : Row) : json := JObj (combine gate_columns (map cell_value r.2)).

Lemma gate_rows (recs : list Row) : map gate_row (map row_json recs) = map gate_json recs.
Proof.
  rewrite map_map. apply map_ext. intros r. unfold gate_row, row_json, gate_json. rewrite map_map. do 2 f_equal.
  apply map_ext. by intros [].
Qed.

(** A reference of the state a snapshot shows: its tables are those of its schema. *)
Record reads_as (r : Reference) (snapshot : json) : Prop := {
  ra_check : check r snapshot = Ok tt;
  ra_names : map fst (tables r) = table_names (schema r);
  ra_nodup : NoDup (map fst (tables r));
  ra_tables n t : (n, t) ∈ tables r → 0 < Z.of_nat (length (columns t)) <= 256 ∧ NoDup (columns t);
}.

(** An accepted snapshot is the canonical form of a typed state, and the gates it
    yields are the rows of that state's gate table. *)
Lemma database_reads snapshot run identity timestamp gates :
  _database integral snapshot run identity timestamp = Ok gates →
  ∃ r t, reads_as r snapshot ∧ ("flickr_write_gates", t) ∈ tables r ∧ columns t = gate_columns
    ∧ gates = map gate_json (rows t).
Proof.
  unfold _database. intros H. inv_check. apply closed_ok in Ha as [-> Hk].
  repeat match goal with H : list_of _ _ = Ok _ |- _ => apply list_of_ok in H | H : dict_fields _ _ = Ok _ |- _ => apply dict_fields_ok in H
    | H : some_or _ _ = Ok _ |- _ => apply some_or_ok in H end. inv_bool. subst.
  destruct (check_schema_inv _ _ _ Ha5) as (sch & Es & En). simpl in En. rewrite En in *.
  destruct (choose_all (λ n t, ∃ actual, dict_get n a1 = Some actual ∧ shows t actual (rows t)
    ∧ 0 < Z.of_nat (length (columns t)) <= 256 ∧ NoDup (columns t)) (table_names sch)) as (ts & Ets & Hts).
  { intros n Hn. unfold same_set in H0. inv_bool.
    match goal with H : forallb _ (table_names sch) = true |- _ => rewrite forallb_forall in H; specialize (H n);
      rewrite <- list_elem_of_In in H; specialize (H Hn); unfold str_in in H; apply bool_decide_eq_true in H;
      apply dict_get_some in H as (actual & Hget) end.
    destruct (foldR_step _ _ _ _ (n, actual) Ha7 (dict_get_in _ _ _ Hget)) as (t1 & t2 & Hc). cbn [snd] in Hc.
    destruct (check_table_shows _ _ _ Hc) as (t & Hs & _ & _ & Hl & Hd). eauto 10. }
  assert (same_keys a1 (table_names sch) = true) as Hsame.
  { unfold same_set in H0. inv_bool. unfold same_keys. apply andb_true_iff. split.
    - match goal with H : forallb _ (map fst a1) = true |- _ => rewrite forallb_forall in H; rename H into Hin end.
      apply forallb_forall. intros [n j] Hj. apply Hin. apply list_elem_of_In, list_elem_of_fmap. exists (n, j). split; [done|by apply list_elem_of_In].
    - apply forallb_forall. intros n Hn. apply list_elem_of_In in Hn. rewrite <- Ets in Hn. apply list_elem_of_fmap in Hn as ([n' t] & -> & Ht).
      destruct (Hts _ _ Ht) as (actual & Hget & _). apply bool_decide_eq_true. by exists actual. }
  assert (∃ t, ("flickr_write_gates", t) ∈ ts) as (t & Ht).
  { apply dict_get_in in Ha8 as Hin.
    assert ("flickr_write_gates" ∈ map fst a1) as Hin2 by (apply list_elem_of_fmap; by exists ("flickr_write_gates", JObj a5)).
    unfold same_set in H0. inv_bool.
    match goal with H : forallb _ (map fst a1) = true |- _ => rewrite forallb_forall in H; specialize (H "flickr_write_gates");
      rewrite <- list_elem_of_In in H; specialize (H Hin2); unfold str_in in H; apply bool_decide_eq_true in H; rewrite <- Ets in H;
      apply list_elem_of_fmap in H as ([n t] & E & Ht) end. simpl in E. subst n. eauto. }
  destruct (Hts _ _ Ht) as (actual & Hget & Hs & _). rewrite Ha8 in Hget. injection Hget as <-.
  destruct Hs as [_ _ _ _ (d & [= <-] & Hkd & Ec & Er & _)].
  rewrite (field_found _ _ _ Ec) in Ha10. rewrite (field_found _ _ _ Er) in Ha11. injection Ha11 as <-.
  exists (mkReference sch ts), t. split_and!; [|done| |by rewrite gate_rows].
  - split; [|done|simpl; by rewrite Ets|by intros n u Hu; destruct (Hts _ _ Hu) as (? & _ & _ & ?)].
    apply check_shows. exists a, a1. pose proof (λ k, closed_field a _ k Hk) as Hg. simpl. split_and!; [done| | |by rewrite Ets|].
    + rewrite Hg, Ha1, Es by (vm_compute; set_solver). done.
    + rewrite Hg, Ha3 by (vm_compute; set_solver). done.
    + intros n u Hu. destruct (Hts _ _ Hu) as (actual & Hget & Hs & _). eauto.
  - apply py_eqb_flat in Ha10; [|apply flat_map_arr; done..]. injection Ha10 as Hm. clear -Hm.
    change (map JStr (columns t) = map JStr gate_columns) in Hm.
    apply (f_equal (mapM as_str)) in Hm. rewrite !(proj2 (str_columns _ _) eq_refl) in Hm. by injection Hm.
Qed.

(** Equal tables show the same rows. *)
Lemma shows_transfer t t' a b recs recs' :
  shows t b recs → shows t' a recs' → eqb a b = true → shows t a recs.
Proof.
  intros [Hp Hc Hn Ho (db & -> & Hkb & Ecb & Erb & Eib)] [_ _ _ _ (da & -> & Hka & Eca & Era & Eia)] He.
  split; [done..|]. exists da. split_and!; [done|done|..].
  - destruct (py_eqb_obj _ _ _ _ _ He Eca) as (w & Hw & Hcw). rewrite Ecb in Hw. injection Hw as <-.
    apply py_eqb_flat in Hcw as E; [by rewrite Eca, E|apply flat_map_arr; done..].
  - destruct (py_eqb_obj _ _ _ _ _ He Era) as (w & Hw & Hcw). rewrite Erb in Hw. injection Hw as <-.
    apply py_eqb_flat in Hcw as E; [by rewrite Era, E|apply flat_map_arr, row_flat..].
  - assert (∀ (b : bool) (l : list Row), flat (if b then JArr (map (λ r, id_json r.1) l) else JNull) = true) as Hfl.
    { intros [] l; [|done]. apply flat_map_arr. intros r. by destruct r.1. }
    destruct (py_eqb_obj _ _ _ _ _ He Eia) as (w & Hw & Hcw). rewrite Eib in Hw. injection Hw as <-.
    apply py_eqb_flat in Hcw as E; [by rewrite Eia, E|apply Hfl..].
Qed.

Lemma schema_json_inj s s' : schema_json s = schema_json s' → s = s'.
Proof.
  intros [= E]. assert (mapM schema_row (map (λ r, JArr (map (JOpt JStr) r)) s) = Some s) as H by by apply schema_rows_iff.
  rewrite E in H. rewrite (proj2 (schema_rows_iff _ s') eq_refl) in H. congruence.
Qed.
Lemma schema_flat s : flat (schema_json s) = true.
Proof. apply flat_map_arr. intros r. apply flat_map_arr. by intros []. Qed.

(** Two accepted snapshots that Python finds equal show one state. *)
Lemma reads_transfer r r' a b :
  reads_as r (JObj b) → reads_as r' (JObj a) → (∀ k v, k ∈ ["schema"; "tables"] → dict_get k a = Some v →
    ∃ w, dict_get k b = Some w ∧ eqb v w = true) → reads_as r (JObj a).
Proof.
  intros [Hb Hnb Hdb Hcb] [Ha Hna _ _] He. split; [|done..]. apply check_shows.
  apply check_shows in Hb as (b' & ob & [= <-] & Sb & Tb & Kb & Ab). apply check_shows in Ha as (a' & oa & [= <-] & Sa & Ta & Ka & Aa).
  destruct (He "schema" _ ltac:(set_solver) Sa) as (w & Hw & Hs). rewrite Sb in Hw. injection Hw as <-.
  apply py_eqb_flat, schema_json_inj in Hs; [|apply schema_flat..].
  destruct (He "tables" _ ltac:(set_solver) Ta) as (w & Hw & Ht). rewrite Tb in Hw. injection Hw as <-.
  exists a, oa. split_and!; [done|by rewrite <- Hs|done|by rewrite Hnb, <- Hs, <- Hna|].
  intros n t Hin. destruct (Ab _ _ Hin) as (jb & recs & Gb & Shb).
  assert (n ∈ map fst (tables r')) as ([n' t'] & -> & Hin')%list_elem_of_fmap.
  { rewrite Hna, Hs, <- Hnb. apply list_elem_of_fmap. by exists (n, t). }
  destruct (Aa _ _ Hin') as (ja & recs' & Ga & Sha).
  destruct (py_eqb_obj _ _ _ _ _ Ht Ga) as (w & Hw & Heq). cbn [fst] in *. rewrite Gb in Hw. injection Hw as <-.
  exists ja, recs. split; [done|]. by eapply shows_transfer.
Qed.

(** ** Envelopes *)

(** The write gates of a state are the two expected ones, both closed. *)
Definition gates_closed (r : Reference) : Prop :=
  ∃ t rev rev', ("flickr_write_gates", t) ∈ tables r ∧ columns t = gate_columns
    ∧ map (λ row : Row, map cell_value row.2) (rows t)
      = [[JStr "deployment"; JStr "*"; JInt 0; JInt rev]; [JStr "user"; JStr "synthetic-user"; JInt 0; JInt rev']]
    ∧ 1 <= rev ∧ 1 <= rev'.

Lemma check_gate_inv j : check_gate j = Ok tt →
  ∃ d rev, j = JObj d ∧ field "enabled" d = JInt 0 ∧ field "revision" d = JInt rev ∧ 1 <= rev.
Proof.
  unfold check_gate. intros H. inv_check. apply closed_ok in Ha as [-> _]. inv_bool.
  match goal with H : int_where _ _ = true |- _ => apply int_where_ok in H as (z & Ez & Hz) end. inv_bool. subst z.
  match goal with H : _integer _ _ = true |- _ => apply int_where_ok in H as (rev & Er & Hr) end. inv_bool. eauto 10.
Qed.

(** A gate row equal to a checked gate. *)
Lemma gate_row_closed vs d s i rev :
  length vs = 4%nat → Forall (λ v, flat v = true) vs → eqb (JObj (combine gate_columns vs)) (JObj d) = true →
  field "scope" d = JStr s → field "scope_id" d = JStr i → field "enabled" d = JInt 0 → field "revision" d = JInt rev →
  vs = [JStr s; JStr i; JInt 0; JInt rev].
Proof.
  intros Hl Hf He Hs Hi Hz Hr. destruct vs as [|v1 [|v2 [|v3 [|v4 []]]]]; try done.
  assert (∀ k v, dict_get k (combine gate_columns [v1; v2; v3; v4]) = Some v → flat v = true → flat (field k d) = true → v = field k d) as Hg.
  { intros k v Hk Hv Hd. destruct (py_eqb_obj _ _ _ _ _ He Hk) as (w & Hw & Hvw). rewrite (field_found _ _ _ Hw) in *. by eapply py_eqb_flat. }
  rewrite !Forall_cons in Hf. destruct Hf as (F1 & F2 & F3 & F4 & _).
  assert (v1 = JStr s) as -> by (rewrite <- Hs; apply Hg; [done|done|by rewrite Hs]).
  assert (v2 = JStr i) as -> by (rewrite <- Hi; apply Hg; [done|done|by rewrite Hi]).
  assert (v3 = JInt 0) as -> by (rewrite <- Hz; apply Hg; [done|done|by rewrite Hz]).
  by assert (v4 = JInt rev) as -> by (rewrite <- Hr; apply Hg; [done|done|by rewrite Hr]).
Qed.

Lemma value_flat c : flat (cell_value c) = true.
Proof. by destruct c. Qed.

Lemma gates_of r t gates :
  ("flickr_write_gates", t) ∈ tables r → columns t = gate_columns → Forall (λ row : Row, length row.2 = 4%nat) (rows t) →
  forR check_gate gates = Ok tt →
  eqb (JArr (map gate_scope gates)) (JArr [JArr [JStr "deployment"; JStr "*"]; JArr [JStr "user"; JStr "synthetic-user"]]) = true →
  eqb (JArr (map gate_json (rows t))) (JArr gates) = true → gates_closed r.
Proof.
  intros Hin Hc Hw Hg Hs He. apply py_eqb_list in Hs, He.
  inversion Hs as [|s1 ? l1 ? E1 Hs1 Q1]; subst. inversion Hs1 as [|s2 ? l2 ? E2 Hs2 Q2]; subst. inversion Hs2; subst.
  destruct gates as [|g1 [|g2 [|]]]; try done. injection Q1 as -> ->. rewrite forR_ok in Hg.
  destruct (check_gate_inv g1) as (d1 & rev & -> & Z1 & R1 & L1); [apply Hg; by left|].
  destruct (check_gate_inv g2) as (d2 & rev' & -> & Z2 & R2 & L2); [apply Hg; by right; left|].
  apply py_eqb_list in E1, E2. inversion E1 as [|? ? ? ? S1 E1']; subst. inversion E1' as [|? ? ? ? I1 _]; subst.
  inversion E2 as [|? ? ? ? S2 E2']; subst. inversion E2' as [|? ? ? ? I2 _]; subst.
  apply py_eqb_str in S1, I1, S2, I2.
  destruct (rows t) as [|r1 [|r2 [|]]] eqn:Er; try (by inversion He as [|? ? ? ? ? He']; inversion He' as [|? ? ? ? ? He'']; inversion He'').
  inversion He as [|? ? ? ? G1 He']; subst. inversion He' as [|? ? ? ? G2 _]; subst.
  rewrite !Forall_cons in Hw. destruct Hw as (W1 & W2 & _).
  assert (∀ row : Row, Forall (λ v, flat v = true) (map cell_value row.2)) as Hfl by (intros row; apply Forall_map, Forall_true, value_flat).
  exists t, rev, rev'. split_and!; [done|done| |done|done]. rewrite Er. cbn [map].
  rewrite (gate_row_closed (map cell_value r1.2) d1 "deployment" "*" rev), (gate_row_closed (map cell_value r2.2) d2 "user" "synthetic-user" rev');
    try done; by rewrite length_map.
Qed.

Lemma reads_widths r snapshot n t : reads_as r snapshot → (n, t) ∈ tables r → Forall (λ row : Row, length row.2 = length (columns t)) (rows t).
Proof.
  intros [Hc _ _ _] Hin. apply check_shows in Hc as (d & obs & -> & _ & _ & _ & Hall). destruct (Hall _ _ Hin) as (actual & recs & _ & [Hp Hf _ _ _]).
  rewrite <- Hp. eapply Forall_impl; [exact Hf|]. intros x (_ & _ & Hx). exact Hx.
Qed.

(** The owned resources of a run: one of each kind, with distinct identities. *)
Definition owned_resource (run : string) (ki : string * string) (resource : json) : Prop :=
  ∃ d, resource = JObj d ∧ field "kind" d = JStr ki.1 ∧ field "identity" d = JStr ki.2 ∧ field "run" d = JStr run.

Lemma check_resources_inv run resources : ∀ kinds ids ids',
  length resources = length kinds → NoDup ids →
  foldR (check_resource integral (JStr run)) ids (combine resources kinds) = Ok ids' →
  ∃ new, ids' = ids ++ new ∧ NoDup ids' ∧ length new = length kinds ∧ Forall2 (owned_resource run) (combine kinds new) resources.
Proof.
  induction resources as [|j resources IH]; intros [|k kinds] ids ids' Hl Hn H; try done; cbn [combine foldR] in H.
  - injection H as <-. exists []. by rewrite app_nil_r.
  - apply rbind_ok in H as (i1 & Hc & Hr). unfold check_resource in Hc. inv_check. cbn [fst snd] in *. apply closed_ok in Ha as [-> _]. inv_bool.
    repeat match goal with H : eqb _ (JStr _) = true |- _ => apply py_eqb_str in H end.
    match goal with H : _identity ?v = true |- _ => destruct v as [| | | |s| |] eqn:Ei; try done end. cbn [text_of] in *.
    match goal with H : str_in s ids = false |- _ => unfold str_in in H; apply bool_decide_eq_false in H; rename H into Hs end.
    destruct (IH kinds (ids ++ [s]) ids') as (new & -> & Hnd & Hlen & Hf); [by injection Hl| |done|].
    { apply NoDup_app. split_and!; [done| |apply NoDup_singleton]. intros y Hy ->%list_elem_of_singleton. done. }
    exists (s :: new). rewrite <- (assoc_L (++)) in Hnd |- *. split_and!; [done|done|simpl; lia|]. constructor; [|done]. exists a. done.
Qed.

(** What an accepted envelope establishes. *)
Record evidence (value : json) (r : Reference) (run : string) (observed expires revision : Z) (ids : list string) : Prop := {
  ev_run : part "run" value = JStr run;
  ev_observed : part "observedAtMs" value = JInt observed;
  ev_expires : part "expiresAtMs" value = JInt expires;
  ev_revision : part "admissionRevision" value = JInt revision;
  ev_state : reads_as r (part "database" value);
  ev_gates : gates_closed r;
  ev_resources : ∃ l, part "ownedResources" value = JArr l ∧ Forall2 (owned_resource run) (combine RESOURCE_KINDS ids) l;
  ev_ids : NoDup ids ∧ length ids = length RESOURCE_KINDS;
  ev_production : ∃ d1, part "d1Identity" (part "continuity" value) = JStr d1 ∧ d1 ∉ ids;
  ev_retained : ∃ retained, part "retainedVersion" (part "continuity" value) = JStr retained;
}.

Lemma identity_text v : _identity v = true → ∃ s, v = JStr s.
Proof. destruct v; try done. eauto. Qed.

Lemma check_continuity_inv j d : check_continuity j = Ok d → j = JObj d ∧ (∃ s, field "retainedVersion" d = JStr s) ∧ ∃ s, field "d1Identity" d = JStr s.
Proof.
  unfold check_continuity. intros H. inv_check. match goal with H : _keys _ _ _ = Ok _ |- _ => apply closed_ok in H as [-> _] end. inv_bool.
  split_and!; [done|by apply identity_text..].
Qed.

Lemma envelope_evidence value : _envelope integral value = Ok tt →
  ∃ r run observed expires revision ids, evidence value r run observed expires revision ids ∧ 0 <= observed < expires.
Proof.
  unfold _envelope. intros H. inv_check. apply closed_ok in Ha as [-> _].
  apply list_of_ok in Ha10, Ha19. apply andb_true_iff in Ha3 as [(obs & Eo & Ho)%int_where_ok (ex & Ee & He)%int_where_ok].
  apply int_where_ok in Ha5 as (rev & Er & Hr). inv_bool. rewrite Eo, Ee in *. cbn [int_of] in *.
  destruct (check_continuity_inv _ _ Ha9) as (Ec & [ret Hret] & [d1 Hd1]). rewrite Hd1 in *. cbn [text_of] in *.
  destruct (field "run" a) as [| | | |run| |] eqn:Erun; try done.
  destruct (database_reads _ _ _ _ _ Ha14) as (r & t & Hreads & Hin & Hcols & ->).
  destruct (check_resources_inv run a6 RESOURCE_KINDS [] a7) as (new & -> & Hnd & Hlen & Hf); [done|constructor|done|].
  match goal with H : str_in _ _ = false |- _ => unfold str_in in H; apply bool_decide_eq_false in H; rename H into Hp end.
  exists r, run, obs, ex, rev, new. split; [|lia]. split; cbn [part]; try done.
  - eapply gates_of; [done|done| |done..]. change 4%nat with (length gate_columns). rewrite <- Hcols.
    by eapply reads_widths.
  - rewrite Ha19. eauto.
  - rewrite Ec. cbn [part]. eauto.
  - rewrite Ec. cbn [part]. eauto.
Qed.

(** ** Comparison *)

Lemma reads_obj r snapshot : reads_as r snapshot → ∃ d, snapshot = JObj d.
Proof. intros [Hc _ _ _]. apply check_shows in Hc as (d & _ & -> & _). eauto. Qed.

(** No drift: a document that equals the baseline at its times shows its state. *)
Lemma same_state r r' baseline value start :
  reads_as r (part "database" baseline) → reads_as r' (part "database" value) →
  eqb (at_start start value) baseline = true → reads_as r (part "database" value).
Proof.
  intros Hb Hv He. destruct (reads_obj _ _ Hb) as [sb Esb], (reads_obj _ _ Hv) as [sv Esv]. rewrite Esb in Hb. rewrite Esv in *.
  destruct value as [| | | | | |dv]; try done. destruct baseline as [| | | | | |db]; try done.
  cbn [part at_start] in *. rewrite Esv in He.
  destruct (py_eqb_obj _ _ _ "database" _ He (dict_get_set_same _ _ _)) as (w & Hw & Heq).
  rewrite (field_found _ _ _ Hw) in Esb. subst w. eapply reads_transfer; [exact Hb|exact Hv|].
  intros k v Hk Hg. eapply py_eqb_obj; [exact Heq|]. rewrite dict_get_set_other; [done|]. set_solver.
Qed.

(** A receipt of a resource's own confirmed absence, within the cleanup. *)
Definition confirmed (run : string) (restored_at completed_at : Z) (ki : string * string) (receipt : json) : Prop :=
  owned_resource run ki receipt
  ∧ (∀ k, k ∈ ["createdAcknowledged"; "operationLatched"; "deleteAcknowledged"; "absentVerified"] → part k receipt = JBool true)
  ∧ restored_at <= time_of receipt <= completed_at.

Lemma check_receipt_inv run ki resource restored_at completed_at receipt :
  owned_resource run ki resource → check_receipt integral restored_at completed_at (receipt, resource) = Ok tt →
  confirmed run restored_at completed_at ki receipt.
Proof.
  intros (r & -> & E1 & E2 & E3). unfold check_receipt. cbn [fst snd]. intros H. inv_check. apply closed_ok in Ha as [-> _]. inv_bool.
  repeat match goal with H : forallb _ _ = true |- _ => rewrite forallb_forall in H; setoid_rewrite <- list_elem_of_In in H end.
  assert (∀ k s, k ∈ ["kind"; "identity"; "run"] → field k r = JStr s → field k a = JStr s) as Hk.
  { intros k s Hin Hs. match goal with H : ∀ x, x ∈ ["kind"; _; _] → _ |- _ => specialize (H k Hin); rewrite Hs in H; by apply py_eqb_str in H end. }
  unfold confirmed, time_of. cbn [part]. split_and!; [| |lia..].
  - exists a. split_and!; [done|apply Hk; [set_solver|done]..].
  - intros k Hin. match goal with H : ∀ x, x ∈ ["createdAcknowledged"; _; _; _] → _ |- _ => specialize (H k Hin) end.
    by destruct (field k a) as [|[]| | | | |].
Qed.

Lemma check_receipts_inv run restored_at completed_at kis resources : Forall2 (owned_resource run) kis resources → ∀ receipts,
  length receipts = length resources → forR (check_receipt integral restored_at completed_at) (combine receipts resources) = Ok tt →
  Forall2 (confirmed run restored_at completed_at) kis receipts.
Proof.
  induction 1 as [|ki resource kis resources Hr _ IH]; intros [|receipt receipts] Hl H; try done.
  cbn [combine forR] in H. apply rbind_ok in H as ([] & Hc & H). constructor; [by eapply check_receipt_inv|]. apply IH; [by injection Hl|done].
Qed.

Definition local_identities (run : string) : list string := map (λ k, "synthetic-" +:+ k +:+ "-" +:+ run) LOCAL_KINDS.
Lemma local_resources run : Forall2 (owned_resource run) (combine LOCAL_KINDS (local_identities run)) (map (local_resource run) LOCAL_KINDS).
Proof.
  unfold local_identities. induction LOCAL_KINDS as [|k ks IH]; [constructor|]. cbn [map combine]. constructor; [|done].
  eexists. by split_and!.
Qed.

(** What an accepted cleanup establishes of a baseline. *)
Record cleaned (baseline refreshed restored cleanup : json) (now : Z) (run : string) (ids : list string) : Prop := {
  cl_order : time_of refreshed <= time_of (part "stop" cleanup) < time_of (part "restore" cleanup)
             ∧ time_of (part "restore" cleanup) <= time_of restored <= int_of (part "completedAtMs" cleanup)
             ∧ int_of (part "completedAtMs" cleanup) <= now;
  cl_stop : part "enabled" (part "stop" cleanup) = JBool false
            ∧ int_of (part "revision" (part "stop" cleanup)) = int_of (part "admissionRevision" baseline) + 1;
  cl_restore : part "target" (part "restore" cleanup) = part "retainedVersion" (part "continuity" baseline)
               ∧ part "force" (part "restore" cleanup) = JBool false;
  cl_receipts : ∃ resources local, part "resources" cleanup = JArr resources ∧ part "local" cleanup = JArr local
    ∧ Forall2 (confirmed run (time_of restored) (int_of (part "completedAtMs" cleanup)))
        (combine RESOURCE_KINDS ids ++ combine LOCAL_KINDS (local_identities run)) (resources ++ local);
}.

Lemma is_false_ok v : is_false v = true → v = JBool false.
Proof. by destruct v as [|[]| | | | |]. Qed.

Lemma cleanup_cleaned r run o e rv ids baseline refreshed restored cleanup now :
  evidence baseline r run o e rv ids → check_cleanup integral baseline refreshed restored cleanup now = Ok tt →
  cleaned baseline refreshed restored cleanup now run ids.
Proof.
  intros [Hrun _ _ _ _ _ (l & Hl & Hres) [_ Hlen] _ (ret & Hret)]. unfold check_cleanup. rewrite Hrun, Hl, Hret. cbn [text_of]. intros H. inv_check.
  repeat match goal with H : _keys ?v _ _ = Ok _ |- _ => apply closed_ok in H as [? _]; subst end.
  repeat match goal with H : list_of _ _ = Ok _ |- _ => apply list_of_ok in H end. inv_bool.
  assert (part "stop" (JObj a) = JObj a1) as Es by done. assert (part "restore" (JObj a) = JObj a2) as Er by done.
  split; rewrite ?Es, ?Er; unfold time_of in *; cbn [part] in *.
  - lia.
  - by split; [apply is_false_ok|].
  - rewrite Hret. by split; [apply py_eqb_str in H11|apply is_false_ok].
  - rewrite Ha8, Ha10. exists a3, a4. split_and!; [done|done|]. eapply check_receipts_inv; [|..|exact Hb].
    + apply Forall2_app; [exact Hres|apply local_resources].
    + rewrite !length_app, length_map, Ha9, Ha11. pose proof (Forall2_length _ _ _ Hres) as E. rewrite length_combine, Hlen, Nat.min_id in E.
      by rewrite E.
Qed.
End Database.

(** C19: An accepted comparison is sound: one typed state is what all three snapshots
    show, with exactly the two expected write gates and both closed; admission was
    switched off and the retained version restored between the second and the third
    observation, in that order and within the lifetime; every resource of the run -
    four remote and three local, all distinct, none the production database - has its
    own receipt of a confirmed absence; and the answer still allows nothing. *)
Theorem preservation_sound integral sha256 baseline refreshed restored cleanup now_ms receipt :
  validate_preservation integral sha256 baseline refreshed restored cleanup now_ms = Ok receipt →
  ∃ r run ids now, now_ms = JInt now
    ∧ (∀ v, v ∈ [baseline; refreshed; restored] → reads_as r (part "database" v)) ∧ gates_closed r
    ∧ time_of baseline <= time_of refreshed ∧ now < time_of baseline + LIFETIME_MS
    ∧ cleaned baseline refreshed restored cleanup now run ids
    ∧ (NoDup ids ∧ ∃ d1, part "d1Identity" (part "continuity" baseline) = JStr d1 ∧ d1 ∉ ids)
    ∧ ∀ k, k ∈ ["deploymentAllowed"; "currentProductionStateVerified"; "providerRestorationVerified"] → part k receipt = JBool false.
Proof.
  unfold validate_preservation. intros H. inv_check.
  match goal with H : forR (_envelope _) _ = _ |- _ => rewrite forR_ok in H; rename H into He end.
  match goal with H : forR (λ _, _) [_; _] = _ |- _ => rewrite forR_ok in H; rename H into Hd end. inv_bool.
  destruct (envelope_evidence _ baseline (He baseline ltac:(set_solver))) as (r & run & o & e & rv & ids & Hb & _).
  destruct (envelope_evidence _ refreshed (He refreshed ltac:(set_solver))) as (r1 & run1 & o1 & e1 & rv1 & ids1 & Hr & _).
  destruct (envelope_evidence _ restored (He restored ltac:(set_solver))) as (r2 & run2 & o2 & e2 & rv2 & ids2 & Hs & _).
  match goal with H : _integer now_ms 0 = true |- _ => apply int_where_ok in H as (now & -> & _) end. cbn [int_of] in *.
  exists r, run, ids, now. split_and!; [done| |apply Hb|done|lia|by eapply cleanup_cleaned|apply Hb|apply Hb|].
  - intros v [->|[->|[->|[]%elem_of_nil]%elem_of_cons]%elem_of_cons]%elem_of_cons; [apply Hb|..].
    + eapply same_state; [apply Hb|apply Hr|]. exact (proj1 (require_ok _ _) (Hd refreshed ltac:(set_solver))).
    + eapply same_state; [apply Hb|apply Hs|]. exact (proj1 (require_ok _ _) (Hd restored ltac:(set_solver))).
  - intros k Hk. rewrite !elem_of_cons, elem_of_nil in Hk. by destruct Hk as [->|[->|[->|[]]]].
Qed.
