(* ===== verification/PreservationCapture.v ===== *)
(** Captures of a connection: the client's settings come back, whatever fails; and over
    a database that answers as SQLite does the captured document shows exactly its
    content, as the independent oracle of full_state_oracle.py checks it. *)
From stdpp Require Import sorting.
From S2P Require Import Prelude Json JsonParse JsonRoundTrip Binary64 Oracle Evidence Preservation PreservationFacts.

(** ** A client connection of documented behaviour

    Its transaction, its settings and the answer of every text it is asked; a
    factory is named. *)
Record Session := mkSession {
  active : bool;
  row_factory_ : string;
  text_factory_ : string;
  length_limit : Z;
  handler : bool;
}.

(** [None] and [str] are the factories the capture sets. *)
Definition sqlite (answer : string → Cursor) : Connection Session string := {|
  in_transaction := gets active;
  row_factory := gets row_factory_;
  text_factory := gets text_factory_;
  setlimit n := λ s, (Ok (length_limit s), mkSession (active s) (row_factory_ s) (text_factory_ s) n (handler s));
  set_row_factory f := modify (λ s, mkSession (active s) f (text_factory_ s) (length_limit s) (handler s));
  set_text_factory f := modify (λ s, mkSession (active s) (row_factory_ s) f (length_limit s) (handler s));
  set_progress_handler b := modify (λ s, mkSession (active s) (row_factory_ s) (text_factory_ s) (length_limit s) b);
  execute sql :=
    if bool_decide (sql = "BEGIN")
    then λ s, (Ok (mkCursor [] [] false), mkSession true (row_factory_ s) (text_factory_ s) (length_limit s) (handler s))
    else ret (answer sql);
  rollback := modify (λ s, mkSession false (row_factory_ s) (text_factory_ s) (length_limit s) (handler s));
|}.


(** ** Settings come back *)

Section Settings.
Context {W F : Type} (connection : Connection W F) (none_factory str_factory : F).
(** What a client sees of its connection: an open transaction, its factories and
    its length limit. *)
Record Client := mkClient { c_active : bool; c_row : F; c_text : F; c_limit : Z }.
Context (view : W → Client).

(** The documented effect of the settings; what a statement does to the connection,
    and what a failing setter leaves, is arbitrary. *)
Definition raised (e : exn) : Prop := ∃ x, e = External x.
Record lawful : Prop := {
  lw_in_transaction w : post (in_transaction connection) w (λ r w', view w' = view w ∧ match r with Ok b => b = c_active (view w) | Err e => raised e end);
  lw_row_factory w : post (row_factory connection) w (λ r w', view w' = view w ∧ match r with Ok f => f = c_row (view w) | Err e => raised e end);
  lw_text_factory w : post (text_factory connection) w (λ r w', view w' = view w ∧ match r with Ok f => f = c_text (view w) | Err e => raised e end);
  lw_setlimit n w : post (setlimit connection n) w (λ r w', match r with
    | Ok old => old = c_limit (view w) ∧ view w' = mkClient (c_active (view w)) (c_row (view w)) (c_text (view w)) n
    | Err e => view w' = view w ∧ raised e end);
  lw_set_row_factory f w : post (set_row_factory connection f) w (λ r w', match r with
    | Ok _ => view w' = mkClient (c_active (view w)) f (c_text (view w)) (c_limit (view w)) | Err e => raised e end);
  lw_set_text_factory f w : post (set_text_factory connection f) w (λ r w', match r with
    | Ok _ => view w' = mkClient (c_active (view w)) (c_row (view w)) f (c_limit (view w)) | Err e => raised e end);
  lw_set_progress_handler b w : post (set_progress_handler connection b) w (λ r w', match r with Ok _ => view w' = view w | Err e => raised e end);
  lw_rollback w : post (rollback connection) w (λ r w', match r with
    | Ok _ => view w' = mkClient false (c_row (view w)) (c_text (view w)) (c_limit (view w)) | Err e => raised e end);
}.
Context (laws : lawful).

Definition discard : exn := Refusal "synthetic_snapshot_cleanup_failed_discard_connection".

(** A cleanup step that reports no failure has taken effect. *)
Lemma attempt_post (m : M W unit) (P : W → Prop) w :
  post m w (λ r w', match r with Ok _ => P w' | Err e => raised e end) →
  post (attempt m) w (λ r w', match r with Ok failed => failed = false → P w' | Err e => raised e end).
Proof.
  intros Hm. unfold attempt. apply post_try, post_bind. eapply post_weaken; [exact Hm|].
  intros [[]|e] w' Hw; unfold post; simpl; [done|]. by case_bool_decide.
Qed.
Lemma step_post {A B} (m : M W A) (f : A → M W B) w (P : A → W → Prop) (Q : res B → W → Prop) :
  post m w (λ r w', match r with Ok a => P a w' | Err e => raised e end) → (∀ a w', P a w' → post (f a) w' Q) →
  (∀ e w', raised e → Q (Err e) w') → post (bind m f) w Q.
Proof. intros Hm Hf He. apply post_bind. eapply post_weaken; [exact Hm|]. intros [a|e] w' Hw; auto. Qed.

Lemma restore_post old_row old_text old_limit w :
  post (restore_client connection old_row old_text old_limit) w (λ r w', match r with
    | Ok _ => view w' = mkClient false old_row old_text old_limit
    | Err e => e = discard ∨ raised e end).
Proof.
  unfold restore_client.
  eapply step_post; [apply (attempt_post _ (λ w', c_active (view w') = false))| |by right].
  { eapply step_post; [eapply post_weaken; [apply lw_in_transaction, laws|]|..].
    - intros [b|e] w' [Hv Hr]; [|exact Hr]. exact (conj Hv Hr).
    - intros b w' [Hv ->]. rewrite <- Hv. destruct (c_active (view w')) eqn:E; simpl.
      + eapply post_weaken; [apply lw_rollback, laws|]. intros [[]|e] w2 H; [by rewrite H|done].
      + done.
    - done. }
  intros f1 w1 H1. eapply step_post; [apply (attempt_post _ (λ w', view w' = view w1)), lw_set_progress_handler, laws| |by right].
  intros f2 w2 H2. eapply step_post; [apply (attempt_post _ (λ w', view w' = mkClient (c_active (view w2)) (c_row (view w2)) (c_text (view w2)) old_limit))| |by right].
  { eapply step_post; [eapply post_weaken; [apply lw_setlimit, laws|]|..].
    - intros [n|e] w' Hw; [exact (proj2 Hw)|exact (proj2 Hw)].
    - intros n w' Hw. exact Hw.
    - done. }
  intros f3 w3 H3. eapply step_post; [apply (attempt_post _ (λ w', view w' = mkClient (c_active (view w3)) old_row (c_text (view w3)) (c_limit (view w3)))), lw_set_row_factory, laws| |by right].
  intros f4 w4 H4. eapply step_post; [apply (attempt_post _ (λ w', view w' = mkClient (c_active (view w4)) (c_row (view w4)) old_text (c_limit (view w4)))), lw_set_text_factory, laws| |by right].
  intros f5 w5 H5. unfold post, lift. simpl. destruct f1, f2, f3, f4, f5; simpl; try by left.
  rewrite H5, H4, H3, H2, H1 by done. done.
Qed.

Lemma finally_post {A} (m : M W A) (f : M W unit) w (Q : res A → W → Prop) :
  (∀ r w', post f w' (λ x w2, match x with Ok _ => Q r w2 | Err e => Q (Err e) w2 end)) → post (finally m f) w Q.
Proof.
  intros Hf. specialize (Hf (m w).1 (m w).2). unfold post, finally in *. destruct (f (m w).2) as [[[]|e] w2]; exact Hf.
Qed.

(** The settings read before anything is changed but the limit. *)
Lemma opened_post w :
  post (available (
    let* active := in_transaction connection in
    lift (require (negb active) "caller_transaction_active") ;*
    let* old_factory := row_factory connection in
    let* old_text_factory := text_factory connection in
    let* old_length_limit := setlimit connection MAX_BYTES in
    ret (old_factory, old_text_factory, old_length_limit))) w (λ r w', match r with
  | Ok old => view w = mkClient false old.1.1 old.1.2 old.2
  | Err _ => view w' = view w end).
Proof.
  unfold available. apply post_try. eapply post_weaken with (P := λ r w', match r with
    | Ok old => view w = mkClient false old.1.1 old.1.2 old.2 | Err _ => view w' = view w end).
  2:{ intros [old|e] w' H; [done|]. unfold post. by case_bool_decide. }
  apply post_bind. eapply post_weaken; [apply lw_in_transaction, laws|]. intros [active|e] w1 [V1 E1]; [|done].
  destruct active; [done|]. apply post_bind. unfold post at 1. cbn [lift negb require fst snd].
  apply post_bind. eapply post_weaken; [apply lw_row_factory, laws|]. intros [f|e] w2 [V2 E2]; [|congruence].
  apply post_bind. eapply post_weaken; [apply lw_text_factory, laws|]. intros [t|e] w3 [V3 E3]; [|congruence].
  apply post_bind. eapply post_weaken; [apply lw_setlimit, laws|]. intros [l|e] w4 [V4 E4]; [|congruence].
  unfold post. simpl. destruct (view w) as [a r x m] eqn:Ew. cbn in *. rewrite V3, V2, V1 in V4. rewrite V2, V1 in E3. rewrite V1 in E2. cbn in *. congruence.
Qed.

(** C21: Whatever the statements and the reads do or raise, a capture that answers or
    refuses - other than by discarding the connection - leaves the client's
    transaction state, factories and length limit as they were. *)
Theorem capture_restores run database observed_at_ms w :
  let r := capture_sqlite connection none_factory str_factory run database observed_at_ms w in
  match r.1 with
  | Ok _ => view r.2 = view w
  | Err (Refusal l) => Refusal l = discard ∨ view r.2 = view w
  | Err _ => True
  end.
Proof.
  simpl. change (post (capture_sqlite connection none_factory str_factory run database observed_at_ms) w (λ r w', match r with
    | Ok _ => view w' = view w | Err (Refusal l) => Refusal l = discard ∨ view w' = view w | Err _ => True end)).
  unfold capture_sqlite.
  do 3 (apply post_bind; unfold post at 1, lift at 1; cbn [fst snd];
        match goal with |- match require ?b ?l with _ => _ end => destruct b; cbn [require]; [|by right] end).
  apply post_bind. eapply post_weaken; [apply opened_post|]. intros [old|[l|l|l]] w1 Hw; [|right; exact Hw|exact I|exact I].
  cbn [lift fst snd] in Hw. eapply step_post; [apply lw_set_row_factory, laws| |by intros e w' [x ->]].
  intros [] w2 _. eapply step_post; [apply lw_set_text_factory, laws| |by intros e w' [x ->]]. intros [] w3 _.
  apply finally_post. intros r w'. eapply post_weaken; [apply restore_post|]. intros [[]|e] w4 H4.
  - destruct r as [v|[l|l|l]]; [congruence|right; congruence|exact I|exact I].
  - destruct H4 as [->|[x ->]]; [by left|exact I].
Qed.
End Settings.

(** ** The content comes back *)

(** A value as the [sqlite3] module hands it over, and a row of a page of all
    columns, with its rowid first where the table has one. *)
Definition py_cell (c : Cell) : pyval :=
  match c with CNull => PNone | CInteger z => PInt z | CReal b => PFloat b | CText s => PStr s | CBlob s => PBytes s end.
Definition py_row (r : Row) : list pyval := option_list (PInt <$> r.1) ++ map py_cell r.2.
Definition py_text (o : option string) : pyval := match o with Some s => PStr s | None => PNone end.

(** An entry of the table list: name, type, column count, without-rowid flag. *)
Record Listed := mkListed { l_name : string; l_type : string; l_ncol : Z; l_wr : Z; l_strict : Z }.
Definition listed_cells (l : Listed) : list pyval :=
  [PStr "main"; PStr (l_name l); PStr (l_type l); PInt (l_ncol l); PInt (l_wr l); PInt (l_strict l)].

Definition rows_query (n : string) (t : Table) : string :=
  if has_rowid t
  then match hidden_aliases (columns t) with alias :: _ => "SELECT " +:+ dquote +:+ alias +:+ dquote +:+ ",* FROM " +:+ quote n | [] => EmptyString end
  else "SELECT * FROM " +:+ quote n.

(** The documented answers over a database with this schema and these tables. *)
Record honest_answers (answer : string → Cursor) (db : Reference) (listed : list Listed) : Prop := {
  ha_listed : answer "PRAGMA main.table_list" = mkCursor [] (map listed_cells listed) false;
  ha_kinds : Forall (λ l, l_type l ∈ ["table"; "view"]) listed ∧ Z.of_nat (length listed) <= MAX_TABLES + 1 ∧ NoDup (map l_name listed);
  ha_schema : ∃ d, answer "SELECT type,name,tbl_name,sql FROM sqlite_schema ORDER BY type,name,tbl_name"
                   = mkCursor d (map (map py_text) (schema db)) false;
  ha_objects : Z.of_nat (length (schema db)) <= MAX_SCHEMA
    ∧ Forall (λ row, ∃ k n o sql, row = [Some k; Some n; Some o; sql] ∧ (k = "table" → virtual_sql sql = false)) (schema db);
  ha_names : map fst (tables db) = sort_texts (table_names (schema db)) ∧ NoDup (map fst (tables db))
    ∧ Z.of_nat (length (tables db)) <= MAX_TABLES;
  ha_storage n t : (n, t) ∈ tables db → ∃ l, l ∈ listed ∧ l_name l = n ∧ l_wr l = (if has_rowid t then 0 else 1);
  ha_columns n t : (n, t) ∈ tables db → answer ("SELECT * FROM " +:+ quote n +:+ " LIMIT 0") = mkCursor (columns t) [] false
    ∧ 0 < Z.of_nat (length (columns t)) <= 256 ∧ (has_rowid t = true → hidden_aliases (columns t) ≠ []);
  ha_rows n t : (n, t) ∈ tables db → (∃ d, answer (rows_query n t) = mkCursor d (map py_row (rows t)) false) ∧ wf_table t;
  ha_total : rows_total (tables db) <= MAX_ROWS;
}.

(** What is captured of a table, and of the database. *)
Definition canonical_records (t : Table) : list Row := sort_by (text_order (ordered_json (has_rowid t))) (rows t).
Definition captured_table (t : Table) : json :=
  JObj [("columns", JArr (map JStr (columns t))); ("rows", JArr (map row_json (canonical_records t)));
        ("rowids", if has_rowid t then JArr (map (λ r : Row, id_json r.1) (canonical_records t)) else JNull)].
Definition captured (db : Reference) (run database observed_at_ms : json) : json :=
  JObj [("mode", JStr "synthetic-offline"); ("run", run); ("database", database); ("observedAtMs", observed_at_ms);
        ("consistency", JStr "single-sqlite-read-transaction"); ("schema", schema_json (schema db));
        ("tables", JObj (map (λ nt, (nt.1, captured_table nt.2)) (tables db)))].

Lemma captured_shows t : wf_table t → shows t (captured_table t) (canonical_records t).
Proof.
  intros [Hc Hn]. unfold canonical_records, captured_table. split.
  - apply sort_by_perm.
  - by rewrite sort_by_perm.
  - intros H. rewrite sort_by_perm. by apply Hn.
  - apply in_order_sorted. rewrite map_map. apply text_order_sorted.
  - eexists. by split_and!.
Qed.

Section Content.
Context (answer : string → Cursor) (db : Reference) (listed : list Listed).
Context (honest : honest_answers answer db listed).
Context (run database observed_at_ms : json).
Notation result := (captured db run database observed_at_ms).
(** The document fits the evidence bound. *)
Definition fits_bound : Prop := json_len result <= MAX_BYTES.
Notation agrees := (Evidence.agrees fits_bound).

(** *** The storage census *)

Definition flags (ls : list Listed) : list (string * pyval) := map (λ l, (l_name l, PInt (l_wr l))) ls.

Lemma read_listed storage l : read_storage storage (listed_cells l) =
  (require (negb (bool_decide (PStr (l_type l) ∈ [PStr "virtual"; PStr "shadow"]))) "virtual_table_not_supported" ;?
   require (Z.of_nat (length storage) <=? MAX_TABLES) "table_bound_exceeded" ;?
   Ok (dict_set (l_name l) (PInt (l_wr l)) storage)).
Proof. done. Qed.
Lemma storage_scan : scan read_storage [] (answer "PRAGMA main.table_list") = Ok (flags listed).
Proof.
  rewrite (ha_listed _ _ _ honest). destruct (ha_kinds _ _ _ honest) as (Hk & Hl & Hn). unfold scan. cbn [fetched broken].
  assert (∀ pre l, listed = pre ++ l → foldR read_storage (flags pre) (map listed_cells l) = Ok (flags listed)) as H.
  { intros pre l. revert pre. induction l as [|x l IH]; intros pre E; [rewrite app_nil_r in E; by subst|].
    cbn [map foldR]. rewrite read_listed.
    rewrite E, Forall_app, Forall_cons in Hk. destruct Hk as (_ & Hx & _). rewrite E, length_app in Hl. cbn [length] in Hl.
    rewrite bool_decide_false.
    2:{ rewrite !elem_of_cons, elem_of_nil in Hx. rewrite !elem_of_cons, elem_of_nil. intros Hv. destruct Hx as [Hx|[Hx|[]]]; rewrite Hx in Hv; by destruct Hv as [|[|]]. }
    cbn [negb require rbind]. rewrite (proj2 (Z.leb_le _ _)) by (unfold flags; rewrite length_map; lia). cbn [require rbind].
    assert (dict_set (l_name x) (PInt (l_wr x)) (flags pre) = flags (pre ++ [x])) as ->.
    { unfold flags. rewrite map_app. apply dict_set_new. rewrite map_map. cbn [fst].
      rewrite E, map_app in Hn. cbn [map] in Hn. apply NoDup_app in Hn as (_ & Hd & _). intros Hx'. apply (Hd _ Hx'). by left. }
    apply IH. by rewrite <- (assoc_L (++)). }
  assert (foldR read_storage [] (map listed_cells listed) = Ok (flags listed)) as -> by exact (H [] listed eq_refl). done.
Qed.

Lemma storage_flag n t : (n, t) ∈ tables db → dict_get n (flags listed) = Some (PInt (if has_rowid t then 0 else 1)).
Proof.
  intros Hin. destruct (ha_storage _ _ _ honest n t Hin) as (l & Hl & <- & <-). destruct (ha_kinds _ _ _ honest) as (_ & _ & Hn).
  apply dict_get_elem; [unfold flags; by rewrite map_map|]. apply list_elem_of_fmap. by exists l.
Qed.

(** *** The bytes of the evidence *)

Definition enc_row (rid : bool) (r : Row) : list json * option Z := (map cell_json r.2, if rid then r.1 else None).
Definition row_bytes (rid : bool) (r : Row) : Z := json_len (row_json r) + (if rid then json_len (id_json r.1) else 0).
Definition rows_bytes (rid : bool) (l : list Row) : Z := foldr (λ r n, row_bytes rid r + n) 0 l.
Definition table_bytes (nt : string * Table) : Z := rows_bytes (has_rowid nt.2) (rows nt.2).
Definition tables_bytes (l : list (string * Table)) : Z := foldr (λ nt n, table_bytes nt + n) 0 l.
Definition schema_row_bytes (r : list (option string)) : Z := json_len (JArr (map (JOpt JStr) r)).
Definition schema_bytes (l : list (list (option string))) : Z := foldr (λ r n, schema_row_bytes r + n) 0 l.
Definition show_table (nt : string * Table) : string * json := (nt.1, captured_table nt.2).

Lemma row_bytes_nonneg rid r : 0 <= row_bytes rid r.
Proof. unfold row_bytes. pose proof (json_len_nonneg (row_json r)). pose proof (json_len_nonneg (id_json r.1)). destruct rid; lia. Qed.
Lemma rows_bytes_nonneg rid l : 0 <= rows_bytes rid l.
Proof. apply sum_nonneg, row_bytes_nonneg. Qed.
Lemma schema_bytes_nonneg l : 0 <= schema_bytes l.
Proof. apply sum_nonneg. intros r. apply json_len_nonneg. Qed.
Lemma tables_bytes_nonneg l : 0 <= tables_bytes l.
Proof. apply sum_nonneg. intros nt. apply rows_bytes_nonneg. Qed.

Lemma arr_bytes {A} (f : A → json) l : foldr (λ x n, json_len (f x) + n) 0 l <= json_len (JArr (map f l)).
Proof.
  rewrite json_len_arr. assert (foldr (λ j n, json_len j + n) 0 (map f l) = foldr (λ x n, json_len (f x) + n) 0 l) as ->; [|lia].
  induction l as [|x l IH]; [done|]. simpl. by rewrite IH.
Qed.
Lemma table_bytes_shown nt : table_bytes nt + 7 <= json_len (captured_table nt.2).
Proof.
  destruct nt as [n t]. unfold table_bytes. cbn [snd]. trans (rows_bytes (has_rowid t) (canonical_records t) + 7).
  { apply Z.add_le_mono_r. unfold rows_bytes. rewrite (sum_perm (row_bytes (has_rowid t)) (canonical_records t) (rows t)); [done|]. apply sort_by_perm. }
  unfold captured_table. rewrite json_len_members. cbn [foldr length pred]. unfold member_len. cbn [fst snd].
  pose proof (json_len_nonneg (JArr (map JStr (columns t)))). pose proof (arr_bytes row_json (canonical_records t)) as H1.
  pose proof (arr_bytes (λ r : Row, id_json r.1) (canonical_records t)) as H2. cbn beta in H2.
  pose proof (slen_nonneg (quoted "columns")). pose proof (slen_nonneg (quoted "rows")). pose proof (slen_nonneg (quoted "rowids")).
  assert (rows_bytes (has_rowid t) (canonical_records t) <= foldr (λ r n, json_len (row_json r) + n) 0 (canonical_records t)
    + (if has_rowid t then foldr (λ r : Row, λ n, json_len (id_json r.1) + n) 0 (canonical_records t) else 0)).
  { clear. unfold rows_bytes. induction (canonical_records t) as [|r l IH]; [by destruct (has_rowid t)|].
    cbn [foldr]. unfold row_bytes at 1. destruct (has_rowid t); lia. }
  pose proof (json_len_nonneg JNull). destruct (has_rowid t); lia.
Qed.
Lemma tables_bytes_shown l : tables_bytes l <= json_len (JObj (map show_table l)).
Proof.
  rewrite json_len_members. assert (tables_bytes l <= foldr (λ kv n, member_len kv + n) 0 (map show_table l)); [|lia].
  induction l as [|nt l IH]; [done|]. cbn [map foldr tables_bytes]. fold (tables_bytes l). pose proof (table_bytes_shown nt).
  unfold member_len at 1. unfold show_table at 1 2. cbn [fst snd]. pose proof (slen_nonneg (quoted nt.1)). unfold tables_bytes in *. lia.
Qed.

Lemma bytes_fit : fits_bound → schema_bytes (schema db) + tables_bytes (tables db) <= MAX_BYTES
  ∧ json_len (JObj (map show_table (tables db))) <= MAX_BYTES.
Proof.
  unfold fits_bound, captured. change (map (λ nt, (nt.1, captured_table nt.2)) (tables db)) with (map show_table (tables db)).
  rewrite json_len_members. cbn [foldr]. unfold member_len. cbn [fst snd]. intros H.
  pose proof (tables_bytes_shown (tables db)). pose proof (arr_bytes (λ r, JArr (map (JOpt JStr) r)) (schema db)) as Hs.
  fold (schema_json (schema db)) in Hs. change (foldr _ 0 (schema db)) with (schema_bytes (schema db)) in Hs.
  repeat match goal with H : context [slen (quoted ?k)] |- _ => lazymatch goal with Hk : 0 <= slen (quoted k) |- _ => fail | _ => pose proof (slen_nonneg (quoted k)) end end.
  repeat match goal with H : context [json_len ?k] |- _ => lazymatch goal with Hk : 0 <= json_len k |- _ => fail | _ => pose proof (json_len_nonneg k) end end.
  lia.
Qed.

(** *** The loops *)

Lemma text_cells row : mapR text_cell (map py_text row) = Ok row.
Proof. induction row as [|[s|] row IH]; [done|..]; cbn [map mapR py_text text_cell rbind]; by rewrite IH. Qed.
Lemma schema_finite row : all_finite (JArr (map (JOpt JStr) row)) = true.
Proof. cbn [all_finite]. by induction row as [|[s|] row IH]. Qed.

Lemma schema_step pre row k : schema db = pre ++ row :: k →
  agrees (read_schema (pre, schema_bytes pre) (map py_text row)) (pre ++ [row], schema_bytes (pre ++ [row])).
Proof.
  intros E. destruct (ha_objects _ _ _ honest) as [Hlen Hrows]. rewrite E in Hlen, Hrows. rewrite length_app in Hlen. cbn [length] in Hlen.
  apply Forall_app in Hrows as [_ (ty & n & o & sql & Hrow & Hv)%Forall_inv].
  assert (fits_bound → schema_bytes (pre ++ [row]) <= MAX_BYTES) as Hb.
  { intros [Hf _]%bytes_fit. rewrite E in Hf. pose proof (tables_bytes_nonneg (tables db)). pose proof (schema_bytes_nonneg k).
    unfold schema_bytes in *. rewrite !(sum_app schema_row_bytes) in *. cbn [foldr] in *. lia. }
  assert (schema_bytes (pre ++ [row]) = schema_bytes pre + schema_row_bytes row) as Es
    by (unfold schema_bytes; rewrite (sum_app schema_row_bytes); cbn [foldr]; lia).
  unfold read_schema. rewrite text_cells. cbn [rbind fst snd]. apply agrees_require; [lia|].
  eapply agrees_bind.
  { apply agrees_json; [apply schema_finite|]. intros Hs. specialize (Hb Hs). pose proof (schema_bytes_nonneg pre).
    change (json_len (JArr (map (JOpt JStr) row))) with (schema_row_bytes row). lia. }
  change (slen (dumps (JArr (map (JOpt JStr) row)))) with (schema_row_bytes row). rewrite <- Es.
  eapply agrees_bind; [by apply agrees_bound|]. rewrite Hrow. cbn [cell_or_none nth_error rbind].
  assert ((if bool_decide (Some ty = Some "table") then Ok sql else Ok None) = Ok (if bool_decide (Some ty = Some "table") then sql else None)) as ->
    by by case_bool_decide.
  cbn [rbind]. apply agrees_require; [|by left]. case_bool_decide as Hty; [|done]. by rewrite Hv by congruence.
Qed.

Lemma schema_scan d : agrees (scan read_schema ([], 0) (mkCursor d (map (map py_text) (schema db)) false)) (schema db, schema_bytes (schema db)).
Proof.
  unfold scan. cbn [fetched broken].
  assert (∀ k pre, schema db = pre ++ k →
    agrees (foldR read_schema (pre, schema_bytes pre) (map (map py_text) k)) (schema db, schema_bytes (schema db))) as H.
  { induction k as [|row k IH]; intros pre E; [rewrite app_nil_r in E; subst; by left|]. cbn [map foldR].
    eapply agrees_bind; [by eapply schema_step|]. apply IH. by rewrite <- (assoc_L (++)). }
  eapply agrees_bind; [by apply (H _ [])|by left].
Qed.

Lemma cells_read cells : Forall cell_ok cells → mapR _cell (map py_cell cells) = Ok (map cell_json cells).
Proof.
  induction 1 as [|c cells Hc _ IH]; [done|]. cbn [map mapR]. rewrite IH.
  assert (_cell (py_cell c) = Ok (cell_json c)) as ->; [|done]. destruct c as [|z|b|s|s]; [reflexivity|reflexivity| |reflexivity|reflexivity].
  destruct Hc as [_ Hf]. cbn [py_cell _cell cell_json]. by rewrite Hf.
Qed.

Lemma record_step rid (r : Row) acc total bytes :
  id_ok rid r.1 → Forall cell_ok r.2 → 0 <= bytes → total + 1 <= MAX_ROWS → (fits_bound → bytes + row_bytes rid r <= MAX_BYTES) →
  agrees (Preservation.read_record rid (mkScan acc total bytes) (py_row r))
    (mkScan (acc ++ [enc_row rid r]) (total + 1) (bytes + row_bytes rid r)).
Proof.
  intros Hid Hc Hp Ht Hb. unfold Preservation.read_record. cbn [s_total s_bytes s_rows]. apply agrees_require; [lia|].
  destruct r as [o cells]. cbn [fst snd] in *. unfold row_bytes, enc_row in *. cbn [fst snd] in *. change (row_json (o, cells)) with (JArr (map cell_json cells)) in *.
  pose proof (json_len_nonneg (id_json o)). pose proof (json_len_nonneg (JArr (map cell_json cells))).
  assert (all_finite (JArr (map cell_json cells)) = true) as Hfin by apply (row_finite (o, cells)).
  destruct o as [z|]; [destruct Hid as [-> _]|cbn in Hid; subst rid];
    [change (py_row (Some z, cells)) with (PInt z :: map py_cell cells)|change (py_row (None, cells)) with (map py_cell cells)];
    cbn [cell_at nth_error rbind tail].
  - rewrite cells_read by done. cbn [rbind]. eapply agrees_bind; [apply agrees_json; [done|intros Hs; specialize (Hb Hs); lia]|].
    eapply agrees_bind; [eapply agrees_bind; [apply agrees_json; [done|intros Hs; specialize (Hb Hs); cbn [id_json] in *; lia]|by left]|].
    change (slen (dumps (JArr (map cell_json cells)))) with (json_len (JArr (map cell_json cells))).
    change (slen (dumps (JInt z))) with (json_len (id_json (Some z))).
    rewrite <- Z.add_assoc. eapply agrees_bind; [by apply agrees_bound|by left].
  - rewrite cells_read by done. cbn [rbind]. eapply agrees_bind; [apply agrees_json; [done|intros Hs; specialize (Hb Hs); lia]|].
    change (slen (dumps (JArr (map cell_json cells)))) with (json_len (JArr (map cell_json cells))).
    rewrite <- Z.add_assoc. eapply agrees_bind; [by apply agrees_bound|by left].
Qed.

Lemma records_scan rid d l total bytes :
  Forall (λ r : Row, id_ok rid r.1 ∧ Forall cell_ok r.2) l → 0 <= bytes → total + Z.of_nat (length l) <= MAX_ROWS →
  (fits_bound → bytes + rows_bytes rid l <= MAX_BYTES) →
  agrees (scan (Preservation.read_record rid) (mkScan [] total bytes) (mkCursor d (map py_row l) false))
    (mkScan (map (enc_row rid) l) (total + Z.of_nat (length l)) (bytes + rows_bytes rid l)).
Proof.
  unfold scan. cbn [fetched broken]. intros Hl Hp Ht Hb. eapply agrees_bind; [|by left].
  change (map (enc_row rid) l) with ([] ++ map (enc_row rid) l). generalize (@nil (list json * option Z)) as acc.
  revert total bytes Hp Ht Hb. induction Hl as [|r l [Hid Hc] _ IH]; intros total bytes Hp Ht Hb acc.
  - cbn. rewrite app_nil_r, !Z.add_0_r. by left.
  - pose proof (row_bytes_nonneg rid r). pose proof (rows_bytes_nonneg rid l).
    assert (rows_bytes rid (r :: l) = row_bytes rid r + rows_bytes rid l) as Er by done. rewrite Er in *. cbn [map foldR length] in *.
    eapply agrees_bind; [apply record_step; [done|done|done|lia|intros Hs; specialize (Hb Hs); lia]|].
    specialize (IH (total + 1) (bytes + row_bytes rid r) ltac:(lia) ltac:(lia) ltac:(intros Hs; specialize (Hb Hs); lia) (acc ++ [enc_row rid r])).
    rewrite <- (assoc_L (++)) in IH. cbn [app] in IH.
    replace (total + Z.of_nat (S (length l))) with (total + 1 + Z.of_nat (length l)) by lia. by rewrite Z.add_assoc.
Qed.

(** *** The canonical rows *)

Definition found_rows (t : Table) : list (list json) := map (λ r : Row, map cell_json r.2) (canonical_records t).
Definition found_ids (t : Table) : json := if has_rowid t then JArr (map (λ r : Row, id_json r.1) (canonical_records t)) else JNull.
Lemma found_table t : JObj [("columns", JArr (map JStr (columns t))); ("rows", JArr (map JArr (found_rows t))); ("rowids", found_ids t)] = captured_table t.
Proof. unfold captured_table, found_rows. by rewrite map_map. Qed.

Lemma table_fits nt : nt ∈ tables db → fits_bound → table_bytes nt + 7 <= MAX_BYTES.
Proof.
  intros Hin [_ Hb]%bytes_fit. pose proof (table_bytes_shown nt).
  pose proof (json_len_member nt.1 (captured_table nt.2) (map show_table (tables db))) as Hm.
  specialize (Hm ltac:(apply list_elem_of_fmap; by exists nt)). lia.
Qed.
Lemma row_fits nt r : nt ∈ tables db → r ∈ rows nt.2 → fits_bound → json_len (ordered_json (has_rowid nt.2) r) <= MAX_BYTES.
Proof.
  intros Hin Hr Hs. pose proof (table_fits nt Hin Hs) as Hb. unfold table_bytes in Hb.
  assert (row_bytes (has_rowid nt.2) r <= rows_bytes (has_rowid nt.2) (rows nt.2)).
  { apply list_elem_of_split in Hr as (l1 & l2 & ->). unfold rows_bytes. rewrite (sum_app (row_bytes _)). cbn [foldr].
    pose proof (rows_bytes_nonneg (has_rowid nt.2) l1). pose proof (rows_bytes_nonneg (has_rowid nt.2) l2). unfold rows_bytes in *. lia. }
  unfold row_bytes, ordered_json in *. destruct (has_rowid nt.2); [|lia]. rewrite json_len_arr. cbn [foldr length pred]. lia.
Qed.

Lemma order_back nt : nt ∈ tables db →
  agrees (canonical_order (has_rowid nt.2) (map (enc_row (has_rowid nt.2)) (rows nt.2))) (found_rows nt.2, found_ids nt.2).
Proof.
  intros Hin. pose proof (λ r Hr, row_fits nt r Hin Hr) as Hb. unfold canonical_order, found_ids, found_rows, canonical_records.
  destruct (has_rowid nt.2).
  - eapply agrees_bind.
    { apply agrees_sorted. intros x (r & -> & Hr)%list_elem_of_fmap. split; [apply (ordered_finite true r)|]. by apply Hb. }
    left. rewrite sort_by_map, !map_map. done.
  - rewrite map_map. cbn [enc_row fst]. eapply agrees_bind.
    { apply agrees_sorted. intros x (r & -> & Hr)%list_elem_of_fmap. split; [apply (row_finite r)|]. by apply Hb. }
    left. rewrite sort_by_map. done.
Qed.

(** *** The statements

    A statement that leaves the session and agrees with a value. *)
Definition reads {A} (m : M Session A) (x : A) : Prop := ∀ s, ∃ r, m s = (r, s) ∧ agrees r x.
Notation connection := (sqlite answer).

Lemma reads_ret {A} (x : A) : reads (ret x) x.
Proof. intros s. eexists. split; [done|by left]. Qed.
Lemma reads_bind {A B} (m : M Session A) (f : A → M Session B) x y : reads m x → reads (f x) y → reads (bind m f) y.
Proof.
  intros Hm Hf s. destruct (Hm s) as (r & E & Hr). unfold bind. rewrite E. destruct Hr as [->|(e & -> & He)]; [apply Hf|].
  eexists. split; [done|]. right. by exists e.
Qed.
Lemma reads_lift {A} (r : res A) x : agrees r x → reads (lift r) x.
Proof. intros Hr s. by exists r. Qed.
Lemma reads_require {B} b label (f : unit → M Session B) y : b = true → reads (f tt) y → reads (bind (lift (require b label)) f) y.
Proof. intros ->. apply reads_bind, reads_lift. by left. Qed.
Lemma reads_execute sql c : sql ≠ "BEGIN" → answer sql = c → reads (execute connection sql) c.
Proof. intros Hs <- s. exists (Ok (answer sql)). split; [|by left]. unfold execute, sqlite. by rewrite bool_decide_false. Qed.

Lemma shown_finite l : all_finite (JObj (map show_table l)) = true.
Proof.
  cbn [all_finite]. apply forallb_forall. intros kv ([n t] & -> & _)%list_elem_of_In%list_elem_of_fmap. unfold show_table, captured_table.
  cbn [snd all_finite forallb]. rewrite andb_true_r, !andb_true_iff. split_and!.
  - apply forallb_forall. by intros j (x & -> & _)%list_elem_of_In%list_elem_of_fmap.
  - apply forallb_forall. intros j (x & -> & _)%list_elem_of_In%list_elem_of_fmap. apply row_finite.
  - destruct (has_rowid t); [|done]. apply forallb_forall. intros j (x & -> & _)%list_elem_of_In%list_elem_of_fmap. by destruct x.1.
Qed.

Definition progress (l : list (string * Table)) : Preservation.Progress :=
  mkProgress (map show_table l) (rows_total l) (schema_bytes (schema db) + tables_bytes l).

Lemma reads_table l nt k : tables db = l ++ nt :: k →
  reads (read_table connection (flags listed) (progress l) nt.1) (progress (l ++ [nt])).
Proof.
  intros E. destruct nt as [n t]. assert ((n, t) ∈ tables db) as Hin by (rewrite E; set_solver).
  destruct (ha_columns _ _ _ honest n t Hin) as (Hc & Hcol & Hal). destruct (ha_rows _ _ _ honest n t Hin) as ([d Hrows] & [Hwf _]).
  pose proof (ha_total _ _ _ honest) as Htot. destruct (ha_names _ _ _ honest) as (_ & Hnd & _).
  assert (∀ f : string * Table → Z, (∀ x, 0 <= f x) → foldr (λ x n, f x + n) 0 l + f (n, t) <= foldr (λ x n, f x + n) 0 (tables db)) as Hsum.
  { intros f Hf. rewrite E, (sum_app f). cbn [foldr]. pose proof (sum_nonneg f k Hf). lia. }
  pose proof (Hsum (λ nt, Z.of_nat (length (rows nt.2))) ltac:(intros; cbn beta; lia)) as Hr. cbn [snd] in Hr. fold (rows_total l) (rows_total (tables db)) in Hr.
  pose proof (Hsum table_bytes ltac:(intros; apply rows_bytes_nonneg)) as Hb. fold (tables_bytes l) (tables_bytes (tables db)) in Hb.
  unfold read_table. cbn [fst]. eapply reads_bind; [by apply reads_execute|]. cbn [description].
  apply reads_require; [by rewrite (proj2 (Z.ltb_lt _ _)), (proj2 (Z.leb_le _ _)) by lia|].
  rewrite (storage_flag n t Hin). apply (reads_bind _ _ (negb (has_rowid t))); [apply reads_lift; left; by destruct (has_rowid t)|].
  rewrite negb_involutive. unfold rows_query in Hrows.
  apply (reads_bind _ _ (mkCursor d (map py_row (rows t)) false)).
  { destruct (has_rowid t); [|by apply reads_execute]. specialize (Hal eq_refl). destruct (hidden_aliases (columns t)); [done|].
    by apply reads_execute. }
  eapply reads_bind.
  { apply reads_lift, records_scan.
    - eapply Forall_impl; [exact Hwf|]. intros r (H1 & H2 & _). by split.
    - cbn [p_bytes progress]. pose proof (schema_bytes_nonneg (schema db)). pose proof (tables_bytes_nonneg l). lia.
    - cbn [p_total progress]. lia.
    - intros [Hs _]%bytes_fit. cbn [p_bytes progress]. unfold table_bytes in Hb. cbn [snd] in Hb. lia. }
  cbn [s_rows s_total s_bytes]. eapply reads_bind; [apply reads_lift; exact (order_back (n, t) Hin)|]. cbn [fst snd].
  rewrite found_table. cbn [p_tables progress].
  assert (dict_set n (captured_table t) (map show_table l) = map show_table (l ++ [(n, t)])) as ->.
  { rewrite map_app. apply dict_set_new. rewrite map_map. cbn [show_table fst]. rewrite E, map_app in Hnd. cbn [map fst] in Hnd.
    apply NoDup_app in Hnd as (_ & Hd & _). intros Hx. apply (Hd _ Hx). by left. }
  eapply reads_bind.
  { apply reads_lift, agrees_json; [apply shown_finite|]. intros [_ Hs]%bytes_fit.
    rewrite E, (app_assoc l [(n, t)] k : l ++ (n, t) :: k = (l ++ [(n, t)]) ++ k), (map_app show_table (l ++ [(n, t)])) in Hs. pose proof (json_len_prefix (map show_table (l ++ [(n, t)])) (map show_table k)). lia. }
  assert (rows_total (l ++ [(n, t)]) = rows_total l + Z.of_nat (length (rows t))) as Et
    by (unfold rows_total; rewrite (sum_app (λ nt : string * Table, Z.of_nat (length (rows nt.2)))); cbn [foldr snd]; lia).
  assert (tables_bytes (l ++ [(n, t)]) = tables_bytes l + rows_bytes (has_rowid t) (rows t)) as Eb
    by (unfold tables_bytes; rewrite (sum_app table_bytes); unfold table_bytes at 2; cbn [foldr snd]; lia).
  unfold progress. rewrite Et, Eb, Z.add_assoc. apply reads_ret.
Qed.

Lemma reads_tables k : ∀ l, tables db = l ++ k → reads (read_tables connection (flags listed) (progress l) (map fst k)) (progress (tables db)).
Proof.
  induction k as [|nt k IH]; intros l E; cbn [map read_tables]; [rewrite app_nil_r in E; rewrite E; apply reads_ret|].
  eapply reads_bind; [by eapply reads_table|]. apply IH. by rewrite <- (assoc_L (++)).
Qed.

Lemma names_read l : Forall (λ row, ∃ k n o sql, row = [Some k; Some n; Some o; sql]) l →
  mapR name_of (filter (λ r : list (option string), head r = Some (Some "table")) l) = Ok (table_names l).
Proof.
  induction 1 as [|row l (k & n & o & sql & ->) _ IH]; [done|]. rewrite filter_cons. cbn [head table_names omap list_omap].
  destruct (decide (Some (Some k) = Some (Some "table"))) as [E|E].
  - injection E as ->. destruct (decide ("table" = "table")); [|done]. cbn [mapR name_of rbind]. by rewrite IH.
  - destruct (decide (k = "table")) as [->|_]; [done|]. exact IH.
Qed.
Lemma names_length : length (table_names (schema db)) = length (tables db).
Proof. destruct (ha_names _ _ _ honest) as (H & _ & _). rewrite <- (length_map fst (tables db)), H. by rewrite sort_texts_perm. Qed.

Lemma captured_finite : all_finite run = true → all_finite database = true → all_finite observed_at_ms = true → all_finite result = true.
Proof.
  intros Hr Hd Ho. unfold captured. change (map (λ nt, (nt.1, captured_table nt.2)) (tables db)) with (map show_table (tables db)).
  pose proof (shown_finite (tables db)) as Ht. cbn [all_finite] in Ht.
  assert (all_finite (schema_json (schema db)) = true) as Hs.
  { unfold schema_json. cbn [all_finite]. apply forallb_forall. intros j (x & -> & _)%list_elem_of_In%list_elem_of_fmap. apply schema_finite. }
  cbn [all_finite forallb snd]. by rewrite Hr, Hd, Ho, Hs, Ht.
Qed.

Lemma known_then {A B} (m : M Session A) (f : A → M Session B) s a s1 s2 y :
  m s = (Ok a, s1) → (∃ r, f a s1 = (r, s2) ∧ agrees r y) → ∃ r, bind m f s = (r, s2) ∧ agrees r y.
Proof. intros E H. unfold bind. by rewrite E. Qed.

Definition began (s : Session) : Session := mkSession true (row_factory_ s) (text_factory_ s) (length_limit s) true.
Lemma snapshot_read s : all_finite run = true → all_finite database = true → all_finite observed_at_ms = true →
  ∃ r, read_snapshot connection run database observed_at_ms s = (r, began s) ∧ agrees r result.
Proof.
  intros Hr Hd Ho. destruct (ha_schema _ _ _ honest) as [d Hs]. destruct (ha_names _ _ _ honest) as (Hn & _ & Hl).
  unfold read_snapshot. eapply known_then; [reflexivity|]. eapply known_then; [reflexivity|].
  refine (reads_bind _ _ _ _ (reads_execute _ _ _ eq_refl) _ _); [done|].
  eapply reads_bind; [apply reads_lift; left; apply storage_scan|].
  eapply reads_bind; [by apply reads_execute|]. eapply reads_bind; [apply reads_lift, schema_scan|]. cbn [fst snd].
  eapply reads_bind.
  { apply reads_lift. left. apply names_read. eapply Forall_impl; [apply (ha_objects _ _ _ honest)|].
    intros row (k & n & o & sql & -> & _). by exists k, n, o, sql. }
  apply reads_require; [apply Z.leb_le; rewrite names_length; exact Hl|]. rewrite <- Hn.
  eapply reads_bind.
  { pose proof (reads_tables (tables db) [] eq_refl) as H. unfold progress at 1 in H. cbn [map rows_total tables_bytes foldr] in H. rewrite Z.add_0_r in H. exact H. }
  cbn [p_tables progress]. eapply reads_bind; [apply reads_lift, agrees_json; [by apply captured_finite|by intros H]|]. apply reads_ret.
Qed.

Lemma captured_checked : check db result = Ok tt.
Proof.
  destruct (ha_names _ _ _ honest) as (_ & Hn & _). apply check_shows. unfold captured. do 2 eexists. split_and!; [done|done|done|by apply same_keys_map|].
  intros n t Hin. exists (captured_table t), (canonical_records t). split; [by apply dict_get_map|]. by apply captured_shows, (ha_rows _ _ _ honest n t Hin).
Qed.

End Content.
