(* ===== verification/PreservationExample.v ===== *)
(** The synthetic example of scripts/fixed_origin_preservation.py, over a
    connection of documented behaviour, and the comparator run on it. *)
From S2P Require Import Prelude Json JsonParse Binary64 Oracle Evidence Preservation PreservationFacts PreservationCapture.

(** ** [synthetic_example] *)

Section Example_.
Context (sha256 : string → string).

(** The in-memory database the script of [synthetic_example] creates. *)
Definition gates_sql : string := "CREATE TABLE flickr_write_gates(scope TEXT,scope_id TEXT,enabled INTEGER,revision INTEGER)".
Definition facts_sql : string := "CREATE TABLE synthetic_facts(id TEXT PRIMARY KEY,body BLOB)".
Definition listed_row (name : string) (ncol : Z) : list pyval :=
  [PStr "main"; PStr name; PStr "table"; PInt ncol; PInt 0; PInt 0].
Definition synthetic_answers : list (string * Cursor) :=
  [("PRAGMA main.table_list",
    mkCursor [] [listed_row "synthetic_facts" 2; listed_row "flickr_write_gates" 4; listed_row "sqlite_schema" 5] false);
   ("SELECT type,name,tbl_name,sql FROM sqlite_schema ORDER BY type,name,tbl_name",
    mkCursor [] [[PStr "index"; PStr "sqlite_autoindex_synthetic_facts_1"; PStr "synthetic_facts"; PNone];
                 [PStr "table"; PStr "flickr_write_gates"; PStr "flickr_write_gates"; PStr gates_sql];
                 [PStr "table"; PStr "synthetic_facts"; PStr "synthetic_facts"; PStr facts_sql]] false);
   ("SELECT * FROM " +:+ quote "flickr_write_gates" +:+ " LIMIT 0", mkCursor ["scope"; "scope_id"; "enabled"; "revision"] [] false);
   ("SELECT " +:+ dquote +:+ "rowid" +:+ dquote +:+ ",* FROM " +:+ quote "flickr_write_gates",
    mkCursor [] [[PInt 1; PStr "deployment"; PStr "*"; PInt 0; PInt 7];
                 [PInt 2; PStr "user"; PStr "synthetic-user"; PInt 0; PInt 11]] false);
   ("SELECT * FROM " +:+ quote "synthetic_facts" +:+ " LIMIT 0", mkCursor ["id"; "body"] [] false);
   ("SELECT " +:+ dquote +:+ "rowid" +:+ dquote +:+ ",* FROM " +:+ quote "synthetic_facts",
    mkCursor [] [[PInt 1; PStr "synthetic-fact"; PBytes (String (chr 0) (String (chr 17) (String (chr 34) EmptyString)))]] false)].
Definition synthetic_db : Connection Session string :=
  sqlite (λ sql, match dict_get sql synthetic_answers with Some c => c | None => mkCursor [] [] true end).
Definition connected : Session := mkSession false "None" "str" 1000000000 false.

Definition run : string := "aaaaaaaaaaaaaaaaaaaaaaaaaaaaaaaa".
Definition start : Z := 1000000.
Definition digest : json := JStr (sha256 "synthetic-only").
Definition snapshot : res json :=
  (capture_sqlite synthetic_db "None" "str" (JStr run) (JStr "synthetic-production-db") (JInt start) connected).1.
Definition resource (kind : string) : list (string * json) :=
  [("kind", JStr kind); ("identity", JStr ("synthetic-" +:+ kind +:+ "-" +:+ run)); ("run", JStr run)].

Definition baseline_of (snapshot : json) : json :=
  JObj [("mode", JStr "synthetic-offline"); ("run", JStr run); ("observedAtMs", JInt start); ("expiresAtMs", JInt (start + LIFETIME_MS));
    ("admissionRevision", JInt 1); ("captureIndexSha256", JStr INDEX_SHA256); ("moduleSha256", JStr MODULE_SHA256);
    ("inventory", JObj (map (λ n, (n, digest)) (sort_texts FILES)));
    ("continuity", JObj [("retainedVersion", JStr "synthetic-retained-version");
       ("weights", JObj [("synthetic-retained-version", JInt 100)]); ("bindingsSha256", digest); ("runtimeSha256", digest);
       ("edgeSha256", digest); ("d1Identity", JStr "synthetic-production-db"); ("doLifecycleSha256", digest);
       ("assetsSha256", digest); ("secretReferencesSha256", digest);
       ("capabilities", JObj [("intake", JBool false); ("dispatch", JBool false); ("thumbnail", JBool false)]);
       ("backgroundQuiescenceSha256", digest)]);
    ("gates", JArr [JObj [("scope", JStr "deployment"); ("scope_id", JStr "*"); ("enabled", JInt 0); ("revision", JInt 7)];
                    JObj [("scope", JStr "user"); ("scope_id", JStr "synthetic-user"); ("enabled", JInt 0); ("revision", JInt 11)]]);
    ("database", snapshot);
    ("ordinaryReads", JArr (map (λ cs, JObj [("check", JStr cs.1); ("run", JStr run); ("moduleSha256", JStr MODULE_SHA256);
       ("status", JInt cs.2); ("boundedNoData", JBool true); ("noMutation", JBool true); ("noUpstream", JBool true)])
       (combine READ_CHECKS [401; 404; 404])));
    ("ownedResources", JArr (map (λ k, JObj (resource k)) RESOURCE_KINDS))].

(** [value["observedAtMs"] = value["database"]["observedAtMs"] = start + offset] *)
Definition observed_at (offset : Z) (baseline : json) : json := at_start (JInt (start + offset)) baseline.

Definition receipt (kind : string) : json :=
  JObj (resource kind ++ [("createdAcknowledged", JBool true); ("operationLatched", JBool true);
    ("deleteAcknowledged", JBool true); ("absentVerified", JBool true); ("observedAtMs", JInt (start + 500))]).
Definition cleanup : json :=
  JObj [("mode", JStr "synthetic-offline"); ("run", JStr run); ("completedAtMs", JInt (start + 600));
    ("stop", JObj [("run", JStr run); ("observedAtMs", JInt (start + 200)); ("enabled", JBool false); ("revision", JInt 2);
       ("acknowledged", JBool true); ("independentReadback", JBool true)]);
    ("restore", JObj [("run", JStr run); ("target", JStr "synthetic-retained-version"); ("force", JBool false);
       ("latched", JBool true); ("acknowledged", JBool true); ("independentReadback", JBool true); ("observedAtMs", JInt (start + 300))]);
    ("resources", JArr (map receipt RESOURCE_KINDS)); ("local", JArr (map receipt LOCAL_KINDS))].

Definition synthetic_example : res (json * json * json * json) :=
  let? s := snapshot in
  let baseline := baseline_of s in
  Ok (baseline, observed_at 100 baseline, observed_at 400 baseline, cleanup).
End Example_.

Definition some_digest : string := INDEX_SHA256.
Definition validated (now : Z) : res json :=
  let? e := synthetic_example (λ _, some_digest) in
  let '(b, r, s, c) := e in validate_preservation (λ _, None) (λ _, some_digest) b r s c (JInt now).

(** The comparison of the example is accepted, and its evidence is what
    [preservation_sound] says. *)
Definition example_part (f : json * json * json * json → json) : json :=
  match synthetic_example (λ _, some_digest) with Ok e => f e | Err _ => JNull end.
Lemma preservation_sound_witness :
  ∃ receipt, validated (start + 700) = Ok receipt
  ∧ ∃ r run ids now, JInt (start + 700) = JInt now
    ∧ (∀ v, v ∈ [example_part (λ e, e.1.1.1); example_part (λ e, e.1.1.2); example_part (λ e, e.1.2)] → reads_as r (part "database" v)) ∧ gates_closed r
    ∧ time_of (example_part (λ e, e.1.1.1)) <= time_of (example_part (λ e, e.1.1.2)) ∧ now < time_of (example_part (λ e, e.1.1.1)) + LIFETIME_MS
    ∧ cleaned (example_part (λ e, e.1.1.1)) (example_part (λ e, e.1.1.2)) (example_part (λ e, e.1.2)) (example_part (λ e, e.2)) now run ids
    ∧ (NoDup ids ∧ ∃ d1, part "d1Identity" (part "continuity" (example_part (λ e, e.1.1.1))) = JStr d1 ∧ d1 ∉ ids)
    ∧ ∀ k, k ∈ ["deploymentAllowed"; "currentProductionStateVerified"; "providerRestorationVerified"] → part k receipt = JBool false.
Proof.
  eexists. split; [vm_compute; reflexivity|].
  apply (preservation_sound (λ _, None) (λ _, some_digest)). vm_compute. reflexivity.
Defined.

(** ** The session is restored, the content captured *)

Definition session_view (s : Session) : Client := mkClient (active s) (row_factory_ s) (text_factory_ s) (length_limit s).
Lemma sqlite_lawful answer : lawful (sqlite answer) session_view.
Proof. split; intros; unfold post; simpl; done. Qed.

Lemma capture_restores_witness :
  let r := capture_sqlite synthetic_db "None" "str" (JStr run) (JStr "synthetic-production-db") (JInt start) connected in
  match r.1 with Ok _ => session_view r.2 = session_view connected | Err (Refusal l) => Refusal l = discard ∨ session_view r.2 = session_view connected | Err _ => True end.
Proof. apply (capture_restores synthetic_db "None" "str" session_view), sqlite_lawful. Defined.

Definition synthetic_answer (sql : string) : Cursor := match dict_get sql synthetic_answers with Some c => c | None => mkCursor [] [] true end.
Definition fact_body : string := String (chr 0) (String (chr 17) (String (chr 34) EmptyString)).
Definition synthetic_reference : Reference := mkReference
  [[Some "index"; Some "sqlite_autoindex_synthetic_facts_1"; Some "synthetic_facts"; None];
   [Some "table"; Some "flickr_write_gates"; Some "flickr_write_gates"; Some gates_sql];
   [Some "table"; Some "synthetic_facts"; Some "synthetic_facts"; Some facts_sql]]
  [("flickr_write_gates", mkTable ["scope"; "scope_id"; "enabled"; "revision"]
      [(Some 1, [CText "deployment"; CText "*"; CInteger 0; CInteger 7]);
       (Some 2, [CText "user"; CText "synthetic-user"; CInteger 0; CInteger 11])] true);
   ("synthetic_facts", mkTable ["id"; "body"] [(Some 1, [CText "synthetic-fact"; CBlob fact_body])] true)].
Definition synthetic_listed : list Listed :=
  [mkListed "synthetic_facts" "table" 2 0 0; mkListed "flickr_write_gates" "table" 4 0 0; mkListed "sqlite_schema" "table" 5 0 0].

Lemma synthetic_tables n t : (n, t) ∈ tables synthetic_reference →
  (n, t) = ("flickr_write_gates", (default (mkTable [] [] true) (dict_get "flickr_write_gates" (tables synthetic_reference))))
  ∨ (n, t) = ("synthetic_facts", (default (mkTable [] [] true) (dict_get "synthetic_facts" (tables synthetic_reference)))).
Proof. unfold synthetic_reference. cbn [tables]. rewrite !elem_of_cons, elem_of_nil. intros [E|[E|[]]]; [left|right]; exact E. Qed.

Lemma synthetic_honest : honest_answers synthetic_answer synthetic_reference synthetic_listed.
Proof.
  split.
  - reflexivity.
  - split_and!; [repeat constructor|vm_compute; congruence|apply (bool_decide_unpack _); vm_compute; exact I].
  - exists []. reflexivity.
  - split; [vm_compute; congruence|]. repeat constructor; do 4 eexists; (split; [reflexivity|]); intros; vm_compute; congruence.
  - split_and!; [reflexivity|apply (bool_decide_unpack _); vm_compute; exact I|vm_compute; congruence].
  - intros n t [[= -> ->]|[= -> ->]]%synthetic_tables;
      [exists (mkListed "flickr_write_gates" "table" 4 0 0)|exists (mkListed "synthetic_facts" "table" 2 0 0)];
      (split; [unfold synthetic_listed; set_solver|done]).
  - intros n t [[= -> ->]|[= -> ->]]%synthetic_tables; (split; [vm_compute; reflexivity|]); (split; [vm_compute; split; congruence|vm_compute; congruence]).
  - intros n t [[= -> ->]|[= -> ->]]%synthetic_tables; (split; [exists []; vm_compute; reflexivity|]);
      (split; [repeat constructor; vm_compute; congruence|intros _; apply (bool_decide_unpack _); vm_compute; exact I]).
  - vm_compute. congruence.
Qed.

